(* ===== verification/_CoqProject ===== *)
-Q . S2P
Prelude.v
Decimal.v
BTree.v
Types.v
Stop.v
Book.v
BookInv.v
BookOps.v
BookLoop.v
BookRun.v
BookSpec.v
BookRefine.v
BookCheck.v
BookTrades.v
BookConserve.v
BookProps.v
Bytes.v
RecordLog.v
Proto.v
Wal.v
Framing.v
LogProps.v
Wire.v
Engine.v
Track.v
OrderStatus.v
EngineInv.v
EngineRun.v
EngineLog.v
EngineProps.v
Numeric.v
Database.v
Settlement.v
Ledger.v
SettleEvent.v
SettleRun.v
SettleOrders.v
SettleProps.v
SettleMain.v
EngineClient.v
Server.v
ServerProps.v
ApiBase.v
ApiOrders.v
ApiLemmas.v
ApiSteps.v
ApiBooks.v
ApiProps.v
Admin.v
AdminProps.v
System.v
Time.v
Reserves.v
ReservesTree.v
ReservesSound.v
ReservesSummary.v
ReservesProps.v
AuthBase.v
Auth.v
AuthPg.v
AuthInv.v
AuthTokens.v
AuthConc.v
AuthProps.v
Http.v
RateLimit.v
RateProps.v
ApiKeys.v
Hmac.v
HmacProps.v
Pnl.v
PnlProps.v
History.v
MarketData.v
Ws.v
WsProps.v
Totp.v
Markets.v
Router.v
Config.v
