(* ===== verification/Prelude.v ===== *)
(** * A verification of the exchange: matching engine, settlement and API

    The development models the Rust code of the exchange under [src/] and proves it
    correct where it is; where it is not, an example runs the model on data that shows it.
    A theorem's own comment names the conditions it needs.  This comment describes the
    whole; every other file opens with a comment of its own.

    ** The program and its parts

    A user's order takes this way.  The HTTP API ([src/services/api]) routes the request
    past a rate limiter and a signature check, checks the order, locks the funds in
    PostgreSQL, writes the order row and sends the order over TCP to the matching engine
    ([src/engine]).  The engine validates it, writes it to a command log, matches it in
    the order book of its market, numbers the resulting events, writes them to an event
    log, answers the API and broadcasts the events.  The bridge of the settlement service
    ([src/services/settlement]) stores the broadcast events in a queue table; its worker
    takes them in order of their numbers and turns each into trades, ledger entries and
    balances.  The API reads those tables for its users, for administrators, for market
    data and for its proofs of reserves, keeps users, passwords, sessions, second factors
    and API keys, and passes engine events on to WebSocket clients.  The market-data
    service ([src/services/market-data]) imports prices from Binance and quotes them as a
    market maker.

    ** Conventions

    - A [rust_decimal::Decimal] is a value of a type [D] with the operations of the class
      [DecimalOps] (Decimal.v); [DecimalLaws] states what the crate documents: a decimal
      denotes a multiple of its tick, comparisons compare denotations, and addition and
      subtraction are exact as long as the result fits and panic otherwise.  Theorems
      with arithmetic speak of multiples of a tick [t] and assume what they need to fit.
    - Machine integers are [Z] with the wrap-around, saturation or refusal the code has
      written out ([u64_saturating_add], [checked_add], [wrap64], [Z.quot]); identifiers
      are [N]; a [BTreeMap] is a sorted association list (BTree.v); a [Result] is [result]
      below.
    - A [&mut self] method takes the old value and returns the new one.  A repository
      call is a transaction over the tables of Database.v, which keeps its writes only
      when it returns; a handler that makes several of them is a program of the monad of
      ApiBase.v, whose state survives an error.
    - Tasks that run at the same time are steps of a schedule: a step polls one task up to
      its next suspension, a schedule is a list of steps, and a theorem holds for every
      schedule (Server.v, SettleMain.v, EngineClient.v, Ws.v).  In Auth.v an operation is
      written once, for any way to run its undivided sections: one after the other, or as a
      task that AuthConc.v stops and resumes between them.
    - A loop that is not structural takes fuel and returns [None] when it runs out:
      [match_loop] and [work_loop] (Book.v), for which [enough_fuel] of BookRun is enough
      on a well-formed book; [replay_loop] (RecordLog.v), with the length of the file plus
      one; [process_loop] (Settlement.v), with the number of waiting events plus one;
      [merkle_loop] and [proof_loop] (Reserves.v), with the number of leaves; [sell_loop]
      (Pnl.v), with one round per lot and two more.  In each case it is proved that the
      result is there.  [Time.v] restricts days to the range an [i64] of milliseconds can
      name.
    - What the code calls but does not contain is a parameter, with its documented
      behaviour as a class of laws and an executable instance for the examples: the
      decimal crate, JSON and bincode ([Codec], [EventJson], [BinanceJson]), the
      database's NUMERIC conversion ([PgDecimal]), Unicode tables ([UnicodeCase],
      [UnicodeChars]), SHA-256 and HMAC ([HashOps], [HmacOps]), texts of decimals and
      identifiers ([DecimalText], [TextOps], [UuidText]), Argon2, JWT and random bytes
      ([AuthCrates], [JwtDecode]), pgcrypto ([Pgcrypto]), one-time passwords
      ([TotpCrate]), Redis ([RedisOps]), tokio's broadcast channels, the engine connection
      ([Transport]), the identifier source and the clock ([UuidSource], [ClockSource]).  A
      device or a database statement that can fail takes its outcomes from the state.
    - Interfaces between components are classes: [CommandLog] between the logs and the
      engine, [Transport] between the API and the engine, [AuthRepository] with
      [AuthRepositoryLaws] between the auth service and its stores, [HasKeys] between the
      signature check and the state behind it.

    ** The matching engine (src/engine)

    - Types.v, Stop.v, Book.v: [core/src/types.rs], [stop.rs] and [book.rs], one definition
      per function.  BookInv.v states the representation invariant [book_wf] (levels
      sorted, no empty level, no duplicate id, index exact, not crossed); BookOps.v,
      BookLoop.v and BookRun.v carry it through the operations, one pass of the loop, and
      complete runs.  BookSpec.v is price-time priority as a specification on flat lists
      of orders, and BookRefine.v the refinement.  BookCheck.v, BookTrades.v and
      BookConserve.v treat the checks before matching, the fills, and the conservation of
      quantity.  BookProps.v has the theorems: safety and termination, refinement,
      validity of fills, conservation, each time in force, stops, cancellation, the index
      and the published depth.
    - Bytes.v, RecordLog.v, Wal.v, Framing.v: the command log ([core/src/wal.rs]), the
      event log ([server/src/event_log.rs]) and the TCP frames ([proto/src/framing.rs]) on
      the bytes of their files and streams, with buffering and failing writes.  LogProps.v:
      what was appended is replayed, a torn record is cut off, numbering has no gaps,
      frames are read back and bounded.
    - Proto.v, Wire.v, Engine.v: [proto/src/types.rs], [server/src/wire.rs], and every
      request handler, replay and start of [server/src/state.rs].  Track.v, OrderStatus.v,
      EngineInv.v, EngineRun.v and EngineLog.v follow the open-order table, rejected
      submissions and the reported status, the invariant of the state, and both logs.
      EngineProps.v: requests in order are answered and keep the invariant, a restart after
      such requests rebuilds the state from the logs, answers carry the events of the log, halts, cancel-all,
      validation and status.
    - Server.v, ServerProps.v: [server/src/server.rs], any number of connections around one
      locked state and one broadcast channel; the state is that of the requests served one
      after the other, and the events go out once and in order.
    - Time.v: the calendar of [server/src/time.rs] against the calendar itself.

    ** Settlement (src/services/settlement)

    - Numeric.v, Database.v: the NUMERIC(38,18) columns, the tables and constraints of
      [infra/migrations/0001_init.sql], transactions and how to reason about them.
    - Settlement.v: [settlement.rs], [bridge.rs] and [events.rs].  Ledger.v, SettleEvent.v,
      SettleRun.v and SettleOrders.v treat one booking and what is in circulation, one
      event, a run of the worker and its queue, order rows, trades and the six bookings of
      a fill.
      SettleProps.v: as long as no amount lies half way between two column values and fills
      have room, balances are the sums of their ledger entries and filled quantities the
      sums of their trades, also after a failure; events are settled in order and one by
      one, a fill moves assets between its two accounts and to fees, and the bridge stores
      an event once.
    - SettleMain.v: the process of [main.rs], worker and bridge interleaved: no event is
      settled twice, and a batch catches up with what was stored when it began.

    ** The API (src/services/api)

    - EngineClient.v, ApiBase.v: [engine_client.rs] with the calls that share its
      connection, [errors.rs] and the handler monad.
    - ApiOrders.v: the order endpoints ([handlers/orders.rs], [repositories/orders.rs]) and
      the faucet.  ApiLemmas.v, ApiSteps.v and ApiBooks.v open the handlers up step by
      step.  ApiProps.v: who may touch what, an order refused by a check or by the engine
      leaves the funds as they were, a repeated client order id is answered with the first
      order, the books of settlement are kept, and the faucet keeps its limit.
    - Admin.v, AdminProps.v: [handlers/admin.rs] and [repositories/admin.rs]; actions are
      those of administrators and audited.
    - System.v: the API composed with the engine over a connection that loses messages,
      the bridge, settlement and the unlock tasks.  In whatever order these run, as long as
      amounts are exact in their columns and fills within a market, the books are kept and
      the users hold what was deposited less the fees; and a halt stops trading.
    - Reserves.v: the proof of reserves of [repositories/proof.rs] and its endpoints.
      ReservesTree.v, ReservesSound.v and ReservesSummary.v treat the Merkle tree, what a
      root commits to, and the published totals; ReservesProps.v: an accepted proof is
      for a committed leaf, a user's own proof is accepted and shows the balances, and
      the totals are those of the leaves.
    - AuthBase.v, Auth.v, AuthPg.v: [auth/service.rs], [tokens.rs], [password.rs],
      [schemas.rs], the trait [AuthRepository] as a class with laws, its PostgreSQL
      implementation as an instance of them, and the one in memory, which answers as that
      one does.  AuthInv.v and AuthTokens.v follow refresh-token families and failed logins
      through requests one after the other; AuthConc.v interleaves requests, with what a
      task promises however others come in between, and the phases of a login that
      the count of wrong answers needs.  AuthProps.v: a refresh token that was exchanged is
      not accepted again and its reuse ends the family, guesses at a password are limited,
      and signing up opens one account with empty balances; overlapping refreshes and
      overlapping guesses escape these limits.
    - Totp.v: the second factor of [handlers/totp.rs], which is demanded once it is on, and
      the profile of an account.
    - Http.v: requests, responses and the caller ([extractors/auth.rs],
      [extractors/api_caller.rs]).  RateLimit.v and RateProps.v: Redis and
      [rate_limit.rs], which is a sliding-window log.  ApiKeys.v, Hmac.v and HmacProps.v:
      API keys and the signed requests of [extractors/hmac.rs], each accepted once.
    - Router.v: [router.rs], [middleware.rs], [security_headers.rs] and
      [handlers/auth.rs]: what every answer carries and what reaches a handler, and a login
      that tells nothing about the accounts.
    - Pnl.v, PnlProps.v, History.v: profit and loss, balances and the ledger pages of
      [repositories/account.rs] and [handlers/account.rs].
    - Markets.v: [repositories/markets.rs], [handlers/markets.rs] and the listing of orders.
    - Ws.v, WsProps.v: the hub of [ws/hub.rs] and the connections of [handlers/ws.rs]: a
      subscriber gets the stream of its channel with every gap marked, and private
      channels need a token.

    ** Market data (src/services/market-data)

    - MarketData.v: [binance.rs], [persistence.rs], [quoting.rs], [engine.rs],
      [market_maker.rs] and the event loop of [main.rs].

    ** The processes

    - Config.v: what the API, settlement, market data ([config.rs] of each) and the engine
      ([main.rs] and [config.rs] of the server) read from the environment; the three
      services look for the engine where it listens, if its host is set.

    ** Not modelled

    - The wiring of the processes ([main.rs] but for the loops above, [state.rs]), the
      system clock and identifier sources ([clock.rs], part of [time.rs]), telemetry and
      the OpenAPI document: they hand values and bytes to third-party frameworks and keep
      no state of the exchange.  Traces and metrics are left out everywhere.
    - JSON and bincode layouts of the types (derived by serde), the SQL engine itself
      (statements are modelled by what they do to the tables; locking and isolation only
      as the order in which transactions run), axum and tokio beyond their documentation.
    - In Router.v the other handlers are an argument: their models run on states of their
      own, and are not joined into one state of the whole API.
    - [web/], [packages/], [infra/] apart from the schema, and the scripts: other languages.

    ** Plan

    What could follow: one state for all handlers behind Router.v, and the conditions
    System.v puts on what is settled (fills within one market, amounts that columns hold
    exactly) derived from the engine that sends it. *)
From stdpp Require Export base list strings gmap numbers sorting.
From Stdlib Require Export ZArith Lia.

Open Scope Z_scope.

(** Every identifier of the system is a [uuid::Uuid], a 128-bit value that the code
    only compares, orders and stores; [N] has the same equality and order. *)
Abbreviation Uuid := N.

(** ** Rust results *)

(** [std::result::Result]. *)
Inductive result (E A : Type) : Type :=
| Ok (a : A)
| Err (e : E).
Arguments Ok {E A} _.
Arguments Err {E A} _.

Definition res_map {E A B} (f : A -> B) (r : result E A) : result E B :=
  match r with Ok a => Ok (f a) | Err e => Err e end.

Definition res_bind {E A B} (r : result E A) (f : A -> result E B) : result E B :=
  match r with Ok a => f a | Err e => Err e end.

Declare Scope rust_scope.
Delimit Scope rust_scope with rust.
(** The [?] operator on a [Result]. *)
Notation "'let?' x := c 'in' k" := (res_bind c (fun x => k))
  (at level 10, x pattern, c at level 100, k at level 200) : rust_scope.

(** ** [Vec] and [VecDeque] operations the sources use *)

(** [Vec::pop]: the last element and the rest. *)
Definition vec_pop {A} (l : list A) : option (A * list A) :=
  match rev l with
  | [] => None
  | x :: r => Some (x, rev r)
  end.

(** [Iterator::position]. *)
Fixpoint position {A} (f : A -> bool) (l : list A) : option nat :=
  match l with
  | [] => None
  | x :: l' => if f x then Some 0%nat else S <$> position f l'
  end.

(** [VecDeque::remove]. *)
Definition vec_remove {A} (i : nat) (l : list A) : list A := delete i l.

(** [Vec::swap_remove]: the element at [i] leaves, the last one takes its place. *)
Definition swap_remove {A} (i : nat) (l : list A) : list A :=
  match vec_pop l with
  | None => []
  | Some (x, l') => <[i := x]> l'
  end.

(** ** Machine integers *)

Definition U8_MAX : Z := 255.
Definition U32_MAX : Z := 2 ^ 32 - 1.
Definition U64_MAX : Z := 2 ^ 64 - 1.

Definition u8_saturating_add (a b : Z) : Z := Z.min U8_MAX (a + b).
Definition u64_saturating_add (a b : Z) : Z := Z.min U64_MAX (a + b).

(** [u8::try_from(n).unwrap_or(u8::MAX)] on a [usize]. *)
Definition u8_try_from_or_max (n : nat) : Z := Z.min U8_MAX (Z.of_nat n).

(** ** Shared lemmas *)

Lemma vec_pop_None {A} (l : list A) : vec_pop l = None <-> l = [].
Proof.
  unfold vec_pop. split.
  - destruct (rev l) eqn:E; [|done]. intros _.
    by rewrite <-(List.rev_involutive l), E.
  - by intros ->.
Qed.

Lemma vec_pop_Some {A} (l : list A) x l' :
  vec_pop l = Some (x, l') <-> l = l' ++ [x].
Proof.
  unfold vec_pop. split.
  - destruct (rev l) eqn:E; [done|]. intros [= -> <-].
    by rewrite <-(List.rev_involutive l), E.
  - intros ->. rewrite List.rev_app_distr. simpl. by rewrite List.rev_involutive.
Qed.

Lemma vec_pop_snoc {A} (l : list A) x : vec_pop (l ++ [x]) = Some (x, l).
Proof. by apply vec_pop_Some. Qed.

Lemma position_Some {A} (f : A -> bool) l i :
  position f l = Some i ->
  exists l1 x l2, l = l1 ++ x :: l2 /\ length l1 = i /\ f x = true /\
    Forall (fun y => f y = false) l1.
Proof.
  revert i; induction l as [|y l IH]; intros i; simpl; [done|].
  destruct (f y) eqn:Ef.
  - intros [= <-]. by exists [], y, l.
  - destruct (position f l) as [j|]; simpl; [|done]. intros [= <-].
    destruct (IH j eq_refl) as (l1 & x & l2 & -> & <- & ? & ?).
    exists (y :: l1), x, l2. eauto.
Qed.

Lemma position_None {A} (f : A -> bool) l :
  position f l = None <-> Forall (fun y => f y = false) l.
Proof.
  induction l as [|y l IH]; simpl; [done|]. destruct (f y) eqn:Ef.
  - split; [done|]. intros Hf. inversion Hf; congruence.
  - rewrite Forall_cons, <-IH.
    destruct (position f l); simpl; split; try done; [by intros [? [=]]].
Qed.

Lemma delete_middle_eq {A} (l1 l2 : list A) x i :
  length l1 = i -> delete i (l1 ++ x :: l2) = l1 ++ l2.
Proof. intros <-. apply delete_middle. Qed.

(** [swap_remove] keeps every other element, in some order. *)
Lemma swap_remove_perm {A} (l1 : list A) x l2 i :
  length l1 = i -> x :: swap_remove i (l1 ++ x :: l2) ≡ₚ l1 ++ x :: l2.
Proof.
  intros <-. unfold swap_remove.
  destruct l2 as [|z l2' _] using rev_ind.
  - rewrite vec_pop_snoc, list_insert_ge by done.
    by rewrite Permutation_cons_append.
  - rewrite app_comm_cons, app_assoc, vec_pop_snoc.
    rewrite insert_app_r_alt, Nat.sub_diag by lia. simpl.
    rewrite <-!app_assoc. simpl. solve_Permutation.
Qed.

Lemma list_to_map_delete {K} `{Countable K} {A} (k : K) (v : A) l l' :
  NoDup l.*1 -> l ≡ₚ (k, v) :: l' ->
  delete k (list_to_map (M := gmap K A) l) = list_to_map l'.
Proof.
  intros Hnd Hp.
  rewrite (list_to_map_proper l ((k, v) :: l')) by done. simpl.
  rewrite Hp in Hnd. apply NoDup_cons in Hnd as [Hk _]. simpl in Hk.
  apply delete_insert_id. by apply not_elem_of_list_to_map_1.
Qed.

Lemma submseteq_NoDup {A} (l k : list A) : l ⊆+ k -> NoDup k -> NoDup l.
Proof.
  intros [r ->]%submseteq_Permutation Hn. by apply NoDup_app in Hn as [? _].
Qed.

(** ** Broadcast channels *)

(** [tokio::sync::broadcast]: values [E], senders [S] and receivers [R].  A sender that is
    kept is never closed. *)
Inductive Received (E : Type) := RxFrame (f : E) | RxLagged (n : nat) | RxPending.
Arguments RxFrame {E} _.
Arguments RxLagged {E} _.
Arguments RxPending {E}.

Class BroadcastOps (E S R : Type) := {
  broadcast_channel : nat -> S;
  bc_subscribe : S -> R;
  bc_send : E -> S -> S;
  bc_recv : S -> R -> Received E * R;
}.

(** Their documentation: everything sent so far, how many of the last values are kept, and
    which value a receiver reads next.  A receiver whose next value is gone is told so and
    goes on with the oldest one kept. *)
Class BroadcastViews (E S R : Type) := {
  bc_sent : S -> list E;
  bc_room : S -> nat;
  bc_next : R -> nat;
}.
Class BroadcastLaws (E S R : Type) {bc : BroadcastOps E S R} {views : BroadcastViews E S R} := {
  channel_sent n : bc_sent (broadcast_channel n) = [];
  channel_room n : (n <= bc_room (broadcast_channel n))%nat;
  send_sent f s : bc_sent (bc_send f s) = (bc_sent s ++ [f])%list;
  send_room f s : bc_room (bc_send f s) = bc_room s;
  subscribe_next s : bc_next (bc_subscribe s) = length (bc_sent s);
  recv_pending s r : bc_next r = length (bc_sent s) ->
    exists r', bc_recv s r = (RxPending, r') /\ bc_next r' = bc_next r;
  recv_frame s r f : (length (bc_sent s) <= bc_next r + bc_room s)%nat ->
    bc_sent s !! bc_next r = Some f ->
    exists r', bc_recv s r = (RxFrame f, r') /\ bc_next r' = Datatypes.S (bc_next r);
  recv_lagged s r : (bc_next r + bc_room s < length (bc_sent s))%nat ->
    exists n r', bc_recv s r = (RxLagged n, r') /\
      bc_next r' = (length (bc_sent s) - bc_room s)%nat;
}.

(** A channel as the list of what was sent, for the samples. *)
Record ListChannel (E : Type) := mkListChannel { lc_sent : list E; lc_room : nat }.
Arguments mkListChannel {E}.
Arguments lc_sent {E} _.
Arguments lc_room {E} _.

Definition list_broadcast {E} : BroadcastOps E (ListChannel E) nat := {|
  broadcast_channel n := mkListChannel [] n;
  bc_subscribe s := length (lc_sent s);
  bc_send f s := mkListChannel (lc_sent s ++ [f]) (lc_room s);
  bc_recv s r :=
    if (r + lc_room s <? length (lc_sent s))%nat
    then (RxLagged (length (lc_sent s) - lc_room s - r), (length (lc_sent s) - lc_room s)%nat)
    else match lc_sent s !! r with Some f => (RxFrame f, S r) | None => (RxPending, r) end;
|}.
Definition list_views {E} : BroadcastViews E (ListChannel E) nat := {|
  bc_sent := lc_sent; bc_room := lc_room; bc_next r := r |}.
Definition list_laws {E} :
  BroadcastLaws E (ListChannel E) nat (bc := list_broadcast) (views := list_views).
Proof.
  split; try done.
  - intros s r H. cbn -[Nat.ltb] in *. rewrite (proj2 (Nat.ltb_ge _ _)) by lia.
    rewrite lookup_ge_None_2 by lia. by eexists.
  - intros s r f H Hf. cbn -[Nat.ltb] in *. rewrite (proj2 (Nat.ltb_ge _ _)) by lia. rewrite Hf. by eexists.
  - intros s r H. cbn -[Nat.ltb] in *. rewrite (proj2 (Nat.ltb_lt _ _)) by lia. by do 2 eexists.
Qed.

(** ** Automation *)

Create HintDb cex.

(** Splits a hypothesis built from [match]es and closes the impossible branches. *)
Ltac split_match :=
  repeat (case_match; simplify_eq/=; try done).

Ltac case_match_in H :=
  match type of H with
  | context [match ?x with _ => _ end] => destruct x eqn:?
  end.

Ltac split_match_in H :=
  repeat (case_match_in H; simplify_eq/=; try done).
