(* ===== verification/Decimal.v ===== *)
(** * Decimal: the interface of [rust_decimal::Decimal]

    [rust_decimal] is a third-party crate, so its type is a parameter of every
    component: [DecimalOps] lists the operations the sources call and [DecimalLaws]
    what they rely on.  A [Decimal] is [m * 10^-e] with [|m| < 2^96] and
    [0 <= e <= 28]; [units] is its value counted in units of [10^-28].  Equality and
    order are those of the value ([1.0 == 1.00]).  An arithmetic result is exact
    whenever it is itself a [Decimal]; nothing is assumed of results that do not fit
    (the crate rounds or panics there).

    [lot t x] says that [x] is a non-negative multiple of the tick [t] that fits a
    96-bit mantissa; subtraction inside a tick is exact, which is what the matching
    engine needs.  [z_decimal] is an executable instance, used by the witnesses. *)
From S2P Require Import Prelude.

Class DecimalOps (D : Type) := {
  dzero : D;
  dadd : D -> D -> D;
  dsub : D -> D -> D;
  dmul : D -> D -> D;
  ddiv : D -> D -> D;
  dneg : D -> D;
  dcmp : D -> D -> comparison;
  (** [Decimal::new(num, scale)]. *)
  dnew : Z -> nat -> D;
}.

Section Comparisons.
Context {D : Type} {dops : DecimalOps D}.

Definition dltb (x y : D) : bool := match dcmp x y with Lt => true | _ => false end.
Definition dleb (x y : D) : bool := match dcmp x y with Gt => false | _ => true end.
Definition deqb (x y : D) : bool := match dcmp x y with Eq => true | _ => false end.

(** [Ord::min]: the first argument when they are equal. *)
Definition dmin (x y : D) : D := if dleb x y then x else y.

(** [Decimal::is_zero]. *)
Definition is_zero (x : D) : bool := deqb x dzero.

(** [Iterator::sum]. *)
Definition dsum (l : list D) : D := fold_left dadd l dzero.
End Comparisons.

Declare Scope dec_scope.
Delimit Scope dec_scope with dec.
Infix "<?" := dltb : dec_scope.
Infix "<=?" := dleb : dec_scope.
Infix "=?" := deqb : dec_scope.
Infix "+" := dadd : dec_scope.
Infix "-" := dsub : dec_scope.
Infix "*" := dmul : dec_scope.
Infix "/" := ddiv : dec_scope.
Notation "- x" := (dneg x) : dec_scope.

Definition ONE : Z := 10 ^ 28.

Class DecimalLaws (D : Type) {dops : DecimalOps D} := {
  units : D -> Z;
  units_inj x y : units x = units y -> x = y;
  dcmp_units x y : dcmp x y = (units x ?= units y);
  units_zero : units dzero = 0;
  units_neg x : units (dneg x) = - units x;
  dadd_exact x y r : units r = units x + units y -> dadd x y = r;
  dsub_exact x y r : units r = units x - units y -> dsub x y = r;
  dmul_exact x y r : units r * ONE = units x * units y -> dmul x y = r;
  ddiv_exact x y r :
    units y <> 0 -> units r * units y = units x * ONE -> ddiv x y = r;
  units_new n s :
    (s <= 28)%nat -> Z.abs n < 2 ^ 96 -> units (dnew n s) = n * 10 ^ (28 - Z.of_nat s);
}.

(** The ticks are the powers of ten a [Decimal] scale can stand for. *)
Definition valid_tick (t : Z) : Prop :=
  exists s, (s <= 28)%nat /\ t = 10 ^ (28 - Z.of_nat s).

Section Laws.
Context {D : Type} {dops : DecimalOps D} {dlaws : DecimalLaws D}.

Definition lot (t : Z) (x : D) : Prop :=
  exists m, units x = m * t /\ 0 <= m < 2 ^ 96.

(** A positive quantity of the tick. *)
Definition pos_lot (t : Z) (x : D) : Prop := lot t x /\ 0 < units x.

Lemma dltb_units (x y : D) : dltb x y = (units x <? units y).
Proof. unfold dltb. rewrite dcmp_units. unfold Z.ltb. done. Qed.

Lemma dleb_units (x y : D) : dleb x y = (units x <=? units y).
Proof. unfold dleb. rewrite dcmp_units. unfold Z.leb. done. Qed.

Lemma deqb_units (x y : D) : deqb x y = (units x =? units y).
Proof. unfold deqb. rewrite dcmp_units, Z.eqb_compare. done. Qed.

Lemma is_zero_units (x : D) : is_zero x = (units x =? 0).
Proof. unfold is_zero. by rewrite deqb_units, units_zero. Qed.

Lemma units_dmin (x y : D) : units (dmin x y) = Z.min (units x) (units y).
Proof. unfold dmin. rewrite dleb_units. case_match; lia. Qed.

Lemma deqb_eq (x y : D) : deqb x y = true <-> x = y.
Proof.
  rewrite deqb_units, Z.eqb_eq. split; [apply units_inj|by intros ->].
Qed.

Lemma dcmp_eq (x y : D) : dcmp x y = Eq <-> x = y.
Proof.
  rewrite dcmp_units, Z.compare_eq_iff. split; [apply units_inj|by intros ->].
Qed.

Lemma dmin_cases (x y : D) : dmin x y = x \/ dmin x y = y.
Proof. unfold dmin. case_match; auto. Qed.

Lemma valid_tick_pos t : valid_tick t -> 0 < t.
Proof. intros (s & ? & ->). apply Z.pow_pos_nonneg; lia. Qed.

(** Every mantissa of the tick is the value of some [Decimal]. *)
Lemma tick_representable t m :
  valid_tick t -> 0 <= m < 2 ^ 96 -> exists x : D, units x = m * t.
Proof.
  intros (s & Hs & ->) Hm. exists (dnew m s). apply units_new; lia.
Qed.

Lemma lot_zero t : lot t (dzero : D).
Proof. exists 0. rewrite units_zero. lia. Qed.

Lemma lot_nonneg t (x : D) : valid_tick t -> lot t x -> 0 <= units x.
Proof. intros Ht%valid_tick_pos (m & -> & ?). nia. Qed.

Lemma lot_sub t (x y : D) :
  valid_tick t -> lot t x -> lot t y -> units y <= units x ->
  units (dsub x y) = units x - units y /\ lot t (dsub x y).
Proof.
  intros Ht (m & Hx & ?) (n & Hy & ?) Hle.
  pose proof (valid_tick_pos t Ht) as Hpos.
  destruct (tick_representable t (m - n) Ht) as [r Hr].
  { assert (n <= m) by nia. lia. }
  assert (dsub x y = r) as -> by (apply dsub_exact; rewrite Hx, Hy, Hr; ring).
  rewrite Hr, Hx, Hy. split; [ring|]. exists (m - n). nia.
Qed.

Lemma lot_sub_units t (x y : D) :
  valid_tick t -> lot t x -> lot t y -> units y <= units x ->
  units (dsub x y) = units x - units y.
Proof. intros. by apply (lot_sub t). Qed.

Lemma lot_dmin t (x y : D) : lot t x -> lot t y -> lot t (dmin x y).
Proof. by destruct (dmin_cases x y) as [-> | ->]. Qed.

Lemma pos_lot_lot t (x : D) : pos_lot t x -> lot t x.
Proof. by intros []. Qed.

Lemma pos_lot_dmin t (x y : D) : pos_lot t x -> pos_lot t y -> pos_lot t (dmin x y).
Proof. by destruct (dmin_cases x y) as [-> | ->]. Qed.

(** A sum of quantities of one tick is exact as long as it fits. *)
Lemma lot_add t (x y : D) :
  valid_tick t -> lot t x -> lot t y -> units x + units y < t * 2 ^ 96 ->
  units (dadd x y) = units x + units y /\ lot t (dadd x y).
Proof.
  intros Ht (m & Hx & ?) (n & Hy & ?) Hlt.
  pose proof (valid_tick_pos t Ht) as Hpos.
  destruct (tick_representable t (m + n) Ht) as [r Hr]; [nia|].
  assert (dadd x y = r) as -> by (apply dadd_exact; rewrite Hx, Hy, Hr; ring).
  rewrite Hr, Hx, Hy. split; [ring|]. exists (m + n). nia.
Qed.

Lemma dadd_zero_l (x : D) : dadd dzero x = x.
Proof. apply dadd_exact. rewrite units_zero. lia. Qed.

Lemma dadd_zero_r (x : D) : dadd x dzero = x.
Proof. apply dadd_exact. rewrite units_zero. lia. Qed.
End Laws.

Create HintDb dec.
#[export] Hint Rewrite @dltb_units @dleb_units @deqb_units @is_zero_units
  @units_dmin @units_zero @units_neg using typeclasses eauto : dec.
#[export] Hint Resolve lot_zero lot_dmin pos_lot_lot pos_lot_dmin : cex.

(** Moves decimal comparisons to [Z] and calls [lia]. *)
Ltac dlia := autorewrite with dec in *; lia.

(** ** An executable instance: fixed point with 28 decimal places, unbounded. *)

#[export] Instance z_decimal : DecimalOps Z := {|
  dzero := 0;
  dadd := Z.add;
  dsub := Z.sub;
  dmul x y := x * y / ONE;
  ddiv x y := x * ONE / y;
  dneg := Z.opp;
  dcmp := Z.compare;
  dnew n s := n * 10 ^ (28 - Z.of_nat s);
|}.

#[export] Instance z_decimal_laws : DecimalLaws Z.
Proof.
  refine {| units := fun x : Z => x |}; simpl.
  - done.
  - done.
  - done.
  - done.
  - intros; lia.
  - intros; lia.
  - intros x y r Hr. rewrite <-Hr. by apply Z.div_mul.
  - intros x y r Hy Hr. rewrite <-Hr. by apply Z.div_mul.
  - done.
Defined.
