(* ===== verification/BTree.v ===== *)
(** * BTree: [std::collections::BTreeMap] as a sorted association list

    The sources keep price levels, stop buckets, markets and users in [BTreeMap]s
    and read them in key order.  A map is the list of its entries, [sorted] when its
    keys strictly increase; every operation below preserves [sorted].  [bt_entries]
    (the list itself) gives the iteration order. *)
From S2P Require Import Prelude Decimal.

Class KeyOrd (K : Type) := kcmp : K -> K -> comparison.

Class KeyOrdLaws (K : Type) {ko : KeyOrd K} := {
  kcmp_eq x y : kcmp x y = Eq <-> x = y;
  kcmp_antisym x y : kcmp y x = CompOpp (kcmp x y);
  kcmp_trans x y z : kcmp x y = Lt -> kcmp y z = Lt -> kcmp x z = Lt;
}.

Definition klt {K} {ko : KeyOrd K} (x y : K) : Prop := kcmp x y = Lt.

#[export] Instance dec_key {D} {dops : DecimalOps D} : KeyOrd D := dcmp.

#[export] Instance dec_key_laws {D} {dops : DecimalOps D} {dl : DecimalLaws D} :
  KeyOrdLaws D.
Proof.
  split; unfold kcmp, dec_key; [apply dcmp_eq|..]; intros *; rewrite !dcmp_units.
  - apply Z.compare_antisym.
  - rewrite !Z.compare_lt_iff. lia.
Qed.

Lemma klt_units {D} {dops : DecimalOps D} {dl : DecimalLaws D} (x y : D) :
  klt x y <-> units x < units y.
Proof. unfold klt, kcmp, dec_key. by rewrite dcmp_units, Z.compare_lt_iff. Qed.

Abbreviation btree K V := (list (K * V)).

Section Ops.
Context {K V : Type} {ko : KeyOrd K}.
Implicit Types (m : btree K V).

(** [BTreeMap::get]. *)
Fixpoint bt_get (k : K) m : option V :=
  match m with
  | [] => None
  | (k', v) :: m' =>
      match kcmp k k' with
      | Eq => Some v
      | Lt => None
      | Gt => bt_get k m'
      end
  end.

(** [BTreeMap::insert]. *)
Fixpoint bt_insert (k : K) (v : V) m : btree K V :=
  match m with
  | [] => [(k, v)]
  | (k', v') :: m' =>
      match kcmp k k' with
      | Eq => (k', v) :: m'
      | Lt => (k, v) :: m
      | Gt => (k', v') :: bt_insert k v m'
      end
  end.

(** [BTreeMap::remove]. *)
Fixpoint bt_remove (k : K) m : btree K V :=
  match m with
  | [] => []
  | (k', v') :: m' =>
      match kcmp k k' with
      | Eq => m'
      | Lt => m
      | Gt => (k', v') :: bt_remove k m'
      end
  end.

(** [map.keys().next()] and [map.keys().next_back()]. *)
Definition bt_first m : option K := head m.*1.
Definition bt_last m : option K := last m.*1.

Definition keys m : list K := m.*1.
Definition sorted m : Prop := StronglySorted klt (keys m).
End Ops.

Section Theory.
Context {K V : Type} {ko : KeyOrd K} {kl : KeyOrdLaws K}.
Implicit Types (m : btree K V) (k : K) (v : V).

Lemma kcmp_refl k : kcmp k k = Eq.
Proof. by apply kcmp_eq. Qed.

Lemma kcmp_gt k k' : kcmp k k' = Gt <-> klt k' k.
Proof. unfold klt. rewrite (kcmp_antisym k k'). by destruct (kcmp k k'). Qed.

Lemma klt_irrefl k : ~ klt k k.
Proof. unfold klt. by rewrite kcmp_refl. Qed.

#[export] Instance klt_trans : Transitive (klt (K := K)).
Proof. intros x y z. apply kcmp_trans. Qed.

Lemma sorted_nil : sorted (@nil (K * V)).
Proof. constructor. Qed.

Lemma sorted_cons k v m :
  sorted ((k, v) :: m) <-> Forall (klt k) (keys m) /\ sorted m.
Proof.
  unfold sorted, keys. simpl. split.
  - intros H. inversion H; auto.
  - intros []. by constructor.
Qed.

Lemma bt_remove_keys_Forall (P : K -> Prop) k m :
  Forall P (keys m) -> Forall P (keys (bt_remove k m)).
Proof.
  unfold keys. induction m as [|[k' v'] m IH]; simpl; [done|].
  rewrite Forall_cons. intros []. case_match; simpl; auto.
Qed.

Lemma bt_insert_keys_Forall (P : K -> Prop) k v m :
  P k -> Forall P (keys m) -> Forall P (keys (bt_insert k v m)).
Proof.
  unfold keys. intros Hk. induction m as [|[k' v'] m IH]; simpl; [auto|].
  rewrite Forall_cons. intros []. case_match; simpl; auto.
Qed.

Lemma bt_remove_sorted k m : sorted m -> sorted (bt_remove k m).
Proof.
  induction m as [|[k' v'] m IH]; simpl; [done|]. intros Hs.
  pose proof Hs as [??]%sorted_cons. case_match; [done|done|].
  apply sorted_cons. auto using bt_remove_keys_Forall.
Qed.

Lemma bt_insert_sorted k v m : sorted m -> sorted (bt_insert k v m).
Proof.
  induction m as [|[k' v'] m IH]; simpl.
  - intros _. repeat constructor.
  - intros [Hf Hs]%sorted_cons. case_match eqn:E.
    + by apply sorted_cons.
    + apply sorted_cons. split; [|by apply sorted_cons].
      constructor; [done|]. eapply Forall_impl; [exact Hf|].
      intros x. by apply kcmp_trans.
    + apply sorted_cons. split; [|auto].
      apply bt_insert_keys_Forall; [by apply kcmp_gt|done].
Qed.

(** Looking an entry up is membership. *)
Lemma bt_get_elem k v m : sorted m -> bt_get k m = Some v <-> (k, v) ∈ m.
Proof.
  induction m as [|[k' v'] m IH]; simpl; [intros _; set_solver|].
  intros [Hf Hs]%sorted_cons. rewrite Forall_forall in Hf.
  rewrite elem_of_cons. case_match eqn:E.
  - apply kcmp_eq in E as ->. split; [by intros [= ->]; left|].
    intros [[= ->]|Hin]; [done|]. exfalso.
    apply (klt_irrefl k'), Hf. apply list_elem_of_fmap. by exists (k', v).
  - split; [done|]. intros [[= -> ->]|Hin].
    + by rewrite kcmp_refl in E.
    + exfalso. apply (klt_irrefl k). trans k'; [exact E|].
      apply Hf, list_elem_of_fmap. by exists (k, v).
  - rewrite IH by done. split; [auto|]. intros [[= -> ->]|]; [|done].
    by rewrite kcmp_refl in E.
Qed.

(** Splits a sorted map at one of its keys. *)
Lemma bt_get_split k v m :
  sorted m -> bt_get k m = Some v ->
  exists m1 m2, m = m1 ++ (k, v) :: m2 /\
    Forall (fun x => klt x k) (keys m1) /\ Forall (klt k) (keys m2) /\
    bt_remove k m = m1 ++ m2 /\ (forall w, bt_insert k w m = m1 ++ (k, w) :: m2).
Proof.
  induction m as [|[k' v'] m IH]; simpl; [done|].
  intros [Hf Hs]%sorted_cons. case_match eqn:E; [|done|].
  - apply kcmp_eq in E as ->. intros [= ->]. exists [], m. simpl.
    split_and!; try done; by constructor.
  - intros Hg. destruct (IH Hs Hg) as (m1 & m2 & -> & Hlo & Hhi & -> & Hi).
    exists ((k', v') :: m1), m2. simpl. split_and!; try done.
    + by apply Forall_cons; rewrite <-kcmp_gt.
    + intros w. by rewrite Hi.
Qed.

(** Splits a sorted map at a key it does not hold. *)
Lemma bt_get_None_split k m :
  sorted m -> bt_get k m = None ->
  exists m1 m2, m = m1 ++ m2 /\
    Forall (fun x => klt x k) (keys m1) /\ Forall (klt k) (keys m2) /\
    bt_remove k m = m1 ++ m2 /\ (forall w, bt_insert k w m = m1 ++ (k, w) :: m2).
Proof.
  induction m as [|[k' v'] m IH]; simpl.
  - intros _ _. exists [], []. simpl. split_and!; auto; by constructor.
  - intros [Hf Hs]%sorted_cons. case_match eqn:E; [done|intros _|].
    + exists [], ((k', v') :: m). simpl. split_and!; try done; [].
      constructor; [done|]. eapply Forall_impl; [exact Hf|].
      intros x. by apply kcmp_trans.
    + intros Hg. destruct (IH Hs Hg) as (m1 & m2 & -> & Hlo & Hhi & -> & Hi).
      exists ((k', v') :: m1), m2. simpl. split_and!; try done.
      * by apply Forall_cons; rewrite <-kcmp_gt.
      * intros w. by rewrite Hi.
Qed.

Lemma bt_get_perm k v m :
  sorted m -> bt_get k m = Some v -> m ≡ₚ (k, v) :: bt_remove k m.
Proof.
  intros Hs Hg. destruct (bt_get_split k v m Hs Hg) as (m1 & m2 & -> & _ & _ & -> & _).
  by rewrite Permutation_middle.
Qed.

Lemma bt_get_None_remove k m : sorted m -> bt_get k m = None -> bt_remove k m = m.
Proof.
  intros Hs Hg. by destruct (bt_get_None_split k m Hs Hg) as (? & ? & -> & _ & _ & -> & _).
Qed.

Lemma bt_insert_perm k v m : sorted m -> bt_insert k v m ≡ₚ (k, v) :: bt_remove k m.
Proof.
  intros Hs. destruct (bt_get k m) as [w|] eqn:Hg.
  - destruct (bt_get_split k w m Hs Hg) as (m1 & m2 & -> & _ & _ & -> & ->).
    by rewrite Permutation_middle.
  - destruct (bt_get_None_split k m Hs Hg) as (m1 & m2 & -> & _ & _ & -> & ->).
    by rewrite Permutation_middle.
Qed.

Lemma bt_remove_not_in k m : sorted m -> k ∉ keys (bt_remove k m).
Proof.
  intros Hs Hin.
  assert (exists m1 m2, bt_remove k m = m1 ++ m2 /\
    Forall (fun x => klt x k) (keys m1) /\ Forall (klt k) (keys m2))
    as (m1 & m2 & Heq & H1 & H2).
  { destruct (bt_get k m) as [w|] eqn:Hg.
    - destruct (bt_get_split k w m Hs Hg) as (m1 & m2 & ? & ? & ? & ? & ?). eauto.
    - destruct (bt_get_None_split k m Hs Hg) as (m1 & m2 & ? & ? & ? & ? & ?). eauto. }
  rewrite Heq in Hin. unfold keys in *. rewrite fmap_app in Hin.
  rewrite Forall_forall in H1, H2.
  apply elem_of_app in Hin as [?%H1|?%H2]; by eapply klt_irrefl.
Qed.

Lemma bt_get_insert k v m : sorted m -> bt_get k (bt_insert k v m) = Some v.
Proof.
  intros Hs. apply bt_get_elem; [by apply bt_insert_sorted|].
  rewrite bt_insert_perm by done. left.
Qed.

Lemma bt_get_insert_ne k k' v m :
  sorted m -> k <> k' -> bt_get k (bt_insert k' v m) = bt_get k m.
Proof.
  intros Hs Hne. apply option_eq. intros w.
  rewrite !bt_get_elem by auto using bt_insert_sorted.
  rewrite bt_insert_perm by done.
  destruct (bt_get k' m) as [u|] eqn:E.
  - rewrite (bt_get_perm k' u m) at 2 by done. rewrite !elem_of_cons. naive_solver.
  - rewrite bt_get_None_remove by done. rewrite elem_of_cons. naive_solver.
Qed.

Lemma bt_get_remove k m : sorted m -> bt_get k (bt_remove k m) = None.
Proof.
  intros Hs. destruct (bt_get k (bt_remove k m)) as [v|] eqn:E; [|done].
  apply bt_get_elem in E; [|by apply bt_remove_sorted].
  destruct (bt_remove_not_in k m Hs). apply list_elem_of_fmap. by exists (k, v).
Qed.

Lemma bt_get_remove_ne k k' m :
  sorted m -> k <> k' -> bt_get k (bt_remove k' m) = bt_get k m.
Proof.
  intros Hs Hne. destruct (bt_get k' m) as [u|] eqn:E.
  - apply option_eq. intros w. rewrite !bt_get_elem by auto using bt_remove_sorted.
    rewrite (bt_get_perm k' u m) at 2 by done. rewrite elem_of_cons. naive_solver.
  - by rewrite bt_get_None_remove.
Qed.

Lemma bt_remove_insert k v m : sorted m -> bt_remove k (bt_insert k v m) = bt_remove k m.
Proof.
  intros Hs. induction m as [|[k' v'] m IH]; simpl; [by rewrite kcmp_refl|].
  apply sorted_cons in Hs as [??]. case_match eqn:E; simpl.
  - by rewrite E.
  - by rewrite kcmp_refl.
  - rewrite E. f_equal. auto.
Qed.

Lemma bt_first_Some k m :
  sorted m -> bt_first m = Some k <->
  exists v m', m = (k, v) :: m'.
Proof. intros _. unfold bt_first. destruct m as [|[??] ?]; naive_solver. Qed.

Lemma bt_last_Some k m :
  bt_last m = Some k <-> exists v m', m = m' ++ [(k, v)].
Proof.
  unfold bt_last. destruct m as [|[k' v'] m' _] using rev_ind.
  - split; [done|]. intros (? & [] & ?); done.
  - rewrite fmap_app. simpl. rewrite last_snoc. split; [intros [= ->]; eauto|].
    intros (? & ? & Heq). apply app_inj_tail in Heq as [_ [= -> ->]]. done.
Qed.

Lemma bt_first_None m : bt_first m = None <-> m = [].
Proof. unfold bt_first. destruct m as [|[??] ?]; naive_solver. Qed.

Lemma bt_last_None m : bt_last m = None <-> m = [].
Proof.
  unfold bt_last. rewrite last_None. split; [|by intros ->]. apply fmap_nil_inv.
Qed.

Lemma bt_first_min k k' m :
  sorted m -> bt_first m = Some k -> k' ∈ keys m -> k' = k \/ klt k k'.
Proof.
  intros Hs (v & m' & ->)%bt_first_Some; [|done].
  apply sorted_cons in Hs as [Hf _]. rewrite Forall_forall in Hf.
  simpl. rewrite elem_of_cons. naive_solver.
Qed.

Lemma sorted_app m1 m2 :
  sorted (m1 ++ m2) <->
  sorted m1 /\ sorted m2 /\ Forall (fun x => Forall (klt x) (keys m2)) (keys m1).
Proof.
  induction m1 as [|[k v] m1 IH].
  - simpl. split; [intros; split_and!; [apply sorted_nil|done|constructor]|tauto].
  - simpl. rewrite !sorted_cons, IH. unfold keys. simpl.
    rewrite fmap_app, Forall_app, Forall_cons. tauto.
Qed.

Lemma bt_last_max k k' m :
  sorted m -> bt_last m = Some k -> k' ∈ keys m -> k' = k \/ klt k' k.
Proof.
  intros Hs (v & m' & ->)%bt_last_Some Hin.
  apply sorted_app in Hs as (_ & _ & Hf). rewrite Forall_forall in Hf.
  unfold keys in *. rewrite fmap_app, elem_of_app in Hin. destruct Hin as [Hin|Hin].
  - right. apply Hf in Hin. simpl in Hin. by inversion Hin.
  - left. simpl in Hin. by apply list_elem_of_singleton in Hin.
Qed.

Lemma bt_first_get k m : sorted m -> bt_first m = Some k -> exists v, bt_get k m = Some v.
Proof.
  intros Hs (v & m' & ->)%bt_first_Some; [|done]. exists v.
  apply bt_get_elem; [done|left].
Qed.

Lemma bt_last_get k m : sorted m -> bt_last m = Some k -> exists v, bt_get k m = Some v.
Proof.
  intros Hs (v & m' & ->)%bt_last_Some. exists v.
  apply bt_get_elem; [done|]. set_solver.
Qed.

Lemma bt_get_key k v m : sorted m -> bt_get k m = Some v -> k ∈ keys m.
Proof.
  intros Hs Hg%bt_get_elem; [|done]. apply list_elem_of_fmap. by exists (k, v).
Qed.

Lemma bt_remove_keys_subset k m : keys (bt_remove k m) ⊆ keys m.
Proof.
  intros x. unfold keys. induction m as [|[k' v'] m IH]; simpl; [done|].
  case_match; simpl; set_solver.
Qed.

Lemma sorted_NoDup_keys m : sorted m -> NoDup (keys m).
Proof.
  induction m as [|[k v] m IH]; simpl; [constructor|].
  intros [Hf Hs]%sorted_cons. constructor; [|auto].
  intros Hin. rewrite Forall_forall in Hf. by apply (klt_irrefl k), Hf.
Qed.
End Theory.
