(* ===== verification/Types.v ===== *)
(** * Types: the domain types of [engine/crates/core/src/types.rs]

    Field names carry the prefix [o_] (Order) or [fl_] (Fill). *)
From S2P Require Import Prelude Decimal.

Inductive Side := Buy | Sell.
#[export] Instance Side_eq_dec : EqDecision Side.
Proof. solve_decision. Defined.

(** [Side::opposite]. *)
Definition opposite (s : Side) : Side :=
  match s with Buy => Sell | Sell => Buy end.

Inductive OrderType :=
  Limit | Market | Ioc | Fok | PostOnly | StopLimit | StopMarket | Oco | Iceberg.
#[export] Instance OrderType_eq_dec : EqDecision OrderType.
Proof. solve_decision. Defined.

(** [OrderType::is_stop]. *)
Definition is_stop (t : OrderType) : bool :=
  match t with StopLimit | StopMarket => true | _ => false end.

(** [OrderType::cancels_remaining]. *)
Definition cancels_remaining (t : OrderType) : bool :=
  match t with Market | Ioc => true | _ => false end.

Inductive StpMode := Decrement | CancelMaker | CancelTaker.
#[export] Instance StpMode_eq_dec : EqDecision StpMode.
Proof. solve_decision. Defined.

Inductive CancelReason :=
  NoLiquidity | FokUnfilled | PostOnlyCrossed | SelfTradePrevented | OcoLinked | AdminCancel.
#[export] Instance CancelReason_eq_dec : EqDecision CancelReason.
Proof. solve_decision. Defined.

Record Order (D : Type) := mkOrder {
  o_id : Uuid;
  o_user_id : Uuid;
  o_symbol : string;
  o_side : Side;
  o_order_type : OrderType;
  o_price : option D;
  o_quantity : D;
  o_remaining : D;
  o_stp_mode : StpMode;
  o_stop_price : option D;
  o_oco_linked_id : option Uuid;
  o_display_qty : option D;
}.
Arguments mkOrder {D}.
Arguments o_id {D} _.
Arguments o_user_id {D} _.
Arguments o_symbol {D} _.
Arguments o_side {D} _.
Arguments o_order_type {D} _.
Arguments o_price {D} _.
Arguments o_quantity {D} _.
Arguments o_remaining {D} _.
Arguments o_stp_mode {D} _.
Arguments o_stop_price {D} _.
Arguments o_oco_linked_id {D} _.
Arguments o_display_qty {D} _.

Record Fill (D : Type) := mkFill {
  fl_taker_order_id : Uuid;
  fl_maker_order_id : Uuid;
  fl_price : D;
  fl_quantity : D;
  fl_taker_side : Side;
}.
Arguments mkFill {D}.
Arguments fl_taker_order_id {D} _.
Arguments fl_maker_order_id {D} _.
Arguments fl_price {D} _.
Arguments fl_quantity {D} _.
Arguments fl_taker_side {D} _.

(** [types::Error]. *)
Inductive CoreError :=
  MissingStopPrice | MissingDisplayQty | MissingPrice | MissingOcoLink.

Section Orders.
Context {D : Type} {dops : DecimalOps D}.

(** [order.remaining = r]. *)
Definition set_remaining (r : D) (o : Order D) : Order D :=
  mkOrder (o_id o) (o_user_id o) (o_symbol o) (o_side o) (o_order_type o) (o_price o)
    (o_quantity o) r (o_stp_mode o) (o_stop_price o) (o_oco_linked_id o) (o_display_qty o).

(** [order.order_type = t]. *)
Definition set_order_type (t : OrderType) (o : Order D) : Order D :=
  mkOrder (o_id o) (o_user_id o) (o_symbol o) (o_side o) t (o_price o)
    (o_quantity o) (o_remaining o) (o_stp_mode o) (o_stop_price o) (o_oco_linked_id o)
    (o_display_qty o).

Definition ids (l : list (Order D)) : list Uuid := o_id <$> l.

Context {dlaws : DecimalLaws D}.

(** The types whose remainder rests at [price]. *)
Definition rests (t : OrderType) : bool :=
  match t with Limit | PostOnly | Iceberg | Oco | StopLimit => true | _ => false end.

(** A well-formed order: a positive remaining quantity of the tick, a positive
    display quantity when there is one, a price when its remainder can rest. *)
Definition order_ok (t : Z) (o : Order D) : Prop :=
  pos_lot t (o_remaining o) /\
  (forall d, o_display_qty o = Some d -> pos_lot t d) /\
  (rests (o_order_type o) = true -> is_Some (o_price o)).

(** The number of fills an order can take part in as a maker before it is used up:
    one, or one for each display slice of an iceberg. *)
Definition slices (o : Order D) : nat :=
  match o_display_qty o with
  | None => 1
  | Some d =>
      Z.to_nat ((units (o_remaining o) + units d - 1) / units d)
  end.

Definition total_slices (l : list (Order D)) : nat := sum_list_with slices l.

(** The total remaining quantity, in units. *)
Definition qty (l : list (Order D)) : Z := foldr (fun o acc => units (o_remaining o) + acc) 0 l.

Lemma qty_app l1 l2 : qty (l1 ++ l2) = qty l1 + qty l2.
Proof. induction l1; simpl; lia. Qed.

#[export] Instance qty_perm : Proper (Permutation ==> eq) qty.
Proof. unfold qty. induction 1; simpl in *; lia. Qed.

Lemma ids_app l1 l2 : ids (l1 ++ l2) = ids l1 ++ ids l2.
Proof. apply fmap_app. Qed.

Lemma ids_in o l : o ∈ l -> o_id o ∈ ids l.
Proof. intros. apply list_elem_of_fmap. eauto. Qed.

#[export] Instance ids_perm : Proper (Permutation ==> Permutation) ids.
Proof. intros l1 l2 H. unfold ids. by rewrite H. Qed.

#[export] Instance total_slices_perm : Proper (Permutation ==> eq) total_slices.
Proof.
  unfold total_slices. induction 1; simpl in *; lia.
Qed.

Lemma total_slices_app l1 l2 : total_slices (l1 ++ l2) = (total_slices l1 + total_slices l2)%nat.
Proof. apply sum_list_with_app. Qed.

Lemma opposite_involutive s : opposite (opposite s) = s.
Proof. by destruct s. Qed.

Lemma set_remaining_same o : set_remaining (o_remaining o) o = o.
Proof. by destruct o. Qed.

Lemma order_ok_rem t o : order_ok t o -> pos_lot t (o_remaining o).
Proof. by intros (? & _). Qed.

Lemma order_ok_set_remaining t o r :
  order_ok t o -> pos_lot t r -> order_ok t (set_remaining r o).
Proof. by intros (_ & ? & ?) ?. Qed.

(** Every order that is not used up has at least one slice. *)
Lemma slices_pos t o : order_ok t o -> (1 <= slices o)%nat.
Proof.
  intros ((_ & Hr) & Hd & _). unfold slices. destruct (o_display_qty o) as [d|]; [|lia].
  destruct (Hd d eq_refl) as [_ ?].
  assert (1 <= (units (o_remaining o) + units d - 1) / units d)
    by (apply Z.div_le_lower_bound; lia). lia.
Qed.

(** Taking quantity off an order adds no slice. *)
Lemma slices_mono t o r :
  order_ok t o -> units r <= units (o_remaining o) ->
  (slices (set_remaining r o) <= slices o)%nat.
Proof.
  intros (_ & Hd & _) Hr. unfold slices. simpl.
  destruct (o_display_qty o) as [d|]; [|lia]. destruct (Hd d eq_refl) as [_ ?].
  assert ((units r + units d - 1) / units d <=
          (units (o_remaining o) + units d - 1) / units d) by (apply Z.div_le_mono; lia).
  lia.
Qed.

(** Filling a whole display slice of an iceberg uses one slice up. *)
Lemma slices_peak t o d r :
  order_ok t o -> o_display_qty o = Some d -> 0 < units r ->
  units r = units (o_remaining o) - units d ->
  (slices (set_remaining r o) < slices o)%nat.
Proof.
  intros (_ & Hd & _) Hdisp Hpos Hr. destruct (Hd d Hdisp) as [_ Hdpos].
  unfold slices. simpl. rewrite Hdisp.
  replace (units (o_remaining o) + units d - 1)
    with (units r + units d - 1 + 1 * units d) by lia.
  rewrite Z.div_add by lia.
  assert (0 <= (units r + units d - 1) / units d) by (apply Z.div_pos; lia). lia.
Qed.
End Orders.

#[export] Hint Resolve order_ok_rem order_ok_set_remaining : cex.
