(* ===== verification/Stop.v ===== *)
(** * Stop: the stop-order registry of [engine/crates/core/src/stop.rs] *)
From S2P Require Import Prelude Decimal BTree Types.

Record StopRegistry (D : Type) := mkStops {
  buy_stops : btree D (list (Order D));
  sell_stops : btree D (list (Order D));
}.
Arguments mkStops {D}.
Arguments buy_stops {D} _.
Arguments sell_stops {D} _.

Section Stops.
Context {D : Type} {dops : DecimalOps D}.
Implicit Types (r : StopRegistry D) (o : Order D) (m : btree D (list (Order D))).

Definition stops_new : StopRegistry D := mkStops [] [].

(** [map.entry(k).or_default().push(o)]. *)
Definition bucket_push (k : D) o m : btree D (list (Order D)) :=
  bt_insert k (default [] (bt_get k m) ++ [o]) m.

Definition stop_insert o r : result CoreError (StopRegistry D) :=
  match o_stop_price o with
  | None => Err MissingStopPrice
  | Some stop_price =>
      match o_side o with
      | Buy => Ok (mkStops (bucket_push stop_price o (buy_stops r)) (sell_stops r))
      | Sell => Ok (mkStops (buy_stops r) (bucket_push stop_price o (sell_stops r)))
      end
  end.

(** One [for bucket in map.values_mut()] loop of [cancel]: the first bucket with a
    match loses it by [swap_remove]; the bucket stays, empty or not. *)
Fixpoint cancel_in (order_id : Uuid) m : option (btree D (list (Order D))) :=
  match m with
  | [] => None
  | (k, bucket) :: m' =>
      match position (fun o => N.eqb (o_id o) order_id) bucket with
      | Some pos => Some ((k, swap_remove pos bucket) :: m')
      | None => (fun m'' => (k, bucket) :: m'') <$> cancel_in order_id m'
      end
  end.

Definition stop_cancel (order_id : Uuid) r : option (StopRegistry D) :=
  match cancel_in order_id (buy_stops r) with
  | Some m => Some (mkStops m (sell_stops r))
  | None =>
      match cancel_in order_id (sell_stops r) with
      | Some m => Some (mkStops (buy_stops r) m)
      | None => None
      end
  end.

Definition convert_stop o : Order D :=
  set_order_type
    match o_order_type o with
    | StopLimit => Limit
    | StopMarket => Market
    | other => other
    end o.

(** [for key in trigger_keys { if let Some(orders) = map.remove(&key) {..} }]. *)
Fixpoint drain_keys (ks : list D) m (out : list (Order D)) :
  list (Order D) * btree D (list (Order D)) :=
  match ks with
  | [] => (out, m)
  | k :: ks' =>
      match bt_get k m with
      | Some orders => drain_keys ks' (bt_remove k m) (out ++ (convert_stop <$> orders))
      | None => drain_keys ks' m out
      end
  end.

(** [range(..=p)] and [range(p..)]. *)
Definition keys_le (p : D) m : list D := filter (fun k => dleb k p = true) (keys m).
Definition keys_ge (p : D) m : list D := filter (fun k => dleb p k = true) (keys m).

Definition drain_buy_stops (p : D) r : list (Order D) * StopRegistry D :=
  let (out, m) := drain_keys (keys_le p (buy_stops r)) (buy_stops r) [] in
  (out, mkStops m (sell_stops r)).

Definition drain_sell_stops (p : D) r : list (Order D) * StopRegistry D :=
  let (out, m) := drain_keys (keys_ge p (sell_stops r)) (sell_stops r) [] in
  (out, mkStops (buy_stops r) m).

Definition drain_triggered (p : D) r : list (Order D) * StopRegistry D :=
  let (buys, r1) := drain_buy_stops p r in
  let (sells, r2) := drain_sell_stops p r1 in
  (buys ++ sells, r2).

Definition bucket_len (m : btree D (list (Order D))) : nat :=
  sum_list_with (fun e => length e.2) m.
Definition stop_len r : nat := (bucket_len (buy_stops r) + bucket_len (sell_stops r))%nat.
Definition stop_is_empty r : bool := (stop_len r =? 0)%nat.
End Stops.

Section StopTheory.
Context {D : Type} {dops : DecimalOps D} {dlaws : DecimalLaws D}.
Implicit Types (r : StopRegistry D) (o : Order D) (m : btree D (list (Order D))).

Definition bucket_orders m : list (Order D) := concat m.*2.
Definition stop_orders r : list (Order D) :=
  bucket_orders (buy_stops r) ++ bucket_orders (sell_stops r).

(** A stop order filed at trigger price [k] on side [s]. *)
Definition stop_ok (t : Z) (s : Side) (k : D) o : Prop :=
  order_ok t o /\ o_side o = s /\ o_stop_price o = Some k /\ is_stop (o_order_type o) = true.

Definition buckets_ok (t : Z) (s : Side) m : Prop :=
  sorted m /\ Forall (fun e => Forall (stop_ok t s e.1) e.2) m.

Definition stops_ok (t : Z) r : Prop :=
  buckets_ok t Buy (buy_stops r) /\ buckets_ok t Sell (sell_stops r).

Lemma bucket_orders_app m1 m2 :
  bucket_orders (m1 ++ m2) = bucket_orders m1 ++ bucket_orders m2.
Proof. unfold bucket_orders. by rewrite fmap_app, concat_app. Qed.

Lemma bucket_orders_cons k q m : bucket_orders ((k, q) :: m) = q ++ bucket_orders m.
Proof. done. Qed.

#[export] Instance bucket_orders_perm :
  Proper (Permutation ==> Permutation) bucket_orders.
Proof.
  intros m1 m2 H. unfold bucket_orders. induction H as [|[]|[] []|]; simpl.
  - done.
  - by f_equiv.
  - rewrite !(assoc (++)). f_equiv. apply Permutation_app_comm.
  - by etrans.
Qed.

Lemma bucket_orders_in o m : o ∈ bucket_orders m <-> exists k q, (k, q) ∈ m /\ o ∈ q.
Proof.
  unfold bucket_orders. induction m as [|[k q] m IH]; simpl.
  - split; [by intros ?%elem_of_nil|]. intros (? & ? & ?%elem_of_nil & _). done.
  - rewrite elem_of_app, IH. setoid_rewrite elem_of_cons. split.
    + intros [?|(? & ? & ? & ?)]; eauto 10.
    + intros (? & ? & [[= -> ->]|?] & ?); eauto 10.
Qed.

(** *** Insertion *)

Lemma bucket_push_orders k o m :
  sorted m -> bucket_orders (bucket_push k o m) ≡ₚ o :: bucket_orders m.
Proof.
  intros Hs. unfold bucket_push. rewrite bt_insert_perm by done. simpl.
  rewrite bucket_orders_cons. destruct (bt_get k m) as [q|] eqn:E; simpl.
  - rewrite (bt_get_perm k q m) at 2 by done. rewrite bucket_orders_cons.
    solve_Permutation.
  - by rewrite bt_get_None_remove.
Qed.

Lemma buckets_ok_get t s k q m :
  buckets_ok t s m -> bt_get k m = Some q -> Forall (stop_ok t s k) q.
Proof.
  intros [Hs Hf] Hg%bt_get_elem; [|done]. rewrite Forall_forall in Hf.
  by apply (Hf (k, q)).
Qed.

Lemma bucket_push_ok t s k o m :
  buckets_ok t s m -> stop_ok t s k o -> buckets_ok t s (bucket_push k o m).
Proof.
  intros Hm Ho. pose proof Hm as [Hs Hf]. split; [by apply bt_insert_sorted|].
  unfold bucket_push. rewrite bt_insert_perm by done. apply Forall_cons. split; simpl.
  - apply Forall_app. split; [|by apply Forall_singleton].
    destruct (bt_get k m) as [q|] eqn:E; simpl; [by eapply buckets_ok_get|done].
  - destruct (bt_get k m) as [q|] eqn:E.
    + rewrite (bt_get_perm k q m) in Hf by done. by inversion Hf.
    + by rewrite bt_get_None_remove.
Qed.

Lemma stop_insert_ok t o r r' :
  stops_ok t r -> order_ok t o -> is_stop (o_order_type o) = true ->
  stop_insert o r = Ok r' ->
  stops_ok t r' /\ stop_orders r' ≡ₚ o :: stop_orders r.
Proof.
  intros [Hb Hl] Ho Hst. unfold stop_insert.
  destruct (o_stop_price o) as [k|] eqn:Hk; [|done].
  assert (forall s, o_side o = s -> stop_ok t s k o) as Hok by done.
  destruct (o_side o) eqn:Hsd; intros [= <-]; unfold stops_ok, stop_orders; simpl.
  - split; [split; [by apply bucket_push_ok; auto|done]|].
    rewrite bucket_push_orders by apply Hb. done.
  - split; [split; [done|by apply bucket_push_ok; auto]|].
    rewrite bucket_push_orders by apply Hl. solve_Permutation.
Qed.

(** *** Cancellation *)

Lemma swap_remove_position id (q : list (Order D)) pos :
  position (fun o => N.eqb (o_id o) id) q = Some pos ->
  exists o, o_id o = id /\ o :: swap_remove pos q ≡ₚ q.
Proof.
  intros (l1 & o & l2 & -> & Hlen & Hid & _)%position_Some. exists o.
  apply N.eqb_eq in Hid. split; [done|]. by apply swap_remove_perm.
Qed.

Lemma cancel_in_Some t s id m m' :
  cancel_in id m = Some m' ->
  (exists o, o_id o = id /\ o :: bucket_orders m' ≡ₚ bucket_orders m) /\
  (buckets_ok t s m -> buckets_ok t s m').
Proof.
  intros Hc.
  cut (keys m' = keys m /\ (exists o, o_id o = id /\ o :: bucket_orders m' ≡ₚ bucket_orders m) /\
    (Forall (fun e => Forall (stop_ok t s e.1) e.2) m ->
     Forall (fun e => Forall (stop_ok t s e.1) e.2) m')).
  { intros (Hk & Ho & Hf). split; [done|]. intros [Hs ?]. split; [|auto].
    unfold sorted in *. by rewrite Hk. }
  revert m' Hc. induction m as [|[k q] m IH]; simpl; intros m' Hc; [done|].
  destruct (position _ q) as [pos|] eqn:Hp.
  - injection Hc as <-. apply swap_remove_position in Hp as (o & Hid & Hq).
    split_and!; [done|exists o; split; [done|]|].
    + rewrite !bucket_orders_cons. exact (Permutation_app_tail _ Hq).
    + rewrite !Forall_cons. simpl. intros [Hf ?]. split; [|done].
      rewrite <-Hq in Hf. by inversion Hf.
  - destruct (cancel_in id m) as [m''|]; simplify_eq/=.
    destruct (IH m'' eq_refl) as (Hk & (o & Hid & Hp') & Hf).
    split_and!; [unfold keys in *; simpl; by rewrite Hk|exists o; split; [done|]|].
    + rewrite !bucket_orders_cons, <-Hp'. solve_Permutation.
    + rewrite !Forall_cons. naive_solver.
Qed.

Lemma cancel_in_None id m : cancel_in id m = None <-> id ∉ ids (bucket_orders m).
Proof.
  induction m as [|[k q] m IH]; simpl.
  - split; [|done]. intros _. apply not_elem_of_nil.
  - rewrite bucket_orders_cons, ids_app, not_elem_of_app, <-IH.
    assert (position (fun o => N.eqb (o_id o) id) q = None <-> id ∉ ids q) as Hq.
    { rewrite position_None, Forall_forall. unfold ids. rewrite list_elem_of_fmap.
      setoid_rewrite N.eqb_neq. naive_solver. }
    destruct (position _ q); [|destruct (cancel_in id m)]; simpl; naive_solver.
Qed.

Lemma stop_cancel_Some t id r r' :
  stop_cancel id r = Some r' ->
  (exists o, o_id o = id /\ o :: stop_orders r' ≡ₚ stop_orders r) /\
  (stops_ok t r -> stops_ok t r').
Proof.
  unfold stop_cancel, stop_orders, stops_ok.
  destruct (cancel_in id (buy_stops r)) as [m|] eqn:Hb.
  - intros [= <-]. simpl. apply (cancel_in_Some t Buy) in Hb as [(o & Hid & Hp) ?].
    split; [|naive_solver]. exists o. by rewrite <-Hp.
  - destruct (cancel_in id (sell_stops r)) as [m|] eqn:Hs; [|done].
    intros [= <-]. simpl. apply (cancel_in_Some t Sell) in Hs as [(o & Hid & Hp) ?].
    split; [|naive_solver]. exists o. rewrite <-Hp. split; [done|solve_Permutation].
Qed.

Lemma stop_cancel_None id r : stop_cancel id r = None <-> id ∉ ids (stop_orders r).
Proof.
  unfold stop_cancel, stop_orders. rewrite ids_app, not_elem_of_app.
  rewrite <-!cancel_in_None.
  destruct (cancel_in id (buy_stops r)), (cancel_in id (sell_stops r)); naive_solver.
Qed.

(** *** Triggering *)

Lemma drain_keys_skip k v ks m out :
  Forall (klt k) ks ->
  drain_keys ks ((k, v) :: m) out =
  let (out', m') := drain_keys ks m out in (out', (k, v) :: m').
Proof.
  revert m out. induction ks as [|k' ks IH]; intros m out; simpl; [done|].
  intros [Hk Hks]%Forall_cons. apply kcmp_gt in Hk. rewrite Hk.
  destruct (bt_get k' m); by rewrite IH.
Qed.

(** Draining the keys chosen by [f] takes exactly their buckets, in key order. *)
Lemma drain_keys_spec (f : D -> bool) m out :
  sorted m ->
  drain_keys (filter (fun k => f k = true) (keys m)) m out =
  (out ++ (convert_stop <$> bucket_orders (filter (fun e => f e.1 = true) m)),
   filter (fun e => f e.1 = false) m).
Proof.
  revert out. induction m as [|[k v] m IH]; intros out.
  - intros _. unfold keys. simpl. by rewrite app_nil_r.
  - intros [Hf Hs]%sorted_cons. unfold keys. simpl. fold (keys m).
    destruct (f k) eqn:Ek.
    + rewrite (filter_cons_True (fun k => f k = true)) by done.
      rewrite filter_cons_True, filter_cons_False by (simpl; congruence). simpl.
      rewrite kcmp_refl, IH by done.
      by rewrite bucket_orders_cons, fmap_app, (assoc (++)).
    + rewrite (filter_cons_False (fun k => f k = true)) by congruence.
      rewrite filter_cons_False, filter_cons_True by (simpl; congruence).
      rewrite drain_keys_skip, IH; [done|done|].
      rewrite Forall_forall in *. intros x [_ ?]%list_elem_of_filter. auto.
Qed.

Definition buy_fired (p : D) (o : Order D) : Prop :=
  exists k, o_stop_price o = Some k /\ units k <= units p.
Definition sell_fired (p : D) (o : Order D) : Prop :=
  exists k, o_stop_price o = Some k /\ units p <= units k.

Lemma drain_triggered_eq p r :
  sorted (buy_stops r) -> sorted (sell_stops r) ->
  drain_triggered p r =
  ((convert_stop <$> bucket_orders (filter (fun e => dleb e.1 p = true) (buy_stops r))) ++
   (convert_stop <$> bucket_orders (filter (fun e => dleb p e.1 = true) (sell_stops r))),
   mkStops (filter (fun e => dleb e.1 p = false) (buy_stops r))
           (filter (fun e => dleb p e.1 = false) (sell_stops r))).
Proof.
  intros Hb Hs. unfold drain_triggered, drain_buy_stops, drain_sell_stops, keys_le, keys_ge.
  rewrite (drain_keys_spec (fun k => dleb k p)) by done. simpl.
  by rewrite (drain_keys_spec (fun k => dleb p k)) by done.
Qed.

Lemma filter_split_perm (f : D -> bool) m :
  filter (fun e => f e.1 = true) m ++ filter (fun e => f e.1 = false) m ≡ₚ m.
Proof.
  induction m as [|[k v] m IH]; [done|]. rewrite !filter_cons. simpl.
  destruct (f k); simpl; [by rewrite IH|]. by rewrite <-Permutation_middle, IH.
Qed.

Lemma sorted_filter (P : D * list (Order D) -> Prop) `{forall x, Decision (P x)} m :
  sorted m -> sorted (filter P m).
Proof.
  induction m as [|[k v] m IH]; [done|]. intros [Hf Hs]%sorted_cons.
  rewrite filter_cons. case_decide; [|auto]. apply sorted_cons. split; [|auto].
  rewrite Forall_forall in *. unfold keys. intros x (e & -> & [_ Hin]%list_elem_of_filter)%list_elem_of_fmap.
  apply Hf. apply list_elem_of_fmap. eauto.
Qed.

Lemma buckets_ok_filter t s (P : D * list (Order D) -> Prop) `{forall x, Decision (P x)} m :
  buckets_ok t s m -> buckets_ok t s (filter P m).
Proof.
  intros [Hs Hf]. split; [by apply sorted_filter|].
  rewrite Forall_forall in *. intros e [_ ?]%list_elem_of_filter. auto.
Qed.

(** The drained orders with the registry that is left are the registry before. *)
Lemma drain_triggered_perm p r out r' :
  sorted (buy_stops r) -> sorted (sell_stops r) -> drain_triggered p r = (out, r') ->
  exists fired, out = convert_stop <$> fired /\ fired ++ stop_orders r' ≡ₚ stop_orders r.
Proof.
  intros Hb Hs. rewrite drain_triggered_eq by done. intros [= <- <-].
  rewrite <-fmap_app. eexists. split; [done|]. unfold stop_orders. simpl.
  rewrite <-(filter_split_perm (fun k => dleb k p) (buy_stops r)) at 3.
  rewrite <-(filter_split_perm (fun k => dleb p k) (sell_stops r)) at 3.
  rewrite !bucket_orders_app. solve_Permutation.
Qed.

Lemma drain_triggered_ok t p r out r' :
  stops_ok t r -> drain_triggered p r = (out, r') -> stops_ok t r'.
Proof.
  intros [Hb Hs]. rewrite drain_triggered_eq by (apply Hb || apply Hs). intros [= _ <-].
  split; by apply buckets_ok_filter.
Qed.

Lemma buckets_ok_in t s m o :
  buckets_ok t s m -> o ∈ bucket_orders m -> exists k, stop_ok t s k o.
Proof.
  intros [_ Hf] (k & q & Hin & Ho)%bucket_orders_in. rewrite Forall_forall in Hf.
  specialize (Hf _ Hin). simpl in Hf. rewrite Forall_forall in Hf. eauto.
Qed.

Lemma stop_orders_in t r o :
  stops_ok t r -> o ∈ stop_orders r -> exists s k, stop_ok t s k o.
Proof.
  intros [Hb Hs]. unfold stop_orders. rewrite elem_of_app.
  intros [H|H]; eapply buckets_ok_in in H as [k ?]; eauto.
Qed.

Lemma convert_stop_ok t s k o :
  stop_ok t s k o ->
  order_ok t (convert_stop o) /\ is_stop (o_order_type (convert_stop o)) = false.
Proof.
  intros ((? & ? & Hp) & _ & _ & Ht). unfold convert_stop, order_ok. simpl.
  destruct (o_order_type o); simplify_eq/=; naive_solver.
Qed.

Lemma convert_stop_ids (l : list (Order D)) : ids (convert_stop <$> l) = ids l.
Proof. unfold ids. rewrite <-list_fmap_compose. by apply list_fmap_ext. Qed.

Lemma convert_stop_slices (l : list (Order D)) : total_slices (convert_stop <$> l) = total_slices l.
Proof. unfold total_slices. induction l; csimpl; [done|]. by rewrite IHl. Qed.

(** Membership in a filtered side of a well-filed registry. *)
Lemma filter_bucket_in t s (f : D -> bool) b m o :
  buckets_ok t s m ->
  o ∈ bucket_orders (filter (fun e => f e.1 = b) m) <->
  o ∈ bucket_orders m /\ exists k, o_stop_price o = Some k /\ f k = b.
Proof.
  intros [_ Hf]. rewrite Forall_forall in Hf. rewrite !bucket_orders_in. split.
  - intros (k & q & [Hk Hin]%list_elem_of_filter & Ho). split; [eauto|].
    specialize (Hf _ Hin). simpl in Hf. rewrite Forall_forall in Hf.
    destruct (Hf o Ho) as (_ & _ & ? & _). eauto.
  - intros ((k & q & Hin & Ho) & k' & Hp & Hk). exists k, q. split; [|done].
    apply list_elem_of_filter. split; [|done]. specialize (Hf _ Hin). simpl in *.
    rewrite Forall_forall in Hf. destruct (Hf o Ho) as (_ & _ & ? & _). by simplify_eq.
Qed.
End StopTheory.

#[export] Hint Resolve drain_triggered_ok : cex.
