(* ===== verification/Book.v ===== *)
(** * Book: the order book and matching engine of [engine/crates/core/src/book.rs]

    One definition per function of [impl OrderBook].  A [&mut self] method returns the
    book it leaves; [let level = match side { .. get_mut(&price) }] followed by a change
    to the level is [bt_get] followed by [bt_insert] at the same key.  The [while] loops
    are [match_loop] (inner) and [work_loop] (the stop cascade); both take fuel, and
    BookProps proves how much is always enough. *)
From S2P Require Import Prelude Decimal BTree Types Stop.

Definition MAX_STOP_CHAIN_DEPTH : Z := 16.

Inductive EngineEvent (D : Type) :=
| EvFill (f : Fill D)
| EvRested (order_id : Uuid) (remaining : D)
| EvCancelled (order_id : Uuid) (reason : CancelReason)
| EvStopTriggered (order_id : Uuid).
Arguments EvFill {D} _.
Arguments EvRested {D} _ _.
Arguments EvCancelled {D} _ _.
Arguments EvStopTriggered {D} _.

Record BookDepth (D : Type) := mkDepth { d_bids : list (D * D); d_asks : list (D * D) }.
Arguments mkDepth {D}.
Arguments d_bids {D} _.
Arguments d_asks {D} _.

Record PeekedMaker (D : Type) := mkPeeked {
  pk_id : Uuid;
  pk_user_id : Uuid;
  pk_effective_qty : D;
  pk_remaining : D;
  pk_has_display_qty : bool;
}.
Arguments mkPeeked {D}.
Arguments pk_id {D} _.
Arguments pk_user_id {D} _.
Arguments pk_effective_qty {D} _.
Arguments pk_remaining {D} _.
Arguments pk_has_display_qty {D} _.

Inductive StpOutcome := TakerConsumed | StpContinue.

Record OrderBook (D : Type) := mkBook {
  bids : btree D (list (Order D));
  asks : btree D (list (Order D));
  order_index : gmap Uuid (Side * D);
  stops : StopRegistry D;
  oco_links : gmap Uuid Uuid;
}.
Arguments mkBook {D}.
Arguments bids {D} _.
Arguments asks {D} _.
Arguments order_index {D} _.
Arguments stops {D} _.
Arguments oco_links {D} _.

Section Book.
Context {D : Type} {dops : DecimalOps D}.
Implicit Types (b : OrderBook D) (o taker : Order D) (price : D).

(** ** Reading and writing the fields *)

Definition side_levels (s : Side) b : btree D (list (Order D)) :=
  match s with Buy => bids b | Sell => asks b end.

Definition set_side_levels (s : Side) (m : btree D (list (Order D))) b : OrderBook D :=
  match s with
  | Buy => mkBook m (asks b) (order_index b) (stops b) (oco_links b)
  | Sell => mkBook (bids b) m (order_index b) (stops b) (oco_links b)
  end.

Definition set_index (ix : gmap Uuid (Side * D)) b : OrderBook D :=
  mkBook (bids b) (asks b) ix (stops b) (oco_links b).
Definition set_stops (r : StopRegistry D) b : OrderBook D :=
  mkBook (bids b) (asks b) (order_index b) r (oco_links b).
Definition set_oco (m : gmap Uuid Uuid) b : OrderBook D :=
  mkBook (bids b) (asks b) (order_index b) (stops b) m.

Definition index_remove (id : Uuid) b : OrderBook D :=
  set_index (delete id (order_index b)) b.

Definition book_new : OrderBook D := mkBook [] [] ∅ stops_new ∅.

(** [impl Clone for OrderBook]: the index is left empty. *)
Definition book_clone b : OrderBook D := mkBook (bids b) (asks b) ∅ (stops b) (oco_links b).

(** ** Queries *)

Definition best_bid b : option D := bt_last (bids b).
Definition best_ask b : option D := bt_first (asks b).

Definition best_opposite_price (taker_side : Side) b : option D :=
  match taker_side with
  | Buy => bt_first (asks b)
  | Sell => bt_last (bids b)
  end.

Definition queue_sum (q : list (Order D)) : D := dsum (o_remaining <$> q).

Definition total_depth b : D * D :=
  (queue_sum (bucket_orders (bids b)), queue_sum (bucket_orders (asks b))).

Definition depth_side (depth : nat) (levels : btree D (list (Order D))) : list (D * D) :=
  filter (fun e => dltb dzero e.2 = true)
    ((fun e => (e.1, queue_sum e.2)) <$> take depth levels).

Definition depth_levels (depth : nat) b : BookDepth D :=
  mkDepth (depth_side depth (rev (bids b))) (depth_side depth (asks b)).

(** ** Pre-matching helpers *)

(** [can_fully_fill] over one side's levels, best price first; [beyond] is the test
    that breaks the loop. *)
Fixpoint can_fill_levels (beyond : D -> bool) (want available : D)
    (levels : btree D (list (Order D))) : bool :=
  match levels with
  | [] => false
  | (price, queue) :: rest =>
      if beyond price then false
      else
        let available := dadd available (queue_sum queue) in
        if dleb want available then true
        else can_fill_levels beyond want available rest
  end.

Definition can_fully_fill taker b : bool :=
  match o_side taker with
  | Buy =>
      can_fill_levels
        (fun price => match o_price taker with Some limit => dltb limit price | None => false end)
        (o_remaining taker) dzero (asks b)
  | Sell =>
      can_fill_levels
        (fun price => match o_price taker with Some limit => dltb price limit | None => false end)
        (o_remaining taker) dzero (rev (bids b))
  end.

Definition would_cross_post_only taker b : bool :=
  match o_price taker with
  | None => false
  | Some taker_price =>
      match o_side taker with
      | Buy => match best_ask b with Some best => dleb best taker_price | None => false end
      | Sell => match best_bid b with Some best => dleb taker_price best | None => false end
      end
  end.

Definition pre_check taker b : option (EngineEvent D) :=
  match o_order_type taker with
  | Fok =>
      if negb (can_fully_fill taker b) then Some (EvCancelled (o_id taker) FokUnfilled)
      else None
  | PostOnly =>
      if would_cross_post_only taker b then Some (EvCancelled (o_id taker) PostOnlyCrossed)
      else None
  | _ => None
  end.

Definition taker_price_satisfied taker price : bool :=
  match o_price taker with
  | None => true
  | Some limit =>
      match o_side taker with
      | Buy => dleb price limit
      | Sell => dleb limit price
      end
  end.

(** ** Stop helpers *)

Definition register_stop_order o b : OrderBook D * list (EngineEvent D) :=
  match stop_insert o (stops b) with
  | Ok r => (set_stops r b, [EvRested (o_id o) (o_remaining o)])
  | Err _ => (b, [EvCancelled (o_id o) AdminCancel])
  end.

Definition check_stop_triggers (last_price : D) b : list (Order D) * OrderBook D :=
  let (out, r) := drain_triggered last_price (stops b) in (out, set_stops r b).

(** ** Book maintenance *)

Definition insert_maker o b : OrderBook D :=
  match o_price o with
  | None => b
  | Some price =>
      let b := set_index (<[o_id o := (o_side o, price)]> (order_index b)) b in
      set_side_levels (o_side o) (bucket_push price o (side_levels (o_side o) b)) b
  end.

Definition remove_level (s : Side) price b : OrderBook D :=
  set_side_levels s (bt_remove price (side_levels s b)) b.

Definition index_side (s : Side) (m : btree D (list (Order D))) ix : gmap Uuid (Side * D) :=
  fold_left (fun ix e =>
    fold_left (fun ix o => <[o_id o := (s, e.1)]> ix) e.2 ix) m ix.

Definition rebuild_index b : OrderBook D :=
  set_index (index_side Sell (asks b) (index_side Buy (bids b) ∅)) b.

(** ** Makers *)

Definition effective_qty o : D :=
  match o_display_qty o with
  | None => o_remaining o
  | Some d => dmin d (o_remaining o)
  end.

Definition peek_front_maker (maker_side : Side) price b : option (PeekedMaker D) :=
  match bt_get price (side_levels maker_side b) with
  | None => None
  | Some [] => None
  | Some (maker :: _) =>
      Some (mkPeeked (o_id maker) (o_user_id maker) (effective_qty maker) (o_remaining maker)
              (match o_display_qty maker with Some _ => true | None => false end))
  end.

(** The new level after [maker.remaining -= fill_qty] on its front order. *)
Definition fill_front (peak_consumed : bool) (maker : Order D) (rest : list (Order D)) :
    list (Order D) :=
  if is_zero (o_remaining maker) then rest
  else if peak_consumed then rest ++ [maker]
  else maker :: rest.

Definition apply_fill_to_maker (maker_side : Side) price (fill_qty : D)
    (peeked : PeekedMaker D) b : OrderBook D * bool :=
  let peak_consumed :=
    (pk_has_display_qty peeked && deqb fill_qty (pk_effective_qty peeked))%bool in
  match bt_get price (side_levels maker_side b) with
  | None => (b, false)
  | Some [] => (b, false)
  | Some (maker :: rest) =>
      let maker := set_remaining (dsub (o_remaining maker) fill_qty) maker in
      let done := is_zero (o_remaining maker) in
      let level := fill_front peak_consumed maker rest in
      let b := set_side_levels maker_side
                 (bt_insert price level (side_levels maker_side b)) b in
      let b := if done then index_remove (o_id maker) b else b in
      let b := match level with [] => remove_level maker_side price b | _ => b end in
      (b, done)
  end.

Definition pop_front_maker (maker_side : Side) price (maker_id : Uuid) b : OrderBook D :=
  match bt_get price (side_levels maker_side b) with
  | None => b
  | Some level =>
      let level := tail level in
      let b := set_side_levels maker_side
                 (bt_insert price level (side_levels maker_side b)) b in
      let b := index_remove maker_id b in
      match level with [] => remove_level maker_side price b | _ => b end
  end.

Definition decrement_front_maker (maker_side : Side) price (by_ : D) b : OrderBook D :=
  match bt_get price (side_levels maker_side b) with
  | None => b
  | Some [] => b
  | Some (maker :: rest) =>
      let maker := set_remaining (dsub (o_remaining maker) by_) maker in
      let b := set_side_levels maker_side
                 (bt_insert price (maker :: rest) (side_levels maker_side b)) b in
      if is_zero (o_remaining maker) then pop_front_maker maker_side price (o_id maker) b
      else b
  end.

(** ** Self-trade prevention *)

(** The taker after the step, the events pushed, the outcome and the book. *)
Record StpStep := mkStp {
  stp_book : OrderBook D;
  stp_taker : Order D;
  stp_events : list (EngineEvent D);
  stp_outcome : StpOutcome;
}.

Definition apply_stp_decrement taker price (peeked : PeekedMaker D) b : StpStep :=
  let maker_side := opposite (o_side taker) in
  match dcmp (o_remaining taker) (pk_remaining peeked) with
  | Lt =>
      mkStp (decrement_front_maker maker_side price (o_remaining taker) b)
        (set_remaining dzero taker)
        [EvCancelled (o_id taker) SelfTradePrevented] TakerConsumed
  | Gt =>
      mkStp (pop_front_maker maker_side price (pk_id peeked) b)
        (set_remaining (dsub (o_remaining taker) (pk_remaining peeked)) taker)
        [EvCancelled (pk_id peeked) SelfTradePrevented] StpContinue
  | Eq =>
      mkStp (pop_front_maker maker_side price (pk_id peeked) b)
        (set_remaining dzero taker)
        [EvCancelled (pk_id peeked) SelfTradePrevented;
         EvCancelled (o_id taker) SelfTradePrevented] TakerConsumed
  end.

Definition apply_stp taker price (peeked : PeekedMaker D) b : StpStep :=
  match o_stp_mode taker with
  | CancelTaker =>
      mkStp b taker [EvCancelled (o_id taker) SelfTradePrevented] TakerConsumed
  | CancelMaker =>
      mkStp (pop_front_maker (opposite (o_side taker)) price (pk_id peeked) b) taker
        [EvCancelled (pk_id peeked) SelfTradePrevented] StpContinue
  | Decrement => apply_stp_decrement taker price peeked b
  end.

(** ** Finalization and OCO *)

Definition finalize_taker taker (had_fills : bool) b : OrderBook D * list (EngineEvent D) :=
  if is_zero (o_remaining taker) then (b, [])
  else
    let rest := (insert_maker taker b, [EvRested (o_id taker) (o_remaining taker)]) in
    match o_order_type taker with
    | Market | Ioc => (b, [EvCancelled (o_id taker) NoLiquidity])
    | Fok => (b, [EvCancelled (o_id taker) FokUnfilled])
    | PostOnly =>
        if had_fills then (b, [EvCancelled (o_id taker) PostOnlyCrossed]) else rest
    | Limit | Iceberg | Oco => rest
    | StopLimit | StopMarket => (b, [EvCancelled (o_id taker) AdminCancel])
    end.

Definition cancel_order_internal (order_id : Uuid) (reason : CancelReason) b :
    OrderBook D * list (EngineEvent D) :=
  match stop_cancel order_id (stops b) with
  | Some r => (set_stops r b, [EvCancelled order_id reason])
  | None =>
      match order_index b !! order_id with
      | None => (b, [])
      | Some (side, price) =>
          let b := index_remove order_id b in
          match bt_get price (side_levels side b) with
          | None => (b, [])
          | Some level =>
              let level :=
                match position (fun o => N.eqb (o_id o) order_id) level with
                | Some pos => vec_remove pos level
                | None => level
                end in
              let b := set_side_levels side
                         (bt_insert price level (side_levels side b)) b in
              let b := match level with [] => remove_level side price b | _ => b end in
              (b, [EvCancelled order_id reason])
          end
      end
  end.

Definition maybe_cancel_oco (order_id : Uuid) b : OrderBook D * list (EngineEvent D) :=
  match oco_links b !! order_id with
  | None => (b, [])
  | Some linked_id =>
      let b := set_oco (delete linked_id (delete order_id (oco_links b))) b in
      cancel_order_internal linked_id OcoLinked b
  end.

Definition cancel_order (order_id : Uuid) b : OrderBook D * list (EngineEvent D) :=
  let linked := oco_links b !! order_id in
  let b := set_oco (delete order_id (oco_links b)) b in
  let b := match linked with
           | Some linked_id => set_oco (delete linked_id (oco_links b)) b
           | None => b
           end in
  let (b, events) := cancel_order_internal order_id AdminCancel b in
  match linked with
  | Some linked_id =>
      let (b, more) := cancel_order_internal linked_id OcoLinked b in (b, events ++ more)
  | None => (b, events)
  end.

Definition register_oco (leg_a leg_b : Uuid) b : OrderBook D :=
  set_oco (<[leg_b := leg_a]> (<[leg_a := leg_b]> (oco_links b))) b.

(** ** Core matching loop *)

(** The local variables of [run_matching_loop]. *)
Record LoopState := mkLoop {
  ls_book : OrderBook D;
  ls_taker : Order D;
  ls_events : list (EngineEvent D);
  ls_last_trade_price : option D;
  ls_had_fills : bool;
}.

(** How one pass of the loop body ends: [continue] or the end of the body, [break]
    (or a false condition), or the early [return] of a consumed taker. *)
Inductive LoopStep :=
| LsContinue (st : LoopState)
| LsBreak (st : LoopState)
| LsReturn (st : LoopState).

Definition fill_step price (peeked : PeekedMaker D) (st : LoopState) : LoopState :=
  let taker := ls_taker st in
  let maker_side := opposite (o_side taker) in
  let fill_qty := dmin (o_remaining taker) (pk_effective_qty peeked) in
  let fill := mkFill (o_id taker) (pk_id peeked) price fill_qty (o_side taker) in
  let taker := set_remaining (dsub (o_remaining taker) fill_qty) taker in
  let (b, maker_fully_filled) :=
    apply_fill_to_maker maker_side price fill_qty peeked (ls_book st) in
  let (b, more) := if maker_fully_filled then maybe_cancel_oco (pk_id peeked) b else (b, []) in
  mkLoop b taker (ls_events st ++ EvFill fill :: more) (Some price) true.

Definition stp_step price (peeked : PeekedMaker D) (st : LoopState) : LoopStep :=
  let r := apply_stp (ls_taker st) price peeked (ls_book st) in
  let st' := mkLoop (stp_book r) (stp_taker r) (ls_events st ++ stp_events r)
               (ls_last_trade_price st) (ls_had_fills st) in
  match stp_outcome r with
  | TakerConsumed => LsReturn st'
  | StpContinue => LsContinue st'
  end.

Definition loop_step (st : LoopState) : LoopStep :=
  let taker := ls_taker st in
  if negb (dltb dzero (o_remaining taker)) then LsBreak st
  else
    match best_opposite_price (o_side taker) (ls_book st) with
    | None => LsBreak st
    | Some price =>
        if negb (taker_price_satisfied taker price) then LsBreak st
        else
          let maker_side := opposite (o_side taker) in
          match peek_front_maker maker_side price (ls_book st) with
          | None =>
              LsContinue (mkLoop (remove_level maker_side price (ls_book st)) taker
                (ls_events st) (ls_last_trade_price st) (ls_had_fills st))
          | Some peeked =>
              if N.eqb (o_user_id taker) (pk_user_id peeked)
              then stp_step price peeked st
              else LsContinue (fill_step price peeked st)
          end
    end.

(** [while]: [inl] when the loop was left by its condition or a [break], [inr] when
    the function returned from inside it; [None] when the fuel ran out. *)
Fixpoint match_loop (fuel : nat) (st : LoopState) : option (LoopState + LoopState) :=
  match fuel with
  | O => None
  | S fuel =>
      match loop_step st with
      | LsContinue st' => match_loop fuel st'
      | LsBreak st' => Some (inl st')
      | LsReturn st' => Some (inr st')
      end
  end.

Definition triggers (last : option D) b : list (Order D) * OrderBook D :=
  match last with
  | None => ([], b)
  | Some p => check_stop_triggers p b
  end.

Definition is_cancelled (e : EngineEvent D) : bool :=
  match e with EvCancelled _ _ => true | _ => false end.

(** The tail of [run_matching_loop] after the loop was left normally. *)
Definition after_loop (st : LoopState) : OrderBook D * list (EngineEvent D) :=
  let taker := ls_taker st in
  let (b, finalize_events) := finalize_taker taker (ls_had_fills st) (ls_book st) in
  let taker_terminal :=
    (is_zero (o_remaining taker) || existsb is_cancelled finalize_events)%bool in
  let (b, more) := if taker_terminal then maybe_cancel_oco (o_id taker) b else (b, []) in
  (b, ls_events st ++ finalize_events ++ more).

Definition run_matching_loop (fuel : nat) taker b :
    option (OrderBook D * list (EngineEvent D) * list (Order D)) :=
  match match_loop fuel (mkLoop b taker [] None false) with
  | None => None
  | Some (inr st) =>
      let (triggered, b) := triggers (ls_last_trade_price st) (ls_book st) in
      Some (b, ls_events st, triggered)
  | Some (inl st) =>
      let (b, events) := after_loop st in
      let (triggered, b) := triggers (ls_last_trade_price st) b in
      Some (b, events, triggered)
  end.

(** The [while let Some(order) = work_queue.pop()] of [match_order]. *)
Fixpoint work_loop (loop_fuel fuel : nat) (work_queue : list (Order D)) (stop_depth : Z)
    (all_events : list (EngineEvent D)) b : option (OrderBook D * list (EngineEvent D)) :=
  match vec_pop work_queue with
  | None => Some (b, all_events)
  | Some (order, work_queue) =>
      match fuel with
      | O => None
      | S fuel =>
          match run_matching_loop loop_fuel order b with
          | None => None
          | Some (b, events, triggered) =>
              let all_events := all_events ++ events in
              if (stop_depth <? MAX_STOP_CHAIN_DEPTH)%Z then
                work_loop loop_fuel fuel (work_queue ++ triggered)
                  (u8_saturating_add stop_depth (u8_try_from_or_max (length triggered)))
                  (all_events ++ ((fun t => EvStopTriggered (o_id t)) <$> triggered)) b
              else work_loop loop_fuel fuel work_queue stop_depth all_events b
          end
      end
  end.

Definition match_order (fuel : nat) taker b : option (OrderBook D * list (EngineEvent D)) :=
  match pre_check taker b with
  | Some reject => Some (b, [reject])
  | None =>
      if is_stop (o_order_type taker) then Some (register_stop_order taker b)
      else work_loop fuel fuel [taker] 0 [] b
  end.
End Book.

Arguments LoopState D : clear implicits.
Arguments LoopStep D : clear implicits.
Arguments StpStep D : clear implicits.
