(* ===== verification/BookInv.v ===== *)
(** * BookInv: the representation invariant of the order book

    [book_wf t X b] says that [b] is well formed for quantities of tick [t] while the
    ids [X] are in use outside the book (the taker being matched and the triggered
    stops still queued): both sides sorted without empty levels, every resting order
    filed under its side and price with a positive quantity, no bid at or above an
    ask, the index exactly the resting orders, the stop registry well filed, all ids
    different.  [level_update_wf] is the one lemma every change to a level reduces to. *)
From S2P Require Import Prelude Decimal BTree Types Stop Book.

Section Inv.
Context {D : Type} {dops : DecimalOps D} {dlaws : DecimalLaws D}.
Implicit Types (b : OrderBook D) (o taker maker : Order D) (p : D)
  (m : btree D (list (Order D))) (q : list (Order D)).

Definition side_orders (s : Side) b : list (Order D) := bucket_orders (side_levels s b).
Definition book_orders b : list (Order D) := side_orders Buy b ++ side_orders Sell b.
Definition book_ids b : list Uuid := ids (book_orders b) ++ ids (stop_orders (stops b)).

Definition maker_ok (t : Z) (s : Side) (p : D) o : Prop :=
  order_ok t o /\ o_side o = s /\ o_price o = Some p.

Definition side_ok (t : Z) (s : Side) m : Prop :=
  sorted m /\ Forall (fun e => e.2 <> [] /\ Forall (maker_ok t s e.1) e.2) m.

Definition level_entries (s : Side) (p : D) q : list (Uuid * (Side * D)) :=
  (fun o => (o_id o, (s, p))) <$> q.

Definition index_list (s : Side) m : list (Uuid * (Side * D)) :=
  concat ((fun e => level_entries s e.1 e.2) <$> m).

Definition index_entries b : list (Uuid * (Side * D)) :=
  index_list Buy (bids b) ++ index_list Sell (asks b).

Record book_wf (t : Z) (X : list Uuid) b : Prop := {
  wf_side s : side_ok t s (side_levels s b);
  wf_uncrossed x y : x ∈ keys (bids b) -> y ∈ keys (asks b) -> units x < units y;
  wf_index : order_index b = list_to_map (index_entries b);
  wf_stops : stops_ok t (stops b);
  wf_nodup : NoDup (X ++ book_ids b);
}.

(** ** Access lemmas *)

Lemma side_levels_set s m b : side_levels s (set_side_levels s m b) = m.
Proof. by destruct s. Qed.

Lemma side_levels_set_opp s m b :
  side_levels (opposite s) (set_side_levels s m b) = side_levels (opposite s) b.
Proof. by destruct s. Qed.

Lemma set_side_levels_twice s m m' b :
  set_side_levels s m' (set_side_levels s m b) = set_side_levels s m' b.
Proof. by destruct s. Qed.

Lemma set_side_levels_same s b : set_side_levels s (side_levels s b) b = b.
Proof. by destruct s, b. Qed.

Lemma set_side_levels_index s m ix b :
  set_side_levels s m (set_index ix b) = set_index ix (set_side_levels s m b).
Proof. by destruct s. Qed.

Lemma side_levels_index s ix b : side_levels s (set_index ix b) = side_levels s b.
Proof. by destruct s. Qed.

Lemma order_index_set s m b : order_index (set_side_levels s m b) = order_index b.
Proof. by destruct s. Qed.

Lemma set_index_same b : set_index (order_index b) b = b.
Proof. by destruct b. Qed.

Lemma book_orders_side s b : book_orders b ≡ₚ side_orders s b ++ side_orders (opposite s) b.
Proof. destruct s; [done|]. apply Permutation_app_comm. Qed.

Lemma index_entries_side s b :
  index_entries b ≡ₚ
  index_list s (side_levels s b) ++ index_list (opposite s) (side_levels (opposite s) b).
Proof. destruct s; [done|]. apply Permutation_app_comm. Qed.

#[export] Instance index_list_perm s : Proper (Permutation ==> Permutation) (index_list s).
Proof.
  intros m1 m2 H. unfold index_list. induction H; csimpl.
  - done.
  - by f_equiv.
  - rewrite !(assoc (++)). f_equiv. apply Permutation_app_comm.
  - by etrans.
Qed.

Lemma index_list_ids s m : (index_list s m).*1 = ids (bucket_orders m).
Proof.
  unfold index_list, bucket_orders. induction m as [|[k q] m IH]; csimpl; [done|].
  rewrite fmap_app, ids_app, IH. f_equal. unfold ids, level_entries.
  rewrite <-list_fmap_compose. by apply list_fmap_ext.
Qed.

Lemma index_entries_ids b : (index_entries b).*1 = ids (book_orders b).
Proof.
  unfold index_entries, book_orders. by rewrite fmap_app, !index_list_ids, ids_app.
Qed.

Lemma wf_book_nodup t X b : book_wf t X b -> NoDup (ids (book_orders b)).
Proof.
  intros Hwf. pose proof (wf_nodup t X b Hwf) as Hn.
  apply NoDup_app in Hn as (_ & _ & Hn). by apply NoDup_app in Hn as (? & _ & _).
Qed.

Lemma wf_get t X b s p q :
  book_wf t X b -> bt_get p (side_levels s b) = Some q ->
  q <> [] /\ Forall (maker_ok t s p) q.
Proof.
  intros Hwf Hg. destruct (wf_side t X b Hwf s) as [Hs Hf].
  apply bt_get_elem in Hg; [|done]. rewrite Forall_forall in Hf. by apply (Hf (p, q)).
Qed.

Lemma wf_sorted t X b s : book_wf t X b -> sorted (side_levels s b).
Proof. intros Hwf. apply (wf_side t X b Hwf s). Qed.

Lemma wf_weaken t X Y b : book_wf t X b -> NoDup (Y ++ book_ids b) -> book_wf t Y b.
Proof. by intros [] ?. Qed.

Lemma book_new_wf t X : NoDup X -> book_wf t X (book_new : OrderBook D).
Proof.
  intros HX. split; simpl; try done.
  - intros []; split; [apply sorted_nil|constructor|apply sorted_nil|constructor].
  - by intros x y ?%elem_of_nil.
  - split; (split; [apply sorted_nil|constructor]).
  - unfold book_ids. simpl. by rewrite app_nil_r.
Qed.

(** ** Replacing one level *)

Definition put_level (p : D) q m : btree D (list (Order D)) :=
  match q with [] => bt_remove p m | _ => bt_insert p q m end.

Definition level_update (s : Side) (p : D) q (rm : list Uuid) b : OrderBook D :=
  set_index (foldr delete (order_index b) rm)
    (set_side_levels s (put_level p q (side_levels s b)) b).

Lemma put_level_sorted p q m : sorted m -> sorted (put_level p q m).
Proof. intros. destruct q; simpl; [by apply bt_remove_sorted|by apply bt_insert_sorted]. Qed.

Lemma put_level_orders p q m :
  sorted m -> bucket_orders (put_level p q m) ≡ₚ q ++ bucket_orders (bt_remove p m).
Proof.
  intros Hs. destruct q as [|o q]; simpl; [done|]. by rewrite bt_insert_perm.
Qed.

Lemma put_level_index s p q m :
  sorted m ->
  index_list s (put_level p q m) ≡ₚ
  level_entries s p q ++ index_list s (bt_remove p m).
Proof.
  intros Hs. destruct q as [|o q]; simpl; [done|]. by rewrite bt_insert_perm.
Qed.

Lemma put_level_keys p q m x : p ∈ keys m -> x ∈ keys (put_level p q m) -> x ∈ keys m.
Proof.
  intros Hp. destruct q; simpl; [apply bt_remove_keys_subset|].
  intros Hx. pose proof (bt_insert_keys_Forall (fun k => k ∈ keys m) p (o :: q) m Hp) as Hf.
  rewrite !Forall_forall in Hf. by apply Hf.
Qed.

Lemma side_ok_remove t s p m : side_ok t s m -> side_ok t s (bt_remove p m).
Proof.
  intros [Hs Hf]. split; [by apply bt_remove_sorted|].
  destruct (bt_get p m) as [q|] eqn:E.
  - rewrite (bt_get_perm p q m) in Hf by done. by inversion Hf.
  - by rewrite bt_get_None_remove.
Qed.

Lemma side_ok_put t s p q m :
  side_ok t s m -> Forall (maker_ok t s p) q -> side_ok t s (put_level p q m).
Proof.
  intros Hm Hq. destruct q as [|o q]; simpl; [by apply side_ok_remove|].
  split; [apply bt_insert_sorted, Hm|]. rewrite bt_insert_perm by apply Hm.
  apply Forall_cons. split; [done|]. by apply side_ok_remove.
Qed.

Lemma delete_many_index (l1 l2 : list (Uuid * (Side * D))) :
  NoDup (l1 ++ l2).*1 ->
  foldr delete (list_to_map (M := gmap Uuid (Side * D)) (l1 ++ l2)) l1.*1 = list_to_map l2.
Proof.
  induction l1 as [|[k v] l1 IH]; csimpl; [done|]. intros [Hk Hn]%NoDup_cons.
  rewrite <-IH by done.
  assert (forall (mm : gmap Uuid (Side * D)) ks w, k ∉ ks ->
    foldr delete (<[k:=w]> mm) ks = <[k:=w]> (foldr delete mm ks)) as Hcomm.
  { intros mm ks w. induction ks as [|k' ks IHk]; csimpl; [done|].
    intros [? ?]%not_elem_of_cons. rewrite IHk by done. by rewrite delete_insert_ne. }
  rewrite fmap_app, not_elem_of_app in Hk. destruct Hk as [Hk1 Hk2].
  rewrite Hcomm by done. rewrite delete_insert_eq. apply delete_id.
  rewrite IH by done. by apply not_elem_of_list_to_map_1.
Qed.

Lemma foldr_delete_perm (mm : gmap Uuid (Side * D)) ks ks' :
  ks ≡ₚ ks' -> foldr delete mm ks = foldr delete mm ks'.
Proof.
  induction 1; csimpl; [done|by f_equal|apply delete_delete|by etrans].
Qed.

Lemma level_entries_ids s p q :
  level_entries s p q = (fun id => (id, (s, p))) <$> ids q.
Proof. unfold level_entries, ids. by rewrite <-list_fmap_compose. Qed.

Lemma index_list_get s p q m :
  sorted m -> bt_get p m = Some q ->
  index_list s m ≡ₚ level_entries s p q ++ index_list s (bt_remove p m).
Proof. intros Hs Hg. by rewrite (bt_get_perm p q m) at 1 by done. Qed.

Lemma bucket_orders_get p q m :
  sorted m -> bt_get p m = Some q ->
  bucket_orders m ≡ₚ q ++ bucket_orders (bt_remove p m).
Proof. intros Hs Hg. by rewrite (bt_get_perm p q m) at 1 by done. Qed.

Lemma level_update_side s p q rm b :
  side_levels s (level_update s p q rm b) = put_level p q (side_levels s b).
Proof. unfold level_update. by rewrite side_levels_index, side_levels_set. Qed.

Lemma level_update_opp s p q rm b :
  side_levels (opposite s) (level_update s p q rm b) = side_levels (opposite s) b.
Proof. unfold level_update. by rewrite side_levels_index, side_levels_set_opp. Qed.

Lemma level_update_stops s p q rm b : stops (level_update s p q rm b) = stops b.
Proof. by destruct s. Qed.

Lemma level_update_oco s p q rm b : oco_links (level_update s p q rm b) = oco_links b.
Proof. by destruct s. Qed.

(** The orders of the other levels are untouched. *)
Lemma level_update_orders t X s p q q' rm b :
  book_wf t X b -> bt_get p (side_levels s b) = Some q ->
  exists R,
    side_orders s b ≡ₚ q ++ R /\ side_orders s (level_update s p q' rm b) ≡ₚ q' ++ R /\
    side_orders (opposite s) (level_update s p q' rm b) = side_orders (opposite s) b.
Proof.
  intros Hwf Hg. pose proof (wf_sorted t X b s Hwf) as Hs.
  exists (bucket_orders (bt_remove p (side_levels s b))). unfold side_orders.
  rewrite level_update_side, level_update_opp. split_and!; [|by apply put_level_orders|done].
  by apply bucket_orders_get.
Qed.

Lemma level_update_book_orders t X s p q q' rm b :
  book_wf t X b -> bt_get p (side_levels s b) = Some q ->
  exists R, book_orders b ≡ₚ q ++ R /\ book_orders (level_update s p q' rm b) ≡ₚ q' ++ R.
Proof.
  intros Hwf Hg. destruct (level_update_orders t X s p q q' rm b) as (R & H1 & H2 & H3); [done..|].
  exists (R ++ side_orders (opposite s) b).
  rewrite !(book_orders_side s), H1, H2, H3, !(assoc (++)). done.
Qed.

Lemma level_update_index t X s p q q' rm b :
  book_wf t X b -> bt_get p (side_levels s b) = Some q -> ids q ≡ₚ rm ++ ids q' ->
  order_index (level_update s p q' rm b) =
  list_to_map (index_entries (level_update s p q' rm b)).
Proof.
  intros Hwf Hg Hids. pose proof (wf_sorted t X b s Hwf) as Hs.
  set (rest := index_list s (bt_remove p (side_levels s b)) ++
               index_list (opposite s) (side_levels (opposite s) b)).
  assert (index_entries (level_update s p q' rm b) ≡ₚ level_entries s p q' ++ rest) as H1.
  { rewrite (index_entries_side s), level_update_side, level_update_opp.
    rewrite put_level_index by done. by rewrite <-(assoc (++)). }
  assert (index_entries b ≡ₚ
    ((fun id => (id, (s, p))) <$> rm) ++ level_entries s p q' ++ rest) as H2.
  { rewrite (index_entries_side s), (index_list_get s p q) by done.
    rewrite (level_entries_ids s p q), Hids, fmap_app, <-level_entries_ids.
    by rewrite <-!(assoc (++)). }
  assert (NoDup (index_entries b).*1) as Hn.
  { rewrite index_entries_ids. by eapply wf_book_nodup. }
  assert (rm = ((fun id => (id, (s, p))) <$> rm).*1) as Hrm.
  { rewrite <-list_fmap_compose. by rewrite list_fmap_id. }
  unfold level_update at 1. simpl. rewrite (wf_index t X b Hwf).
  rewrite (list_to_map_proper (index_entries b) _ Hn H2).
  pose proof (delete_many_index ((fun id => (id, (s, p))) <$> rm)
    (level_entries s p q' ++ rest)) as Hd.
  rewrite <-Hrm in Hd. rewrite Hd by (by rewrite <-H2).
  symmetry. apply list_to_map_proper; [|done].
  rewrite H1. rewrite H2, fmap_app in Hn. by apply NoDup_app in Hn as (_ & _ & ?).
Qed.

Lemma level_update_wf t X s p q q' rm b :
  book_wf t X b -> bt_get p (side_levels s b) = Some q ->
  Forall (maker_ok t s p) q' -> ids q ≡ₚ rm ++ ids q' ->
  book_wf t X (level_update s p q' rm b).
Proof.
  intros Hwf Hg Hq' Hids. pose proof (wf_sorted t X b s Hwf) as Hs.
  assert (p ∈ keys (side_levels s b)) as Hp by (by eapply bt_get_key).
  split.
  - intros s'. destruct (decide (s' = s)) as [->|Hne].
    + rewrite level_update_side. apply side_ok_put; [by eapply wf_side|done].
    + assert (s' = opposite s) as -> by (by destruct s, s').
      rewrite level_update_opp. by eapply wf_side.
  - intros x y. unfold level_update. destruct s; simpl in *; intros Hx Hy.
    + apply put_level_keys in Hx; [|done]. by eapply wf_uncrossed.
    + apply put_level_keys in Hy; [|done]. by eapply wf_uncrossed.
  - by eapply level_update_index.
  - rewrite level_update_stops. by eapply wf_stops.
  - pose proof (wf_nodup t X b Hwf) as Hn. unfold book_ids in *.
    rewrite level_update_stops.
    destruct (level_update_book_orders t X s p q q' rm b) as (R & H1 & H2); [done..|].
    rewrite H2. rewrite H1, !ids_app, Hids in Hn.
    eapply submseteq_NoDup; [|exact Hn]. rewrite !ids_app.
    apply submseteq_skips_l. rewrite <-!(assoc (++)). apply submseteq_inserts_l. done.
Qed.
End Inv.
