(* ===== verification/BookOps.v ===== *)
(** * BookOps: what each operation of the order book does under the invariant

    Every change the engine makes to a resting order is a [level_update]; cancelling
    is described by [cancel_view]; [shrinks] collects what can only decrease. *)
From S2P Require Import Prelude Decimal BTree Types Stop Book BookInv.

Section Ops.
Context {D : Type} {dops : DecimalOps D} {dlaws : DecimalLaws D}.
Implicit Types (b : OrderBook D) (o taker maker : Order D) (p : D)
  (m : btree D (list (Order D))) (q : list (Order D)).

(** ** The index *)

Lemma index_list_in s m id s' p :
  (id, (s', p)) ∈ index_list s m <->
  s' = s /\ exists q o, (p, q) ∈ m /\ o ∈ q /\ o_id o = id.
Proof.
  unfold index_list. rewrite list_elem_of_In, in_concat. split.
  - intros (l & Hl & Hin). apply list_elem_of_In in Hl, Hin.
    apply list_elem_of_fmap in Hl as ([k q] & -> & Hk).
    apply list_elem_of_fmap in Hin as (o & [= -> -> ->] & Ho). simpl in *. eauto 10.
  - intros (-> & q & o & Hin & Ho & <-). exists (level_entries s p q).
    rewrite <-!list_elem_of_In. split.
    + apply list_elem_of_fmap. by exists (p, q).
    + unfold level_entries. apply list_elem_of_fmap. eauto.
Qed.

Lemma index_lookup t X b id s p :
  book_wf t X b ->
  order_index b !! id = Some (s, p) <->
  exists q o, bt_get p (side_levels s b) = Some q /\ o ∈ q /\ o_id o = id.
Proof.
  intros Hwf. rewrite (wf_index t X b Hwf), <-elem_of_list_to_map.
  2:{ rewrite index_entries_ids. by eapply wf_book_nodup. }
  rewrite (index_entries_side s), elem_of_app, !index_list_in.
  setoid_rewrite bt_get_elem; [|by eapply wf_sorted]. split.
  - intros [[_ H]|[Hs _]]; [done|]. by destruct s.
  - intros H. left. eauto.
Qed.

Lemma index_lookup_None t X b id :
  book_wf t X b -> order_index b !! id = None <-> id ∉ ids (book_orders b).
Proof.
  intros Hwf. rewrite (wf_index t X b Hwf), <-index_entries_ids.
  split; [apply not_elem_of_list_to_map_2|apply not_elem_of_list_to_map_1].
Qed.

(** ** Levels as one update *)

Lemma set_levels_put s p q rm b :
  sorted (side_levels s b) ->
  (let b' := set_index (foldr delete (order_index b) rm)
               (set_side_levels s (bt_insert p q (side_levels s b)) b) in
   match q with [] => remove_level s p b' | _ => b' end) = level_update s p q rm b.
Proof.
  intros Hs. unfold level_update, remove_level. destruct q; simpl; [|done].
  rewrite side_levels_index, side_levels_set, bt_remove_insert by done.
  by rewrite set_side_levels_index, set_side_levels_twice.
Qed.

Lemma set_levels_put_nil s p q b :
  sorted (side_levels s b) ->
  (let b' := set_side_levels s (bt_insert p q (side_levels s b)) b in
   match q with [] => remove_level s p b' | _ => b' end) = level_update s p q [] b.
Proof.
  intros Hs. rewrite <-set_levels_put by done. simpl.
  rewrite <-(order_index_set s (bt_insert p q (side_levels s b)) b).
  by rewrite set_index_same.
Qed.

Lemma apply_fill_eq s p fq pk b maker q :
  sorted (side_levels s b) -> bt_get p (side_levels s b) = Some (maker :: q) ->
  let maker' := set_remaining (dsub (o_remaining maker) fq) maker in
  let done := is_zero (o_remaining maker') in
  apply_fill_to_maker s p fq pk b =
  (level_update s p
     (fill_front (pk_has_display_qty pk && deqb fq (pk_effective_qty pk)) maker' q)
     (if done then [o_id maker] else []) b, done).
Proof.
  intros Hs Hg maker' done. unfold apply_fill_to_maker. rewrite Hg.
  change (set_remaining (dsub (o_remaining maker) fq) maker) with maker'.
  change (is_zero (o_remaining maker')) with done.
  f_equal. destruct done; [rewrite <-set_levels_put by done|by rewrite <-set_levels_put_nil].
  unfold index_remove. by rewrite order_index_set.
Qed.

Lemma pop_front_eq s p id b q :
  sorted (side_levels s b) -> bt_get p (side_levels s b) = Some q ->
  pop_front_maker s p id b = level_update s p (tail q) [id] b.
Proof.
  intros Hs Hg. unfold pop_front_maker. rewrite Hg, <-set_levels_put by done. simpl.
  unfold index_remove. rewrite order_index_set. by destruct (tail q).
Qed.

Lemma decrement_front_eq s p by_ b maker q :
  sorted (side_levels s b) -> bt_get p (side_levels s b) = Some (maker :: q) ->
  let maker' := set_remaining (dsub (o_remaining maker) by_) maker in
  is_zero (o_remaining maker') = false ->
  decrement_front_maker s p by_ b = level_update s p (maker' :: q) [] b.
Proof.
  intros Hs Hg maker' Hz. unfold decrement_front_maker. rewrite Hg.
  change (set_remaining (dsub (o_remaining maker) by_) maker) with maker'. rewrite Hz.
  by rewrite <-set_levels_put_nil.
Qed.

(** ** Cancelling *)

Inductive cancel_view (id : Uuid) b : OrderBook D -> bool -> Prop :=
| cv_stop r :
    stop_cancel id (stops b) = Some r -> cancel_view id b (set_stops r b) true
| cv_absent :
    id ∉ book_ids b -> cancel_view id b b false
| cv_resting s p q1 o q2 :
    stop_cancel id (stops b) = None ->
    o_id o = id -> bt_get p (side_levels s b) = Some (q1 ++ o :: q2) ->
    cancel_view id b (level_update s p (q1 ++ q2) [id] b) true.

Lemma cancel_internal_view t X id reason b b' evs :
  book_wf t X b -> cancel_order_internal id reason b = (b', evs) ->
  exists found, cancel_view id b b' found /\
    evs = if found then [EvCancelled id reason] else [].
Proof.
  intros Hwf. unfold cancel_order_internal.
  destruct (stop_cancel id (stops b)) as [r|] eqn:Hst.
  { intros [= <- <-]. exists true. split; [by constructor|done]. }
  destruct (order_index b !! id) as [[s p]|] eqn:Hix.
  - pose proof (wf_sorted t X b s Hwf) as Hs.
    pose proof Hix as (q & o & Hg & Ho & Hid)%(index_lookup t X); [|done].
    unfold index_remove. rewrite side_levels_index, Hg.
    destruct (position _ q) as [pos|] eqn:Hpos.
    2:{ apply position_None in Hpos. rewrite Forall_forall in Hpos.
        specialize (Hpos o Ho). by rewrite Hid, N.eqb_refl in Hpos. }
    apply position_Some in Hpos as (q1 & o' & q2 & -> & Hlen & Hid' & _).
    apply N.eqb_eq in Hid'. unfold vec_remove. rewrite delete_middle_eq by done.
    intros [= <- <-]. exists true. split; [|done].
    rewrite set_side_levels_index.
    pose proof (cv_resting id b s p q1 o' q2 Hst Hid' Hg) as Hv.
    by rewrite <-set_levels_put in Hv.
  - intros [= <- <-]. exists false. split; [|done]. constructor.
    unfold book_ids. rewrite not_elem_of_app. split.
    + by eapply index_lookup_None.
    + by apply stop_cancel_None.
Qed.

(** ** What can only shrink *)

Record shrinks b b' : Prop := {
  sh_side s : (total_slices (side_orders s b') <= total_slices (side_orders s b))%nat;
  sh_stops : (total_slices (stop_orders (stops b')) <= total_slices (stop_orders (stops b)))%nat;
  sh_count : (length (stop_orders (stops b')) <= length (stop_orders (stops b)))%nat;
  sh_ids : book_ids b' ⊆+ book_ids b;
  sh_keys s : keys (side_levels s b') ⊆ keys (side_levels s b);
}.

#[export] Instance shrinks_preorder : PreOrder shrinks.
Proof.
  split.
  - intros b. split; done.
  - intros b1 b2 b3 [] []. split; intros; try lia; try (by etrans); eauto using Nat.le_trans.
    all: etrans; eauto.
Qed.

Lemma total_slices_cons o q : total_slices (o :: q) = (slices o + total_slices q)%nat.
Proof. done. Qed.

Lemma level_update_shrinks t X s p q q' rm b :
  book_wf t X b -> bt_get p (side_levels s b) = Some q -> ids q ≡ₚ rm ++ ids q' ->
  (total_slices q' <= total_slices q)%nat ->
  shrinks b (level_update s p q' rm b).
Proof.
  intros Hwf Hg Hids Hle.
  destruct (level_update_orders t X s p q q' rm b) as (R & H1 & H2 & H3); [done..|].
  split.
  - intros s'. destruct (decide (s' = s)) as [->|].
    + rewrite H1, H2, !total_slices_app. lia.
    + assert (s' = opposite s) as -> by (by destruct s, s'). by rewrite H3.
  - by rewrite level_update_stops.
  - by rewrite level_update_stops.
  - unfold book_ids. rewrite level_update_stops, !(book_orders_side s), H1, H2, H3.
    rewrite !ids_app, Hids. apply submseteq_skips_r, submseteq_skips_r, submseteq_skips_r.
    by apply submseteq_inserts_l.
  - intros s'. destruct (decide (s' = s)) as [->|].
    + rewrite level_update_side. intros x. apply put_level_keys.
      eapply bt_get_key; [by eapply wf_sorted|done].
    + assert (s' = opposite s) as -> by (by destruct s, s'). by rewrite level_update_opp.
Qed.

Lemma wf_mono t X Y b : Y ⊆+ X -> book_wf t X b -> book_wf t Y b.
Proof.
  intros Hsub Hwf. eapply wf_weaken; [done|].
  eapply submseteq_NoDup; [|by eapply wf_nodup]. by apply submseteq_skips_r.
Qed.

(** The stop registry can change to any well-filed one that reserves no new id. *)
Lemma set_stops_wf t X Y r b :
  book_wf t X b -> stops_ok t r ->
  Y ++ ids (stop_orders r) ⊆+ X ++ ids (stop_orders (stops b)) ->
  book_wf t Y (set_stops r b).
Proof.
  intros [Hside Hunc Hix Hst Hn] Hr Hsub. split; try done.
  eapply submseteq_NoDup; [|exact Hn]. unfold book_ids in *. simpl.
  change (book_orders (set_stops r b)) with (book_orders b).
  rewrite (Permutation_app_comm (ids (book_orders b)) (ids (stop_orders r))).
  rewrite (Permutation_app_comm (ids (book_orders b)) (ids (stop_orders (stops b)))).
  rewrite !(assoc (++)). by apply submseteq_skips_r.
Qed.

Lemma set_stops_shrinks r b :
  (exists o, o :: stop_orders r ≡ₚ stop_orders (stops b)) -> shrinks b (set_stops r b).
Proof.
  intros [o Hp]. split; simpl; try done.
  - rewrite <-Hp, total_slices_cons. lia.
  - rewrite <-Hp. simpl. lia.
  - unfold book_ids. simpl. apply submseteq_skips_l. rewrite <-Hp. simpl.
    by apply submseteq_cons.
Qed.

Lemma cancel_view_wf t X id b b' found :
  book_wf t X b -> cancel_view id b b' found -> book_wf t X b' /\ shrinks b b'.
Proof.
  intros Hwf [r Hc|Ha|s p q1 o q2 Hst Hid Hg].
  - apply (stop_cancel_Some t) in Hc as [(o & Hid & Hp) Hok]. split.
    + eapply set_stops_wf; [done|apply Hok, Hwf|]. apply submseteq_skips_l.
      rewrite <-Hp. simpl. by apply submseteq_cons.
    + apply set_stops_shrinks. eauto.
  - done.
  - assert (ids (q1 ++ o :: q2) ≡ₚ [id] ++ ids (q1 ++ q2)) as Hids.
    { rewrite <-Permutation_middle. simpl. by rewrite Hid. }
    split.
    + eapply level_update_wf; [done..| |done].
      destruct (wf_get t X b s p _ Hwf Hg) as [_ Hf].
      rewrite <-Permutation_middle in Hf. by inversion Hf.
    + eapply level_update_shrinks; [done..|].
      rewrite <-Permutation_middle, total_slices_cons. lia.
Qed.

Lemma cancel_internal_wf t X id reason b b' evs :
  book_wf t X b -> cancel_order_internal id reason b = (b', evs) ->
  book_wf t X b' /\ shrinks b b'.
Proof.
  intros Hwf (? & Hv & _)%(cancel_internal_view t X); [|done]. by eapply cancel_view_wf.
Qed.

Lemma set_oco_wf t X mm b : book_wf t X b -> book_wf t X (set_oco mm b).
Proof. intros []. by split. Qed.

Lemma set_oco_shrinks mm b : shrinks b (set_oco mm b).
Proof. by split. Qed.

Lemma maybe_cancel_oco_wf t X id b b' evs :
  book_wf t X b -> maybe_cancel_oco id b = (b', evs) -> book_wf t X b' /\ shrinks b b'.
Proof.
  intros Hwf. unfold maybe_cancel_oco. destruct (oco_links b !! id) as [l|].
  - intros Hc. eapply cancel_internal_wf in Hc as [? Hsh]; [|by apply set_oco_wf].
    split; [done|]. etrans; [|exact Hsh]. apply set_oco_shrinks.
  - by intros [= <- <-].
Qed.

(** ** Resting *)

Definition uncrossed_with (s : Side) (p : D) b : Prop :=
  forall k, k ∈ keys (side_levels (opposite s) b) ->
    match s with Buy => units p < units k | Sell => units k < units p end.

Lemma bucket_push_keys k o m x : x ∈ keys (bucket_push k o m) -> x = k \/ x ∈ keys m.
Proof.
  unfold bucket_push. intros Hx.
  pose proof (bt_insert_keys_Forall (fun y => y = k \/ y ∈ keys m) k
    (default [] (bt_get k m) ++ [o]) m (or_introl eq_refl)) as Hf.
  rewrite !Forall_forall in Hf. apply Hf; auto.
Qed.

Lemma side_ok_push t s p o m :
  side_ok t s m -> maker_ok t s p o -> side_ok t s (bucket_push p o m).
Proof.
  intros Hm Ho. unfold bucket_push.
  replace (bt_insert p (default [] (bt_get p m) ++ [o]) m)
    with (put_level p (default [] (bt_get p m) ++ [o]) m)
    by (by destruct (default [] (bt_get p m))).
  apply side_ok_put; [done|]. apply Forall_app. split; [|by apply Forall_singleton].
  destruct (bt_get p m) as [q|] eqn:Hg; simpl; [|done].
  destruct Hm as [Hs Hf]. apply bt_get_elem in Hg; [|done].
  rewrite Forall_forall in Hf. by apply (Hf (p, q)).
Qed.

Lemma index_list_push s p o m :
  sorted m -> index_list s (bucket_push p o m) ≡ₚ (o_id o, (s, p)) :: index_list s m.
Proof.
  intros Hs. unfold bucket_push. rewrite bt_insert_perm by done.
  destruct (bt_get p m) as [q|] eqn:Hg; simpl.
  - rewrite (index_list_get s p q m) by done. unfold index_list at 1. csimpl.
    unfold level_entries at 1. rewrite fmap_app. csimpl.
    rewrite <-(assoc (++)). simpl. by rewrite <-Permutation_middle.
  - by rewrite bt_get_None_remove.
Qed.

Lemma insert_maker_wf t X o p b :
  book_wf t (o_id o :: X) b -> order_ok t o -> o_price o = Some p ->
  uncrossed_with (o_side o) p b ->
  book_wf t X (insert_maker o b) /\
  book_orders (insert_maker o b) ≡ₚ o :: book_orders b /\
  stops (insert_maker o b) = stops b.
Proof.
  intros Hwf Ho Hp Hun. unfold insert_maker. rewrite Hp, side_levels_index.
  set (s := o_side o). set (b' := set_side_levels s _ _).
  assert (side_levels s b' = bucket_push p o (side_levels s b)) as Hsame
    by apply side_levels_set.
  assert (side_levels (opposite s) b' = side_levels (opposite s) b) as Hopp
    by (unfold b'; rewrite side_levels_set_opp; apply side_levels_index).
  pose proof (wf_sorted t _ b s Hwf) as Hs.
  assert (stops b' = stops b) as Hst by (by unfold b'; destruct s).
  assert (book_orders b' ≡ₚ o :: book_orders b) as Hord.
  { rewrite !(book_orders_side s). unfold side_orders. rewrite Hsame, Hopp.
    by rewrite bucket_push_orders. }
  split_and!; [|done|done].
  assert (NoDup (X ++ book_ids b')) as Hn.
  { pose proof (wf_nodup t _ b Hwf) as Hn. unfold book_ids in *. rewrite Hst, Hord.
    simpl in *. by rewrite <-Permutation_middle. }
  split; [| | |rewrite Hst; by eapply wf_stops|done].
  - intros s'. destruct (decide (s' = s)) as [->|].
    + rewrite Hsame. apply side_ok_push; [by eapply wf_side|]. by split_and!.
    + assert (s' = opposite s) as -> by (by destruct s, s'). rewrite Hopp. by eapply wf_side.
  - intros x y Hx Hy. unfold uncrossed_with in Hun. fold s in Hun.
    change (bids b') with (side_levels Buy b') in Hx.
    change (asks b') with (side_levels Sell b') in Hy.
    destruct s; simpl in *; rewrite ?Hsame, ?Hopp in *.
    + apply bucket_push_keys in Hx as [->|Hx]; [by apply Hun|by eapply wf_uncrossed].
    + apply bucket_push_keys in Hy as [->|Hy]; [by apply Hun|by eapply wf_uncrossed].
  - assert (index_entries b' ≡ₚ (o_id o, (s, p)) :: index_entries b) as He.
    { rewrite !(index_entries_side s), Hsame, Hopp. by rewrite index_list_push. }
    assert (order_index b' = <[o_id o := (s, p)]> (order_index b)) as ->
      by (by unfold b'; destruct s).
    rewrite (wf_index t _ b Hwf).
    symmetry. rewrite <-list_to_map_cons.
    apply list_to_map_proper; [|done].
    rewrite index_entries_ids. unfold book_ids in Hn.
    apply NoDup_app in Hn as (_ & _ & Hn). by apply NoDup_app in Hn as [? _].
Qed.
End Ops.
