(* ===== verification/BookLoop.v ===== *)
(** * BookLoop: one pass of the matching loop, under the invariant

    [step_view] lists what one pass of the [while] of [run_matching_loop] can do to a
    well-formed book, [loop_step_view] shows the list complete, and [step_view_inv] and
    [step_view_measure] that every pass keeps the invariant and makes progress. *)
From S2P Require Import Prelude Decimal BTree Types Stop Book BookInv BookOps.

Section Loop.
Context {D : Type} {dops : DecimalOps D} {dlaws : DecimalLaws D}.
Implicit Types (b : OrderBook D) (o taker maker : Order D) (p price : D)
  (q : list (Order D)) (st : LoopState D).

(** A taker inside the loop: as [order_ok], but possibly used up. *)
Definition taker_ok (t : Z) o : Prop :=
  lot t (o_remaining o) /\
  (forall d, o_display_qty o = Some d -> pos_lot t d) /\
  (rests (o_order_type o) = true -> is_Some (o_price o)).

Record loop_inv (t : Z) (X : list Uuid) st : Prop := {
  li_wf : book_wf t (o_id (ls_taker st) :: X) (ls_book st);
  li_taker : taker_ok t (ls_taker st);
}.

Lemma li_lot t X st : loop_inv t X st -> lot t (o_remaining (ls_taker st)).
Proof. by intros [_ (? & _)]. Qed.

(** [maker] is the best order the taker may trade with, [q] the rest of its level. *)
Record front st price maker q : Prop := {
  fr_best : best_opposite_price (o_side (ls_taker st)) (ls_book st) = Some price;
  fr_level : bt_get price (side_levels (opposite (o_side (ls_taker st))) (ls_book st))
             = Some (maker :: q);
  fr_price : taker_price_satisfied (ls_taker st) price = true;
  fr_pos : 0 < units (o_remaining (ls_taker st));
}.

Definition has_display o : bool :=
  match o_display_qty o with Some _ => true | None => false end.

Definition fill_qty taker maker : D := dmin (o_remaining taker) (effective_qty maker).
Definition filled taker maker : Order D :=
  set_remaining (dsub (o_remaining maker) (fill_qty taker maker)) maker.

(** The maker's level and the ids that leave the book after a fill. *)
Definition level_after_fill taker maker q : list (Order D) :=
  fill_front (has_display maker && deqb (fill_qty taker maker) (effective_qty maker))%bool
    (filled taker maker) q.
Definition gone_after_fill taker maker : list Uuid :=
  if is_zero (o_remaining (filled taker maker)) then [o_id maker] else [].

Definition update_front st price q rm : OrderBook D :=
  level_update (opposite (o_side (ls_taker st))) price q rm (ls_book st).

Inductive step_view st : LoopStep D -> Prop :=
| sv_break :
    (units (o_remaining (ls_taker st)) <= 0 \/
     forall p, p ∈ keys (side_levels (opposite (o_side (ls_taker st))) (ls_book st)) ->
       taker_price_satisfied (ls_taker st) p = false) ->
    step_view st (LsBreak st)
| sv_fill price maker q b2 more :
    front st price maker q ->
    o_user_id (ls_taker st) <> o_user_id maker ->
    (if is_zero (o_remaining (filled (ls_taker st) maker))
     then maybe_cancel_oco (o_id maker) else (fun b => (b, [])))
      (update_front st price (level_after_fill (ls_taker st) maker q)
         (gone_after_fill (ls_taker st) maker)) = (b2, more) ->
    step_view st (LsContinue (mkLoop b2
      (set_remaining (dsub (o_remaining (ls_taker st)) (fill_qty (ls_taker st) maker))
         (ls_taker st))
      (ls_events st ++
         EvFill (mkFill (o_id (ls_taker st)) (o_id maker) price (fill_qty (ls_taker st) maker)
                   (o_side (ls_taker st))) :: more)
      (Some price) true))
| sv_cancel_taker price maker q :
    front st price maker q ->
    o_user_id (ls_taker st) = o_user_id maker -> o_stp_mode (ls_taker st) = CancelTaker ->
    step_view st (LsReturn (mkLoop (ls_book st) (ls_taker st)
      (ls_events st ++ [EvCancelled (o_id (ls_taker st)) SelfTradePrevented])
      (ls_last_trade_price st) (ls_had_fills st)))
| sv_pop price maker q r :
    front st price maker q ->
    o_user_id (ls_taker st) = o_user_id maker ->
    (o_stp_mode (ls_taker st) = CancelMaker /\ r = o_remaining (ls_taker st)
     \/ o_stp_mode (ls_taker st) = Decrement /\
        units (o_remaining maker) < units (o_remaining (ls_taker st)) /\
        r = dsub (o_remaining (ls_taker st)) (o_remaining maker)) ->
    step_view st (LsContinue (mkLoop (update_front st price q [o_id maker])
      (set_remaining r (ls_taker st))
      (ls_events st ++ [EvCancelled (o_id maker) SelfTradePrevented])
      (ls_last_trade_price st) (ls_had_fills st)))
| sv_pop_both price maker q :
    front st price maker q ->
    o_user_id (ls_taker st) = o_user_id maker -> o_stp_mode (ls_taker st) = Decrement ->
    units (o_remaining maker) = units (o_remaining (ls_taker st)) ->
    step_view st (LsReturn (mkLoop (update_front st price q [o_id maker])
      (set_remaining dzero (ls_taker st))
      (ls_events st ++ [EvCancelled (o_id maker) SelfTradePrevented;
                        EvCancelled (o_id (ls_taker st)) SelfTradePrevented])
      (ls_last_trade_price st) (ls_had_fills st)))
| sv_decrement price maker q :
    front st price maker q ->
    o_user_id (ls_taker st) = o_user_id maker -> o_stp_mode (ls_taker st) = Decrement ->
    units (o_remaining (ls_taker st)) < units (o_remaining maker) ->
    step_view st (LsReturn (mkLoop
      (update_front st price
         (set_remaining (dsub (o_remaining maker) (o_remaining (ls_taker st))) maker :: q) [])
      (set_remaining dzero (ls_taker st))
      (ls_events st ++ [EvCancelled (o_id (ls_taker st)) SelfTradePrevented])
      (ls_last_trade_price st) (ls_had_fills st))).

(** ** Prices *)

Lemma best_opposite_best t X s b price k :
  book_wf t X b -> best_opposite_price s b = Some price ->
  k ∈ keys (side_levels (opposite s) b) ->
  match s with Buy => units price <= units k | Sell => units k <= units price end.
Proof.
  intros Hwf Hb Hk. destruct s; simpl in *.
  - apply (bt_first_min price k) in Hb as [->|H%klt_units]; [lia|lia| |done].
    by apply (wf_sorted t X b Sell).
  - apply (bt_last_max price k) in Hb as [->|H%klt_units]; [lia|lia| |done].
    by apply (wf_sorted t X b Buy).
Qed.

Lemma price_unsatisfied_worse taker price k :
  taker_price_satisfied taker price = false ->
  match o_side taker with Buy => units price <= units k | Sell => units k <= units price end ->
  taker_price_satisfied taker k = false.
Proof.
  unfold taker_price_satisfied. destruct (o_price taker) as [l|]; [|done].
  destruct (o_side taker); rewrite !dleb_units, !Z.leb_gt; lia.
Qed.

Lemma best_opposite_get t X s b price :
  book_wf t X b -> best_opposite_price s b = Some price ->
  exists maker q, bt_get price (side_levels (opposite s) b) = Some (maker :: q).
Proof.
  intros Hwf Hb.
  assert (exists v, bt_get price (side_levels (opposite s) b) = Some v) as [v Hv].
  { destruct s; simpl in *.
    - apply bt_first_get in Hb; [done|]. by apply (wf_sorted t X b Sell).
    - apply bt_last_get in Hb; [done|]. by apply (wf_sorted t X b Buy). }
  destruct (wf_get t X b _ _ _ Hwf Hv) as [? _]. destruct v; [done|eauto].
Qed.

Lemma best_opposite_None s b :
  best_opposite_price s b = None -> side_levels (opposite s) b = [].
Proof. destruct s; simpl; [apply bt_first_None|apply bt_last_None]. Qed.

(** ** Completeness of the view *)

Lemma front_maker_ok t X st price maker q :
  loop_inv t X st -> front st price maker q ->
  Forall (maker_ok t (opposite (o_side (ls_taker st))) price) (maker :: q).
Proof. intros [Hwf _] [_ Hg _ _]. by eapply wf_get in Hg as [_ ?]. Qed.

Lemma peek_front st price maker q :
  front st price maker q ->
  peek_front_maker (opposite (o_side (ls_taker st))) price (ls_book st) =
  Some (mkPeeked (o_id maker) (o_user_id maker) (effective_qty maker) (o_remaining maker)
          (has_display maker)).
Proof. intros [_ Hg _ _]. unfold peek_front_maker. by rewrite Hg. Qed.

Lemma fill_step_view t X st price maker q :
  loop_inv t X st -> front st price maker q ->
  o_user_id (ls_taker st) <> o_user_id maker ->
  step_view st (LsContinue (fill_step price
    (mkPeeked (o_id maker) (o_user_id maker) (effective_qty maker) (o_remaining maker)
       (has_display maker)) st)).
Proof.
  intros Hinv Hfr Hne. unfold fill_step. simpl.
  rewrite (apply_fill_eq _ _ _ _ _ maker q); [|by eapply wf_sorted; apply Hinv|by apply Hfr].
  simpl. fold (fill_qty (ls_taker st) maker). fold (filled (ls_taker st) maker).
  fold (gone_after_fill (ls_taker st) maker).
  fold (level_after_fill (ls_taker st) maker q).
  fold (update_front st price (level_after_fill (ls_taker st) maker q)
          (gone_after_fill (ls_taker st) maker)).
  pose proof (sv_fill st price maker q) as Hv.
  destruct (is_zero (dsub (o_remaining maker) (fill_qty (ls_taker st) maker))) eqn:Hz.
  - destruct (maybe_cancel_oco _ _) as [b2 more] eqn:Hm. apply Hv; [done..|].
    unfold update_front, gone_after_fill. simpl. rewrite Hz. exact Hm.
  - apply Hv; [done..|]. unfold update_front, gone_after_fill. simpl. by rewrite Hz.
Qed.

Lemma stp_step_view t X st price maker q :
  valid_tick t -> loop_inv t X st -> front st price maker q ->
  o_user_id (ls_taker st) = o_user_id maker ->
  step_view st (stp_step price
    (mkPeeked (o_id maker) (o_user_id maker) (effective_qty maker) (o_remaining maker)
       (has_display maker)) st).
Proof.
  intros Ht Hinv Hfr He. unfold stp_step, apply_stp, apply_stp_decrement. simpl.
  assert (sorted (side_levels (opposite (o_side (ls_taker st))) (ls_book st))) as Hs
    by (eapply wf_sorted; apply Hinv).
  pose proof (fr_level _ _ _ _ Hfr) as Hg.
  destruct (o_stp_mode (ls_taker st)) eqn:Hm; simpl.
  - destruct (dcmp (o_remaining (ls_taker st)) (o_remaining maker)) eqn:Hc; simpl;
      rewrite dcmp_units in Hc.
    + apply Z.compare_eq_iff in Hc. rewrite (pop_front_eq _ _ _ _ (maker :: q)) by done.
      by eapply sv_pop_both.
    + rewrite Z.compare_lt_iff in Hc.
      pose proof (front_maker_ok t X st price maker q Hinv Hfr) as Hmk.
      apply Forall_cons in Hmk as [((Hrem & _) & _ & _) _].
      rewrite (decrement_front_eq _ _ _ _ maker q); [by eapply sv_decrement|done|done|].
      simpl. rewrite is_zero_units, Z.eqb_neq.
      rewrite (lot_sub_units t); [lia|done|apply Hrem|by eapply li_lot|lia].
    + rewrite Z.compare_gt_iff in Hc. rewrite (pop_front_eq _ _ _ _ (maker :: q)) by done.
      eapply sv_pop; [done..|]. by right.
  - rewrite (pop_front_eq _ _ _ _ (maker :: q)) by done.
    pose proof (sv_pop st price maker q (o_remaining (ls_taker st)) Hfr He) as Hv.
    rewrite set_remaining_same in Hv. apply Hv. by left.
  - by eapply sv_cancel_taker.
Qed.

Lemma loop_step_view t X st :
  valid_tick t -> loop_inv t X st -> step_view st (loop_step st).
Proof.
  intros Ht Hinv. pose proof (li_wf _ _ _ Hinv) as Hwf. unfold loop_step.
  rewrite dltb_units, units_zero.
  destruct (0 <? units (o_remaining (ls_taker st))) eqn:Hpos; simpl.
  2:{ apply sv_break. left. lia. }
  destruct (best_opposite_price _ _) as [price|] eqn:Hb.
  2:{ apply sv_break. right. intros p. rewrite (best_opposite_None _ _ Hb).
      by intros ?%elem_of_nil. }
  destruct (taker_price_satisfied _ _) eqn:Hp; simpl.
  2:{ apply sv_break. right. intros p Hin. eapply price_unsatisfied_worse; [done|].
      by eapply best_opposite_best. }
  destruct (best_opposite_get t _ _ _ _ Hwf Hb) as (maker & q & Hg).
  assert (front st price maker q) as Hfr by (split; [done|done|done|lia]).
  rewrite (peek_front st price maker q Hfr). simpl.
  destruct (N.eqb_spec (o_user_id (ls_taker st)) (o_user_id maker)).
  - by eapply stp_step_view.
  - by eapply fill_step_view.
Qed.

(** ** What a fill does to the level *)

Lemma effective_qty_lot t o : order_ok t o -> pos_lot t (effective_qty o).
Proof.
  intros (Hr & Hd & _). unfold effective_qty. destruct (o_display_qty o) as [d|]; [|done].
  apply pos_lot_dmin; auto.
Qed.

Lemma effective_qty_le o : units (effective_qty o) <= units (o_remaining o).
Proof.
  unfold effective_qty. destruct (o_display_qty o) as [d|]; [|lia]. rewrite units_dmin. lia.
Qed.

Record fill_facts (t : Z) taker maker : Prop := {
  ff_lot : pos_lot t (fill_qty taker maker);
  ff_taker : units (fill_qty taker maker) <= units (o_remaining taker);
  ff_eff : units (fill_qty taker maker) <= units (effective_qty maker);
  ff_sub_taker : units (dsub (o_remaining taker) (fill_qty taker maker)) =
    units (o_remaining taker) - units (fill_qty taker maker);
  ff_taker_lot : lot t (dsub (o_remaining taker) (fill_qty taker maker));
  ff_filled : units (o_remaining (filled taker maker)) =
    units (o_remaining maker) - units (fill_qty taker maker);
  ff_filled_lot : lot t (o_remaining (filled taker maker));
}.

Lemma fill_facts_intro t taker maker :
  valid_tick t -> lot t (o_remaining taker) -> 0 < units (o_remaining taker) ->
  order_ok t maker -> fill_facts t taker maker.
Proof.
  intros Ht Hl Hpos Hm. pose proof (effective_qty_lot t maker Hm) as He.
  pose proof (effective_qty_le maker) as Hle. pose proof (order_ok_rem t maker Hm) as Hr.
  assert (pos_lot t (fill_qty taker maker)) as Hf.
  { unfold fill_qty. apply pos_lot_dmin; [|done]. by split. }
  assert (units (fill_qty taker maker) =
    Z.min (units (o_remaining taker)) (units (effective_qty maker))) as Hu
    by apply units_dmin.
  destruct (lot_sub t (o_remaining taker) (fill_qty taker maker)) as [? ?];
    [done|done|apply Hf|lia|].
  destruct (lot_sub t (o_remaining maker) (fill_qty taker maker)) as [? ?];
    [done|apply Hr|apply Hf|lia|].
  split; first [done|lia].
Qed.

Lemma level_after_fill_ids taker maker q :
  ids (maker :: q) ≡ₚ gone_after_fill taker maker ++ ids (level_after_fill taker maker q).
Proof.
  unfold gone_after_fill, level_after_fill, fill_front.
  destruct (is_zero _); [done|]. destruct (has_display maker && _)%bool; [|done].
  rewrite ids_app. simpl. by rewrite Permutation_app_comm.
Qed.

Lemma level_after_fill_ok t s p taker maker q :
  fill_facts t taker maker -> Forall (maker_ok t s p) (maker :: q) ->
  Forall (maker_ok t s p) (level_after_fill taker maker q).
Proof.
  intros Hff [Hm Hq]%Forall_cons. unfold level_after_fill, fill_front.
  destruct (is_zero _) eqn:Hz; [done|].
  assert (maker_ok t s p (filled taker maker)) as Hf.
  { destruct Hm as (Ho & ? & ?). split; [|done]. apply order_ok_set_remaining; [done|].
    split; [by apply Hff|]. rewrite is_zero_units, Z.eqb_neq in Hz.
    pose proof (effective_qty_le maker). destruct Hff. simpl in *. lia. }
  destruct (has_display maker && _)%bool; [|by constructor].
  apply Forall_app. split; [done|]. by apply Forall_singleton.
Qed.

(** A fill uses up a slice of the maker unless it uses up the taker. *)
Lemma level_after_fill_slices t taker maker q :
  fill_facts t taker maker -> order_ok t maker ->
  (total_slices (level_after_fill taker maker q) <= total_slices (maker :: q))%nat /\
  (units (fill_qty taker maker) < units (o_remaining taker) ->
   (total_slices (level_after_fill taker maker q) < total_slices (maker :: q))%nat).
Proof.
  intros Hff Hm. pose proof (slices_pos t maker Hm) as Hp.
  unfold level_after_fill, fill_front. rewrite total_slices_cons.
  destruct (is_zero _) eqn:Hz; [lia|]. rewrite is_zero_units, Z.eqb_neq in Hz.
  assert (slices (filled taker maker) <= slices maker)%nat as Hle.
  { apply (slices_mono t); [done|]. destruct Hff. simpl in *. destruct ff_lot0. lia. }
  assert (units (fill_qty taker maker) < units (o_remaining taker) ->
    (slices (filled taker maker) < slices maker)%nat) as Hlt.
  { intros Hlt. assert (units (fill_qty taker maker) = units (effective_qty maker)) as He.
    { unfold fill_qty in *. rewrite units_dmin in *. lia. }
    destruct Hff. unfold effective_qty in He. destruct (o_display_qty maker) as [d|] eqn:Hd.
    - rewrite units_dmin in He. pose proof (effective_qty_le maker) as Hel.
      unfold filled. apply (slices_peak t _ d); [done|done|simpl in *; lia|].
      simpl in *. lia.
    - simpl in *. lia. }
  assert (total_slices (q ++ [filled taker maker]) =
    slices (filled taker maker) + total_slices q)%nat as Happ.
  { rewrite total_slices_app, total_slices_cons. unfold total_slices at 2. simpl. lia. }
  destruct (has_display maker && _)%bool; rewrite ?Happ, ?total_slices_cons; split; lia.
Qed.

(** ** Every pass keeps the invariant and makes progress *)

Definition step_state (r : LoopStep D) : LoopState D :=
  match r with LsContinue st | LsBreak st | LsReturn st => st end.

(** The taker keeps everything but its remaining quantity, which never grows. *)
Definition same_taker taker taker' : Prop :=
  taker' = set_remaining (o_remaining taker') taker /\
  units (o_remaining taker') <= units (o_remaining taker).

Lemma same_taker_set taker r :
  units r <= units (o_remaining taker) -> same_taker taker (set_remaining r taker).
Proof. by split. Qed.

#[export] Instance same_taker_preorder : PreOrder same_taker.
Proof.
  split.
  - intros o. split; [by rewrite set_remaining_same|lia].
  - intros o1 o2 o3 [H1 ?] [H2 ?]. split; [|lia]. rewrite H2, H1. done.
Qed.

Lemma update_front_wf t X st price maker q q' rm :
  loop_inv t X st -> front st price maker q ->
  Forall (maker_ok t (opposite (o_side (ls_taker st))) price) q' ->
  ids (maker :: q) ≡ₚ rm ++ ids q' ->
  (total_slices q' <= total_slices (maker :: q))%nat ->
  book_wf t (o_id (ls_taker st) :: X) (update_front st price q' rm) /\
  shrinks (ls_book st) (update_front st price q' rm).
Proof.
  intros [Hwf _] [_ Hg _ _] Hok Hids Hle. split.
  - by eapply level_update_wf.
  - by eapply level_update_shrinks.
Qed.

Lemma taker_ok_set t taker r : taker_ok t taker -> lot t r -> taker_ok t (set_remaining r taker).
Proof. by intros (_ & ? & ?) ?. Qed.

Lemma front_facts t X st price maker q :
  valid_tick t -> loop_inv t X st -> front st price maker q ->
  order_ok t maker /\ fill_facts t (ls_taker st) maker.
Proof.
  intros Ht Hinv Hfr.
  pose proof (front_maker_ok t X st price maker q Hinv Hfr) as Hmk.
  apply Forall_cons in Hmk as [(Hok & _) _]. split; [done|].
  apply fill_facts_intro; [done|by eapply li_lot|apply Hfr|done].
Qed.

Lemma fill_book_wf t X st price maker q b2 more :
  valid_tick t -> loop_inv t X st -> front st price maker q ->
  (if is_zero (o_remaining (filled (ls_taker st) maker))
   then maybe_cancel_oco (o_id maker) else (fun b => (b, [])))
    (update_front st price (level_after_fill (ls_taker st) maker q)
       (gone_after_fill (ls_taker st) maker)) = (b2, more) ->
  book_wf t (o_id (ls_taker st) :: X) b2 /\ shrinks (ls_book st) b2 /\
  shrinks (update_front st price (level_after_fill (ls_taker st) maker q)
       (gone_after_fill (ls_taker st) maker)) b2.
Proof.
  intros Ht Hinv Hfr Hb.
  destruct (front_facts t X st price maker q) as [Hok Hff]; [done..|].
  pose proof (front_maker_ok t X st price maker q Hinv Hfr) as Hmk.
  destruct (update_front_wf t X st price maker q (level_after_fill (ls_taker st) maker q)
    (gone_after_fill (ls_taker st) maker)) as [Hwf Hsh]; [done|done|..].
  - by apply level_after_fill_ok.
  - apply level_after_fill_ids.
  - by apply (level_after_fill_slices t).
  - destruct (is_zero _).
    + apply (maybe_cancel_oco_wf t (o_id (ls_taker st) :: X)) in Hb as [??]; [|done].
      split_and!; [done|by etrans|done].
    + injection Hb as <- <-. done.
Qed.

Lemma step_view_inv t X st r :
  valid_tick t -> loop_inv t X st -> step_view st r ->
  loop_inv t X (step_state r) /\ shrinks (ls_book st) (ls_book (step_state r)) /\
  same_taker (ls_taker st) (ls_taker (step_state r)).
Proof.
  intros Ht Hinv Hv. pose proof Hinv as [Hwf Htk]. pose proof Htk as (Hl & _).
  assert (forall price maker q, front st price maker q ->
    book_wf t (o_id (ls_taker st) :: X) (update_front st price q [o_id maker]) /\
    shrinks (ls_book st) (update_front st price q [o_id maker])) as Hpop.
  { intros price maker q Hfr.
    pose proof (front_maker_ok t X st price maker q Hinv Hfr) as Hmk.
    eapply update_front_wf; [done|done|by inversion Hmk|done|rewrite total_slices_cons; lia]. }
  assert (lot t (dzero : D)) as Hz by apply lot_zero.
  pose proof (lot_nonneg t _ Ht Hl) as Hnn.
  destruct Hv as [|price maker q b2 more Hfr Hne Hb|price maker q Hfr|price maker q r Hfr _ Hr
    |price maker q Hfr _ _ He|price maker q Hfr _ _ Hlt]; simpl.
  - done.
  - destruct (front_facts t X st price maker q) as [Hok Hff]; [done..|].
    destruct (fill_book_wf t X st price maker q b2 more) as (? & ? & _); [done..|].
    split_and!; [|done|].
    + split; [done|]. apply taker_ok_set; [done|apply Hff].
    + apply same_taker_set. destruct Hff as [[]]. lia.
  - done.
  - destruct (Hpop price maker q Hfr) as [? ?].
    destruct (front_facts t X st price maker q) as [Hok _]; [done..|].
    pose proof (order_ok_rem t maker Hok) as [Hmr Hmp].
    assert (lot t r /\ units r <= units (o_remaining (ls_taker st))) as [Hrl Hle].
    { destruct Hr as [(_ & ->)|(_ & Hlt & ->)]; [done|].
      destruct (lot_sub t (o_remaining (ls_taker st)) (o_remaining maker)) as [-> ?];
        [done|done|done|lia|]. split; [done|lia]. }
    split_and!; [|done|by apply same_taker_set]. split; [done|]. by apply taker_ok_set.
  - destruct (Hpop price maker q Hfr) as [? ?].
    split_and!; [|done|apply same_taker_set; rewrite units_zero; lia].
    split; [done|]. by apply taker_ok_set.
  - destruct (front_facts t X st price maker q) as [Hok _]; [done..|].
    pose proof (front_maker_ok t X st price maker q Hinv Hfr) as [(_ & Hs & Hp) Hq]%Forall_cons.
    pose proof (order_ok_rem t maker Hok) as [Hmr _].
    destruct (lot_sub t (o_remaining maker) (o_remaining (ls_taker st))) as [Hsub Hsl];
      [done|done|done|lia|].
    destruct (update_front_wf t X st price maker q
      (set_remaining (dsub (o_remaining maker) (o_remaining (ls_taker st))) maker :: q) [])
      as [? ?]; [done|done| |done| |].
    + constructor; [|done]. split; [|done]. apply order_ok_set_remaining; [done|].
      split; [done|lia].
    + rewrite !total_slices_cons. apply Nat.add_le_mono_r, (slices_mono t); [done|lia].
    + split_and!; [|done|apply same_taker_set; rewrite units_zero; lia].
      split; [done|]. by apply taker_ok_set.
Qed.

Definition measure st : nat :=
  (total_slices (side_orders (opposite (o_side (ls_taker st))) (ls_book st)) +
   if (0 <? units (o_remaining (ls_taker st)))%Z then 1 else 0)%nat.

Lemma update_front_slices t X st price maker q q' rm :
  loop_inv t X st -> front st price maker q ->
  exists n, total_slices (side_orders (opposite (o_side (ls_taker st))) (ls_book st)) =
              (total_slices (maker :: q) + n)%nat /\
            total_slices (side_orders (opposite (o_side (ls_taker st)))
              (update_front st price q' rm)) = (total_slices q' + n)%nat.
Proof.
  intros [Hwf _] [_ Hg _ _].
  destruct (level_update_orders t _ _ _ _ q' rm _ Hwf Hg) as (R & H1 & H2 & _).
  exists (total_slices R). unfold update_front. by rewrite H1, H2, !total_slices_app.
Qed.

Lemma step_view_measure t X st st' :
  valid_tick t -> loop_inv t X st -> step_view st (LsContinue st') ->
  (measure st' < measure st)%nat.
Proof.
  intros Ht Hinv Hv. unfold measure.
  inversion Hv as [|price maker q b2 more Hfr Hne Hb Heq| |price maker q r Hfr _ Hr Heq| |];
    subst; simpl.
  - destruct (front_facts t X st price maker q) as [Hok Hff]; [done..|].
    destruct (fill_book_wf t X st price maker q b2 more) as (_ & _ & Hsh); [done..|].
    pose proof (sh_side _ _ Hsh (opposite (o_side (ls_taker st)))) as Hs.
    destruct (update_front_slices t X st price maker q
      (level_after_fill (ls_taker st) maker q) (gone_after_fill (ls_taker st) maker))
      as (n & H1 & H2); [done..|].
    destruct (level_after_fill_slices t (ls_taker st) maker q Hff Hok) as [Hle Hlt].
    rewrite H1. rewrite H2 in Hs. rewrite (ff_sub_taker _ _ _ Hff).
    pose proof (fr_pos _ _ _ _ Hfr). pose proof (ff_taker _ _ _ Hff).
    destruct (Z.ltb_spec 0 (units (o_remaining (ls_taker st)))); [|lia].
    destruct (Z.ltb_spec 0 (units (o_remaining (ls_taker st)) -
      units (fill_qty (ls_taker st) maker))); lia.
  - destruct (front_facts t X st price maker q) as [Hok _]; [done..|].
    destruct (update_front_slices t X st price maker q q [o_id maker])
      as (n & -> & ->); [done..|].
    pose proof (slices_pos t maker Hok). rewrite total_slices_cons.
    pose proof (fr_pos _ _ _ _ Hfr).
    destruct (Z.ltb_spec 0 (units (o_remaining (ls_taker st)))); [|lia].
    destruct (0 <? units r); lia.
Qed.
End Loop.
