(* ===== verification/BookRun.v ===== *)
(** * BookRun: complete runs of the engine

    A run of the inner loop is a chain of [LsContinue] steps ([cont]) closed by a
    break or a return ([match_loop_rtc]); properties of a run follow from its steps by
    induction on the chain.  [weight] bounds the number of steps: with fuel above it
    [match_order] always answers ([match_order_terminates]). *)
From stdpp Require Import relations.
From S2P Require Import Prelude Decimal BTree Types Stop Book BookInv BookOps.
From S2P Require Import BookLoop.

Section Run.
Context {D : Type} {dops : DecimalOps D} {dlaws : DecimalLaws D}.
Implicit Types (b : OrderBook D) (o taker maker : Order D) (p price : D)
  (q : list (Order D)) (st : LoopState D).

Definition cont st st' : Prop := loop_step st = LsContinue st'.

Lemma match_loop_rtc n st r :
  match_loop n st = Some r ->
  exists st1, rtc cont st st1 /\
    match r with
    | inl st' => loop_step st1 = LsBreak st'
    | inr st' => loop_step st1 = LsReturn st'
    end.
Proof.
  revert st. induction n as [|n IH]; intros st; simpl; [done|].
  destruct (loop_step st) as [st'|st'|st'] eqn:Hs.
  - intros (st1 & Hr & Hend)%IH. exists st1. split; [|done]. by eapply rtc_l.
  - intros [= <-]. by exists st.
  - intros [= <-]. by exists st.
Qed.

Lemma loop_break_same st st' : loop_step st = LsBreak st' -> st' = st.
Proof.
  unfold loop_step, stp_step. intros H. split_match_in H.
Qed.

(** The facts every chain of passes preserves. *)
Lemma cont_inv t X st st' :
  valid_tick t -> loop_inv t X st -> rtc cont st st' ->
  loop_inv t X st' /\ shrinks (ls_book st) (ls_book st') /\
  same_taker (ls_taker st) (ls_taker st').
Proof.
  intros Ht Hinv Hr. induction Hr as [st|st1 st2 st3 Hs Hr IH]; [done|].
  pose proof (loop_step_view t X st1 Ht Hinv) as Hv. rewrite Hs in Hv.
  destruct (step_view_inv t X st1 _ Ht Hinv Hv) as (Hi & Hsh & Htk). simpl in *.
  destruct (IH Hi) as (? & ? & ?). split_and!; [done|by etrans|by etrans].
Qed.

Lemma match_loop_terminates t X n st :
  valid_tick t -> loop_inv t X st -> (measure st < n)%nat ->
  exists r, match_loop n st = Some r.
Proof.
  intros Ht. revert st. induction n as [|n IH]; intros st Hinv Hm; [lia|]. simpl.
  pose proof (loop_step_view t X st Ht Hinv) as Hv.
  destruct (loop_step st) as [st'|st'|st'] eqn:Hs; [|eauto|eauto].
  apply IH.
  - by apply (step_view_inv t X st _ Ht Hinv Hv).
  - pose proof (step_view_measure t X st st' Ht Hinv Hv). lia.
Qed.

Lemma match_loop_mono n m st r :
  match_loop n st = Some r -> (n <= m)%nat -> match_loop m st = Some r.
Proof.
  revert m st. induction n as [|n IH]; intros m st; simpl; [done|].
  destruct m as [|m]; [lia|]. simpl. intros H Hle.
  destruct (loop_step st); [|done|done]. apply IH; [done|lia].
Qed.

(** ** After the loop *)

Definition weight b : nat :=
  (total_slices (book_orders b) + total_slices (stop_orders (stops b)))%nat.
Definition nstops b : nat := length (stop_orders (stops b)).

Lemma book_orders_slices b :
  total_slices (book_orders b) =
  (total_slices (side_orders Buy b) + total_slices (side_orders Sell b))%nat.
Proof. apply total_slices_app. Qed.

Lemma shrinks_weight b b' : shrinks b b' -> (weight b' <= weight b)%nat.
Proof.
  intros [H1 H2 _ _ _]. unfold weight. rewrite !book_orders_slices.
  pose proof (H1 Buy). pose proof (H1 Sell). lia.
Qed.

Lemma unsatisfied_uncrossed t X taker b p :
  book_wf t X b -> o_price taker = Some p ->
  (forall k, k ∈ keys (side_levels (opposite (o_side taker)) b) ->
     taker_price_satisfied taker k = false) ->
  uncrossed_with (o_side taker) p b.
Proof.
  intros Hwf Hp Hall k Hk. specialize (Hall k Hk). unfold taker_price_satisfied in Hall.
  rewrite Hp in Hall. destruct (o_side taker); rewrite dleb_units, Z.leb_gt in Hall; lia.
Qed.

Definition positive taker : bool := (0 <? units (o_remaining taker))%Z.

Lemma taker_ok_order_ok t taker :
  taker_ok t taker -> 0 < units (o_remaining taker) -> order_ok t taker.
Proof. intros (? & ? & ?) ?. by split_and!. Qed.

Lemma is_zero_false_pos t taker :
  valid_tick t -> taker_ok t taker -> is_zero (o_remaining taker) = false ->
  0 < units (o_remaining taker).
Proof.
  intros Ht (Hl & _) Hz. rewrite is_zero_units, Z.eqb_neq in Hz.
  pose proof (lot_nonneg t _ Ht Hl). lia.
Qed.

(** Finalizing leaves the book alone or rests the taker. *)
Lemma finalize_cases t X taker had b b' evs :
  valid_tick t -> taker_ok t taker -> is_stop (o_order_type taker) = false ->
  book_wf t (o_id taker :: X) b ->
  (units (o_remaining taker) <= 0 \/
   forall k, k ∈ keys (side_levels (opposite (o_side taker)) b) ->
     taker_price_satisfied taker k = false) ->
  finalize_taker taker had b = (b', evs) ->
  (b' = b /\ (is_zero (o_remaining taker) = true /\ evs = [] \/
              is_zero (o_remaining taker) = false /\
              exists r, evs = [EvCancelled (o_id taker) r])) \/
  (rests (o_order_type taker) = true /\ b' = insert_maker taker b /\
   evs = [EvRested (o_id taker) (o_remaining taker)] /\
   0 < units (o_remaining taker) /\
   book_wf t X b' /\ book_orders b' ≡ₚ taker :: book_orders b /\ stops b' = stops b).
Proof.
  intros Ht Htk Hst Hwf Hexit. unfold finalize_taker.
  destruct (is_zero (o_remaining taker)) eqn:Hz; [intros [= <- <-]; left; eauto|].
  pose proof (is_zero_false_pos t taker Ht Htk Hz) as Hpos.
  assert (rests (o_order_type taker) = true ->
    book_wf t X (insert_maker taker b) /\
    book_orders (insert_maker taker b) ≡ₚ taker :: book_orders b /\
    stops (insert_maker taker b) = stops b) as Hins.
  { intros Hre. pose proof Htk as (_ & _ & Hp). pose proof (Hp Hre) as [p Hpr].
    apply (insert_maker_wf t X taker p); [done|by apply taker_ok_order_ok|done|].
    destruct Hexit; [lia|]. by eapply unsatisfied_uncrossed. }
  destruct (o_order_type taker); simpl in *; try done; try destruct had;
    intros [= <- <-];
    first [by left; split; [|right; split; [|eexists]]
          |right; destruct (Hins eq_refl) as (? & ? & ?); by split_and!].
Qed.

Record run_ok (t : Z) (X : list Uuid) taker b (b' : OrderBook D) (trig : list (Order D)) :
    Prop := {
  ro_wf : book_wf t (ids trig ++ X) b';
  ro_trig : Forall (fun o => order_ok t o /\ is_stop (o_order_type o) = false) trig;
  ro_weight : (weight b' + total_slices trig <= weight b + slices taker)%nat;
  ro_stops : (length trig + nstops b' <= nstops b)%nat;
}.

(** Draining the registry moves orders from it to the queue. *)
Lemma triggers_ok t X last b trig b' :
  book_wf t X b -> triggers last b = (trig, b') ->
  book_wf t (ids trig ++ X) b' /\
  Forall (fun o => order_ok t o /\ is_stop (o_order_type o) = false) trig /\
  (weight b' + total_slices trig = weight b)%nat /\
  (length trig + nstops b' = nstops b)%nat /\ book_orders b' = book_orders b.
Proof.
  intros Hwf. unfold triggers. destruct last as [p|].
  2:{ intros [= <- <-]. unfold total_slices. simpl. split_and!; try done; lia. }
  unfold check_stop_triggers. destruct (drain_triggered p (stops b)) as [out r] eqn:Hd.
  intros [= <- <-]. pose proof (wf_stops t X b Hwf) as Hok.
  destruct (drain_triggered_perm p (stops b) out r) as (fired & -> & Hp);
    [apply Hok|apply Hok|done|].
  assert (stops_ok t r) as Hr by (by eapply drain_triggered_ok).
  unfold weight, nstops. change (book_orders (set_stops r b)) with (book_orders b).
  simpl. rewrite convert_stop_slices, convert_stop_ids.
  rewrite <-Hp, length_app, total_slices_app, length_fmap. split_and!; [| |lia|lia|done].
  - eapply set_stops_wf; [done|done|]. rewrite <-Hp, ids_app.
    by rewrite (Permutation_app_comm (ids fired) X), <-(assoc (++)).
  - apply Forall_fmap, Forall_forall. intros o Ho. simpl.
    destruct (stop_orders_in t (stops b) o) as (s & k & Hs); [done| |].
    + rewrite <-Hp, elem_of_app. by left.
    + by eapply convert_stop_ok.
Qed.

Lemma shrinks_nstops b b' : shrinks b b' -> (nstops b' <= nstops b)%nat.
Proof. by intros []. Qed.

(** The ids a finished run keeps out of the book: a taker that cannot rest stays out. *)
Definition kept_out taker : list Uuid :=
  if rests (o_order_type taker) then [] else [o_id taker].

Lemma kept_out_sub taker (X : list Uuid) : kept_out taker ++ X ⊆+ o_id taker :: X.
Proof.
  unfold kept_out. destruct (rests _); simpl; [by apply submseteq_cons|done].
Qed.

Lemma after_loop_ok t X taker0 st b evs :
  valid_tick t -> loop_inv t X st -> is_stop (o_order_type (ls_taker st)) = false ->
  order_ok t taker0 -> same_taker taker0 (ls_taker st) ->
  step_view st (LsBreak st) -> after_loop st = (b, evs) ->
  book_wf t (kept_out taker0 ++ X) b /\
  (weight b <= weight (ls_book st) + slices taker0)%nat /\
  (nstops b <= nstops (ls_book st))%nat.
Proof.
  intros Ht [Hwf Htk] Hst Hok0 [Hsame Hle] Hv. unfold after_loop.
  destruct (finalize_taker _ _ _) as [b1 fe] eqn:Hf.
  assert (o_id (ls_taker st) = o_id taker0 /\
    o_order_type (ls_taker st) = o_order_type taker0) as [Hid Hty] by (by rewrite Hsame).
  assert (book_wf t (kept_out taker0 ++ X) b1 /\
    (weight b1 <= weight (ls_book st) + slices taker0)%nat /\
    nstops b1 = nstops (ls_book st)) as (Hwf1 & Hw1 & Hn1).
  { apply (finalize_cases t X) in Hf; [|done..|by inversion Hv].
    destruct Hf as [[-> _]|(Hre & -> & _ & Hpos & ? & Hord & Hs)].
    - split_and!; [|lia|done]. eapply wf_mono; [|done]. rewrite Hid. apply kept_out_sub.
    - rewrite Hty in Hre. unfold kept_out. rewrite Hre.
      split_and!; [done| |unfold nstops; by rewrite Hs].
      unfold weight. rewrite Hord, Hs, total_slices_cons, Hsame.
      pose proof (slices_mono t taker0 (o_remaining (ls_taker st)) Hok0 Hle). lia. }
  destruct (_ || _)%bool.
  - destruct (maybe_cancel_oco _ b1) as [b2 more] eqn:Hm. intros [= <- <-].
    apply (maybe_cancel_oco_wf t (kept_out taker0 ++ X)) in Hm as [? Hsh]; [|done].
    pose proof (shrinks_weight _ _ Hsh). pose proof (shrinks_nstops _ _ Hsh).
    split_and!; [done|lia|lia].
  - intros [= <- <-]. split_and!; [done|lia|lia].
Qed.

Lemma loop_start_inv t X taker b :
  book_wf t (o_id taker :: X) b -> order_ok t taker ->
  loop_inv t X (mkLoop b taker [] None false).
Proof. intros ? ([] & ? & ?). split; [done|]. by split_and!. Qed.

Lemma run_keeps_out t X n taker b b' evs trig :
  valid_tick t -> book_wf t (o_id taker :: X) b -> order_ok t taker ->
  is_stop (o_order_type taker) = false ->
  run_matching_loop n taker b = Some (b', evs, trig) ->
  run_ok t (kept_out taker ++ X) taker b b' trig.
Proof.
  intros Ht Hwf Hok Hst. unfold run_matching_loop.
  destruct (match_loop n _) as [r|] eqn:Hl; [|done].
  apply match_loop_rtc in Hl as (st1 & Hr & Hend).
  pose proof (loop_start_inv t X taker b Hwf Hok) as Hinv0.
  destruct (cont_inv t X _ _ Ht Hinv0 Hr) as (Hinv & Hsh & Htk). simpl in *.
  pose proof (loop_step_view t X st1 Ht Hinv) as Hv.
  destruct r as [st'|st'].
  - pose proof (loop_break_same _ _ Hend) as ->. rewrite Hend in Hv.
    destruct (after_loop st1) as [b1 ev1] eqn:Ha.
    apply (after_loop_ok t X taker) in Ha as (Hwf1 & Hw1 & Hn1); [|done..| |done|done|done].
    2:{ destruct Htk as [-> _]. done. }
    destruct (triggers _ b1) as [trig1 b2] eqn:Htr. intros [= <- <- <-].
    apply (triggers_ok t (kept_out taker ++ X)) in Htr as (? & ? & ? & ? & _); [|done].
    pose proof (shrinks_weight _ _ Hsh). pose proof (shrinks_nstops _ _ Hsh).
    split; [done|done|lia|lia].
  - rewrite Hend in Hv.
    destruct (step_view_inv t X st1 _ Ht Hinv Hv) as ([Hwf1 _] & Hsh1 & [Hs1 _]). simpl in *.
    destruct Htk as [Hs0 _].
    destruct (triggers _ _) as [trig1 b2] eqn:Htr. intros [= <- <- <-].
    apply (triggers_ok t (kept_out taker ++ X)) in Htr as (? & ? & ? & ? & _).
    2:{ eapply wf_mono; [|done].
        assert (o_id (ls_taker st') = o_id taker) as -> by (by rewrite Hs1, Hs0).
        apply kept_out_sub. }
    pose proof (shrinks_weight _ _ Hsh). pose proof (shrinks_nstops _ _ Hsh).
    pose proof (shrinks_weight _ _ Hsh1). pose proof (shrinks_nstops _ _ Hsh1).
    split; [done|done|lia|lia].
Qed.

Lemma run_matching_loop_ok t X n taker b b' evs trig :
  valid_tick t -> book_wf t (o_id taker :: X) b -> order_ok t taker ->
  is_stop (o_order_type taker) = false ->
  run_matching_loop n taker b = Some (b', evs, trig) -> run_ok t X taker b b' trig.
Proof.
  intros Ht Hwf Hok Hst Hr. destruct (run_keeps_out t X _ _ _ _ _ _ Ht Hwf Hok Hst Hr).
  split; try done. eapply wf_mono; [|done]. apply submseteq_skips_l.
  by apply submseteq_inserts_l.
Qed.

Lemma run_matching_loop_terminates t X n taker b :
  valid_tick t -> book_wf t (o_id taker :: X) b -> order_ok t taker ->
  (weight b + 1 < n)%nat -> is_Some (run_matching_loop n taker b).
Proof.
  intros Ht Hwf Hok Hn. unfold run_matching_loop.
  destruct (match_loop_terminates t X n (mkLoop b taker [] None false)) as [r ->];
    [done|by apply loop_start_inv| |].
  - unfold measure, weight in *. simpl. rewrite book_orders_slices in Hn.
    destruct (o_side taker); simpl; case_match; lia.
  - destruct r; [destruct (after_loop _)|]; destruct (triggers _ _); eauto.
Qed.

Lemma run_matching_loop_mono n m taker b r :
  run_matching_loop n taker b = Some r -> (n <= m)%nat ->
  run_matching_loop m taker b = Some r.
Proof.
  unfold run_matching_loop. destruct (match_loop n _) as [x|] eqn:E; [|done].
  intros H Hle. by rewrite (match_loop_mono _ _ _ _ E Hle).
Qed.

(** ** The stop cascade *)

Definition queue_ok (t : Z) (queue : list (Order D)) : Prop :=
  Forall (fun o => order_ok t o /\ is_stop (o_order_type o) = false) queue.

Lemma queue_pop t X queue o queue' b :
  queue_ok t queue -> book_wf t (ids queue ++ X) b -> vec_pop queue = Some (o, queue') ->
  queue_ok t queue' /\ order_ok t o /\ is_stop (o_order_type o) = false /\
  book_wf t (o_id o :: ids queue' ++ X) b.
Proof.
  intros Hq Hwf ->%vec_pop_Some. apply Forall_app in Hq as [Hq' Ho].
  apply Forall_singleton in Ho as [? ?]. split_and!; [done..|].
  eapply wf_mono; [|done]. rewrite ids_app. simpl.
  rewrite <-(assoc (++)). simpl. by rewrite Permutation_middle.
Qed.

(** What the queue is after one round, whether the triggered stops joined it or not. *)
Lemma round_ok t X o queue trig b b' (keep : bool) :
  queue_ok t queue -> run_ok t (ids queue ++ X) o b b' trig ->
  let queue' := if keep then queue ++ trig else queue in
  queue_ok t queue' /\ book_wf t (ids queue' ++ X) b' /\
  (weight b' + total_slices queue' <= weight b + slices o + total_slices queue)%nat /\
  (length queue' + nstops b' <= length queue + nstops b)%nat.
Proof.
  intros Hq [Hwf Htr Hw Hn] queue'. unfold queue'. destruct keep.
  - split_and!.
    + by apply Forall_app.
    + eapply wf_mono; [|done]. rewrite ids_app. apply Permutation_submseteq.
      solve_Permutation.
    + rewrite total_slices_app. lia.
    + rewrite length_app. lia.
  - split_and!; [done| |lia|lia].
    eapply wf_mono; [|done]. by apply submseteq_inserts_l.
Qed.

Lemma work_loop_ok t X lf n queue depth evs b b' evs' :
  valid_tick t -> queue_ok t queue -> book_wf t (ids queue ++ X) b ->
  work_loop lf n queue depth evs b = Some (b', evs') ->
  book_wf t X b' /\ (nstops b' <= length queue + nstops b)%nat.
Proof.
  intros Ht. revert queue depth evs b. induction n as [|n IH]; intros queue depth evs b Hq Hwf;
    simpl; destruct (vec_pop queue) as [[o queue']|] eqn:Hp; try done.
  - apply vec_pop_None in Hp as ->. intros [= <- <-]. split; [done|]. simpl. lia.
  - destruct (queue_pop t X queue o queue' b) as (Hq' & Hok & Hst & Hwf'); [done..|].
    destruct (run_matching_loop lf o b) as [[[b1 ev1] trig]|] eqn:Hr; [|done].
    apply (run_matching_loop_ok t (ids queue' ++ X)) in Hr; [|done..].
    apply vec_pop_Some in Hp as ->. rewrite length_app. simpl.
    destruct (depth <? MAX_STOP_CHAIN_DEPTH).
    + destruct (round_ok t X o queue' trig b b1 true Hq' Hr) as (? & ? & _ & ?).
      intros Hwl. apply IH in Hwl as [? ?]; [|done..]. split; [done|lia].
    + destruct (round_ok t X o queue' trig b b1 false Hq' Hr) as (? & ? & _ & ?).
      intros Hwl. apply IH in Hwl as [? ?]; [|done..]. split; [done|lia].
  - apply vec_pop_None in Hp as ->. intros [= <- <-]. split; [done|]. simpl. lia.
Qed.

Lemma work_loop_terminates t X lf n queue depth evs b :
  valid_tick t -> queue_ok t queue -> book_wf t (ids queue ++ X) b ->
  (weight b + total_slices queue + 1 < lf)%nat -> (length queue + nstops b <= n)%nat ->
  is_Some (work_loop lf n queue depth evs b).
Proof.
  intros Ht. revert queue depth evs b.
  induction n as [|n IH]; intros queue depth evs b Hq Hwf Hlf Hn;
    simpl; destruct (vec_pop queue) as [[o queue']|] eqn:Hp; eauto.
  - apply vec_pop_Some in Hp as ->. rewrite length_app in Hn. simpl in Hn. lia.
  - destruct (queue_pop t X queue o queue' b) as (Hq' & Hok & Hst & Hwf'); [done..|].
    apply vec_pop_Some in Hp as ->. rewrite total_slices_app in Hlf.
    rewrite length_app in Hn. unfold total_slices at 2 in Hlf. simpl in Hlf, Hn.
    destruct (run_matching_loop_terminates t (ids queue' ++ X) lf o b) as [[[b1 ev1] trig] Hr];
      [done..|lia|]. rewrite Hr.
    apply (run_matching_loop_ok t (ids queue' ++ X)) in Hr; [|done..].
    destruct (depth <? MAX_STOP_CHAIN_DEPTH).
    + destruct (round_ok t X o queue' trig b b1 true Hq' Hr) as (? & ? & ? & ?).
      apply IH; [done|done|lia|lia].
    + destruct (round_ok t X o queue' trig b b1 false Hq' Hr) as (? & ? & ? & ?).
      apply IH; [done|done|lia|lia].
Qed.

Lemma work_loop_mono lf lf' n n' queue depth evs b r :
  work_loop lf n queue depth evs b = Some r -> (lf <= lf')%nat -> (n <= n')%nat ->
  work_loop lf' n' queue depth evs b = Some r.
Proof.
  intros H Hlf. revert n' queue depth evs b H.
  induction n as [|n IH]; intros n' queue depth evs b H Hn.
  - simpl in H. destruct n'; simpl; by destruct (vec_pop queue) as [[??]|].
  - destruct n' as [|n']; [lia|]. simpl in *.
    destruct (vec_pop queue) as [[o queue']|]; [|done].
    destruct (run_matching_loop lf o b) as [[[b1 ev1] trig]|] eqn:Hr; [|done].
    rewrite (run_matching_loop_mono _ _ _ _ _ Hr Hlf).
    case_match; (apply IH; [done|lia]).
Qed.

Lemma match_order_mono n n' taker b r :
  match_order n taker b = Some r -> (n <= n')%nat -> match_order n' taker b = Some r.
Proof.
  unfold match_order. destruct (pre_check taker b); [done|].
  destruct (is_stop _); [done|]. intros H Hle. by eapply work_loop_mono.
Qed.

(** ** [match_order] *)

(** What the engine accepts: a well-formed order whose id is not in use. *)
Definition admissible (t : Z) taker b : Prop :=
  order_ok t taker /\ o_id taker ∉ book_ids b.

(** Fuel that always suffices. *)
Definition enough_fuel taker b : nat := (weight b + slices taker + nstops b + 2)%nat.

Lemma admissible_wf t taker b :
  book_wf t [] b -> admissible t taker b -> book_wf t [o_id taker] b.
Proof.
  intros Hwf [_ Hid]. eapply wf_weaken; [done|].
  pose proof (wf_nodup t [] b Hwf) as Hn. simpl in *. by apply NoDup_cons.
Qed.

Lemma register_stop_wf t taker b b' evs :
  book_wf t [] b -> admissible t taker b -> is_stop (o_order_type taker) = true ->
  register_stop_order taker b = (b', evs) -> book_wf t [] b'.
Proof.
  intros Hwf Had Hst. pose proof (admissible_wf t taker b Hwf Had) as Hwf'.
  unfold register_stop_order. destruct (stop_insert taker (stops b)) as [r|e] eqn:Hi.
  - intros [= <- <-]. apply (stop_insert_ok t) in Hi as [Hr Hp]; [|apply Hwf|apply Had|done].
    eapply set_stops_wf; [exact Hwf'|done|]. rewrite Hp. reflexivity.
  - by intros [= <- <-].
Qed.

Lemma match_order_wf t n taker b b' evs :
  valid_tick t -> book_wf t [] b -> admissible t taker b ->
  match_order n taker b = Some (b', evs) -> book_wf t [] b'.
Proof.
  intros Ht Hwf Had. unfold match_order. destruct (pre_check taker b).
  { by intros [= <- <-]. }
  destruct (is_stop (o_order_type taker)) eqn:Hst.
  - intros [= H]. by eapply register_stop_wf.
  - intros H. eapply (work_loop_ok t []) in H as [? _]; [done|done| |].
    + apply Forall_singleton. split; [apply Had|done].
    + by apply admissible_wf.
Qed.

Lemma match_order_total t n taker b :
  valid_tick t -> book_wf t [] b -> admissible t taker b ->
  (enough_fuel taker b <= n)%nat -> is_Some (match_order n taker b).
Proof.
  intros Ht Hwf Had Hn. unfold match_order. destruct (pre_check taker b); [eauto|].
  destruct (is_stop (o_order_type taker)) eqn:Hst; [eauto|].
  apply (work_loop_terminates t []); unfold enough_fuel in *; simpl; [done| | |lia|lia].
  - apply Forall_singleton. split; [apply Had|done].
  - by apply admissible_wf.
Qed.
End Run.
