(* ===== verification/BookSpec.v ===== *)
(** * BookSpec: price-time priority as a specification, and the refinement

    The specification of the matching engine: each side of the market is one list of
    orders in priority order, best price first and oldest first within a price.  The
    taker trades with the head of the opposite list for as long as its limit allows;
    an order rests behind every order it does not beat; a refreshed iceberg rests
    again; cancelling removes the order.  There are no levels, no index and no peeked
    copies.  [flat_match_order] computes a whole submission on these lists.

    [abs] reads the two lists off an [OrderBook]; [loop_refines], [run_refines] and
    [work_refines] show that the engine of Book computes exactly this specification. *)
From stdpp Require Import relations.
From S2P Require Import Prelude Decimal BTree Types Stop Book BookInv BookOps.
From S2P Require Import BookLoop BookRun.

Record FlatBook (D : Type) := mkFlat {
  f_bids : list (Order D);
  f_asks : list (Order D);
  f_stops : StopRegistry D;
  f_oco : gmap Uuid Uuid;
}.
Arguments mkFlat {D}.
Arguments f_bids {D} _.
Arguments f_asks {D} _.
Arguments f_stops {D} _.
Arguments f_oco {D} _.

Record FlatState (D : Type) := mkFState {
  fs_book : FlatBook D;
  fs_taker : Order D;
  fs_events : list (EngineEvent D);
  fs_last : option D;
  fs_had : bool;
}.
Arguments mkFState {D}.
Arguments fs_book {D} _.
Arguments fs_taker {D} _.
Arguments fs_events {D} _.
Arguments fs_last {D} _.
Arguments fs_had {D} _.

Inductive FlatStep (D : Type) :=
| FsContinue (st : FlatState D)
| FsBreak (st : FlatState D)
| FsReturn (st : FlatState D).
Arguments FsContinue {D} _.
Arguments FsBreak {D} _.
Arguments FsReturn {D} _.

Section Spec.
Context {D : Type} {dops : DecimalOps D} {dlaws : DecimalLaws D}.
Implicit Types (fb : FlatBook D) (o taker maker : Order D) (l : list (Order D)).

Definition f_side (s : Side) fb : list (Order D) :=
  match s with Buy => f_bids fb | Sell => f_asks fb end.
Definition set_f_side (s : Side) l fb : FlatBook D :=
  match s with
  | Buy => mkFlat l (f_asks fb) (f_stops fb) (f_oco fb)
  | Sell => mkFlat (f_bids fb) l (f_stops fb) (f_oco fb)
  end.
Definition set_f_stops r fb : FlatBook D := mkFlat (f_bids fb) (f_asks fb) r (f_oco fb).
Definition set_f_oco m fb : FlatBook D := mkFlat (f_bids fb) (f_asks fb) (f_stops fb) m.

(** [o] has a strictly better price than [m], both on side [s]. *)
Definition outbids (s : Side) o (m : Order D) : bool :=
  match o_price o, o_price m with
  | Some p, Some k => match s with Buy => dltb k p | Sell => dltb p k end
  | _, _ => false
  end.

(** [o] takes its place behind every order it does not beat. *)
Fixpoint enqueue (s : Side) o l : list (Order D) :=
  match l with
  | [] => [o]
  | m :: l' => if outbids s o m then o :: l else m :: enqueue s o l'
  end.

Fixpoint remove_id (id : Uuid) l : option (list (Order D)) :=
  match l with
  | [] => None
  | o :: l' => if N.eqb (o_id o) id then Some l' else cons o <$> remove_id id l'
  end.

Definition f_cancel (id : Uuid) (reason : CancelReason) fb :
    FlatBook D * list (EngineEvent D) :=
  match stop_cancel id (f_stops fb) with
  | Some r => (set_f_stops r fb, [EvCancelled id reason])
  | None =>
      match remove_id id (f_bids fb) with
      | Some l => (set_f_side Buy l fb, [EvCancelled id reason])
      | None =>
          match remove_id id (f_asks fb) with
          | Some l => (set_f_side Sell l fb, [EvCancelled id reason])
          | None => (fb, [])
          end
      end
  end.

Definition f_unlink (id : Uuid) fb : FlatBook D * list (EngineEvent D) :=
  match f_oco fb !! id with
  | None => (fb, [])
  | Some linked =>
      f_cancel linked OcoLinked (set_f_oco (delete linked (delete id (f_oco fb))) fb)
  end.

Definition f_cancel_order (id : Uuid) fb : FlatBook D * list (EngineEvent D) :=
  match f_oco fb !! id with
  | None => f_cancel id AdminCancel fb
  | Some linked =>
      let (fb, e1) :=
        f_cancel id AdminCancel (set_f_oco (delete linked (delete id (f_oco fb))) fb) in
      let (fb, e2) := f_cancel linked OcoLinked fb in (fb, e1 ++ e2)
  end.

(** The trade of [taker] with the best maker [maker], [rest] being behind it. *)
Definition f_fill (price : D) maker (rest : list (Order D)) (st : FlatState D) : FlatState D :=
  let taker := fs_taker st in
  let s := opposite (o_side taker) in
  let qty := dmin (o_remaining taker) (effective_qty maker) in
  let maker' := set_remaining (dsub (o_remaining maker) qty) maker in
  let fill := EvFill (mkFill (o_id taker) (o_id maker) price qty (o_side taker)) in
  let taker' := set_remaining (dsub (o_remaining taker) qty) taker in
  let (fb, more) :=
    if is_zero (o_remaining maker') then f_unlink (o_id maker) (set_f_side s rest (fs_book st))
    else if (has_display maker && deqb qty (effective_qty maker))%bool
      then (set_f_side s (enqueue s maker' rest) (fs_book st), [])
      else (set_f_side s (maker' :: rest) (fs_book st), []) in
  mkFState fb taker' (fs_events st ++ fill :: more) (Some price) true.

Definition f_stp maker (rest : list (Order D)) (st : FlatState D) : FlatStep D :=
  let taker := fs_taker st in
  let s := opposite (o_side taker) in
  let out fb taker evs :=
    mkFState fb taker (fs_events st ++ evs) (fs_last st) (fs_had st) in
  let without := set_f_side s rest (fs_book st) in
  let cancelled id := EvCancelled id SelfTradePrevented in
  match o_stp_mode taker with
  | CancelTaker => FsReturn (out (fs_book st) taker [cancelled (o_id taker)])
  | CancelMaker => FsContinue (out without taker [cancelled (o_id maker)])
  | Decrement =>
      match dcmp (o_remaining taker) (o_remaining maker) with
      | Lt =>
          let maker' := set_remaining (dsub (o_remaining maker) (o_remaining taker)) maker in
          FsReturn (out (set_f_side s (maker' :: rest) (fs_book st))
            (set_remaining dzero taker) [cancelled (o_id taker)])
      | Gt =>
          FsContinue (out without
            (set_remaining (dsub (o_remaining taker) (o_remaining maker)) taker)
            [cancelled (o_id maker)])
      | Eq =>
          FsReturn (out without (set_remaining dzero taker)
            [cancelled (o_id maker); cancelled (o_id taker)])
      end
  end.

Definition flat_step (st : FlatState D) : FlatStep D :=
  let taker := fs_taker st in
  if negb (dltb dzero (o_remaining taker)) then FsBreak st
  else
    match f_side (opposite (o_side taker)) (fs_book st) with
    | [] => FsBreak st
    | maker :: rest =>
        match o_price maker with
        | None => FsBreak st
        | Some price =>
            if negb (taker_price_satisfied taker price) then FsBreak st
            else if N.eqb (o_user_id taker) (o_user_id maker) then f_stp maker rest st
            else FsContinue (f_fill price maker rest st)
        end
    end.

Fixpoint flat_loop (fuel : nat) (st : FlatState D) : option (FlatState D + FlatState D) :=
  match fuel with
  | O => None
  | S fuel =>
      match flat_step st with
      | FsContinue st' => flat_loop fuel st'
      | FsBreak st' => Some (inl st')
      | FsReturn st' => Some (inr st')
      end
  end.

Definition f_finalize taker (had : bool) fb : FlatBook D * list (EngineEvent D) :=
  if is_zero (o_remaining taker) then (fb, [])
  else
    let s := o_side taker in
    let rest := (set_f_side s (enqueue s taker (f_side s fb)) fb,
                 [EvRested (o_id taker) (o_remaining taker)]) in
    match o_order_type taker with
    | Market | Ioc => (fb, [EvCancelled (o_id taker) NoLiquidity])
    | Fok => (fb, [EvCancelled (o_id taker) FokUnfilled])
    | PostOnly => if had then (fb, [EvCancelled (o_id taker) PostOnlyCrossed]) else rest
    | Limit | Iceberg | Oco => rest
    | StopLimit | StopMarket => (fb, [EvCancelled (o_id taker) AdminCancel])
    end.

Definition f_after_loop (st : FlatState D) : FlatBook D * list (EngineEvent D) :=
  let taker := fs_taker st in
  let (fb, fin) := f_finalize taker (fs_had st) (fs_book st) in
  let (fb, more) :=
    if (is_zero (o_remaining taker) || existsb is_cancelled fin)%bool
    then f_unlink (o_id taker) fb else (fb, []) in
  (fb, fs_events st ++ fin ++ more).

Definition f_triggers (last : option D) fb : list (Order D) * FlatBook D :=
  match last with
  | None => ([], fb)
  | Some p => let (out, r) := drain_triggered p (f_stops fb) in (out, set_f_stops r fb)
  end.

Definition flat_run (fuel : nat) taker fb :
    option (FlatBook D * list (EngineEvent D) * list (Order D)) :=
  match flat_loop fuel (mkFState fb taker [] None false) with
  | None => None
  | Some (inr st) =>
      let (trig, fb) := f_triggers (fs_last st) (fs_book st) in Some (fb, fs_events st, trig)
  | Some (inl st) =>
      let (fb, evs) := f_after_loop st in
      let (trig, fb) := f_triggers (fs_last st) fb in Some (fb, evs, trig)
  end.

Fixpoint flat_work (lf fuel : nat) (queue : list (Order D)) (depth : Z)
    (evs : list (EngineEvent D)) fb : option (FlatBook D * list (EngineEvent D)) :=
  match vec_pop queue with
  | None => Some (fb, evs)
  | Some (o, queue) =>
      match fuel with
      | O => None
      | S fuel =>
          match flat_run lf o fb with
          | None => None
          | Some (fb, e, trig) =>
              if (depth <? MAX_STOP_CHAIN_DEPTH)%Z then
                flat_work lf fuel (queue ++ trig)
                  (u8_saturating_add depth (u8_try_from_or_max (length trig)))
                  ((evs ++ e) ++ ((fun t => EvStopTriggered (o_id t)) <$> trig)) fb
              else flat_work lf fuel queue depth (evs ++ e) fb
          end
      end
  end.

(** The quantity the taker may trade with at once. *)
Definition within_limit taker (m : Order D) : bool :=
  match o_price m with Some p => taker_price_satisfied taker p | None => false end.
Definition reachable_qty taker l : Z := qty (filter (fun m => within_limit taker m = true) l).

Definition f_crosses taker l : bool :=
  match l with
  | m :: _ => match o_price m, o_price taker with
              | Some p, Some _ => taker_price_satisfied taker p
              | _, _ => false
              end
  | [] => false
  end.

Definition f_pre_check taker fb : option (EngineEvent D) :=
  let l := f_side (opposite (o_side taker)) fb in
  match o_order_type taker with
  | Fok =>
      if (reachable_qty taker l <? units (o_remaining taker))%Z
      then Some (EvCancelled (o_id taker) FokUnfilled) else None
  | PostOnly =>
      if f_crosses taker l then Some (EvCancelled (o_id taker) PostOnlyCrossed) else None
  | _ => None
  end.

Definition f_register_stop o fb : FlatBook D * list (EngineEvent D) :=
  match stop_insert o (f_stops fb) with
  | Ok r => (set_f_stops r fb, [EvRested (o_id o) (o_remaining o)])
  | Err _ => (fb, [EvCancelled (o_id o) AdminCancel])
  end.

Definition flat_match_order (fuel : nat) taker fb :
    option (FlatBook D * list (EngineEvent D)) :=
  match f_pre_check taker fb with
  | Some reject => Some (fb, [reject])
  | None =>
      if is_stop (o_order_type taker) then Some (f_register_stop taker fb)
      else flat_work fuel fuel [taker] 0 [] fb
  end.
End Spec.
