(* ===== verification/BookRefine.v ===== *)
(** * BookRefine: the engine of Book implements the specification of BookSpec *)
From stdpp Require Import relations.
From S2P Require Import Prelude Decimal BTree Types Stop Book BookInv BookOps.
From S2P Require Import BookLoop BookRun BookSpec.

Section Refine.
Context {D : Type} {dops : DecimalOps D} {dlaws : DecimalLaws D}.
Implicit Types (b : OrderBook D) (o taker maker : Order D) (p price : D)
  (m : btree D (list (Order D))) (q l : list (Order D)) (w : Order D) (st : LoopState D).

(** ** The abstraction *)

Definition best_first (s : Side) m : btree D (list (Order D)) :=
  match s with Buy => rev m | Sell => m end.
Definition flat (s : Side) b : list (Order D) := bucket_orders (best_first s (side_levels s b)).

Definition abs b : FlatBook D :=
  mkFlat (flat Buy b) (flat Sell b) (stops b) (oco_links b).
Definition abs_state st : FlatState D :=
  mkFState (abs (ls_book st)) (ls_taker st) (ls_events st) (ls_last_trade_price st)
    (ls_had_fills st).
Definition abs_step (r : LoopStep D) : FlatStep D :=
  match r with
  | LsContinue st => FsContinue (abs_state st)
  | LsBreak st => FsBreak (abs_state st)
  | LsReturn st => FsReturn (abs_state st)
  end.

Lemma f_side_abs s b : f_side s (abs b) = flat s b.
Proof. by destruct s. Qed.

(** ** Where a level lies in the flat list *)

(** Price [k] has priority over [p] on side [s]. *)
Definition beats (s : Side) k p : Prop :=
  match s with Buy => units p < units k | Sell => units k < units p end.

Definition priced (P : D -> Prop) o : Prop := exists k, o_price o = Some k /\ P k.

Lemma bucket_priced (P : D -> Prop) m t s :
  Forall (fun e => e.2 <> [] /\ Forall (maker_ok t s e.1) e.2) m ->
  Forall P (keys m) -> Forall (priced P) (bucket_orders m).
Proof.
  intros Hf Hk. apply Forall_forall. intros o (k & q & Hin & Ho)%bucket_orders_in.
  rewrite Forall_forall in Hf. destruct (Hf _ Hin) as [_ Hq]. simpl in Hq.
  rewrite Forall_forall in Hq. destruct (Hq o Ho) as (_ & _ & Hp).
  exists k. split; [done|]. rewrite Forall_forall in Hk. apply Hk.
  apply list_elem_of_fmap. by exists (k, q).
Qed.

Lemma bucket_rev_Forall (P : Order D -> Prop) m :
  Forall P (bucket_orders m) -> Forall P (bucket_orders (rev m)).
Proof. by rewrite <-(Permutation_rev m). Qed.

Lemma flat_split t s p m :
  side_ok t s m ->
  exists l1 l2,
    bucket_orders (best_first s m) = l1 ++ default [] (bt_get p m) ++ l2 /\
    (forall q, bucket_orders (best_first s (put_level p q m)) = l1 ++ q ++ l2) /\
    Forall (priced (fun k => beats s k p /\ k ∈ keys m)) l1 /\
    Forall (priced (fun k => beats s p k)) l2.
Proof.
  intros [Hs Hf].
  assert (exists m1 m2, m = m1 ++ (match bt_get p m with Some q => [(p, q)] | None => [] end) ++ m2 /\
    Forall (fun x => klt x p) (keys m1) /\ Forall (klt p) (keys m2) /\
    bt_remove p m = m1 ++ m2 /\ (forall q, bt_insert p q m = m1 ++ (p, q) :: m2))
    as (m1 & m2 & Hm & H1 & H2 & Hr & Hi).
  { destruct (bt_get p m) as [q|] eqn:Hg.
    - destruct (bt_get_split p q m Hs Hg) as (m1 & m2 & ?). exists m1, m2. naive_solver.
    - destruct (bt_get_None_split p m Hs Hg) as (m1 & m2 & ?). exists m1, m2. naive_solver. }
  assert (forall q, bucket_orders (best_first s (put_level p q m)) =
    bucket_orders (best_first s (m1 ++ [(p, q)] ++ m2))) as Hput.
  { intros q. destruct q as [|o q]; simpl.
    - rewrite Hr. destruct s; simpl; rewrite ?rev_app_distr, ?bucket_orders_app; [|done].
      simpl. rewrite bucket_orders_app. by rewrite app_nil_r.
    - by rewrite Hi. }
  assert (forall x, bucket_orders (best_first s (m1 ++ x ++ m2)) =
    match s with
    | Buy => bucket_orders (rev m2) ++ bucket_orders (rev x) ++ bucket_orders (rev m1)
    | Sell => bucket_orders m1 ++ bucket_orders x ++ bucket_orders m2
    end) as Hsplit.
  { intros x. destruct s; simpl; rewrite ?rev_app_distr, ?bucket_orders_app; [|done].
    by rewrite <-(assoc (++)). }
  assert (Forall (fun x => klt x p /\ x ∈ keys m) (keys m1)) as K1.
  { rewrite Forall_forall in *. intros x Hx. split; [auto|].
    rewrite Hm. unfold keys in *. rewrite fmap_app. set_solver. }
  assert (Forall (fun x => klt p x /\ x ∈ keys m) (keys m2)) as K2.
  { rewrite Forall_forall in *. intros x Hx. split; [auto|].
    rewrite Hm. unfold keys in *. rewrite !fmap_app. set_solver. }
  assert (Forall (fun e => e.2 <> [] /\ Forall (maker_ok t s e.1) e.2) m1 /\
          Forall (fun e => e.2 <> [] /\ Forall (maker_ok t s e.1) e.2) m2) as [F1 F2].
  { rewrite Hm, !Forall_app in Hf. tauto. }
  pose proof (bucket_priced _ m1 t s F1 K1) as P1.
  pose proof (bucket_priced _ m2 t s F2 K2) as P2.
  assert (forall q, bucket_orders (best_first s (put_level p q m)) =
    match s with
    | Buy => bucket_orders (rev m2) ++ q ++ bucket_orders (rev m1)
    | Sell => bucket_orders m1 ++ q ++ bucket_orders m2
    end) as Hq.
  { intros q. rewrite Hput, Hsplit. destruct s; simpl;
      by rewrite bucket_orders_cons, app_nil_r. }
  assert (bucket_orders (best_first s m) =
    match s with
    | Buy => bucket_orders (rev m2) ++ default [] (bt_get p m) ++ bucket_orders (rev m1)
    | Sell => bucket_orders m1 ++ default [] (bt_get p m) ++ bucket_orders m2
    end) as Hall.
  { rewrite Hm at 1. rewrite Hsplit. destruct (bt_get p m) as [q|], s; simpl;
      by rewrite ?bucket_orders_cons, ?app_nil_r. }
  destruct s; simpl in Hq, Hall.
  - exists (bucket_orders (rev m2)), (bucket_orders (rev m1)). split_and!; [done|done|..].
    + apply bucket_rev_Forall. eapply Forall_impl; [exact P2|].
      intros o (k & ? & Hk%klt_units & ?). by exists k.
    + apply bucket_rev_Forall. eapply Forall_impl; [exact P1|].
      intros o (k & ? & Hk%klt_units & ?). by exists k.
  - exists (bucket_orders m1), (bucket_orders m2). split_and!; [done|done|..].
    + eapply Forall_impl; [exact P1|]. intros o (k & ? & Hk%klt_units & ?). by exists k.
    + eapply Forall_impl; [exact P2|]. intros o (k & ? & Hk%klt_units & ?). by exists k.
Qed.

(** ** Lists *)

Lemma flat_perm s b : flat s b ≡ₚ side_orders s b.
Proof.
  unfold flat, side_orders. destruct s; simpl; [|done]. by rewrite <-Permutation_rev.
Qed.

Lemma outbids_beats s o k p w :
  o_price o = Some p -> o_price w = Some k -> outbids s o w = true <-> beats s p k.
Proof.
  intros Hp Hk. unfold outbids, beats. rewrite Hp, Hk.
  destruct s; rewrite dltb_units, Z.ltb_lt; done.
Qed.

Lemma enqueue_app s o p l1 l2 :
  o_price o = Some p ->
  Forall (priced (fun k => ~ beats s p k)) l1 -> Forall (priced (fun k => beats s p k)) l2 ->
  enqueue s o (l1 ++ l2) = l1 ++ o :: l2.
Proof.
  intros Hp H1 H2. induction l1 as [|w l1 IH]; simpl.
  - destruct l2 as [|w l2]; simpl; [done|].
    apply Forall_cons in H2 as [(k & Hk & Hb) _].
    by rewrite (proj2 (outbids_beats s o k p w Hp Hk)).
  - apply Forall_cons in H1 as [(k & Hk & Hb) H1].
    destruct (outbids s o w) eqn:Ho; [|by rewrite IH].
    by apply (outbids_beats s o k p) in Ho.
Qed.

Lemma remove_id_app id l1 o l2 :
  o_id o = id -> id ∉ ids l1 -> remove_id id (l1 ++ o :: l2) = Some (l1 ++ l2).
Proof.
  intros Hid. induction l1 as [|w l1 IH]; simpl; intros Hn.
  - by rewrite (proj2 (N.eqb_eq _ _) Hid).
  - apply not_elem_of_cons in Hn as [Hne Hn].
    rewrite (proj2 (N.eqb_neq _ _)) by done. by rewrite IH.
Qed.

Lemma remove_id_None id l : id ∉ ids l -> remove_id id l = None.
Proof.
  induction l as [|w l IH]; simpl; intros Hn; [done|].
  apply not_elem_of_cons in Hn as [Hne Hn].
  rewrite (proj2 (N.eqb_neq _ _)) by done. by rewrite IH.
Qed.

(** ** Books *)

Lemma flat_book_ext s (fb fb' : FlatBook D) :
  f_side s fb = f_side s fb' -> f_side (opposite s) fb = f_side (opposite s) fb' ->
  f_stops fb = f_stops fb' -> f_oco fb = f_oco fb' -> fb = fb'.
Proof. destruct s, fb, fb'; simpl; by intros -> -> -> ->. Qed.

Lemma f_side_set s l (fb : FlatBook D) : f_side s (set_f_side s l fb) = l.
Proof. by destruct s. Qed.
Lemma f_side_set_opp s l (fb : FlatBook D) :
  f_side (opposite s) (set_f_side s l fb) = f_side (opposite s) fb.
Proof. by destruct s. Qed.
Lemma f_stops_set s l (fb : FlatBook D) : f_stops (set_f_side s l fb) = f_stops fb.
Proof. by destruct s. Qed.
Lemma f_oco_set s l (fb : FlatBook D) : f_oco (set_f_side s l fb) = f_oco fb.
Proof. by destruct s. Qed.

(** Two books that differ in one side differ there in the specification. *)
Lemma abs_set_side s l b b' :
  flat s b' = l -> flat (opposite s) b' = flat (opposite s) b -> stops b' = stops b ->
  oco_links b' = oco_links b -> abs b' = set_f_side s l (abs b).
Proof.
  intros Hs Ho Hst Hoco. apply (flat_book_ext s).
  - by rewrite f_side_set, f_side_abs.
  - by rewrite f_side_set_opp, !f_side_abs.
  - by rewrite f_stops_set.
  - by rewrite f_oco_set.
Qed.

Lemma flat_level_update t X s p q0 b :
  book_wf t X b -> bt_get p (side_levels s b) = Some q0 ->
  exists l1 l2,
    flat s b = l1 ++ q0 ++ l2 /\
    (forall q rm, abs (level_update s p q rm b) = set_f_side s (l1 ++ q ++ l2) (abs b)) /\
    Forall (priced (fun k => beats s k p /\ k ∈ keys (side_levels s b))) l1 /\
    Forall (priced (fun k => beats s p k)) l2.
Proof.
  intros Hwf Hg.
  destruct (flat_split t s p (side_levels s b)) as (l1 & l2 & H & Hput & H1 & H2);
    [by eapply wf_side|].
  rewrite Hg in H. simpl in H. exists l1, l2. split_and!; [done| |done|done].
  intros q rm. apply abs_set_side.
  - unfold flat. by rewrite level_update_side.
  - unfold flat. by rewrite level_update_opp.
  - apply level_update_stops.
  - apply level_update_oco.
Qed.

Lemma flat_ids_nodup t X b : book_wf t X b -> NoDup (ids (flat Buy b) ++ ids (flat Sell b)).
Proof.
  intros Hwf. rewrite !flat_perm, <-ids_app. by eapply wf_book_nodup.
Qed.

Lemma cancel_refines t X id reason b b' evs :
  book_wf t X b -> cancel_order_internal id reason b = (b', evs) ->
  f_cancel id reason (abs b) = (abs b', evs).
Proof.
  intros Hwf (found & Hv & ->)%(cancel_internal_view t X); [|done].
  pose proof (flat_ids_nodup t X b Hwf) as Hnd. unfold f_cancel. simpl.
  destruct Hv as [r Hc|Ha|s p q1 o q2 Hst Hid Hg].
  - by rewrite Hc.
  - unfold book_ids in Ha. apply not_elem_of_app in Ha as [Ha Hs].
    rewrite (proj2 (stop_cancel_None _ _) Hs).
    unfold book_orders in Ha. rewrite ids_app, not_elem_of_app in Ha.
    rewrite !remove_id_None by (rewrite flat_perm; tauto). done.
  - rewrite Hst.
    destruct (flat_level_update t X s p _ b Hwf Hg) as (l1 & l2 & Hf & -> & _ & _).
    rewrite <-(assoc (++) q1), (assoc (++) l1 q1) in Hf. simpl in Hf.
    apply NoDup_app in Hnd as (Hnb & Hdisj & Hns).
    assert (remove_id id (flat s b) = Some (l1 ++ (q1 ++ q2) ++ l2)) as Hr.
    { rewrite Hf, remove_id_app; [by rewrite <-!(assoc (++))|done|].
      intros Hin. assert (NoDup (ids (flat s b))) as Hn by (by destruct s).
      rewrite Hf, ids_app in Hn. apply NoDup_app in Hn as (_ & Hn & _).
      apply (Hn id Hin). rewrite <-Hid. left. }
    destruct s; [by rewrite Hr|]. rewrite (remove_id_None id (flat Buy b)); [by rewrite Hr|].
    intros Hin. apply (Hdisj id Hin). rewrite Hf, ids_app. apply elem_of_app. right.
    rewrite <-Hid. left.
Qed.

Lemma unlink_refines t X id b b' evs :
  book_wf t X b -> maybe_cancel_oco id b = (b', evs) -> f_unlink id (abs b) = (abs b', evs).
Proof.
  intros Hwf. unfold maybe_cancel_oco, f_unlink. simpl.
  destruct (oco_links b !! id) as [l|]; [|by intros [= <- <-]].
  intros Hc. eapply cancel_refines in Hc; [exact Hc|]. by apply set_oco_wf.
Qed.

Lemma cancel_order_refines t id b b' evs :
  book_wf t [] b -> cancel_order id b = (b', evs) ->
  f_cancel_order id (abs b) = (abs b', evs).
Proof.
  intros Hwf. unfold cancel_order, f_cancel_order. simpl.
  destruct (oco_links b !! id) as [l|] eqn:Hl.
  - destruct (cancel_order_internal id AdminCancel _) as [b1 e1] eqn:H1. simpl in H1.
    destruct (cancel_order_internal l OcoLinked b1) as [b2 e2] eqn:H2. intros [= <- <-].
    pose proof H1 as Hw. eapply cancel_internal_wf in Hw as [Hwf1 _].
    2:{ by do 2 apply set_oco_wf. }
    eapply cancel_refines in H1; [|by do 2 apply set_oco_wf].
    eapply cancel_refines in H2; [|done].
    change (set_f_oco _ (abs b)) with
      (abs (set_oco (delete l (delete id (oco_links b)))
              (set_oco (delete id (oco_links b)) b))).
    by rewrite H1, H2.
  - destruct (cancel_order_internal id AdminCancel _) as [b1 e1] eqn:H1. intros [= <- <-].
    rewrite delete_id in H1 by done.
    eapply cancel_refines in H1; [|by apply set_oco_wf]. by destruct b.
Qed.

Lemma insert_flat t X o p b :
  book_wf t X b -> o_price o = Some p ->
  abs (insert_maker o b) =
  set_f_side (o_side o) (enqueue (o_side o) o (flat (o_side o) b)) (abs b).
Proof.
  intros Hwf Hp. unfold insert_maker. rewrite Hp, side_levels_index. set (s := o_side o).
  destruct (flat_split t s p (side_levels s b)) as (l1 & l2 & Hf & Hput & H1 & H2);
    [by eapply wf_side|].
  assert (Forall (priced (fun k => ~ beats s p k)) (default [] (bt_get p (side_levels s b)))) as Hq.
  { destruct (bt_get p (side_levels s b)) as [q|] eqn:Hg; simpl; [|done].
    destruct (wf_get t X b s p q Hwf Hg) as [_ Hq]. eapply Forall_impl; [exact Hq|].
    intros w (_ & _ & Hpm). exists p. split; [done|]. unfold beats. destruct s; lia. }
  assert (flat s (set_side_levels s (bucket_push p o (side_levels s b)) b) =
          enqueue s o (flat s b)) as Hfl.
  { unfold flat. rewrite side_levels_set, Hf, (assoc (++)).
    rewrite (enqueue_app s o p); [|done| |done].
    - pose proof (Hput (default [] (bt_get p (side_levels s b)) ++ [o])) as Hb.
      unfold put_level, bucket_push in *.
      destruct (default [] (bt_get p (side_levels s b))); simpl in *;
        rewrite Hb, <-?(assoc (++)); simpl; by rewrite <-?(assoc (++)).
    - apply Forall_app. split; [|done]. eapply Forall_impl; [exact H1|].
      intros w (k & ? & Hb & _). exists k. split; [done|]. unfold beats in *.
      destruct s; lia. }
  apply abs_set_side.
  - rewrite <-Hfl. unfold flat. by rewrite !side_levels_set.
  - unfold flat. by rewrite side_levels_set_opp, side_levels_index.
  - by destruct s.
  - by destruct s.
Qed.

(** ** The loop *)

Lemma flat_priced t X s b :
  book_wf t X b -> Forall (priced (fun k => k ∈ keys (side_levels s b))) (flat s b).
Proof.
  intros Hwf. destruct (wf_side t X b Hwf s) as [_ Hf].
  assert (Forall (priced (fun k => k ∈ keys (side_levels s b))) (side_orders s b)) as H.
  { eapply bucket_priced; [done|]. by apply Forall_forall. }
  by rewrite <-flat_perm in H.
Qed.

(** The best level heads the flat list. *)
Lemma front_flat t X st price maker q :
  loop_inv t X st -> front st price maker q ->
  let s := opposite (o_side (ls_taker st)) in
  exists tl, flat s (ls_book st) = maker :: q ++ tl /\
    o_price maker = Some price /\
    (forall q' rm, abs (update_front st price q' rm) =
                   set_f_side s (q' ++ tl) (abs (ls_book st))) /\
    Forall (priced (fun k => beats s price k)) tl /\
    Forall (priced (fun k => ~ beats s price k)) q.
Proof.
  intros Hinv Hfr s. pose proof (li_wf _ _ _ Hinv) as Hwf.
  pose proof (front_maker_ok t X st price maker q Hinv Hfr) as Hmk.
  apply Forall_cons in Hmk as [(_ & _ & Hpm) Hq]. destruct Hfr as [Hb Hg _ _].
  destruct (flat_level_update t _ _ _ _ _ Hwf Hg) as (l1 & l2 & Hf & Hu & H1 & H2).
  assert (l1 = []) as ->.
  { destruct l1 as [|w l1]; [done|]. apply Forall_cons in H1 as [(k & _ & Hbt & Hk) _].
    pose proof (best_opposite_best t _ _ _ price k Hwf Hb Hk) as Hle.
    unfold beats in Hbt. destruct (o_side (ls_taker st)); simpl in *; lia. }
  exists l2. split_and!; [done|done|done|done|].
  eapply Forall_impl; [exact Hq|]. intros w (_ & _ & Hp). exists price. split; [done|].
  unfold beats. destruct s; lia.
Qed.

Lemma set_f_side_twice s l l' (fb : FlatBook D) :
  set_f_side s l (set_f_side s l' fb) = set_f_side s l fb.
Proof. by destruct s. Qed.

(** The specification's step on a state whose front is known. *)
Lemma flat_step_front t X st price maker q tl :
  loop_inv t X st -> front st price maker q ->
  flat (opposite (o_side (ls_taker st))) (ls_book st) = maker :: q ++ tl ->
  o_price maker = Some price ->
  flat_step (abs_state st) =
  if N.eqb (o_user_id (ls_taker st)) (o_user_id maker)
  then f_stp maker (q ++ tl) (abs_state st)
  else FsContinue (f_fill price maker (q ++ tl) (abs_state st)).
Proof.
  intros Hinv Hfr Hf Hp. unfold flat_step. simpl.
  rewrite dltb_units, units_zero, f_side_abs, Hf, Hp.
  pose proof (fr_pos _ _ _ _ Hfr) as Hpos. pose proof (fr_price _ _ _ _ Hfr) as Hsat.
  destruct (Z.ltb_spec 0 (units (o_remaining (ls_taker st)))); [|lia].
  by rewrite Hsat.
Qed.

Lemma fill_refines t X st price maker q tl b2 more :
  valid_tick t -> loop_inv t X st -> front st price maker q ->
  o_price maker = Some price ->
  (forall q' rm, abs (update_front st price q' rm) =
     set_f_side (opposite (o_side (ls_taker st))) (q' ++ tl) (abs (ls_book st))) ->
  Forall (priced (fun k => beats (opposite (o_side (ls_taker st))) price k)) tl ->
  Forall (priced (fun k => ~ beats (opposite (o_side (ls_taker st))) price k)) q ->
  (if is_zero (o_remaining (filled (ls_taker st) maker))
   then maybe_cancel_oco (o_id maker) else (fun b => (b, [])))
    (update_front st price (level_after_fill (ls_taker st) maker q)
       (gone_after_fill (ls_taker st) maker)) = (b2, more) ->
  f_fill price maker (q ++ tl) (abs_state st) =
  mkFState (abs b2)
    (set_remaining (dsub (o_remaining (ls_taker st)) (fill_qty (ls_taker st) maker)) (ls_taker st))
    (ls_events st ++ EvFill (mkFill (o_id (ls_taker st)) (o_id maker) price
       (fill_qty (ls_taker st) maker) (o_side (ls_taker st))) :: more) (Some price) true.
Proof.
  intros Ht Hinv Hfr Hp Hu Htl Hq. unfold f_fill. simpl.
  fold (fill_qty (ls_taker st) maker).
  change (set_remaining (dsub (o_remaining maker) (fill_qty (ls_taker st) maker)) maker)
    with (filled (ls_taker st) maker).
  change (dsub (o_remaining maker) (fill_qty (ls_taker st) maker))
    with (o_remaining (filled (ls_taker st) maker)).
  destruct (front_facts t X st price maker q) as [Hok Hff]; [done..|].
  unfold level_after_fill, fill_front.
  destruct (is_zero (o_remaining (filled (ls_taker st) maker))) eqn:Hz.
  - intros Hm. rewrite <-(Hu q (gone_after_fill (ls_taker st) maker)).
    erewrite unlink_refines; [done| |exact Hm].
    destruct (update_front_wf t X st price maker q q
      (gone_after_fill (ls_taker st) maker)) as [Hwf _]; [done|done|..|done].
    + pose proof (front_maker_ok t X st price maker q Hinv Hfr) as Hmk. by inversion Hmk.
    + unfold gone_after_fill. by rewrite Hz.
    + rewrite total_slices_cons. lia.
  - destruct (has_display maker && _)%bool; intros [= <- <-]; rewrite Hu; simpl.
    + rewrite <-(assoc (++)). simpl. by rewrite (enqueue_app _ _ price).
    + done.
Qed.

Lemma step_view_refines t X st r :
  valid_tick t -> loop_inv t X st -> step_view st r ->
  flat_step (abs_state st) = abs_step r.
Proof.
  intros Ht Hinv Hv.
  destruct Hv as [Hex|price maker q b2 more Hfr Hne Hb|price maker q Hfr He Hm
    |price maker q r Hfr He Hr|price maker q Hfr He Hm Heq|price maker q Hfr He Hm Hlt].
  { unfold flat_step. simpl. rewrite dltb_units, units_zero, f_side_abs.
    destruct (Z.ltb_spec 0 (units (o_remaining (ls_taker st)))) as [Hpos|]; simpl; [|done].
    pose proof (flat_priced t _ (opposite (o_side (ls_taker st))) _ (li_wf _ _ _ Hinv)) as Hpr.
    destruct (flat _ _) as [|w l]; [done|]. apply Forall_cons in Hpr as [(k & Hk & Hin) _].
    destruct Hex as [|Hall]; [lia|]. rewrite Hk, Hall by done. done. }
  all: destruct (front_flat t X st price maker q Hinv Hfr) as (tl & Hf & Hp & Hu & Htl & Hq).
  all: rewrite (flat_step_front t X st price maker q tl Hinv Hfr Hf Hp).
  { rewrite (proj2 (N.eqb_neq _ _) Hne). simpl. f_equal.
    by rewrite (fill_refines t X st price maker q tl b2 more). }
  all: rewrite (proj2 (N.eqb_eq _ _) He); unfold f_stp, abs_step, abs_state;
    cbn -[abs update_front].
  - by rewrite Hm.
  - rewrite Hu. destruct Hr as [(-> & ->)|(-> & Hlt & ->)].
    + by rewrite set_remaining_same.
    + rewrite dcmp_units. by rewrite (proj2 (Z.compare_gt_iff _ _) Hlt).
  - rewrite Hm, Hu, dcmp_units. by rewrite (proj2 (Z.compare_eq_iff _ _) (eq_sym Heq)).
  - rewrite Hm, Hu, dcmp_units. by rewrite (proj2 (Z.compare_lt_iff _ _) Hlt).
Qed.

Lemma match_loop_refines t X n st :
  valid_tick t -> loop_inv t X st ->
  flat_loop n (abs_state st) =
  match match_loop n st with
  | None => None
  | Some (inl st') => Some (inl (abs_state st'))
  | Some (inr st') => Some (inr (abs_state st'))
  end.
Proof.
  intros Ht. revert st. induction n as [|n IH]; intros st Hinv; simpl; [done|].
  pose proof (loop_step_view t X st Ht Hinv) as Hv.
  rewrite (step_view_refines t X st _ Ht Hinv Hv).
  destruct (loop_step st) as [st'|st'|st']; simpl; [|done|done].
  apply IH. by apply (step_view_inv t X st _ Ht Hinv Hv).
Qed.

(** ** A whole run *)

Lemma finalize_refines t X taker had b b' evs :
  valid_tick t -> taker_ok t taker -> book_wf t X b ->
  finalize_taker taker had b = (b', evs) ->
  f_finalize taker had (abs b) = (abs b', evs).
Proof.
  intros Ht Htk Hwf. unfold finalize_taker, f_finalize. rewrite f_side_abs.
  destruct (is_zero (o_remaining taker)); [by intros [= <- <-]|].
  destruct Htk as (_ & _ & Hp).
  destruct (o_order_type taker); simpl in *; try destruct had; intros [= <- <-]; try done;
    destruct (Hp eq_refl) as [p Hpr]; by rewrite (insert_flat t X taker p).
Qed.

Lemma triggers_refines last b trig b' :
  triggers last b = (trig, b') -> f_triggers last (abs b) = (trig, abs b').
Proof.
  unfold triggers, f_triggers, check_stop_triggers. simpl. destruct last as [p|].
  - destruct (drain_triggered p (stops b)) as [out r]. by intros [= <- <-].
  - by intros [= <- <-].
Qed.

Lemma after_loop_refines t X st b evs :
  valid_tick t -> loop_inv t X st -> is_stop (o_order_type (ls_taker st)) = false ->
  step_view st (LsBreak st) -> after_loop st = (b, evs) ->
  f_after_loop (abs_state st) = (abs b, evs).
Proof.
  intros Ht [Hwf Htk] Hst Hv. unfold after_loop, f_after_loop. simpl.
  destruct (finalize_taker _ _ _) as [b1 fe] eqn:Hf.
  rewrite (finalize_refines t _ _ _ _ _ _ Ht Htk Hwf Hf).
  assert (book_wf t X b1) as Hwf1.
  { apply (finalize_cases t X) in Hf; [|done..|by inversion Hv].
    destruct Hf as [[-> _]|(_ & -> & _ & _ & ? & _)]; [|done].
    eapply wf_mono; [|done]. by apply submseteq_cons. }
  destruct (_ || _)%bool; [|by intros [= <- <-]].
  destruct (maybe_cancel_oco _ b1) as [b2 more] eqn:Hm. intros [= <- <-].
  by rewrite (unlink_refines t X _ _ _ _ Hwf1 Hm).
Qed.

Lemma run_refines t X n taker b b' evs trig :
  valid_tick t -> book_wf t (o_id taker :: X) b -> order_ok t taker ->
  is_stop (o_order_type taker) = false ->
  run_matching_loop n taker b = Some (b', evs, trig) ->
  flat_run n taker (abs b) = Some (abs b', evs, trig).
Proof.
  intros Ht Hwf Hok Hst. unfold run_matching_loop, flat_run.
  pose proof (loop_start_inv t X taker b Hwf Hok) as Hinv0.
  change (mkFState (abs b) taker [] None false)
    with (abs_state (mkLoop b taker [] None false)).
  rewrite (match_loop_refines t X n _ Ht Hinv0).
  destruct (match_loop n _) as [r|] eqn:Hl; [|done].
  apply match_loop_rtc in Hl as (st1 & Hr & Hend).
  destruct (cont_inv t X _ _ Ht Hinv0 Hr) as (Hinv & _ & Htk). simpl in *.
  pose proof (loop_step_view t X st1 Ht Hinv) as Hv.
  destruct r as [st'|st'].
  - pose proof (loop_break_same _ _ Hend) as ->. rewrite Hend in Hv.
    destruct (after_loop st1) as [b1 ev1] eqn:Ha.
    rewrite (after_loop_refines t X st1 b1 ev1); [|done|done| |done|done].
    2:{ destruct Htk as [-> _]. done. }
    destruct (triggers _ b1) as [trig1 b2] eqn:Htr. intros [= <- <- <-].
    simpl. by rewrite (triggers_refines _ _ _ _ Htr).
  - destruct (triggers _ _) as [trig1 b2] eqn:Htr. intros [= <- <- <-].
    simpl. by rewrite (triggers_refines _ _ _ _ Htr).
Qed.

Lemma work_refines t X lf n queue depth evs b b' evs' :
  valid_tick t -> queue_ok t queue -> book_wf t (ids queue ++ X) b ->
  work_loop lf n queue depth evs b = Some (b', evs') ->
  flat_work lf n queue depth evs (abs b) = Some (abs b', evs').
Proof.
  intros Ht. revert queue depth evs b. induction n as [|n IH]; intros queue depth evs b Hq Hwf;
    simpl; destruct (vec_pop queue) as [[o queue']|] eqn:Hp; try done;
    [by intros [= <- <-]| |by intros [= <- <-]].
  destruct (queue_pop t X queue o queue' b) as (Hq' & Hok & Hst & Hwf'); [done..|].
  destruct (run_matching_loop lf o b) as [[[b1 ev1] trig]|] eqn:Hr; [|done].
  rewrite (run_refines t _ _ _ _ _ _ _ Ht Hwf' Hok Hst Hr).
  apply (run_matching_loop_ok t (ids queue' ++ X)) in Hr; [|done..].
  destruct (depth <? MAX_STOP_CHAIN_DEPTH).
  - destruct (round_ok t X o queue' trig b b1 true Hq' Hr) as (? & ? & _). by apply IH.
  - destruct (round_ok t X o queue' trig b b1 false Hq' Hr) as (? & ? & _). by apply IH.
Qed.
End Refine.
