(* ===== verification/BookCheck.v ===== *)
(** * BookCheck: the checks made before matching

    [can_fully_fill] adds up decimals level by level; [can_fill_spec] shows that, as
    long as the side's total fits a [Decimal], it compares the order with the quantity
    its limit reaches. *)
From S2P Require Import Prelude Decimal BTree Types Stop Book BookInv BookOps.
From S2P Require Import BookLoop BookRun BookSpec BookRefine.

Section Check.
Context {D : Type} {dops : DecimalOps D} {dlaws : DecimalLaws D}.
Implicit Types (b : OrderBook D) (o taker maker : Order D) (p price : D)
  (q : list (Order D)).

(** The quantities resting on each side add up to a [Decimal] of the tick. *)
Definition fits (t : Z) b : Prop := forall s, qty (side_orders s b) < t * 2 ^ 96.

Definition lots (t : Z) (l : list (Order D)) : Prop := Forall (fun o => pos_lot t (o_remaining o)) l.

Lemma qty_nonneg t (l : list (Order D)) : valid_tick t -> lots t l -> 0 <= qty l.
Proof.
  intros Ht. induction 1 as [|o l [_ Ho] _ IH]; simpl; lia.
Qed.

Lemma fold_dadd_units t (l : list (Order D)) acc :
  valid_tick t -> lots t l -> lot t acc -> units acc + qty l < t * 2 ^ 96 ->
  units (fold_left dadd (o_remaining <$> l) acc) = units acc + qty l /\
  lot t (fold_left dadd (o_remaining <$> l) acc).
Proof.
  intros Ht. revert acc. induction l as [|o l IH]; csimpl; intros acc Hl Ha Hf.
  { split; [lia|done]. }
  apply Forall_cons in Hl as [[Ho ?] Hl]. pose proof (qty_nonneg t l Ht Hl).
  destruct (lot_add t acc (o_remaining o)) as [Hs Hsl]; [done|done|done|lia|].
  destruct (IH (dadd acc (o_remaining o))) as [-> ?]; [done|done|lia|]. split; [lia|done].
Qed.

Lemma queue_sum_units t (l : list (Order D)) :
  valid_tick t -> lots t l -> qty l < t * 2 ^ 96 ->
  units (queue_sum l) = qty l /\ lot t (queue_sum l).
Proof.
  intros Ht Hl Hf. unfold queue_sum, dsum.
  destruct (fold_dadd_units t l dzero) as [-> ?]; [done|done|apply lot_zero| |].
  - rewrite units_zero. lia.
  - rewrite units_zero. split; [lia|done].
Qed.

Lemma side_lots t X s b : book_wf t X b -> lots t (side_orders s b).
Proof.
  intros Hwf. destruct (wf_side t X b Hwf s) as [_ Hf]. apply Forall_forall.
  intros o (k & q & Hin & Ho)%bucket_orders_in. rewrite Forall_forall in Hf.
  destruct (Hf _ Hin) as [_ Hq]. simpl in Hq. rewrite Forall_forall in Hq.
  destruct (Hq o Ho) as (? & _). by apply order_ok_rem.
Qed.

(** Once a price is beyond the limit, so are all the prices behind it. *)
Definition monotone (beyond : D -> bool) (levels : btree D (list (Order D))) : Prop :=
  forall l1 p q l2, levels = l1 ++ (p, q) :: l2 -> beyond p = true ->
    Forall (fun k => beyond k = true) (keys l2).

Definition reach (beyond : D -> bool) (levels : btree D (list (Order D))) : Z :=
  qty (bucket_orders (filter (fun e => beyond e.1 = false) levels)).

Lemma reach_beyond beyond levels :
  Forall (fun k => beyond k = true) (keys levels) -> reach beyond levels = 0.
Proof.
  unfold reach. induction levels as [|[k q] ls IH]; [done|].
  intros [Hk Hr]%Forall_cons. simpl in Hk.
  rewrite filter_cons_False by (simpl; congruence). auto.
Qed.

Lemma lots_filter t (P : D * list (Order D) -> Prop) `{forall x, Decision (P x)} levels :
  lots t (bucket_orders levels) -> lots t (bucket_orders (filter P levels)).
Proof.
  unfold lots. rewrite !Forall_forall. intros Hl o (k & q & [_ Hin]%list_elem_of_filter & Ho)%bucket_orders_in.
  apply Hl, bucket_orders_in. eauto.
Qed.

Lemma can_fill_spec t beyond want avail levels :
  valid_tick t -> lots t (bucket_orders levels) -> lot t avail ->
  units avail + qty (bucket_orders levels) < t * 2 ^ 96 -> units avail < units want ->
  monotone beyond levels ->
  can_fill_levels beyond want avail levels =
  (units want <=? units avail + reach beyond levels)%Z.
Proof.
  intros Ht. revert avail. induction levels as [|[p q] ls IH]; simpl;
    intros avail Hl Ha Hf Hlt Hm.
  { unfold reach. simpl. symmetry. apply Z.leb_gt. lia. }
  rewrite bucket_orders_cons in Hl, Hf. apply Forall_app in Hl as [Hq Hl].
  rewrite qty_app in Hf. pose proof (qty_nonneg t _ Ht Hq). pose proof (qty_nonneg t _ Ht Hl).
  destruct (beyond p) eqn:Hb.
  { rewrite reach_beyond; [symmetry; apply Z.leb_gt; lia|].
    constructor; [done|]. by apply (Hm [] p q ls). }
  assert (reach beyond ((p, q) :: ls) = qty q + reach beyond ls) as Hr.
  { unfold reach. rewrite filter_cons_True by done. by rewrite bucket_orders_cons, qty_app. }
  assert (0 <= reach beyond ls) by (eapply qty_nonneg; [done|by apply lots_filter]).
  pose proof (lot_nonneg t avail Ht Ha).
  destruct (queue_sum_units t q) as [Hs Hsl]; [done|done|lia|].
  destruct (lot_add t avail (queue_sum q)) as [Hadd Haddl]; [done|done|done|lia|].
  rewrite Hr, dleb_units, Hadd, Hs. destruct (Z.leb_spec (units want) (units avail + qty q)).
  { symmetry. apply Z.leb_le. lia. }
  rewrite IH; [|done|done|lia|lia|].
  - rewrite Hadd, Hs. f_equal. lia.
  - intros l1 p' q' l2 -> Hb'. by apply (Hm ((p, q) :: l1) p' q' l2).
Qed.

(** ** The two instances in the engine *)

Definition beyond_limit taker price : bool := negb (taker_price_satisfied taker price).

Lemma can_fully_fill_eq taker b :
  can_fully_fill taker b =
  can_fill_levels (beyond_limit taker) (o_remaining taker) dzero
    (best_first (opposite (o_side taker)) (side_levels (opposite (o_side taker)) b)).
Proof.
  unfold can_fully_fill.
  assert (forall f g w a levels, (forall p, f p = g p) ->
    can_fill_levels f w a levels = can_fill_levels g w a levels) as Hext.
  { intros f g w a levels Hfg. revert a. induction levels as [|[p q] ls IH]; intros a; simpl;
      [done|]. by rewrite Hfg, IH. }
  unfold beyond_limit, taker_price_satisfied.
  destruct (o_side taker); apply Hext; intros p;
    (destruct (o_price taker) as [l|]; [|done]); rewrite dltb_units, dleb_units; lia.
Qed.

Lemma beyond_monotone t X taker b :
  book_wf t X b ->
  monotone (beyond_limit taker)
    (best_first (opposite (o_side taker)) (side_levels (opposite (o_side taker)) b)).
Proof.
  intros Hwf l1 p q l2 Hl Hb. pose proof (wf_sorted t X b (opposite (o_side taker)) Hwf) as Hs.
  unfold beyond_limit in *. rewrite negb_true_iff in Hb.
  assert (forall k, k ∈ keys l2 ->
    match o_side taker with Buy => units p <= units k | Sell => units k <= units p end) as Hk.
  { intros k Hk. destruct (o_side taker); simpl in *.
    - rewrite Hl in Hs. apply sorted_app in Hs as (_ & Hs & _).
      apply sorted_cons in Hs as [Hs _]. rewrite Forall_forall in Hs.
      apply Hs, klt_units in Hk. lia.
    - apply (f_equal (@rev _)) in Hl. rewrite rev_involutive, rev_app_distr in Hl.
      simpl in Hl. rewrite Hl, <-(assoc (++)) in Hs.
      apply sorted_app in Hs as (_ & _ & Hs).
      rewrite Forall_forall in Hs.
      assert (k ∈ keys (rev l2)) as Hk' by (unfold keys in *; by rewrite <-(Permutation_rev l2)).
      apply Hs in Hk'. simpl in Hk'. apply Forall_cons in Hk' as [Hk'%klt_units _]. lia. }
  apply Forall_forall. intros k Hin. apply negb_true_iff.
  eapply price_unsatisfied_worse; [done|]. by apply Hk.
Qed.

Lemma reach_flat t X taker b :
  book_wf t X b ->
  reach (beyond_limit taker)
    (best_first (opposite (o_side taker)) (side_levels (opposite (o_side taker)) b)) =
  reachable_qty taker (flat (opposite (o_side taker)) b).
Proof.
  intros Hwf. unfold reach, reachable_qty, flat. f_equal.
  destruct (wf_side t X b Hwf (opposite (o_side taker))) as [_ Hf].
  assert (Forall (fun e => e.2 <> [] /\ Forall (maker_ok t (opposite (o_side taker)) e.1) e.2)
    (best_first (opposite (o_side taker)) (side_levels (opposite (o_side taker)) b))) as Hf'.
  { destruct (o_side taker); simpl in *; [done|]. by rewrite <-Permutation_rev. }
  revert Hf'. generalize (best_first (opposite (o_side taker))
    (side_levels (opposite (o_side taker)) b)) as ls.
  induction ls as [|[p q] ls IH]; intros Hls; [done|].
  apply Forall_cons in Hls as [[_ Hq] Hls]. simpl in Hq.
  rewrite bucket_orders_cons, filter_app.
  assert (forall o, o ∈ q -> within_limit taker o = taker_price_satisfied taker p) as Hw.
  { intros o Ho. rewrite Forall_forall in Hq. destruct (Hq o Ho) as (_ & _ & Hp).
    unfold within_limit. by rewrite Hp. }
  assert (beyond_limit taker p = negb (taker_price_satisfied taker p)) as Hb by done.
  destruct (taker_price_satisfied taker p); simpl in Hb.
  - rewrite filter_cons_True by done. rewrite bucket_orders_cons, IH by done.
    f_equal. symmetry.
    clear -Hw. induction q as [|o q IHq]; [done|].
    rewrite filter_cons_True by (apply Hw; left). f_equal. apply IHq.
    intros o' Ho'. apply Hw. by right.
  - rewrite filter_cons_False by (simpl; congruence). rewrite IH by done. clear -Hw. induction q as [|o q IHq]; [done|].
    rewrite filter_cons_False by (rewrite Hw; [done|left]). apply IHq.
    intros o' Ho'. apply Hw. by right.
Qed.

Lemma can_fully_fill_spec t X taker b :
  valid_tick t -> book_wf t X b -> order_ok t taker -> fits t b ->
  can_fully_fill taker b =
  (units (o_remaining taker) <=? reachable_qty taker (flat (opposite (o_side taker)) b))%Z.
Proof.
  intros Ht Hwf Hok Hfit. rewrite can_fully_fill_eq, <-(reach_flat t X) by done.
  rewrite (can_fill_spec t), units_zero; [done|done|..].
  - fold (flat (opposite (o_side taker)) b). unfold lots. rewrite flat_perm.
    by eapply side_lots.
  - apply lot_zero.
  - fold (flat (opposite (o_side taker)) b). rewrite flat_perm, units_zero. apply Hfit.
  - rewrite units_zero. apply (order_ok_rem t taker Hok).
  - by eapply beyond_monotone.
Qed.

(** ** Post-only *)

Lemma flat_head t X b s taker :
  book_wf t X b -> o_side taker = s ->
  match flat (opposite s) b with
  | [] => best_opposite_price s b = None
  | w :: _ => exists p, best_opposite_price s b = Some p /\ o_price w = Some p
  end.
Proof.
  intros Hwf _.
  destruct (best_opposite_price s b) as [p|] eqn:Hb.
  - destruct (best_opposite_get t X s b p Hwf Hb) as (w & q & Hg).
    destruct (flat_level_update t X _ _ _ b Hwf Hg) as (l1 & l2 & Hf & _ & H1 & _).
    assert (l1 = []) as ->.
    { destruct l1 as [|w' l1]; [done|]. apply Forall_cons in H1 as [(k & _ & Hbt & Hk) _].
      pose proof (best_opposite_best t X s b p k Hwf Hb Hk). unfold beats in *.
      destruct s; simpl in *; lia. }
    rewrite Hf. simpl. exists p. split; [done|].
    destruct (wf_get t X b _ _ _ Hwf Hg) as [_ Hq]. by apply Forall_cons in Hq as [(_ & _ & ?) _].
  - unfold flat. rewrite (best_opposite_None s b Hb). by destruct s.
Qed.

Lemma would_cross_spec t X taker b :
  book_wf t X b ->
  would_cross_post_only taker b = f_crosses taker (flat (opposite (o_side taker)) b).
Proof.
  intros Hwf. pose proof (flat_head t X b (o_side taker) taker Hwf eq_refl) as Hh.
  unfold would_cross_post_only, f_crosses, taker_price_satisfied, best_ask, best_bid.
  unfold best_opposite_price in Hh.
  destruct (flat _ b) as [|w l].
  - destruct (o_price taker), (o_side taker); try done; by rewrite Hh.
  - destruct Hh as (p & Hb & ->). destruct (o_price taker), (o_side taker); try done;
      by rewrite Hb.
Qed.

Lemma pre_check_refines t X taker b :
  valid_tick t -> book_wf t X b -> order_ok t taker -> fits t b ->
  f_pre_check taker (abs b) = pre_check taker b.
Proof.
  intros Ht Hwf Hok Hfit. unfold f_pre_check, pre_check. rewrite f_side_abs.
  destruct (o_order_type taker); try done.
  - rewrite (can_fully_fill_spec t X) by done.
    by rewrite Z.ltb_antisym.
  - by rewrite (would_cross_spec t X).
Qed.
End Check.
