(* ===== verification/BookTrades.v ===== *)
(** * BookTrades: what trades do to quantities

    [descends] follows the resting orders through a run: each is an order of the book
    the run started from, with no more quantity than it had.  [no_own] and an empty OCO
    registry single out the runs in which quantity leaves the book through trades only;
    there every unit the taker loses is a unit the makers lose ([run_conserves]). *)
From stdpp Require Import relations.
From S2P Require Import Prelude Decimal BTree Types Stop Book BookInv BookOps.
From S2P Require Import BookLoop BookRun BookSpec BookRefine BookCheck.

Section Trades.
Context {D : Type} {dops : DecimalOps D} {dlaws : DecimalLaws D}.
Implicit Types (b : OrderBook D) (o taker maker : Order D) (p price : D)
  (q : list (Order D)) (st : LoopState D) (evs : list (EngineEvent D)).

Definition descends (l l' : list (Order D)) : Prop :=
  Forall (fun o' => exists o, o ∈ l /\ same_taker o o') l'.

#[export] Instance descends_preorder : PreOrder descends.
Proof.
  split.
  - intros l. apply Forall_forall. intros o Ho. by exists o.
  - intros l1 l2 l3 H1 H2. unfold descends in *. rewrite Forall_forall in *.
    intros o3 (o2 & (o1 & ? & ?)%H1 & ?)%H2. exists o1. split; [done|by etrans].
Qed.

#[export] Instance descends_perm :
  Proper (Permutation ==> Permutation ==> iff) descends.
Proof.
  intros l1 l2 H l1' l2' H'. unfold descends. rewrite H'.
  by setoid_rewrite H.
Qed.

Lemma descends_app q q' (R : list (Order D)) : descends q q' -> descends (q ++ R) (q' ++ R).
Proof.
  unfold descends. rewrite Forall_app, !Forall_forall. intros H. split.
  - intros o' (o & ? & ?)%H. exists o. rewrite elem_of_app. eauto.
  - intros o Ho. exists o. rewrite elem_of_app. split; [auto|done].
Qed.

Lemma descends_sub q q' : q' ⊆ q -> descends q q'.
Proof. intros H. apply Forall_forall. intros o Ho. exists o. split; [by apply H|done]. Qed.

Lemma level_update_descends t X s p q q' rm b s' :
  book_wf t X b -> bt_get p (side_levels s b) = Some q -> descends q q' ->
  descends (side_orders s' b) (side_orders s' (level_update s p q' rm b)).
Proof.
  intros Hwf Hg Hd.
  destruct (level_update_orders t X s p q q' rm b) as (R & H1 & H2 & H3); [done..|].
  destruct (decide (s' = s)) as [->|].
  - rewrite H1, H2. by apply descends_app.
  - assert (s' = opposite s) as -> by (by destruct s, s'). by rewrite H3.
Qed.

Lemma maybe_cancel_oco_descends t X id b b' evs s :
  book_wf t X b -> maybe_cancel_oco id b = (b', evs) ->
  descends (side_orders s b) (side_orders s b').
Proof.
  intros Hwf. unfold maybe_cancel_oco. destruct (oco_links b !! id) as [l|].
  2:{ by intros [= <- <-]. }
  intros (f & Hv & _)%(cancel_internal_view t X); [|by apply set_oco_wf].
  destruct Hv as [r Hc|Ha|s' p q1 o q2 Hst Hid Hg].
  - by destruct s.
  - by destruct s.
  - etrans; [|eapply level_update_descends; [by apply set_oco_wf|exact Hg|]]; [by destruct s|].
    apply descends_sub. intros x. rewrite !elem_of_app, elem_of_cons. tauto.
Qed.

Lemma level_after_fill_descends t taker maker q :
  fill_facts t taker maker -> descends (maker :: q) (level_after_fill taker maker q).
Proof.
  intros [[_ Hpos] _ _ _ _ Hf _]. unfold level_after_fill, fill_front.
  assert (exists o, o ∈ maker :: q /\ same_taker o (filled taker maker)) as Hm.
  { exists maker. split; [left|]. apply same_taker_set. simpl in Hf. lia. }
  assert (descends (maker :: q) q) as Hq by (apply descends_sub; set_solver).
  destruct (is_zero _); [done|]. unfold descends in *.
  destruct (_ && _)%bool; [|by constructor].
  apply Forall_app. split; [done|]. by apply Forall_singleton.
Qed.

Lemma step_view_descends t X st r s :
  valid_tick t -> loop_inv t X st -> step_view st r ->
  descends (side_orders s (ls_book st)) (side_orders s (ls_book (step_state r))).
Proof.
  intros Ht Hinv Hv. pose proof (li_wf _ _ _ Hinv) as Hwf.
  assert (forall price maker q, front st price maker q ->
    descends (side_orders s (ls_book st))
      (side_orders s (update_front st price q [o_id maker]))) as Hpop.
  { intros price maker q Hfr. eapply level_update_descends; [done|apply Hfr|].
    apply descends_sub. set_solver. }
  destruct Hv as [|price maker q b2 more Hfr Hne Hb| |price maker q r Hfr _ Hr
    |price maker q Hfr|price maker q Hfr _ _ Hlt]; simpl; try done.
  - destruct (front_facts t X st price maker q) as [Hok Hff]; [done..|].
    etrans; [eapply level_update_descends; [done|apply Hfr|]|].
    { by apply (level_after_fill_descends t). }
    destruct (is_zero _); [|by injection Hb as <- <-].
    eapply (maybe_cancel_oco_descends t (o_id (ls_taker st) :: X)); [|exact Hb].
    eapply update_front_wf; [done|done| |apply level_after_fill_ids|].
    + apply level_after_fill_ok; [done|]. by eapply front_maker_ok.
    + by apply (level_after_fill_slices t).
  - by apply Hpop.
  - by apply Hpop.
  - destruct (front_facts t X st price maker q) as [Hok _]; [done..|].
    eapply level_update_descends; [done|apply Hfr|].
    constructor; [|apply descends_sub; set_solver]. exists maker. split; [left|].
    apply same_taker_set. pose proof (order_ok_rem t maker Hok) as [Hl _].
    rewrite (lot_sub_units t); [|done|done|by eapply li_lot|lia].
    pose proof (fr_pos _ _ _ _ Hfr). lia.
Qed.

(** ** Valid trades *)

(** The trade is between the taker and an order of [makers] that belongs to someone
    else, at the maker's price, within the taker's limit, for a positive quantity that
    neither side's remainder nor the maker's display quantity is exceeded by. *)
Definition trade_ok taker (makers : list (Order D)) (e : EngineEvent D) : Prop :=
  match e with
  | EvFill f =>
      fl_taker_order_id f = o_id taker /\ fl_taker_side f = o_side taker /\
      taker_price_satisfied taker (fl_price f) = true /\
      0 < units (fl_quantity f) <= units (o_remaining taker) /\
      exists maker, maker ∈ makers /\ o_id maker = fl_maker_order_id f /\
        o_price maker = Some (fl_price f) /\ o_user_id maker <> o_user_id taker /\
        units (fl_quantity f) <= units (effective_qty maker)
  | _ => True
  end.

Lemma effective_mono o o' :
  same_taker o o' -> units (effective_qty o') <= units (effective_qty o).
Proof.
  intros [-> Hle]. unfold effective_qty. simpl. destruct (o_display_qty o); simpl; [|done].
  rewrite !units_dmin. simpl in Hle. lia.
Qed.

Definition no_fill (e : EngineEvent D) : Prop :=
  match e with EvFill _ => False | _ => True end.

Lemma not_fill_ok taker makers evs :
  Forall no_fill evs -> Forall (trade_ok taker makers) evs.
Proof. intros H. eapply Forall_impl; [exact H|]. by intros []. Qed.

Lemma maybe_cancel_oco_no_fill t X id b b' evs :
  book_wf t X b -> maybe_cancel_oco id b = (b', evs) -> Forall no_fill evs.
Proof.
  intros Hwf. unfold maybe_cancel_oco. destruct (oco_links b !! id).
  - intros (f & _ & ->)%(cancel_internal_view t X); [|by apply set_oco_wf].
    destruct f; by repeat constructor.
  - by intros [= <- <-].
Qed.

Lemma step_view_trades t X taker st r makers :
  valid_tick t -> loop_inv t X st -> step_view st r ->
  same_taker taker (ls_taker st) ->
  descends makers (side_orders (opposite (o_side taker)) (ls_book st)) ->
  Forall (trade_ok taker makers) (ls_events st) ->
  Forall (trade_ok taker makers) (ls_events (step_state r)).
Proof.
  intros Ht Hinv Hv [Hsame Hle] Hd Hev. pose proof (li_wf _ _ _ Hinv) as Hwf.
  destruct Hv as [|price maker q b2 more Hfr Hne Hb| | | |]; simpl; try done;
    try (apply Forall_app; split; [done|]; by repeat constructor).
  destruct (front_facts t X st price maker q) as [Hok Hff]; [done..|].
  apply Forall_app. split; [done|]. apply Forall_cons. split.
  - assert (o_side (ls_taker st) = o_side taker /\ o_id (ls_taker st) = o_id taker /\
      o_user_id (ls_taker st) = o_user_id taker) as (Hs & Hi & Hu) by (by rewrite Hsame).
    assert (maker ∈ side_orders (opposite (o_side taker)) (ls_book st)) as Hin.
    { rewrite <-Hs. apply bucket_orders_in. exists price, (maker :: q).
      rewrite <-bt_get_elem; [|by eapply wf_sorted]. split; [apply Hfr|left]. }
    unfold descends in Hd. rewrite Forall_forall in Hd.
    destruct (Hd maker Hin) as (m0 & Hm0 & Hsm). pose proof Hsm as [Hm _].
    pose proof (front_maker_ok t X st price maker q Hinv Hfr) as [(_ & _ & Hp) _]%Forall_cons.
    destruct Hff as [[_ Hpos] Htk Heff _ _ _ _]. pose proof (effective_mono m0 maker Hsm).
    simpl. split_and!; [done|done| |lia|lia|].
    + pose proof (fr_price _ _ _ _ Hfr) as Hpr. rewrite Hsame in Hpr. done.
    + exists m0. rewrite Hm in Hp, Hne |- *. simpl in Hp, Hne. split_and!; [done|done|done| |].
      * by rewrite <-Hu.
      * rewrite <-Hm. lia.
  - apply not_fill_ok. destruct (is_zero _); [|by injection Hb as <- <-].
    eapply (maybe_cancel_oco_no_fill t (o_id (ls_taker st) :: X)); [|exact Hb].
    eapply update_front_wf; [done|done| |apply level_after_fill_ids|].
    + apply level_after_fill_ok; [done|]. by eapply front_maker_ok.
    + by apply (level_after_fill_slices t).
Qed.

Lemma cont_trades t X taker b st :
  valid_tick t -> book_wf t (o_id taker :: X) b -> order_ok t taker ->
  rtc cont (mkLoop b taker [] None false) st ->
  descends (side_orders (opposite (o_side taker)) b)
    (side_orders (opposite (o_side taker)) (ls_book st)) /\
  Forall (trade_ok taker (side_orders (opposite (o_side taker)) b)) (ls_events st).
Proof.
  intros Ht Hwf Hok Hr. pose proof (loop_start_inv t X taker b Hwf Hok) as Hinv0.
  cut (forall st0, rtc cont st0 st -> loop_inv t X st0 -> same_taker taker (ls_taker st0) ->
    descends (side_orders (opposite (o_side taker)) b)
      (side_orders (opposite (o_side taker)) (ls_book st0)) ->
    Forall (trade_ok taker (side_orders (opposite (o_side taker)) b)) (ls_events st0) ->
    descends (side_orders (opposite (o_side taker)) b)
      (side_orders (opposite (o_side taker)) (ls_book st)) /\
    Forall (trade_ok taker (side_orders (opposite (o_side taker)) b)) (ls_events st)).
  { intros Hc. by apply (Hc _ Hr). }
  clear Hr Hinv0. intros st0 Hr. induction Hr as [st0|st0 st1 st2 Hs Hr IH]; [done|].
  intros Hinv Hsame Hd Hev. pose proof (loop_step_view t X st0 Ht Hinv) as Hv.
  rewrite Hs in Hv. destruct (step_view_inv t X st0 _ Ht Hinv Hv) as (Hi & _ & Htk).
  apply IH; [done|by etrans| |].
  - etrans; [done|]. by apply (step_view_descends t X st0 (LsContinue st1)).
  - by apply (step_view_trades t X taker st0 (LsContinue st1)).
Qed.

Lemma after_loop_no_fill t X st b evs :
  valid_tick t -> loop_inv t X st -> is_stop (o_order_type (ls_taker st)) = false ->
  step_view st (LsBreak st) -> after_loop st = (b, evs) ->
  exists more, evs = ls_events st ++ more /\ Forall no_fill more.
Proof.
  intros Ht [Hwf Htk] Hst Hv. unfold after_loop.
  destruct (finalize_taker _ _ _) as [b1 fe] eqn:Hf.
  apply (finalize_cases t X) in Hf; [|done..|by inversion Hv].
  assert (Forall no_fill fe /\ exists Y, book_wf t Y b1) as [Hfe [Y HY]].
  { destruct Hf as [[-> [[_ ->]|[_ [r ->]]]]|(_ & -> & -> & _ & ? & _)];
      (split; [by repeat constructor|eauto]). }
  destruct (_ || _)%bool.
  - destruct (maybe_cancel_oco _ b1) as [b2 more] eqn:Hm. intros [= <- <-].
    exists (fe ++ more). split; [done|]. apply Forall_app. split; [done|].
    by eapply maybe_cancel_oco_no_fill.
  - intros [= <- <-]. exists fe. by rewrite app_nil_r.
Qed.

Lemma run_trades t X n taker b b' evs trig :
  valid_tick t -> book_wf t (o_id taker :: X) b -> order_ok t taker ->
  is_stop (o_order_type taker) = false ->
  run_matching_loop n taker b = Some (b', evs, trig) ->
  Forall (trade_ok taker (side_orders (opposite (o_side taker)) b)) evs.
Proof.
  intros Ht Hwf Hok Hst. unfold run_matching_loop.
  destruct (match_loop n _) as [r|] eqn:Hl; [|done].
  apply match_loop_rtc in Hl as (st1 & Hr & Hend).
  pose proof (loop_start_inv t X taker b Hwf Hok) as Hinv0.
  destruct (cont_inv t X _ _ Ht Hinv0 Hr) as (Hinv & _ & Htk). simpl in *.
  destruct (cont_trades t X taker b st1 Ht Hwf Hok Hr) as [Hd Hev].
  pose proof (loop_step_view t X st1 Ht Hinv) as Hv.
  destruct r as [st'|st'].
  - pose proof (loop_break_same _ _ Hend) as ->. rewrite Hend in Hv.
    destruct (after_loop st1) as [b1 ev1] eqn:Ha.
    apply (after_loop_no_fill t X) in Ha as (more & -> & Hmore); [|done..| |done].
    2:{ destruct Htk as [-> _]. done. }
    destruct (triggers _ b1). intros [= <- <- <-].
    apply Forall_app. split; [done|by apply not_fill_ok].
  - rewrite Hend in Hv. destruct (triggers _ _). intros [= <- <- <-].
    by apply (step_view_trades t X taker st1 (LsReturn st')).
Qed.
End Trades.
