(* ===== verification/BookConserve.v ===== *)
(** * BookConserve: quantity is neither created nor lost *)
From stdpp Require Import relations.
From S2P Require Import Prelude Decimal BTree Types Stop Book BookInv BookOps.
From S2P Require Import BookLoop BookRun BookSpec BookRefine BookCheck BookTrades.

Section Conserve.
Context {D : Type} {dops : DecimalOps D} {dlaws : DecimalLaws D}.
Implicit Types (b : OrderBook D) (o taker maker : Order D) (p price : D)
  (q : list (Order D)) (st : LoopState D) (evs : list (EngineEvent D)).

(** Quantities, in units, that the events of a run report traded and resting. *)
Definition fills_qty evs : Z :=
  foldr (fun e a => match e with EvFill f => units (fl_quantity f) + a | _ => a end) 0 evs.
Definition rested_qty evs : Z :=
  foldr (fun e a => match e with EvRested _ r => units r + a | _ => a end) 0 evs.

Lemma fills_qty_app e1 e2 : fills_qty (e1 ++ e2) = fills_qty e1 + fills_qty e2.
Proof. induction e1 as [|[] e1 IH]; simpl; lia. Qed.
Lemma rested_qty_app e1 e2 : rested_qty (e1 ++ e2) = rested_qty e1 + rested_qty e2.
Proof. induction e1 as [|[] e1 IH]; simpl; lia. Qed.

(** No resting order of the other side belongs to the taker's user. *)
Definition no_own taker b : Prop :=
  Forall (fun o => o_user_id o <> o_user_id taker) (side_orders (opposite (o_side taker)) b).

(** A run in which quantity can only be traded. *)
Definition plain taker b : Prop := no_own taker b /\ oco_links b = ∅.

Lemma reachable_app taker q (R : list (Order D)) :
  reachable_qty taker (q ++ R) = reachable_qty taker q + reachable_qty taker R.
Proof. unfold reachable_qty. by rewrite filter_app, qty_app. Qed.

#[export] Instance reachable_perm taker : Proper (Permutation ==> eq) (reachable_qty taker).
Proof. intros l1 l2 H. unfold reachable_qty. by rewrite H. Qed.

(** Orders at one acceptable price are reachable. *)
Lemma reachable_level taker price q :
  taker_price_satisfied taker price = true -> Forall (fun o => o_price o = Some price) q ->
  reachable_qty taker q = qty q.
Proof.
  intros Hs. unfold reachable_qty. induction 1 as [|o q Ho _ IH]; [done|].
  rewrite filter_cons_True by (unfold within_limit; by rewrite Ho). simpl. lia.
Qed.

Lemma level_after_fill_qty t taker maker q :
  fill_facts t taker maker ->
  qty (level_after_fill taker maker q) + units (fill_qty taker maker) = qty (maker :: q).
Proof.
  intros [_ _ _ _ _ Hf _]. unfold level_after_fill, fill_front.
  destruct (is_zero _) eqn:Hz.
  - rewrite is_zero_units, Z.eqb_eq in Hz. simpl in *. lia.
  - destruct (_ && _)%bool; rewrite ?qty_app; simpl in *; lia.
Qed.

Lemma level_after_fill_prices t s price taker maker q :
  fill_facts t taker maker -> Forall (maker_ok t s price) (maker :: q) ->
  Forall (fun o => o_price o = Some price) (level_after_fill taker maker q).
Proof.
  intros Hff Hok. eapply Forall_impl; [by eapply level_after_fill_ok|]. by intros o (_ & _ & ?).
Qed.

(** The state of a plain run started by [taker] on [b]. *)
Record conserved taker b st : Prop := {
  cs_oco : oco_links (ls_book st) = ∅;
  cs_stops : stops (ls_book st) = stops b;
  cs_own : side_orders (o_side taker) (ls_book st) = side_orders (o_side taker) b;
  cs_taker : fills_qty (ls_events st) + units (o_remaining (ls_taker st))
             = units (o_remaining taker);
  cs_makers : fills_qty (ls_events st) + qty (side_orders (opposite (o_side taker)) (ls_book st))
              = qty (side_orders (opposite (o_side taker)) b);
  cs_reach : fills_qty (ls_events st) +
               reachable_qty taker (side_orders (opposite (o_side taker)) (ls_book st))
             = reachable_qty taker (side_orders (opposite (o_side taker)) b);
  cs_events : Forall (fun e => exists f, e = EvFill f) (ls_events st);
}.

(** In a plain run every pass of the loop is a trade. *)
Lemma plain_step t X taker b st st' :
  valid_tick t -> loop_inv t X st -> same_taker taker (ls_taker st) ->
  no_own taker b ->
  descends (side_orders (opposite (o_side taker)) b)
    (side_orders (opposite (o_side taker)) (ls_book st)) ->
  conserved taker b st -> step_view st (LsContinue st') -> conserved taker b st'.
Proof.
  intros Ht Hinv [Hsame _] Hno Hd [Hoco Hstops Hown Htk Hmk Hre Hev] Hv.
  assert (o_side (ls_taker st) = o_side taker /\ o_user_id (ls_taker st) = o_user_id taker)
    as [Hs Hu] by (by rewrite Hsame).
  assert (forall price maker q, front st price maker q ->
    o_user_id maker <> o_user_id (ls_taker st)) as Hne.
  { intros price maker q Hfr. unfold descends, no_own in *. rewrite Forall_forall in Hd, Hno.
    assert (maker ∈ side_orders (opposite (o_side taker)) (ls_book st)) as Hin.
    { rewrite <-Hs. apply bucket_orders_in. exists price, (maker :: q).
      rewrite <-bt_get_elem; [|by eapply wf_sorted; apply Hinv]. split; [apply Hfr|left]. }
    destruct (Hd maker Hin) as (m0 & Hm0 & Hm & _). rewrite Hm, Hu. simpl. by apply Hno. }
  inversion Hv as [|price maker q b2 more Hfr _ Hb| |price maker q r Hfr He| |]; subst.
  2:{ by destruct (Hne price maker q Hfr). }
  destruct (front_facts t X st price maker q) as [Hok Hff]; [done..|].
  pose proof (front_maker_ok t X st price maker q Hinv Hfr) as Hmks.
  assert (b2 = update_front st price (level_after_fill (ls_taker st) maker q)
            (gone_after_fill (ls_taker st) maker) /\ more = []) as [-> ->].
  { destruct (is_zero (o_remaining (filled (ls_taker st) maker))); [|by injection Hb].
    unfold maybe_cancel_oco, update_front in Hb. rewrite level_update_oco, Hoco in Hb.
    rewrite lookup_empty in Hb. by injection Hb. }
  pose proof (level_after_fill_qty t _ _ q Hff) as Hq.
  destruct (level_update_orders t _ _ price (maker :: q)
    (level_after_fill (ls_taker st) maker q) (gone_after_fill (ls_taker st) maker) (ls_book st)
    (li_wf _ _ _ Hinv) (fr_level _ _ _ _ Hfr)) as (R & H1 & H2 & H3).
  fold (update_front st price (level_after_fill (ls_taker st) maker q)
          (gone_after_fill (ls_taker st) maker)) in H2, H3.
  rewrite Hs in H1, H2, H3. rewrite opposite_involutive in H3.
  pose proof (fr_price _ _ _ _ Hfr) as Hpr. rewrite Hsame in Hpr.
  change (taker_price_satisfied (set_remaining (o_remaining (ls_taker st)) taker) price)
    with (taker_price_satisfied taker price) in Hpr.
  split; cbn [ls_book ls_taker ls_events].
  - unfold update_front. by rewrite level_update_oco.
  - unfold update_front. by rewrite level_update_stops.
  - by rewrite H3.
  - rewrite fills_qty_app. cbn. rewrite (ff_sub_taker _ _ _ Hff). lia.
  - rewrite fills_qty_app, H2, qty_app. rewrite H1, qty_app in Hmk. simpl in *. lia.
  - rewrite fills_qty_app, H2, reachable_app.
    rewrite H1, reachable_app in Hre.
    rewrite (reachable_level taker price) in Hre; [|done|].
    2:{ eapply Forall_impl; [exact Hmks|]. by intros o (_ & _ & ?). }
    rewrite (reachable_level taker price); [|done|by eapply level_after_fill_prices].
    simpl in *. lia.
  - apply Forall_app. split; [done|]. apply Forall_singleton. eauto.
Qed.

Lemma cont_conserved t X taker b st :
  valid_tick t -> book_wf t (o_id taker :: X) b -> order_ok t taker -> plain taker b ->
  rtc cont (mkLoop b taker [] None false) st -> conserved taker b st.
Proof.
  intros Ht Hwf Hok [Hno Hoco] Hr.
  cut (forall st0, rtc cont st0 st ->
    rtc cont (mkLoop b taker [] None false) st0 -> conserved taker b st0 ->
    conserved taker b st).
  { intros Hc. apply (Hc _ Hr); [done|]. split; simpl; done. }
  clear Hr. intros st0 Hr. induction Hr as [st0|st0 st1 st2 Hs Hr IH]; [done|].
  intros Hpre Hcs. apply IH; [by eapply rtc_r|].
  pose proof (loop_start_inv t X taker b Hwf Hok) as Hinv0.
  destruct (cont_inv t X _ _ Ht Hinv0 Hpre) as (Hinv & _ & Hsame).
  destruct (cont_trades t X taker b st0 Ht Hwf Hok Hpre) as [Hd _].
  pose proof (loop_step_view t X st0 Ht Hinv) as Hv. rewrite Hs in Hv.
  by eapply plain_step.
Qed.

(** A plain run never returns from inside the loop. *)
Lemma plain_no_return t X taker b st st' :
  valid_tick t -> book_wf t (o_id taker :: X) b -> order_ok t taker -> plain taker b ->
  rtc cont (mkLoop b taker [] None false) st -> loop_step st <> LsReturn st'.
Proof.
  intros Ht Hwf Hok [Hno _] Hr Hret.
  pose proof (loop_start_inv t X taker b Hwf Hok) as Hinv0.
  destruct (cont_inv t X _ _ Ht Hinv0 Hr) as (Hinv & _ & [Hsame _]). simpl in Hsame.
  destruct (cont_trades t X taker b st Ht Hwf Hok Hr) as [Hd _].
  pose proof (loop_step_view t X st Ht Hinv) as Hv. rewrite Hret in Hv.
  assert (exists price maker q, front st price maker q /\
    o_user_id (ls_taker st) = o_user_id maker) as (price & maker & q & Hfr & He)
    by (inversion Hv; subst; eauto).
  assert (o_side (ls_taker st) = o_side taker /\ o_user_id (ls_taker st) = o_user_id taker)
    as [Hs Hu] by (by rewrite Hsame).
  unfold descends, no_own in *. rewrite Forall_forall in Hd, Hno.
  assert (maker ∈ side_orders (opposite (o_side taker)) (ls_book st)) as Hin.
  { rewrite <-Hs. apply bucket_orders_in. exists price, (maker :: q).
    rewrite <-bt_get_elem; [|by eapply wf_sorted; apply Hinv]. split; [apply Hfr|left]. }
  destruct (Hd maker Hin) as (m0 & Hm0 & Hm & _). apply (Hno m0 Hm0).
  rewrite Hm in He. simpl in He. congruence.
Qed.

Lemma only_fills_rested evs :
  Forall (fun e => exists f, e = EvFill f) evs -> rested_qty evs = 0.
Proof. induction 1 as [|e evs [f ->] _ IH]; simpl; lia. Qed.

Lemma insert_maker_side t X o p b s :
  book_wf t X b -> o_price o = Some p -> o_side o = s ->
  side_orders s (insert_maker o b) ≡ₚ o :: side_orders s b /\
  side_orders (opposite s) (insert_maker o b) = side_orders (opposite s) b /\
  oco_links (insert_maker o b) = oco_links b.
Proof.
  intros Hwf Hp <-. unfold insert_maker. rewrite Hp, side_levels_index.
  unfold side_orders. rewrite side_levels_set, side_levels_set_opp, side_levels_index.
  rewrite bucket_push_orders by (by eapply wf_sorted). by destruct (o_side o).
Qed.

Lemma plain_after_loop t X taker b st b1 evs :
  valid_tick t -> loop_inv t X st -> same_taker taker (ls_taker st) ->
  is_stop (o_order_type taker) = false -> conserved taker b st ->
  step_view st (LsBreak st) -> after_loop st = (b1, evs) ->
  exists fin, evs = ls_events st ++ fin /\
    side_orders (opposite (o_side taker)) b1 =
      side_orders (opposite (o_side taker)) (ls_book st) /\
    ((b1 = ls_book st /\ (units (o_remaining (ls_taker st)) = 0 /\ fin = [] \/
      0 < units (o_remaining (ls_taker st)) /\
      exists r, fin = [EvCancelled (o_id taker) r])) \/
     (rests (o_order_type taker) = true /\ b1 = insert_maker (ls_taker st) (ls_book st) /\
      fin = [EvRested (o_id taker) (o_remaining (ls_taker st))] /\
      side_orders (o_side taker) b1 ≡ₚ (ls_taker st :: side_orders (o_side taker) (ls_book st)) /\
      0 < units (o_remaining (ls_taker st)))).
Proof.
  intros Ht [Hwf Htk] [Hsame Hle] Hst Hcs Hv.
  assert (o_side (ls_taker st) = o_side taker /\ o_id (ls_taker st) = o_id taker /\
    o_order_type (ls_taker st) = o_order_type taker) as (Hs & Hi & Hty) by (by rewrite Hsame).
  unfold after_loop. destruct (finalize_taker _ _ _) as [b2 fe] eqn:Hf.
  apply (finalize_cases t X) in Hf; [|done|done|by rewrite Hty|done|by inversion Hv].
  rewrite Hi, Hty in Hf.
  assert (oco_links b2 = ∅ /\ side_orders (opposite (o_side taker)) b2 =
      side_orders (opposite (o_side taker)) (ls_book st)) as [Hoco Hopp].
  { destruct Hf as [[-> _]|(Hre & -> & _)]; [split; [apply Hcs|done]|].
    destruct Htk as (_ & _ & Hp). rewrite Hty in Hp. destruct (Hp Hre) as [p Hpr].
    destruct (insert_maker_side t _ _ p _ _ Hwf Hpr Hs) as (_ & -> & ->).
    split; [apply Hcs|done]. }
  assert (maybe_cancel_oco (o_id (ls_taker st)) b2 = (b2, [])) as Hm.
  { unfold maybe_cancel_oco. by rewrite Hoco, lookup_empty. }
  rewrite Hm. intros Heq. exists fe.
  assert (b1 = b2 /\ evs = ls_events st ++ fe) as [-> ->].
  { destruct (_ || _)%bool; injection Heq as <- <-; by rewrite ?app_nil_r. }
  split_and!; [done|done|].
  destruct Hf as [[-> [[Hz ->]|[Hz Hc]]]|(Hre & -> & -> & Hpos & _)].
  - left. split; [done|]. left. split; [|done].
    by rewrite is_zero_units, Z.eqb_eq in Hz.
  - left. split; [done|]. right. split; [by apply (is_zero_false_pos t)|done].
  - right. destruct Htk as (_ & _ & Hp). rewrite Hty in Hp.
    destruct (Hp Hre) as [p Hpr].
    split_and!; [done|done|done| |done].
    by destruct (insert_maker_side t _ _ p _ _ Hwf Hpr Hs) as (-> & _ & _).
Qed.

Lemma triggers_sides last b trig b' s :
  triggers last b = (trig, b') -> side_orders s b' = side_orders s b.
Proof.
  unfold triggers, check_stop_triggers. destruct last as [p|].
  - destruct (drain_triggered p (stops b)). intros [= <- <-]. by destruct s.
  - by intros [= <- <-].
Qed.

(** What a plain run did: it stopped in a state [st] the trades lead to, where the
    taker is used up or no price is acceptable, and then settled the remainder. *)
Lemma plain_run t X n taker b b' evs trig :
  valid_tick t -> book_wf t (o_id taker :: X) b -> order_ok t taker ->
  is_stop (o_order_type taker) = false -> plain taker b ->
  run_matching_loop n taker b = Some (b', evs, trig) ->
  exists st fin, conserved taker b st /\ loop_inv t X st /\ same_taker taker (ls_taker st) /\
    step_view st (LsBreak st) /\
    evs = ls_events st ++ fin /\
    side_orders (opposite (o_side taker)) b' =
      side_orders (opposite (o_side taker)) (ls_book st) /\
    ((side_orders (o_side taker) b' = side_orders (o_side taker) b /\
      (units (o_remaining (ls_taker st)) = 0 /\ fin = [] \/
       0 < units (o_remaining (ls_taker st)) /\
      exists r, fin = [EvCancelled (o_id taker) r])) \/
     (rests (o_order_type taker) = true /\
      fin = [EvRested (o_id taker) (o_remaining (ls_taker st))] /\
      side_orders (o_side taker) b' ≡ₚ (ls_taker st :: side_orders (o_side taker) b) /\
      0 < units (o_remaining (ls_taker st)))).
Proof.
  intros Ht Hwf Hok Hst Hpl. unfold run_matching_loop.
  destruct (match_loop n _) as [r|] eqn:Hl; [|done].
  apply match_loop_rtc in Hl as (st1 & Hr & Hend).
  pose proof (loop_start_inv t X taker b Hwf Hok) as Hinv0.
  destruct (cont_inv t X _ _ Ht Hinv0 Hr) as (Hinv & _ & Htk). simpl in Htk.
  pose proof (cont_conserved t X taker b st1 Ht Hwf Hok Hpl Hr) as Hcs.
  pose proof (loop_step_view t X st1 Ht Hinv) as Hv.
  destruct r as [st'|st']; [|by destruct (plain_no_return t X taker b st1 st' Ht Hwf Hok Hpl Hr)].
  pose proof (loop_break_same _ _ Hend) as ->. rewrite Hend in Hv.
  destruct (after_loop st1) as [b1 ev1] eqn:Ha.
  destruct (plain_after_loop t X taker b st1 b1 ev1) as (fin & -> & Hopp & Hcase); [done..|].
  destruct (triggers _ b1) as [trig1 b2] eqn:Htr. intros [= <- <- <-].
  pose proof (triggers_sides _ _ _ _ (o_side taker) Htr) as Hown.
  exists st1, fin. split_and!; [done..| |].
  - by rewrite (triggers_sides _ _ _ _ _ Htr).
  - rewrite Hown. destruct Hcase as [[-> ?]|(? & _ & ? & Hp & ?)].
    + left. split; [apply Hcs|done].
    + right. split_and!; [done|done| |done]. by rewrite Hp, (cs_own _ _ _ Hcs).
Qed.
End Conserve.
