(* ===== verification/BookProps.v ===== *)
(** * BookProps: the correctness theorems of the matching engine

    First concrete books for the examples: orders with integer prices and quantities
    ([z_decimal], tick 1), a book built by submitting a few of them, and the facts about
    them the examples need. *)
From stdpp Require Import relations.
From S2P Require Import Prelude Decimal BTree Types Stop Book BookInv BookOps.
From S2P Require Import BookLoop BookRun BookSpec BookRefine BookCheck BookTrades.
From S2P Require Import BookConserve.

Definition order (id user : Uuid) (s : Side) (ty : OrderType) (price : option Z) (q : Z) : Order Z :=
  mkOrder id user "BTCUSDT" s ty price q q Decrement None None None.
Definition with_display (d : Z) (o : Order Z) : Order Z :=
  mkOrder (o_id o) (o_user_id o) (o_symbol o) (o_side o) (o_order_type o) (o_price o)
    (o_quantity o) (o_remaining o) (o_stp_mode o) (o_stop_price o) (o_oco_linked_id o) (Some d).
Definition with_stop (p : Z) (o : Order Z) : Order Z :=
  mkOrder (o_id o) (o_user_id o) (o_symbol o) (o_side o) (o_order_type o) (o_price o)
    (o_quantity o) (o_remaining o) (o_stp_mode o) (Some p) (o_oco_linked_id o) (o_display_qty o).

Definition small (x : Z) : bool := ((0 <? x) && (x <? 2 ^ 96))%Z.

Definition orderb (o : Order Z) : bool :=
  (small (o_remaining o) &&
   match o_display_qty o with Some d => small d | None => true end &&
   (negb (rests (o_order_type o)) || match o_price o with Some _ => true | None => false end))%bool.

Definition admissibleb (o : Order Z) (b : OrderBook Z) : bool :=
  (orderb o && bool_decide (o_id o ∉ book_ids b))%bool.

Definition submit (n : nat) (o : Order Z) (b : OrderBook Z) : OrderBook Z :=
  match match_order n o b with Some (b', _) => b' | None => b end.

Lemma tick1 : valid_tick 1.
Proof. exists 28%nat. split; [lia|done]. Qed.

Lemma small_lot x : small x = true -> pos_lot 1 x.
Proof.
  unfold small. rewrite andb_true_iff, !Z.ltb_lt. intros [? ?].
  split; [exists x; simpl; lia|done].
Qed.

Lemma orderb_ok o : orderb o = true -> order_ok 1 o.
Proof.
  unfold orderb. rewrite !andb_true_iff. intros [[H1 H2] H3]. split_and!.
  - by apply small_lot.
  - intros d Hd. rewrite Hd in H2. by apply small_lot.
  - intros Hr. rewrite Hr in H3. simpl in H3. destruct (o_price o); [eauto|done].
Qed.

Lemma admissibleb_ok o b : admissibleb o b = true -> admissible 1 o b.
Proof.
  unfold admissibleb. rewrite andb_true_iff, bool_decide_eq_true.
  intros [? ?]. split; [by apply orderb_ok|done].
Qed.

Lemma submit_wf n o b :
  book_wf 1 [] b -> admissibleb o b = true -> book_wf 1 [] (submit n o b).
Proof.
  intros Hwf Ha%admissibleb_ok. unfold submit.
  destruct (match_order n o b) as [[b' evs]|] eqn:E; [|done].
  by eapply match_order_wf in E; [|exact tick1|..].
Qed.

(** Submits a list of orders, each checked to be admissible. *)
Fixpoint submit_all (l : list (Order Z)) (b : OrderBook Z) : option (OrderBook Z) :=
  match l with
  | [] => Some b
  | o :: l' => if admissibleb o b then submit_all l' (submit 50 o b) else None
  end.

Lemma submit_all_wf l b b' : book_wf 1 [] b -> submit_all l b = Some b' -> book_wf 1 [] b'.
Proof.
  revert b. induction l as [|o l IH]; simpl; intros b Hwf; [by intros [= <-]|].
  destruct (admissibleb o b) eqn:Ha; [|done]. apply IH. by apply submit_wf.
Qed.

Definition book_of (l : list (Order Z)) : OrderBook Z := default book_new (submit_all l book_new).

Lemma book_of_wf l : book_wf 1 [] (book_of l).
Proof.
  unfold book_of. destruct (submit_all l book_new) as [b|] eqn:E; simpl.
  - eapply submit_all_wf; [|done]. apply book_new_wf. constructor.
  - apply book_new_wf. constructor.
Qed.

Lemma fits_dec (b : OrderBook Z) :
  forallb (fun s => qty (side_orders s b) <? 2 ^ 96)%Z [Buy; Sell] = true -> fits 1 b.
Proof.
  simpl. rewrite !andb_true_iff, !Z.ltb_lt. intros (? & ? & _) []; lia.
Qed.

Lemma plain_dec (taker : Order Z) (b : OrderBook Z) :
  (bool_decide (no_own taker b) && bool_decide (oco_links b = ∅))%bool = true -> plain taker b.
Proof. rewrite andb_true_iff, !bool_decide_eq_true. done. Qed.

(** Two asks at 10 and one at 12, an iceberg among them, a bid at 8 and a buy stop at 10. *)
Definition sample : OrderBook Z := book_of
  [order 1 11 Sell Limit (Some 10) 5;
   with_display 2 (order 2 12 Sell Iceberg (Some 10) 6);
   order 3 13 Sell Limit (Some 12) 7;
   order 4 14 Buy Limit (Some 8) 9;
   with_stop 10 (order 5 15 Buy StopLimit (Some 11) 3)].

Lemma sample_wf : book_wf 1 [] sample.
Proof. apply book_of_wf. Qed.

(** A buyer who takes from two levels. *)
Definition buyer : Order Z := order 9 19 Buy Limit (Some 12) 14.

Lemma buyer_admissible : admissible 1 buyer sample.
Proof. by apply admissibleb_ok. Qed.

Example sample_match :
  snd <$> match_order 40 buyer sample =
  Some [EvFill (mkFill 9 1 10 5 Buy); EvFill (mkFill 9 2 10 2 Buy);
        EvFill (mkFill 9 2 10 2 Buy); EvFill (mkFill 9 2 10 2 Buy);
        EvFill (mkFill 9 3 12 3 Buy); EvStopTriggered 5; EvRested 5 3].
Proof. vm_compute. done. Qed.

(** * Behaviours of the engine that its comments do not promise

    Concrete runs.  Each records what the code does where a comment, or the intent of
    the surrounding code, says otherwise. *)

(** A resting order whose display quantity is zero: the engine rests it like any other. *)
Definition stuck_book : OrderBook Z :=
  submit 10 (with_display 0 (order 1 11 Sell Limit (Some 10) 5)) book_new.
Definition stuck_taker : Order Z := order 2 12 Buy Limit (Some 10) 1.

Lemma stuck_step evs last had :
  exists e, loop_step (mkLoop stuck_book stuck_taker evs last had) =
            LsContinue (mkLoop stuck_book stuck_taker (evs ++ [e]) (Some 10) true).
Proof. eexists. vm_compute. reflexivity. Qed.

(** The next taker trades zero quantity with it forever: no fuel is enough. *)
Lemma zero_display_never_ends n : match_order n stuck_taker stuck_book = None.
Proof.
  assert (forall k evs last had,
    match_loop k (mkLoop stuck_book stuck_taker evs last had) = None) as Hloop.
  { induction k as [|k IH]; intros evs last had; cbn [match_loop]; [done|].
    destruct (stuck_step evs last had) as [e ->]. apply IH. }
  unfold match_order. simpl. destruct n as [|n]; simpl; [done|].
  unfold run_matching_loop. by rewrite Hloop.
Qed.

(** A FOK order counts its own user's resting order as liquidity: it trades part of its
    quantity and is then cancelled by self-trade prevention, so it was not
    all-or-nothing. *)
Definition fok_stp_book : OrderBook Z := book_of
  [order 1 11 Sell Limit (Some 10) 5; order 2 12 Sell Limit (Some 11) 5].
Definition fok_stp_taker : Order Z := order 3 12 Buy Fok (Some 11) 8.

Lemma fok_partially_fills :
  snd <$> match_order 20 fok_stp_taker fok_stp_book =
  Some [EvFill (mkFill 3 1 10 5 Buy); EvCancelled 3 SelfTradePrevented].
Proof. vm_compute. reflexivity. Qed.

(** Once sixteen stops have been triggered, stops triggered later leave the registry
    without being activated or reported. *)
Definition chain_stop (id : Uuid) : Order Z :=
  with_stop 10 (order id (100 + id) Buy StopMarket None 1).
Definition chain_book : OrderBook Z := book_of
  (order 1 11 Sell Limit (Some 10) 1 :: order 2 12 Sell Limit (Some 11) 1 ::
   with_stop 11 (order 3 13 Buy StopMarket None 1) ::
   map chain_stop [20; 21; 22; 23; 24; 25; 26; 27; 28; 29; 30; 31; 32; 33; 34; 35]%N).

Definition mentions (id : Uuid) (e : EngineEvent Z) : bool :=
  match e with
  | EvStopTriggered x | EvCancelled x _ | EvRested x _ => N.eqb x id
  | EvFill f => N.eqb (fl_taker_order_id f) id
  end.
Definition holds (id : Uuid) (b : OrderBook Z) : bool := existsb (N.eqb id) (book_ids b).

Lemma late_stops_are_lost :
  match match_order 60 (order 4 14 Buy Limit (Some 10) 1) chain_book with
  | Some (b', evs) =>
      holds 3 chain_book = true /\ holds 3 b' = false /\ existsb (mentions 3) evs = false
  | None => False
  end.
Proof. vm_compute. auto. Qed.

(** A leg of an OCO pair that self-trade prevention cancels leaves its partner live. *)
Lemma stp_keeps_oco_partner :
  match match_order 20 (order 9 11 Buy Limit (Some 10) 5) (register_oco 1 4 sample) with
  | Some (b', evs) =>
      evs = [EvCancelled 1 SelfTradePrevented; EvCancelled 9 SelfTradePrevented] /\
      holds 4 b' = true
  | None => False
  end.
Proof. vm_compute. auto. Qed.

(** Stops triggered together are activated last in, first out. *)
Definition lifo_book : OrderBook Z := book_of
  [order 1 11 Sell Limit (Some 10) 1;
   with_stop 10 (order 2 12 Buy StopLimit (Some 9) 1);
   with_stop 10 (order 3 13 Buy StopLimit (Some 9) 1)].

Lemma stops_activate_lifo :
  snd <$> match_order 20 (order 4 14 Buy Limit (Some 10) 1) lifo_book =
  Some [EvFill (mkFill 4 1 10 1 Buy); EvStopTriggered 2; EvStopTriggered 3;
        EvRested 3 1; EvRested 2 1].
Proof. vm_compute. reflexivity. Qed.

(** * The correctness theorems of the matching engine *)

(** ** Lemmas of this file *)

Section Lemmas.
Context {D : Type} {dops : DecimalOps D} {dlaws : DecimalLaws D}.
Implicit Types (b : OrderBook D) (o taker : Order D).

Lemma best_prices_apart t b x y :
  book_wf t [] b -> best_bid b = Some x -> best_ask b = Some y -> dltb x y = true.
Proof.
  intros Hwf Hx Hy. rewrite dltb_units, Z.ltb_lt. apply (wf_uncrossed t [] b Hwf).
  - apply bt_last_Some in Hx as (v & m & Hm). unfold keys. rewrite Hm, fmap_app. set_solver.
  - apply bt_first_Some in Hy as (v & m & ->); [left|]. by apply (wf_sorted t [] b Sell).
Qed.

Lemma work_loop_events lf n queue depth evs b b' evs' :
  work_loop lf n queue depth evs b = Some (b', evs') -> exists more, evs' = evs ++ more.
Proof.
  revert queue depth evs b. induction n as [|n IH]; intros queue depth evs b; simpl;
    destruct (vec_pop queue) as [[o q]|]; try done;
    try (intros [= <- <-]; exists []; by rewrite app_nil_r).
  destruct (run_matching_loop lf o b) as [[[b1 e1] trig]|]; [|done].
  case_match; intros [more ->]%IH; eexists; by rewrite <-!(assoc (++)).
Qed.

(** The first round of a submission that is neither rejected nor a stop. *)
Lemma match_order_first_run n taker b b' evs :
  pre_check taker b = None -> is_stop (o_order_type taker) = false ->
  match_order n taker b = Some (b', evs) ->
  exists b1 e1 trig n', run_matching_loop n taker b = Some (b1, e1, trig) /\
    work_loop n n' trig (u8_saturating_add 0 (u8_try_from_or_max (length trig)))
      (e1 ++ ((fun t => EvStopTriggered (o_id t)) <$> trig)) b1 = Some (b', evs).
Proof.
  unfold match_order. intros -> ->. destruct n as [|n]; simpl; [done|].
  destruct (run_matching_loop (S n) taker b) as [[[b1 e1] trig]|] eqn:E; [|done].
  intros H. by exists b1, e1, trig, n.
Qed.

Definition all_orders b : list (Order D) := book_orders b ++ stop_orders (stops b).

Lemma all_orders_ids b : ids (all_orders b) = book_ids b.
Proof. apply ids_app. Qed.

Lemma cancel_view_orders t X id b b' found :
  book_wf t X b -> cancel_view id b b' found ->
  exists removed, all_orders b ≡ₚ removed ++ all_orders b' /\
    (if found then exists o, removed = [o] /\ o_id o = id
     else removed = [] /\ id ∉ book_ids b).
Proof.
  intros Hwf [r Hc|Ha|s p q1 o q2 Hst Hid Hg]; unfold all_orders.
  - apply (stop_cancel_Some t) in Hc as [(o & Hid & Hp) _]. exists [o]. simpl.
    split; [|eauto]. rewrite <-Hp. change (book_orders (set_stops r b)) with (book_orders b).
    solve_Permutation.
  - by exists [].
  - exists [o]. split; [|eauto]. rewrite level_update_stops.
    destruct (level_update_book_orders t X s p (q1 ++ o :: q2) (q1 ++ q2) [id] b)
      as (R & -> & ->); [done|done|]. simpl. solve_Permutation.
Qed.

(** Cancelling takes out the order with that id, if there is one. *)
Lemma cancel_internal_exact t X id reason b b' evs :
  book_wf t X b -> cancel_order_internal id reason b = (b', evs) ->
  (forall o, o ∈ all_orders b' <-> o ∈ all_orders b /\ o_id o <> id) /\
  evs = if bool_decide (id ∈ book_ids b) then [EvCancelled id reason] else [].
Proof.
  intros Hwf (found & Hv & ->)%(cancel_internal_view t X); [|done].
  destruct (cancel_view_orders t X id b b' found Hwf Hv) as (rm & Hp & Hf).
  assert (NoDup (ids (all_orders b))) as Hn.
  { rewrite all_orders_ids. pose proof (wf_nodup t X b Hwf) as Hn.
    by apply NoDup_app in Hn as (_ & _ & ?). }
  rewrite <-all_orders_ids. destruct found.
  - destruct Hf as (o & -> & Hid). rewrite bool_decide_true.
    2:{ rewrite Hp. simpl. rewrite Hid. left. }
    split; [|done]. intros x. rewrite Hp. simpl. rewrite elem_of_cons.
    rewrite Hp in Hn. simpl in Hn. apply NoDup_cons in Hn as [Hn _].
    split; [|by intros [[->|?] ?]]. intros Hx. split; [by right|].
    intros Hxid. apply Hn. rewrite Hid, <-Hxid. by apply ids_in.
  - destruct Hf as (-> & Ha). rewrite <-all_orders_ids in Ha.
    rewrite bool_decide_false by done. split; [|done]. intros x. rewrite Hp. simpl.
    split; [|tauto]. intros Hx. split; [done|]. intros <-. apply Ha. rewrite Hp.
    by apply ids_in.
Qed.

Lemma cancelled_in x id reason (l : list Uuid) :
  (exists r, EvCancelled x r ∈
     (if bool_decide (id ∈ l) then [EvCancelled (D := D) id reason] else [])) <->
  x = id /\ id ∈ l.
Proof.
  case_bool_decide as Hin.
  - split; [|intros [-> _]; exists reason; left].
    intros [r Hr]. apply list_elem_of_singleton in Hr. by injection Hr as -> ->.
  - split; [by intros [r Hr%elem_of_nil]|]. by intros [_ ?].
Qed.

Lemma cancelled_app x (e1 e2 : list (EngineEvent D)) :
  (exists r, EvCancelled x r ∈ e1 ++ e2) <->
  (exists r, EvCancelled x r ∈ e1) \/ (exists r, EvCancelled x r ∈ e2).
Proof. setoid_rewrite elem_of_app. naive_solver. Qed.

(** What is left after a cancellation, and what is reported. *)
Lemma cancel_order_effects t id b b' evs :
  book_wf t [] b -> cancel_order id b = (b', evs) ->
  let gone := id :: match oco_links b !! id with Some l => [l] | None => [] end in
  book_wf t [] b' /\
  (forall o, o ∈ all_orders b' <-> o ∈ all_orders b /\ o_id o ∉ gone) /\
  (forall x, (exists r, EvCancelled x r ∈ evs) <-> x ∈ gone /\ x ∈ book_ids b).
Proof.
  intros Hwf. unfold cancel_order. destruct (oco_links b !! id) as [l|].
  - set (b0 := set_oco _ (set_oco _ b)).
    assert (book_wf t [] b0) as Hwf0 by (by do 2 apply set_oco_wf).
    destruct (cancel_order_internal id AdminCancel b0) as [b1 e1] eqn:H1.
    destruct (cancel_order_internal l OcoLinked b1) as [b2 e2] eqn:H2.
    intros [= <- <-]. simpl.
    destruct (cancel_internal_wf t [] id _ _ _ _ Hwf0 H1) as [Hwf1 _].
    destruct (cancel_internal_wf t [] l _ _ _ _ Hwf1 H2) as [Hwf2 _].
    apply (cancel_internal_exact t []) in H1 as [Ho1 ->]; [|done].
    apply (cancel_internal_exact t []) in H2 as [Ho2 ->]; [|done].
    change (all_orders b0) with (all_orders b) in Ho1.
    change (book_ids b0) with (book_ids b).
    split_and!; [done| |].
    + intros o. rewrite Ho2, Ho1. set_solver.
    + intros x. assert (l ∈ book_ids b1 <-> l ∈ book_ids b /\ l <> id) as Hl.
      { rewrite <-!all_orders_ids. unfold ids. rewrite !list_elem_of_fmap.
        setoid_rewrite Ho1. naive_solver. }
      rewrite cancelled_app.
      rewrite !cancelled_in, Hl, !elem_of_cons, elem_of_nil.
      split; [intros [[-> ?]|[-> [? _]]]; auto|].
      intros [Hg Hx]. destruct Hg as [->|[->|[]]]; [by left|].
      destruct (decide (l = id)) as [->|]; [by left|by right].
  - destruct (cancel_order_internal id AdminCancel _) as [b1 e1] eqn:H1. intros [= <- <-].
    pose proof (set_oco_wf t [] (delete id (oco_links b)) b Hwf) as Hwf0.
    destruct (cancel_internal_wf t [] id _ _ _ _ Hwf0 H1) as [Hwf1 _].
    apply (cancel_internal_exact t []) in H1 as [Ho1 ->]; [|done].
    change (all_orders (set_oco _ b)) with (all_orders b) in Ho1.
    change (book_ids (set_oco _ b)) with (book_ids b).
    split_and!; [done| |].
    + intros o. rewrite Ho1. set_solver.
    + intros x. rewrite cancelled_in, list_elem_of_singleton.
      split; intros [-> ?]; done.
Qed.

Lemma index_side_fold s (m : btree D (list (Order D))) ix :
  index_side s m ix = fold_left (fun ix e => <[e.1 := e.2]> ix) (index_list s m) ix.
Proof.
  unfold index_side, index_list. revert ix. induction m as [|[k q] m IH]; intros ix; [done|].
  simpl. rewrite IH. rewrite fold_left_app. f_equal. clear IH.
  revert ix. induction q as [|o q IH]; intros ix; [done|]. simpl. by rewrite IH.
Qed.

Lemma fold_insert_map (l : list (Uuid * (Side * D))) :
  NoDup l.*1 -> fold_left (fun ix e => <[e.1 := e.2]> ix) l ∅ =
                list_to_map (M := gmap Uuid (Side * D)) l.
Proof.
  intros Hn. rewrite <-fold_left_rev_right.
  assert (forall l' : list (Uuid * (Side * D)),
    fold_right (fun e (ix : gmap Uuid (Side * D)) => <[e.1 := e.2]> ix) ∅ l' = list_to_map l') as ->.
  { induction l' as [|[k v] l' IH]; simpl; [done|]. by rewrite IH. }
  apply list_to_map_proper; rewrite <-Permutation_rev; done.
Qed.

Lemma depth_side_spec t X b n levels s :
  valid_tick t -> book_wf t X b -> fits t b -> levels ≡ₚ side_levels s b ->
  Forall2 (fun d e => d.1 = e.1 /\ units d.2 = qty e.2) (depth_side n levels) (take n levels).
Proof.
  intros Ht Hwf Hfit Hp. unfold depth_side.
  assert (Forall (fun e => 0 < qty e.2 /\ units (queue_sum e.2) = qty e.2) (take n levels)) as Hf.
  { apply Forall_take, Forall_forall. intros [p q] Hin. rewrite Hp in Hin.
    destruct (wf_side t X b Hwf s) as [Hs Hall].
    apply bt_get_elem in Hin; [|done]. pose proof (wf_get t X b s p q Hwf Hin) as [Hne Hq].
    pose proof (bucket_orders_get p q _ Hs Hin) as Hb. fold (side_orders s b) in Hb.
    pose proof (side_lots t X s b Hwf) as Hl. unfold lots in Hl. rewrite Hb in Hl.
    apply Forall_app in Hl as [Hl Hr]. specialize (Hfit s). rewrite Hb, qty_app in Hfit.
    pose proof (qty_nonneg t _ Ht Hr).
    simpl. split; [|apply (queue_sum_units t); [done|done|lia]].
    destruct q as [|o q]; [done|]. apply Forall_cons in Hl as [[_ ?] Hl].
    pose proof (qty_nonneg t q Ht Hl). simpl. lia. }
  induction Hf as [|[p q] l [Hpos Hq] _ IH]; simpl; [constructor|].
  simpl in Hpos, Hq. rewrite filter_cons_True.
  - by constructor.
  - simpl. rewrite dltb_units, units_zero, Hq. by apply Z.ltb_lt.
Qed.

(** ** The orders that are checked before matching *)

Lemma post_only_cases t n taker b b' evs :
  order_ok t taker -> o_order_type taker = PostOnly -> match_order n taker b = Some (b', evs) ->
  (b' = b /\ evs = [EvCancelled (o_id taker) PostOnlyCrossed]) \/
  (b' = insert_maker taker b /\ evs = [EvRested (o_id taker) (o_remaining taker)]).
Proof.
  intros (Hrem & _ & Hp) Hty.
  rewrite Hty in Hp. destruct (Hp eq_refl) as [p Hpr]. destruct Hrem as [_ Hpos].
  unfold match_order, pre_check. rewrite Hty.
  destruct (would_cross_post_only taker b) eqn:Hc; simpl; [intros [= <- <-]; by left|].
  intros Hm. right.
  assert (loop_step (mkLoop b taker [] None false) = LsBreak (mkLoop b taker [] None false)) as Hs.
  { unfold loop_step. simpl. rewrite dltb_units, units_zero.
    destruct (Z.ltb_spec 0 (units (o_remaining taker))); [|lia]. simpl.
    unfold would_cross_post_only, best_ask, best_bid in Hc. rewrite Hpr in Hc.
    unfold best_opposite_price, taker_price_satisfied. rewrite Hpr.
    destruct (o_side taker); [destruct (bt_first (asks b))|destruct (bt_last (bids b))];
      by rewrite ?Hc. }
  destruct n as [|n]; simpl in Hm; [done|]. unfold run_matching_loop in Hm. simpl in Hm.
  rewrite Hs in Hm. unfold after_loop, finalize_taker in Hm. simpl in Hm.
  rewrite is_zero_units, (proj2 (Z.eqb_neq _ _)), Hty in Hm by lia. simpl in Hm.
  destruct n; simpl in Hm; by injection Hm as <- <-.
Qed.

Lemma fok_pre_check t taker b :
  valid_tick t -> book_wf t [] b -> order_ok t taker -> fits t b -> o_order_type taker = Fok ->
  pre_check taker b =
  if (units (o_remaining taker) <=?
      reachable_qty taker (side_orders (opposite (o_side taker)) b))%Z
  then None else Some (EvCancelled (o_id taker) FokUnfilled).
Proof.
  intros Ht Hwf Hok Hfit Hty. pose proof (can_fully_fill_spec t [] taker b Ht Hwf Hok Hfit) as Hcf.
  rewrite flat_perm in Hcf. unfold pre_check. rewrite Hty, Hcf. by destruct (_ <=? _)%Z.
Qed.

(** When no price is acceptable any more, nothing is reachable. *)
Lemma nothing_reachable t X taker b :
  book_wf t X b ->
  (forall k, k ∈ keys (side_levels (opposite (o_side taker)) b) ->
     taker_price_satisfied taker k = false) ->
  reachable_qty taker (side_orders (opposite (o_side taker)) b) = 0.
Proof.
  intros Hwf Hun. pose proof (flat_priced t X (opposite (o_side taker)) b Hwf) as Hpr.
  rewrite flat_perm in Hpr. unfold reachable_qty.
  induction Hpr as [|o l (k & Hk & Hin) _ IH]; [done|].
  rewrite filter_cons_False; [done|]. unfold within_limit. rewrite Hk. by rewrite (Hun k Hin).
Qed.

(** A fill-or-kill order that is let in is filled whole, by trades alone. *)
Lemma fok_run_fills t n taker b b1 e1 trig :
  valid_tick t -> book_wf t [o_id taker] b -> order_ok t taker -> plain taker b ->
  o_order_type taker = Fok ->
  units (o_remaining taker) <= reachable_qty taker (side_orders (opposite (o_side taker)) b) ->
  run_matching_loop n taker b = Some (b1, e1, trig) ->
  Forall (fun e => exists f, e = EvFill f) e1 /\ fills_qty e1 = units (o_remaining taker).
Proof.
  intros Ht Hwf Hok Hpl Hty Hreach Hrun.
  destruct (plain_run t [] n taker b b1 e1 trig) as
    (st & fin & Hcs & Hinv & [Hsame _] & Hbrk & -> & _ & Hcase); [try done..|].
  { by rewrite Hty. }
  assert (units (o_remaining (ls_taker st)) = 0) as Hz.
  { inversion Hbrk as [Hex| | | | |].
    pose proof (lot_nonneg t _ Ht (li_lot t [] st Hinv)). destruct Hex as [Hle|Hun]; [lia|].
    assert (o_side (ls_taker st) = o_side taker) as Hs by (by rewrite Hsame).
    assert (reachable_qty taker (side_orders (opposite (o_side taker)) (ls_book st)) = 0).
    { apply (nothing_reachable t _ taker _ (li_wf _ _ _ Hinv)). intros k Hk. rewrite <-Hs in Hk.
      specialize (Hun k Hk). by rewrite Hsame in Hun. }
    pose proof (cs_reach _ _ _ Hcs). pose proof (cs_taker _ _ _ Hcs). lia. }
  pose proof (cs_taker _ _ _ Hcs). pose proof (cs_events _ _ _ Hcs).
  assert (fin = []) as ->.
  { destruct Hcase as [[_ [[_ ?]|[? _]]]|(Hre & _)]; [done|lia|by rewrite Hty in Hre]. }
  rewrite app_nil_r. split; [done|lia].
Qed.
End Lemmas.

(** ** The theorems *)

(** C1. Submitting any admissible order to a well-formed book answers (the matching
    loop and the stop cascade both end within the stated fuel) and leaves a well-formed
    book: sorted sides without empty levels, every id in one place and correctly
    indexed, and no bid at or above an ask. *)
Theorem match_order_safe {D} {dops : DecimalOps D} {dlaws : DecimalLaws D}
    t n taker (b : OrderBook D) :
  valid_tick t -> book_wf t [] b -> admissible t taker b ->
  (enough_fuel taker b <= n)%nat ->
  exists b' evs, match_order n taker b = Some (b', evs) /\ book_wf t [] b' /\
    forall bid ask, best_bid b' = Some bid -> best_ask b' = Some ask -> dltb bid ask = true.
Proof.
  intros Ht Hwf Had Hn. destruct (match_order_total t n taker b) as [[b' evs] Hm]; [done..|].
  pose proof (match_order_wf t n taker b b' evs Ht Hwf Had Hm) as Hwf'.
  exists b', evs. split_and!; [done|done|]. intros. by eapply best_prices_apart.
Qed.

Lemma match_order_safe_witness :
  exists b' evs, match_order 40 buyer sample = Some (b', evs) /\ book_wf 1 [] b' /\
    forall bid ask, best_bid b' = Some bid -> best_ask b' = Some ask -> dltb bid ask = true.
Proof.
  apply (match_order_safe 1 40 buyer sample).
  - exact tick1.
  - exact sample_wf.
  - exact buyer_admissible.
  - apply Nat.leb_le. vm_compute. reflexivity.
Defined.

(** C2. The engine implements price-time priority: on a well-formed book whose side
    totals fit a [Decimal], a submission yields the events of the flat specification of
    BookSpec, and the book it leaves reads as the specification's lists. *)
Theorem match_order_refines_priority {D} {dops : DecimalOps D} {dlaws : DecimalLaws D}
    t n taker (b b' : OrderBook D) evs :
  valid_tick t -> book_wf t [] b -> admissible t taker b -> fits t b ->
  match_order n taker b = Some (b', evs) ->
  flat_match_order n taker (abs b) = Some (abs b', evs).
Proof.
  intros Ht Hwf Had Hfit. unfold match_order, flat_match_order.
  rewrite (pre_check_refines t []) by (done || apply Had).
  destruct (pre_check taker b) as [e|]; [by intros [= <- <-]|].
  destruct (is_stop (o_order_type taker)) eqn:Hst.
  - intros [= H]. f_equal. unfold register_stop_order, f_register_stop in *. simpl.
    destruct (stop_insert taker (stops b)); by injection H as <- <-.
  - apply (work_refines t []); [done| |by apply admissible_wf].
    apply Forall_singleton. split; [apply Had|done].
Qed.

Lemma match_order_refines_priority_witness :
  flat_match_order 40 buyer (abs sample) =
  Some (abs (submit 40 buyer sample), default [] (snd <$> match_order 40 buyer sample)).
Proof.
  apply (match_order_refines_priority 1 40 buyer sample).
  - exact tick1.
  - exact sample_wf.
  - exact buyer_admissible.
  - apply fits_dec. vm_compute. reflexivity.
  - vm_compute. reflexivity.
Defined.

(** C3. Every trade of a run of the matching loop is valid: it is between the taker and
    an order that rested on the other side and belongs to another user (so never a
    self-trade), at that order's price, within the taker's limit, for a positive
    quantity no larger than what the taker had and what the maker shows. *)
Theorem run_trades_valid {D} {dops : DecimalOps D} {dlaws : DecimalLaws D}
    t X n taker (b b' : OrderBook D) evs trig :
  valid_tick t -> book_wf t (o_id taker :: X) b -> order_ok t taker ->
  is_stop (o_order_type taker) = false ->
  run_matching_loop n taker b = Some (b', evs, trig) ->
  Forall (trade_ok taker (side_orders (opposite (o_side taker)) b)) evs.
Proof. apply run_trades. Qed.

Lemma run_trades_valid_witness :
  match run_matching_loop 40 buyer sample with
  | Some (_, evs, _) => Forall (trade_ok buyer (side_orders Sell sample)) evs
  | None => False
  end.
Proof.
  destruct (run_matching_loop 40 buyer sample) as [[[b' evs] trig]|] eqn:E.
  - apply (run_trades_valid 1 [] 40 buyer sample b' evs trig).
    + exact tick1.
    + apply admissible_wf; [exact sample_wf|exact buyer_admissible].
    + exact (proj1 buyer_admissible).
    + reflexivity.
    + exact E.
  - vm_compute in E. discriminate E.
Defined.

(** C4. In a run without self-trade prevention or OCO links, quantity only changes
    hands: the other side loses exactly what the fills report, the taker's own side
    gains exactly what is reported resting, and the taker's quantity is traded, resting,
    or given up with a cancellation. *)
Theorem run_conserves_quantity {D} {dops : DecimalOps D} {dlaws : DecimalLaws D}
    t X n taker (b b' : OrderBook D) evs trig :
  valid_tick t -> book_wf t (o_id taker :: X) b -> order_ok t taker ->
  is_stop (o_order_type taker) = false -> plain taker b ->
  run_matching_loop n taker b = Some (b', evs, trig) ->
  qty (side_orders (opposite (o_side taker)) b') + fills_qty evs =
    qty (side_orders (opposite (o_side taker)) b) /\
  qty (side_orders (o_side taker) b') = qty (side_orders (o_side taker) b) + rested_qty evs /\
  fills_qty evs + rested_qty evs <= units (o_remaining taker) /\
  (fills_qty evs + rested_qty evs = units (o_remaining taker) \/
   rested_qty evs = 0 /\ exists r, EvCancelled (o_id taker) r ∈ evs).
Proof.
  intros Ht Hwf Hok Hst Hpl Hrun.
  destruct (plain_run t X n taker b b' evs trig) as
    (st & fin & Hcs & Hinv & [_ Hle] & _ & -> & Hopp & Hcase); [done..|].
  pose proof (cs_taker _ _ _ Hcs). pose proof (cs_makers _ _ _ Hcs).
  pose proof (only_fills_rested _ (cs_events _ _ _ Hcs)) as Hr0.
  pose proof (lot_nonneg t _ Ht (li_lot t X st Hinv)).
  rewrite fills_qty_app, rested_qty_app, Hr0, Hopp.
  destruct Hcase as [[-> [[Hz ->]|[_ [r ->]]]]|(_ & -> & -> & _)]; simpl.
  - split_and!; try lia; left; lia.
  - split_and!; try lia. right. split; [lia|]. exists r. apply elem_of_app. right. left.
  - split_and!; try lia; left; lia.
Qed.

Lemma run_conserves_quantity_witness :
  match run_matching_loop 40 buyer sample with
  | Some (b', evs, _) =>
      qty (side_orders Sell b') + fills_qty evs = qty (side_orders Sell sample) /\
      qty (side_orders Buy b') = qty (side_orders Buy sample) + rested_qty evs /\
      fills_qty evs + rested_qty evs <= units (o_remaining buyer) /\
      (fills_qty evs + rested_qty evs = units (o_remaining buyer) \/
       rested_qty evs = 0 /\ exists r, EvCancelled (o_id buyer) r ∈ evs)
  | None => False
  end.
Proof.
  destruct (run_matching_loop 40 buyer sample) as [[[b' evs] trig]|] eqn:E.
  - apply (run_conserves_quantity 1 [] 40 buyer sample b' evs trig).
    + exact tick1.
    + apply admissible_wf; [exact sample_wf|exact buyer_admissible].
    + exact (proj1 buyer_admissible).
    + reflexivity.
    + apply plain_dec. vm_compute. reflexivity.
    + exact E.
  - vm_compute in E. discriminate E.
Defined.

(** C5. Fill-or-kill: with no order of the same user on the other side and no OCO link,
    a FOK order that its limit cannot fill is rejected and the book is untouched, and
    one that can be filled is filled to the last unit before anything else happens. *)
Theorem fok_all_or_nothing {D} {dops : DecimalOps D} {dlaws : DecimalLaws D}
    t n taker (b b' : OrderBook D) evs :
  valid_tick t -> book_wf t [] b -> admissible t taker b -> fits t b -> plain taker b ->
  o_order_type taker = Fok ->
  match_order n taker b = Some (b', evs) ->
  if (units (o_remaining taker) <=?
      reachable_qty taker (side_orders (opposite (o_side taker)) b))%Z
  then exists fills more, evs = fills ++ more /\
         Forall (fun e => exists f, e = EvFill f /\ fl_taker_order_id f = o_id taker) fills /\
         fills_qty fills = units (o_remaining taker) /\ o_id taker ∉ book_ids b'
  else b' = b /\ evs = [EvCancelled (o_id taker) FokUnfilled].
Proof.
  intros Ht Hwf Had Hfit Hpl Hty Hm. pose proof Had as [Hok _].
  pose proof (admissible_wf t taker b Hwf Had) as Hwf1.
  assert (is_stop (o_order_type taker) = false) as Hst by (by rewrite Hty).
  pose proof (fok_pre_check t taker b Ht Hwf Hok Hfit Hty) as Hpc.
  destruct (_ <=? _)%Z eqn:Hcan.
  - destruct (match_order_first_run n taker b b' evs Hpc Hst Hm)
      as (b1 & e1 & trig & n' & Hrun & Hwork).
    pose proof (run_trades t [] n taker b b1 e1 trig Ht Hwf1 Hok Hst Hrun) as Htr.
    pose proof (run_keeps_out t [] n taker b b1 e1 trig Ht Hwf1 Hok Hst Hrun) as [Hwf2 Hq _ _].
    unfold kept_out in Hwf2. rewrite Hty in Hwf2. simpl in Hwf2.
    pose proof Hwork as Hw. apply (work_loop_ok t [o_id taker]) in Hw as [Hwf' _]; [|done..].
    apply work_loop_events in Hwork as [more ->]. apply Z.leb_le in Hcan.
    destruct (fok_run_fills t n taker b b1 e1 trig) as [Hev Hqty]; [done..|].
    exists e1, (((fun t => EvStopTriggered (o_id t)) <$> trig) ++ more).
    split_and!; [by rewrite <-(assoc (++))| |done|].
    + rewrite Forall_forall in *. intros e He. destruct (Hev e He) as [f ->].
      exists f. split; [done|]. by apply (Htr _ He).
    + intros Hin. pose proof (wf_nodup t _ b' Hwf') as Hn. simpl in Hn.
      by apply NoDup_cons in Hn as [? _].
  - unfold match_order in Hm. rewrite Hpc in Hm. by injection Hm as <- <-.
Qed.

(** A FOK order the sample book can fill. *)
Definition fok_buyer : Order Z := order 9 19 Buy Fok (Some 10) 11.

Lemma fok_all_or_nothing_witness :
  match match_order 40 fok_buyer sample with
  | Some (b', evs) =>
      exists fills more, evs = fills ++ more /\
        Forall (fun e => exists f, e = EvFill f /\ fl_taker_order_id f = o_id fok_buyer) fills /\
        fills_qty fills = units (o_remaining fok_buyer) /\ o_id fok_buyer ∉ book_ids b'
  | None => False
  end.
Proof.
  destruct (match_order 40 fok_buyer sample) as [[b' evs]|] eqn:E.
  - assert (admissible 1 fok_buyer sample) as Ha
      by (apply admissibleb_ok; vm_compute; reflexivity).
    assert (fits 1 sample) as Hf by (apply fits_dec; vm_compute; reflexivity).
    assert (plain fok_buyer sample) as Hp by (apply plain_dec; vm_compute; reflexivity).
    pose proof (fok_all_or_nothing 1 40 fok_buyer sample b' evs tick1 sample_wf Ha Hf Hp
      eq_refl E) as H.
    assert ((units (o_remaining fok_buyer) <=?
      reachable_qty fok_buyer (side_orders (opposite (o_side fok_buyer)) sample))%Z = true) as C
      by (vm_compute; reflexivity).
    rewrite C in H. exact H.
  - vm_compute in E. discriminate E.
Defined.

(** A post-only order never trades: it is either rejected, leaving the book
    untouched, or rests with its whole quantity and nothing else changes. *)
Theorem post_only_never_takes {D} {dops : DecimalOps D} {dlaws : DecimalLaws D}
    t n taker (b b' : OrderBook D) evs :
  valid_tick t -> book_wf t [] b -> admissible t taker b ->
  o_order_type taker = PostOnly -> match_order n taker b = Some (b', evs) ->
  (b' = b /\ evs = [EvCancelled (o_id taker) PostOnlyCrossed]) \/
  (b' = insert_maker taker b /\ evs = [EvRested (o_id taker) (o_remaining taker)]).
Proof.
  intros _ _ [Hok _]. by apply (post_only_cases t).
Qed.

Definition poster : Order Z := order 9 19 Buy PostOnly (Some 9) 4.

Lemma post_only_never_takes_witness :
  let b' := submit 40 poster sample in
  (b' = sample /\ [EvRested 9%N 4] = [EvCancelled (o_id poster) PostOnlyCrossed]) \/
  (b' = insert_maker poster sample /\ [EvRested 9%N 4] = [EvRested (o_id poster) (o_remaining poster)]).
Proof.
  apply (post_only_never_takes 1 40 poster sample).
  - exact tick1.
  - exact sample_wf.
  - apply admissibleb_ok. vm_compute. reflexivity.
  - reflexivity.
  - vm_compute. reflexivity.
Defined.

(** Market, immediate-or-cancel and fill-or-kill orders never rest: after the
    submission their id is nowhere in the book. *)
Theorem immediate_never_rests {D} {dops : DecimalOps D} {dlaws : DecimalLaws D}
    t n taker (b b' : OrderBook D) evs :
  valid_tick t -> book_wf t [] b -> admissible t taker b ->
  o_order_type taker = Market \/ o_order_type taker = Ioc \/ o_order_type taker = Fok ->
  match_order n taker b = Some (b', evs) -> o_id taker ∉ book_ids b'.
Proof.
  intros Ht Hwf Had Hty Hm. pose proof (admissible_wf t taker b Hwf Had) as Hwf1.
  assert (is_stop (o_order_type taker) = false /\ rests (o_order_type taker) = false)
    as [Hst Hre] by (by destruct Hty as [-> | [-> | ->]]).
  destruct (pre_check taker b) as [e|] eqn:Hpc.
  { unfold match_order in Hm. rewrite Hpc in Hm. injection Hm as <- <-. apply Had. }
  destruct (match_order_first_run n taker b b' evs Hpc Hst Hm)
    as (b1 & e1 & trig & n' & Hrun & Hwork).
  apply (run_keeps_out t []) in Hrun as [Hwf2 Hq _ _]; [|done|done|apply Had|done].
  unfold kept_out in Hwf2. rewrite Hre in Hwf2. simpl in Hwf2.
  apply (work_loop_ok t [o_id taker]) in Hwork as [Hwf' _]; [|done..].
  pose proof (wf_nodup t _ b' Hwf') as Hn. simpl in Hn. by apply NoDup_cons in Hn as [? _].
Qed.

Definition market_buyer : Order Z := order 9 19 Buy Market None 40.

Lemma immediate_never_rests_witness : 9%N ∉ book_ids (submit 40 market_buyer sample).
Proof.
  apply (immediate_never_rests 1 40 market_buyer sample _
    (default [] (snd <$> match_order 40 market_buyer sample))).
  - exact tick1.
  - exact sample_wf.
  - apply admissibleb_ok. vm_compute. reflexivity.
  - left. reflexivity.
  - vm_compute. reflexivity.
Defined.

(** The trigger condition of a stop at trade price [p]. *)
Definition fires {D} {dops : DecimalOps D} (p : D) (o : Order D) : bool :=
  match o_stop_price o with
  | None => false
  | Some k => match o_side o with Buy => dleb k p | Sell => dleb p k end
  end.

Lemma bucket_filter_fires {D} {dops : DecimalOps D} {dlaws : DecimalLaws D}
    t s (p : D) (f : D -> bool) v (m : btree D (list (Order D))) :
  buckets_ok t s m -> (forall o k, stop_ok t s k o -> fires p o = f k) ->
  bucket_orders (filter (fun e => f e.1 = v) m) =
  filter (fun o => fires p o = v) (bucket_orders m).
Proof.
  intros [_ Hf] Hfire. induction Hf as [|[k q] m Hq _ IH]; [done|]. simpl in Hq.
  rewrite bucket_orders_cons, filter_app, <-IH. clear IH.
  assert (Forall (fun o => fires p o = f k) q) as Hall.
  { eapply Forall_impl; [exact Hq|]. intros o Ho. by eapply Hfire. }
  destruct (decide (f k = v)) as [He|Hne].
  - rewrite filter_cons_True by done. rewrite bucket_orders_cons. f_equal.
    induction Hall as [|o q Ho _ IH]; [done|]. inversion Hq.
    rewrite filter_cons_True by congruence. f_equal. by apply IH.
  - rewrite filter_cons_False by done.
    assert (filter (fun o => fires p o = v) q = []) as ->; [|done].
    clear Hq. induction Hall as [|o q Ho _ IH]; [done|].
    rewrite filter_cons_False by congruence. done.
Qed.

(** C6. A trade at price [p] triggers exactly the stops whose condition holds (buy stops
    at or below [p], sell stops at or above it): those leave the registry, converted,
    and all the others stay. *)
Theorem stop_triggering_exact {D} {dops : DecimalOps D} {dlaws : DecimalLaws D}
    t X p (b b' : OrderBook D) out :
  book_wf t X b -> check_stop_triggers p b = (out, b') ->
  out ≡ₚ convert_stop <$> filter (fun o => fires p o = true) (stop_orders (stops b)) /\
  stop_orders (stops b') ≡ₚ filter (fun o => fires p o = false) (stop_orders (stops b)) /\
  Forall (fun o => is_stop (o_order_type o) = false) out /\
  book_orders b' = book_orders b.
Proof.
  intros Hwf. unfold check_stop_triggers. destruct (drain_triggered p (stops b)) as [o r] eqn:Hd.
  intros [= <- <-]. pose proof (wf_stops t X b Hwf) as [Hb Hs].
  pose proof Hd as Hd'. rewrite drain_triggered_eq in Hd' by (apply Hb || apply Hs).
  assert (forall o k, stop_ok t Buy k o -> fires p o = dleb k p) as Hfb.
  { intros x k (_ & Hsd & Hk & _). unfold fires. by rewrite Hk, Hsd. }
  assert (forall o k, stop_ok t Sell k o -> fires p o = dleb p k) as Hfs.
  { intros x k (_ & Hsd & Hk & _). unfold fires. by rewrite Hk, Hsd. }
  unfold stop_orders. rewrite !filter_app.
  rewrite <-!(bucket_filter_fires t Buy p (fun k => dleb k p) _ (buy_stops (stops b))) by done.
  rewrite <-!(bucket_filter_fires t Sell p (fun k => dleb p k) _ (sell_stops (stops b))) by done.
  rewrite fmap_app. injection Hd' as <- <-. simpl. split_and!; [done|done| |done].
  apply Forall_app. rewrite !Forall_fmap, !Forall_forall. split; intros x Hx.
  - apply (filter_bucket_in t Buy (fun k => dleb k p)) in Hx as [Hx _]; [|done].
    destruct (buckets_ok_in t Buy _ x Hb Hx) as [k Hk]. by eapply convert_stop_ok.
  - apply (filter_bucket_in t Sell (fun k => dleb p k)) in Hx as [Hx _]; [|done].
    destruct (buckets_ok_in t Sell _ x Hs Hx) as [k Hk]. by eapply convert_stop_ok.
Qed.

Lemma stop_triggering_exact_witness :
  let r := check_stop_triggers 10 sample in
  fst r ≡ₚ convert_stop <$> filter (fun o => fires 10 o = true) (stop_orders (stops sample)) /\
  stop_orders (stops (snd r)) ≡ₚ filter (fun o => fires 10 o = false) (stop_orders (stops sample)) /\
  Forall (fun o => is_stop (o_order_type o) = false) (fst r) /\
  book_orders (snd r) = book_orders sample.
Proof.
  apply (stop_triggering_exact 1 [] 10 sample).
  - exact sample_wf.
  - apply surjective_pairing.
Defined.

(** Cancelling removes the order and, if it has one, its OCO partner, from the book
    or the stop registry, and nothing else; a cancellation is reported for exactly the
    orders that were there. *)
Theorem cancel_order_exact {D} {dops : DecimalOps D} {dlaws : DecimalLaws D}
    t id (b b' : OrderBook D) evs :
  book_wf t [] b -> cancel_order id b = (b', evs) ->
  let gone := id :: match oco_links b !! id with Some l => [l] | None => [] end in
  book_wf t [] b' /\
  (forall o, o ∈ all_orders b' <-> o ∈ all_orders b /\ o_id o ∉ gone) /\
  (forall x, (exists r, EvCancelled x r ∈ evs) <-> x ∈ gone /\ x ∈ book_ids b).
Proof.
  apply cancel_order_effects.
Qed.

Lemma cancel_order_exact_witness :
  let r := cancel_order 2 (register_oco 2 5 sample) in
  book_wf 1 [] (fst r) /\
  (forall o, o ∈ all_orders (fst r) <->
     o ∈ all_orders (register_oco 2 5 sample) /\ o_id o ∉ [2%N; 5%N]) /\
  (forall x, (exists r', EvCancelled x r' ∈ snd r) <->
     x ∈ [2%N; 5%N] /\ x ∈ book_ids (register_oco 2 5 sample)).
Proof.
  apply (cancel_order_exact 1 2 (register_oco 2 5 sample)).
  - apply set_oco_wf. exact sample_wf.
  - apply surjective_pairing.
Defined.

(** Loading a snapshot loses nothing: cloning a well-formed book drops its index,
    and rebuilding the index gives the book back. *)
Theorem rebuild_index_restores {D} {dops : DecimalOps D} {dlaws : DecimalLaws D}
    t X (b : OrderBook D) :
  book_wf t X b -> rebuild_index (book_clone b) = b.
Proof.
  intros Hwf. unfold rebuild_index. simpl. rewrite !index_side_fold, <-fold_left_app.
  rewrite fold_insert_map.
  - fold (index_entries b). rewrite <-(wf_index t X b Hwf). by destruct b.
  - fold (index_entries b). rewrite index_entries_ids. by eapply wf_book_nodup.
Qed.

Lemma rebuild_index_restores_witness : rebuild_index (book_clone sample) = sample.
Proof. apply (rebuild_index_restores 1 []). exact sample_wf. Defined.

(** The published depth is the book: the best [n] levels of each side, best first,
    each with the total quantity resting at its price, and no level is filtered out. *)
Theorem depth_levels_aggregate {D} {dops : DecimalOps D} {dlaws : DecimalLaws D}
    t X n (b : OrderBook D) :
  valid_tick t -> book_wf t X b -> fits t b ->
  Forall2 (fun d e => d.1 = e.1 /\ units d.2 = qty e.2)
    (d_bids (depth_levels n b)) (take n (rev (bids b))) /\
  Forall2 (fun d e => d.1 = e.1 /\ units d.2 = qty e.2)
    (d_asks (depth_levels n b)) (take n (asks b)) /\
  (forall x, best_bid b = Some x -> (0 < n)%nat -> head (d_bids (depth_levels n b)).*1 = Some x) /\
  (forall x, best_ask b = Some x -> (0 < n)%nat -> head (d_asks (depth_levels n b)).*1 = Some x).
Proof.
  intros Ht Hwf Hfit.
  assert (forall l1 (l2 : btree D (list (Order D))),
    Forall2 (fun d e => d.1 = e.1 /\ units d.2 = qty e.2) l1 l2 -> l1.*1 = l2.*1) as Hk.
  { induction 1 as [|d e l1 l2 [Hd _] _ IH]; csimpl; [done|]. by rewrite Hd, IH. }
  pose proof (depth_side_spec t X b n (rev (bids b)) Buy Ht Hwf Hfit) as Hb.
  pose proof (depth_side_spec t X b n (asks b) Sell Ht Hwf Hfit (reflexivity _)) as Hs.
  specialize (Hb (symmetry (Permutation_rev (bids b)))). unfold depth_levels. simpl.
  split_and!; [done|done|..]; intros x Hx Hn; destruct n as [|n]; try lia.
  - rewrite (Hk _ _ Hb). apply bt_last_Some in Hx as (v & m & ->). by rewrite rev_app_distr.
  - rewrite (Hk _ _ Hs). apply bt_first_Some in Hx as (v & m & ->); [done|].
    by apply (wf_sorted t X b Sell).
Qed.

Lemma depth_levels_aggregate_witness :
  let d := depth_levels 2 sample in
  Forall2 (fun d e => d.1 = e.1 /\ units d.2 = qty e.2) (d_bids d) (take 2 (rev (bids sample))) /\
  Forall2 (fun d e => d.1 = e.1 /\ units d.2 = qty e.2) (d_asks d) (take 2 (asks sample)) /\
  (forall x, best_bid sample = Some x -> (0 < 2)%nat -> head (d_bids d).*1 = Some x) /\
  (forall x, best_ask sample = Some x -> (0 < 2)%nat -> head (d_asks d).*1 = Some x).
Proof.
  apply (depth_levels_aggregate 1 [] 2 sample).
  - exact tick1.
  - exact sample_wf.
  - apply fits_dec. vm_compute. reflexivity.
Defined.
