(* ===== verification/Bytes.v ===== *)
(** * Bytes: byte strings, [u32] prefixes, codecs and buffered files

    What the log and framing code uses of the standard library: [u32::to_le_bytes] and
    its relatives, [Read::read_exact] on a byte stream, and [BufWriter<File>] with its
    8 KiB buffer.  A physical write may be cut short: [bf_quota] lists how many bytes
    the next physical writes accept (all of them when it is empty).

    Serialisation libraries (bincode, serde_json) are parameters: [Codec] names the two
    functions, [CodecLaws] that reading back what was written gives the value. *)
From Stdlib Require Import Strings.Byte.
From S2P Require Import Prelude.

Abbreviation bytes := (list byte).

#[export] Instance byte_eq_dec : EqDecision byte := Byte.byte_eq_dec.

Definition byte_of (z : Z) : byte := default x00 (Byte.of_N (Z.to_N (z mod 256))).
Definition z_of (b : byte) : Z := Z.of_N (Byte.to_N b).

Lemma z_of_range b : 0 <= z_of b < 256.
Proof. unfold z_of. pose proof (Byte.to_N_bounded b). lia. Qed.

Lemma byte_of_z b : byte_of (z_of b) = b.
Proof.
  unfold byte_of. rewrite Z.mod_small by apply z_of_range. unfold z_of.
  rewrite N2Z.id. by rewrite Byte.of_to_N.
Qed.

Lemma z_of_byte z : z_of (byte_of z) = z mod 256.
Proof.
  unfold byte_of, z_of. pose proof (Z.mod_pos_bound z 256 ltac:(lia)).
  destruct (Byte.of_N (Z.to_N (z mod 256))) as [b|] eqn:E; simpl.
  - apply Byte.to_of_N in E. rewrite E. lia.
  - apply Byte.of_N_None_iff in E. lia.
Qed.

Definition u32_to_le_bytes (n : Z) : bytes :=
  [byte_of n; byte_of (n / 2 ^ 8); byte_of (n / 2 ^ 16); byte_of (n / 2 ^ 24)].
Definition u32_to_be_bytes (n : Z) : bytes := rev (u32_to_le_bytes n).

Definition u32_from_le_bytes (l : bytes) : Z :=
  foldr (fun b acc => z_of b + 2 ^ 8 * acc) 0 l.
Definition u32_from_be_bytes (l : bytes) : Z := u32_from_le_bytes (rev l).

Lemma u32_le_roundtrip n : 0 <= n < 2 ^ 32 -> u32_from_le_bytes (u32_to_le_bytes n) = n.
Proof.
  intros Hn. unfold u32_from_le_bytes, u32_to_le_bytes. simpl. rewrite !z_of_byte.
  change (2 ^ 8) with 256. change (2 ^ 16) with 65536. change (2 ^ 24) with 16777216.
  change (2 ^ 32) with 4294967296 in Hn. Z.div_mod_to_equations. lia.
Qed.

Lemma u32_be_roundtrip n : 0 <= n < 2 ^ 32 -> u32_from_be_bytes (u32_to_be_bytes n) = n.
Proof.
  intros. unfold u32_from_be_bytes, u32_to_be_bytes.
  rewrite rev_involutive. by apply u32_le_roundtrip.
Qed.

(** [u32::try_from(len)]. *)
Definition u32_try_from (n : nat) : option Z :=
  if (Z.of_nat n <=? U32_MAX)%Z then Some (Z.of_nat n) else None.

(** ** Codecs *)

Class Codec (A : Type) := {
  encode : A -> option bytes;
  decode : bytes -> option A;
}.

Class CodecLaws (A : Type) {c : Codec A} := {
  decode_encode a bs : encode a = Some bs -> decode bs = Some a;
}.

(** ** Reading *)

(** [Read::read_exact]: [None] is [UnexpectedEof]. *)
Definition read_exact (n : nat) (stream : bytes) : option (bytes * bytes) :=
  if (length stream <? n)%nat then None else Some (take n stream, drop n stream).

Lemma read_exact_app n l r : length l = n -> read_exact n (l ++ r) = Some (l, r).
Proof.
  intros <-. unfold read_exact. rewrite length_app.
  destruct (Nat.ltb_spec (length l + length r) (length l)); [lia|].
  by rewrite take_app_length, drop_app_length.
Qed.

Lemma read_exact_short n l : (length l < n)%nat -> read_exact n l = None.
Proof. intros H. unfold read_exact. by rewrite (proj2 (Nat.ltb_lt _ _)). Qed.

(** ** [BufWriter<File>] *)

Inductive IoError := IoWrite | IoEof | IoInvalidData | IoTooLong | IoNotFound.

Definition BUF_CAPACITY : nat := Z.to_nat 8192.

Lemma BUF_CAPACITY_pos : (0 < BUF_CAPACITY)%nat.
Proof. unfold BUF_CAPACITY. lia. Qed.

#[global] Opaque BUF_CAPACITY.

Record BufFile := mkBuf { bf_disk : bytes; bf_buf : bytes; bf_quota : list nat }.

(** [File::write_all]: the file, what was not written, and whether all of it was. *)
Definition dev_write (data : bytes) (disk : bytes) (quota : list nat) :
    bytes * list nat * bytes * bool :=
  match quota with
  | [] => (disk ++ data, [], [], true)
  | q :: quota =>
      if (length data <=? q)%nat then (disk ++ data, quota, [], true)
      else (disk ++ take q data, quota, drop q data, false)
  end.

(** [BufWriter::flush_buf]: what could not be written stays in the buffer. *)
Definition flush_buf (f : BufFile) : BufFile * result IoError unit :=
  match bf_buf f with
  | [] => (f, Ok tt)
  | _ =>
      let '(disk, quota, rest, ok) := dev_write (bf_buf f) (bf_disk f) (bf_quota f) in
      (mkBuf disk rest quota, if ok then Ok tt else Err IoWrite)
  end.

Definition buf_push (data : bytes) (f : BufFile) : BufFile :=
  mkBuf (bf_disk f) (bf_buf f ++ data) (bf_quota f).

(** [BufWriter::write_all], its cold path included. *)
Definition buf_write_all (data : bytes) (f : BufFile) : BufFile * result IoError unit :=
  let spare f := (BUF_CAPACITY - length (bf_buf f))%nat in
  if (length data <? spare f)%nat then (buf_push data f, Ok tt)
  else
    let (f, r) := if (spare f <? length data)%nat then flush_buf f else (f, Ok tt) in
    match r with
    | Err e => (f, Err e)
    | Ok _ =>
        if (BUF_CAPACITY <=? length data)%nat then
          let '(disk, quota, _, ok) := dev_write data (bf_disk f) (bf_quota f) in
          (mkBuf disk (bf_buf f) quota, if ok then Ok tt else Err IoWrite)
        else (buf_push data f, Ok tt)
    end.

(** What has been handed to the file, on disk or still buffered. *)
Definition bf_all (f : BufFile) : bytes := bf_disk f ++ bf_buf f.

Lemma dev_write_ok data disk quota disk' quota' rest :
  dev_write data disk quota = (disk', quota', rest, true) ->
  disk' = disk ++ data /\ rest = [].
Proof. unfold dev_write. intros H. split_match_in H. Qed.

Lemma dev_write_all data disk quota disk' quota' rest ok :
  dev_write data disk quota = (disk', quota', rest, ok) -> disk' ++ rest = disk ++ data.
Proof.
  unfold dev_write. intros H. split_match_in H; rewrite ?app_nil_r; [done|done|].
  by rewrite <-(assoc (++)), take_drop.
Qed.

Lemma flush_buf_all f f' r : flush_buf f = (f', r) -> bf_all f' = bf_all f.
Proof.
  unfold flush_buf, bf_all. destruct (bf_buf f) eqn:Hb; [intros [= <- _]; by rewrite Hb|].
  rewrite <-Hb.
  destruct (dev_write _ _ _) as [[[disk quota] rest] ok] eqn:Hd. intros [= <- _]. simpl.
  by eapply dev_write_all.
Qed.

Lemma flush_buf_ok f f' u : flush_buf f = (f', Ok u) -> bf_disk f' = bf_all f /\ bf_buf f' = [].
Proof.
  unfold flush_buf, bf_all.
  destruct (bf_buf f) eqn:Hb; [intros [= <- _]; by rewrite Hb, app_nil_r|]. rewrite <-Hb.
  destruct (dev_write _ _ _) as [[[disk quota] rest] ok] eqn:Hd. destruct ok; [|done].
  intros [= <-]. simpl. by apply dev_write_ok in Hd.
Qed.

Lemma buf_write_all_ok data f f' u :
  buf_write_all data f = (f', Ok u) -> bf_all f' = bf_all f ++ data.
Proof.
  unfold buf_write_all. destruct (_ <? _)%nat.
  { intros [= <-]. unfold bf_all. simpl. by rewrite (assoc (++)). }
  destruct (_ <? length data)%nat eqn:Hs.
  - destruct (flush_buf f) as [f1 [v|e]] eqn:Hf; [|done].
    pose proof (flush_buf_all _ _ _ Hf) as Ha. apply flush_buf_ok in Hf as [Hd Hb].
    destruct (_ <=? _)%nat.
    + destruct (dev_write _ _ _) as [[[disk quota] rest] ok] eqn:Hw. destruct ok; [|done].
      intros [= <-]. apply dev_write_ok in Hw as [-> _]. unfold bf_all at 1. simpl.
      by rewrite Hb, Hd, app_nil_r.
    + intros [= <-]. rewrite <-Ha. unfold bf_all. simpl. by rewrite (assoc (++)).
  - destruct (BUF_CAPACITY <=? length data)%nat eqn:Hc.
    + destruct (dev_write _ _ _) as [[[disk quota] rest] ok] eqn:Hw. destruct ok; [|done].
      intros [= <-]. apply dev_write_ok in Hw as [-> _]. unfold bf_all. simpl.
      assert (bf_buf f = []) as ->; [|by rewrite !app_nil_r].
      apply Nat.leb_le in Hc. apply Nat.ltb_ge in Hs. destruct (bf_buf f); [done|].
      pose proof BUF_CAPACITY_pos. simpl in Hs. lia.
    + intros [= <-]. unfold bf_all. simpl. by rewrite (assoc (++)).
Qed.

(** Small writes are never lost: what a failed call could not write stays buffered. *)
Lemma buf_write_all_small data f f' r :
  (length data < BUF_CAPACITY)%nat -> buf_write_all data f = (f', r) ->
  bf_all f' = bf_all f ++ match r with Ok _ => data | Err _ => [] end.
Proof.
  intros Hlen. unfold buf_write_all.
  rewrite (proj2 (Nat.leb_gt BUF_CAPACITY (length data))) by done.
  assert (forall g, bf_all (buf_push data g) = bf_all g ++ data) as Hpush.
  { intros g. unfold bf_all. simpl. by rewrite (assoc (++)). }
  destruct (_ <? _)%nat; [intros [= <- <-]; apply Hpush|].
  destruct (_ <? _)%nat; [|intros [= <- <-]; apply Hpush].
  destruct (flush_buf f) as [f1 [v|e]] eqn:Hf; pose proof (flush_buf_all _ _ _ Hf) as <-.
  - intros [= <- <-]. apply Hpush.
  - intros [= <- <-]. by rewrite app_nil_r.
Qed.
