(* ===== verification/RecordLog.v ===== *)
(** * RecordLog: length-prefixed record files

    The reading loop the command log ([wal.rs]) and the event log ([event_log.rs]) have
    in common: records of a four-byte length and a payload, read until the end of the
    file or the first record that cannot be read, where the file is cut.  The two logs
    differ in the byte order of the length and in the codec, which are parameters. *)
From S2P Require Import Prelude Bytes.

(** The result of reading one record: clean end of file, an error, or a record. *)
Inductive ReadOne (A : Type) := ROEof | ROErr (e : IoError) | ROEntry (a : A) (rest : bytes).
Arguments ROEof {A}.
Arguments ROErr {A} _.
Arguments ROEntry {A} _ _.

Section RecordLog.
Context {A : Type} {codec : Codec A} (get_u32 : bytes -> Z) (put_u32 : Z -> bytes).

Definition read_record (stream : bytes) : ReadOne A :=
  match read_exact 4 stream with
  | None => ROEof
  | Some (len_buf, rest) =>
      match read_exact (Z.to_nat (get_u32 len_buf)) rest with
      | None => ROErr IoEof
      | Some (payload, rest) =>
          match decode payload with
          | None => ROErr IoInvalidData
          | Some a => ROEntry a rest
          end
      end
  end.

(** The loop of [replay] from position [pos]: the entries, and where to cut the file
    if it has to be. *)
Fixpoint replay_loop (fuel : nat) (stream : bytes) (pos : nat) (entries : list A) :
    option (list A * option nat) :=
  match fuel with
  | O => None
  | S fuel =>
      match read_record stream with
      | ROEntry a rest =>
          replay_loop fuel rest (pos + (length stream - length rest))%nat (entries ++ [a])
      | ROEof => Some (entries, None)
      | ROErr _ => Some (entries, Some pos)
      end
  end.

(** [replay] on the contents of the file ([None]: no such file), with fuel for every
    record it can hold: the entries and the contents afterwards. *)
Definition replay_file (file : option bytes) : option (list A * option bytes) :=
  match file with
  | None => Some ([], None)
  | Some stream =>
      match replay_loop (S (length stream)) stream 0 [] with
      | None => None
      | Some (entries, None) => Some (entries, Some stream)
      | Some (entries, Some good) => Some (entries, Some (take good stream))
      end
  end.

Definition frame (a : A) : option bytes :=
  match encode a with
  | None => None
  | Some bs =>
      match u32_try_from (length bs) with
      | None => None
      | Some len => Some (put_u32 len ++ bs)
      end
  end.

Fixpoint frames (l : list A) : option bytes :=
  match l with
  | [] => Some []
  | a :: l =>
      match frame a, frames l with
      | Some x, Some y => Some (x ++ y)
      | _, _ => None
      end
  end.

Hypothesis put_length : forall n, length (put_u32 n) = 4%nat.
Hypothesis get_put : forall n, 0 <= n < 2 ^ 32 -> get_u32 (put_u32 n) = n.
Context {claws : CodecLaws A}.

Lemma frame_inv a fr :
  frame a = Some fr ->
  exists bs, encode a = Some bs /\ fr = put_u32 (Z.of_nat (length bs)) ++ bs /\
    get_u32 (put_u32 (Z.of_nat (length bs))) = Z.of_nat (length bs).
Proof.
  unfold frame. destruct (encode a) as [bs|] eqn:He; [|done].
  unfold u32_try_from. destruct (Z.leb_spec (Z.of_nat (length bs)) U32_MAX); [|done].
  intros [= <-]. exists bs. split_and!; [done|done|]. apply get_put. unfold U32_MAX in *. lia.
Qed.

Lemma frame_pos a fr : frame a = Some fr -> (4 <= length fr)%nat.
Proof. intros (bs & _ & -> & _)%frame_inv. rewrite length_app, put_length. lia. Qed.

Lemma read_frame a fr rest : frame a = Some fr -> read_record (fr ++ rest) = ROEntry a rest.
Proof.
  intros (bs & He & -> & Hg)%frame_inv. unfold read_record. rewrite <-(assoc (++)).
  rewrite read_exact_app by apply put_length. rewrite Hg, Nat2Z.id, read_exact_app by done.
  by rewrite (decode_encode a bs He).
Qed.

(** A record cut short is an end of file if not even its length is whole, an error
    otherwise. *)
Lemma read_torn a fr n :
  frame a = Some fr -> (n < length fr)%nat ->
  read_record (take n fr) = if (n <? 4)%nat then ROEof else ROErr IoEof.
Proof.
  intros (bs & He & -> & Hg)%frame_inv Hn. rewrite length_app, put_length in Hn.
  unfold read_record. destruct (Nat.ltb_spec n 4).
  - rewrite read_exact_short; [done|]. rewrite length_take. lia.
  - rewrite take_app, put_length.
    rewrite (take_ge (put_u32 _)) by (rewrite put_length; lia).
    rewrite read_exact_app by apply put_length. rewrite Hg, Nat2Z.id.
    rewrite read_exact_short; [done|]. rewrite length_take. lia.
Qed.

Lemma replay_loop_frames l bs tail fuel pos acc :
  frames l = Some bs -> (length l < fuel)%nat ->
  replay_loop fuel (bs ++ tail) pos acc =
  replay_loop (fuel - length l) tail (pos + length bs) (acc ++ l).
Proof.
  revert bs fuel pos acc. induction l as [|a l IH]; intros bs fuel pos acc; simpl.
  { intros [= <-] _. by rewrite Nat.sub_0_r, Nat.add_0_r, app_nil_r. }
  destruct (frame a) as [x|] eqn:Hx; [|done]. destruct (frames l) as [y|]; [|done].
  intros [= <-] Hf. destruct fuel as [|fuel]; [lia|]. simpl.
  rewrite <-(assoc (++)), (read_frame a x) by done.
  rewrite (IH y) by (done || lia). f_equal.
  - rewrite !length_app. lia.
  - by rewrite <-(assoc (++)).
Qed.

Lemma frames_length l bs : frames l = Some bs -> (length l <= length bs)%nat.
Proof.
  revert bs. induction l as [|a l IH]; intros bs; simpl; [lia|].
  destruct (frame a) as [x|] eqn:Hx; [|done]. destruct (frames l) as [y|]; [|done].
  intros [= <-]. specialize (IH y eq_refl). apply frame_pos in Hx. rewrite length_app. lia.
Qed.

Lemma frames_app l1 l2 bs1 bs2 :
  frames l1 = Some bs1 -> frames l2 = Some bs2 -> frames (l1 ++ l2) = Some (bs1 ++ bs2).
Proof.
  revert bs1. induction l1 as [|a l1 IH]; intros bs1; simpl; [by intros [= <-] ->|].
  destruct (frame a) as [x|]; [|done]. destruct (frames l1) as [y|]; [|done].
  intros [= <-] H2. rewrite (IH y eq_refl H2). by rewrite (assoc (++)).
Qed.

Lemma frames_snoc l a bs fr :
  frames l = Some bs -> frame a = Some fr -> frames (l ++ [a]) = Some (bs ++ fr).
Proof.
  intros Hl Ha. apply frames_app; [done|]. simpl. rewrite Ha. by rewrite app_nil_r.
Qed.

(** What was written is what is read. *)
Lemma replay_frames l bs :
  frames l = Some bs -> replay_file (Some bs) = Some (l, Some bs).
Proof.
  intros Hf. unfold replay_file. pose proof (frames_length l bs Hf).
  rewrite <-(app_nil_r bs) at 2.
  rewrite (replay_loop_frames l bs [] _ 0 [] Hf) by lia.
  destruct (S (length bs) - length l)%nat eqn:E; [lia|]. done.
Qed.

(** A torn last record disappears, and the file is cut back to the whole ones unless
    fewer than four bytes of it were written. *)
Lemma replay_torn l bs a fr n :
  frames l = Some bs -> frame a = Some fr -> (n < length fr)%nat ->
  replay_file (Some (bs ++ take n fr)) =
  Some (l, Some (if (n <? 4)%nat then bs ++ take n fr else bs)).
Proof.
  intros Hf Hfr Hn. unfold replay_file. pose proof (frames_length l bs Hf).
  rewrite (replay_loop_frames l bs _ _ 0 [] Hf) by (rewrite length_app; lia).
  destruct (S (length (bs ++ take n fr)) - length l)%nat eqn:E.
  { rewrite length_app in E. lia. }
  simpl. rewrite (read_torn a fr n Hfr Hn). destruct (n <? 4)%nat; [done|].
  by rewrite take_app_length.
Qed.

Lemma read_record_shorter stream a rest :
  read_record stream = ROEntry a rest -> (length rest < length stream)%nat.
Proof.
  unfold read_record, read_exact.
  destruct (Nat.ltb_spec (length stream) 4); [done|].
  destruct (_ <? _)%nat; [done|]. destruct (Bytes.decode _); [|done].
  intros [= _ <-]. rewrite !length_drop. lia.
Qed.

(** Reading ends on every file. *)
Lemma replay_file_total file : is_Some (replay_file file).
Proof.
  destruct file as [stream|]; simpl; [|eauto].
  assert (forall fuel s pos acc, (length s < fuel)%nat ->
    is_Some (replay_loop fuel s pos acc)) as Ht.
  { induction fuel as [|fuel IH]; intros s pos acc Hl; simpl; [lia|].
    destruct (read_record s) as [| |a rest] eqn:Hr; [eauto|eauto|].
    apply IH. apply read_record_shorter in Hr. lia. }
  destruct (Ht (S (length stream)) stream 0%nat []) as [[entries [good|]] Hr]; [lia|..];
    simpl in Hr; rewrite Hr; eauto.
Qed.
End RecordLog.
