(* ===== verification/Proto.v ===== *)
(** * Proto: the wire types of [engine/crates/proto/src/types.rs]

    Names the protocol shares with the core types carry a [W] (enums) or a field prefix
    here.  The JSON shapes serde derives for them are not modelled. *)
From S2P Require Import Prelude.

Inductive OrderSide := WBuy | WSell.
Inductive EngineOrderType :=
  WLimit | WMarket | WIoc | WFok | WPostOnly | WStopLimit | WStopMarket | WOco | WIceberg.
Inductive WStpMode := WDecrement | WCancelMaker | WCancelTaker.
Inductive OrderStatus := StNew | StPartial | StFilled | StCanceled | StRejected.
Inductive WCancelReason :=
  WNoLiquidity | WFokUnfilled | WPostOnlyCrossed | WSelfTradePrevented | WOcoLinked
| WAdminCancel.
Inductive MarketStatus := Trading | Halted.

#[export] Instance EngineOrderType_eq_dec : EqDecision EngineOrderType.
Proof. solve_decision. Defined.
#[export] Instance OrderStatus_eq_dec : EqDecision OrderStatus.
Proof. solve_decision. Defined.

Section Proto.
Context (D : Type).

Record EngineOrder := mkEngineOrder {
  eo_id : Uuid;
  eo_user_id : Uuid;
  eo_symbol : string;
  eo_side : OrderSide;
  eo_order_type : EngineOrderType;
  eo_price : option D;
  eo_quantity : D;
  eo_stp_mode : WStpMode;
  eo_stop_price : option D;
  eo_oco_linked_id : option Uuid;
  eo_display_qty : option D;
}.

Definition PriceLevel : Type := D * D.

Record PlaceRequest := mkPlace { pr_request_id : Uuid; pr_order : EngineOrder }.
Record CancelRequest := mkCancel {
  cr_request_id : Uuid; cr_symbol : string; cr_order_id : Uuid }.
Record CancelAllRequest := mkCancelAll {
  ca_request_id : Uuid; ca_user_id : Uuid; ca_symbol : option string }.
Record MarketControlRequest := mkControl { mc_request_id : Uuid; mc_symbol : string }.
Record SnapshotRequest := mkSnapshotReq {
  sr_request_id : Uuid; sr_symbol : string; sr_depth : nat }.
Record PingRequest := mkPing { pg_request_id : Uuid }.

Inductive EngineRequest :=
| ReqPlace (r : PlaceRequest)
| ReqCancel (r : CancelRequest)
| ReqCancelAll (r : CancelAllRequest)
| ReqHaltMarket (r : MarketControlRequest)
| ReqResumeMarket (r : MarketControlRequest)
| ReqSnapshot (r : SnapshotRequest)
| ReqPing (r : PingRequest).

Record TradeFill := mkTradeFill {
  tf_trade_id : Uuid;
  tf_symbol : string;
  tf_taker_order_id : Uuid;
  tf_maker_order_id : Uuid;
  tf_price : D;
  tf_quantity : D;
  tf_taker_side : OrderSide;
  tf_ts : string;
}.

Record BookDeltaEvent := mkDelta {
  bd_symbol : string; bd_bids : list PriceLevel; bd_asks : list PriceLevel }.

(** The broadcast events ([EngineEvent] of the protocol), payload structs inlined. *)
Inductive WireEvent :=
| WeOrderAccepted (order : EngineOrder)
| WeOrderRested (order_id : Uuid) (remaining : D)
| WeFill (fill : TradeFill)
| WeOrderCanceled (order_id : Uuid) (reason : WCancelReason)
| WeBookDelta (delta : BookDeltaEvent)
| WeMarketStatus (symbol : string) (status : MarketStatus).

Record SequencedEngineEvent := mkSequenced { se_seq : Z; se_event : WireEvent }.

Record OrderAck := mkOrderAck {
  oa_order_id : Uuid; oa_status : OrderStatus; oa_fills : list TradeFill; oa_seq : Z }.
Record CancelAck := mkCancelAck { ck_order_id : Uuid; ck_status : OrderStatus; ck_seq : Z }.
Record CancelAllAck := mkCancelAllAck { ak_order_ids : list Uuid; ak_seq : Z }.
Record BookSnapshot := mkSnapshot {
  bs_symbol : string; bs_bids : list PriceLevel; bs_asks : list PriceLevel; bs_seq : Z }.
Record MarketStatusAck := mkStatusAck {
  ms_symbol : string; ms_status : MarketStatus; ms_seq : Z }.

Inductive AckResult :=
| AckOrder (a : OrderAck)
| AckCancel (a : CancelAck)
| AckCancelAll (a : CancelAllAck)
| AckSnapshot (a : BookSnapshot)
| AckMarketStatus (a : MarketStatusAck).

Record RejectResponse := mkReject {
  rj_request_id : Uuid; rj_code : string; rj_message : string }.

Inductive EngineResponse :=
| RespAck (request_id : Uuid) (result : AckResult)
| RespReject (r : RejectResponse)
| RespEvent (e : SequencedEngineEvent)
| RespPong (request_id : Uuid).
End Proto.

Arguments mkEngineOrder {D}.
Arguments eo_id {D} _.
Arguments eo_user_id {D} _.
Arguments eo_symbol {D} _.
Arguments eo_side {D} _.
Arguments eo_order_type {D} _.
Arguments eo_price {D} _.
Arguments eo_quantity {D} _.
Arguments eo_stp_mode {D} _.
Arguments eo_stop_price {D} _.
Arguments eo_oco_linked_id {D} _.
Arguments eo_display_qty {D} _.
Arguments mkPlace {D}.
Arguments pr_request_id {D} _.
Arguments pr_order {D} _.
Arguments ReqPlace {D} _.
Arguments ReqCancel {D} _.
Arguments ReqCancelAll {D} _.
Arguments ReqHaltMarket {D} _.
Arguments ReqResumeMarket {D} _.
Arguments ReqSnapshot {D} _.
Arguments ReqPing {D} _.
Arguments mkTradeFill {D}.
Arguments tf_trade_id {D} _.
Arguments tf_symbol {D} _.
Arguments tf_taker_order_id {D} _.
Arguments tf_maker_order_id {D} _.
Arguments tf_price {D} _.
Arguments tf_quantity {D} _.
Arguments tf_taker_side {D} _.
Arguments tf_ts {D} _.
Arguments mkDelta {D}.
Arguments bd_symbol {D} _.
Arguments bd_bids {D} _.
Arguments bd_asks {D} _.
Arguments WeOrderAccepted {D} _.
Arguments WeOrderRested {D} _ _.
Arguments WeFill {D} _.
Arguments WeOrderCanceled {D} _ _.
Arguments WeBookDelta {D} _.
Arguments WeMarketStatus {D} _ _.
Arguments mkSequenced {D}.
Arguments se_seq {D} _.
Arguments se_event {D} _.
Arguments mkOrderAck {D}.
Arguments oa_order_id {D} _.
Arguments oa_status {D} _.
Arguments oa_fills {D} _.
Arguments oa_seq {D} _.
Arguments mkSnapshot {D}.
Arguments bs_symbol {D} _.
Arguments bs_bids {D} _.
Arguments bs_asks {D} _.
Arguments bs_seq {D} _.
Arguments AckOrder {D} _.
Arguments AckCancel {D} _.
Arguments AckCancelAll {D} _.
Arguments AckSnapshot {D} _.
Arguments AckMarketStatus {D} _.
Arguments RespAck {D} _ _.
Arguments RespReject {D} _.
Arguments RespEvent {D} _.
Arguments RespPong {D} _.
