(* ===== verification/Wal.v ===== *)
(** * Wal: the command log of [engine/crates/core/src/wal.rs] and the event log of
    [engine/crates/server/src/event_log.rs]

    Both are [RecordLog] files behind a [BufWriter].  [CommandLog] is what the engine
    relies on: a successful append adds its command to what a replay returns. *)
From S2P Require Import Prelude Types Bytes RecordLog Proto.

Inductive WalCommand (D : Type) :=
| PlaceOrder (order : Order D)
| CancelOrder (order_id : Uuid).
Arguments PlaceOrder {D} _.
Arguments CancelOrder {D} _.

Record WalEntry (D : Type) := mkEntry { we_seq : Z; we_command : WalCommand D }.
Arguments mkEntry {D}.
Arguments we_seq {D} _.
Arguments we_command {D} _.

Record Wal := mkWal { w_file : BufFile; w_sequence : Z }.

Record EventLog := mkEventLog { el_file : BufFile; el_sequence : Z }.

(** The two [write_all]s of a record and the [flush]. *)
Definition write_record (len_bytes payload : bytes) (f : BufFile) :
    BufFile * result IoError unit :=
  let (f, r) := buf_write_all len_bytes f in
  match r with
  | Err e => (f, Err e)
  | Ok _ =>
      let (f, r) := buf_write_all payload f in
      match r with
      | Err e => (f, Err e)
      | Ok _ => flush_buf f
      end
  end.

Section CommandLogFile.
Context {D : Type} {codec : Codec (WalEntry D)}.

(** [read_one_entry]. *)
Definition read_one_entry (stream : bytes) : ReadOne (WalEntry D) :=
  read_record u32_from_le_bytes stream.

(** [Wal::replay]. *)
Definition wal_replay (file : option bytes) : option (list (WalEntry D) * option bytes) :=
  replay_file u32_from_le_bytes file.

Definition last_seq (entries : list (WalEntry D)) : Z :=
  match last entries with None => 0 | Some e => we_seq e end.

(** [Wal::open], with the quota of the device behind the file. *)
Definition wal_open (file : option bytes) (quota : list nat) : option Wal :=
  match wal_replay file with
  | None => None
  | Some (entries, file) =>
      Some (mkWal (mkBuf (default [] file) [] quota) (last_seq entries))
  end.

(** [Wal::append]; [self.sequence += 1] wraps as a release build does. *)
Definition wal_append (command : WalCommand D) (w : Wal) : Wal * result IoError unit :=
  let seq := (w_sequence w + 1) mod 2 ^ 64 in
  match encode (mkEntry seq command) with
  | None => (mkWal (w_file w) seq, Err IoInvalidData)
  | Some bs =>
      match u32_try_from (length bs) with
      | None => (mkWal (w_file w) seq, Err IoInvalidData)
      | Some len =>
          let (f, r) := write_record (u32_to_le_bytes len) bs (w_file w) in
          (mkWal f seq, r)
      end
  end.
End CommandLogFile.

Section EventLogFile.
Context {D : Type} {codec : Codec (SequencedEngineEvent D)}.

(** [read_one_event]. *)
Definition read_one_event (stream : bytes) : ReadOne (SequencedEngineEvent D) :=
  read_record u32_from_be_bytes stream.

(** [EventLog::replay]. *)
Definition event_replay (file : option bytes) :
    option (list (SequencedEngineEvent D) * option bytes) :=
  replay_file u32_from_be_bytes file.

(** [EventLog::open]. *)
Definition event_log_open (file : option bytes) (quota : list nat) : option EventLog :=
  match event_replay file with
  | None => None
  | Some (events, file) =>
      Some (mkEventLog (mkBuf (default [] file) [] quota)
              (match last events with None => 0 | Some e => se_seq e end))
  end.

(** [EventLog::append_next]. *)
Definition append_next (event : WireEvent D) (l : EventLog) :
    EventLog * result IoError (SequencedEngineEvent D) :=
  let sequenced := mkSequenced (u64_saturating_add (el_sequence l) 1) event in
  match encode sequenced with
  | None => (l, Err IoInvalidData)
  | Some payload =>
      match u32_try_from (length payload) with
      | None => (l, Err IoTooLong)
      | Some len =>
          let (f, r) := write_record (u32_to_be_bytes len) payload (el_file l) in
          match r with
          | Ok _ => (mkEventLog f (se_seq sequenced), Ok sequenced)
          | Err e => (mkEventLog f (el_sequence l), Err e)
          end
      end
  end.
End EventLogFile.

(** ** The interface the engine uses *)

(** A log of commands [C]: what a restart would read from it ([None]: nothing readable
    is guaranteed), and the append. *)
Class CommandLog (W C : Type) := {
  log_append : C -> W -> W * result IoError unit;
  log_contents : W -> option (list C);
}.

Class CommandLogLaws (W C : Type) {cl : CommandLog W C} := {
  log_append_ok c w w' u l :
    log_contents w = Some l -> log_append c w = (w', Ok u) -> log_contents w' = Some (l ++ [c]);
}.

(** ** Theory *)

Lemma write_record_ok len_bytes payload f f' u :
  write_record len_bytes payload f = (f', Ok u) ->
  bf_disk f' = bf_all f ++ len_bytes ++ payload /\ bf_buf f' = [].
Proof.
  unfold write_record. destruct (buf_write_all len_bytes f) as [f1 [u1|e]] eqn:H1; [|done].
  destruct (buf_write_all payload f1) as [f2 [u2|e]] eqn:H2; [|done]. intros H3.
  apply buf_write_all_ok in H1, H2. apply flush_buf_ok in H3 as [Hd Hb].
  rewrite Hd, H2, H1, <-(assoc (++)). done.
Qed.

Lemma u32_le_length n : length (u32_to_le_bytes n) = 4%nat.
Proof. done. Qed.
Lemma u32_be_length n : length (u32_to_be_bytes n) = 4%nat.
Proof. done. Qed.

Section WalTheory.
Context {D : Type} {codec : Codec (WalEntry D)} {claws : CodecLaws (WalEntry D)}.

Abbreviation wal_frame := (frame (A := WalEntry D) u32_to_le_bytes).
Abbreviation wal_frames := (frames (A := WalEntry D) u32_to_le_bytes).

(** Nothing is buffered and the file is exactly the records of [l]. *)
Definition wal_holds (w : Wal) (l : list (WalEntry D)) : Prop :=
  bf_buf (w_file w) = [] /\ wal_frames l = Some (bf_disk (w_file w)).

Lemma wal_append_ok command w w' u l :
  wal_holds w l -> wal_append command w = (w', Ok u) ->
  wal_holds w' (l ++ [mkEntry ((w_sequence w + 1) mod 2 ^ 64) command]) /\
  w_sequence w' = (w_sequence w + 1) mod 2 ^ 64.
Proof.
  intros [Hbuf Hl]. unfold wal_append.
  destruct (encode _) as [bs|] eqn:He; [|done].
  destruct (u32_try_from (length bs)) as [len|] eqn:Hlen; [|done].
  destruct (write_record _ bs _) as [f r] eqn:Hw. intros [= <- ->].
  apply write_record_ok in Hw as [Hd Hb]. split; [|done]. split; [done|]. simpl.
  rewrite Hd. unfold bf_all. rewrite Hbuf, app_nil_r.
  apply frames_snoc; [done|]. unfold frame. by rewrite He, Hlen.
Qed.

Lemma wal_replay_holds w l :
  wal_holds w l ->
  wal_replay (Some (bf_disk (w_file w))) = Some (l, Some (bf_disk (w_file w))).
Proof.
  intros [_ Hl].
  by apply (replay_frames _ u32_to_le_bytes u32_le_length u32_le_roundtrip).
Qed.

(** The commands a restart reads, provided nothing is left in the buffer. *)
#[export] Instance wal_command_log : CommandLog Wal (WalCommand D) := {|
  log_append := wal_append;
  log_contents w :=
    match bf_buf (w_file w), wal_replay (Some (bf_disk (w_file w))) with
    | [], Some (l, Some file) =>
        if bool_decide (wal_frames l = Some (bf_disk (w_file w)))
        then Some (we_command <$> l) else None
    | _, _ => None
    end;
|}.

Lemma log_contents_holds w l :
  log_contents w = Some l <-> exists es, wal_holds w es /\ l = we_command <$> es.
Proof.
  unfold log_contents, wal_command_log. split.
  - intros H. destruct (bf_buf (w_file w)) eqn:Hb; [|done].
    destruct (wal_replay _) as [[es [file|]]|]; try done. case_bool_decide; [|done].
    injection H as <-. by exists es.
  - intros (es & Hh & ->). rewrite (wal_replay_holds w es Hh). destruct Hh as [-> Hf].
    by rewrite bool_decide_true.
Qed.

#[export] Instance wal_command_log_laws : CommandLogLaws Wal (WalCommand D).
Proof.
  split. intros c w w' u l (es & Hh & ->)%log_contents_holds Ha.
  eapply wal_append_ok in Ha as [Hh' _]; [|done]. apply log_contents_holds.
  eexists. split; [exact Hh'|]. by rewrite fmap_app.
Qed.
End WalTheory.

(** * Snapshots

    [Snapshot::save] and [Snapshot::load] of [wal.rs] on the bytes of the file; [B] is the
    order book.  Nothing in the engine calls them.  A [File] has no buffer, so its flush
    does nothing. *)
Section Snapshot.
Context {B : Type} {codec : Codec (Z * B)}.

(** [File::create] empties the file before anything is written. *)
Definition snapshot_save (quota : list nat) (seq : Z) (book : B) (file : option bytes)
    : option bytes * result IoError () :=
  match encode (seq, book) with
  | None => (file, Err IoInvalidData)
  | Some bs =>
      let '(disk, _, _, ok) := dev_write bs [] quota in
      (Some disk, if ok then Ok tt else Err IoWrite)
  end.

Definition snapshot_load (file : option bytes) : result IoError (Z * B) :=
  match file with
  | None => Err IoNotFound
  | Some bs => match decode bs with Some sb => Ok sb | None => Err IoInvalidData end
  end.

(** What was saved is loaded, whatever the file held before; but a save that is cut short
    leaves neither the new snapshot nor the old one. *)
Lemma snapshot_round_trip {laws : CodecLaws (Z * B)} quota seq book file file' :
  snapshot_save quota seq book file = (file', Ok tt) -> snapshot_load file' = Ok (seq, book).
Proof.
  unfold snapshot_save, snapshot_load. destruct (encode (seq, book)) as [bs|] eqn:E; [|done].
  destruct (dev_write bs [] quota) as [[[disk q] rest] ok] eqn:Hd. destruct ok; [|done].
  intros [= <-]. apply dev_write_ok in Hd as (-> & _). by rewrite app_nil_l, (decode_encode _ _ E).
Qed.

Lemma torn_save_loses_the_snapshot seq book file bs q quota :
  encode (seq, book) = Some bs -> (q < length bs)%nat ->
  snapshot_save (q :: quota) seq book file = (Some (take q bs), Err IoWrite).
Proof.
  intros E Hq. unfold snapshot_save, dev_write. rewrite E.
  destruct (Nat.leb_spec (length bs) q); [lia|done].
Qed.
End Snapshot.
