(* ===== verification/Framing.v ===== *)
(** * Framing: the TCP frame codec of [engine/crates/proto/src/framing.rs]

    A reader is the byte stream left to read; a writer is the bytes written so far and
    the quota of its physical writes ([dev_write]).  The JSON codec is a parameter. *)
From S2P Require Import Prelude Bytes.

Definition MAX_FRAME_BYTES : Z := 1024 * 1024.

Inductive FrameError :=
| FrameTooLarge (length : Z) (max : Z)
| FrameIo (e : IoError)
| FrameJson.

Section Framing.
Context {T : Type} {json : Codec T}.

(** [read_json_frame]: the frame ([None] at a clean end) and the rest of the stream. *)
Definition read_json_frame (reader : bytes) : result FrameError (option (T * bytes)) :=
  match read_exact 1 reader with
  | None => Ok None
  | Some (first, reader) =>
      match read_exact 3 reader with
      | None => Err (FrameIo IoEof)
      | Some (more, reader) =>
          let len := u32_from_be_bytes (first ++ more) in
          if (MAX_FRAME_BYTES <? len)%Z then Err (FrameTooLarge len MAX_FRAME_BYTES)
          else
            match read_exact (Z.to_nat len) reader with
            | None => Err (FrameIo IoEof)
            | Some (payload, reader) =>
                match decode payload with
                | None => Err FrameJson
                | Some frame => Ok (Some (frame, reader))
                end
            end
      end
  end.

Definition write_json_frame (frame : T) (written : bytes) (quota : list nat) :
    bytes * list nat * result FrameError unit :=
  match encode frame with
  | None => (written, quota, Err FrameJson)
  | Some payload =>
      if (MAX_FRAME_BYTES <? Z.of_nat (length payload))%Z
      then (written, quota,
            Err (FrameTooLarge (Z.of_nat (length payload)) MAX_FRAME_BYTES))
      else
        match u32_try_from (length payload) with
        | None => (written, quota,
                   Err (FrameTooLarge (Z.of_nat (length payload)) MAX_FRAME_BYTES))
        | Some len =>
            let '(written, quota, _, ok) := dev_write (u32_to_be_bytes len) written quota in
            if ok then
              let '(written, quota, _, ok) := dev_write payload written quota in
              (written, quota, if ok then Ok tt else Err (FrameIo IoWrite))
            else (written, quota, Err (FrameIo IoWrite))
        end
  end.

(** A connection reads frames until the peer closes it. *)
Fixpoint read_frames (fuel : nat) (reader : bytes) : option (list T * option FrameError) :=
  match fuel with
  | O => None
  | S fuel =>
      match read_json_frame reader with
      | Err e => Some ([], Some e)
      | Ok None => Some ([], None)
      | Ok (Some (frame, rest)) =>
          match read_frames fuel rest with
          | None => None
          | Some (l, e) => Some (frame :: l, e)
          end
      end
  end.
End Framing.

Section FramingTheory.
Context {T : Type} {json : Codec T} {laws : CodecLaws T}.

Lemma write_json_frame_ok frame written quota written' quota' u :
  write_json_frame frame written quota = (written', quota', Ok u) ->
  exists payload, encode frame = Some payload /\
    Z.of_nat (length payload) <= MAX_FRAME_BYTES /\
    written' = written ++ u32_to_be_bytes (Z.of_nat (length payload)) ++ payload.
Proof.
  unfold write_json_frame. destruct (encode frame) as [payload|]; [|done].
  destruct (Z.ltb_spec MAX_FRAME_BYTES (Z.of_nat (length payload))); [done|].
  unfold u32_try_from. destruct (_ <=? _)%Z; [|done].
  destruct (dev_write _ written quota) as [[[w1 q1] r1] ok1] eqn:H1. destruct ok1; [|done].
  destruct (dev_write payload w1 q1) as [[[w2 q2] r2] ok2] eqn:H2. destruct ok2; [|done].
  intros [= <- _ _]. apply dev_write_ok in H1 as [-> _], H2 as [-> _].
  exists payload. split_and!; [done|lia|]. by rewrite <-(assoc (++)).
Qed.

Lemma read_json_frame_written payload frame rest :
  encode frame = Some payload -> Z.of_nat (length payload) <= MAX_FRAME_BYTES ->
  read_json_frame (u32_to_be_bytes (Z.of_nat (length payload)) ++ payload ++ rest) =
  Ok (Some (frame, rest)).
Proof.
  intros He Hlen. unfold read_json_frame.
  change (u32_to_be_bytes (Z.of_nat (length payload))) with
    ([byte_of (Z.of_nat (length payload) / 2 ^ 24)] ++
     [byte_of (Z.of_nat (length payload) / 2 ^ 16); byte_of (Z.of_nat (length payload) / 2 ^ 8);
      byte_of (Z.of_nat (length payload))]).
  rewrite <-(assoc (++)), read_exact_app by done.
  rewrite read_exact_app by done.
  change ([byte_of (Z.of_nat (length payload) / 2 ^ 24)] ++
     [byte_of (Z.of_nat (length payload) / 2 ^ 16); byte_of (Z.of_nat (length payload) / 2 ^ 8);
      byte_of (Z.of_nat (length payload))])
    with (u32_to_be_bytes (Z.of_nat (length payload))).
  rewrite u32_be_roundtrip by (unfold MAX_FRAME_BYTES in *; lia).
  destruct (Z.ltb_spec MAX_FRAME_BYTES (Z.of_nat (length payload))); [lia|].
  rewrite Nat2Z.id, read_exact_app by done. by rewrite (decode_encode frame payload He).
Qed.
End FramingTheory.
