(* ===== verification/LogProps.v ===== *)
(** * LogProps: the correctness of the logs and of the frame codec

    The examples need codecs for log entries that evaluate.  [Ser] is a serialiser whose
    reader gives back the value and the rest of the input; the entries over [Z] are
    products, sums and lists of countable types and inherit one. *)
From Stdlib Require Import Strings.Byte.
From S2P Require Import Prelude Types Bytes RecordLog Proto Wal Framing.

(** ** Serialisers *)

Class Ser (A : Type) := {
  put : A -> bytes;
  get : bytes -> option (A * bytes);
  get_put a rest : get (put a ++ rest) = Some (a, rest);
}.

Fixpoint put_pos (p : positive) : bytes :=
  match p with
  | xH => [x00]
  | xO p => x01 :: put_pos p
  | xI p => x02 :: put_pos p
  end.

Fixpoint get_pos (l : bytes) : option (positive * bytes) :=
  match l with
  | [] => None
  | b :: l =>
      if Byte.eqb b x00 then Some (xH, l)
      else match get_pos l with
           | Some (p, l) => Some (if Byte.eqb b x01 then xO p else xI p, l)
           | None => None
           end
  end.

Lemma get_put_pos p rest : get_pos (put_pos p ++ rest) = Some (p, rest).
Proof. induction p as [p IH|p IH|]; simpl; by rewrite ?IH. Qed.

#[export] Instance Ser_countable {A} `{Countable A} : Ser A | 10.
Proof.
  refine {| put a := put_pos (countable.encode a);
            get l := match get_pos l with
                     | Some (p, l) => (fun a => (a, l)) <$> countable.decode p
                     | None => None
                     end |}.
  intros a rest. by rewrite get_put_pos, countable.decode_encode.
Defined.

#[export] Instance Ser_pair {A B} {sa : Ser A} {sb : Ser B} : Ser (A * B) | 1.
Proof.
  refine {| put x := put x.1 ++ put x.2;
            get l := match get l with
                     | Some (a, l) => match get l with
                                      | Some (b, l) => Some ((a, b), l)
                                      | None => None
                                      end
                     | None => None
                     end |}.
  intros [a b] rest. simpl. by rewrite <-(assoc (++)), get_put, get_put.
Defined.

#[export] Instance Ser_sum {A B} {sa : Ser A} {sb : Ser B} : Ser (A + B) | 1.
Proof.
  refine {| put x := match x with inl a => x00 :: put a | inr b => x01 :: put b end;
            get l := match l with
                     | [] => None
                     | x :: l => if Byte.eqb x x00
                                 then (fun r => (inl r.1, r.2)) <$> get l
                                 else (fun r => (inr r.1, r.2)) <$> get l
                     end |}.
  intros [a|b] rest; simpl; by rewrite get_put.
Defined.

Fixpoint get_list {A} {sa : Ser A} (n : nat) (l : bytes) : option (list A * bytes) :=
  match n with
  | O => Some ([], l)
  | S n => match get l with
           | Some (a, l) => (fun r => (a :: r.1, r.2)) <$> get_list n l
           | None => None
           end
  end.

Lemma get_list_put {A} {sa : Ser A} (l : list A) rest :
  get_list (length l) (concat (put <$> l) ++ rest) = Some (l, rest).
Proof.
  induction l as [|a l IH]; [done|]. csimpl. by rewrite <-(assoc (++)), get_put, IH.
Qed.

#[export] Instance Ser_list {A} {sa : Ser A} : Ser (list A) | 1.
Proof.
  refine {| put l := put (length l) ++ concat (put <$> l);
            get l := match get l with Some (n, l) => get_list n l | None => None end |}.
  intros l rest. by rewrite <-(assoc (++)), get_put, get_list_put.
Defined.

Definition Ser_iso {A B} {sb : Ser B} (f : A -> B) (g : B -> A) (H : forall a, g (f a) = a) : Ser A.
Proof.
  refine {| put a := put (f a); get l := (fun r => (g r.1, r.2)) <$> get l |}.
  intros a rest. by rewrite get_put; simpl; rewrite H.
Defined.

Definition ser_codec (A : Type) {sa : Ser A} : Codec A := {|
  encode a := Some (put a);
  decode l := match get l with Some (a, []) => Some a | _ => None end;
|}.

Lemma ser_codec_laws (A : Type) {sa : Ser A} : @CodecLaws A (ser_codec A).
Proof.
  split. intros a bs [= <-]. simpl. by rewrite <-(app_nil_r (put a)), get_put.
Qed.

(** ** The entries of the command log *)

Definition side_nat (s : Side) : bool := match s with Buy => true | Sell => false end.
Definition nat_side (b : bool) : Side := if b then Buy else Sell.
#[export] Instance Side_countable : Countable Side.
Proof. refine (inj_countable' side_nat nat_side _). by intros []. Defined.

#[export] Instance OrderType_countable : Countable OrderType.
Proof.
  refine (inj_countable'
    (fun t => match t with Limit => 0 | Market => 1 | Ioc => 2 | Fok => 3 | PostOnly => 4
              | StopLimit => 5 | StopMarket => 6 | Oco => 7 | Iceberg => 8 end)%nat
    (fun n => match n with 0 => Limit | 1 => Market | 2 => Ioc | 3 => Fok | 4 => PostOnly
              | 5 => StopLimit | 6 => StopMarket | 7 => Oco | _ => Iceberg end)%nat _).
  by intros [].
Defined.

#[export] Instance StpMode_countable : Countable StpMode.
Proof.
  refine (inj_countable'
    (fun t => match t with Decrement => 0 | CancelMaker => 1 | CancelTaker => 2 end)%nat
    (fun n => match n with 0 => Decrement | 1 => CancelMaker | _ => CancelTaker end)%nat _).
  by intros [].
Defined.

#[export] Instance Order_ser : Ser (Order Z).
Proof.
  refine (Ser_iso
    (fun o => (o_id o, o_user_id o, o_symbol o, o_side o, o_order_type o, o_price o,
               o_quantity o, o_remaining o, o_stp_mode o, o_stop_price o, o_oco_linked_id o,
               o_display_qty o))
    (fun '(a, b, c, d, e, f, g, h, i, j, k, l) => mkOrder a b c d e f g h i j k l) _).
  by intros [].
Defined.

#[export] Instance WalEntry_ser : Ser (WalEntry Z).
Proof.
  refine (Ser_iso
    (fun e => (we_seq e, match we_command e with PlaceOrder o => inl o | CancelOrder id => inr id end))
    (fun '(a, x) => mkEntry a (match x with inl o => PlaceOrder o | inr id => CancelOrder id end)) _).
  by intros [? []].
Defined.

Definition wal_codec : Codec (WalEntry Z) := ser_codec (WalEntry Z).
Definition wal_codec_laws : @CodecLaws (WalEntry Z) wal_codec := ser_codec_laws (WalEntry Z).

(** ** The entries of the event log *)

#[export] Instance OrderSide_eq_dec : EqDecision OrderSide.
Proof. solve_decision. Defined.
#[export] Instance OrderSide_countable : Countable OrderSide.
Proof.
  refine (inj_countable' (fun s => match s with WBuy => true | WSell => false end)
    (fun b : bool => if b then WBuy else WSell) _).
  by intros [].
Defined.

#[export] Instance EngineOrderType_countable : Countable EngineOrderType.
Proof.
  refine (inj_countable'
    (fun t => match t with WLimit => 0 | WMarket => 1 | WIoc => 2 | WFok => 3 | WPostOnly => 4
              | WStopLimit => 5 | WStopMarket => 6 | WOco => 7 | WIceberg => 8 end)%nat
    (fun n => match n with 0 => WLimit | 1 => WMarket | 2 => WIoc | 3 => WFok | 4 => WPostOnly
              | 5 => WStopLimit | 6 => WStopMarket | 7 => WOco | _ => WIceberg end)%nat _).
  by intros [].
Defined.

#[export] Instance WStpMode_eq_dec : EqDecision WStpMode.
Proof. solve_decision. Defined.
#[export] Instance WStpMode_countable : Countable WStpMode.
Proof.
  refine (inj_countable'
    (fun t => match t with WDecrement => 0 | WCancelMaker => 1 | WCancelTaker => 2 end)%nat
    (fun n => match n with 0 => WDecrement | 1 => WCancelMaker | _ => WCancelTaker end)%nat _).
  by intros [].
Defined.

#[export] Instance WCancelReason_eq_dec : EqDecision WCancelReason.
Proof. solve_decision. Defined.
#[export] Instance WCancelReason_countable : Countable WCancelReason.
Proof.
  refine (inj_countable'
    (fun t => match t with WNoLiquidity => 0 | WFokUnfilled => 1 | WPostOnlyCrossed => 2
              | WSelfTradePrevented => 3 | WOcoLinked => 4 | WAdminCancel => 5 end)%nat
    (fun n => match n with 0 => WNoLiquidity | 1 => WFokUnfilled | 2 => WPostOnlyCrossed
              | 3 => WSelfTradePrevented | 4 => WOcoLinked | _ => WAdminCancel end)%nat _).
  by intros [].
Defined.

#[export] Instance MarketStatus_eq_dec : EqDecision MarketStatus.
Proof. solve_decision. Defined.
#[export] Instance MarketStatus_countable : Countable MarketStatus.
Proof.
  refine (inj_countable' (fun s => match s with Trading => true | Halted => false end)
    (fun b : bool => if b then Trading else Halted) _).
  by intros [].
Defined.

#[export] Instance EngineOrder_ser : Ser (EngineOrder Z).
Proof.
  refine (Ser_iso
    (fun o => (eo_id o, eo_user_id o, eo_symbol o, eo_side o, eo_order_type o, eo_price o,
               eo_quantity o, eo_stp_mode o, eo_stop_price o, eo_oco_linked_id o,
               eo_display_qty o))
    (fun '(a, b, c, d, e, f, g, h, i, j, k) => mkEngineOrder a b c d e f g h i j k) _).
  by intros [].
Defined.

#[export] Instance TradeFill_ser : Ser (TradeFill Z).
Proof.
  refine (Ser_iso
    (fun f => (tf_trade_id f, tf_symbol f, tf_taker_order_id f, tf_maker_order_id f, tf_price f,
               tf_quantity f, tf_taker_side f, tf_ts f))
    (fun '(a, b, c, d, e, f, g, h) => mkTradeFill a b c d e f g h) _).
  by intros [].
Defined.

#[export] Instance BookDelta_ser : Ser (BookDeltaEvent Z).
Proof.
  refine (Ser_iso (A := BookDeltaEvent Z) (B := string * list (Z * Z) * list (Z * Z))
    (fun d => (bd_symbol d, bd_bids d, bd_asks d)) (fun '(a, b, c) => mkDelta a b c) _).
  by intros [].
Defined.

#[export] Instance Sequenced_ser : Ser (SequencedEngineEvent Z).
Proof.
  refine (Ser_iso
    (fun e => (se_seq e, match se_event e with
      | WeOrderAccepted o => inl (inl o)
      | WeOrderRested i r => inl (inr (inl (i, r)))
      | WeFill f => inl (inr (inr f))
      | WeOrderCanceled i r => inr (inl (i, r))
      | WeBookDelta d => inr (inr (inl d))
      | WeMarketStatus s t => inr (inr (inr (s, t))) end))
    (fun '(n, x) => mkSequenced n (match x with
      | inl (inl o) => WeOrderAccepted o
      | inl (inr (inl (i, r))) => WeOrderRested i r
      | inl (inr (inr f)) => WeFill f
      | inr (inl (i, r)) => WeOrderCanceled i r
      | inr (inr (inl d)) => WeBookDelta d
      | inr (inr (inr (s, t))) => WeMarketStatus s t end)) _).
  by intros [? []].
Defined.

Definition event_codec : Codec (SequencedEngineEvent Z) := ser_codec _.
Definition event_codec_laws : @CodecLaws (SequencedEngineEvent Z) event_codec := ser_codec_laws _.

(** * The correctness theorems of the logs and the frame codec *)

Section WalLemmas.
Context {D : Type} {codec : Codec (WalEntry D)} {claws : CodecLaws (WalEntry D)}.

(** Appends that all succeed. *)
Fixpoint append_all (cmds : list (WalCommand D)) (w : Wal) : option Wal :=
  match cmds with
  | [] => Some w
  | c :: cmds =>
      match wal_append c w with
      | (w', Ok _) => append_all cmds w'
      | (_, Err _) => None
      end
  end.

(** Entries numbered from [from]. *)
Fixpoint number_from (from : Z) (cmds : list (WalCommand D)) : list (WalEntry D) :=
  match cmds with
  | [] => []
  | c :: cmds => mkEntry from c :: number_from (from + 1) cmds
  end.

Lemma append_all_holds cmds w w' l :
  wal_holds w l -> 0 <= w_sequence w -> w_sequence w + Z.of_nat (length cmds) < 2 ^ 64 ->
  append_all cmds w = Some w' ->
  wal_holds w' (l ++ number_from (w_sequence w + 1) cmds) /\
  w_sequence w' = w_sequence w + Z.of_nat (length cmds).
Proof.
  revert w l. induction cmds as [|c cmds IH]; intros w l Hh H0 Hb; simpl.
  { intros [= <-]. rewrite app_nil_r. split; [done|lia]. }
  destruct (wal_append c w) as [w1 [u|e]] eqn:Ha; [|done]. intros Hr.
  apply (wal_append_ok c w w1 u l Hh) in Ha as [Hh1 Hs1].
  simpl in Hb. rewrite Z.mod_small in Hh1, Hs1 by lia.
  destruct (IH w1 _ Hh1) as [Hh' Hs']; [lia|lia|done|].
  rewrite Hs1 in Hh', Hs'. rewrite <-(assoc (++)) in Hh'. split; [done|lia].
Qed.

Lemma wal_open_holds l bs quota w :
  frames u32_to_le_bytes l = Some bs -> wal_open (Some bs) quota = Some w ->
  wal_holds w l /\ w_sequence w = last_seq l.
Proof.
  intros Hf. unfold wal_open, wal_replay.
  rewrite (replay_frames _ u32_to_le_bytes u32_le_length u32_le_roundtrip l bs Hf).
  by intros [= <-].
Qed.

Lemma number_from_last from c cmds :
  last (number_from from (c :: cmds)) = mkEntry (from + Z.of_nat (length cmds)) <$> last (c :: cmds).
Proof.
  revert from c. induction cmds as [|d cmds IH]; intros from c.
  { simpl. f_equal. f_equal. lia. }
  change (number_from from (c :: d :: cmds)) with
    (mkEntry from c :: number_from (from + 1) (d :: cmds)).
  change (last (c :: d :: cmds)) with (last (d :: cmds)).
  change (last (mkEntry from c :: number_from (from + 1) (d :: cmds))) with
    (last (number_from (from + 1) (d :: cmds))).
  rewrite IH. destruct (last (d :: cmds)); simpl; [|done]. do 2 f_equal. lia.
Qed.

Lemma number_from_commands from cmds : we_command <$> number_from from cmds = cmds.
Proof. revert from. induction cmds as [|c cmds IH]; intros from; csimpl; [done|]. by rewrite IH. Qed.

Lemma last_seq_numbered cmds :
  last_seq (number_from 1 cmds) = Z.of_nat (length cmds).
Proof.
  unfold last_seq. destruct cmds as [|c cmds]; [done|].
  rewrite number_from_last. destruct (last (c :: cmds)) eqn:E; simpl; [lia|].
  by apply last_None in E.
Qed.

Lemma wal_open_fresh quota :
  wal_open None quota = Some (mkWal (mkBuf [] [] quota) 0).
Proof. done. Qed.
End WalLemmas.

(** C7. The command log is durable and ordered: after any number of successful appends
    to a fresh log, a replay of the file returns exactly those commands in order,
    numbered 1, 2, 3, ..., and opening the file again continues from the last number. *)
Theorem wal_replays_what_was_appended {D} {codec : Codec (WalEntry D)}
    {claws : CodecLaws (WalEntry D)} quota quota' cmds w w' :
  wal_open None quota = Some w -> append_all cmds w = Some w' ->
  Z.of_nat (length cmds) < 2 ^ 64 ->
  wal_replay (Some (bf_disk (w_file w'))) =
    Some (number_from 1 cmds, Some (bf_disk (w_file w'))) /\
  we_command <$> number_from 1 cmds = cmds /\
  w_sequence <$> wal_open (Some (bf_disk (w_file w'))) quota' = Some (w_sequence w').
Proof.
  rewrite wal_open_fresh. intros [= <-] Ha Hlen.
  destruct (append_all_holds cmds (mkWal (mkBuf [] [] quota) 0) w' []) as [Hh Hs];
    [done|simpl; lia|simpl; lia|done|].
  simpl in Hh, Hs. pose proof (wal_replay_holds w' _ Hh) as Hr. split_and!.
  - done.
  - apply number_from_commands.
  - unfold wal_open. rewrite Hr. simpl. by rewrite last_seq_numbered, Hs.
Qed.

Definition sample_cmds : list (WalCommand Z) := [CancelOrder 7%N; CancelOrder 8%N].
Definition sample_wal : Wal :=
  default (mkWal (mkBuf [] [] []) 0)
    (append_all (codec := wal_codec) sample_cmds (mkWal (mkBuf [] [] []) 0)).

Lemma wal_replays_what_was_appended_witness :
  wal_replay (codec := wal_codec) (Some (bf_disk (w_file sample_wal))) =
    Some (number_from 1 sample_cmds, Some (bf_disk (w_file sample_wal))) /\
  we_command <$> number_from 1 sample_cmds = sample_cmds /\
  w_sequence <$> wal_open (codec := wal_codec) (Some (bf_disk (w_file sample_wal))) [] =
    Some (w_sequence sample_wal).
Proof.
  apply (wal_replays_what_was_appended (codec := wal_codec) (claws := wal_codec_laws)
    [] [] sample_cmds (mkWal (mkBuf [] [] []) 0) sample_wal).
  - reflexivity.
  - vm_compute. reflexivity.
  - vm_compute. reflexivity.
Defined.

(** C8. Torn-tail recovery: if a crash leaves the last record incomplete, with at least
    its length prefix written, reopening drops exactly that record, cuts the file back
    to the whole ones, and later appends are replayed right behind them. *)
Theorem wal_torn_tail_recovered {D} {codec : Codec (WalEntry D)}
    {claws : CodecLaws (WalEntry D)} l bs e fr n quota w cmds w' :
  frames u32_to_le_bytes l = Some bs -> frame u32_to_le_bytes e = Some fr ->
  (4 <= n < length fr)%nat ->
  0 <= last_seq l -> last_seq l + Z.of_nat (length cmds) < 2 ^ 64 ->
  wal_open (Some (bs ++ take n fr)) quota = Some w -> append_all cmds w = Some w' ->
  bf_disk (w_file w) = bs /\ w_sequence w = last_seq l /\
  wal_replay (Some (bf_disk (w_file w'))) =
    Some (l ++ number_from (last_seq l + 1) cmds, Some (bf_disk (w_file w'))).
Proof.
  intros Hl He Hn H0 Hb Ho Ha.
  assert (wal_holds w l /\ w_sequence w = last_seq l /\ bf_disk (w_file w) = bs)
    as (Hh & Hs & Hd).
  { unfold wal_open, wal_replay in Ho.
    rewrite (replay_torn _ u32_to_le_bytes u32_le_length u32_le_roundtrip l bs e fr n) in Ho
      by (done || lia).
    rewrite (proj2 (Nat.ltb_ge n 4)) in Ho by lia. by injection Ho as <-. }
  rewrite <-Hs in H0, Hb. rewrite <-Hs.
  destruct (append_all_holds cmds w w' l Hh H0 Hb Ha) as [Hh' _].
  split_and!; [done|done|]. by apply wal_replay_holds.
Qed.

Definition whole_records : bytes :=
  default [] (frames (codec := wal_codec) u32_to_le_bytes (number_from 1 sample_cmds)).
Definition third_entry : WalEntry Z := mkEntry 3 (CancelOrder 9%N).
Definition third_record : bytes :=
  default [] (frame (codec := wal_codec) u32_to_le_bytes third_entry).
Definition reopened (n : nat) : Wal :=
  default (mkWal (mkBuf [] [] []) 0)
    (wal_open (codec := wal_codec) (Some (whole_records ++ take n third_record)) []).
Definition reopened_and_appended (n : nat) : Wal :=
  default (mkWal (mkBuf [] [] []) 0)
    (append_all (codec := wal_codec) [CancelOrder 10%N] (reopened n)).

Lemma wal_torn_tail_recovered_witness :
  bf_disk (w_file (reopened 6)) = whole_records /\ w_sequence (reopened 6) = 2 /\
  wal_replay (codec := wal_codec) (Some (bf_disk (w_file (reopened_and_appended 6)))) =
    Some (number_from 1 sample_cmds ++ number_from 3 [CancelOrder 10%N],
          Some (bf_disk (w_file (reopened_and_appended 6)))).
Proof.
  apply (wal_torn_tail_recovered (codec := wal_codec) (claws := wal_codec_laws)
    (number_from 1 sample_cmds) whole_records third_entry third_record 6 []
    (reopened 6) [CancelOrder 10%N] (reopened_and_appended 6)).
  - vm_compute. reflexivity.
  - vm_compute. reflexivity.
  - split; apply Nat.leb_le; vm_compute; reflexivity.
  - vm_compute. discriminate.
  - vm_compute. reflexivity.
  - vm_compute. reflexivity.
  - vm_compute. reflexivity.
Defined.

(** When fewer than four bytes of the record were written the file is not cut, although
    the comment on [read_one_entry] speaks of zero bytes: the next append lands behind
    the stray bytes, and a replay does not find it. *)
Lemma short_tail_hides_appends :
  fst <$> wal_replay (codec := wal_codec) (Some (bf_disk (w_file (reopened_and_appended 2)))) =
  Some (number_from 1 sample_cmds).
Proof. vm_compute. reflexivity. Qed.

(** An append that reports an error stays in the write buffer: the next one that
    succeeds writes both, so a replay runs a command its caller was told had failed. *)
Lemma failed_append_is_replayed :
  let w0 := mkWal (mkBuf [] [] [0%nat]) 0 in
  let (w1, r1) := wal_append (codec := wal_codec) (CancelOrder 7%N) w0 in
  let (w2, r2) := wal_append (codec := wal_codec) (CancelOrder 8%N) w1 in
  r1 = Err IoWrite /\ r2 = Ok tt /\
  fst <$> wal_replay (codec := wal_codec) (Some (bf_disk (w_file w2))) =
  Some (number_from 1 sample_cmds).
Proof. vm_compute. auto. Qed.

Section EventLemmas.
Context {D : Type} {codec : Codec (SequencedEngineEvent D)}
  {claws : CodecLaws (SequencedEngineEvent D)}.

Definition event_log_holds (l : EventLog) (es : list (SequencedEngineEvent D)) : Prop :=
  bf_buf (el_file l) = [] /\ frames u32_to_be_bytes es = Some (bf_disk (el_file l)).

Lemma append_next_ok event l l' s es :
  event_log_holds l es -> append_next event l = (l', Ok s) ->
  event_log_holds l' (es ++ [s]) /\
  s = mkSequenced (u64_saturating_add (el_sequence l) 1) event /\ el_sequence l' = se_seq s.
Proof.
  intros [Hb Hf]. unfold append_next.
  destruct (encode _) as [payload|] eqn:He; [|done].
  destruct (u32_try_from (length payload)) as [len|] eqn:Hlen; [|done].
  destruct (write_record _ payload _) as [f [u|e]] eqn:Hw; [|done]. intros [= <- <-].
  apply write_record_ok in Hw as [Hd Hb']. split_and!; [|done|done]. split; [done|]. simpl.
  rewrite Hd. unfold bf_all. rewrite Hb, app_nil_r. apply frames_snoc; [done|].
  unfold frame. by rewrite He, Hlen.
Qed.

Fixpoint append_events (events : list (WireEvent D)) (l : EventLog) :
    option (EventLog * list (SequencedEngineEvent D)) :=
  match events with
  | [] => Some (l, [])
  | e :: events =>
      match append_next e l with
      | (l', Ok s) =>
          match append_events events l' with
          | Some (l'', ss) => Some (l'', s :: ss)
          | None => None
          end
      | (_, Err _) => None
      end
  end.

Fixpoint sequence_from (from : Z) (events : list (WireEvent D)) :
    list (SequencedEngineEvent D) :=
  match events with
  | [] => []
  | e :: events => mkSequenced from e :: sequence_from (from + 1) events
  end.

Lemma append_events_holds events l l' ss es :
  event_log_holds l es -> 0 <= el_sequence l ->
  el_sequence l + Z.of_nat (length events) <= U64_MAX ->
  append_events events l = Some (l', ss) ->
  ss = sequence_from (el_sequence l + 1) events /\ event_log_holds l' (es ++ ss) /\
  el_sequence l' = el_sequence l + Z.of_nat (length events).
Proof.
  revert l ss es. induction events as [|e events IH]; intros l ss es Hh H0 Hb; simpl.
  { intros [= <- <-]. rewrite app_nil_r. split_and!; [done|done|lia]. }
  destruct (append_next e l) as [l1 [s|err]] eqn:Ha; [|done].
  destruct (append_events events l1) as [[l2 ss2]|] eqn:Hr; [|done]. intros [= <- <-].
  apply (append_next_ok e l l1 s es Hh) in Ha as (Hh1 & -> & Hs1). simpl in Hs1, Hb.
  unfold u64_saturating_add in *. rewrite Z.min_r in * by lia.
  destruct (IH l1 ss2 _ Hh1) as (-> & Hh2 & Hs2); [lia|lia|done|].
  rewrite Hs1 in *. split_and!; [done| |lia]. by rewrite <-(assoc (++)) in Hh2.
Qed.
End EventLemmas.

(** Engine events are numbered without gaps and the event log keeps them: events
    appended to a log with last number [n] get [n + 1], [n + 2], ..., a replay returns
    them after the earlier ones, and reopening continues the numbering. *)
Theorem event_log_gapless {D} {codec : Codec (SequencedEngineEvent D)}
    {claws : CodecLaws (SequencedEngineEvent D)} events l l' ss es quota :
  event_log_holds l es -> 0 <= el_sequence l ->
  el_sequence l + Z.of_nat (length events) <= U64_MAX -> events <> [] ->
  append_events events l = Some (l', ss) ->
  ss = sequence_from (el_sequence l + 1) events /\
  event_replay (Some (bf_disk (el_file l'))) = Some (es ++ ss, Some (bf_disk (el_file l'))) /\
  el_sequence <$> event_log_open (Some (bf_disk (el_file l'))) quota = Some (el_sequence l').
Proof.
  intros Hh H0 Hb Hne Ha.
  destruct (append_events_holds events l l' ss es Hh H0 Hb Ha) as (Hss & Hh' & Hs).
  assert (event_replay (Some (bf_disk (el_file l'))) =
    Some (es ++ ss, Some (bf_disk (el_file l')))) as Hr.
  { apply (replay_frames _ u32_to_be_bytes u32_be_length u32_be_roundtrip). apply Hh'. }
  split_and!; [done|done|]. unfold event_log_open. rewrite Hr. simpl. f_equal.
  rewrite Hs, Hss, last_app.
  assert (forall from e (evs : list (WireEvent D)),
    exists x, last (sequence_from from (e :: evs)) = Some x /\
              se_seq x = from + Z.of_nat (length evs)) as Hl.
  { intros from e evs. revert from e. induction evs as [|d evs IH]; intros from e.
    - eexists. split; [done|]. simpl. lia.
    - destruct (IH (from + 1) d) as (x & Hx & Hsx). exists x. split; [exact Hx|]. simpl. lia. }
  destruct events as [|e events]; [done|].
  destruct (Hl (el_sequence l + 1) e events) as (x & -> & ->). simpl. lia.
Qed.

Definition empty_event_log : EventLog := mkEventLog (mkBuf [] [] []) 0.
Definition two_events : list (WireEvent Z) :=
  [WeOrderRested 1%N 5; WeMarketStatus "BTCUSDT" Halted].
Definition two_logged := append_events (codec := event_codec) two_events empty_event_log.

Lemma event_log_gapless_witness :
  match two_logged with
  | Some (l', ss) =>
      ss = sequence_from 1 two_events /\
      event_replay (codec := event_codec) (Some (bf_disk (el_file l'))) =
        Some ([] ++ ss, Some (bf_disk (el_file l'))) /\
      el_sequence <$> event_log_open (codec := event_codec) (Some (bf_disk (el_file l'))) [] =
        Some (el_sequence l')
  | None => False
  end.
Proof.
  destruct two_logged as [[l' ss]|] eqn:E.
  - apply (event_log_gapless (codec := event_codec) (claws := event_codec_laws)
      two_events empty_event_log l' ss [] []).
    + split; reflexivity.
    + vm_compute. discriminate.
    + vm_compute. discriminate.
    + discriminate.
    + exact E.
  - vm_compute in E. discriminate E.
Defined.

(** Frames: whatever was written, to any writer, is read back, one frame at a time;
    no frame over the limit is ever written, and a header announcing one is refused
    before its payload is read. *)
Theorem frame_roundtrip_bounded {T} {json : Codec T} {laws : CodecLaws T}
    frame written quota written' quota' u :
  write_json_frame frame written quota = (written', quota', Ok u) ->
  (exists fr, written' = written ++ fr /\ Z.of_nat (length fr) <= 4 + MAX_FRAME_BYTES /\
     forall rest, read_json_frame (fr ++ rest) = Ok (Some (frame, rest))) /\
  (forall len rest, MAX_FRAME_BYTES < len < 2 ^ 32 ->
     read_json_frame (T := T) (u32_to_be_bytes len ++ rest) =
     Err (FrameTooLarge len MAX_FRAME_BYTES)).
Proof.
  intros Hw. split.
  - apply write_json_frame_ok in Hw as (payload & He & Hlen & ->).
    eexists. split; [done|]. split.
    + rewrite length_app. simpl. lia.
    + intros rest. rewrite <-(assoc (++)). by apply read_json_frame_written.
  - intros len rest Hlen. unfold read_json_frame.
    change (u32_to_be_bytes len ++ rest) with
      ([byte_of (len / 2 ^ 24)] ++ ([byte_of (len / 2 ^ 16); byte_of (len / 2 ^ 8); byte_of len]
        ++ rest)).
    rewrite read_exact_app by done. rewrite read_exact_app by done.
    change ([byte_of (len / 2 ^ 24)] ++ [byte_of (len / 2 ^ 16); byte_of (len / 2 ^ 8); byte_of len])
      with (u32_to_be_bytes len).
    rewrite u32_be_roundtrip by (unfold MAX_FRAME_BYTES in *; lia).
    by rewrite (proj2 (Z.ltb_lt _ _)) by lia.
Qed.

Lemma frame_roundtrip_bounded_witness :
  let fr := fst (fst (write_json_frame (json := event_codec)
                        (mkSequenced 1 (WeOrderRested 1%N 5)) [] [])) in
  (exists fr', fr = [] ++ fr' /\ Z.of_nat (length fr') <= 4 + MAX_FRAME_BYTES /\
     forall rest, read_json_frame (json := event_codec) (fr' ++ rest) =
       Ok (Some (mkSequenced 1 (WeOrderRested 1%N 5), rest))) /\
  (forall len rest, MAX_FRAME_BYTES < len < 2 ^ 32 ->
     read_json_frame (json := event_codec) (u32_to_be_bytes len ++ rest) =
     Err (FrameTooLarge len MAX_FRAME_BYTES)).
Proof.
  apply (frame_roundtrip_bounded (json := event_codec) (laws := event_codec_laws)
    (mkSequenced 1 (WeOrderRested 1%N 5)) [] [] _ [] tt).
  vm_compute. reflexivity.
Defined.
