(* ===== verification/Wire.v ===== *)
(** * Wire: order validation and conversions of [engine/crates/server/src/wire.rs] *)
From Stdlib Require Import Ascii.
From S2P Require Import Prelude Decimal Types Book Proto.

Definition FOK_NOT_FILLED : string := "FOK_NOT_FILLED".
Definition MARKET_HALTED : string := "MARKET_HALTED".
Definition MARKET_UNKNOWN : string := "MARKET_UNKNOWN".
Definition MIN_NOTIONAL : string := "MIN_NOTIONAL".
Definition ORDER_NOT_FOUND : string := "ORDER_NOT_FOUND".
Definition POST_ONLY_REJECTED : string := "POST_ONLY_REJECTED".
Definition STOP_PRICE_INVALID : string := "STOP_PRICE_INVALID".
Definition TICK_SIZE : string := "TICK_SIZE".

(** [s.trim().is_empty()] on UTF-8: only characters with the White_Space property. *)
Fixpoint blank_codes (l : list N) : bool :=
  match l with
  | [] => true
  | 194 :: 133 :: l | 194 :: 160 :: l => blank_codes l
  | 225 :: 154 :: 128 :: l => blank_codes l
  | 226 :: 128 :: c :: l =>
      (((128 <=? c) && (c <=? 138)) || (c =? 168) || (c =? 169) || (c =? 175))%N && blank_codes l
  | 226 :: 129 :: 159 :: l => blank_codes l
  | 227 :: 128 :: 128 :: l => blank_codes l
  | c :: l => (((9 <=? c) && (c <=? 13)) || (c =? 32))%N && blank_codes l
  end%N%bool.

Definition is_blank (s : string) : bool := blank_codes (N_of_ascii <$> String.list_ascii_of_string s).

Definition requires_price (t : EngineOrderType) : bool :=
  match t with
  | WLimit | WIoc | WFok | WPostOnly | WStopLimit | WOco | WIceberg => true
  | _ => false
  end.

Definition requires_stop_price (t : EngineOrderType) : bool :=
  match t with WStopLimit | WStopMarket => true | _ => false end.

Definition to_core_side (s : OrderSide) : Side := match s with WBuy => Buy | WSell => Sell end.
Definition to_wire_side (s : Side) : OrderSide := match s with Buy => WBuy | Sell => WSell end.

Definition to_core_order_type (t : EngineOrderType) : OrderType :=
  match t with
  | WLimit => Limit | WMarket => Market | WIoc => Ioc | WFok => Fok | WPostOnly => PostOnly
  | WStopLimit => StopLimit | WStopMarket => StopMarket | WOco => Oco | WIceberg => Iceberg
  end.

Definition to_core_stp_mode (m : WStpMode) : StpMode :=
  match m with
  | WDecrement => Decrement | WCancelMaker => CancelMaker | WCancelTaker => CancelTaker
  end.

Definition to_wire_cancel_reason (r : CancelReason) : WCancelReason :=
  match r with
  | NoLiquidity => WNoLiquidity
  | FokUnfilled => WFokUnfilled
  | PostOnlyCrossed => WPostOnlyCrossed
  | SelfTradePrevented => WSelfTradePrevented
  | OcoLinked => WOcoLinked
  | AdminCancel => WAdminCancel
  end.

Definition reject_response (request_id : Uuid) (code message : string) : RejectResponse :=
  mkReject request_id code message.

Section Wire.
Context {D : Type} {dops : DecimalOps D}.
Implicit Types (order : EngineOrder D) (events : list (EngineEvent D)).

(** [opt.is_none_or(|x| x <= 0)]. *)
Definition missing_or_nonpositive (x : option D) : bool :=
  match x with None => true | Some p => dleb p dzero end.

Definition validate_wire_order (request_id : Uuid) order : option RejectResponse :=
  if is_blank (eo_symbol order) then
    Some (reject_response request_id MARKET_UNKNOWN "market symbol is required")
  else if dleb (eo_quantity order) dzero then
    Some (reject_response request_id MIN_NOTIONAL "quantity must be positive")
  else if (requires_price (eo_order_type order) &&
           missing_or_nonpositive (eo_price order))%bool then
    Some (reject_response request_id TICK_SIZE "positive price is required")
  else if (requires_stop_price (eo_order_type order) &&
           missing_or_nonpositive (eo_stop_price order))%bool then
    Some (reject_response request_id STOP_PRICE_INVALID "positive stop price is required")
  else if (bool_decide (eo_order_type order = WIceberg) &&
           match eo_display_qty order with
           | None => true
           | Some q => dleb q dzero || dleb (eo_quantity order) q
           end)%bool then
    Some (reject_response request_id MIN_NOTIONAL
            "iceberg display quantity must be positive and smaller than quantity")
  else None.

Fixpoint immediate_pre_reject (request_id order_id : Uuid) events : option RejectResponse :=
  match events with
  | [] => None
  | EvCancelled id reason :: events =>
      if N.eqb id order_id then
        match reason with
        | FokUnfilled =>
            Some (reject_response request_id FOK_NOT_FILLED
                    "fill-or-kill order could not be fully filled")
        | PostOnlyCrossed =>
            Some (reject_response request_id POST_ONLY_REJECTED
                    "post-only order would cross the book")
        | _ => immediate_pre_reject request_id order_id events
        end
      else immediate_pre_reject request_id order_id events
  | _ :: events => immediate_pre_reject request_id order_id events
  end.

Definition taker_fill_qty (order_id : Uuid) (e : EngineEvent D) : option D :=
  match e with
  | EvFill f => if N.eqb (fl_taker_order_id f) order_id then Some (fl_quantity f) else None
  | _ => None
  end.

Definition rested_is (order_id : Uuid) (e : EngineEvent D) : bool :=
  match e with EvRested id _ => N.eqb id order_id | _ => false end.
Definition cancelled_is (order_id : Uuid) (e : EngineEvent D) : bool :=
  match e with EvCancelled id _ => N.eqb id order_id | _ => false end.

Definition order_status_for_place (order_id : Uuid) (quantity : D) events : OrderStatus :=
  let filled := dsum (omap (taker_fill_qty order_id) events) in
  if existsb (rested_is order_id) events then
    if dltb dzero filled then StPartial else StNew
  else if dleb quantity filled then StFilled
  else if existsb (cancelled_is order_id) events then StCanceled
  else StFilled.

Definition cancelled_order_ids events : list Uuid :=
  omap (fun e => match e with EvCancelled id _ => Some id | _ => None end) events.

Definition to_core_order order : Order D :=
  mkOrder (eo_id order) (eo_user_id order) (eo_symbol order) (to_core_side (eo_side order))
    (to_core_order_type (eo_order_type order)) (eo_price order) (eo_quantity order)
    (eo_quantity order) (to_core_stp_mode (eo_stp_mode order)) (eo_stop_price order)
    (eo_oco_linked_id order) (eo_display_qty order).

Definition last_seq_or_current (events : list (SequencedEngineEvent D)) (current : Z) : Z :=
  match last events with None => current | Some e => se_seq e end.
End Wire.
