(* ===== verification/Engine.v ===== *)
(** * Engine: the request handlers of [engine/crates/server/src/state.rs]

    [EngineState] is the struct, with the command log behind the [CommandLog] interface
    and the id source and clock as counters into two parameters ([next_uuid], [now]).  A
    handler takes the state and returns the state it leaves with its result; [None]
    means that a matching loop ran out of fuel, which EngineProps excludes.  What a
    handler changed before an IO error stays changed, as in the code.

    The broadcast channel of the struct is in Server.v, which sends the events of a
    response to it. *)
From S2P Require Import Prelude Decimal BTree Types Stop Book Bytes RecordLog Proto.
From S2P Require Import Wal Wire.

Record OpenOrder (D : Type) := mkOpen { oo_user_id : Uuid; oo_symbol : string; oo_remaining : D }.
Arguments mkOpen {D}.
Arguments oo_user_id {D} _.
Arguments oo_symbol {D} _.
Arguments oo_remaining {D} _.

Record ResponseBundle (D : Type) := mkBundle {
  rb_response : EngineResponse D;
  rb_events : list (SequencedEngineEvent D);
}.
Arguments mkBundle {D}.
Arguments rb_response {D} _.
Arguments rb_events {D} _.

Record EngineState (D W : Type) := mkEngine {
  es_books : gmap string (OrderBook D);
  es_command_wal : W;
  es_event_log : EventLog;
  es_halted_symbols : gset string;
  es_open_orders : gmap Uuid (OpenOrder D);
  es_ids_drawn : nat;
  es_clock_reads : nat;
  es_snapshot_depth : nat;
}.
Arguments mkEngine {D W}.
Arguments es_books {D W} _.
Arguments es_command_wal {D W} _.
Arguments es_event_log {D W} _.
Arguments es_halted_symbols {D W} _.
Arguments es_open_orders {D W} _.
Arguments es_ids_drawn {D W} _.
Arguments es_clock_reads {D W} _.
Arguments es_snapshot_depth {D W} _.

Inductive ServerError := SeIo (e : IoError).

Section OpenOrders.
Context {D : Type} {dops : DecimalOps D}.
Implicit Types (open_orders : gmap Uuid (OpenOrder D)).

Definition decrement_open_order (order_id : Uuid) (quantity : D) open_orders :
    gmap Uuid (OpenOrder D) :=
  match open_orders !! order_id with
  | None => open_orders
  | Some meta =>
      if dleb (oo_remaining meta) quantity then delete order_id open_orders
      else <[order_id := mkOpen (oo_user_id meta) (oo_symbol meta)
                           (dsub (oo_remaining meta) quantity)]> open_orders
  end.

Definition apply_open_order_update (submitted : option (Order D)) open_orders
    (event : EngineEvent D) : gmap Uuid (OpenOrder D) :=
  match event with
  | EvFill fill =>
      decrement_open_order (fl_taker_order_id fill) (fl_quantity fill)
        (decrement_open_order (fl_maker_order_id fill) (fl_quantity fill) open_orders)
  | EvRested order_id remaining =>
      match submitted with
      | Some order =>
          if N.eqb (o_id order) order_id then
            <[order_id := mkOpen (o_user_id order) (o_symbol order) remaining]> open_orders
          else alter (fun m => mkOpen (oo_user_id m) (oo_symbol m) remaining) order_id open_orders
      | None => alter (fun m => mkOpen (oo_user_id m) (oo_symbol m) remaining) order_id open_orders
      end
  | EvCancelled order_id _ => delete order_id open_orders
  | EvStopTriggered _ => open_orders
  end.

Definition apply_open_order_updates (submitted : option (Order D))
    (events : list (EngineEvent D)) open_orders : gmap Uuid (OpenOrder D) :=
  fold_left (apply_open_order_update submitted) events open_orders.
End OpenOrders.

Section Replay.
Context {D : Type} {dops : DecimalOps D} (fuel : nat).

Definition ReplayState : Type := gmap string (OrderBook D) * gmap Uuid (OpenOrder D).

(** The book a submission works on: [entry(symbol).or_default()] and, for an order
    with a partner, [register_oco]. *)
Definition book_for (order : Order D) (books : gmap string (OrderBook D)) : OrderBook D :=
  let book := default book_new (books !! o_symbol order) in
  match o_oco_linked_id order with
  | Some linked_id => register_oco (o_id order) linked_id book
  | None => book
  end.

Definition replay_cancel (order_id : Uuid) (s : ReplayState) : ReplayState :=
  let (books, open_orders) := s in
  match open_orders !! order_id with
  | None => s
  | Some meta =>
      match books !! oo_symbol meta with
      | None => s
      | Some book =>
          let (book, events) := cancel_order order_id book in
          (<[oo_symbol meta := book]> books, apply_open_order_updates None events open_orders)
      end
  end.

Definition replay_command (c : WalCommand D) (s : ReplayState) : option ReplayState :=
  let (books, open_orders) := s in
  match c with
  | PlaceOrder order =>
      match match_order fuel order (book_for order books) with
      | None => None
      | Some (book, events) =>
          Some (<[o_symbol order := book]> books,
                apply_open_order_updates (Some order) events open_orders)
      end
  | CancelOrder order_id => Some (replay_cancel order_id s)
  end.

Fixpoint replay_commands (cs : list (WalCommand D)) (s : ReplayState) : option ReplayState :=
  match cs with
  | [] => Some s
  | c :: cs => match replay_command c s with None => None | Some s => replay_commands cs s end
  end.

Context {codec : Codec (WalEntry D)}.

(** [replay_books], from the file. *)
Definition replay_books (file : option bytes) : option ReplayState :=
  match wal_replay file with
  | None => None
  | Some (entries, _) => replay_commands (we_command <$> entries) (∅, ∅)
  end.
End Replay.

Section Engine.
Context {D : Type} {dops : DecimalOps D}.
Context {W : Type} {wal : CommandLog W (WalCommand D)}.
Context {ecodec : Codec (SequencedEngineEvent D)}.
Context (fuel : nat) (next_uuid : nat -> Uuid) (now_rfc3339 : nat -> string).

Abbreviation State := (EngineState D W).
Implicit Types (st : State).

(** A handler: [None] is an exhausted loop, [Err] an error after the state was changed. *)
Definition Handler (A : Type) : Type := option (State * result ServerError A).

(** ** Field updates *)

Definition set_books x st : State :=
  mkEngine x (es_command_wal st) (es_event_log st) (es_halted_symbols st) (es_open_orders st)
    (es_ids_drawn st) (es_clock_reads st) (es_snapshot_depth st).
Definition set_command_wal x st : State :=
  mkEngine (es_books st) x (es_event_log st) (es_halted_symbols st) (es_open_orders st)
    (es_ids_drawn st) (es_clock_reads st) (es_snapshot_depth st).
Definition set_event_log x st : State :=
  mkEngine (es_books st) (es_command_wal st) x (es_halted_symbols st) (es_open_orders st)
    (es_ids_drawn st) (es_clock_reads st) (es_snapshot_depth st).
Definition set_halted x st : State :=
  mkEngine (es_books st) (es_command_wal st) (es_event_log st) x (es_open_orders st)
    (es_ids_drawn st) (es_clock_reads st) (es_snapshot_depth st).
Definition set_open_orders x st : State :=
  mkEngine (es_books st) (es_command_wal st) (es_event_log st) (es_halted_symbols st) x
    (es_ids_drawn st) (es_clock_reads st) (es_snapshot_depth st).
Definition tick st : State :=
  mkEngine (es_books st) (es_command_wal st) (es_event_log st) (es_halted_symbols st)
    (es_open_orders st) (S (es_ids_drawn st)) (S (es_clock_reads st)) (es_snapshot_depth st).

(** ** Events *)

(** [sequence_events]: stops at the first append that fails. *)
Fixpoint sequence_events (events : list (WireEvent D)) st :
    State * result ServerError (list (SequencedEngineEvent D)) :=
  match events with
  | [] => (st, Ok [])
  | e :: events =>
      let (log, r) := append_next e (es_event_log st) in
      let st := set_event_log log st in
      match r with
      | Err e => (st, Err (SeIo e))
      | Ok s =>
          let (st, r) := sequence_events events st in
          match r with Err e => (st, Err e) | Ok ss => (st, Ok (s :: ss)) end
      end
  end.

(** [to_wire_fill] draws a trade id and reads the clock. *)
Definition to_wire_fill (symbol : string) (fill : Fill D) st : State * TradeFill D :=
  (tick st,
   mkTradeFill (next_uuid (es_ids_drawn st)) symbol (fl_taker_order_id fill)
     (fl_maker_order_id fill) (fl_price fill) (fl_quantity fill)
     (to_wire_side (fl_taker_side fill)) (now_rfc3339 (es_clock_reads st))).

Fixpoint to_wire_core_events (symbol : string) (events : list (EngineEvent D)) st :
    State * list (WireEvent D) * list (TradeFill D) :=
  match events with
  | [] => (st, [], [])
  | EvFill fill :: events =>
      let (st, wire_fill) := to_wire_fill symbol fill st in
      let '(st, es, fills) := to_wire_core_events symbol events st in
      (st, WeFill wire_fill :: es, wire_fill :: fills)
  | EvRested order_id remaining :: events =>
      let '(st, es, fills) := to_wire_core_events symbol events st in
      (st, WeOrderRested order_id remaining :: es, fills)
  | EvCancelled order_id reason :: events =>
      let '(st, es, fills) := to_wire_core_events symbol events st in
      (st, WeOrderCanceled order_id (to_wire_cancel_reason reason) :: es, fills)
  | EvStopTriggered _ :: events => to_wire_core_events symbol events st
  end.

Definition to_wire_cancel_events (events : list (EngineEvent D)) : list (WireEvent D) :=
  omap (fun e => match e with
                 | EvCancelled id reason => Some (WeOrderCanceled id (to_wire_cancel_reason reason))
                 | _ => None
                 end) events.

(** [state::depth_levels]. *)
Definition state_depth_levels (book : OrderBook D) (depth : nat) : list (D * D) * list (D * D) :=
  (d_bids (depth_levels depth book), d_asks (depth_levels depth book)).

Definition book_snapshot (symbol : string) (depth : nat) st : BookSnapshot D :=
  let (bids, asks) :=
    match es_books st !! symbol with
    | None => ([], [])
    | Some book => state_depth_levels book depth
    end in
  mkSnapshot symbol bids asks (el_sequence (es_event_log st)).

Definition book_delta_event (symbol : string) st : WireEvent D :=
  let s := book_snapshot symbol (es_snapshot_depth st) st in
  WeBookDelta (mkDelta (bs_symbol s) (bs_bids s) (bs_asks s)).

Definition reject (request_id : Uuid) (code message : string) : ResponseBundle D :=
  mkBundle (RespReject (reject_response request_id code message)) [].
Definition market_halted (request_id : Uuid) : ResponseBundle D :=
  reject request_id MARKET_HALTED "market is halted and cannot accept new orders".
Definition order_not_found (request_id : Uuid) (message : string) : ResponseBundle D :=
  reject request_id ORDER_NOT_FOUND message.

(** ** Handlers *)

Definition place_order (request_id : Uuid) (wire_order : EngineOrder D) st :
    Handler (ResponseBundle D) :=
  match validate_wire_order request_id wire_order with
  | Some rejected => Some (st, Ok (mkBundle (RespReject rejected) []))
  | None =>
      let symbol := eo_symbol wire_order in
      if bool_decide (symbol ∈ es_halted_symbols st) then
        Some (st, Ok (market_halted request_id))
      else
        let order := to_core_order wire_order in
        let (w, r) := log_append (PlaceOrder order) (es_command_wal st) in
        let st := set_command_wal w st in
        match r with
        | Err e => Some (st, Err (SeIo e))
        | Ok _ =>
            match match_order fuel order (book_for order (es_books st)) with
            | None => None
            | Some (book, core_events) =>
                let st := set_books (<[symbol := book]> (es_books st)) st in
                match immediate_pre_reject request_id (o_id order) core_events with
                | Some rejected => Some (st, Ok (mkBundle (RespReject rejected) []))
                | None =>
                    let st := set_open_orders
                      (apply_open_order_updates (Some order) core_events (es_open_orders st)) st in
                    let '(st, wire_events, fills) :=
                      to_wire_core_events symbol core_events st in
                    let wire_events :=
                      (WeOrderAccepted wire_order :: wire_events) ++ [book_delta_event symbol st] in
                    let (st, r) := sequence_events wire_events st in
                    match r with
                    | Err e => Some (st, Err e)
                    | Ok events =>
                        let seq := last_seq_or_current events (el_sequence (es_event_log st)) in
                        let status :=
                          order_status_for_place (o_id order) (o_quantity order) core_events in
                        let result := AckOrder (mkOrderAck (o_id order) status
                          (filter (fun f => tf_taker_order_id f = o_id order) fills) seq) in
                        Some (st, Ok (mkBundle (RespAck request_id result) events))
                    end
                end
            end
        end
  end.

Definition cancel_known_order (order_id : Uuid) st :
    State * result ServerError (list (EngineEvent D)) :=
  match es_open_orders st !! order_id with
  | None => (st, Ok [])
  | Some meta =>
      let (w, r) := log_append (CancelOrder order_id) (es_command_wal st) in
      let st := set_command_wal w st in
      match r with
      | Err e => (st, Err (SeIo e))
      | Ok _ =>
          match es_books st !! oo_symbol meta with
          | None => (st, Ok [])
          | Some book =>
              let (book, core_events) := cancel_order order_id book in
              let st := set_books (<[oo_symbol meta := book]> (es_books st)) st in
              let st := set_open_orders
                (apply_open_order_updates None core_events (es_open_orders st)) st in
              (st, Ok core_events)
          end
      end
  end.

(** [EngineState::cancel_order]. *)
Definition cancel_order_request (request : CancelRequest) st :
    State * result ServerError (ResponseBundle D) :=
  let request_id := cr_request_id request in
  match es_open_orders st !! cr_order_id request with
  | None => (st, Ok (order_not_found request_id "order was not found"))
  | Some meta =>
      if negb (bool_decide (oo_symbol meta = cr_symbol request)) then
        (st, Ok (order_not_found request_id "order was not found for symbol"))
      else
        let (st, r) := cancel_known_order (cr_order_id request) st in
        match r with
        | Err e => (st, Err e)
        | Ok [] => (st, Ok (order_not_found request_id "order was not found"))
        | Ok core_events =>
            let wire_events :=
              to_wire_cancel_events core_events ++ [book_delta_event (cr_symbol request) st] in
            let (st, r) := sequence_events wire_events st in
            match r with
            | Err e => (st, Err e)
            | Ok events =>
                let seq := last_seq_or_current events (el_sequence (es_event_log st)) in
                (st, Ok (mkBundle (RespAck request_id
                   (AckCancel (mkCancelAck (cr_order_id request) StCanceled seq))) events))
            end
        end
  end.

(** The [for order_id in order_ids] loop of [cancel_all]. *)
Fixpoint cancel_each (order_ids : list Uuid) (canceled_ids : list Uuid)
    (changed_symbols : gset string) (wire_events : list (WireEvent D)) st :
    State * result ServerError (list Uuid * gset string * list (WireEvent D)) :=
  match order_ids with
  | [] => (st, Ok (canceled_ids, changed_symbols, wire_events))
  | order_id :: order_ids =>
      match es_open_orders st !! order_id with
      | None => cancel_each order_ids canceled_ids changed_symbols wire_events st
      | Some meta =>
          let (st, r) := cancel_known_order order_id st in
          match r with
          | Err e => (st, Err e)
          | Ok [] => cancel_each order_ids canceled_ids changed_symbols wire_events st
          | Ok core_events =>
              cancel_each order_ids (canceled_ids ++ cancelled_order_ids core_events)
                (changed_symbols ∪ {[oo_symbol meta]})
                (wire_events ++ to_wire_cancel_events core_events) st
          end
      end
  end.

(** [Vec::dedup]: drops consecutive repetitions. *)
Fixpoint dedup (l : list Uuid) : list Uuid :=
  match l with
  | x :: ((y :: _) as l') => if N.eqb x y then dedup l' else x :: dedup l'
  | _ => l
  end.

Definition orders_of (user_id : Uuid) (symbol : option string)
    (open_orders : gmap Uuid (OpenOrder D)) : list Uuid :=
  (map_to_list (filter (fun e =>
     (N.eqb (oo_user_id e.2) user_id &&
      match symbol with
      | None => true
      | Some s => String.eqb s (oo_symbol e.2)
      end)%bool = true) open_orders)).*1.

Definition cancel_all (request : CancelAllRequest) st :
    State * result ServerError (ResponseBundle D) :=
  let order_ids :=
    merge_sort N.le (orders_of (ca_user_id request) (ca_symbol request) (es_open_orders st)) in
  let (st, r) := cancel_each order_ids [] ∅ [] st in
  match r with
  | Err e => (st, Err e)
  | Ok (canceled_ids, changed_symbols, wire_events) =>
      let canceled_ids := dedup (merge_sort N.le canceled_ids) in
      let wire_events := wire_events ++
        ((fun s => book_delta_event s st) <$> merge_sort String.le (elements changed_symbols)) in
      let (st, r) := sequence_events wire_events st in
      match r with
      | Err e => (st, Err e)
      | Ok events =>
          let seq := last_seq_or_current events (el_sequence (es_event_log st)) in
          (st, Ok (mkBundle (RespAck (ca_request_id request)
             (AckCancelAll (mkCancelAllAck canceled_ids seq))) events))
      end
  end.

Definition market_status_response (request : MarketControlRequest) (status : MarketStatus) st :
    State * result ServerError (ResponseBundle D) :=
  let (st, r) := sequence_events [WeMarketStatus (mc_symbol request) status] st in
  match r with
  | Err e => (st, Err e)
  | Ok events =>
      let seq := last_seq_or_current events (el_sequence (es_event_log st)) in
      (st, Ok (mkBundle (RespAck (mc_request_id request)
         (AckMarketStatus (mkStatusAck (mc_symbol request) status seq))) events))
  end.

Definition halt_market (request : MarketControlRequest) st :=
  market_status_response request Halted
    (set_halted ({[mc_symbol request]} ∪ es_halted_symbols st) st).

Definition resume_market (request : MarketControlRequest) st :=
  market_status_response request Trading
    (set_halted (es_halted_symbols st ∖ {[mc_symbol request]}) st).

Definition snapshot (request : SnapshotRequest) st : ResponseBundle D :=
  let depth := Nat.min (sr_depth request) (es_snapshot_depth st) in
  mkBundle (RespAck (sr_request_id request)
    (AckSnapshot (book_snapshot (sr_symbol request) depth st))) [].

Definition pong (request : PingRequest) : ResponseBundle D :=
  mkBundle (RespPong (pg_request_id request)) [].

Definition handle_request (request : EngineRequest D) st : Handler (ResponseBundle D) :=
  match request with
  | ReqPlace r => place_order (pr_request_id r) (pr_order r) st
  | ReqCancel r => Some (cancel_order_request r st)
  | ReqCancelAll r => Some (cancel_all r st)
  | ReqHaltMarket r => Some (halt_market r st)
  | ReqResumeMarket r => Some (resume_market r st)
  | ReqSnapshot r => Some (st, Ok (snapshot r st))
  | ReqPing r => Some (st, Ok (pong r))
  end.
End Engine.

(** [EngineState::open] on the two files and the quotas of their devices. *)
Definition engine_open {D} {dops : DecimalOps D} {wcodec : Codec (WalEntry D)}
    {ecodec : Codec (SequencedEngineEvent D)} (fuel : nat)
    (command_wal event_log : option bytes) (quota_w quota_e : list nat) (snapshot_depth : nat) :
    option (EngineState D Wal) :=
  match replay_books fuel command_wal, wal_open command_wal quota_w,
        event_log_open event_log quota_e with
  | Some (books, open_orders), Some w, Some log =>
      Some (mkEngine books w log ∅ open_orders 0 0 snapshot_depth)
  | _, _, _ => None
  end.
