(* ===== verification/Track.v ===== *)
(** * Track: the open-order table follows the books

    [EngineState] keeps, beside the books, a table of open orders that it updates from
    the events of each submission.  [covers O l] says that every order of [l] has an
    entry in [O] under its id, for its user and symbol, with at least its remaining
    quantity.  The lemmas follow it through a run: the entries of the orders in the book,
    of the taker and of the stops in flight are exactly what the events update, so the
    table covers the book a submission leaves ([match_order_covers]) and no entry of
    another book is touched ([agree_off]). *)
From stdpp Require Import relations.
From S2P Require Import Prelude Decimal BTree Types Stop Book BookInv BookOps.
From S2P Require Import BookLoop BookRun BookProps Engine.

Section Track.
Context {D : Type} {dops : DecimalOps D} {dlaws : DecimalLaws D}.
Context (t : Z) (Ht : valid_tick t) (sym : string) (sub : option (Order D)) (U : list Uuid).
Context (Hsub : forall s, sub = Some s -> o_symbol s = sym).
Implicit Types (b : OrderBook D) (o taker maker : Order D) (price : D) (q l Q : list (Order D))
  (st : LoopState D) (evs : list (EngineEvent D)).

Abbreviation Table := (gmap Uuid (OpenOrder D)).
Implicit Types (O : Table).

Definition entry_ok o (m : OpenOrder D) : Prop :=
  oo_symbol m = sym /\ oo_user_id m = o_user_id o /\ lot t (oo_remaining m) /\
  units (o_remaining o) <= units (oo_remaining m).

Record tracked O o : Prop := {
  tr_entry : exists m, O !! o_id o = Some m /\ entry_ok o m;
  tr_sub : forall s, sub = Some s -> o_id o = o_id s -> o_user_id o = o_user_id s;
  tr_in : o_id o ∈ U;
}.

Definition covers O l : Prop := Forall (tracked O) l.

(** Only entries of [U] differ. *)
Definition agree_off O O' : Prop := forall id, id ∉ U -> O' !! id = O !! id.

#[export] Instance agree_off_preorder : PreOrder agree_off.
Proof. split; [done|]. intros O1 O2 O3 H1 H2 id Hid. by rewrite H2, H1. Qed.

#[export] Instance covers_perm O : Proper (Permutation ==> iff) (covers O).
Proof. intros l1 l2 H. unfold covers. by rewrite H. Qed.

Lemma covers_app O l1 l2 : covers O (l1 ++ l2) <-> covers O l1 /\ covers O l2.
Proof. apply Forall_app. Qed.

Lemma covers_cons O o l : covers O (o :: l) <-> tracked O o /\ covers O l.
Proof. apply Forall_cons. Qed.

(** ** Single updates *)

(** An entry that is not looked at may change. *)
Lemma tracked_other O O' o : O' !! o_id o = O !! o_id o -> tracked O o -> tracked O' o.
Proof. intros H [(m & Hm & ?) ? ?]. split; [|done|done]. exists m. by rewrite H. Qed.

Lemma covers_other O O' id l :
  (forall i, i <> id -> O' !! i = O !! i) -> id ∉ ids l -> covers O l -> covers O' l.
Proof.
  intros H Hid. unfold covers. rewrite !Forall_forall. intros Hc o Ho.
  apply (tracked_other O); [|by apply Hc]. apply H. intros <-. by apply Hid, ids_in.
Qed.

Lemma tracked_less O o r :
  units r <= units (o_remaining o) -> tracked O o -> tracked O (set_remaining r o).
Proof.
  intros Hr [(m & Hm & ? & ? & ? & ?) ? ?]. split; [|done|done].
  exists m. split; [done|]. repeat split; try done. simpl. lia.
Qed.

Lemma decrement_ne id x O i : i <> id -> decrement_open_order id x O !! i = O !! i.
Proof.
  intros Hi. unfold decrement_open_order. destruct (O !! id); [|done].
  destruct (dleb _ x); [by rewrite lookup_delete_ne|by rewrite lookup_insert_ne].
Qed.

(** A partial fill keeps the entry, with as much as the order has left. *)
Lemma decrement_tracked O o x :
  tracked O o -> lot t x -> 0 <= units x -> units x < units (o_remaining o) ->
  units (dsub (o_remaining o) x) = units (o_remaining o) - units x ->
  tracked (decrement_open_order (o_id o) x O)
    (set_remaining (dsub (o_remaining o) x) o).
Proof.
  intros [(m & Hm & Hs & Hu & Hl & Hle) ? ?] Hx H0 Hlt Hd. split; [|done|done].
  unfold decrement_open_order. simpl. rewrite Hm, dleb_units.
  rewrite (proj2 (Z.leb_gt _ _)) by lia. rewrite lookup_insert_eq. eexists. split; [done|].
  destruct (lot_sub t (oo_remaining m) x) as [He ?]; [done|done|done|lia|].
  repeat split; simpl; try done. rewrite Hd, He. lia.
Qed.

Lemma agree_off_at O O' id : (forall i, i <> id -> O' !! i = O !! i) -> id ∈ U -> agree_off O O'.
Proof. intros H Hid i Hi. apply H. by intros ->. Qed.

Lemma updates_app evs1 evs2 O :
  apply_open_order_updates sub (evs1 ++ evs2) O =
  apply_open_order_updates sub evs2 (apply_open_order_updates sub evs1 O).
Proof. apply fold_left_app. Qed.

(** ** Cancelling *)

(** The table after some events, as seen from the orders that are left. *)
Definition advance O evs l : Prop :=
  covers (apply_open_order_updates sub evs O) l /\
  agree_off O (apply_open_order_updates sub evs O).

Lemma advance_nil O l : covers O l -> advance O [] l.
Proof. done. Qed.

Lemma advance_trans O evs1 evs2 l :
  agree_off O (apply_open_order_updates sub evs1 O) ->
  advance (apply_open_order_updates sub evs1 O) evs2 l -> advance O (evs1 ++ evs2) l.
Proof. intros H [? ?]. unfold advance. rewrite updates_app. split; [done|by etrans]. Qed.

#[export] Instance advance_proper O evs : Proper (Permutation ==> iff) (advance O evs).
Proof. intros l l' H. unfold advance. by rewrite H. Qed.

Lemma advance_perm O evs l l' : l ≡ₚ l' -> advance O evs l -> advance O evs l'.
Proof. unfold advance. by intros ->. Qed.

Lemma advance_cancel O id r l :
  id ∈ U -> id ∉ ids l -> covers O l -> advance O [EvCancelled id r] l.
Proof.
  intros Hin Hid Hc. split.
  - eapply covers_other; [|done|done]. intros i Hi. by apply lookup_delete_ne.
  - eapply agree_off_at; [|done]. intros i Hi. by apply lookup_delete_ne.
Qed.

(** Ids in use outside the book: everything in [Q] is in [X]. *)
Definition outside (X : list Uuid) Q : Prop := ids Q ⊆ X.

Lemma wf_outside X Q b id :
  book_wf t X b -> outside X Q -> id ∈ ids Q -> id ∉ ids (all_orders b).
Proof.
  intros Hwf Ho Hid. rewrite all_orders_ids. pose proof (wf_nodup t X b Hwf) as Hn.
  apply NoDup_app in Hn as (_ & Hn & _). by apply Hn, Ho.
Qed.

Lemma wf_all_nodup X b : book_wf t X b -> NoDup (ids (all_orders b)).
Proof.
  intros Hwf. rewrite all_orders_ids. pose proof (wf_nodup t X b Hwf) as Hn.
  by apply NoDup_app in Hn as (_ & _ & ?).
Qed.

Lemma cancel_internal_covers X Q id r b b' evs O :
  book_wf t X b -> outside X Q -> cancel_order_internal id r b = (b', evs) ->
  covers O (all_orders b ++ Q) -> advance O evs (all_orders b' ++ Q).
Proof.
  intros Hwf Hout (found & Hv & ->)%(cancel_internal_view t X) Hc; [|done].
  destruct (cancel_view_orders t X id b b' found Hwf Hv) as (rm & Hp & Hf).
  pose proof (wf_all_nodup X b Hwf) as Hn. rewrite Hp, <-(assoc (++)) in Hc.
  destruct found; [|destruct Hf as [-> _]; by apply advance_nil].
  destruct Hf as (o & -> & <-). apply covers_cons in Hc as [Ho Hc].
  apply advance_cancel; [apply Ho| |done].
  rewrite Hp in Hn. simpl in Hn. apply NoDup_cons in Hn as [Hn _].
  rewrite ids_app, not_elem_of_app. split; [done|]. intros Hin.
  apply (wf_outside X Q b (o_id o) Hwf Hout Hin). rewrite Hp. left.
Qed.

Lemma set_oco_all_orders m b : all_orders (set_oco m b) = all_orders b.
Proof. done. Qed.

Lemma maybe_cancel_oco_covers X Q id b b' evs O :
  book_wf t X b -> outside X Q -> maybe_cancel_oco id b = (b', evs) ->
  covers O (all_orders b ++ Q) -> advance O evs (all_orders b' ++ Q).
Proof.
  intros Hwf Hout. unfold maybe_cancel_oco. destruct (oco_links b !! id).
  - intros Hm Hc. eapply cancel_internal_covers; [|done|exact Hm|done]. by apply set_oco_wf.
  - intros [= <- <-]. apply advance_nil.
Qed.

Lemma cancel_order_covers id b b' evs O :
  book_wf t [] b -> cancel_order id b = (b', evs) ->
  covers O (all_orders b) -> advance O evs (all_orders b').
Proof.
  intros Hwf. unfold cancel_order. intros Heq Hc.
  assert (outside [] []) as Hout by (by intros ? ?).
  rewrite <-(app_nil_r (all_orders b)) in Hc. rewrite <-(app_nil_r (all_orders b')).
  destruct (oco_links b !! id) as [lk|].
  - destruct (cancel_order_internal id AdminCancel _) as [b1 e1] eqn:H1.
    destruct (cancel_order_internal lk OcoLinked b1) as [b2 e2] eqn:H2.
    injection Heq as <- <-.
    assert (book_wf t [] (set_oco (delete lk (delete id (oco_links b)))
      (set_oco (delete id (oco_links b)) b))) as Hwf0 by (by do 2 apply set_oco_wf).
    pose proof (cancel_internal_wf t [] id _ _ _ _ Hwf0 H1) as [Hwf1 _].
    destruct (cancel_internal_covers [] [] id _ _ _ _ O Hwf0 Hout H1 Hc) as [Hc1 Ha1].
    apply advance_trans; [done|].
    by eapply (cancel_internal_covers [] [] lk _ b1).
  - destruct (cancel_order_internal id AdminCancel _) as [b1 e1] eqn:H1.
    injection Heq as <- <-. eapply (cancel_internal_covers [] []); [|done|exact H1|done].
    by apply set_oco_wf.
Qed.

(** ** Inside a run *)

(** The submitted order has no entry until it rests; any other taker that is not used
    up has one. *)
Definition submitted taker : Prop :=
  exists s, sub = Some s /\ o_id taker = o_id s /\ o_user_id taker = o_user_id s /\
    o_id taker ∈ U.

Definition inflight (fresh : bool) taker : list (Order D) :=
  if fresh then [] else if (0 <? units (o_remaining taker))%Z then [taker] else [].

Definition loop_covers (fresh : bool) Q O st : Prop :=
  advance O (ls_events st) (all_orders (ls_book st) ++ inflight fresh (ls_taker st) ++ Q).

Lemma inflight_less fresh taker r O Q :
  units r <= units (o_remaining taker) ->
  covers O (inflight fresh taker ++ Q) -> covers O (inflight fresh (set_remaining r taker) ++ Q).
Proof.
  intros Hr. unfold inflight. destruct fresh; [done|]. simpl.
  destruct (Z.ltb_spec 0 (units (o_remaining taker))), (Z.ltb_spec 0 (units r)); simpl;
    rewrite ?covers_cons; try lia; try done.
  - intros [? ?]. split; [by apply tracked_less|done].
  - by intros [_ ?].
Qed.

Lemma inflight_ids fresh taker : ids (inflight fresh taker) ⊆ [o_id taker].
Proof. unfold inflight. intros x. destruct fresh, (0 <? units (o_remaining taker)); simpl; set_solver. Qed.

(** Moving the orders of a level: the ids that stay are those the level had. *)
Lemma all_orders_front X st price maker q q' rm :
  loop_inv t X st -> front st price maker q ->
  exists R, all_orders (ls_book st) ≡ₚ (maker :: q ++ R) /\
    all_orders (update_front st price q' rm) ≡ₚ (q' ++ R).
Proof.
  intros Hinv Hfr. destruct (level_update_book_orders t _ (opposite (o_side (ls_taker st)))
    price (maker :: q) q' rm (ls_book st) (li_wf _ _ _ Hinv) (fr_level _ _ _ _ Hfr)) as (R & H1 & H2).
  exists (R ++ stop_orders (stops (ls_book st))). unfold all_orders, update_front.
  rewrite H1, level_update_stops. unfold update_front in H2. rewrite H2.
  rewrite <-!(assoc (++)). done.
Qed.

(** What a pass may assume about ids. *)
Lemma front_fresh X st price maker q R Q :
  loop_inv t X st -> outside X Q -> all_orders (ls_book st) ≡ₚ (maker :: q ++ R) ->
  (o_id maker ∉ ids (q ++ R)) /\ (o_id maker ∉ ids Q) /\
  (o_id (ls_taker st) ∉ ids (q ++ R)) /\ (o_id (ls_taker st) ∉ ids Q) /\
  o_id maker <> o_id (ls_taker st).
Proof.
  intros [Hwf _] Hout Hp. pose proof (wf_nodup t _ _ Hwf) as Hn.
  rewrite <-all_orders_ids, Hp in Hn. simpl in Hn.
  apply NoDup_cons in Hn as [Htk Hn]. apply NoDup_app in Hn as (_ & HX & Hn).
  apply NoDup_cons in Hn as [Hmk _]. rewrite not_elem_of_app, not_elem_of_cons in Htk.
  destruct Htk as (HtX & Hne & Htl). split_and!; try done.
  - intros Hin. apply (HX (o_id maker)); [by apply Hout|left].
  - intros Hin. by apply HtX, Hout.
Qed.

(** A fill takes its quantity off the maker's and the taker's entries. *)
Lemma fill_covers fresh taker maker price rest O :
  fill_facts t taker maker -> order_ok t maker -> lot t (o_remaining taker) ->
  o_id maker <> o_id taker -> o_id maker ∉ ids rest -> o_id taker ∉ ids rest ->
  o_id taker ∈ U -> 0 < units (o_remaining taker) ->
  covers O (maker :: inflight fresh taker ++ rest) ->
  advance O [EvFill (mkFill (o_id taker) (o_id maker) price (fill_qty taker maker) (o_side taker))]
    ((if is_zero (o_remaining (filled taker maker)) then [] else [filled taker maker]) ++
     inflight fresh (set_remaining (dsub (o_remaining taker) (fill_qty taker maker)) taker) ++ rest).
Proof.
  intros [[Hql Hqp] Hqt Hqe Hst Hstl Hf Hfl] Hok Htl Hne Hm Htk HU Hpos Hc.
  apply covers_cons in Hc as [Hmk Hc]. apply covers_app in Hc as [Hin Hrest].
  set (x := fill_qty taker maker) in *. set (O1 := decrement_open_order (o_id maker) x O).
  assert (forall i, i <> o_id maker -> O1 !! i = O !! i) as HO1 by (apply decrement_ne).
  assert (forall i, i <> o_id taker -> decrement_open_order (o_id taker) x O1 !! i = O1 !! i)
    as HO2 by (apply decrement_ne).
  split.
  2:{ change (agree_off O (decrement_open_order (o_id taker) x O1)). etrans.
      - by eapply agree_off_at; [|apply Hmk].
      - by eapply agree_off_at. }
  change (covers (decrement_open_order (o_id taker) x O1)
    ((if is_zero (o_remaining (filled taker maker)) then [] else [filled taker maker]) ++
     inflight fresh (set_remaining (dsub (o_remaining taker) x) taker) ++ rest)).
  rewrite !covers_app. split_and!.
  - destruct (is_zero _) eqn:Hz; [constructor|]. rewrite is_zero_units, Z.eqb_neq in Hz.
    apply Forall_singleton. apply (tracked_other O1); [by apply HO2|].
    pose proof (effective_qty_le maker). apply decrement_tracked; [done|done|lia| |done].
    simpl in *. lia.
  - unfold inflight in *. destruct fresh; [constructor|]. simpl.
    rewrite (proj2 (Z.ltb_lt _ _)) in Hin by done. apply covers_cons in Hin as [Hin _].
    destruct (Z.ltb_spec 0 (units (dsub (o_remaining taker) x))); [|constructor].
    apply Forall_singleton. apply decrement_tracked; [|done|lia|lia|done].
    apply (tracked_other O); [|done]. by apply HO1, not_eq_sym.
  - apply (covers_other O1 _ (o_id taker)); [done|done|].
    by apply (covers_other O _ (o_id maker)).
Qed.

Lemma level_after_fill_perm taker maker q :
  level_after_fill taker maker q ≡ₚ
  (if is_zero (o_remaining (filled taker maker)) then [] else [filled taker maker]) ++ q.
Proof.
  unfold level_after_fill, fill_front. destruct (is_zero _); [done|].
  destruct (_ && _)%bool; [|done]. by rewrite Permutation_app_comm.
Qed.

Lemma loop_covers_in fresh Q O st :
  loop_covers fresh Q O st ->
  covers (apply_open_order_updates sub (ls_events st) O)
    (all_orders (ls_book st) ++ inflight fresh (ls_taker st) ++ Q).
Proof. by intros [? _]. Qed.

(** Closing a pass: the events it adds, from the table before it. *)
Lemma loop_covers_step fresh Q O st e l :
  loop_covers fresh Q O st ->
  advance (apply_open_order_updates sub (ls_events st) O) e l ->
  advance O (ls_events st ++ e) l.
Proof. intros [_ Ha]. by apply advance_trans. Qed.

Lemma pop_covers X fresh Q O st price maker q r reason :
  loop_inv t X st -> outside X Q -> front st price maker q ->
  units r <= units (o_remaining (ls_taker st)) ->
  loop_covers fresh Q O st ->
  advance O (ls_events st ++ [EvCancelled (o_id maker) reason])
    (all_orders (update_front st price q [o_id maker]) ++
     inflight fresh (set_remaining r (ls_taker st)) ++ Q).
Proof.
  intros Hinv Hout Hfr Hr Hc. apply (loop_covers_step fresh Q O st); [done|].
  apply loop_covers_in in Hc.
  destruct (all_orders_front X st price maker q q [o_id maker] Hinv Hfr) as (R & H1 & H2).
  destruct (front_fresh X st price maker q R Q Hinv Hout H1) as (Hm & HmQ & _ & _ & Hne).
  rewrite H1 in Hc. rewrite <-app_comm_cons in Hc. apply covers_cons in Hc as [Hmk Hc].
  eapply advance_perm; [by rewrite H2|].
  apply covers_app in Hc as [HqR Hin]. apply advance_cancel; [apply Hmk| |].
  - rewrite (ids_app (q ++ R)), (ids_app (inflight _ _)), !not_elem_of_app.
    split_and!; [done| |done]. intros Hi%inflight_ids. by apply list_elem_of_singleton in Hi.
  - apply covers_app. split; [done|]. by apply inflight_less.
Qed.

(** Cancelling the taker gives its entry up. *)
Lemma taker_cancel_covers X Q O evs b I id reason :
  book_wf t (id :: X) b -> outside X Q -> id ∈ U ->
  advance O evs (all_orders b ++ I ++ Q) ->
  advance O (evs ++ [EvCancelled id reason]) (all_orders b ++ Q).
Proof.
  intros Hwf Hout HU [Hc Ha]. apply advance_trans; [done|].
  rewrite !covers_app in Hc. destruct Hc as (Hb & _ & HQ). apply advance_cancel; [done| |].
  - rewrite ids_app, not_elem_of_app. pose proof (wf_nodup t _ _ Hwf) as Hn.
    simpl in Hn. apply NoDup_cons in Hn as [Hn _]. rewrite not_elem_of_app in Hn.
    rewrite all_orders_ids. destruct Hn as [HnX Hnb]. split; [done|].
    intros Hi. by apply HnX, Hout.
  - by apply covers_app.
Qed.

Lemma step_view_covers X fresh Q O st r :
  loop_inv t X st -> outside X Q -> o_id (ls_taker st) ∈ U -> step_view st r ->
  loop_covers fresh Q O st ->
  match r with
  | LsReturn st' => advance O (ls_events st') (all_orders (ls_book st') ++ Q)
  | LsContinue st' | LsBreak st' => loop_covers fresh Q O st'
  end.
Proof.
  intros Hinv Hout HU Hv Hc. pose proof (li_lot t X st Hinv) as Htl.
  pose proof (step_view_inv t X st r Ht Hinv Hv) as Hinv'.
  destruct Hv as [|price maker q b2 more Hfr Hne Hb|price maker q Hfr|price maker q r Hfr _ Hr
    |price maker q Hfr|price maker q Hfr _ _ Hlt]; [done|..].
  - destruct (front_facts t X st price maker q) as [Hok Hff]; [done..|].
    destruct (all_orders_front X st price maker q (level_after_fill (ls_taker st) maker q)
      (gone_after_fill (ls_taker st) maker) Hinv Hfr) as (R & H1 & H2).
    destruct (front_fresh X st price maker q R Q Hinv Hout H1) as (Hm & HmQ & Htq & HtQ & Hmt).
    unfold loop_covers. cbn [ls_events ls_book ls_taker].
    change (?a ++ ?x :: more) with (a ++ [x] ++ more).
    apply (loop_covers_step fresh Q O st); [done|]. apply loop_covers_in in Hc.
    assert (advance (apply_open_order_updates sub (ls_events st) O)
      [EvFill (mkFill (o_id (ls_taker st)) (o_id maker) price (fill_qty (ls_taker st) maker)
                 (o_side (ls_taker st)))]
      (all_orders (update_front st price (level_after_fill (ls_taker st) maker q)
                     (gone_after_fill (ls_taker st) maker)) ++
       inflight fresh (set_remaining
         (dsub (o_remaining (ls_taker st)) (fill_qty (ls_taker st) maker)) (ls_taker st)) ++ Q))
      as [Hc1 Ha1].
    { eapply advance_perm; [|apply (fill_covers fresh (ls_taker st) maker price ((q ++ R) ++ Q))];
        try done.
      - rewrite H2, level_after_fill_perm. solve_Permutation.
      - by rewrite ids_app, not_elem_of_app.
      - by rewrite ids_app, not_elem_of_app.
      - apply Hfr.
      - eapply covers_perm; [|exact Hc]. rewrite H1. solve_Permutation. }
    apply advance_trans; [done|].
    set (tk' := set_remaining _ _) in *.
    destruct (is_zero (o_remaining (filled (ls_taker st) maker))) eqn:Hz.
    + eapply (maybe_cancel_oco_covers (o_id (ls_taker st) :: X)); [|..|exact Hb|done].
      * eapply update_front_wf; [done|done| |apply level_after_fill_ids|].
        -- apply level_after_fill_ok; [done|]. by eapply front_maker_ok.
        -- by apply (level_after_fill_slices t).
      * intros i. rewrite ids_app, elem_of_app, elem_of_cons.
        intros [Hi%inflight_ids|Hi]; [apply list_elem_of_singleton in Hi; auto|right; auto].
    + injection Hb as <- <-. by apply advance_nil.
  - by apply (taker_cancel_covers X Q O _ _ (inflight fresh (ls_taker st))); [apply Hinv|..].
  - apply (pop_covers X); [done..| |done].
    destruct Hr as [[_ ->]|(_ & Hlt & ->)]; [lia|].
    destruct (front_facts t X st price maker q) as [Hok _]; [done..|].
    destruct (order_ok_rem t maker Hok) as [Hml ?].
    rewrite (lot_sub_units t); [lia|done|done|done|lia].
  - change [?x; ?y] with ([x] ++ [y]). rewrite (assoc (++)).
    apply (taker_cancel_covers X Q O _ _ (inflight fresh (ls_taker st))); [|done..|].
    + eapply (li_wf t X _ (proj1 Hinv')).
    + pose proof (pop_covers X fresh Q O st price maker q (o_remaining (ls_taker st))
        SelfTradePrevented Hinv Hout Hfr (Z.le_refl _) Hc) as Hp.
      by rewrite set_remaining_same in Hp.
  - apply (taker_cancel_covers X Q O _ _ (inflight fresh (ls_taker st))); [|done..|].
    + eapply (li_wf t X _ (proj1 Hinv')).
    + destruct (all_orders_front X st price maker q
        (set_remaining (dsub (o_remaining maker) (o_remaining (ls_taker st))) maker :: q) []
        Hinv Hfr) as (R & H1 & H2).
      split; [|apply Hc]. apply loop_covers_in in Hc. rewrite H1 in Hc. rewrite H2.
      rewrite <-app_comm_cons in Hc |- *. apply covers_cons in Hc as [Hmk Hc].
      apply covers_cons. split; [|done]. apply tracked_less; [|done].
      destruct (front_facts t X st price maker q) as [Hok _]; [done..|].
      pose proof (order_ok_rem t maker Hok) as [Hl _].
      rewrite (lot_sub_units t); [|done|done|done|lia]. pose proof (fr_pos _ _ _ _ Hfr). lia.
Qed.

(** ** A run *)

Definition role (fresh : bool) taker : Prop := fresh = true -> submitted taker.

Lemma cont_covers X fresh Q O st st' :
  loop_inv t X st -> outside X Q -> o_id (ls_taker st) ∈ U -> rtc cont st st' ->
  loop_covers fresh Q O st -> loop_covers fresh Q O st'.
Proof.
  intros Hinv Hout HU Hr. induction Hr as [st|st1 st2 st3 Hs Hr IH]; [done|]. intros Hc.
  pose proof (loop_step_view t X st1 Ht Hinv) as Hv. rewrite Hs in Hv.
  destruct (step_view_inv t X st1 _ Ht Hinv Hv) as (Hi & _ & [Hsame _]).
  apply IH; [done| |].
  - cbn in Hsame. by rewrite Hsame.
  - by apply (step_view_covers X fresh Q O st1 (LsContinue st2)).
Qed.

(** Resting writes the taker's entry. *)
Lemma rest_covers X fresh Q O evs taker b l :
  book_wf t (o_id taker :: X) b -> outside X Q -> role fresh taker -> o_id taker ∈ U ->
  lot t (o_remaining taker) -> 0 < units (o_remaining taker) ->
  l ≡ₚ taker :: all_orders b ++ Q ->
  advance O evs (all_orders b ++ inflight fresh taker ++ Q) ->
  advance O (evs ++ [EvRested (o_id taker) (o_remaining taker)]) l.
Proof.
  intros Hwf Hout Hrole HU Hl Hpos -> [Hc Ha]. apply advance_trans; [done|].
  set (O1 := apply_open_order_updates sub evs O) in *.
  set (O2 := apply_open_order_updates sub [EvRested (o_id taker) (o_remaining taker)] O1).
  assert (forall i, i <> o_id taker -> O2 !! i = O1 !! i) as H2.
  { intros i Hi. unfold O2. simpl. destruct sub as [s|]; [destruct (N.eqb_spec (o_id s) (o_id taker))|].
    - by rewrite lookup_insert_ne.
    - by rewrite lookup_alter_ne.
    - by rewrite lookup_alter_ne. }
  rewrite !covers_app in Hc. destruct Hc as (Hb & Hin & HQ).
  split; [|by eapply agree_off_at]. apply covers_cons. split.
  - destruct fresh.
    + destruct (Hrole eq_refl) as (s & Hs & Hid & Hu & _). split; [|by intros s' Hs' _; congruence|done].
      exists (mkOpen (o_user_id s) (o_symbol s) (o_remaining taker)).
      fold O2. unfold O2. simpl. rewrite Hs, Hid, N.eqb_refl, lookup_insert_eq. split; [done|].
      repeat split; simpl; [by apply Hsub|done|done|lia].
    + simpl in Hin. rewrite (proj2 (Z.ltb_lt _ _)) in Hin by done.
      apply covers_cons in Hin as [[(m & Hm & Hms & Hmu & _) Hagr _] _]. split; [|done|done].
      fold O2. unfold O2. simpl. destruct sub as [s|] eqn:Hs.
      * destruct (N.eqb_spec (o_id s) (o_id taker)) as [He|].
        -- rewrite lookup_insert_eq. eexists. split; [done|].
           repeat split; simpl; [by apply Hsub|symmetry; by apply Hagr|done|lia].
        -- rewrite lookup_alter_eq, Hm. simpl. eexists. split; [done|].
           repeat split; simpl; [done..|lia].
      * rewrite lookup_alter_eq, Hm. simpl. eexists. split; [done|].
        repeat split; simpl; [done..|lia].
  - apply (covers_other O1 _ (o_id taker)); [done| |by apply covers_app].
    rewrite ids_app, not_elem_of_app, all_orders_ids.
    pose proof (wf_nodup t _ _ Hwf) as Hn. simpl in Hn. apply NoDup_cons in Hn as [Hn _].
    rewrite not_elem_of_app in Hn. destruct Hn as [HnX Hnb]. split; [done|].
    intros Hi. by apply HnX, Hout.
Qed.

Lemma after_loop_covers X fresh Q O st b evs :
  loop_inv t X st -> outside X Q -> o_id (ls_taker st) ∈ U -> role fresh (ls_taker st) ->
  is_stop (o_order_type (ls_taker st)) = false ->
  step_view st (LsBreak st) -> after_loop st = (b, evs) ->
  loop_covers fresh Q O st -> advance O evs (all_orders b ++ Q).
Proof.
  intros [Hwf Htk] Hout HU Hrole Hst Hv. unfold after_loop.
  destruct (finalize_taker _ _ _) as [b1 fe] eqn:Hf. intros Heq Hc.
  apply (finalize_cases t X) in Hf; [|done..|by inversion Hv].
  destruct Hf as [[-> Hcase]|(_ & -> & -> & Hpos & Hwf1 & Hord & Hstp)].
  - assert (advance O (ls_events st ++ fe) (all_orders (ls_book st) ++ Q)) as [Hc1 Ha1].
    { destruct Hcase as [[Hz ->]|[_ [r ->]]].
      - rewrite app_nil_r. split; [|apply Hc]. apply loop_covers_in in Hc.
        rewrite !covers_app in Hc. rewrite !covers_app. destruct Hc as (? & _ & ?). by split.
      - by apply (taker_cancel_covers X Q O _ _ (inflight fresh (ls_taker st))). }
    destruct (_ || _)%bool.
    + destruct (maybe_cancel_oco _ _) as [b2 more] eqn:Hm. injection Heq as <- <-.
      rewrite (assoc (++)). apply advance_trans; [done|].
      eapply (maybe_cancel_oco_covers (o_id (ls_taker st) :: X)); [done| |exact Hm|done].
      intros i Hi. right. by apply Hout.
    + injection Heq as <- <-. by rewrite app_nil_r.
  - simpl in Heq. rewrite orb_false_r in Heq.
    rewrite is_zero_units, (proj2 (Z.eqb_neq _ _)) in Heq by lia. injection Heq as <- <-.
    apply (rest_covers X fresh Q _ _ _ (ls_book st)); try done; [exact (proj1 Htk)|].
    unfold all_orders. by rewrite Hord, Hstp.
Qed.

Lemma tracked_convert O o : tracked O o -> tracked O (convert_stop o).
Proof. by intros [? ? ?]. Qed.

Lemma triggers_covers X last b trig b' O :
  book_wf t X b -> triggers last b = (trig, b') ->
  covers O (all_orders b) -> covers O (all_orders b' ++ trig).
Proof.
  intros Hwf. unfold triggers. destruct last as [p|].
  2:{ intros [= <- <-]. by rewrite app_nil_r. }
  unfold check_stop_triggers. destruct (drain_triggered p (stops b)) as [out r] eqn:Hd.
  intros [= <- <-]. pose proof (wf_stops t X b Hwf) as Hok.
  destruct (drain_triggered_perm p (stops b) out r) as (fired & -> & Hp);
    [apply Hok|apply Hok|done|].
  unfold all_orders. change (book_orders (set_stops r b)) with (book_orders b). simpl.
  rewrite <-Hp, !covers_app. intros (? & Hf & ?). split_and!; [done|done|].
  unfold covers. rewrite Forall_fmap. eapply Forall_impl; [exact Hf|]. apply tracked_convert.
Qed.

Lemma run_advances X fresh Q O n taker b b' evs trig :
  book_wf t (o_id taker :: X) b -> outside X Q -> order_ok t taker ->
  is_stop (o_order_type taker) = false -> o_id taker ∈ U -> role fresh taker ->
  run_matching_loop n taker b = Some (b', evs, trig) ->
  covers O (all_orders b ++ inflight fresh taker ++ Q) ->
  advance O evs (all_orders b' ++ Q ++ trig).
Proof.
  intros Hwf Hout Hok Hst HU Hrole. unfold run_matching_loop.
  destruct (match_loop n _) as [r|] eqn:Hl; [|done].
  apply match_loop_rtc in Hl as (st1 & Hr & Hend). intros Heq Hc0.
  pose proof (loop_start_inv t X taker b Hwf Hok) as Hinv0.
  destruct (cont_inv t X _ _ Ht Hinv0 Hr) as (Hinv & _ & Hsame). simpl in Hsame.
  pose proof Hsame as [Htk _].
  assert (loop_covers fresh Q O st1) as Hc.
  { by apply (cont_covers X fresh Q O (mkLoop b taker [] None false)). }
  assert (o_id (ls_taker st1) = o_id taker /\ role fresh (ls_taker st1) /\
    is_stop (o_order_type (ls_taker st1)) = false) as (Hid & Hrole1 & Hst1).
  { rewrite Htk. split_and!; [done|exact Hrole|done]. }
  pose proof (loop_step_view t X st1 Ht Hinv) as Hv.
  assert (forall Y last b1 e1 trig b2, book_wf t Y b1 -> advance O e1 (all_orders b1 ++ Q) ->
    triggers last b1 = (trig, b2) -> advance O e1 (all_orders b2 ++ Q ++ trig)) as Htrig.
  { intros Y last b1 e1 tr b2 Hwf1 [Hc1 Ha1] Htr. split; [|done].
    rewrite !covers_app in Hc1. rewrite !covers_app. destruct Hc1 as [Hc1 HQ].
    apply (triggers_covers Y last b1 tr b2) in Hc1; [|done..].
    rewrite covers_app in Hc1. destruct Hc1. by split_and!. }
  destruct r as [st'|st'].
  - pose proof (loop_break_same _ _ Hend) as ->. rewrite Hend in Hv.
    destruct (after_loop st1) as [b1 ev1] eqn:Ha.
    destruct (triggers _ b1) as [trig1 b2] eqn:Htr. injection Heq as <- <- <-.
    destruct (after_loop_ok t X taker st1 b1 ev1) as (Hwf1 & _); [done..|].
    eapply Htrig; [done| |done].
    eapply (after_loop_covers X fresh Q O st1); [done|done|by rewrite Hid|done..].
  - rewrite Hend in Hv. destruct (triggers _ _) as [trig1 b2] eqn:Htr.
    injection Heq as <- <- <-.
    destruct (step_view_inv t X st1 _ Ht Hinv Hv) as ([Hwf1 _] & _ & _).
    eapply Htrig; [done| |done].
    apply (step_view_covers X fresh Q O st1 (LsReturn st')); [done|done|by rewrite Hid|done..].
Qed.

(** ** The cascade and the submission *)

Lemma advance_sub O evs l l' : l' ⊆ l -> advance O evs l -> advance O evs l'.
Proof.
  intros Hs [Hc ?]. split; [|done]. unfold covers in *. rewrite Forall_forall in *. auto.
Qed.

Lemma advance_noop O evs (ts : list (Order D)) l :
  advance O evs l -> advance O (evs ++ ((fun o => EvStopTriggered (o_id o)) <$> ts)) l.
Proof.
  intros [Hc Ha]. apply advance_trans; [done|]. clear Ha.
  induction ts; csimpl; [by apply advance_nil|done].
Qed.

Lemma inflight_sub fresh taker : inflight fresh taker ⊆ [taker].
Proof. unfold inflight. intros x. destruct fresh, (0 <? units (o_remaining taker)); set_solver. Qed.

Lemma work_covers X O lf n queue depth evs b b' evs' :
  queue_ok t queue -> book_wf t (ids queue ++ X) b ->
  advance O evs (all_orders b ++ queue) ->
  work_loop lf n queue depth evs b = Some (b', evs') -> advance O evs' (all_orders b').
Proof.
  revert queue depth evs b. induction n as [|n IH]; intros queue depth evs b Hq Hwf Hc;
    simpl; destruct (vec_pop queue) as [[o queue']|] eqn:Hp; try done;
    try (apply vec_pop_None in Hp as ->; rewrite app_nil_r in Hc; by intros [= <- <-]).
  destruct (queue_pop t X queue o queue' b) as (Hq' & Hok & Hst & Hwf'); [done..|].
  apply vec_pop_Some in Hp as ->.
  destruct (run_matching_loop lf o b) as [[[b1 ev1] trig]|] eqn:Hr; [|done].
  pose proof (run_matching_loop_ok t _ _ _ _ _ _ _ Ht Hwf' Hok Hst Hr) as Hrok.
  assert (advance O (evs ++ ev1) (all_orders b1 ++ queue' ++ trig)) as Hc1.
  { destruct Hc as [Hc Ha]. apply advance_trans; [done|].
    rewrite !covers_app in Hc. destruct Hc as (Hb & HQ & Ho). apply covers_cons in Ho as [Ho _].
    eapply (run_advances (ids queue' ++ X) false queue'); [done| |done|done|apply Ho|done|done|].
    - intros i Hi. apply elem_of_app. by left.
    - rewrite !covers_app. split_and!; [done| |done]. unfold covers. rewrite Forall_forall.
      intros x Hx%inflight_sub. by apply list_elem_of_singleton in Hx as ->. }
  destruct (depth <? MAX_STOP_CHAIN_DEPTH).
  - destruct (round_ok t X o queue' trig b b1 true Hq' Hrok) as (? & ? & _).
    apply IH; [done|done|]. by apply advance_noop.
  - destruct (round_ok t X o queue' trig b b1 false Hq' Hrok) as (? & ? & _).
    apply IH; [done|done|]. eapply advance_sub; [|exact Hc1].
    intros x. rewrite !elem_of_app. tauto.
Qed.

Lemma match_order_covers O n taker b b' evs :
  book_wf t [] b -> admissible t taker b -> sub = Some taker -> o_id taker ∈ U ->
  covers O (all_orders b) -> match_order n taker b = Some (b', evs) ->
  advance O evs (all_orders b').
Proof.
  intros Hwf Had Hs HU Hc Hm. pose proof (admissible_wf t taker b Hwf Had) as Hwf1.
  pose proof Had as [Hok Hfree]. rewrite <-all_orders_ids in Hfree.
  assert (submitted taker) as Hsubm by (by exists taker).
  assert (forall r, advance O [EvCancelled (o_id taker) r] (all_orders b)) as Hcancel
    by (intros r; by apply advance_cancel).
  destruct (pre_check taker b) as [e|] eqn:Hpc.
  { unfold match_order in Hm. rewrite Hpc in Hm. injection Hm as <- <-.
    unfold pre_check in Hpc. split_match_in Hpc; apply Hcancel. }
  destruct (is_stop (o_order_type taker)) eqn:Hst.
  - unfold match_order in Hm. rewrite Hpc, Hst in Hm. injection Hm as Hm.
    unfold register_stop_order in Hm. destruct (stop_insert taker (stops b)) as [r|e] eqn:Hi.
    + injection Hm as <- <-. apply (stop_insert_ok t) in Hi as [_ Hp]; [|apply Hwf|done|done].
      destruct (order_ok_rem t taker Hok) as [Hl Hpos].
      apply (rest_covers [] true [] O [] taker b); try done.
      * by intros ? ?.
      * by intros _.
      * rewrite app_nil_r. unfold all_orders.
        change (book_orders (set_stops r b)) with (book_orders b).
        change (stops (set_stops r b)) with r. rewrite Hp. solve_Permutation.
      * simpl. by rewrite app_nil_r.
    + injection Hm as <- <-. apply Hcancel.
  - destruct (match_order_first_run n taker b b' evs Hpc Hst Hm)
      as (b1 & e1 & trig & n' & Hrun & Hwork).
    pose proof (run_matching_loop_ok t [] n taker b b1 e1 trig Ht Hwf1 Hok Hst Hrun) as Hrok.
    eapply (work_covers []); [..|exact Hwork].
    + apply Hrok.
    + apply Hrok.
    + apply advance_noop. apply (run_advances [] true [] O n taker b b1 e1 trig); try done.
      * by intros ? ?.
      * by intros _.
      * simpl. by rewrite app_nil_r.
Qed.
End Track.
