(* ===== verification/OrderStatus.v ===== *)
(** * OrderStatus: rejected submissions, and the status reported for an order

    After matching, the server turns a [FokUnfilled] or [PostOnlyCrossed] cancellation of
    the submitted order into a reject and drops everything else the submission did
    ([immediate_pre_reject]).  [match_order_clean] shows that, but for fill-or-kill orders
    that meet an order of their own user or an OCO link, such a cancellation is the only
    event and the book is untouched, so nothing is dropped. *)
From stdpp Require Import relations.
From S2P Require Import Prelude Decimal BTree Types Stop Book BookInv BookOps.
From S2P Require Import BookLoop BookRun BookSpec BookCheck BookConserve BookProps.
From S2P Require Import Proto Wire.

Section PreReject.
Context {D : Type} {dops : DecimalOps D} {dlaws : DecimalLaws D}.
Implicit Types (b : OrderBook D) (o taker maker : Order D) (st : LoopState D)
  (evs : list (EngineEvent D)).

(** The cancellations the server reports as rejects. *)
Definition soft (e : EngineEvent D) : Prop :=
  match e with
  | EvCancelled _ FokUnfilled | EvCancelled _ PostOnlyCrossed => False
  | _ => True
  end.

(** The order types that are not checked before matching. *)
Definition mild o : Prop := o_order_type o <> Fok /\ o_order_type o <> PostOnly.

Lemma soft_no_reject request_id id evs :
  Forall soft evs -> immediate_pre_reject request_id id evs = None.
Proof.
  induction 1 as [|e evs He _ IH]; [done|]. simpl.
  destruct e as [| |x r|]; try done. destruct (N.eqb x id); [|done]. by destruct r.
Qed.

Lemma maybe_cancel_oco_soft id b b' evs :
  maybe_cancel_oco id b = (b', evs) -> Forall soft evs.
Proof.
  unfold maybe_cancel_oco, cancel_order_internal. intros H.
  repeat case_match; simplify_eq/=; by repeat constructor.
Qed.

Lemma step_view_soft st r :
  step_view st r -> Forall soft (ls_events st) -> Forall soft (ls_events (step_state r)).
Proof.
  intros Hv Hs. destruct Hv as [|price maker q b2 more _ _ Hb| | | |]; simpl; [done|..];
    (apply Forall_app; split; [done|]); try by repeat constructor.
  constructor; [done|]. destruct (is_zero _); [by eapply maybe_cancel_oco_soft|].
  by injection Hb as <- <-.
Qed.

Lemma cont_soft t X st st' :
  valid_tick t -> loop_inv t X st -> rtc cont st st' ->
  Forall soft (ls_events st) -> Forall soft (ls_events st').
Proof.
  intros Ht Hinv Hr. induction Hr as [st|st1 st2 st3 Hs Hr IH]; [done|]. intros Hc.
  pose proof (loop_step_view t X st1 Ht Hinv) as Hv. rewrite Hs in Hv.
  destruct (step_view_inv t X st1 _ Ht Hinv Hv) as (Hi & _). apply IH; [done|].
  by apply (step_view_soft st1 (LsContinue st2)).
Qed.

Lemma finalize_soft taker had b b' evs :
  mild taker -> finalize_taker taker had b = (b', evs) -> Forall soft evs.
Proof.
  intros [Hf Hp]. unfold finalize_taker. destruct (is_zero _); [by intros [= <- <-]|].
  destruct (o_order_type taker), had; intros [= <- <-]; by repeat constructor.
Qed.

Lemma after_loop_soft st b evs :
  mild (ls_taker st) -> Forall soft (ls_events st) -> after_loop st = (b, evs) -> Forall soft evs.
Proof.
  intros Hm Hs. unfold after_loop.
  destruct (finalize_taker _ _ _) as [b1 fe] eqn:Hf. apply finalize_soft in Hf; [|done].
  destruct (_ || _)%bool; [destruct (maybe_cancel_oco _ _) as [b2 more] eqn:Ho|];
    intros [= <- <-]; rewrite !Forall_app; split_and!; try done.
  by eapply maybe_cancel_oco_soft.
Qed.

Lemma triggers_mild t X last b trig b' :
  book_wf t X b -> triggers last b = (trig, b') -> Forall mild trig.
Proof.
  intros Hwf. unfold triggers. destruct last as [p|]; [|by intros [= <- <-]].
  unfold check_stop_triggers. destruct (drain_triggered p (stops b)) as [out r] eqn:Hd.
  intros [= <- <-]. pose proof (wf_stops t X b Hwf) as Hok.
  destruct (drain_triggered_perm p (stops b) out r) as (fired & -> & Hp);
    [apply Hok|apply Hok|done|].
  apply Forall_fmap, Forall_forall. intros o Ho.
  destruct (stop_orders_in t (stops b) o) as (s & k & _ & _ & _ & Hs); [done| |].
  - rewrite <-Hp, elem_of_app. by left.
  - unfold mild, convert_stop. simpl. by destruct (o_order_type o).
Qed.

Lemma run_soft t X n taker b b' evs trig :
  valid_tick t -> book_wf t (o_id taker :: X) b -> order_ok t taker ->
  is_stop (o_order_type taker) = false -> 
  run_matching_loop n taker b = Some (b', evs, trig) ->
  Forall mild trig /\ (mild taker -> Forall soft evs).
Proof.
  intros Ht Hwf Hok Hst. unfold run_matching_loop.
  destruct (match_loop n _) as [r|] eqn:Hl; [|done].
  apply match_loop_rtc in Hl as (st1 & Hr & Hend).
  pose proof (loop_start_inv t X taker b Hwf Hok) as Hinv0.
  destruct (cont_inv t X _ _ Ht Hinv0 Hr) as (Hinv & _ & Hsame). simpl in Hsame.
  pose proof Hsame as [Htk _].
  pose proof (cont_soft t X _ _ Ht Hinv0 Hr ltac:(done)) as Hs.
  pose proof (loop_step_view t X st1 Ht Hinv) as Hv.
  destruct r as [st'|st'].
  - pose proof (loop_break_same _ _ Hend) as ->. rewrite Hend in Hv.
    destruct (after_loop st1) as [b1 ev1] eqn:Ha.
    destruct (triggers _ b1) as [trig1 b2] eqn:Htr. intros [= <- <- <-].
    destruct (after_loop_ok t X taker st1 b1 ev1) as (Hwf1 & _); [done|done|by rewrite Htk|done..|].
    split; [by eapply triggers_mild|]. intros Hm. eapply after_loop_soft; [|done|done].
    unfold mild. by rewrite Htk.
  - rewrite Hend in Hv. destruct (triggers _ _) as [trig1 b2] eqn:Htr. intros [= <- <- <-].
    destruct (step_view_inv t X st1 _ Ht Hinv Hv) as ([Hwf1 _] & _ & _).
    split; [by eapply triggers_mild|]. intros _.
    by apply (step_view_soft st1 (LsReturn st')).
Qed.

Lemma work_soft t X lf n queue depth evs b b' evs' :
  valid_tick t -> queue_ok t queue -> book_wf t (ids queue ++ X) b ->
  Forall mild queue -> Forall soft evs ->
  work_loop lf n queue depth evs b = Some (b', evs') -> Forall soft evs'.
Proof.
  intros Ht. revert queue depth evs b.
  induction n as [|n IH]; intros queue depth evs b Hq Hwf Hm Hs;
    simpl; destruct (vec_pop queue) as [[o queue']|] eqn:Hp; try done; try by intros [= <- <-].
  destruct (queue_pop t X queue o queue' b) as (Hq' & Hok & Hst & Hwf'); [done..|].
  apply vec_pop_Some in Hp as ->. apply Forall_app in Hm as [Hm' Ho].
  apply Forall_cons in Ho as [Ho _].
  destruct (run_matching_loop lf o b) as [[[b1 ev1] trig]|] eqn:Hr; [|done].
  pose proof (run_matching_loop_ok t _ _ _ _ _ _ _ Ht Hwf' Hok Hst Hr) as Hrok.
  destruct (run_soft t _ lf o b b1 ev1 trig Ht Hwf' Hok Hst Hr) as [Htm Hev].
  specialize (Hev Ho). destruct (depth <? MAX_STOP_CHAIN_DEPTH).
  - destruct (round_ok t X o queue' trig b b1 true Hq' Hrok) as (? & ? & _).
    apply IH; [done|done|by apply Forall_app|]. rewrite !Forall_app. split_and!; [done|done|].
    apply Forall_fmap, Forall_forall. done.
  - destruct (round_ok t X o queue' trig b b1 false Hq' Hrok) as (? & ? & _).
    apply IH; [done|done|done|by apply Forall_app].
Qed.

(** A fill-or-kill order for which the check before matching is exact. *)
Definition exact_fok (t : Z) taker b : Prop :=
  o_order_type taker = Fok -> fits t b /\ plain taker b.

Lemma match_order_clean t n taker b b' evs :
  valid_tick t -> book_wf t [] b -> admissible t taker b -> exact_fok t taker b ->
  match_order n taker b = Some (b', evs) ->
  (b' = b /\ exists r, evs = [EvCancelled (o_id taker) r] /\ ~ soft (EvCancelled (o_id taker) r)) \/
  Forall soft evs.
Proof.
  intros Ht Hwf Had Hex Hm. pose proof Had as [Hok _].
  pose proof (admissible_wf t taker b Hwf Had) as Hwf1.
  destruct (pre_check taker b) as [e|] eqn:Hpc.
  { left. unfold match_order in Hm. rewrite Hpc in Hm. injection Hm as <- <-. split; [done|].
    unfold pre_check in Hpc. split_match_in Hpc; eexists; (split; [done|]); simpl; tauto. }
  destruct (is_stop (o_order_type taker)) eqn:Hst.
  { right. unfold match_order in Hm. rewrite Hpc, Hst in Hm. unfold register_stop_order in Hm.
    destruct (stop_insert _ _); injection Hm as <- <-; by repeat constructor. }
  destruct (match_order_first_run n taker b b' evs Hpc Hst Hm)
    as (b1 & e1 & trig & n' & Hrun & Hwork).
  destruct (run_soft t [] n taker b b1 e1 trig Ht Hwf1 Hok Hst Hrun) as [Htm Hev].
  pose proof (run_matching_loop_ok t [] n taker b b1 e1 trig Ht Hwf1 Hok Hst Hrun) as Hrok.
  destruct (decide (o_order_type taker = PostOnly)) as [Hpo|Hpo].
  { destruct (post_only_cases t n taker b b' evs Hok Hpo Hm) as [[-> ->]|[-> ->]].
    - left. split; [done|]. eexists. split; [done|]. simpl. tauto.
    - right. by repeat constructor. }
  right. eapply (work_soft t []); [done| | | | |exact Hwork]; [apply Hrok|apply Hrok|done|].
  apply Forall_app. split; [|by apply Forall_fmap, Forall_forall].
  destruct (decide (o_order_type taker = Fok)) as [Hf|Hf]; [|by apply Hev].
  destruct (Hex Hf) as [Hfit Hpl].
  rewrite (fok_pre_check t taker b Ht Hwf Hok Hfit Hf) in Hpc.
  destruct (_ <=? _)%Z eqn:Hr; [|done]. apply Z.leb_le in Hr.
  destruct (fok_run_fills t n taker b b1 e1 trig) as [Hfl _]; [done..|].
  eapply Forall_impl; [exact Hfl|]. by intros e [f ->].
Qed.
End PreReject.

(** * The status reported for a placed order

    [order_status_for_place] reads the status of an order off all the events of its
    submission, those of the triggered stops included.  The events of the first run are
    about the order itself ([own]); those of the cascade are never about it
    ([foreign]), so the status is that of the first run. *)

Section Status.
Context {D : Type} {dops : DecimalOps D} {dlaws : DecimalLaws D}.
Implicit Types (b : OrderBook D) (o taker maker : Order D) (st : LoopState D)
  (evs : list (EngineEvent D)) (x : Uuid).

(** Fills taken and remainders rested are those of [x]. *)
Definition own (t : Z) x (e : EngineEvent D) : Prop :=
  match e with
  | EvFill f => fl_taker_order_id f = x /\ pos_lot t (fl_quantity f)
  | EvRested id _ => id = x
  | _ => True
  end.

Definition foreign x (e : EngineEvent D) : Prop :=
  match e with
  | EvFill f => fl_taker_order_id f <> x
  | EvRested id _ => id <> x
  | _ => True
  end.

Lemma own_foreign t x y e : own t y e -> y <> x -> foreign x e.
Proof. destruct e; simpl; [intros [-> _]|intros ->| |]; done. Qed.

Lemma maybe_cancel_oco_own t x id b b' evs :
  maybe_cancel_oco id b = (b', evs) -> Forall (own t x) evs.
Proof.
  unfold maybe_cancel_oco, cancel_order_internal. intros H.
  repeat case_match; simplify_eq/=; by repeat constructor.
Qed.

Definition stop_ids b : list Uuid := ids (stop_orders (stops b)).

Lemma maybe_cancel_oco_stops t X id b b' evs :
  book_wf t X b -> maybe_cancel_oco id b = (b', evs) -> stop_ids b' ⊆ stop_ids b.
Proof.
  intros Hwf. unfold maybe_cancel_oco. destruct (oco_links b !! id) as [l|].
  2:{ by intros [= <- <-]. }
  intros (f & Hv & _)%(cancel_internal_view t X); [|by apply set_oco_wf].
  destruct Hv as [r Hc|Ha|s' p q1 o q2 Hst Hid Hg]; [|done|].
  - apply (stop_cancel_Some t) in Hc as [(o & _ & Hp) _]. unfold stop_ids. simpl.
    change (stops (set_oco _ b)) with (stops b) in Hp. rewrite <-Hp. intros i Hi. by right.
  - unfold stop_ids. by rewrite level_update_stops.
Qed.

Lemma step_view_own t X st r :
  valid_tick t -> loop_inv t X st -> step_view st r ->
  Forall (own t (o_id (ls_taker st))) (ls_events st) ->
  Forall (own t (o_id (ls_taker st))) (ls_events (step_state r)) /\
  stop_ids (ls_book (step_state r)) ⊆ stop_ids (ls_book st).
Proof.
  intros Ht Hinv Hv Hs.
  assert (forall price q rm, stop_ids (update_front st price q rm) = stop_ids (ls_book st)) as Hu
    by (intros; unfold stop_ids, update_front; by rewrite level_update_stops).
  destruct Hv as [|price maker q b2 more Hfr Hne Hb| | | |]; simpl; rewrite ?Hu; try done;
    try (split; [apply Forall_app; split; [done|by repeat constructor]|done]).
  destruct (front_facts t X st price maker q) as [Hok Hff]; [done..|].
  rewrite Forall_app, Forall_cons, <-(Hu price (level_after_fill (ls_taker st) maker q)
    (gone_after_fill (ls_taker st) maker)).
  destruct (is_zero _).
  - split; [split; [done|split; [split; [done|apply Hff]|by eapply maybe_cancel_oco_own]]|].
    eapply (maybe_cancel_oco_stops t (o_id (ls_taker st) :: X)); [|exact Hb].
    eapply update_front_wf; [done|done| |apply level_after_fill_ids|].
    + apply level_after_fill_ok; [done|]. by eapply front_maker_ok.
    + by apply (level_after_fill_slices t).
  - injection Hb as <- <-. split; [split; [done|split; [split; [done|apply Hff]|constructor]]|done].
Qed.

Lemma cont_own t X st st' :
  valid_tick t -> loop_inv t X st -> rtc cont st st' ->
  Forall (own t (o_id (ls_taker st))) (ls_events st) ->
  Forall (own t (o_id (ls_taker st))) (ls_events st') /\
  stop_ids (ls_book st') ⊆ stop_ids (ls_book st).
Proof.
  intros Ht Hinv Hr. induction Hr as [st|st1 st2 st3 Hs Hr IH]; [done|]. intros Hc.
  pose proof (loop_step_view t X st1 Ht Hinv) as Hv. rewrite Hs in Hv.
  destruct (step_view_inv t X st1 _ Ht Hinv Hv) as (Hi & _ & [Htk _]). simpl in Htk.
  destruct (step_view_own t X st1 _ Ht Hinv Hv Hc) as [Ho Hsub]. simpl in Ho, Hsub.
  assert (o_id (ls_taker st2) = o_id (ls_taker st1)) as Hid by (by rewrite Htk).
  rewrite <-Hid in Ho |- *. destruct (IH Hi Ho) as [? ?]. split; [done|]. by etrans.
Qed.

Lemma after_loop_own t X st b evs :
  valid_tick t -> loop_inv t X st -> is_stop (o_order_type (ls_taker st)) = false ->
  step_view st (LsBreak st) -> after_loop st = (b, evs) ->
  Forall (own t (o_id (ls_taker st))) (ls_events st) ->
  Forall (own t (o_id (ls_taker st))) evs /\ stop_ids b ⊆ stop_ids (ls_book st).
Proof.
  intros Ht [Hwf Htk] Hst Hv. unfold after_loop.
  destruct (finalize_taker _ _ _) as [b1 fe] eqn:Hf. intros Heq Hs.
  apply (finalize_cases t X) in Hf; [|done..|by inversion Hv].
  assert (Forall (own t (o_id (ls_taker st))) fe /\ stop_ids b1 = stop_ids (ls_book st) /\
    exists Y, book_wf t Y b1) as (Hfe & Hsi & Y & HY).
  { destruct Hf as [[-> [[_ ->]|[_ [r ->]]]]|(_ & -> & -> & _ & ? & _ & Hstp)].
    - split_and!; [done|done|eauto].
    - split_and!; [by repeat constructor|done|eauto].
    - split_and!; [by repeat constructor|unfold stop_ids; by rewrite Hstp|eauto]. }
  rewrite <-Hsi. destruct (_ || _)%bool.
  - destruct (maybe_cancel_oco _ b1) as [b2 more] eqn:Hm. injection Heq as <- <-.
    rewrite !Forall_app. split; [split_and!; [done|done|by eapply maybe_cancel_oco_own]|].
    by eapply maybe_cancel_oco_stops.
  - injection Heq as <- <-. rewrite !Forall_app. by split_and!.
Qed.

Lemma triggers_stop_ids t X last b trig b' :
  book_wf t X b -> triggers last b = (trig, b') -> ids trig ++ stop_ids b' ≡ₚ stop_ids b.
Proof.
  intros Hwf. unfold triggers. destruct last as [p|]; [|by intros [= <- <-]].
  unfold check_stop_triggers. destruct (drain_triggered p (stops b)) as [out r] eqn:Hd.
  intros [= <- <-]. pose proof (wf_stops t X b Hwf) as Hok.
  destruct (drain_triggered_perm p (stops b) out r) as (fired & -> & Hp);
    [apply Hok|apply Hok|done|].
  unfold stop_ids. simpl. by rewrite convert_stop_ids, <-ids_app, Hp.
Qed.

Lemma run_own t X n taker b b' evs trig :
  valid_tick t -> book_wf t (o_id taker :: X) b -> order_ok t taker ->
  is_stop (o_order_type taker) = false ->
  run_matching_loop n taker b = Some (b', evs, trig) ->
  Forall (own t (o_id taker)) evs /\ ids trig ++ stop_ids b' ⊆ stop_ids b.
Proof.
  intros Ht Hwf Hok Hst. unfold run_matching_loop.
  destruct (match_loop n _) as [r|] eqn:Hl; [|done].
  apply match_loop_rtc in Hl as (st1 & Hr & Hend).
  pose proof (loop_start_inv t X taker b Hwf Hok) as Hinv0.
  destruct (cont_inv t X _ _ Ht Hinv0 Hr) as (Hinv & _ & Hsame). simpl in Hsame.
  pose proof Hsame as [Htk _].
  destruct (cont_own t X _ _ Ht Hinv0 Hr ltac:(done)) as [Hs Hsub]. simpl in Hs, Hsub.
  assert (o_id (ls_taker st1) = o_id taker) as Hid by (by rewrite Htk).
  rewrite <-Hid in Hs |- *. pose proof (loop_step_view t X st1 Ht Hinv) as Hv.
  destruct r as [st'|st'].
  - pose proof (loop_break_same _ _ Hend) as ->. rewrite Hend in Hv.
    destruct (after_loop st1) as [b1 ev1] eqn:Ha.
    destruct (triggers _ b1) as [trig1 b2] eqn:Htr. intros [= <- <- <-].
    assert (is_stop (o_order_type (ls_taker st1)) = false) as Hst1 by (by rewrite Htk).
    destruct (after_loop_own t X st1 b1 ev1 Ht Hinv Hst1 Hv Ha Hs) as [? ?].
    destruct (after_loop_ok t X taker st1 b1 ev1) as (Hwf1 & _); [done..|].
    split; [done|]. rewrite (triggers_stop_ids t _ _ _ _ _ Hwf1 Htr). by etrans.
  - rewrite Hend in Hv. destruct (triggers _ _) as [trig1 b2] eqn:Htr. intros [= <- <- <-].
    destruct (step_view_inv t X st1 _ Ht Hinv Hv) as ([Hwf1 _] & _ & _).
    destruct (step_view_own t X st1 _ Ht Hinv Hv Hs) as [? ?].
    split; [done|]. rewrite (triggers_stop_ids t _ _ _ _ _ Hwf1 Htr). by etrans.
Qed.

Lemma work_foreign t X x lf n queue depth evs b b' evs' :
  valid_tick t -> queue_ok t queue -> book_wf t (ids queue ++ X) b ->
  x ∉ ids queue -> x ∉ stop_ids b ->
  work_loop lf n queue depth evs b = Some (b', evs') ->
  exists more, evs' = evs ++ more /\ Forall (foreign x) more.
Proof.
  intros Ht. revert queue depth evs b.
  induction n as [|n IH]; intros queue depth evs b Hq Hwf Hx Hxs;
    simpl; destruct (vec_pop queue) as [[o queue']|] eqn:Hp; try done;
    try (intros [= <- <-]; exists []; by rewrite app_nil_r).
  destruct (queue_pop t X queue o queue' b) as (Hq' & Hok & Hst & Hwf'); [done..|].
  apply vec_pop_Some in Hp as ->. rewrite ids_app, not_elem_of_app in Hx.
  destruct Hx as [Hxq Hxo]. simpl in Hxo. rewrite list_elem_of_singleton in Hxo.
  destruct (run_matching_loop lf o b) as [[[b1 ev1] trig]|] eqn:Hr; [|done].
  pose proof (run_matching_loop_ok t _ _ _ _ _ _ _ Ht Hwf' Hok Hst Hr) as Hrok.
  destruct (run_own t _ lf o b b1 ev1 trig Ht Hwf' Hok Hst Hr) as [Hown Hsub].
  assert (x ∉ ids trig ++ stop_ids b1) as Hx1 by (intros Hin; by apply Hxs, Hsub).
  rewrite not_elem_of_app in Hx1. destruct Hx1 as [Hxt Hxb1].
  assert (Forall (foreign x) ev1) as Hf1.
  { eapply Forall_impl; [exact Hown|]. intros e He. eapply own_foreign; [exact He|congruence]. }
  destruct (depth <? MAX_STOP_CHAIN_DEPTH).
  - destruct (round_ok t X o queue' trig b b1 true Hq' Hrok) as (? & ? & _).
    intros (more & -> & Hm)%IH; [|done|done|by rewrite ids_app, not_elem_of_app|done].
    eexists. rewrite <-!(assoc (++)). split; [done|]. rewrite !Forall_app. split_and!; [done| |done].
    by apply Forall_fmap, Forall_forall.
  - destruct (round_ok t X o queue' trig b b1 false Hq' Hrok) as (? & ? & _).
    intros (more & -> & Hm)%IH; [|done..].
    eexists. rewrite <-!(assoc (++)). split; [done|]. by apply Forall_app.
Qed.

(** ** Reading the status off the events *)

(** Units that [x] took. *)
Definition taken x evs : Z :=
  foldr (fun e a => match e with
    | EvFill f => (if N.eqb (fl_taker_order_id f) x then units (fl_quantity f) else 0) + a
    | _ => a
    end) 0 evs.

Lemma taken_app x e1 e2 : taken x (e1 ++ e2) = taken x e1 + taken x e2.
Proof. induction e1 as [|[] e1 IH]; simpl; lia. Qed.

Lemma foreign_taken x evs : Forall (foreign x) evs -> taken x evs = 0.
Proof.
  induction 1 as [|[f| | |] evs He _ IH]; simpl; [done| |done..]. simpl in He.
  destruct (N.eqb_spec (fl_taker_order_id f) x); [done|lia].
Qed.

Lemma own_taken t x evs : Forall (own t x) evs -> taken x evs = fills_qty evs.
Proof.
  induction 1 as [|[f| | |] evs He _ IH]; simpl; [done| |done..]. simpl in He.
  destruct He as [-> _]. rewrite N.eqb_refl. lia.
Qed.

Lemma foreign_fill_qty x evs : Forall (foreign x) evs -> omap (taker_fill_qty x) evs = [].
Proof.
  induction 1 as [|[f| | |] evs He _ IH]; [done| |done..]. simpl in *.
  destruct (N.eqb_spec (fl_taker_order_id f) x); [done|]. done.
Qed.

Lemma foreign_rested x evs : Forall (foreign x) evs -> existsb (rested_is x) evs = false.
Proof.
  induction 1 as [|[|id r| |] evs He _ IH]; simpl in *; try done.
  destruct (N.eqb_spec id x); [done|]. done.
Qed.

Lemma fold_dadd_lots t (l : list D) acc :
  valid_tick t -> Forall (pos_lot t) l -> lot t acc ->
  units acc + foldr (fun d a => units d + a) 0 l < t * 2 ^ 96 ->
  units (fold_left dadd l acc) = units acc + foldr (fun d a => units d + a) 0 l.
Proof.
  intros Ht Hl. revert acc. induction Hl as [|d l [Hx Hp] Hl IH]; simpl; intros acc Ha Hf; [lia|].
  assert (0 <= foldr (fun d a => units d + a) 0 l).
  { clear -Hl. induction Hl as [|d' l [_ ?] _ IH]; simpl; lia. }
  destruct (lot_add t acc d) as [Hs Hsl]; [done|done|done|lia|]. rewrite IH, Hs; [lia|done|lia].
Qed.

Lemma own_dsum t x evs :
  valid_tick t -> Forall (own t x) evs -> fills_qty evs < t * 2 ^ 96 ->
  units (dsum (omap (taker_fill_qty x) evs)) = fills_qty evs.
Proof.
  intros Ht Hown Hb.
  assert (Forall (pos_lot t) (omap (taker_fill_qty x) evs) /\
    foldr (fun d a => units d + a) 0 (omap (taker_fill_qty x) evs) = fills_qty evs) as [Hl Hs].
  { clear Hb. induction Hown as [|[f| | |] evs He _ [IH1 IH2]]; [by split|..|done]; try done.
    simpl in *. destruct He as [-> ?]. rewrite N.eqb_refl. simpl. split; [by constructor|by f_equal]. }
  unfold dsum. rewrite (fold_dadd_lots t); [|done|done|apply lot_zero|]; rewrite units_zero; lia.
Qed.

(** The outcome of a plain run: how much was taken and what became of the rest. *)
Definition outcome taker evs (filled : Z) : Prop :=
  filled = units (o_quantity taker) \/
  filled < units (o_quantity taker) /\
    ((exists r, EvCancelled (o_id taker) r ∈ evs) /\
     existsb (rested_is (o_id taker)) evs = false \/
     exists r, EvRested (o_id taker) r ∈ evs /\ units r = units (o_quantity taker) - filled).

Lemma status_of_events t taker e1 more :
  valid_tick t -> lot t (o_quantity taker) ->
  Forall (own t (o_id taker)) e1 -> Forall (foreign (o_id taker)) more ->
  0 <= fills_qty e1 -> outcome taker e1 (fills_qty e1) ->
  (fills_qty e1 = units (o_quantity taker) -> existsb (rested_is (o_id taker)) e1 = false) ->
  let filled := taken (o_id taker) (e1 ++ more) in
  match order_status_for_place (o_id taker) (o_quantity taker) (e1 ++ more) with
  | StNew => filled = 0 /\ exists r, EvRested (o_id taker) r ∈ e1 ++ more /\
      units r = units (o_quantity taker) - filled
  | StPartial => 0 < filled < units (o_quantity taker) /\
      exists r, EvRested (o_id taker) r ∈ e1 ++ more /\ units r = units (o_quantity taker) - filled
  | StFilled => filled = units (o_quantity taker)
  | StCanceled => filled < units (o_quantity taker) /\
      exists r, EvCancelled (o_id taker) r ∈ e1 ++ more
  | _ => False
  end.
Proof.
  intros Ht Hq Hown Hfor H0 Hout Hfull. simpl. unfold order_status_for_place.
  assert (fills_qty e1 < t * 2 ^ 96) as Hb.
  { destruct Hq as (m & Hm & Hr). pose proof (valid_tick_pos t Ht).
    assert (units (o_quantity taker) < t * 2 ^ 96) by nia. destruct Hout as [->|[? _]]; lia. }
  rewrite taken_app, (own_taken t), (foreign_taken _ more) by done.
  rewrite omap_app, (foreign_fill_qty _ more), app_nil_r by done.
  rewrite existsb_app, (foreign_rested _ more), orb_false_r by done.
  rewrite dltb_units, dleb_units, units_zero, (own_dsum t) by done. rewrite Z.add_0_r.
  destruct Hout as [Hf|[Hlt [[(r & Hr) Hno]|(r & Hr & Hrq)]]].
  - rewrite Hfull by done. by rewrite Hf, (proj2 (Z.leb_le _ _)) by lia.
  - rewrite Hno, (proj2 (Z.leb_gt _ _)) by done.
    assert (existsb (cancelled_is (o_id taker)) (e1 ++ more) = true) as ->.
    { apply existsb_exists. exists (EvCancelled (o_id taker) r). split; [|simpl; apply N.eqb_refl].
      apply list_elem_of_In, elem_of_app. by left. }
    split; [done|]. exists r. apply elem_of_app. by left.
  - assert (existsb (rested_is (o_id taker)) e1 = true) as ->.
    { apply existsb_exists. exists (EvRested (o_id taker) r). split; [|simpl; apply N.eqb_refl].
      by apply list_elem_of_In. }
    assert (exists r, EvRested (o_id taker) r ∈ e1 ++ more /\
      units r = units (o_quantity taker) - fills_qty e1) by (exists r; rewrite elem_of_app; auto).
    destruct (Z.ltb_spec 0 (fills_qty e1)); split; try done; lia.
Qed.

(** The first run of a plain submission. *)
Lemma plain_outcome t X n taker b b' evs trig :
  valid_tick t -> book_wf t (o_id taker :: X) b -> order_ok t taker ->
  is_stop (o_order_type taker) = false -> plain taker b -> o_quantity taker = o_remaining taker ->
  run_matching_loop n taker b = Some (b', evs, trig) ->
  0 <= fills_qty evs /\ outcome taker evs (fills_qty evs) /\
  (fills_qty evs = units (o_quantity taker) -> existsb (rested_is (o_id taker)) evs = false).
Proof.
  intros Ht Hwf Hok Hst Hpl Hq Hrun.
  destruct (plain_run t X n taker b b' evs trig) as
    (st & fin & Hcs & Hinv & [_ Hle] & _ & -> & _ & Hcase); [done..|].
  pose proof (cs_taker _ _ _ Hcs) as Htk. rewrite fills_qty_app.
  assert (existsb (rested_is (o_id taker)) (ls_events st) = false) as Hno.
  { pose proof (cs_events _ _ _ Hcs) as Hev. clear -Hev.
    induction Hev as [|e l [f ->] _ IH]; [done|]. simpl. done. }
  unfold outcome. rewrite existsb_app, Hno, Hq. simpl.
  destruct Hcase as [[_ [[Hz ->]|[Hpos [r ->]]]]|(_ & -> & _ & Hpos)]; simpl.
  - split_and!; [lia|left; lia|done].
  - split_and!; [lia| |done]. right. split; [lia|]. left. split; [|done]. exists r.
    apply elem_of_app. right. left.
  - split_and!; [lia| |lia]. right. split; [lia|]. right. eexists.
    split; [apply elem_of_app; right; left|lia].
Qed.

Lemma single_outcome t taker e :
  valid_tick t -> 0 < units (o_quantity taker) -> o_quantity taker = o_remaining taker ->
  e = EvRested (o_id taker) (o_remaining taker) \/ (exists r, e = EvCancelled (o_id taker) r) ->
  0 <= fills_qty [e] /\ outcome taker [e] (fills_qty [e]) /\ Forall (own t (o_id taker)) [e] /\
  (fills_qty [e] = units (o_quantity taker) -> existsb (rested_is (o_id taker)) [e] = false).
Proof.
  intros Ht Hpos Hq [->|[r ->]]; (split_and!; [done| |by repeat constructor|simpl; lia]);
    right; (split; [simpl; lia|]).
  - right. exists (o_remaining taker). split; [left|]. simpl. rewrite Hq. lia.
  - left. split; [|done]. exists r. left.
Qed.

(** The events of a submission: those of its own run and those of the cascade. *)
Lemma match_outcome t n taker b b' evs :
  valid_tick t -> book_wf t [] b -> admissible t taker b -> plain taker b ->
  o_quantity taker = o_remaining taker -> match_order n taker b = Some (b', evs) ->
  exists e1 more, evs = e1 ++ more /\ 0 <= fills_qty e1 /\
    outcome taker e1 (fills_qty e1) /\ Forall (own t (o_id taker)) e1 /\
    (fills_qty e1 = units (o_quantity taker) -> existsb (rested_is (o_id taker)) e1 = false) /\
    Forall (foreign (o_id taker)) more.
Proof.
  intros Ht Hwf Had Hpl Hq Hm. pose proof Had as [Hok _].
  pose proof (admissible_wf t taker b Hwf Had) as Hwf1.
  destruct (order_ok_rem t taker Hok) as [_ Hpos]. rewrite <-Hq in Hpos.
  pose proof (fun e => single_outcome t taker e Ht Hpos Hq) as Hone.
  destruct (pre_check taker b) as [e|] eqn:Hpc.
  { unfold match_order in Hm. rewrite Hpc in Hm. injection Hm as <- <-. exists [e], [].
    destruct (Hone e) as (? & ? & ? & ?); [|by split_and!]. right.
    unfold pre_check in Hpc. split_match_in Hpc; eauto. }
  destruct (is_stop (o_order_type taker)) eqn:Hst.
  { unfold match_order in Hm. rewrite Hpc, Hst in Hm. injection Hm as Hm.
    unfold register_stop_order in Hm.
    destruct (stop_insert _ _); injection Hm as <- <-; eexists [_], [];
      (split; [done|]); (edestruct Hone as (? & ? & ? & ?); [|by split_and!]); eauto. }
  destruct (match_order_first_run n taker b b' evs Hpc Hst Hm)
    as (b1 & e1 & trig & n' & Hrun & Hwork).
  destruct (plain_outcome t [] n taker b b1 e1 trig) as (? & ? & ?); [done..|].
  destruct (run_own t [] n taker b b1 e1 trig Ht Hwf1 Hok Hst Hrun) as [Hown Hsub].
  pose proof (run_matching_loop_ok t [] n taker b b1 e1 trig Ht Hwf1 Hok Hst Hrun) as Hrok.
  assert (o_id taker ∉ ids trig ++ stop_ids b1) as Hx.
  { intros Hin%Hsub. destruct Had as [_ Hfree]. apply Hfree. unfold book_ids.
    apply elem_of_app. by right. }
  rewrite not_elem_of_app in Hx. destruct Hx as [Hxt Hxs].
  apply (work_foreign t [] (o_id taker)) in Hwork as (more & -> & Hmore);
    [|done|apply Hrok|apply Hrok|done|done].
  exists e1, (((fun o => EvStopTriggered (o_id o)) <$> trig) ++ more).
  split_and!; [by rewrite <-(assoc (++))|done..|]. apply Forall_app. split; [|done].
  by apply Forall_fmap, Forall_forall.
Qed.
End Status.
