(* ===== verification/EngineInv.v ===== *)
(** * EngineInv: the invariant of the engine state

    [core_ok t (books, open_orders)]: every book is well formed and every order in it,
    resting or waiting as a stop, is listed in the open-order table.  Submitting,
    cancelling and replaying a command preserve it. *)
From S2P Require Import Prelude Decimal BTree Types Stop Book BookInv BookOps.
From S2P Require Import BookRun BookProps Wal Engine Track OrderStatus.

Section Core.
Context {D : Type} {dops : DecimalOps D} {dlaws : DecimalLaws D}.
Context (t : Z) (Ht : valid_tick t).
Implicit Types (b : OrderBook D) (o : Order D) (l : list (Order D)).

Abbreviation Table := (gmap Uuid (OpenOrder D)).
Abbreviation Books := (gmap string (OrderBook D)).
Implicit Types (O : Table) (books : Books).

Definition listed (sym : string) O o : Prop :=
  exists m, O !! o_id o = Some m /\ entry_ok t sym o m.

Definition core_ok (s : ReplayState (D := D)) : Prop :=
  forall sym b, s.1 !! sym = Some b ->
    book_wf t [] b /\ Forall (listed sym s.2) (all_orders b).

Lemma core_ok_empty : core_ok (∅, ∅).
Proof. intros sym b H. simpl in H. by rewrite lookup_empty in H. Qed.

Lemma listed_dom sym O o : listed sym O o -> o_id o ∈ dom O.
Proof. intros (m & Hm & _). by apply elem_of_dom_2 in Hm. Qed.

(** An entry names one symbol, so books do not share ids. *)
Lemma listed_symbol sym sym' O o o' :
  listed sym O o -> listed sym' O o' -> o_id o = o_id o' -> sym = sym'.
Proof.
  intros (m & Hm & Hs & _) (m' & Hm' & Hs' & _) He. rewrite He in Hm. congruence.
Qed.

(** From the table as the state keeps it to the table as a run updates it, and back. *)
Lemma listed_covers sub sym O l (U : list Uuid) :
  Forall (listed sym O) l -> ids l ⊆ U ->
  (forall s, sub = Some s -> o_id s ∉ ids l) -> covers t sym sub U O l.
Proof.
  intros Hl HU Hs. unfold covers. rewrite Forall_forall in *. intros o Ho.
  split; [by apply Hl| |by apply HU, ids_in]. intros s Hsub He.
  exfalso. apply (Hs s Hsub). rewrite <-He. by apply ids_in.
Qed.

Lemma covers_listed sub sym O l U : covers t sym sub U O l -> Forall (listed sym O) l.
Proof. intros H. eapply Forall_impl; [exact H|]. by intros o [? _ _]. Qed.

Lemma agree_listed sym O O' l U :
  agree_off U O O' -> (forall o, o ∈ l -> o_id o ∉ U) ->
  Forall (listed sym O) l -> Forall (listed sym O') l.
Proof.
  intros Ha Hd. rewrite !Forall_forall. intros Hl o Ho.
  destruct (Hl o Ho) as (m & Hm & ?). exists m. by rewrite Ha by (by apply Hd).
Qed.

(** The state after an operation on one book. *)
Lemma core_ok_update books O sym b b' O' U :
  core_ok (books, O) -> Forall (listed sym O) (all_orders b) ->
  (forall x, x ∈ U -> x ∈ ids (all_orders b) \/ x ∉ dom O) ->
  agree_off U O O' -> book_wf t [] b' -> Forall (listed sym O') (all_orders b') ->
  core_ok (<[sym := b']> books, O').
Proof.
  intros Hok Hl HU Ha Hwf' Hl' sym2 b2. simpl.
  destruct (decide (sym = sym2)) as [<-|Hne].
  { rewrite lookup_insert_eq. by intros [= <-]. }
  rewrite lookup_insert_ne by done. intros Hb2.
  destruct (Hok sym2 b2 Hb2) as [Hwf2 Hl2]. split; [done|]. simpl in Hl2.
  apply (agree_listed sym2 O O' _ U); [done| |done]. intros o Ho Hin.
  rewrite Forall_forall in Hl, Hl2.
  destruct (HU _ Hin) as [Hx|Hx]; [|by apply Hx; eapply listed_dom, Hl2].
  apply list_elem_of_fmap in Hx as (o' & He & Ho').
  apply Hne. by apply (listed_symbol sym sym2 O o' o); [apply Hl|apply Hl2|].
Qed.

Lemma register_oco_wf x y b : book_wf t [] b -> book_wf t [] (register_oco x y b).
Proof. apply set_oco_wf. Qed.

Lemma book_for_ok o books O :
  core_ok (books, O) ->
  book_wf t [] (book_for o books) /\ Forall (listed (o_symbol o) O) (all_orders (book_for o books)).
Proof.
  intros Hok. unfold book_for.
  assert (book_wf t [] (default book_new (books !! o_symbol o)) /\
    Forall (listed (o_symbol o) O) (all_orders (default book_new (books !! o_symbol o)))) as [? ?].
  { destruct (books !! o_symbol o) as [b|] eqn:Hb; simpl; [by apply (Hok _ b Hb)|].
    split; [apply book_new_wf; constructor|constructor]. }
  destruct (o_oco_linked_id o); [|done]. by split; [apply register_oco_wf|].
Qed.

(** An order whose id has no entry is new to every book. *)
Lemma fresh_admissible o books O :
  core_ok (books, O) -> order_ok t o -> o_id o ∉ dom O -> admissible t o (book_for o books).
Proof.
  intros Hok Ho Hid. split; [done|]. rewrite <-all_orders_ids. intros Hin.
  apply list_elem_of_fmap in Hin as (o' & He & Ho').
  destruct (book_for_ok o books O Hok) as [_ Hl]. rewrite Forall_forall in Hl.
  apply Hid. rewrite He. by eapply listed_dom, Hl.
Qed.

Lemma submit_core_ok n o books O b evs :
  core_ok (books, O) -> order_ok t o -> o_id o ∉ dom O ->
  match_order n o (book_for o books) = Some (b, evs) ->
  core_ok (<[o_symbol o := b]> books, apply_open_order_updates (Some o) evs O).
Proof.
  intros Hok Ho Hid Hm. pose proof (fresh_admissible o books O Hok Ho Hid) as Had.
  destruct (book_for_ok o books O Hok) as [Hwf Hl]. pose proof Had as [_ Hnew].
  set (U := o_id o :: ids (all_orders (book_for o books))).
  assert (covers t (o_symbol o) (Some o) U O (all_orders (book_for o books))) as Hc.
  { apply listed_covers; [done|intros x Hx; by right|]. intros s [= <-].
    by rewrite all_orders_ids. }
  destruct (match_order_covers t Ht (o_symbol o) (Some o) U) with (O := O) (n := n)
    (taker := o) (b := book_for o books) (b' := b) (evs := evs) as [Hc' Ha]; try done.
  { by intros s [= <-]. }
  { left. }
  apply (core_ok_update books O (o_symbol o) (book_for o books) b _ U); [done|done| |done| |].
  - intros x [->|Hx]%elem_of_cons; [by right|by left].
  - by eapply match_order_wf.
  - by eapply covers_listed.
Qed.

Lemma cancel_core_ok id sym books O b b' evs :
  core_ok (books, O) -> books !! sym = Some b -> cancel_order id b = (b', evs) ->
  core_ok (<[sym := b']> books, apply_open_order_updates None evs O).
Proof.
  intros Hok Hb Hc. destruct (Hok sym b Hb) as [Hwf Hl]. simpl in Hl.
  set (U := ids (all_orders b)).
  assert (covers t sym None U O (all_orders b)) as Hcv by (by apply listed_covers).
  destruct (cancel_order_covers t sym None U id b b' evs O Hwf Hc Hcv) as [Hc' Ha].
  apply (core_ok_update books O sym b b' _ U); [done|done|by left|done| |].
  - by apply (cancel_order_effects t id b b' evs).
  - by eapply covers_listed.
Qed.

(** ** Replay *)

Lemma replay_cancel_ok id s : core_ok s -> core_ok (replay_cancel id s).
Proof.
  destruct s as [books O]. intros Hok. unfold replay_cancel.
  destruct (O !! id) as [m|]; [|done]. destruct (books !! oo_symbol m) as [b|] eqn:Hb; [|done].
  destruct (cancel_order id b) as [b' evs] eqn:Hc. by eapply cancel_core_ok.
Qed.
End Core.
