(* ===== verification/EngineRun.v ===== *)
(** * EngineRun: what the request handlers do to the books and the command log

    [effect st st' ok]: the books and the open-order table of [st'] are those of [st]
    after some logged commands, which, when the handler succeeded, are the ones the log
    gained.  Every handler has an effect ([handle_request_effect]), which gives both the
    preservation of [core_ok] and the agreement of the state with its log. *)
From S2P Require Import Prelude Decimal BTree Types Stop Book BookInv BookOps.
From S2P Require Import BookRun BookProps Bytes Proto Wal Wire Engine Track.
From S2P Require Import OrderStatus EngineInv.

(** ** Validation *)

Section Validation.
Context {D : Type} {dops : DecimalOps D} {dlaws : DecimalLaws D}.

(** What [validate_wire_order] lets through. *)
Record wire_valid (o : EngineOrder D) : Prop := {
  wv_symbol : is_blank (eo_symbol o) = false;
  wv_quantity : 0 < units (eo_quantity o);
  wv_price : requires_price (eo_order_type o) = true ->
    exists p, eo_price o = Some p /\ 0 < units p;
  wv_stop : requires_stop_price (eo_order_type o) = true ->
    exists p, eo_stop_price o = Some p /\ 0 < units p;
  wv_iceberg : eo_order_type o = WIceberg ->
    exists q, eo_display_qty o = Some q /\ 0 < units q < units (eo_quantity o);
}.

Lemma missing_or_nonpositive_false (x : option D) :
  missing_or_nonpositive x = false <-> exists p, x = Some p /\ 0 < units p.
Proof.
  destruct x as [p|]; simpl; [|split; [done|by intros (? & [=] & _)]].
  rewrite dleb_units, units_zero, Z.leb_gt. split; [by exists p|by intros (? & [= <-] & ?)].
Qed.

Lemma validate_wire_order_None request_id (o : EngineOrder D) :
  validate_wire_order request_id o = None <-> wire_valid o.
Proof.
  unfold validate_wire_order. split.
  - destruct (is_blank _) eqn:Hb; [done|].
    destruct (dleb (eo_quantity o) dzero) eqn:Hq; [done|].
    rewrite dleb_units, units_zero, Z.leb_gt in Hq.
    destruct (_ && _)%bool eqn:Hp; [done|].
    destruct (requires_stop_price _ && _)%bool eqn:Hs; [done|].
    destruct (bool_decide _ && _)%bool eqn:Hi; [done|]. intros _. split; try done.
    + intros H. rewrite H in Hp. by apply missing_or_nonpositive_false.
    + intros H. rewrite H in Hs. by apply missing_or_nonpositive_false.
    + intros H. rewrite bool_decide_true in Hi by done. simpl in Hi.
      destruct (eo_display_qty o) as [q|]; [|done]. exists q. split; [done|].
      rewrite !dleb_units, units_zero in Hi. lia.
  - intros [Hb Hq Hp Hs Hi]. rewrite Hb, dleb_units, units_zero.
    rewrite (proj2 (Z.leb_gt _ _)) by done.
    destruct (requires_price _); simpl;
      [rewrite (proj2 (missing_or_nonpositive_false _)) by auto|];
      (destruct (requires_stop_price _); simpl;
        [rewrite (proj2 (missing_or_nonpositive_false _)) by auto|]);
      (case_bool_decide as Hty; simpl; [|done]);
      destruct (Hi Hty) as (q & -> & ?);
      rewrite !dleb_units, units_zero, !(proj2 (Z.leb_gt _ _)) by lia; done.
Qed.

(** The quantities of the order are multiples of the tick, and a display quantity is
    positive (which validation asks of icebergs only). *)
Definition on_tick (t : Z) (o : EngineOrder D) : Prop :=
  lot t (eo_quantity o) /\ forall d, eo_display_qty o = Some d -> pos_lot t d.

Lemma valid_order_ok t request_id (o : EngineOrder D) :
  validate_wire_order request_id o = None -> on_tick t o -> order_ok t (to_core_order o).
Proof.
  intros [_ Hq Hp _ _]%validate_wire_order_None [Hl Hd]. split_and!; [by split|done|].
  simpl. intros Hr. destruct Hp as (p & -> & _); [|done]. by destruct (eo_order_type o).
Qed.
End Validation.

Section Run.
Context {D : Type} {dops : DecimalOps D} {dlaws : DecimalLaws D}.
Context {W : Type} {wal : CommandLog W (WalCommand D)} {wlaws : CommandLogLaws W (WalCommand D)}.
Context {ecodec : Codec (SequencedEngineEvent D)}.
Context (fuel : nat) (next_uuid : nat -> Uuid) (now_rfc3339 : nat -> string).
Context (t : Z) (Ht : valid_tick t).

Abbreviation State := (EngineState D W).
Implicit Types (st : State).

Definition core st : ReplayState := (es_books st, es_open_orders st).
Definition engine_ok st : Prop := core_ok t (core st).

(** A request may place only an order with a new id, with quantities on the tick and,
    if it is fill-or-kill, one for which the check before matching is exact. *)
Definition placeable (o : EngineOrder D) st : Prop :=
  on_tick t o /\ (eo_id o ∉ dom (es_open_orders st)) /\
  exact_fok t (to_core_order o) (book_for (to_core_order o) (es_books st)).

Definition request_ok (request : EngineRequest D) st : Prop :=
  match request with ReqPlace r => placeable (pr_order r) st | _ => True end.

Definition fuel_ok (request : EngineRequest D) st : Prop :=
  match request with
  | ReqPlace r =>
      let order := to_core_order (pr_order r) in
      (enough_fuel order (book_for order (es_books st)) <= fuel)%nat
  | _ => True
  end.

(** ** Parts of a handler that leave the core alone *)

Record same_core st st' : Prop := {
  sc_books : es_books st' = es_books st;
  sc_open : es_open_orders st' = es_open_orders st;
  sc_wal : es_command_wal st' = es_command_wal st;
  sc_halted : es_halted_symbols st' = es_halted_symbols st;
}.

#[export] Instance same_core_preorder : PreOrder same_core.
Proof.
  split; [done|]. intros s1 s2 s3 [H1 H2 H3 H4] [H5 H6 H7 H8].
  split; by etrans.
Qed.

Lemma sequence_events_same events st st' r :
  sequence_events events st = (st', r) -> same_core st st'.
Proof.
  revert st st' r. induction events as [|e events IH]; intros st st' r; simpl.
  { by intros [= <- _]. }
  destruct (append_next e (es_event_log st)) as [log [s|err]]; [|by intros [= <- _]].
  destruct (sequence_events events _) as [st1 r1] eqn:Hs. apply IH in Hs.
  intros Heq. assert (st1 = st') as -> by (by destruct r1; injection Heq).
  etrans; [|done]. done.
Qed.

Lemma to_wire_core_events_same sym events st st' es fills :
  to_wire_core_events next_uuid now_rfc3339 sym events st = (st', es, fills) -> same_core st st'.
Proof.
  revert st st' es fills. induction events as [|e events IH]; intros st st' es fills; simpl.
  { by intros [= <- _ _]. }
  destruct e as [f|id r|id r|id].
  - unfold to_wire_fill.
    destruct (to_wire_core_events _ _ sym events (tick st)) as [[st1 es1] f1] eqn:Hs.
    apply IH in Hs. intros [= <- _ _]. by etrans; [|done].
  - destruct (to_wire_core_events _ _ sym events st) as [[st1 es1] f1] eqn:Hs.
    apply IH in Hs. by intros [= <- _ _].
  - destruct (to_wire_core_events _ _ sym events st) as [[st1 es1] f1] eqn:Hs.
    apply IH in Hs. by intros [= <- _ _].
  - apply IH.
Qed.

(** ** Effects *)

Lemma replay_commands_app cs1 cs2 (s : ReplayState) :
  replay_commands fuel (cs1 ++ cs2) s =
  match replay_commands fuel cs1 s with
  | Some s' => replay_commands fuel cs2 s'
  | None => None
  end.
Proof.
  revert s. induction cs1 as [|c cs1 IH]; intros s; simpl; [done|].
  by destruct (replay_command fuel c s).
Qed.

Record effect st st' (ok : Prop) : Prop := {
  ef_commands : exists cmds, replay_commands fuel cmds (core st) = Some (core st') /\
    (ok -> forall cs, log_contents (es_command_wal st) = Some cs ->
       log_contents (es_command_wal st') = Some (cs ++ cmds));
  ef_ok : engine_ok st -> engine_ok st';
}.

Lemma effect_same st st' ok : same_core st st' -> effect st st' ok.
Proof.
  intros [Hb Ho Hw _]. assert (core st' = core st) as Hc by (unfold core; congruence).
  split; [|unfold engine_ok; by rewrite Hc]. exists []. simpl. rewrite Hc, Hw.
  split; [done|]. intros _ cs. by rewrite app_nil_r.
Qed.

Lemma effect_trans st1 st2 st3 (ok1 ok2 : Prop) :
  (ok2 -> ok1) -> effect st1 st2 ok1 -> effect st2 st3 ok2 -> effect st1 st3 ok2.
Proof.
  intros Hok [(c1 & H1 & L1) O1] [(c2 & H2 & L2) O2]. split; [|auto].
  exists (c1 ++ c2). rewrite replay_commands_app, H1. split; [done|].
  intros Hk cs Hcs. rewrite (assoc (++)). apply L2; [done|]. apply L1; [auto|done].
Qed.

Definition is_ok {E A} (r : result E A) : Prop := match r with Ok _ => True | Err _ => False end.

Lemma cancel_known_order_effect id st st' r :
  cancel_known_order id st = (st', r) -> effect st st' (is_ok r).
Proof.
  unfold cancel_known_order. destruct (es_open_orders st !! id) as [m|] eqn:Hm.
  2:{ intros [= <- <-]. by apply effect_same. }
  destruct (log_append (CancelOrder id) (es_command_wal st)) as [w [u|e]] eqn:Hl.
  2:{ intros [= <- <-]. split; [|done]. by exists []. }
  assert (forall st1 : State, es_command_wal st1 = w -> replay_cancel id (core st) = core st1 ->
    effect st st1 True) as Heff.
  { intros st1 Hw Hc. split.
    - exists [CancelOrder id]. split; [by rewrite <-Hc|]. intros _ cs Hcs. rewrite Hw. by eapply log_append_ok.
    - unfold engine_ok. intros Hok. rewrite <-Hc. by apply replay_cancel_ok. }
  simpl. destruct (es_books st !! oo_symbol m) as [b|] eqn:Hb.
  2:{ intros [= <- <-]. apply Heff; [done|]. unfold replay_cancel, core. by rewrite Hm, Hb. }
  destruct (cancel_order id b) as [b' evs] eqn:Hc. intros [= <- <-]. apply Heff; [done|].
  unfold replay_cancel, core. by rewrite Hm, Hb, Hc.
Qed.

(** ** Placing an order *)

Abbreviation place := (place_order fuel next_uuid now_rfc3339).

(** Everything a placement does after matching: its core is given by the table, and the
    rest only concerns events and the response. *)
Definition placed_core (o : EngineOrder D) (b : OrderBook D) (O : gmap Uuid (OpenOrder D)) :
    State -> ReplayState :=
  fun st => (<[eo_symbol o := b]> (es_books st), O).

Lemma place_order_cases rid o st st' r :
  place rid o st = Some (st', r) ->
  (same_core st st' /\ exists rej, r = Ok (mkBundle (RespReject rej) []) /\
     (validate_wire_order rid o = Some rej \/
      validate_wire_order rid o = None /\ eo_symbol o ∈ es_halted_symbols st /\
      rej = mkReject rid MARKET_HALTED "market is halted and cannot accept new orders")) \/
  (validate_wire_order rid o = None /\ (eo_symbol o ∉ es_halted_symbols st) /\
   es_halted_symbols st' = es_halted_symbols st /\
   let '(w, lr) := log_append (PlaceOrder (to_core_order o)) (es_command_wal st) in
   es_command_wal st' = w /\
   match lr with
   | Err e => core st' = core st /\ r = Err (SeIo e)
   | Ok _ => exists b evs,
       match_order fuel (to_core_order o) (book_for (to_core_order o) (es_books st))
         = Some (b, evs) /\
       match immediate_pre_reject rid (eo_id o) evs with
       | Some rej => core st' = placed_core o b (es_open_orders st) st /\
                     r = Ok (mkBundle (RespReject rej) [])
       | None => core st' = placed_core o b (apply_open_order_updates
                   (Some (to_core_order o)) evs (es_open_orders st)) st
       end
   end).
Proof.
  unfold place_order. destruct (validate_wire_order rid o) as [rej|] eqn:Hv.
  { intros [= <- <-]. left. split; [done|]. eauto. }
  case_bool_decide as Hh.
  { intros [= <- <-]. left. split; [done|]. eauto 10. }
  destruct (log_append _ _) as [w [u|e]].
  2:{ intros [= <- <-]. right. by split_and!. }
  cbv zeta. destruct (match_order _ _ _) as [[b evs]|] eqn:Hm; [|done].
  intros H. right. split; [done|]. split; [done|]. revert H.
  destruct (immediate_pre_reject _ _ evs) as [rej|] eqn:Hr.
  { intros [= <- <-]. split_and!; try done. exists b, evs. split; [done|].
    change (eo_id o) with (o_id (to_core_order o)). by rewrite Hr. }
  set (st1 := set_open_orders _ _).
  destruct (to_wire_core_events _ _ _ _ st1) as [[st2 we] fills] eqn:Hw.
  cbv zeta. destruct (sequence_events _ st2) as [st3 sr] eqn:Hs.
  apply to_wire_core_events_same in Hw. apply sequence_events_same in Hs.
  intros H. assert (st' = st3) as -> by (destruct sr; congruence).
  destruct (transitivity Hw Hs) as [Hb Ho Hwal Hha].
  rewrite Hha, Hwal. split_and!; [done|done|]. exists b, evs. split; [done|].
  change (eo_id o) with (o_id (to_core_order o)). rewrite Hr. unfold core. by rewrite Hb, Ho.
Qed.

Lemma place_order_effect rid o st st' r :
  engine_ok st -> placeable o st -> place rid o st = Some (st', r) -> effect st st' (is_ok r).
Proof.
  intros Hok (Htick & Hnew & Hex) Hp.
  apply place_order_cases in Hp as [[Hs _]|(Hv & _ & _ & Hp)]; [by apply effect_same|].
  pose proof (valid_order_ok t rid o Hv Htick) as Ho.
  destruct (log_append _ _) as [w [u|e]] eqn:Hl.
  2:{ destruct Hp as (_ & Hc & ->). split; [|unfold engine_ok; by rewrite Hc].
      exists []. by rewrite Hc. }
  destruct Hp as (Hw & b & evs & Hm & Hp).
  set (order := to_core_order o) in *.
  pose proof (fresh_admissible t order _ _ Hok Ho Hnew) as Had.
  destruct (book_for_ok t order (es_books st) (es_open_orders st) Hok) as [Hwf _].
  assert (core st' = placed_core o b
    (apply_open_order_updates (Some order) evs (es_open_orders st)) st) as Hc.
  { destruct (match_order_clean t fuel order _ b evs Ht Hwf Had Hex Hm)
      as [[_ (rn & -> & _)]|Hsoft].
    - destruct (immediate_pre_reject _ _ _); [|done]. destruct Hp as [-> _].
      unfold placed_core. f_equal. simpl. symmetry. apply delete_id. by apply not_elem_of_dom.
    - by rewrite soft_no_reject in Hp. }
  split.
  - exists [PlaceOrder order]. rewrite Hc. unfold core. simpl. fold order. rewrite Hm.
    split; [done|]. intros _ cs Hcs. rewrite Hw. by eapply log_append_ok.
  - intros _. unfold engine_ok. rewrite Hc. by apply (submit_core_ok t Ht fuel order).
Qed.

(** ** The other handlers *)

Lemma cancel_order_request_effect req st st' r :
  cancel_order_request req st = (st', r) -> effect st st' (is_ok r).
Proof.
  unfold cancel_order_request. destruct (es_open_orders st !! cr_order_id req).
  2:{ intros [= <- <-]. by apply effect_same. }
  destruct (negb _); [intros [= <- <-]; by apply effect_same|].
  destruct (cancel_known_order (cr_order_id req) st) as [st1 r1] eqn:Hc.
  apply cancel_known_order_effect in Hc. destruct r1 as [evs|e]; [|by intros [= <- <-]].
  destruct evs as [|ev evs]; [by intros [= <- <-]|].
  cbv zeta. destruct (sequence_events _ st1) as [st2 r2] eqn:Hs. apply sequence_events_same in Hs.
  intros H. assert (st' = st2) as -> by (destruct r2; congruence).
  eapply effect_trans; [|exact Hc|by apply effect_same]. done.
Qed.

Lemma cancel_each_effect ids done_ids syms we st st' r :
  cancel_each ids done_ids syms we st = (st', r) -> effect st st' (is_ok r).
Proof.
  revert done_ids syms we st. induction ids as [|id ids IH]; intros done_ids syms we st; simpl.
  { intros [= <- <-]. by apply effect_same. }
  destruct (es_open_orders st !! id); [|apply IH].
  destruct (cancel_known_order id st) as [st1 r1] eqn:Hc. apply cancel_known_order_effect in Hc.
  destruct r1 as [[|ev evs]|e]; [..|by intros [= <- <-]];
    intros H; apply IH in H; (eapply effect_trans; [|exact Hc|exact H]); done.
Qed.

Lemma cancel_all_effect req st st' r :
  cancel_all req st = (st', r) -> effect st st' (is_ok r).
Proof.
  unfold cancel_all. destruct (cancel_each _ _ _ _ st) as [st1 r1] eqn:Hc.
  apply cancel_each_effect in Hc. destruct r1 as [[[ids syms] we]|e]; [|by intros [= <- <-]].
  cbv zeta. destruct (sequence_events _ st1) as [st2 r2] eqn:Hs. apply sequence_events_same in Hs.
  intros H. assert (st' = st2) as -> by (destruct r2; congruence).
  eapply effect_trans; [|exact Hc|by apply effect_same]. done.
Qed.

Lemma market_status_effect req status st0 st st' r :
  es_books st = es_books st0 -> es_open_orders st = es_open_orders st0 ->
  es_command_wal st = es_command_wal st0 ->
  market_status_response req status st = (st', r) -> effect st0 st' (is_ok r).
Proof.
  intros Hb Ho Hw. unfold market_status_response.
  cbv zeta. destruct (sequence_events _ st) as [st2 r2] eqn:Hs.
  apply sequence_events_same in Hs as [Hb' Ho' Hw' _].
  intros H. assert (st' = st2) as -> by (destruct r2; congruence).
  assert (core st2 = core st0) as Hc by (unfold core; congruence).
  split; [|unfold engine_ok; by rewrite Hc]. exists []. rewrite Hc, Hw', Hw. split; [done|].
  intros _ cs. by rewrite app_nil_r.
Qed.

Abbreviation handle := (handle_request fuel next_uuid now_rfc3339).

Lemma handle_request_effect req st st' r :
  engine_ok st -> request_ok req st -> handle req st = Some (st', r) ->
  effect st st' (is_ok r).
Proof.
  intros Hok Hreq. destruct req; simpl.
  - by apply place_order_effect.
  - intros [= H]. by eapply cancel_order_request_effect.
  - intros [= H]. by eapply cancel_all_effect.
  - intros [= H]. by eapply market_status_effect in H.
  - intros [= H]. by eapply market_status_effect in H.
  - intros [= <- <-]. by apply effect_same.
  - intros [= <- <-]. by apply effect_same.
Qed.

(** With the fuel of the submission every request is answered. *)
Lemma handle_request_answers req st :
  engine_ok st -> request_ok req st -> fuel_ok req st -> is_Some (handle req st).
Proof.
  intros Hok Hreq Hfuel. destruct req; simpl; try by eexists.
  unfold place_order. destruct (validate_wire_order _ _) eqn:Hv; [by eexists|].
  case_bool_decide; [by eexists|]. destruct Hreq as (Htick & Hnew & _).
  pose proof (valid_order_ok t _ _ Hv Htick) as Ho.
  pose proof (fresh_admissible t _ _ _ Hok Ho Hnew) as Had.
  destruct (book_for_ok t (to_core_order (pr_order r)) (es_books st) (es_open_orders st) Hok)
    as [Hwf _].
  destruct (log_append _ _) as [w [u|e]]; [|by eexists]. cbv zeta.
  change (es_books (set_command_wal w st)) with (es_books st).
  destruct (match_order_total t fuel _ _ Ht Hwf Had Hfuel) as [[b evs] ->].
  destruct (immediate_pre_reject _ _ _); [by eexists|].
  destruct (to_wire_core_events _ _ _ _ _) as [[st2 we] fills].
  cbv zeta. destruct (sequence_events _ st2) as [st3 [ss|e]]; by eexists.
Qed.
End Run.

(** * Cancellations leave no order behind

    [gone id st]: no book of [st] has an order with that id, resting or waiting as a
    stop.  A cancellation of a listed order makes it so, nothing brings the order back
    ([books_sub]), and [cancel_all] goes over every id of the user. *)

Section Cancel.
Context {D : Type} {dops : DecimalOps D} {dlaws : DecimalLaws D}.
Context {W : Type} {wal : CommandLog W (WalCommand D)} {wlaws : CommandLogLaws W (WalCommand D)}.
Context {ecodec : Codec (SequencedEngineEvent D)}.
Context (t : Z) (Ht : valid_tick t).

Abbreviation State := (EngineState D W).
Implicit Types (st : State) (id : Uuid).

Definition books_sub st st' : Prop :=
  forall sym b', es_books st' !! sym = Some b' ->
    exists b, es_books st !! sym = Some b /\ all_orders b' ⊆ all_orders b.

#[export] Instance books_sub_preorder : PreOrder books_sub.
Proof.
  split; [intros st sym b; eauto|]. intros s1 s2 s3 H12 H23 sym b3 H3.
  destruct (H23 sym b3 H3) as (b2 & H2 & ?). destruct (H12 sym b2 H2) as (b1 & H1 & ?).
  exists b1. split; [done|]. by etrans.
Qed.

Definition gone id st : Prop :=
  forall sym b, es_books st !! sym = Some b -> id ∉ ids (all_orders b).

Lemma gone_mono id st st' : books_sub st st' -> gone id st -> gone id st'.
Proof.
  intros Hs Hg sym b' Hb' Hin. destruct (Hs sym b' Hb') as (b & Hb & Hsub).
  apply (Hg sym b Hb). apply list_elem_of_fmap in Hin as (o & -> & Ho). by apply ids_in, Hsub.
Qed.

Lemma same_core_books_sub st st' : same_core st st' -> books_sub st st'.
Proof. intros [Hb _ _ _] sym b'. rewrite Hb. eauto. Qed.

(** Where an order of a book is listed. *)
Lemma engine_ok_listed st sym b o :
  engine_ok t st -> es_books st !! sym = Some b -> o ∈ all_orders b ->
  exists m, es_open_orders st !! o_id o = Some m /\ oo_symbol m = sym /\
    oo_user_id m = o_user_id o.
Proof.
  intros Hok Hb Ho. destruct (Hok sym b Hb) as [_ Hl]. simpl in Hl. rewrite Forall_forall in Hl.
  destruct (Hl o Ho) as (m & Hm & ? & ? & _). eauto.
Qed.

Lemma unlisted_gone st id : engine_ok t st -> es_open_orders st !! id = None -> gone id st.
Proof.
  intros Hok Hn sym b Hb Hin. apply list_elem_of_fmap in Hin as (o & -> & Ho).
  destruct (engine_ok_listed st sym b o Hok Hb Ho) as (m & Hm & _). congruence.
Qed.

Lemma cancel_known_order_gone id st st' evs :
  engine_ok t st -> cancel_known_order id st = (st', Ok evs) -> books_sub st st' /\ gone id st'.
Proof.
  intros Hok. unfold cancel_known_order. destruct (es_open_orders st !! id) as [m|] eqn:Hm.
  2:{ intros [= <- _]. split; [done|]. by apply unlisted_gone. }
  destruct (log_append (CancelOrder id) (es_command_wal st)) as [w [u|e]]; [|done].
  cbv zeta. simpl.
  assert (forall sym b, es_books st !! sym = Some b -> sym <> oo_symbol m ->
    id ∉ ids (all_orders b)) as Hother.
  { intros sym b Hb Hne Hin. apply list_elem_of_fmap in Hin as (o & -> & Ho).
    destruct (engine_ok_listed st sym b o Hok Hb Ho) as (m' & Hm' & Hs & _). congruence. }
  destruct (es_books st !! oo_symbol m) as [b|] eqn:Hb.
  2:{ intros [= <- _]. split; [by intros sym b'; eauto|]. intros sym b' Hb'.
      apply (Hother sym b' Hb'). intros ->. simpl in Hb'. congruence. }
  destruct (cancel_order id b) as [b' core_events] eqn:Hc. intros [= <- _].
  destruct (Hok _ _ Hb) as [Hwf _].
  destruct (cancel_order_effects t id b b' core_events Hwf Hc) as (_ & Hex & _).
  split.
  - intros sym b2. simpl. destruct (decide (sym = oo_symbol m)) as [->|Hne].
    + rewrite lookup_insert_eq. intros [= <-]. exists b. split; [done|]. intros o Ho. by apply Hex.
    + rewrite lookup_insert_ne by done. eauto.
  - intros sym b2. simpl. destruct (decide (sym = oo_symbol m)) as [->|Hne].
    + rewrite lookup_insert_eq. intros [= <-] Hin. apply list_elem_of_fmap in Hin as (o & He & Ho).
      apply Hex in Ho as [_ Ho]. apply Ho. rewrite <-He. left.
    + rewrite lookup_insert_ne by done. intros Hb2. by eapply Hother.
Qed.

Lemma cancel_each_gone (fuel : nat) order_ids done_ids syms we st st' r :
  engine_ok t st -> cancel_each order_ids done_ids syms we st = (st', Ok r) ->
  books_sub st st' /\ forall id, id ∈ order_ids -> gone id st'.
Proof.
  revert done_ids syms we st. induction order_ids as [|id order_ids IH];
    intros done_ids syms we st Hok; simpl.
  { intros [= <- _]. split; [done|]. by intros id ?%elem_of_nil. }
  assert (forall done_ids syms we st1, engine_ok t st1 -> books_sub st st1 -> gone id st1 ->
    cancel_each order_ids done_ids syms we st1 = (st', Ok r) ->
    books_sub st st' /\ forall i, i ∈ id :: order_ids -> gone i st') as Hnext.
  { intros d s w st1 Hok1 Hsub Hg Hc. apply IH in Hc as [Hs Hall]; [|done].
    split; [by etrans|]. intros i [->|Hi]%elem_of_cons; [|by apply Hall]. by eapply gone_mono. }
  destruct (es_open_orders st !! id) as [m|] eqn:Hm.
  2:{ apply Hnext; [done|done|]. by apply unlisted_gone. }
  destruct (cancel_known_order id st) as [st1 r1] eqn:Hc.
  destruct r1 as [evs|e]; [|done].
  destruct (cancel_known_order_effect fuel t id st st1 (Ok evs) Hc) as [_ Hok1].
  destruct (cancel_known_order_gone id st st1 evs Hok Hc) as [Hs Hg].
  destruct evs; apply Hnext; auto.
Qed.

Lemma orders_of_in user symbol (O : gmap Uuid (OpenOrder D)) id m :
  O !! id = Some m -> oo_user_id m = user ->
  match symbol with Some s => oo_symbol m = s | None => True end ->
  id ∈ orders_of user symbol O.
Proof.
  intros Hm Hu Hs. unfold orders_of. apply list_elem_of_fmap. exists (id, m). split; [done|].
  apply elem_of_map_to_list, map_lookup_filter_Some. split; [done|]. simpl.
  rewrite Hu, N.eqb_refl. simpl. destruct symbol as [s|]; [|done]. rewrite Hs. apply String.eqb_refl.
Qed.
End Cancel.
