(* ===== verification/EngineLog.v ===== *)
(** * EngineLog: the events of a response and the event log

    [grows es st st' ss]: the event log of [st] holds [es] and that of [st'] holds [es]
    followed by [ss], with [ss] numbered from the next number on.  Every successful
    handler grows the log by the events of its response ([handle_request_grows]). *)
From S2P Require Import Prelude Decimal BTree Types Book Bytes RecordLog Proto Wal.
From S2P Require Import LogProps Wire Engine EngineRun.

Section Log.
Context {D : Type} {dops : DecimalOps D} {dlaws : DecimalLaws D}.
Context {W : Type} {wal : CommandLog W (WalCommand D)}.
Context {ecodec : Codec (SequencedEngineEvent D)} {elaws : CodecLaws (SequencedEngineEvent D)}.
Context (fuel : nat) (next_uuid : nat -> Uuid) (now_rfc3339 : nat -> string).

Abbreviation State := (EngineState D W).
Abbreviation Events := (list (SequencedEngineEvent D)).
Implicit Types (st : State) (es ss : Events).

(** The log holds [es] and its counter is the number of the last of them. *)
Definition log_at st es : Prop :=
  event_log_holds (es_event_log st) es /\
  el_sequence (es_event_log st) = match last es with None => 0 | Some e => se_seq e end /\
  0 <= el_sequence (es_event_log st).

(** The sequence number an acknowledgement carries. *)
Definition ack_seq (r : EngineResponse D) : option Z :=
  match r with
  | RespAck _ (AckOrder a) => Some (oa_seq a)
  | RespAck _ (AckCancel a) => Some (ck_seq a)
  | RespAck _ (AckCancelAll a) => Some (ak_seq a)
  | RespAck _ (AckMarketStatus a) => Some (ms_seq a)
  | RespAck _ (AckSnapshot b) => Some (bs_seq b)
  | _ => None
  end.

Lemma append_next_nonneg e (l l' : EventLog) r :
  append_next e l = (l', r) -> 0 <= el_sequence l -> 0 <= el_sequence l'.
Proof.
  unfold append_next. intros H H0. assert (0 <= U64_MAX) by (unfold U64_MAX; lia).
  unfold u64_saturating_add in H. split_match_in H; lia.
Qed.

Lemma sequence_events_grows events st st' es ss :
  log_at st es -> sequence_events events st = (st', Ok ss) -> log_at st' (es ++ ss).
Proof.
  revert st es ss. induction events as [|e events IH]; intros st es ss Hl; simpl.
  { intros [= <- <-]. by rewrite app_nil_r. }
  destruct (append_next e (es_event_log st)) as [log [s|err]] eqn:Ha; [|done].
  destruct (sequence_events events _) as [st1 [ss1|]] eqn:Hs; [|done]. intros [= <- <-].
  destruct Hl as (Hh & Hseq & H0). pose proof Ha as Ha'.
  apply (append_next_ok e _ log s es Hh) in Ha' as (Hh' & _ & Hlast).
  change (es ++ s :: ss1) with (es ++ [s] ++ ss1). rewrite (assoc (++)).
  eapply (IH (set_event_log log st)); [|exact Hs]. split_and!; [done| |].
  - simpl. by rewrite last_snoc.
  - simpl. by eapply append_next_nonneg.
Qed.

(** Below the counter's maximum the numbers are consecutive. *)
Lemma sequence_events_numbers events st st' ss :
  sequence_events events st = (st', Ok ss) -> 0 <= el_sequence (es_event_log st) ->
  el_sequence (es_event_log st) + Z.of_nat (length ss) <= U64_MAX ->
  se_seq <$> ss = seqZ (el_sequence (es_event_log st) + 1) (Z.of_nat (length ss)) /\
  se_event <$> ss = events /\
  el_sequence (es_event_log st') = el_sequence (es_event_log st) + Z.of_nat (length ss).
Proof.
  revert st ss. induction events as [|e events IH]; intros st ss; simpl.
  { intros [= <- <-] _ _. simpl. split_and!; [done|done|lia]. }
  destruct (append_next e (es_event_log st)) as [log [s|err]] eqn:Ha; [|done].
  destruct (sequence_events events _) as [st1 [ss1|]] eqn:Hs; [|done]. intros [= <- <-] H0 Hmax.
  assert (s = mkSequenced (u64_saturating_add (el_sequence (es_event_log st)) 1) e /\
    el_sequence log = se_seq s) as [-> Hlog].
  { unfold append_next in Ha. split_match_in Ha. }
  simpl in Hlog, Hmax. unfold u64_saturating_add in Hlog |- *.
  rewrite Z.min_r in Hlog |- * by lia.
  destruct (IH (set_event_log log st) ss1 Hs) as (H1 & H2 & H3); simpl in *; [lia|lia|].
  split_and!; [|by f_equal|lia].
  rewrite seqZ_cons by lia. f_equal. etrans; [exact H1|]. f_equal; lia.
Qed.

Lemma last_seq_is st es ss :
  log_at st (es ++ ss) -> last_seq_or_current ss (el_sequence (es_event_log st)) =
  el_sequence (es_event_log st).
Proof.
  intros (_ & Hs & _). unfold last_seq_or_current. rewrite last_app in Hs.
  by destruct (last ss).
Qed.

(** What a handler that answers does to the log. *)
Record grows st es st' (resp : ResponseBundle D) : Prop := {
  gr_log : log_at st' (es ++ rb_events resp);
  gr_numbers : el_sequence (es_event_log st) + Z.of_nat (length (rb_events resp)) <= U64_MAX ->
    se_seq <$> rb_events resp =
      seqZ (el_sequence (es_event_log st) + 1) (Z.of_nat (length (rb_events resp))) /\
    el_sequence (es_event_log st') =
      el_sequence (es_event_log st) + Z.of_nat (length (rb_events resp));
  gr_ack : forall n, ack_seq (rb_response resp) = Some n -> n = el_sequence (es_event_log st');
}.

Lemma grows_none st st' es r :
  log_at st es -> es_event_log st' = es_event_log st ->
  (forall n, ack_seq r = Some n -> n = el_sequence (es_event_log st)) ->
  grows st es st' (mkBundle r []).
Proof.
  intros Hl He Hn. split; unfold log_at; simpl; rewrite ?app_nil_r, He; [done| |done].
  intros _. split; [done|lia].
Qed.

Lemma grows_sequence events st0 st st' es ss mk :
  log_at st0 es -> es_event_log st = es_event_log st0 ->
  sequence_events events st = (st', Ok ss) ->
  (forall n, ack_seq mk = Some n ->
     n = last_seq_or_current ss (el_sequence (es_event_log st'))) ->
  grows st0 es st' (mkBundle mk ss).
Proof.
  intros Hl He Hs Hn.
  assert (log_at st es) as Hl' by (unfold log_at; by rewrite He).
  pose proof (sequence_events_grows _ _ _ _ _ Hl' Hs) as Hg. split; simpl; [done| |].
  - intros Hmax. rewrite <-He in Hmax |- *.
    destruct (sequence_events_numbers _ _ _ _ Hs) as (? & _ & ?); [apply Hl'|done|done].
  - intros n Hk. rewrite (Hn n Hk). by eapply last_seq_is.
Qed.

Lemma to_wire_core_events_log sym events st st' we fills :
  to_wire_core_events next_uuid now_rfc3339 sym events st = (st', we, fills) ->
  es_event_log st' = es_event_log st.
Proof.
  revert st st' we fills. induction events as [|e events IH]; intros st st' we fills; simpl.
  { by intros [= <- _ _]. }
  destruct e as [f|id r|id r|id]; [unfold to_wire_fill|..|apply IH];
    destruct (to_wire_core_events _ _ sym events _) as [[st1 es1] f1] eqn:Hs;
    apply IH in Hs; by intros [= <- _ _].
Qed.

Lemma cancel_known_order_log id st st' r :
  cancel_known_order id st = (st', r) -> es_event_log st' = es_event_log st.
Proof. unfold cancel_known_order. intros H. by split_match_in H. Qed.

Lemma cancel_each_log ids done_ids syms we st st' r :
  cancel_each ids done_ids syms we st = (st', r) -> es_event_log st' = es_event_log st.
Proof.
  revert done_ids syms we st. induction ids as [|id ids IH]; intros done_ids syms we st; simpl.
  { by intros [= <- _]. }
  destruct (es_open_orders st !! id); [|apply IH].
  destruct (cancel_known_order id st) as [st1 r1] eqn:Hc. apply cancel_known_order_log in Hc.
  destruct r1 as [[|ev evs]|e]; [..|intros [= <- _]; done];
    intros H; apply IH in H; congruence.
Qed.

Lemma place_order_grows rid o st st' es resp :
  log_at st es -> place_order fuel next_uuid now_rfc3339 rid o st = Some (st', Ok resp) ->
  grows st es st' resp.
Proof.
  intros Hl. unfold place_order.
  destruct (validate_wire_order _ _); [intros [= <- <-]; by apply grows_none|].
  case_bool_decide; [intros [= <- <-]; by apply grows_none|].
  destruct (log_append _ _) as [w [u|e]]; [|done]. cbv zeta.
  destruct (match_order _ _ _) as [[b evs]|]; [|done].
  destruct (immediate_pre_reject _ _ _); [intros [= <- <-]; by apply grows_none|].
  destruct (to_wire_core_events _ _ _ _ _) as [[st2 we] fills] eqn:Hw.
  apply to_wire_core_events_log in Hw.
  destruct (sequence_events _ st2) as [st3 [ss|e]] eqn:Hs; [|done]. intros [= <- <-].
  eapply grows_sequence; [done|exact Hw|exact Hs|]. by intros n [= <-].
Qed.

Lemma cancel_order_grows req st st' es resp :
  log_at st es -> cancel_order_request req st = (st', Ok resp) -> grows st es st' resp.
Proof.
  intros Hl. unfold cancel_order_request.
  destruct (es_open_orders st !! cr_order_id req); [|intros [= <- <-]; by apply grows_none].
  destruct (negb _); [intros [= <- <-]; by apply grows_none|].
  destruct (cancel_known_order _ st) as [st1 r1] eqn:Hc. apply cancel_known_order_log in Hc.
  destruct r1 as [[|ev evs]|e]; [intros [= <- <-]; by apply grows_none| |done].
  cbv zeta. destruct (sequence_events _ st1) as [st2 [ss|e]] eqn:Hs; [|done]. intros [= <- <-].
  eapply grows_sequence; [done|exact Hc|exact Hs|]. by intros n [= <-].
Qed.

Lemma cancel_all_grows req st st' es resp :
  log_at st es -> cancel_all req st = (st', Ok resp) -> grows st es st' resp.
Proof.
  intros Hl. unfold cancel_all.
  destruct (cancel_each _ _ _ _ st) as [st1 [[[ids syms] we]|e]] eqn:Hc; [|done].
  apply cancel_each_log in Hc. cbv zeta.
  destruct (sequence_events _ st1) as [st2 [ss|e]] eqn:Hs; [|done]. intros [= <- <-].
  eapply grows_sequence; [done|exact Hc|exact Hs|]. by intros n [= <-].
Qed.

Lemma market_status_grows req status st0 st st' es resp :
  log_at st0 es -> es_event_log st = es_event_log st0 ->
  market_status_response req status st = (st', Ok resp) -> grows st0 es st' resp.
Proof.
  intros Hl He. unfold market_status_response.
  destruct (sequence_events _ st) as [st2 [ss|e]] eqn:Hs; [|done]. intros [= <- <-].
  eapply grows_sequence; [done|exact He|exact Hs|]. by intros n [= <-].
Qed.

Lemma book_snapshot_seq sym depth st :
  bs_seq (book_snapshot sym depth st) = el_sequence (es_event_log st).
Proof. unfold book_snapshot. by destruct (es_books st !! sym). Qed.

Lemma handle_request_grows req st st' es resp :
  log_at st es -> handle_request fuel next_uuid now_rfc3339 req st = Some (st', Ok resp) ->
  grows st es st' resp.
Proof.
  intros Hl. destruct req; simpl.
  - by apply place_order_grows.
  - intros [= H]. by eapply cancel_order_grows.
  - intros [= H]. by eapply cancel_all_grows.
  - intros [= H]. by eapply market_status_grows in H.
  - intros [= H]. by eapply market_status_grows in H.
  - intros [= <- <-]. apply grows_none; [done|done|]. intros n [= <-]. apply book_snapshot_seq.
  - intros [= <- <-]. by apply grows_none.
Qed.
End Log.
