(* ===== verification/EngineProps.v ===== *)
(** * EngineProps: the correctness theorems of the engine server *)
From S2P Require Import Prelude Decimal BTree Types Stop Book BookInv BookOps.
From S2P Require Import BookRun BookCheck BookConserve BookProps Bytes RecordLog.
From S2P Require Import Proto Wal LogProps Wire Engine Track OrderStatus EngineInv.
From S2P Require Import EngineRun EngineLog.

(** ** Serving a sequence of requests *)

Section Serve.
Context {D : Type} {dops : DecimalOps D} {dlaws : DecimalLaws D}.
Context {wcodec : Codec (WalEntry D)} {wclaws : CodecLaws (WalEntry D)}.
Context {ecodec : Codec (SequencedEngineEvent D)} {elaws : CodecLaws (SequencedEngineEvent D)}.
Context (fuel : nat) (next_uuid : nat -> Uuid) (now_rfc3339 : nat -> string).
Context (t : Z) (Ht : valid_tick t).

Abbreviation State := (EngineState D Wal).
Abbreviation handle := (handle_request fuel next_uuid now_rfc3339).
Implicit Types (st : State).

(** Requests served one after the other, each answered without an IO error. *)
Inductive serves : State -> list (EngineRequest D) -> State -> Prop :=
| serves_nil st : serves st [] st
| serves_cons st req st1 resp reqs st2 :
    request_ok t req st -> handle req st = Some (st1, Ok resp) -> serves st1 reqs st2 ->
    serves st (req :: reqs) st2.

(** The state agrees with what its two files would be read back as. *)
Record durable st : Prop := {
  du_ok : engine_ok t st;
  du_core : exists cs, log_contents (es_command_wal st) = Some cs /\
    replay_commands fuel cs (∅, ∅) = Some (core st);
  du_log : exists es, log_at st es;
}.

Lemma handle_durable req st st' resp :
  durable st -> request_ok t req st -> handle req st = Some (st', Ok resp) -> durable st'.
Proof.
  intros [Hok (cs & Hcs & Hr) (es & Hl)] Hreq Hh.
  destruct (handle_request_effect fuel next_uuid now_rfc3339 t Ht req st st' (Ok resp))
    as [(cmds & Hcm & Hlog) Hok']; [done..|].
  split; [by apply Hok'| |].
  - exists (cs ++ cmds). split; [by apply Hlog|]. by rewrite replay_commands_app, Hr.
  - eexists. by eapply (handle_request_grows fuel next_uuid now_rfc3339 req st st' es resp).
Qed.

Lemma serves_durable st reqs st' : durable st -> serves st reqs st' -> durable st'.
Proof. intros Hd Hs. induction Hs; [done|]. apply IHHs. by eapply handle_durable. Qed.

(** Files as a fresh deployment finds them: absent. *)
Lemma open_fresh_durable depth st :
  engine_open fuel None None [] [] depth = Some st -> durable st.
Proof.
  intros [= <-]. split.
  - apply core_ok_empty.
  - exists []. split; [|done]. apply log_contents_holds. by exists [].
  - by exists [].
Qed.

Lemma durable_reopens st qw qe depth :
  durable st ->
  exists st', engine_open fuel (Some (bf_disk (w_file (es_command_wal st))))
      (Some (bf_disk (el_file (es_event_log st)))) qw qe depth = Some st' /\
    core st' = core st /\ es_halted_symbols st' = ∅ /\
    el_sequence (es_event_log st') = el_sequence (es_event_log st).
Proof.
  intros [_ (cs & (es & Hw & ->)%log_contents_holds & Hr) (evs & (_ & He) & Hs & _)].
  unfold engine_open, replay_books, wal_open, event_log_open, event_replay.
  rewrite (wal_replay_holds _ es Hw), Hr.
  rewrite (replay_frames _ u32_to_be_bytes u32_be_length u32_be_roundtrip evs _ He).
  eexists. split; [done|]. simpl. by rewrite Hs.
Qed.
End Serve.

(** ** The sample engine *)

Definition wire_order (o : Order Z) : EngineOrder Z :=
  mkEngineOrder (o_id o) (o_user_id o) (o_symbol o) (to_wire_side (o_side o))
    match o_order_type o with
    | Limit => WLimit | Market => WMarket | Ioc => WIoc | Fok => WFok | PostOnly => WPostOnly
    | StopLimit => WStopLimit | StopMarket => WStopMarket | Oco => WOco | Iceberg => WIceberg
    end
    (o_price o) (o_quantity o)
    match o_stp_mode o with
    | Decrement => WDecrement | CancelMaker => WCancelMaker | CancelTaker => WCancelTaker
    end
    (o_stop_price o) (o_oco_linked_id o)
    (o_display_qty o).

Definition place_req (o : Order Z) : EngineRequest Z := ReqPlace (mkPlace 100 (wire_order o)).

Definition sample_handle (req : EngineRequest Z) (st : EngineState Z Wal) :
    Handler (D := Z) (W := Wal) (ResponseBundle Z) :=
  handle_request (wal := wal_command_log (codec := wal_codec)) (ecodec := event_codec)
    60 N.of_nat (fun _ => "") req st.

(** The conditions of [serves], as a check. *)
Definition placeableb (o : EngineOrder Z) (st : EngineState Z Wal) : bool :=
  let order := to_core_order o in
  let b := book_for order (es_books st) in
  (small (eo_quantity o) && match eo_display_qty o with Some d => small d | None => true end &&
   bool_decide (es_open_orders st !! eo_id o = None) &&
   (negb (bool_decide (o_order_type order = Fok)) ||
    forallb (fun s => qty (side_orders s b) <? 2 ^ 96)%Z [Buy; Sell] &&
    bool_decide (no_own order b) && bool_decide (oco_links b = ∅)))%bool.

Definition request_okb (req : EngineRequest Z) (st : EngineState Z Wal) : bool :=
  match req with ReqPlace r => placeableb (pr_order r) st | _ => true end.

Lemma request_okb_ok req st : request_okb req st = true -> request_ok 1 req st.
Proof.
  destruct req as [r| | | | | |]; try done. simpl. unfold placeableb.
  rewrite !andb_true_iff, bool_decide_eq_true. intros [[[Hq Hd] Hn] Hf]. split_and!.
  - split; [by apply pos_lot_lot, small_lot|]. intros d Hdd. rewrite Hdd in Hd. by apply small_lot.
  - by apply not_elem_of_dom.
  - intros Hfok. rewrite bool_decide_true in Hf by done. simpl in Hf.
    apply andb_true_iff in Hf as [Hf Hoco]. apply andb_true_iff in Hf as [Hf Hown].
    split; [by apply fits_dec|]. apply plain_dec, andb_true_iff. split; [exact Hown|exact Hoco].
Qed.

Fixpoint run_requests (reqs : list (EngineRequest Z)) (st : EngineState Z Wal) :
    option (EngineState Z Wal) :=
  match reqs with
  | [] => Some st
  | req :: reqs =>
      if request_okb req st then
        match sample_handle req st with
        | Some (st', Ok _) => run_requests reqs st'
        | _ => None
        end
      else None
  end.

Lemma run_requests_serves reqs st st' :
  run_requests reqs st = Some st' ->
  serves (wcodec := wal_codec) (ecodec := event_codec) 60 N.of_nat (fun _ => "") 1 st reqs st'.
Proof.
  revert st. induction reqs as [|req reqs IH]; intros st; simpl; [intros [= <-]; constructor|].
  destruct (request_okb req st) eqn:Hb; [|done].
  destruct (sample_handle req st) as [[st1 [resp|e]]|] eqn:Hh; try done. intros Hr.
  econstructor; [by apply request_okb_ok|exact Hh|by apply IH].
Qed.

Definition fresh_engine : EngineState Z Wal :=
  mkEngine ∅ (mkWal (mkBuf [] [] []) 0) (mkEventLog (mkBuf [] [] []) 0) ∅ ∅ 0 0 10.

Definition sample_requests : list (EngineRequest Z) :=
  [place_req (order 1 11 Sell Limit (Some 10) 5);
   place_req (order 4 14 Buy Limit (Some 8) 9);
   place_req (order 9 19 Buy Limit (Some 12) 3)].

Definition sample_engine : EngineState Z Wal :=
  default fresh_engine (run_requests sample_requests fresh_engine).

Lemma fresh_durable : durable (wcodec := wal_codec) (ecodec := event_codec) 60 1 fresh_engine.
Proof. by apply (open_fresh_durable (wclaws := wal_codec_laws) 60 1 10). Qed.

Lemma sample_serves :
  serves (wcodec := wal_codec) (ecodec := event_codec) 60 N.of_nat (fun _ => "") 1
    fresh_engine sample_requests sample_engine.
Proof. apply run_requests_serves. vm_compute. reflexivity. Qed.

Lemma sample_durable : durable (wcodec := wal_codec) (ecodec := event_codec) 60 1 sample_engine.
Proof.
  eapply (serves_durable (wclaws := wal_codec_laws));
    [exact tick1|exact fresh_durable|exact sample_serves].
Qed.

(** ** The theorems *)

(** C9. The engine server answers a request and keeps its state consistent: every book well
    formed and uncrossed, and every order resting in a book or waiting as a stop listed in
    the open-order table for its user and symbol with at least its remaining quantity.  Of
    a placement this asks ([request_ok]) that its id is not the id of an open order, that
    its quantities are multiples of the tick and its display quantity, if any, is positive,
    and that a fill-or-kill order meets no own orders, OCO links or books beyond a Decimal;
    and that the fuel of the model is at least [enough_fuel] of the order ([fuel_ok]); of
    the other requests nothing.  Without these it fails: [zero_display_never_ends],
    [duplicate_ids_accepted]. *)
Theorem engine_handles_requests {D} {dops : DecimalOps D} {dlaws : DecimalLaws D}
    {W} {wal : CommandLog W (WalCommand D)} {wlaws : CommandLogLaws W (WalCommand D)}
    {ecodec : Codec (SequencedEngineEvent D)} fuel next_uuid now_rfc3339 t req
    (st : EngineState D W) :
  valid_tick t -> engine_ok t st -> request_ok t req st -> fuel_ok fuel req st ->
  exists st' r, handle_request fuel next_uuid now_rfc3339 req st = Some (st', r) /\
    engine_ok t st'.
Proof.
  intros Ht Hok Hreq Hfuel.
  destruct (handle_request_answers fuel next_uuid now_rfc3339 t Ht req st) as [[st' r] Hh]; [done..|].
  exists st', r. split; [done|].
  by apply (handle_request_effect fuel next_uuid now_rfc3339 t Ht req st st' r).
Qed.

Definition iceberg_req : EngineRequest Z :=
  place_req (with_display 2 (order 20 12 Sell Iceberg (Some 11) 6)).

Lemma engine_handles_requests_witness :
  exists st' r, sample_handle iceberg_req sample_engine = Some (st', r) /\ engine_ok 1 st'.
Proof.
  apply (engine_handles_requests (wal := wal_command_log (codec := wal_codec))
    (wlaws := wal_command_log_laws (claws := wal_codec_laws)) (ecodec := event_codec)
    60 N.of_nat (fun _ => "") 1 iceberg_req sample_engine).
  - exact tick1.
  - exact (du_ok _ _ _ sample_durable).
  - apply request_okb_ok. vm_compute. reflexivity.
  - apply Nat.leb_le. vm_compute. reflexivity.
Defined.

(** C12. Crash recovery: after serving, from empty files, requests that are in order and are
    answered without an I/O error ([serves]: placements have new ids, quantities on the
    tick, positive display quantities, and an exact check if fill-or-kill), opening the two
    files again (as a restart does) gives the same books and the same open orders, and the
    event log continues from the same number; only the halted markets are forgotten.
    Outside of this a restart can differ: [partial_fok_diverges],
    [failed_append_is_replayed]. *)
Theorem restart_recovers_state {D} {dops : DecimalOps D} {dlaws : DecimalLaws D}
    {wcodec : Codec (WalEntry D)} {wclaws : CodecLaws (WalEntry D)}
    {ecodec : Codec (SequencedEngineEvent D)} {elaws : CodecLaws (SequencedEngineEvent D)}
    fuel next_uuid now_rfc3339 t depth reqs (st0 st : EngineState D Wal) qw qe :
  valid_tick t -> engine_open fuel None None [] [] depth = Some st0 ->
  serves fuel next_uuid now_rfc3339 t st0 reqs st ->
  exists st', engine_open fuel (Some (bf_disk (w_file (es_command_wal st))))
      (Some (bf_disk (el_file (es_event_log st)))) qw qe depth = Some st' /\
    es_books st' = es_books st /\ es_open_orders st' = es_open_orders st /\
    el_sequence (es_event_log st') = el_sequence (es_event_log st) /\
    es_halted_symbols st' = ∅.
Proof.
  intros Ht Ho Hs.
  pose proof (serves_durable fuel _ _ t Ht st0 reqs st (open_fresh_durable fuel t depth st0 Ho) Hs)
    as Hd.
  destruct (durable_reopens fuel t st qw qe depth Hd) as (st' & H1 & H2 & H3 & H4).
  exists st'. injection H2 as H2 H2'. by split_and!.
Qed.

Lemma restart_recovers_state_witness :
  exists st', engine_open (wcodec := wal_codec) (ecodec := event_codec) 60
      (Some (bf_disk (w_file (es_command_wal sample_engine))))
      (Some (bf_disk (el_file (es_event_log sample_engine)))) [] [] 10 = Some st' /\
    es_books st' = es_books sample_engine /\ es_open_orders st' = es_open_orders sample_engine /\
    el_sequence (es_event_log st') = el_sequence (es_event_log sample_engine) /\
    es_halted_symbols st' = ∅.
Proof.
  apply (restart_recovers_state (wclaws := wal_codec_laws) (elaws := event_codec_laws)
    60 N.of_nat (fun _ => "") 1 10 sample_requests fresh_engine).
  - exact tick1.
  - reflexivity.
  - exact sample_serves.
Defined.

(** The events of an answer are durable and gapless: when a request is answered, the
    event log holds what it held followed by exactly the events of the answer, which are
    numbered consecutively from the next number on (below the counter's maximum), and the
    number in the acknowledgement is the log's last. *)
Theorem answers_are_sequenced {D} {dops : DecimalOps D}
    {W} {wal : CommandLog W (WalCommand D)}
    {ecodec : Codec (SequencedEngineEvent D)} {elaws : CodecLaws (SequencedEngineEvent D)}
    fuel next_uuid now_rfc3339 req (st st' : EngineState D W) es resp :
  log_at st es -> handle_request fuel next_uuid now_rfc3339 req st = Some (st', Ok resp) ->
  log_at st' (es ++ rb_events resp) /\
  (el_sequence (es_event_log st) + Z.of_nat (length (rb_events resp)) <= U64_MAX ->
   se_seq <$> rb_events resp =
     seqZ (el_sequence (es_event_log st) + 1) (Z.of_nat (length (rb_events resp))) /\
   el_sequence (es_event_log st') =
     el_sequence (es_event_log st) + Z.of_nat (length (rb_events resp))) /\
  (forall n, ack_seq (rb_response resp) = Some n -> n = el_sequence (es_event_log st')).
Proof.
  intros Hl Hh.
  by destruct (handle_request_grows fuel next_uuid now_rfc3339 req st st' es resp Hl Hh).
Qed.

Definition cancel_req : EngineRequest Z := ReqCancel (mkCancel 200 "BTCUSDT" 4).

Lemma answers_are_sequenced_witness :
  match sample_handle cancel_req fresh_engine with
  | Some (st', Ok resp) =>
      log_at (ecodec := event_codec) st' ([] ++ rb_events resp) /\
      (el_sequence (es_event_log fresh_engine) + Z.of_nat (length (rb_events resp)) <= U64_MAX ->
       se_seq <$> rb_events resp =
         seqZ (el_sequence (es_event_log fresh_engine) + 1) (Z.of_nat (length (rb_events resp))) /\
       el_sequence (es_event_log st') =
         el_sequence (es_event_log fresh_engine) + Z.of_nat (length (rb_events resp))) /\
      (forall n, ack_seq (rb_response resp) = Some n -> n = el_sequence (es_event_log st'))
  | _ => False
  end.
Proof.
  destruct (sample_handle cancel_req fresh_engine) as [[st' [resp|e]]|] eqn:E.
  - apply (answers_are_sequenced (wal := wal_command_log (codec := wal_codec))
      (elaws := event_codec_laws) 60 N.of_nat (fun _ => "")
      cancel_req fresh_engine st' [] resp).
    + split; [split; [reflexivity|reflexivity]|split; [reflexivity|simpl; lia]].
    + exact E.
  - vm_compute in E. discriminate E.
  - vm_compute in E. discriminate E.
Defined.

(** A halted market takes no orders: after [halt_market] every order for the symbol
    that passes validation is rejected with MARKET_HALTED and changes nothing, orders for
    other symbols are as before, and [resume_market] lifts the halt. *)
Theorem halted_market_takes_no_orders {D} {dops : DecimalOps D}
    {W} {wal : CommandLog W (WalCommand D)} {ecodec : Codec (SequencedEngineEvent D)}
    fuel next_uuid now_rfc3339 request rid (o : EngineOrder D) (st st1 st2 : EngineState D W) r1 r2 :
  halt_market request st = (st1, r1) -> resume_market request st1 = (st2, r2) ->
  eo_symbol o = mc_symbol request -> validate_wire_order rid o = None ->
  place_order fuel next_uuid now_rfc3339 rid o st1 =
    Some (st1, Ok (mkBundle (RespReject (mkReject rid MARKET_HALTED
      "market is halted and cannot accept new orders")) [])) /\
  (forall s, s <> mc_symbol request ->
     (s ∈ es_halted_symbols st1 <-> s ∈ es_halted_symbols st)) /\
  es_halted_symbols st2 = es_halted_symbols st ∖ {[mc_symbol request]} /\
  es_books st2 = es_books st /\ es_open_orders st2 = es_open_orders st.
Proof.
  unfold halt_market, resume_market, market_status_response. intros H1 H2 Hs Hv.
  destruct (sequence_events _ _) as [st1' [e1|e1]] eqn:Hs1 in H1; injection H1 as <- <-;
  destruct (sequence_events _ _) as [st2' [e2|e2]] eqn:Hs2 in H2; injection H2 as <- <-;
  apply sequence_events_same in Hs1 as [Hb1 Ho1 _ Hh1];
  apply sequence_events_same in Hs2 as [Hb2 Ho2 _ Hh2]; simpl in *;
  (assert (eo_symbol o ∈ es_halted_symbols st1') as Hin by (rewrite Hh1, Hs; set_solver));
  unfold place_order; rewrite Hv, bool_decide_true by done;
  (split_and!; [done|intros s Hne; rewrite Hh1; set_solver| |congruence|congruence]);
  rewrite Hh2, Hh1; set_solver.
Qed.

Definition halt_request := mkControl 300 "BTCUSDT".

Lemma halted_market_takes_no_orders_witness :
  let st1 := fst (halt_market (ecodec := event_codec) halt_request sample_engine) in
  let st2 := fst (resume_market (ecodec := event_codec) halt_request st1) in
  let o := wire_order (order 20 12 Sell Limit (Some 11) 6) in
  place_order (wal := wal_command_log (codec := wal_codec)) (ecodec := event_codec)
    60 N.of_nat (fun _ => "") 7 o st1 =
    Some (st1, Ok (mkBundle (RespReject (mkReject 7 MARKET_HALTED
      "market is halted and cannot accept new orders")) [])) /\
  (forall s, s <> mc_symbol halt_request ->
     (s ∈ es_halted_symbols st1 <-> s ∈ es_halted_symbols sample_engine)) /\
  es_halted_symbols st2 = es_halted_symbols sample_engine ∖ {[mc_symbol halt_request]} /\
  es_books st2 = es_books sample_engine /\ es_open_orders st2 = es_open_orders sample_engine.
Proof.
  intros st1 st2 o.
  apply (halted_market_takes_no_orders (wal := wal_command_log (codec := wal_codec))
    (ecodec := event_codec) 60 N.of_nat (fun _ => "") halt_request 7 o sample_engine st1 st2
    (snd (halt_market (ecodec := event_codec) halt_request sample_engine))
    (snd (resume_market (ecodec := event_codec) halt_request st1))).
  - apply surjective_pairing.
  - apply surjective_pairing.
  - reflexivity.
  - vm_compute. reflexivity.
Defined.

(** Cancel-all leaves nothing behind: when it is answered, no book has an order of
    the user (of the given symbol, if one was given), resting or waiting as a stop, and
    every order that is left was there before. *)
Theorem cancel_all_clears {D} {dops : DecimalOps D} {dlaws : DecimalLaws D}
    {W} {wal : CommandLog W (WalCommand D)} {wlaws : CommandLogLaws W (WalCommand D)}
    {ecodec : Codec (SequencedEngineEvent D)} t request (st st' : EngineState D W) resp :
  engine_ok t st -> cancel_all request st = (st', Ok resp) ->
  forall sym b' o, es_books st' !! sym = Some b' -> o ∈ all_orders b' ->
    (exists b, es_books st !! sym = Some b /\ o ∈ all_orders b) /\
    ~ (o_user_id o = ca_user_id request /\
       match ca_symbol request with Some s => sym = s | None => True end).
Proof.
  intros Hok. unfold cancel_all.
  destruct (cancel_each _ _ _ _ st) as [st1 [[[ids syms] we]|e]] eqn:Hc; [|done]. cbv zeta.
  destruct (sequence_events _ st1) as [st2 [ss|e]] eqn:Hs; [|done]. intros [= <- _].
  apply (cancel_each_gone t 0) in Hc as [Hsub Hgone]; [|done].
  apply sequence_events_same in Hs as [Hb _ _ _]. intros sym b' o. rewrite Hb. intros Hb' Ho.
  destruct (Hsub sym b' Hb') as (b & Hbk & Hin). split; [eauto|]. intros [Hu Hsym].
  destruct (engine_ok_listed t st sym b o Hok Hbk (Hin o Ho)) as (m & Hm & Hms & Hmu).
  apply (Hgone (o_id o)) with sym b'; [|done|by apply ids_in].
  rewrite merge_sort_Permutation. apply (orders_of_in _ _ _ _ m); [done|congruence|].
  destruct (ca_symbol request); [congruence|done].
Qed.

Definition cancel_all_req := mkCancelAll 400 14 None.

Lemma cancel_all_clears_witness :
  match cancel_all (wal := wal_command_log (codec := wal_codec)) (ecodec := event_codec)
          cancel_all_req sample_engine with
  | (st', Ok _) => forall sym b' o, es_books st' !! sym = Some b' -> o ∈ all_orders b' ->
      (exists b, es_books sample_engine !! sym = Some b /\ o ∈ all_orders b) /\
      ~ (o_user_id o = ca_user_id cancel_all_req /\ True)
  | _ => False
  end.
Proof.
  destruct (cancel_all cancel_all_req sample_engine) as [st' [resp|e]] eqn:E.
  - apply (cancel_all_clears (wal := wal_command_log (codec := wal_codec))
      (wlaws := wal_command_log_laws (claws := wal_codec_laws)) (ecodec := event_codec)
      1 cancel_all_req sample_engine st' resp).
    + exact (du_ok _ _ _ sample_durable).
    + exact E.
  - vm_compute in E. discriminate E.
Defined.

(** Cancelling by id: an order that rests or waits in the book of the named symbol
    is acknowledged as canceled and gone afterwards; an id that is not listed, or listed
    for another symbol, is answered with ORDER_NOT_FOUND and changes nothing. *)
Theorem cancel_request_answered {D} {dops : DecimalOps D} {dlaws : DecimalLaws D}
    {W} {wal : CommandLog W (WalCommand D)}
    {ecodec : Codec (SequencedEngineEvent D)} t request (st st' : EngineState D W) resp :
  engine_ok t st -> cancel_order_request request st = (st', Ok resp) ->
  (forall b, es_books st !! cr_symbol request = Some b ->
     cr_order_id request ∈ book_ids b ->
     gone (cr_order_id request) st' /\
     exists seq, rb_response resp = RespAck (cr_request_id request)
       (AckCancel (mkCancelAck (cr_order_id request) StCanceled seq))) /\
  ((forall m, es_open_orders st !! cr_order_id request = Some m ->
      oo_symbol m <> cr_symbol request) ->
   st' = st /\ exists message,
     resp = reject (cr_request_id request) ORDER_NOT_FOUND message).
Proof.
  intros Hok. unfold cancel_order_request, order_not_found. intros Hc. split.
  - intros b Hb Hin. rewrite <-all_orders_ids in Hin.
    apply list_elem_of_fmap in Hin as (o & Hid & Ho).
    destruct (engine_ok_listed t st _ b o Hok Hb Ho) as (m & Hm & Hs & _).
    rewrite <-Hid in Hm. rewrite Hm, bool_decide_true in Hc by done. simpl in Hc.
    destruct (cancel_known_order (cr_order_id request) st) as [st1 [evs|e]] eqn:Hk; [|done].
    pose proof (cancel_known_order_gone t _ st st1 evs Hok Hk) as [_ Hg].
    unfold cancel_known_order in Hk. rewrite Hm in Hk.
    destruct (log_append _ _) as [w [u|e]]; [|done]. simpl in Hk. rewrite Hs, Hb in Hk.
    destruct (cancel_order _ b) as [b' core_events] eqn:Hco. injection Hk as <- <-.
    destruct (Hok _ _ Hb) as [Hwf _].
    destruct (cancel_order_effects t _ b b' core_events Hwf Hco) as (_ & _ & Hev).
    destruct (proj2 (Hev (cr_order_id request))) as [r Hr].
    { split; [left|]. rewrite <-all_orders_ids, Hid. by apply ids_in. }
    destruct core_events as [|e evs]; [by apply elem_of_nil in Hr|].
    cbv zeta in Hc. destruct (sequence_events _ _) as [st2 [ss|e']] eqn:Hse; [|done].
    injection Hc as <- <-. split; [|by eexists].
    apply sequence_events_same in Hse as [Hbs _ _ _]. intros sym b2. rewrite Hbs. apply Hg.
  - intros Hno. destruct (es_open_orders st !! cr_order_id request) as [m|].
    + rewrite bool_decide_false in Hc by (by apply Hno). injection Hc as <- <-. eauto.
    + injection Hc as <- <-. eauto.
Qed.

Definition cancel_4 := mkCancel 200 "BTCUSDT" 4.

Lemma cancel_request_answered_witness :
  match cancel_order_request (wal := wal_command_log (codec := wal_codec)) (ecodec := event_codec)
          cancel_4 sample_engine with
  | (st', Ok resp) =>
      (forall b, es_books sample_engine !! cr_symbol cancel_4 = Some b ->
         cr_order_id cancel_4 ∈ book_ids b ->
         gone (cr_order_id cancel_4) st' /\
         exists seq, rb_response resp = RespAck (cr_request_id cancel_4)
           (AckCancel (mkCancelAck (cr_order_id cancel_4) StCanceled seq))) /\
      ((forall m, es_open_orders sample_engine !! cr_order_id cancel_4 = Some m ->
          oo_symbol m <> cr_symbol cancel_4) ->
       st' = sample_engine /\ exists message,
         resp = reject (cr_request_id cancel_4) ORDER_NOT_FOUND message)
  | _ => False
  end.
Proof.
  destruct (cancel_order_request cancel_4 sample_engine) as [st' [resp|e]] eqn:E.
  - apply (cancel_request_answered (wal := wal_command_log (codec := wal_codec))
      (ecodec := event_codec) 1 cancel_4 sample_engine st' resp).
    + exact (du_ok _ _ _ sample_durable).
    + exact E.
  - vm_compute in E. discriminate E.
Defined.

(** Validation is exact: an order is accepted if and only if its symbol is not
    blank, its quantity is positive, the prices its type needs are present and positive,
    and an iceberg shows a positive part of its quantity; an accepted order with
    quantities on the tick meets the precondition of the matching engine. *)
Theorem validation_exact {D} {dops : DecimalOps D} {dlaws : DecimalLaws D}
    request_id (o : EngineOrder D) :
  (validate_wire_order request_id o = None <-> wire_valid o) /\
  (forall t, validate_wire_order request_id o = None -> on_tick t o -> order_ok t (to_core_order o)).
Proof.
  split; [apply validate_wire_order_None|]. intros t. apply valid_order_ok.
Qed.

(** The status in the acknowledgement is right, whatever stops the order sets off:
    when the order meets no order of its own user and no OCO link, FILLED means that its
    whole quantity was taken, PARTIAL and NEW that the reported rest is resting after
    some or no fills, and CANCELED that it was given up with quantity left. *)
Theorem order_status_is_right {D} {dops : DecimalOps D} {dlaws : DecimalLaws D}
    t n taker (b b' : OrderBook D) evs :
  valid_tick t -> book_wf t [] b -> admissible t taker b -> plain taker b ->
  o_quantity taker = o_remaining taker -> match_order n taker b = Some (b', evs) ->
  let filled := taken (o_id taker) evs in
  let quantity := units (o_quantity taker) in
  match order_status_for_place (o_id taker) (o_quantity taker) evs with
  | StNew => filled = 0 /\ exists r, EvRested (o_id taker) r ∈ evs /\ units r = quantity - filled
  | StPartial => 0 < filled < quantity /\
      exists r, EvRested (o_id taker) r ∈ evs /\ units r = quantity - filled
  | StFilled => filled = quantity
  | StCanceled => filled < quantity /\ exists r, EvCancelled (o_id taker) r ∈ evs
  | _ => False
  end.
Proof.
  intros Ht Hwf Had Hpl Hq Hm.
  destruct (match_outcome t n taker b b' evs) as (e1 & more & -> & ?); [done..|].
  apply (status_of_events t); try tauto. rewrite Hq. by apply order_ok_rem, Had.
Qed.

Lemma order_status_is_right_witness :
  match match_order 40 buyer sample with
  | Some (_, evs) =>
      let filled := taken (o_id buyer) evs in
      let quantity := units (o_quantity buyer) in
      match order_status_for_place (o_id buyer) (o_quantity buyer) evs with
      | StNew => filled = 0 /\ exists r, EvRested (o_id buyer) r ∈ evs /\ units r = quantity - filled
      | StPartial => 0 < filled < quantity /\
          exists r, EvRested (o_id buyer) r ∈ evs /\ units r = quantity - filled
      | StFilled => filled = quantity
      | StCanceled => filled < quantity /\ exists r, EvCancelled (o_id buyer) r ∈ evs
      | _ => False
      end
  | None => False
  end.
Proof.
  destruct (match_order 40 buyer sample) as [[b' evs]|] eqn:E.
  - apply (order_status_is_right 1 40 buyer sample b' evs).
    + exact tick1.
    + exact sample_wf.
    + exact buyer_admissible.
    + apply plain_dec. vm_compute. reflexivity.
    + reflexivity.
    + exact E.
  - vm_compute in E. discriminate E.
Defined.

(** * Behaviours of the engine server that contradict its intent *)

(** Requests served without any precondition; errors are skipped. *)
Fixpoint run_all (reqs : list (EngineRequest Z)) (st : EngineState Z Wal) :
    option (EngineState Z Wal * list (EngineResponse Z)) :=
  match reqs with
  | [] => Some (st, [])
  | req :: reqs =>
      match sample_handle req st with
      | Some (st, Ok b) =>
          (fun r => (r.1, rb_response b :: r.2)) <$> run_all reqs st
      | _ => None
      end
  end.

Definition cancel_maker (o : Order Z) : Order Z :=
  mkOrder (o_id o) (o_user_id o) (o_symbol o) (o_side o) (o_order_type o) (o_price o)
    (o_quantity o) (o_remaining o) CancelMaker (o_stop_price o) (o_oco_linked_id o)
    (o_display_qty o).

(** A fill-or-kill order of user 19 meets an order of user 11 and then one of its own. *)
Definition fok_requests : list (EngineRequest Z) :=
  [place_req (order 1 11 Sell Limit (Some 10) 5);
   place_req (order 2 19 Sell Limit (Some 10) 5);
   place_req (cancel_maker (order 9 19 Buy Fok (Some 10) 10))].

(** The client of the fill-or-kill order gets a reject although five were traded, no
    event of the trade is logged, and the open-order table keeps two orders that are no
    longer in the book; a restart, which replays the same commands, has dropped them. *)
Lemma partial_fok_diverges :
  match run_all fok_requests fresh_engine with
  | Some (st, responses) =>
      last responses = Some (RespReject (mkReject 100 FOK_NOT_FILLED
        "fill-or-kill order could not be fully filled")) /\
      bs_asks (book_snapshot "BTCUSDT" 10 st) = [] /\
      size (es_open_orders st) = 2%nat /\
      (fun s => size (snd s)) <$> replay_books (codec := wal_codec) 60
        (Some (bf_disk (w_file (es_command_wal st)))) = Some 0%nat
  | None => False
  end.
Proof. vm_compute. auto. Qed.

(** No command is logged for a halt: a restarted engine trades every market. *)
Lemma halts_are_forgotten {D} {dops : DecimalOps D} {wcodec : Codec (WalEntry D)}
    {ecodec : Codec (SequencedEngineEvent D)} fuel wf ef qw qe depth st :
  engine_open fuel wf ef qw qe depth = Some st -> es_halted_symbols st = ∅.
Proof.
  unfold engine_open. destruct (replay_books fuel wf) as [[books O]|]; [|done].
  destruct (wal_open wf qw); [|done]. destruct (event_log_open ef qe); [|done].
  by intros [= <-].
Qed.

(** Nothing checks that an order id is new: a second order with the id of a resting one
    is accepted and rests too, and the open-order table has one entry for the two. *)
Lemma duplicate_ids_accepted :
  match run_all [place_req (order 1 11 Sell Limit (Some 10) 5);
                 place_req (order 1 11 Sell Limit (Some 12) 7)] fresh_engine with
  | Some (st, _) =>
      bs_asks (book_snapshot "BTCUSDT" 10 st) = [(10, 5); (12, 7)] /\
      size (es_open_orders st) = 1%nat
  | None => False
  end.
Proof. vm_compute. auto. Qed.
