(* ===== verification/Numeric.v ===== *)
(** * Numeric: the NUMERIC(38,18) columns of the database

    [infra/migrations/0001_init.sql] stores every amount as NUMERIC(38,18).  A column
    value is an integer count of [10^-18]; a bound parameter is the exact value of a
    [Decimal], counted in [10^-28] as [units] does.  PostgreSQL computes [numeric] sums
    exactly and rounds on assignment to the column, half away from zero; a value of
    [10^20] or more is an error.

    [PgDecimal] stands for the conversion of sqlx between [Decimal] and NUMERIC. *)
From S2P Require Import Prelude Decimal.

(** How many units of [10^-28] one unit of the column is. *)
Definition GRID : Z := 10 ^ 10.
Definition NUMERIC_LIMIT : Z := 10 ^ 38.

(** Rounding to 18 decimals, half away from zero. *)
Definition round18 (n : Z) : Z := Z.sgn n * ((2 * Z.abs n + GRID) / (2 * GRID)).

(** The value a NUMERIC(38,18) column takes. *)
Definition to_column (n : Z) : option Z :=
  let m := round18 n in if Z.abs m <? NUMERIC_LIMIT then Some m else None.

(** Neither rounding up nor down is wrong by half a unit. *)
Definition no_tie (n : Z) : Prop := n mod GRID <> GRID / 2.

#[export] Instance no_tie_dec n : Decision (no_tie n).
Proof. unfold no_tie. apply _. Defined.

Class PgDecimal (D : Type) := {
  to_pg : D -> Z;
  of_pg : Z -> option D;
}.

Class PgDecimalLaws (D : Type) {dops : DecimalOps D} {dlaws : DecimalLaws D}
    {pg : PgDecimal D} := {
  to_pg_units x : to_pg x = units x;
  of_pg_exact n : Z.abs n < 2 ^ 96 -> exists x, of_pg n = Some x /\ units x = n * GRID;
}.

Lemma GRID_pos : 0 < GRID.
Proof. done. Qed.

Lemma round18_zero : round18 0 = 0.
Proof. done. Qed.

Lemma round18_opp n : round18 (- n) = - round18 n.
Proof. unfold round18. rewrite Z.abs_opp, Z.sgn_opp. lia. Qed.

(** [round18 n] is a nearest integer. *)
Lemma round18_near n : 2 * Z.abs (round18 n * GRID - n) <= GRID.
Proof.
  unfold round18. pose proof GRID_pos as Hg.
  pose proof (Z.div_mod (2 * Z.abs n + GRID) (2 * GRID) ltac:(lia)) as Hd.
  pose proof (Z.mod_pos_bound (2 * Z.abs n + GRID) (2 * GRID) ltac:(lia)) as Hm.
  destruct (Z.sgn_spec n) as [[? ->]|[[? ->]|[? ->]]]; lia.
Qed.

(** Away from ties the nearest integer is unique. *)
Lemma round18_unique n m : no_tie n -> 2 * Z.abs (m * GRID - n) <= GRID -> round18 n = m.
Proof.
  intros Ht Hm. pose proof (round18_near n) as Hr.
  destruct (Z.eq_dec (round18 n) m) as [|Hne]; [done|]. exfalso. apply Ht.
  pose proof (Z.div_mod n GRID ltac:(done)) as Hd.
  pose proof (Z.mod_pos_bound n GRID GRID_pos) as Hb.
  generalize dependent (round18 n). intros k Hr Hne.
  unfold GRID in *. change (10 ^ 10) with 10000000000 in *.
  change (10000000000 / 2) with 5000000000. lia.
Qed.

(** Adding to a column rounds as the addend does. *)
Lemma round18_add a n : no_tie n -> round18 (a * GRID + n) = a + round18 n.
Proof.
  intros Ht. apply round18_unique.
  - unfold no_tie in *. by rewrite Z.add_comm, Z.mod_add by done.
  - pose proof (round18_near n). replace ((a + round18 n) * GRID - (a * GRID + n))
      with (round18 n * GRID - n) by ring. done.
Qed.

Lemma no_tie_opp n : no_tie n -> no_tie (- n).
Proof.
  unfold no_tie. intros H E. apply H. clear H.
  pose proof (Z.div_mod n GRID ltac:(done)). pose proof (Z.div_mod (- n) GRID ltac:(done)).
  pose proof (Z.mod_pos_bound n GRID GRID_pos).
  unfold GRID in *. change (10 ^ 10) with 10000000000 in *.
  change (10000000000 / 2) with 5000000000 in *. lia.
Qed.

Lemma no_tie_zero : no_tie 0.
Proof. done. Qed.

(** Multiples of the grid never tie, and the column holds them exactly. *)
Lemma no_tie_grid m : no_tie (m * GRID).
Proof. unfold no_tie. by rewrite Z.mod_mul by done. Qed.

Lemma round18_grid m : round18 (m * GRID) = m.
Proof. apply round18_unique; [apply no_tie_grid|]. rewrite Z.sub_diag. done. Qed.

Lemma to_column_Some n m : to_column n = Some m -> m = round18 n /\ Z.abs m < NUMERIC_LIMIT.
Proof. unfold to_column. case_match eqn:E; [|done]. intros [= <-]. lia. Qed.

#[export] Hint Resolve no_tie_opp no_tie_zero no_tie_grid : cex.

(** ** An executable instance, for [z_decimal] *)

#[export] Instance z_pg : PgDecimal Z := {|
  to_pg x := x;
  of_pg n := Some (n * GRID);
|}.

#[export] Instance z_pg_laws : PgDecimalLaws Z.
Proof. constructor; [done|]. intros n _. by exists (n * GRID). Qed.
