(* ===== verification/Database.v ===== *)
(** * Database: the tables of [infra/migrations/0001_init.sql] and a transaction monad

    The rows of the tables that settlement and the order handlers read and write, with
    the constraints of the schema (CHECK, UNIQUE, foreign keys, enum labels) checked
    where PostgreSQL checks them.  [created_at]/[updated_at] columns, and columns no
    modelled statement uses, are left out.

    [Tx A] is a sequence of statements on the database: the first error ends it.  What
    becomes of the changes made so far is decided by whoever runs it: a transaction
    forgets them ([run_tx]). *)
From S2P Require Import Prelude Numeric.

Inductive DbError :=
  RowNotFound | CheckViolation | UniqueViolation | ForeignKeyViolation | NumericOverflow
| InvalidEnumLabel | ColumnDecode.

(** A JSON value, the number integral. *)
Inductive Json :=
| JNull
| JNumber (n : Z)
| JString (s : string)
| JArray (l : list Json)
| JObject (fields : list (string * Json)).

(** ** Rows *)

Record UserTab := mkUserTab { ut_status : string; ut_is_mm : bool; ut_is_admin : bool }.

Record AssetTab := mkAssetTab {
  at_symbol : string; at_status : string; at_faucet_max : Z }.

Record MarketTab := mkMarketTab {
  mt_symbol : string;
  mt_base_asset_id : Uuid;
  mt_quote_asset_id : Uuid;
  mt_status : string;
  mt_maker_fee_bps : Z;
  mt_taker_fee_bps : Z;
}.

Record Balance := mkBalance { available : Z; locked : Z }.

Record OrderTab := mkOrderTab {
  ot_user_id : Uuid;
  ot_market_id : Uuid;
  ot_client_order_id : option string;
  ot_side : string;
  ot_type : string;
  ot_status : string;
  ot_price : option Z;
  ot_stop_price : option Z;
  ot_quantity : option Z;
  ot_quote_quantity : option Z;
  ot_display_quantity : option Z;
  ot_filled_quantity : Z;
  ot_avg_fill_price : option Z;
}.

Record TradeTab := mkTradeTab {
  tt_id : Uuid;
  tt_market_id : Uuid;
  tt_taker_order_id : Uuid;
  tt_maker_order_id : Uuid;
  tt_price : Z;
  tt_quantity : Z;
  tt_taker_side : string;
  tt_engine_seq : Z;
}.

Record LedgerTab := mkLedgerTab {
  le_user_id : Uuid;
  le_asset_id : Uuid;
  le_kind : string;
  le_amount : Z;
  le_available_after : Z;
  le_locked_after : Z;
  le_reference_type : string;
  le_reference_id : option Uuid;
  le_engine_seq : option Z;
}.

Record DepositTab := mkDepositTab {
  dt_user_id : Uuid; dt_asset_id : Uuid; dt_amount : Z; dt_status : string }.

Record EventTab (J : Type) := mkEventTab {
  et_event_type : string;
  et_payload : J;
  et_processed : bool;
}.
Arguments mkEventTab {J}.
Arguments et_event_type {J} _.
Arguments et_payload {J} _.
Arguments et_processed {J} _.

Record AuditTab := mkAuditTab {
  au_actor_user_id : Uuid;
  au_action : string;
  au_target_type : string;
  au_target_id : option Uuid;
  au_metadata : Json;
}.

Record Db (J : Type) := mkDb {
  users : gmap Uuid UserTab;
  assets : gmap Uuid AssetTab;
  markets : gmap Uuid MarketTab;
  balances : gmap (Uuid * Uuid) Balance;
  orders : gmap Uuid OrderTab;
  trades : list TradeTab;
  ledger_entries : list LedgerTab;
  deposits : gmap Uuid DepositTab;
  engine_events : gmap Z (EventTab J);
  worker_state : gmap string Z;
  audit_log : list AuditTab;
}.
Arguments mkDb {J}.
Arguments users {J} _.
Arguments assets {J} _.
Arguments markets {J} _.
Arguments balances {J} _.
Arguments orders {J} _.
Arguments trades {J} _.
Arguments ledger_entries {J} _.
Arguments deposits {J} _.
Arguments engine_events {J} _.
Arguments worker_state {J} _.
Arguments audit_log {J} _.

(** ** Enum labels *)

Definition account_status_labels : list string := ["active"; "frozen"; "closed"].
Definition market_status_labels : list string := ["trading"; "halted"; "delisted"].
Definition order_side_labels : list string := ["buy"; "sell"].
Definition order_status_labels : list string :=
  ["pending"; "new"; "partial"; "filled"; "canceled"; "rejected"].
Definition order_type_labels : list string :=
  ["limit"; "market"; "ioc"; "fok"; "post_only"; "stop_limit"; "stop_market"; "oco"].
Definition ledger_entry_kind_labels : list string :=
  ["deposit"; "withdrawal"; "trade"; "fee"; "lock"; "unlock"; "adjustment"].

(** ** CHECK constraints *)

Definition positive_or_null (x : option Z) : bool :=
  match x with Some n => 0 <? n | None => true end.
Definition nonneg_or_null (x : option Z) : bool :=
  match x with Some n => 0 <=? n | None => true end.

Definition order_checks (o : OrderTab) : bool :=
  positive_or_null (ot_price o) && positive_or_null (ot_stop_price o) &&
  positive_or_null (ot_quantity o) && positive_or_null (ot_quote_quantity o) &&
  positive_or_null (ot_display_quantity o) && (0 <=? ot_filled_quantity o) &&
  nonneg_or_null (ot_avg_fill_price o) &&
  (bool_decide (is_Some (ot_quantity o)) || bool_decide (is_Some (ot_quote_quantity o))).

Definition trade_checks (t : TradeTab) : bool :=
  (0 <? tt_price t) && (0 <? tt_quantity t) && (0 <? tt_engine_seq t).

Definition balance_checks (b : Balance) : bool := (0 <=? available b) && (0 <=? locked b).

Definition ledger_checks (l : LedgerTab) : bool :=
  (0 <=? le_available_after l) && (0 <=? le_locked_after l) &&
  positive_or_null (le_engine_seq l).

Section Tx.
Context {J : Type}.
Abbreviation Db := (Db J).

(** ** Statements in sequence *)

Definition Tx (A : Type) : Type := Db -> result DbError (A * Db).

Definition ret {A} (a : A) : Tx A := fun db => Ok (a, db).
Definition fail {A} (e : DbError) : Tx A := fun _ => Err e.
Definition bind {A B} (m : Tx A) (k : A -> Tx B) : Tx B :=
  fun db => match m db with Ok (a, db') => k a db' | Err e => Err e end.
Definition get : Tx Db := fun db => Ok (db, db).
Definition put (db : Db) : Tx () := fun _ => Ok ((), db).

(** An error unless the condition holds. *)
Definition require (c : bool) (e : DbError) : Tx () := if c then ret () else fail e.

(** An error where there is no value. *)
Definition of_option {A} (e : DbError) (x : option A) : Tx A :=
  match x with Some a => ret a | None => fail e end.

(** [COMMIT] on success, rollback otherwise. *)
Definition run_tx {A} (m : Tx A) (db : Db) : result DbError A * Db :=
  match m db with Ok (a, db') => (Ok a, db') | Err e => (Err e, db) end.

(** A statement outside a transaction: sqlx runs each in its own. *)
Definition run_stmt {A} (m : Tx A) (db : Db) : result DbError A * Db := run_tx m db.

(** [x::label]. *)
Definition cast (labels : list string) (x : string) : Tx string :=
  if bool_decide (x ∈ labels) then ret x else fail InvalidEnumLabel.

(** A bound parameter assigned to a column. *)
Definition column (n : Z) : Tx Z := of_option NumericOverflow (to_column n).
Definition column_opt (x : option Z) : Tx (option Z) :=
  match x with
  | None => ret None
  | Some n => bind (column n) (fun m => ret (Some m))
  end.

Definition with_balances (f : gmap (Uuid * Uuid) Balance -> gmap (Uuid * Uuid) Balance)
    (db : Db) : Db :=
  mkDb (users db) (assets db) (markets db) (f (balances db)) (orders db) (trades db)
    (ledger_entries db) (deposits db) (engine_events db) (worker_state db) (audit_log db).
Definition with_orders (f : gmap Uuid OrderTab -> gmap Uuid OrderTab) (db : Db) : Db :=
  mkDb (users db) (assets db) (markets db) (balances db) (f (orders db)) (trades db)
    (ledger_entries db) (deposits db) (engine_events db) (worker_state db) (audit_log db).
Definition with_trades (f : list TradeTab -> list TradeTab) (db : Db) : Db :=
  mkDb (users db) (assets db) (markets db) (balances db) (orders db) (f (trades db))
    (ledger_entries db) (deposits db) (engine_events db) (worker_state db) (audit_log db).
Definition with_ledger (f : list LedgerTab -> list LedgerTab) (db : Db) : Db :=
  mkDb (users db) (assets db) (markets db) (balances db) (orders db) (trades db)
    (f (ledger_entries db)) (deposits db) (engine_events db) (worker_state db) (audit_log db).
Definition with_deposits (f : gmap Uuid DepositTab -> gmap Uuid DepositTab) (db : Db) : Db :=
  mkDb (users db) (assets db) (markets db) (balances db) (orders db) (trades db)
    (ledger_entries db) (f (deposits db)) (engine_events db) (worker_state db) (audit_log db).
Definition with_events (f : gmap Z (EventTab J) -> gmap Z (EventTab J)) (db : Db) : Db :=
  mkDb (users db) (assets db) (markets db) (balances db) (orders db) (trades db)
    (ledger_entries db) (deposits db) (f (engine_events db)) (worker_state db) (audit_log db).
Definition with_worker_state (f : gmap string Z -> gmap string Z) (db : Db) : Db :=
  mkDb (users db) (assets db) (markets db) (balances db) (orders db) (trades db)
    (ledger_entries db) (deposits db) (engine_events db) (f (worker_state db)) (audit_log db).
Definition with_users (f : gmap Uuid UserTab -> gmap Uuid UserTab) (db : Db) : Db :=
  mkDb (f (users db)) (assets db) (markets db) (balances db) (orders db) (trades db)
    (ledger_entries db) (deposits db) (engine_events db) (worker_state db) (audit_log db).
Definition with_markets (f : gmap Uuid MarketTab -> gmap Uuid MarketTab) (db : Db) : Db :=
  mkDb (users db) (assets db) (f (markets db)) (balances db) (orders db) (trades db)
    (ledger_entries db) (deposits db) (engine_events db) (worker_state db) (audit_log db).
Definition with_audit_log (f : list AuditTab -> list AuditTab) (db : Db) : Db :=
  mkDb (users db) (assets db) (markets db) (balances db) (orders db) (trades db)
    (ledger_entries db) (deposits db) (engine_events db) (worker_state db) (f (audit_log db)).
End Tx.
Arguments Tx J A : clear implicits.

Declare Scope tx_scope.
Delimit Scope tx_scope with tx.
Notation "'let!' x := m 'in' k" := (bind m (fun x => k))
  (at level 10, x pattern, m at level 100, k at level 200) : tx_scope.
Notation "m ;; k" := (bind m (fun _ => k)) (at level 100, k at level 200) : tx_scope.

Section Rows.
Context {J : Type}.
Open Scope tx_scope.

(** Replaces a balance row that exists: columns rounded, then the CHECKs. *)
Definition set_balance (k : Uuid * Uuid) (new_available new_locked : Z) : Tx J Balance :=
  let! a := column new_available in
  let! l := column new_locked in
  let b := mkBalance a l in
  require (balance_checks b) CheckViolation ;;
  let! db := get in
  put (with_balances (insert k b) db) ;;
  ret b.

(** [INSERT INTO orders ...]: CHECKs, unique keys, foreign keys, in this order.
    [on_conflict] is the [ON CONFLICT (id) DO NOTHING] clause; the result says whether a
    row was inserted. *)
Definition insert_order_row (on_conflict : bool) (id : Uuid) (o : OrderTab) : Tx J bool :=
  let! db := get in
  require (order_checks o) CheckViolation ;;
  match orders db !! id with
  | Some _ => if on_conflict then ret false else fail UniqueViolation
  | None =>
      require (bool_decide (ot_client_order_id o = None \/
        map_Forall (fun _ o' => (ot_user_id o', ot_client_order_id o') <>
                                (ot_user_id o, ot_client_order_id o)) (orders db)))
        UniqueViolation ;;
      require (bool_decide (is_Some (users db !! ot_user_id o)) &&
               bool_decide (is_Some (markets db !! ot_market_id o))) ForeignKeyViolation ;;
      put (with_orders (insert id o) db) ;;
      ret true
  end.

(** [INSERT INTO ledger_entries ...]. *)
Definition insert_ledger_row (l : LedgerTab) : Tx J () :=
  let! db := get in
  require (ledger_checks l) CheckViolation ;;
  require (bool_decide (is_Some (users db !! le_user_id l)) &&
           bool_decide (is_Some (assets db !! le_asset_id l))) ForeignKeyViolation ;;
  put (with_ledger (fun ls => ls ++ [l]) db).

(** [INSERT INTO deposits ...]. *)
Definition insert_deposit_row (id : Uuid) (d : DepositTab) : Tx J () :=
  let! db := get in
  require (0 <? dt_amount d) CheckViolation ;;
  match deposits db !! id with
  | Some _ => fail UniqueViolation
  | None =>
      require (bool_decide (is_Some (users db !! dt_user_id d)) &&
               bool_decide (is_Some (assets db !! dt_asset_id d))) ForeignKeyViolation ;;
      put (with_deposits (insert id d) db)
  end.

(** [UPDATE orders SET ... WHERE id = $1]: no row, no effect. *)
Definition update_order_row (id : Uuid) (f : OrderTab -> OrderTab) : Tx J () :=
  let! db := get in
  match orders db !! id with
  | None => ret ()
  | Some o =>
      require (order_checks (f o)) CheckViolation ;;
      put (with_orders (insert id (f o)) db)
  end.

Definition set_status (s : string) (o : OrderTab) : OrderTab :=
  mkOrderTab (ot_user_id o) (ot_market_id o) (ot_client_order_id o) (ot_side o)
    (ot_type o) s (ot_price o) (ot_stop_price o) (ot_quantity o) (ot_quote_quantity o)
    (ot_display_quantity o) (ot_filled_quantity o) (ot_avg_fill_price o).

Definition set_fill (filled : Z) (avg : option Z) (s : string) (o : OrderTab) : OrderTab :=
  mkOrderTab (ot_user_id o) (ot_market_id o) (ot_client_order_id o) (ot_side o)
    (ot_type o) s (ot_price o) (ot_stop_price o) (ot_quantity o) (ot_quote_quantity o)
    (ot_display_quantity o) filled avg.
End Rows.

(** * Reasoning about successful transactions

    Inversion of each statement that returned ([tx_inv]), and [steps R m]: every run of
    [m] that returns relates its databases by the preorder [R]. *)

Section Inversion.
Context {J : Type}.
Implicit Types db : Db J.

Lemma bind_Ok {A B} (m : Tx J A) (k : A -> Tx J B) db r :
  bind m k db = Ok r -> exists a db', m db = Ok (a, db') /\ k a db' = Ok r.
Proof. unfold bind. destruct (m db) as [[a db']|]; [eauto|done]. Qed.

Lemma bind_run {A B} (m : Tx J A) (k : A -> Tx J B) db a db' :
  m db = Ok (a, db') -> bind m k db = k a db'.
Proof. unfold bind. by intros ->. Qed.

Lemma ret_Ok {A} (a b : A) db db' : ret a db = Ok (b, db') -> b = a /\ db' = db.
Proof. by intros [= <- <-]. Qed.

Lemma get_Ok db a db' : get db = Ok (a, db') -> a = db /\ db' = db.
Proof. by intros [= <- <-]. Qed.

Lemma put_Ok db0 db u db' : put db0 db = Ok (u, db') -> db' = db0.
Proof. by intros [= <- <-]. Qed.

Lemma require_Ok c e db u db' : require c e db = Ok (u, db') -> c = true /\ db' = db.
Proof. destruct c; [by intros [= <- <-]|done]. Qed.

Lemma of_option_Ok {A} e (x : option A) db a db' :
  of_option e x db = Ok (a, db') -> x = Some a /\ db' = db.
Proof. destruct x; [by intros [= <- <-]|done]. Qed.

Lemma cast_Ok labels x db y db' :
  cast labels x db = Ok (y, db') -> y = x /\ db' = db.
Proof. unfold cast. case_bool_decide; [by intros [= <- <-]|done]. Qed.

Lemma column_Ok n db m db' :
  column n db = Ok (m, db') -> m = round18 n /\ db' = db.
Proof.
  intros [H ->]%of_option_Ok. by apply to_column_Some in H as [? _].
Qed.

Lemma column_opt_Ok x db y db' :
  column_opt x db = Ok (y, db') -> y = round18 <$> x /\ db' = db.
Proof.
  destruct x as [n|]; [|by intros [= <- <-]].
  intros (m & db1 & [-> ->]%column_Ok & [-> ->]%ret_Ok)%bind_Ok. done.
Qed.

Lemma run_tx_Ok {A} (m : Tx J A) db a db' : run_tx m db = (Ok a, db') -> m db = Ok (a, db').
Proof. unfold run_tx. destruct (m db) as [[? ?]|]; by intros [= -> ->]. Qed.

Lemma run_tx_Err {A} (m : Tx J A) db e db' : run_tx m db = (Err e, db') -> db' = db.
Proof. unfold run_tx. destruct (m db) as [[? ?]|]; by intros [= ]. Qed.
End Inversion.

(** Splits a successful run into its statements. *)
Ltac tx_inv1 H :=
  lazymatch type of H with
  | bind _ _ _ = Ok _ =>
      let a := fresh "a" in let d := fresh "db" in let H1 := fresh "H" in
      let H2 := fresh "H" in
      apply bind_Ok in H as (a & d & H1 & H2); tx_inv1 H1; tx_inv1 H2
  | ret _ _ = Ok _ => apply ret_Ok in H as [? ?]
  | fail _ _ = Ok _ => discriminate H
  | get _ = Ok _ => apply get_Ok in H as [? ?]
  | put _ _ = Ok _ => apply put_Ok in H
  | require _ _ _ = Ok _ => apply require_Ok in H as [? ?]
  | of_option _ _ _ = Ok _ => apply of_option_Ok in H as [? ?]
  | cast _ _ _ = Ok _ => apply cast_Ok in H as [? ?]
  | column _ _ = Ok _ => apply column_Ok in H as [? ?]
  | column_opt _ _ = Ok _ => apply column_opt_Ok in H as [? ?]
  | _ => idtac
  end.
Ltac tx_step H :=
  lazymatch type of H with
  | bind _ _ _ = Ok _ => idtac | ret _ _ = Ok _ => idtac | fail _ _ = Ok _ => idtac
  | get _ = Ok _ => idtac | put _ _ = Ok _ => idtac | require _ _ _ = Ok _ => idtac
  | of_option _ _ _ = Ok _ => idtac | cast _ _ _ = Ok _ => idtac
  | column _ _ = Ok _ => idtac | column_opt _ _ = Ok _ => idtac
  end; tx_inv1 H; subst; cbv beta zeta in *.
(** All of them, in every hypothesis. *)
Ltac tx_inv := cbv beta zeta in *; repeat match goal with H : _ = Ok _ |- _ => tx_step H end.

Section Statements.
Context {J : Type}.
Implicit Types db : Db J.

Lemma set_balance_Ok k a l db b db' :
  set_balance k a l db = Ok (b, db') ->
  b = mkBalance (round18 a) (round18 l) /\ 0 <= round18 a /\ 0 <= round18 l /\
  db' = with_balances (insert k b) db.
Proof.
  unfold set_balance. intros H. tx_inv.
  match goal with H : balance_checks _ = true |- _ =>
    apply andb_true_iff in H as [?%Z.leb_le ?%Z.leb_le] end. done.
Qed.

Lemma insert_ledger_row_Ok l db u db' :
  insert_ledger_row l db = Ok (u, db') -> db' = with_ledger (fun ls => ls ++ [l]) db.
Proof. unfold insert_ledger_row. intros H. by tx_inv. Qed.

Lemma insert_order_row_Ok c i o db r db' :
  insert_order_row c i o db = Ok (r, db') ->
  (r = false /\ c = true /\ is_Some (orders db !! i) /\ db' = db) \/
  (r = true /\ orders db !! i = None /\ order_checks o = true /\
   db' = with_orders (insert i o) db).
Proof.
  unfold insert_order_row. intros H. tx_inv. destruct (orders db !! i) eqn:E.
  - left. destruct c; [|done]. tx_inv. eauto.
  - right. by tx_inv.
Qed.

Lemma update_order_row_Ok i f db u db' :
  update_order_row i f db = Ok (u, db') ->
  (orders db !! i = None /\ db' = db) \/
  (exists o, orders db !! i = Some o /\ order_checks (f o) = true /\
     db' = with_orders (insert i (f o)) db).
Proof.
  unfold update_order_row. intros H. tx_inv.
  destruct (orders db !! i) as [o|] eqn:E; tx_inv; eauto.
Qed.
End Statements.

(** ** Relations every run respects *)

Section Steps.
Context {J : Type}.
Implicit Types db : Db J.

Definition steps (R : relation (Db J)) {A} (m : Tx J A) : Prop :=
  forall db a db', m db = Ok (a, db') -> R db db'.

Context (R : relation (Db J)) `{!PreOrder R}.

Lemma steps_id {A} (m : Tx J A) :
  (forall db a db', m db = Ok (a, db') -> db' = db) -> steps R m.
Proof. intros H db a db' E. by rewrite (H _ _ _ E). Qed.

Lemma steps_ret {A} (a : A) : steps R (ret a).
Proof. apply steps_id. by intros ??? [_ ?]%ret_Ok. Qed.

Lemma steps_fail {A} e : steps R (fail e : Tx J A).
Proof. done. Qed.

Lemma steps_get : steps R get.
Proof. apply steps_id. by intros ??? [_ ?]%get_Ok. Qed.

Lemma steps_require c e : steps R (require c e).
Proof. apply steps_id. by intros ??? [_ ?]%require_Ok. Qed.

Lemma steps_of_option {A} e (x : option A) : steps R (of_option e x).
Proof. apply steps_id. by intros ??? [_ ?]%of_option_Ok. Qed.

Lemma steps_cast l x : steps R (cast l x).
Proof. apply steps_id. by intros ??? [_ ?]%cast_Ok. Qed.

Lemma steps_column n : steps R (column n).
Proof. apply steps_id. by intros ??? [_ ?]%column_Ok. Qed.

Lemma steps_column_opt x : steps R (column_opt x).
Proof. apply steps_id. by intros ??? [_ ?]%column_opt_Ok. Qed.

Lemma steps_bind {A B} (m : Tx J A) (k : A -> Tx J B) :
  steps R m -> (forall a, steps R (k a)) -> steps R (bind m k).
Proof.
  intros Hm Hk db b db' (a & db1 & H1 & H2)%bind_Ok.
  etrans; [by eapply Hm|by eapply Hk].
Qed.
End Steps.

Create HintDb tx.
#[export] Hint Resolve steps_ret steps_fail steps_get steps_require steps_of_option
  steps_cast steps_column steps_column_opt : tx.

(** Proves [steps R m] from the [steps] lemmas of the statements in the database [tx]. *)
Ltac steps_tac :=
  repeat first
    [ solve [eauto with tx typeclass_instances]
    | apply steps_bind; [typeclasses eauto|..]
    | lazymatch goal with |- forall _, _ => intros ? end
    | match goal with |- context [match ?x with _ => _ end] => destruct x end ].
