(* ===== verification/Settlement.v ===== *)
(** * Settlement: the settlement worker

    [services/settlement/src/settlement.rs], [bridge.rs] and [events.rs]: the bridge
    stores the broadcast engine events ([persist_event]), and the worker takes them in
    sequence order, one transaction each, and books them: it creates order rows, locks
    and unlocks balances, books trades and fees, and marks the event processed.

    JSON is a parameter ([EventJson]); NUMERIC columns come from Numeric.v. *)
From S2P Require Import Prelude Decimal Proto Numeric Database.

Class EventJson (D J : Type) := {
  event_to_value : WireEvent D -> option J;
  event_from_value : J -> option (WireEvent D);
  sequenced_from_value : J -> option (SequencedEngineEvent D);
}.

Class EventJsonLaws (D J : Type) {ej : EventJson D J} := {
  event_json_roundtrip e j : event_to_value e = Some j -> event_from_value j = Some e;
}.

Definition BPS_DENOMINATOR : Z := 10000.
Definition SETTLEMENT_WORKER : string := "settlement".
Definition I64_MAX : Z := 2 ^ 63 - 1.

Inductive EventDecodeError := Invalid.

Inductive SettlementError :=
| Database (e : DbError)
| Decode (e : EventDecodeError)
| SequenceOutOfRange.

Inductive EngineEventBridgeError :=
  BridgeIo | BridgeDatabase (e : DbError) | BridgeSequenceOutOfRange | BridgeClosed.

Record OrderRow (D : Type) := mkOrderRow {
  id : Uuid;
  user_id : Uuid;
  market_id : Uuid;
  side : string;
  quantity : option D;
  price : option D;
  filled_quantity : D;
  avg_fill_price : option D;
  status : string;
  base_asset_id : Uuid;
  quote_asset_id : Uuid;
  maker_fee_bps : D;
  taker_fee_bps : D;
}.
Arguments mkOrderRow {D}.
Arguments id {D} _.
Arguments user_id {D} _.
Arguments market_id {D} _.
Arguments side {D} _.
Arguments quantity {D} _.
Arguments price {D} _.
Arguments filled_quantity {D} _.
Arguments avg_fill_price {D} _.
Arguments status {D} _.
Arguments base_asset_id {D} _.
Arguments quote_asset_id {D} _.
Arguments maker_fee_bps {D} _.
Arguments taker_fee_bps {D} _.

Record MarketRow := mkMarketRow {
  mr_id : Uuid;
  mr_base_asset_id : Uuid;
  mr_quote_asset_id : Uuid;
}.

Record LedgerMutation (D : Type) := mkMutation {
  lm_user_id : Uuid;
  lm_asset_id : Uuid;
  lm_kind : string;
  lm_amount : D;
  lm_available_delta : D;
  lm_locked_delta : D;
  lm_reference_type : string;
  lm_reference_id : option Uuid;
  lm_engine_seq : option Z;
}.
Arguments mkMutation {D}.
Arguments lm_user_id {D} _.
Arguments lm_asset_id {D} _.
Arguments lm_kind {D} _.
Arguments lm_amount {D} _.
Arguments lm_available_delta {D} _.
Arguments lm_locked_delta {D} _.
Arguments lm_reference_type {D} _.
Arguments lm_reference_id {D} _.
Arguments lm_engine_seq {D} _.

Record StoredEngineEvent (J : Type) := mkStored {
  st_seq : Z; st_event_type : string; st_payload : J }.
Arguments mkStored {J}.
Arguments st_seq {J} _.
Arguments st_event_type {J} _.
Arguments st_payload {J} _.

Definition order_side_db (s : OrderSide) : string :=
  match s with WBuy => "buy" | WSell => "sell" end.

Definition order_type_db (t : EngineOrderType) : string :=
  match t with
  | WLimit | WIceberg => "limit"
  | WMarket => "market"
  | WIoc => "ioc"
  | WFok => "fok"
  | WPostOnly => "post_only"
  | WStopLimit => "stop_limit"
  | WStopMarket => "stop_market"
  | WOco => "oco"
  end.

Section Settlement.
Context {D J : Type} {dops : DecimalOps D} {pg : PgDecimal D} {ej : EventJson D J}.
Open Scope tx_scope.
Implicit Types (db : Db J) (fill : TradeFill D).

Definition fee_amount (gross fee_bps : D) : D :=
  (gross * fee_bps / dnew BPS_DENOMINATOR 0)%dec.

Definition lock_obligation (o : EngineOrder D) (market : MarketRow) : Uuid * D :=
  match eo_side o with
  | WBuy => (mr_quote_asset_id market,
      match eo_price o with Some price => (price * eo_quantity o)%dec | None => dzero end)
  | WSell => (mr_base_asset_id market, eo_quantity o)
  end.

(** The balance moves first; the ledger entry records the columns it returned. *)
Definition apply_ledger (m : LedgerMutation D) : Tx J () :=
  let k := (lm_user_id m, lm_asset_id m) in
  let! db := get in
  let! b := of_option RowNotFound (balances db !! k) in
  let! b' := set_balance k (available b * GRID + to_pg (lm_available_delta m))
                           (locked b * GRID + to_pg (lm_locked_delta m)) in
  let! balance_0 := of_option ColumnDecode (of_pg (available b')) in
  let! balance_1 := of_option ColumnDecode (of_pg (locked b')) in
  let! kind := cast ledger_entry_kind_labels (lm_kind m) in
  let! amount := column (to_pg (lm_amount m)) in
  let! available_after := column (to_pg balance_0) in
  let! locked_after := column (to_pg balance_1) in
  insert_ledger_row (mkLedgerTab (lm_user_id m) (lm_asset_id m) kind amount
    available_after locked_after (lm_reference_type m) (lm_reference_id m)
    (lm_engine_seq m)).

(** [symbol] is a unique key of the table. *)
Definition fetch_market (symbol : string) : Tx J MarketRow :=
  let! db := get in
  of_option RowNotFound
    (head ((fun '(i, m) => mkMarketRow i (mt_base_asset_id m) (mt_quote_asset_id m)) <$>
      filter (fun im => mt_symbol im.2 = symbol) (map_to_list (markets db)))).

Definition insert_order (o : EngineOrder D) (market_id : Uuid) : Tx J bool :=
  let! side := cast order_side_labels (order_side_db (eo_side o)) in
  let! type := cast order_type_labels (order_type_db (eo_order_type o)) in
  let! status := cast order_status_labels "new" in
  let! price := column_opt (to_pg <$> eo_price o) in
  let! quantity := column (to_pg (eo_quantity o)) in
  let! stop_price := column_opt (to_pg <$> eo_stop_price o) in
  let! display_quantity := column_opt (to_pg <$> eo_display_qty o) in
  insert_order_row true (eo_id o)
    (mkOrderTab (eo_user_id o) market_id None side type status price stop_price
      (Some quantity) None display_quantity 0 None).

(** A NUMERIC column read back. *)
Definition decode_opt (x : option Z) : Tx J (option D) :=
  match x with
  | None => ret None
  | Some n => let! d := of_option ColumnDecode (of_pg n) in ret (Some d)
  end.

Definition fetch_order (order_id : Uuid) : Tx J (OrderRow D) :=
  let! db := get in
  let! o := of_option RowNotFound (orders db !! order_id) in
  let! m := of_option RowNotFound (markets db !! ot_market_id o) in
  let! quantity := decode_opt (ot_quantity o) in
  let! price := decode_opt (ot_price o) in
  let! filled := of_option ColumnDecode (of_pg (ot_filled_quantity o)) in
  let! avg := decode_opt (ot_avg_fill_price o) in
  let! maker_fee := of_option ColumnDecode (of_pg (mt_maker_fee_bps m)) in
  let! taker_fee := of_option ColumnDecode (of_pg (mt_taker_fee_bps m)) in
  ret (mkOrderRow order_id (ot_user_id o) (ot_market_id o) (ot_side o) quantity price
    filled avg (ot_status o) (mt_base_asset_id m) (mt_quote_asset_id m) maker_fee taker_fee).

Definition update_order_fill (order : OrderRow D) (fill_price fill_quantity : D) : Tx J () :=
  let new_filled := (filled_quantity order + fill_quantity)%dec in
  let old_notional := (default dzero (avg_fill_price order) * filled_quantity order)%dec in
  let avg := ((old_notional + fill_price * fill_quantity) / new_filled)%dec in
  let status :=
    match quantity order with
    | Some total => if (total <=? new_filled)%dec then "filled" else "partial"
    | None => "partial"
    end in
  let! filled := column (to_pg new_filled) in
  let! avg := column (to_pg avg) in
  let! status := cast order_status_labels status in
  update_order_row (id order) (set_fill filled (Some avg) status).

Definition settle_order_accepted (seq : Z) (o : EngineOrder D) : Tx J () :=
  let! market := fetch_market (eo_symbol o) in
  let! inserted := insert_order o (mr_id market) in
  if negb inserted then ret () else
  let '(asset_id, obligation) := lock_obligation o market in
  if (dzero <? obligation)%dec then
    apply_ledger (mkMutation (eo_user_id o) asset_id "lock" dzero (- obligation)%dec
      obligation "order" (Some (eo_id o)) (Some seq))
  else ret ().

Definition insert_trade (seq : Z) fill (market_id : Uuid) : Tx J () :=
  let! price := column (to_pg (tf_price fill)) in
  let! quantity := column (to_pg (tf_quantity fill)) in
  let! side := cast order_side_labels (order_side_db (tf_taker_side fill)) in
  let t := mkTradeTab (tf_trade_id fill) market_id (tf_taker_order_id fill)
             (tf_maker_order_id fill) price quantity side seq in
  require (trade_checks t) CheckViolation ;;
  let! db := get in
  if bool_decide (Exists (fun t => tt_engine_seq t = seq) (trades db)) then ret () else
  require (bool_decide (Forall (fun t => tt_id t <> tf_trade_id fill) (trades db)))
    UniqueViolation ;;
  require (bool_decide (is_Some (markets db !! market_id)) &&
           bool_decide (is_Some (orders db !! tf_taker_order_id fill)) &&
           bool_decide (is_Some (orders db !! tf_maker_order_id fill)))
    ForeignKeyViolation ;;
  put (with_trades (fun ts => ts ++ [t]) db).

(** The six bookings of a fill, in the order of the code. *)
Definition fill_mutations (seq : Z) fill (taker maker : OrderRow D)
    : list (LedgerMutation D) :=
  let notional := (tf_price fill * tf_quantity fill)%dec in
  let taker_fee := fee_amount (tf_quantity fill) (taker_fee_bps taker) in
  let maker_fee := fee_amount notional (maker_fee_bps maker) in
  let '(buyer, seller) :=
    match tf_taker_side fill with WBuy => (taker, maker) | WSell => (maker, taker) end in
  let entry user asset kind amount available_delta locked_delta :=
    mkMutation user asset kind amount available_delta locked_delta "trade"
      (Some (tf_trade_id fill)) (Some seq) in
  [ entry (user_id buyer) (base_asset_id buyer) "trade"
      (tf_quantity fill) (tf_quantity fill) dzero;
    entry (user_id buyer) (base_asset_id buyer) "fee"
      (- taker_fee)%dec (- taker_fee)%dec dzero;
    entry (user_id buyer) (quote_asset_id buyer) "trade"
      (- notional)%dec dzero (- notional)%dec;
    entry (user_id seller) (quote_asset_id seller) "trade"
      notional notional dzero;
    entry (user_id seller) (quote_asset_id seller) "fee"
      (- maker_fee)%dec (- maker_fee)%dec dzero;
    entry (user_id seller) (base_asset_id seller) "trade"
      (- tf_quantity fill)%dec dzero (- tf_quantity fill)%dec ].

Fixpoint apply_all (ms : list (LedgerMutation D)) : Tx J () :=
  match ms with
  | [] => ret ()
  | m :: ms' => apply_ledger m ;; apply_all ms'
  end.

Definition apply_fill_ledger (seq : Z) fill (taker maker : OrderRow D) : Tx J () :=
  apply_all (fill_mutations seq fill taker maker).

Definition settle_fill (seq : Z) fill : Tx J () :=
  let! db := get in
  if bool_decide (Exists (fun t => tt_engine_seq t = seq) (trades db)) then ret () else
  let! taker := fetch_order (tf_taker_order_id fill) in
  let! maker := fetch_order (tf_maker_order_id fill) in
  insert_trade seq fill (market_id taker) ;;
  apply_fill_ledger seq fill taker maker ;;
  update_order_fill taker (tf_price fill) (tf_quantity fill) ;;
  update_order_fill maker (tf_price fill) (tf_quantity fill).

Definition settle_cancel (seq : Z) (order_id : Uuid) : Tx J () :=
  let! order := fetch_order order_id in
  if bool_decide (status order = "canceled" \/ status order = "filled") then ret () else
  let remaining :=
    match quantity order with
    | Some quantity => (quantity - filled_quantity order)%dec
    | None => dzero
    end in
  let obligation :=
    if bool_decide (side order = "buy") then
      match price order with Some price => (price * remaining)%dec | None => dzero end
    else remaining in
  (if (dzero <? obligation)%dec then
     let asset_id :=
       if bool_decide (side order = "buy") then quote_asset_id order
       else base_asset_id order in
     apply_ledger (mkMutation (user_id order) asset_id "unlock" dzero obligation
       (- obligation)%dec "order" (Some order_id) (Some seq))
   else ret ()) ;;
  update_order_row order_id (set_status "canceled").

(** [StoredEngineEvent::decode]: the bare event, else the sequenced one. *)
Definition decode (stored : StoredEngineEvent J) : result EventDecodeError (WireEvent D) :=
  match event_from_value (st_payload stored) with
  | Some e => Ok e
  | None =>
      match sequenced_from_value (st_payload stored) with
      | Some sequenced => Ok (se_event sequenced)
      | None => Err Invalid
      end
  end.

(** The lowest unprocessed sequence number no other transaction has locked. *)
Definition unprocessed (skip : gset Z) db : list Z :=
  merge_sort Z.le (elements
    (dom (filter (fun se => et_processed se.2 = false) (engine_events db)) ∖ skip)).

Definition fetch_next_event (skip : gset Z) : Tx J (option (StoredEngineEvent J)) :=
  let! db := get in
  ret (seq ← head (unprocessed skip db);
       (fun row => mkStored seq (et_event_type row) (et_payload row)) <$>
         engine_events db !! seq).

Definition mark_processed (seq : Z) : Tx J () :=
  let! db := get in
  put (with_worker_state
         (partial_alter (fun old => Some (match old with Some n => Z.max n seq | None => seq end))
            SETTLEMENT_WORKER)
         (with_events
            (alter (fun r => mkEventTab (et_event_type r) (et_payload r) true) seq) db)).

(** The dispatch of [process_next]. *)
Definition settle_event (seq : Z) (event : WireEvent D) : Tx J () :=
  match event with
  | WeOrderAccepted order => settle_order_accepted seq order
  | WeFill fill => settle_fill seq fill
  | WeOrderCanceled order_id _ => settle_cancel seq order_id
  | WeOrderRested _ _ | WeBookDelta _ | WeMarketStatus _ _ => ret ()
  end.

Definition to_settlement {A} (m : Tx J A) : Db J -> result SettlementError (A * Db J) :=
  fun db => match m db with Ok r => Ok r | Err e => Err (Database e) end.

(** One transaction: on an error the database is the one it started from. *)
Definition process_next (skip : gset Z) db : result SettlementError bool * Db J :=
  match fetch_next_event skip db with
  | Err e => (Err (Database e), db)
  | Ok (None, _) => (Ok false, db)
  | Ok (Some stored, _) =>
      match decode stored with
      | Err e => (Err (Decode e), db)
      | Ok event =>
          match to_settlement (settle_event (st_seq stored) event ;;
                               mark_processed (st_seq stored)) db with
          | Ok (_, db') => (Ok true, db')
          | Err e => (Err e, db)
          end
      end
  end.

(** [process_available], the [while] with fuel and the count so far. *)
Fixpoint process_loop (fuel : nat) (processed : Z) db
    : option (result SettlementError Z * Db J) :=
  match fuel with
  | O => None
  | S fuel' =>
      match process_next ∅ db with
      | (Ok true, db') => process_loop fuel' (u64_saturating_add processed 1) db'
      | (Ok false, db') => Some (Ok processed, db')
      | (Err e, db') => Some (Err e, db')
      end
  end.

Definition process_available (fuel : nat) db : option (result SettlementError Z * Db J) :=
  process_loop fuel 0 db.

Definition event_type (event : WireEvent D) : string :=
  match event with
  | WeOrderAccepted _ => "orderAccepted"
  | WeOrderRested _ _ => "orderRested"
  | WeFill _ => "fill"
  | WeOrderCanceled _ _ => "orderCanceled"
  | WeBookDelta _ => "bookDelta"
  | WeMarketStatus _ _ => "marketStatus"
  end.

(** [INSERT INTO engine_events ... ON CONFLICT (seq) DO NOTHING]. *)
Definition insert_event (seq : Z) (type : string) (payload : J) : Tx J () :=
  require (0 <? seq) CheckViolation ;;
  let! db := get in
  match engine_events db !! seq with
  | Some _ => ret ()
  | None => put (with_events (insert seq (mkEventTab type payload false)) db)
  end.

Definition persist_event (event : SequencedEngineEvent D) db
    : result EngineEventBridgeError () * Db J :=
  let seq := se_seq event in
  if I64_MAX <? seq then (Err BridgeSequenceOutOfRange, db) else
  match event_to_value (se_event event) with
  | None => (Err BridgeIo, db)
  | Some payload =>
      match run_stmt (insert_event seq (event_type (se_event event)) payload) db with
      | (Ok _, db') => (Ok (), db')
      | (Err e, db') => (Err (BridgeDatabase e), db')
      end
  end.

(** [run_once] on the responses one connection delivers: only events are stored, and
    the end of the stream is an error. *)
Fixpoint run_once (responses : list (EngineResponse D)) db
    : result EngineEventBridgeError () * Db J :=
  match responses with
  | [] => (Err BridgeClosed, db)
  | RespEvent event :: rest =>
      match persist_event event db with
      | (Ok _, db') => run_once rest db'
      | (Err e, db') => (Err e, db')
      end
  | _ :: rest => run_once rest db
  end.
End Settlement.
