(* ===== verification/Ledger.v ===== *)
(** * Ledger: what a booking does to the balances and the ledger

    [apply_ledger] moves one balance and appends one ledger entry.  [ledger_ok] is the
    invariant of [settlement.rs]'s own test: available plus locked is the sum of the
    entries, and neither is negative.  [clean] bookings, those no column rounds at a tie,
    keep it.  [asset_total] is what all users hold of an asset; [solvent]: that is what was
    deposited less the fees. *)
From S2P Require Import Prelude Decimal Numeric Database Settlement.

(** The sum of the entries of one account. *)
Definition booked (k : Uuid * Uuid) (ls : list LedgerTab) : Z :=
  foldr (fun l acc => (if bool_decide ((le_user_id l, le_asset_id l) = k) then le_amount l
                       else 0) + acc) 0 ls.

Definition worth (b : Balance) : Z := available b + locked b.

Definition ledger_ok {J} (db : Db J) : Prop :=
  forall k b, balances db !! k = Some b ->
    worth b = booked k (ledger_entries db) /\ 0 <= available b /\ 0 <= locked b.

(** Executable form, over the accounts there are. *)
#[export] Instance ledger_ok_dec {J} (db : Db J) : Decision (ledger_ok db).
Proof.
  refine (cast_if (decide (map_Forall (fun k b => worth b = booked k (ledger_entries db) /\
    0 <= available b /\ 0 <= locked b) (balances db)))); assumption.
Defined.

(** What all users hold of an asset. *)
Definition asset_total (a : Uuid) (bs : gmap (Uuid * Uuid) Balance) : Z :=
  map_fold (fun k b acc => (if bool_decide (k.2 = a) then worth b else 0) + acc) 0 bs.

Lemma booked_app k ls ls' : booked k (ls ++ ls') = booked k ls + booked k ls'.
Proof. induction ls as [|l ls IH]; simpl; lia. Qed.

Lemma booked_one k l :
  booked k [l] = if bool_decide ((le_user_id l, le_asset_id l) = k) then le_amount l else 0.
Proof. simpl. lia. Qed.

Lemma asset_total_fresh a k b bs :
  bs !! k = None ->
  asset_total a (<[k := b]> bs) =
    (if bool_decide (k.2 = a) then worth b else 0) + asset_total a bs.
Proof.
  intros H. unfold asset_total. rewrite map_fold_insert_L; [done| |done].
  intros. lia.
Qed.

Lemma asset_total_insert a k b b' bs :
  bs !! k = Some b ->
  asset_total a (<[k := b']> bs) =
    asset_total a bs + (if bool_decide (k.2 = a) then worth b' - worth b else 0).
Proof.
  intros H. pose proof (asset_total_fresh a k b (delete k bs) (lookup_delete_eq _ _)) as H1.
  pose proof (asset_total_fresh a k b' (delete k bs) (lookup_delete_eq _ _)) as H2.
  rewrite insert_delete_eq in H1, H2. rewrite insert_id in H1 by done.
  rewrite H1, H2. case_bool_decide; lia.
Qed.

(** ** What is in circulation *)

(** The entries that bring an asset into the accounts or take it out of them. *)
Definition external (kind : string) : bool := String.eqb kind "deposit" || String.eqb kind "fee".

(** What these add to an asset: the deposits less the fees. *)
Definition issued (a : Uuid) (ls : list LedgerTab) : Z :=
  foldr (fun l acc => (if external (le_kind l) && bool_decide (le_asset_id l = a)
                       then le_amount l else 0) + acc) 0 ls.

(** Every unit the users hold was deposited and not yet taken as a fee. *)
Definition solvent {J} (db : Db J) : Prop :=
  forall a, asset_total a (balances db) = issued a (ledger_entries db).

(** Nothing is created or lost between two states. *)
Definition accounted {J} (db db' : Db J) : Prop :=
  forall a, asset_total a (balances db') - issued a (ledger_entries db') =
            asset_total a (balances db) - issued a (ledger_entries db).

#[export] Instance accounted_preorder {J} : PreOrder (accounted (J := J)).
Proof. split; [done|]. intros db1 db2 db3 H1 H2 a. by rewrite H2, H1. Qed.

Lemma accounted_solvent {J} (db db' : Db J) : accounted db db' -> solvent db -> solvent db'.
Proof. intros H Hs a. specialize (H a). specialize (Hs a). lia. Qed.

Lemma accounted_money {J} (db db' : Db J) :
  balances db' = balances db -> ledger_entries db' = ledger_entries db -> accounted db db'.
Proof. intros E1 E2 a. by rewrite E1, E2. Qed.

(** Moving within an account. *)
Lemma accounted_move {J} (db : Db J) k b b' :
  balances db !! k = Some b -> worth b' = worth b ->
  accounted db (with_balances (insert k b') db).
Proof.
  intros Hk Hw a. simpl. rewrite (asset_total_insert a k b b') by done. case_bool_decide; lia.
Qed.

Lemma issued_app a ls ls' : issued a (ls ++ ls') = issued a ls + issued a ls'.
Proof. induction ls as [|l ls IH]; simpl; lia. Qed.

(** Executable form, over the assets that occur. *)
Lemma asset_total_absent a bs :
  map_Forall (fun k _ => k.2 <> a) bs -> asset_total a bs = 0.
Proof.
  induction bs as [|k b bs Hk IH] using map_ind; [done|].
  rewrite map_Forall_insert by done. intros [Hne Hbs].
  rewrite asset_total_fresh, bool_decide_false, IH by done. done.
Qed.

Lemma issued_absent a ls : Forall (fun l => le_asset_id l <> a) ls -> issued a ls = 0.
Proof.
  induction 1 as [|l ls Hl _ IH]; [done|]. simpl. rewrite bool_decide_false by done.
  by rewrite andb_false_r.
Qed.

Definition assets_seen {J} (db : Db J) : list Uuid :=
  (map_to_list (balances db)).*1.*2 ++ (le_asset_id <$> ledger_entries db).

#[export] Instance solvent_dec {J} (db : Db J) : Decision (solvent db).
Proof.
  refine (cast_if (decide (Forall (fun a => asset_total a (balances db) =
    issued a (ledger_entries db)) (assets_seen db)))).
  - intros a. destruct (decide (a ∈ assets_seen db)) as [Hin|Hn].
    + by apply (proj1 (Forall_forall _ _) f).
    + unfold assets_seen in Hn. rewrite elem_of_app in Hn.
      rewrite asset_total_absent, issued_absent; [done|..].
      * apply Forall_forall. intros l Hl <-. apply Hn. right. by apply list_elem_of_fmap_2.
      * intros k b Hk <-. apply Hn. left.
        by apply list_elem_of_fmap_2, (list_elem_of_fmap_2 fst _ (k, b)), elem_of_map_to_list.
  - intros Hs. apply n. apply Forall_forall. by intros a _.
Defined.

Section Booking.
Context {D J : Type} {dops : DecimalOps D} {dlaws : DecimalLaws D} {pg : PgDecimal D}
  {plaws : PgDecimalLaws D}.
Implicit Types (db : Db J) (m : LedgerMutation D).

Definition account m : Uuid * Uuid := (lm_user_id m, lm_asset_id m).

(** The effect of one booking. *)
Definition booking m db db' : Prop :=
  exists b aa la,
    balances db !! account m = Some b /\
    let a := round18 (available b * GRID + to_pg (lm_available_delta m)) in
    let l := round18 (locked b * GRID + to_pg (lm_locked_delta m)) in
    0 <= a /\ 0 <= l /\
    of_pg a = Some aa /\ of_pg l = Some la /\
    db' = with_ledger (fun ls => ls ++ [mkLedgerTab (lm_user_id m) (lm_asset_id m) (lm_kind m)
              (round18 (to_pg (lm_amount m))) (round18 (to_pg aa)) (round18 (to_pg la))
              (lm_reference_type m) (lm_reference_id m) (lm_engine_seq m)])
            (with_balances (insert (account m) (mkBalance a l)) db).

Lemma apply_ledger_Ok m db u db' : apply_ledger m db = Ok (u, db') -> booking m db db'.
Proof.
  unfold apply_ledger. intros H. tx_inv.
  repeat match goal with
  | H : set_balance _ _ _ _ = Ok _ |- _ => apply set_balance_Ok in H as (-> & ? & ? & ->)
  | H : insert_ledger_row _ _ = Ok _ |- _ => apply insert_ledger_row_Ok in H
  end. subst. unfold booking. naive_solver.
Qed.

(** Every column rounds to a nearest value in only one way, and the amount is the net
    effect. *)
Definition clean m : Prop :=
  no_tie (to_pg (lm_available_delta m)) /\ no_tie (to_pg (lm_locked_delta m)) /\
  round18 (to_pg (lm_amount m)) =
    round18 (to_pg (lm_available_delta m)) + round18 (to_pg (lm_locked_delta m)).

Lemma booking_balances m db db' :
  booking m db db' -> clean m ->
  exists b b', balances db !! account m = Some b /\
    balances db' = <[account m := b']> (balances db) /\
    available b' = available b + round18 (to_pg (lm_available_delta m)) /\
    locked b' = locked b + round18 (to_pg (lm_locked_delta m)) /\
    0 <= available b' /\ 0 <= locked b'.
Proof.
  intros (b & aa & la & Hb & Ha & Hl & _ & _ & ->) (Hta & Htl & _).
  eexists b, _. split_and!; [done|done|..]; simpl;
    [by rewrite round18_add|by rewrite round18_add|done|done].
Qed.

Lemma booking_ledger m db db' k :
  booking m db db' ->
  booked k (ledger_entries db') = booked k (ledger_entries db) +
    (if bool_decide (account m = k) then round18 (to_pg (lm_amount m)) else 0).
Proof.
  intros (b & aa & la & _ & _ & _ & _ & _ & ->). simpl. by rewrite booked_app, booked_one.
Qed.

Lemma booking_ledger_ok m db db' :
  booking m db db' -> clean m -> ledger_ok db -> ledger_ok db'.
Proof.
  intros Hb Hc Hok k b1 Hk. rewrite (booking_ledger m db db' k Hb).
  destruct (booking_balances m db db' Hb Hc) as (b & b' & Hlk & Hbs & Ha & Hl & Hpa & Hpl).
  rewrite Hbs in Hk. case_bool_decide as E.
  - subst k. rewrite lookup_insert_eq in Hk. injection Hk as <-.
    destruct (Hok _ _ Hlk) as [Hw _]. destruct Hc as (_ & _ & Hn). unfold worth in *. lia.
  - rewrite lookup_insert_ne in Hk by done. destruct (Hok _ _ Hk). lia.
Qed.

Lemma booking_total m db db' a :
  booking m db db' -> clean m ->
  asset_total a (balances db') = asset_total a (balances db) +
    (if bool_decide (lm_asset_id m = a) then round18 (to_pg (lm_amount m)) else 0).
Proof.
  intros Hb Hc.
  destruct (booking_balances m db db' Hb Hc) as (b & b' & Hlk & -> & Ha & Hl & _).
  rewrite (asset_total_insert a (account m) b b') by done.
  unfold account, worth. simpl. destruct Hc as (_ & _ & Hn). case_bool_decide; lia.
Qed.

(** What one account gains from a list of bookings. *)
Definition net (f : LedgerMutation D -> D) (k : Uuid * Uuid)
    (ms : list (LedgerMutation D)) : Z :=
  foldr (fun m acc => (if bool_decide (account m = k) then round18 (to_pg (f m)) else 0) + acc)
    0 ms.

(** What an asset gains in all. *)
Definition asset_net (a : Uuid) (ms : list (LedgerMutation D)) : Z :=
  foldr (fun m acc => (if bool_decide (lm_asset_id m = a)
                       then round18 (to_pg (lm_amount m)) else 0) + acc) 0 ms.

(** Bookings in sequence. *)
Fixpoint bookings (ms : list (LedgerMutation D)) db db' : Prop :=
  match ms with
  | [] => db' = db
  | m :: ms' => exists db1, booking m db db1 /\ bookings ms' db1 db'
  end.

Lemma apply_all_Ok ms db u db' : apply_all ms db = Ok (u, db') -> bookings ms db db'.
Proof.
  revert db. induction ms as [|m ms IH]; intros db H; simpl in H; tx_inv; [done|].
  match goal with H : apply_ledger _ _ = Ok _ |- _ => apply apply_ledger_Ok in H end.
  simpl. eauto.
Qed.

Lemma bookings_ledger_ok ms db db' :
  bookings ms db db' -> Forall clean ms -> ledger_ok db -> ledger_ok db'.
Proof.
  revert db. induction ms as [|m ms IH]; intros db; simpl; [by intros ->|].
  intros (db1 & Hb & Hbs) [Hc Hcs]%Forall_cons Hok.
  eapply IH; [done|done|]. by eapply booking_ledger_ok.
Qed.

Lemma bookings_total ms db db' a :
  bookings ms db db' -> Forall clean ms ->
  asset_total a (balances db') = asset_total a (balances db) + asset_net a ms.
Proof.
  revert db. induction ms as [|m ms IH]; intros db; simpl; [intros ->; lia|].
  intros (db1 & Hb & Hbs) [Hc Hcs]%Forall_cons.
  rewrite (IH db1), (booking_total m db db1) by done. lia.
Qed.

(** What bookings that are neither deposits nor fees move in or out. *)
Definition internal_net (a : Uuid) (ms : list (LedgerMutation D)) : Z :=
  foldr (fun m acc => (if negb (external (lm_kind m)) && bool_decide (lm_asset_id m = a)
                       then round18 (to_pg (lm_amount m)) else 0) + acc) 0 ms.

Lemma booking_issued m db db' a :
  booking m db db' ->
  issued a (ledger_entries db') = issued a (ledger_entries db) +
    (if external (lm_kind m) && bool_decide (lm_asset_id m = a)
     then round18 (to_pg (lm_amount m)) else 0).
Proof.
  intros (b & aa & la & _ & _ & _ & _ & _ & ->). simpl. rewrite issued_app. simpl. lia.
Qed.

Lemma bookings_issued ms db db' a :
  bookings ms db db' ->
  issued a (ledger_entries db') =
    issued a (ledger_entries db) + asset_net a ms - internal_net a ms.
Proof.
  revert db. induction ms as [|m ms IH]; intros db; simpl; [intros ->; lia|].
  intros (db1 & Hb & Hbs). rewrite (IH db1), (booking_issued m db db1) by done.
  destruct (external (lm_kind m)); simpl; case_bool_decide; lia.
Qed.

Lemma bookings_accounted ms db db' :
  bookings ms db db' -> Forall clean ms -> (forall a, internal_net a ms = 0) ->
  accounted db db'.
Proof.
  intros Hb Hc Hi a. rewrite (bookings_total ms db), (bookings_issued ms db) by done.
  rewrite Hi. lia.
Qed.

Lemma bookings_balance ms db db' k b' :
  bookings ms db db' -> Forall clean ms -> balances db' !! k = Some b' ->
  exists b, balances db !! k = Some b /\
    available b' = available b + net lm_available_delta k ms /\
    locked b' = locked b + net lm_locked_delta k ms.
Proof.
  revert db. induction ms as [|m ms IH]; intros db; simpl.
  { intros -> Hk. exists b'. split_and!; [done|lia|lia]. }
  intros (db1 & Hb & Hbs) [Hc Hcs]%Forall_cons Hk.
  destruct (IH db1 Hbs Hcs Hk) as (b1 & Hb1 & -> & ->).
  destruct (booking_balances m db db1 Hb Hc) as (b & b2 & Hlk & Heq & Ha & Hl & _).
  rewrite Heq in Hb1. case_bool_decide as E.
  - subst k. rewrite lookup_insert_eq in Hb1. injection Hb1 as ->.
    exists b. rewrite Ha, Hl. split; [done|]. lia.
  - rewrite lookup_insert_ne in Hb1 by done. exists b1. split; [done|]. lia.
Qed.

(** Bookings touch nothing but the two tables. *)
Lemma bookings_frame ms db db' :
  bookings ms db db' ->
  users db' = users db /\ assets db' = assets db /\ markets db' = markets db /\
  orders db' = orders db /\ trades db' = trades db /\
  engine_events db' = engine_events db /\ worker_state db' = worker_state db.
Proof.
  revert db. induction ms as [|m ms IH]; intros db; simpl; [by intros ->|].
  intros (db1 & (b & aa & la & _ & _ & _ & _ & _ & ->) & Hbs). by apply IH in Hbs.
Qed.
End Booking.
