(* ===== verification/SettleEvent.v ===== *)
(** * SettleEvent: what settling one event does

    [event_mutations] lists the bookings an event leads to in the current database;
    [settle_event_books] shows that settling it books exactly these and otherwise only
    adds its order or trade row and updates the rows of its orders. *)
From S2P Require Import Prelude Decimal Proto Numeric Database Settlement Ledger.

Section SettleEvent.
Context {D J : Type} {dops : DecimalOps D} {dlaws : DecimalLaws D} {pg : PgDecimal D}
  {plaws : PgDecimalLaws D} {ej : EventJson D J}.
Implicit Types (db : Db J) (fill : TradeFill D).

Definition lock_mutations (seq : Z) (o : EngineOrder D) (market : MarketRow)
    : list (LedgerMutation D) :=
  let '(asset_id, obligation) := lock_obligation o market in
  if dltb dzero obligation then
    [mkMutation (eo_user_id o) asset_id "lock" dzero (dneg obligation) obligation "order"
       (Some (eo_id o)) (Some seq)]
  else [].

(** What an order still has locked, by its own account. *)
Definition obligation_of (row : OrderRow D) : D :=
  let remaining :=
    match quantity row with
    | Some quantity => dsub quantity (filled_quantity row)
    | None => dzero
    end in
  if bool_decide (side row = "buy") then
    match price row with Some price => dmul price remaining | None => dzero end
  else remaining.

Definition closed (row : OrderRow D) : Prop :=
  status row = "canceled" \/ status row = "filled".

#[export] Instance closed_dec row : Decision (closed row).
Proof. unfold closed. apply _. Defined.

Definition unlock_mutations (seq : Z) (row : OrderRow D) : list (LedgerMutation D) :=
  if decide (closed row) then [] else
  if dltb dzero (obligation_of row) then
    [mkMutation (user_id row)
       (if bool_decide (side row = "buy") then quote_asset_id row else base_asset_id row)
       "unlock" dzero (obligation_of row) (dneg (obligation_of row)) "order"
       (Some (id row)) (Some seq)]
  else [].

Definition traded (seq : Z) db : Prop := Exists (fun t => tt_engine_seq t = seq) (trades db).

#[export] Instance traded_dec seq db : Decision (traded seq db).
Proof. unfold traded. apply _. Defined.

Definition event_mutations (seq : Z) (event : WireEvent D) db : list (LedgerMutation D) :=
  match event with
  | WeOrderAccepted o =>
      match fetch_market (eo_symbol o) db, orders db !! eo_id o with
      | Ok (market, _), None => lock_mutations seq o market
      | _, _ => []
      end
  | WeFill fill =>
      if decide (traded seq db) then [] else
      match fetch_order (tf_taker_order_id fill) db, fetch_order (tf_maker_order_id fill) db with
      | Ok (taker, _), Ok (maker, _) => fill_mutations seq fill taker maker
      | _, _ => []
      end
  | WeOrderCanceled order_id _ =>
      match fetch_order order_id db with
      | Ok (row, _) => unlock_mutations seq row
      | Err _ => []
      end
  | _ => []
  end.

(** No amount of a booking lies half way between two column values. *)
Definition exact m : Prop :=
  no_tie (to_pg (lm_amount m)) /\ no_tie (to_pg (lm_available_delta m)) /\
  no_tie (to_pg (lm_locked_delta m)).

#[export] Instance exact_dec m : Decision (exact m).
Proof. unfold exact. apply _. Defined.

Lemma to_pg_zero : to_pg (dzero : D) = 0.
Proof. by rewrite to_pg_units, units_zero. Qed.

Lemma to_pg_neg (x : D) : to_pg (dneg x) = - to_pg x.
Proof. by rewrite !to_pg_units, units_neg. Qed.

(** A lock or unlock, a gain of available, or a gain of locked balance. *)
Definition balanced m : Prop :=
  (to_pg (lm_amount m) = 0 /\ to_pg (lm_available_delta m) = - to_pg (lm_locked_delta m)) \/
  (to_pg (lm_amount m) = to_pg (lm_available_delta m) /\ to_pg (lm_locked_delta m) = 0) \/
  (to_pg (lm_amount m) = to_pg (lm_locked_delta m) /\ to_pg (lm_available_delta m) = 0).

Lemma balanced_clean m : balanced m -> exact m -> clean m.
Proof.
  intros H (_ & Hv & Hl). split_and!; [done..|].
  destruct H as [[-> E]|[[-> E]|[-> E]]]; rewrite E, ?round18_opp, ?round18_zero; lia.
Qed.

Ltac balanced_tac :=
  repeat (apply Forall_cons; split); try apply Forall_nil; try done;
  unfold balanced; simpl; rewrite ?to_pg_zero, ?to_pg_neg; lia.

Lemma lock_mutations_balanced seq o market : Forall balanced (lock_mutations seq o market).
Proof.
  unfold lock_mutations. destruct (lock_obligation o market). case_match; balanced_tac.
Qed.

Lemma unlock_mutations_balanced seq row : Forall balanced (unlock_mutations seq row).
Proof. unfold unlock_mutations. repeat case_match; balanced_tac. Qed.

Lemma fill_mutations_balanced seq fill taker maker :
  Forall balanced (fill_mutations seq fill taker maker).
Proof. unfold fill_mutations. destruct (tf_taker_side fill); balanced_tac. Qed.

Lemma event_mutations_clean seq event db :
  Forall exact (event_mutations seq event db) -> Forall clean (event_mutations seq event db).
Proof.
  assert (Forall balanced (event_mutations seq event db)) as Hb.
  { unfold event_mutations. repeat case_match; try apply Forall_nil; try done;
      auto using lock_mutations_balanced, unlock_mutations_balanced, fill_mutations_balanced. }
  intros He. pose proof (proj2 (Forall_and _ _) (conj Hb He)) as H.
  eapply Forall_impl; [exact H|]. intros m [? ?]. by apply balanced_clean.
Qed.

(** ** Statements that leave the money alone *)

Definition money_kept db db' : Prop :=
  balances db' = balances db /\ ledger_entries db' = ledger_entries db.

#[export] Instance money_kept_preorder : PreOrder money_kept.
Proof. split; [done|]. intros ??? [] []. split; congruence. Qed.

(** The bookings in the middle of a run. *)
Definition books (ms : list (LedgerMutation D)) db db' : Prop :=
  exists db1 db2, money_kept db db1 /\ bookings ms db1 db2 /\ money_kept db2 db'.

Lemma books_nil db db' : money_kept db db' -> books [] db db'.
Proof. exists db, db. done. Qed.

Lemma update_order_row_money i f : steps money_kept (update_order_row (J := J) i f).
Proof. by intros db u db' [[_ ->]|(o & _ & _ & ->)]%update_order_row_Ok. Qed.

Lemma insert_order_row_money c i o : steps money_kept (insert_order_row (J := J) c i o).
Proof.
  by intros db u db' [(_ & _ & _ & ->)|(_ & _ & _ & ->)]%insert_order_row_Ok.
Qed.

Hint Resolve update_order_row_money insert_order_row_money : tx.

Lemma update_order_fill_money (row : OrderRow D) p q :
  steps money_kept (update_order_fill (J := J) row p q).
Proof. unfold update_order_fill. steps_tac. Qed.

Lemma insert_order_money (o : EngineOrder D) mid : steps money_kept (insert_order (J := J) o mid).
Proof. unfold insert_order. steps_tac. Qed.

Lemma insert_trade_money seq fill mid : steps money_kept (insert_trade (J := J) seq fill mid).
Proof.
  intros db u db' H. unfold insert_trade in H. tx_inv. case_bool_decide; tx_inv; done.
Qed.

(** ** What the queries return *)

Lemma decode_opt_Ok x db (y : option D) db' :
  decode_opt x db = Ok (y, db') -> db' = db /\ y = x ≫= of_pg.
Proof.
  destruct x as [n|]; simpl; intros H; tx_inv; [|done].
  match goal with H : of_pg _ = Some _ |- _ => by rewrite H end.
Qed.

Lemma fetch_order_Ok i db (row : OrderRow D) db' :
  fetch_order i db = Ok (row, db') ->
  db' = db /\ exists o m, orders db !! i = Some o /\ markets db !! ot_market_id o = Some m /\
    id row = i /\ user_id row = ot_user_id o /\ market_id row = ot_market_id o /\
    side row = ot_side o /\ status row = ot_status o /\
    of_pg (ot_filled_quantity o) = Some (filled_quantity row) /\
    quantity row = ot_quantity o ≫= of_pg /\ price row = ot_price o ≫= of_pg /\
    base_asset_id row = mt_base_asset_id m /\ quote_asset_id row = mt_quote_asset_id m.
Proof.
  unfold fetch_order. intros H. tx_inv.
  repeat match goal with H : decode_opt _ _ = Ok _ |- _ => apply decode_opt_Ok in H as [-> ->] end.
  split; [done|]. do 2 eexists. split_and!; done.
Qed.

Lemma fetch_market_Ok s db mk db' :
  fetch_market s db = Ok (mk, db') ->
  db' = db /\ exists m, markets db !! mr_id mk = Some m /\ mt_symbol m = s /\
    mr_base_asset_id mk = mt_base_asset_id m /\ mr_quote_asset_id mk = mt_quote_asset_id m.
Proof.
  unfold fetch_market. intros H. tx_inv. split; [done|].
  match goal with H : head _ = Some _ |- _ => apply head_Some_elem_of in H end.
  match goal with H : _ ∈ _ <$> _ |- _ => apply list_elem_of_fmap in H as ([i m] & -> & H1) end.
  apply list_elem_of_filter in H1 as [Hs Hi%elem_of_map_to_list]. exists m. done.
Qed.

(** ** Settling one event books exactly [event_mutations] *)

Lemma books_one (m : LedgerMutation D) db db1 db2 db3 u :
  money_kept db db1 -> apply_ledger m db1 = Ok (u, db2) -> money_kept db2 db3 ->
  books [m] db db3.
Proof.
  intros H1 H2%apply_ledger_Ok H3. exists db1, db2. split_and!; [done| |done].
  simpl. eauto.
Qed.

Lemma settle_order_accepted_books seq (o : EngineOrder D) db u db' :
  settle_order_accepted seq o db = Ok (u, db') ->
  books (event_mutations seq (WeOrderAccepted o) db) db db'.
Proof.
  unfold settle_order_accepted. intros H. tx_inv. simpl.
  match goal with H : fetch_market _ _ = Ok (?a, _) |- _ =>
    rewrite H; destruct (fetch_market_Ok _ _ _ _ H) as [-> _] end.
  match goal with H : insert_order _ _ _ = Ok _ |- _ =>
    pose proof (insert_order_money _ _ _ _ _ H) as Hm; unfold insert_order in H end.
  tx_inv.
  match goal with H : insert_order_row _ _ _ _ = Ok _ |- _ =>
    apply insert_order_row_Ok in H as [(-> & _ & [o' Ho] & ->)|(-> & Ho & _ & Hdb)] end;
    rewrite Ho; simpl in *; tx_inv; [by apply books_nil|].
  unfold lock_mutations. destruct (lock_obligation _ _) as [asset obligation].
  case_match; [by eapply books_one|]. tx_inv. by apply books_nil.
Qed.

Lemma settle_fill_books seq fill db u db' :
  settle_fill seq fill db = Ok (u, db') -> books (event_mutations seq (WeFill fill) db) db db'.
Proof.
  unfold settle_fill. intros H. tx_inv. simpl.
  case_bool_decide as Ht; [rewrite decide_True by done; tx_inv; by apply books_nil|].
  rewrite decide_False by done. tx_inv.
  repeat match goal with H : fetch_order _ ?d = Ok (?a, ?d') |- _ =>
    lazymatch d' with d => fail | _ =>
      destruct (fetch_order_Ok _ _ _ _ H) as [-> _] end end.
  repeat match goal with H : fetch_order _ _ = Ok _ |- _ => rewrite H; clear H end.
  repeat match goal with
  | H : insert_trade _ _ _ _ = Ok _ |- _ => apply insert_trade_money in H
  | H : update_order_fill _ _ _ _ = Ok _ |- _ => apply update_order_fill_money in H
  | H : apply_fill_ledger _ _ _ _ _ = Ok _ |- _ => apply apply_all_Ok in H
  end.
  do 2 eexists. split_and!; [done..|]. by etrans.
Qed.

Lemma settle_cancel_books seq i r db u db' :
  settle_cancel seq i db = Ok (u, db') ->
  books (event_mutations seq (WeOrderCanceled i r) db) db db'.
Proof.
  unfold settle_cancel. intros H. tx_inv. simpl.
  match goal with H : fetch_order _ _ = Ok (?a, _) |- _ =>
    rewrite H; destruct (fetch_order_Ok _ _ _ _ H) as [-> (? & ? & _ & _ & <- & _)]; clear H end.
  unfold unlock_mutations, closed.
  case_bool_decide as Hc; [rewrite decide_True by done; tx_inv; by apply books_nil|].
  rewrite decide_False by done. tx_inv.
  match goal with H : update_order_row _ _ _ = Ok _ |- _ => apply update_order_row_money in H end.
  unfold obligation_of. case_match; tx_inv; [by eapply books_one|by apply books_nil].
Qed.

Lemma settle_event_books seq event db u db' :
  settle_event seq event db = Ok (u, db') -> books (event_mutations seq event db) db db'.
Proof.
  destruct event; intros H; unfold settle_event in H.
  - by eapply settle_order_accepted_books.
  - tx_inv. by apply books_nil.
  - by eapply settle_fill_books.
  - by eapply settle_cancel_books.
  - tx_inv. by apply books_nil.
  - tx_inv. by apply books_nil.
Qed.

Lemma ledger_ok_money db db' : money_kept db db' -> ledger_ok db -> ledger_ok db'.
Proof. unfold ledger_ok. by intros [-> ->]. Qed.

Lemma books_ledger_ok ms db db' :
  books ms db db' -> Forall clean ms -> ledger_ok db -> ledger_ok db'.
Proof.
  intros (db1 & db2 & H1 & H2 & H3) Hc Hok.
  eapply ledger_ok_money, bookings_ledger_ok, ledger_ok_money; eauto.
Qed.

Lemma books_total ms db db' a :
  books ms db db' -> Forall clean ms ->
  asset_total a (balances db') = asset_total a (balances db) + asset_net a ms.
Proof.
  intros (db1 & db2 & [<- _] & H2 & [-> _]) Hc. by apply bookings_total.
Qed.

Lemma books_balance ms db db' k b' :
  books ms db db' -> Forall clean ms -> balances db' !! k = Some b' ->
  exists b, balances db !! k = Some b /\
    available b' = available b + net lm_available_delta k ms /\
    locked b' = locked b + net lm_locked_delta k ms.
Proof.
  intros (db1 & db2 & [<- _] & H2 & [-> _]) Hc. by apply bookings_balance.
Qed.
End SettleEvent.
