(* ===== verification/SettleRun.v ===== *)
(** * SettleRun: the worker takes the events one by one, in order

    [settle_all] is the specification of the worker: settle the given events from left
    to right, each completely or not at all, and stop at the first that fails.
    [process_loop_settle_all]: the worker does that to the unprocessed events in
    ascending order of their numbers, with one round of fuel more than there are.  Then
    the queue the bridge fills: it keeps the first row of each sequence number. *)
From S2P Require Import Prelude Decimal Proto Numeric Database Settlement Ledger.
From S2P Require Import SettleEvent.

Section SettleRun.
Context {D J : Type} {dops : DecimalOps D} {pg : PgDecimal D} {ej : EventJson D J}.
Implicit Types db : Db J.

(** ** Specification *)

Definition settle_one (seq : Z) db : result SettlementError (Db J) :=
  match engine_events db !! seq with
  | None => Ok db
  | Some row =>
      match decode (mkStored seq (et_event_type row) (et_payload row)) with
      | Err e => Err (Decode e)
      | Ok event =>
          match settle_event seq event db with
          | Err e => Err (Database e)
          | Ok (_, db1) =>
              match mark_processed seq db1 with
              | Ok (_, db2) => Ok db2
              | Err e => Err (Database e)
              end
          end
      end
  end.

Fixpoint settle_all (seqs : list Z) db : result SettlementError () * Db J :=
  match seqs with
  | [] => (Ok (), db)
  | seq :: rest =>
      match settle_one seq db with
      | Ok db' => settle_all rest db'
      | Err e => (Err e, db)
      end
  end.

(** The event waiting under a number. *)
Definition queued (seq : Z) db : option (WireEvent D) :=
  row ← engine_events db !! seq;
  match decode (mkStored seq (et_event_type row) (et_payload row)) with
  | Ok event => Some event
  | Err _ => None
  end.

(** [P] holds of every event in the state in which it will be settled. *)
Fixpoint each_event (P : Z -> WireEvent D -> Db J -> Prop) (seqs : list Z) db : Prop :=
  match seqs with
  | [] => True
  | seq :: rest =>
      match queued seq db with Some event => P seq event db | None => True end /\
      match settle_one seq db with Ok db' => each_event P rest db' | Err _ => True end
  end.

#[export] Instance each_event_dec P seqs db `{!forall s e d, Decision (P s e d)} :
  Decision (each_event P seqs db).
Proof.
  revert db. induction seqs as [|s rest IH]; intros db; simpl; [apply _|].
  destruct (queued s db), (settle_one s db); apply _.
Defined.

(** ** Tables settlement never writes, and the queue *)

Definition static db db' : Prop :=
  users db' = users db /\ assets db' = assets db /\ markets db' = markets db /\
  engine_events db' = engine_events db /\ worker_state db' = worker_state db.

#[export] Instance static_preorder : PreOrder static.
Proof. split; [done|]. unfold static. intros ??? (?&?&?&?&?) (?&?&?&?&?). split_and!; congruence. Qed.

Lemma update_order_row_static i f : steps static (update_order_row (J := J) i f).
Proof. by intros db u db' [[_ ->]|(o & _ & _ & ->)]%update_order_row_Ok. Qed.

Lemma insert_order_row_static c i o : steps static (insert_order_row (J := J) c i o).
Proof. by intros db u db' [(_ & _ & _ & ->)|(_ & _ & _ & ->)]%insert_order_row_Ok. Qed.

Lemma apply_ledger_static (m : LedgerMutation D) : steps static (apply_ledger (J := J) m).
Proof. by intros db u db' (b & aa & la & _ & _ & _ & _ & _ & ->)%apply_ledger_Ok. Qed.

Hint Resolve update_order_row_static insert_order_row_static apply_ledger_static : tx.

Lemma apply_all_static (ms : list (LedgerMutation D)) : steps static (apply_all (J := J) ms).
Proof. induction ms; simpl; steps_tac. Qed.

Lemma decode_opt_static x : steps static (decode_opt (D := D) (J := J) x).
Proof. destruct x; simpl; steps_tac. Qed.

Hint Resolve apply_all_static decode_opt_static : tx.

Lemma fetch_order_static i : steps static (fetch_order (D := D) (J := J) i).
Proof. unfold fetch_order. steps_tac. Qed.

Lemma fetch_market_static s : steps static (fetch_market (J := J) s).
Proof. unfold fetch_market. steps_tac. Qed.

Lemma insert_trade_static seq (fill : TradeFill D) i : steps static (insert_trade (J := J) seq fill i).
Proof. intros db u db' H. unfold insert_trade in H. tx_inv. case_bool_decide; tx_inv; done. Qed.

Hint Resolve fetch_order_static fetch_market_static insert_trade_static : tx.

Lemma settle_event_static seq (event : WireEvent D) :
  steps static (settle_event (J := J) seq event).
Proof.
  destruct event; unfold settle_event, settle_order_accepted, settle_fill, settle_cancel,
    insert_order, apply_fill_ledger, update_order_fill; steps_tac.
Qed.

(** ** The queue of unprocessed events *)

Lemma unprocessed_sorted skip db : StronglySorted Z.le (unprocessed skip db).
Proof. apply Sorted_StronglySorted; [apply _|]. apply Sorted_merge_sort, _. Qed.

Lemma elem_of_unprocessed skip db s :
  s ∈ unprocessed skip db <->
  (exists row, engine_events db !! s = Some row /\ et_processed row = false) /\ s ∉ skip.
Proof.
  unfold unprocessed. rewrite merge_sort_Permutation, elem_of_elements, elem_of_difference,
    elem_of_dom. unfold is_Some. setoid_rewrite map_lookup_filter_Some. naive_solver.
Qed.

Lemma NoDup_unprocessed skip db : NoDup (unprocessed skip db).
Proof. unfold unprocessed. rewrite merge_sort_Permutation. apply NoDup_elements. Qed.

(** A sorted duplicate-free list with the same elements is the same list. *)
Lemma sorted_NoDup_eq (l1 l2 : list Z) :
  StronglySorted Z.le l1 -> StronglySorted Z.le l2 -> NoDup l1 -> NoDup l2 ->
  (forall x, x ∈ l1 <-> x ∈ l2) -> l1 = l2.
Proof.
  intros. apply (StronglySorted_unique Z.le); [done..|]. by apply NoDup_Permutation.
Qed.

Lemma mark_processed_run seq db :
  exists db', mark_processed (J := J) seq db = Ok ((), db') /\
    engine_events db' = alter (fun r => mkEventTab (et_event_type r) (et_payload r) true) seq
      (engine_events db) /\
    worker_state db' = partial_alter (fun old =>
        Some (match old with Some n => Z.max n seq | None => seq end)) SETTLEMENT_WORKER
      (worker_state db) /\
    users db' = users db /\ assets db' = assets db /\ markets db' = markets db /\
    balances db' = balances db /\ orders db' = orders db /\ trades db' = trades db /\
    ledger_entries db' = ledger_entries db.
Proof. eexists. split_and!; done. Qed.

(** Marking the head leaves the tail. *)
Lemma unprocessed_mark s rest db db1 db2 u :
  unprocessed ∅ db = s :: rest -> static db db1 -> mark_processed s db1 = Ok (u, db2) ->
  unprocessed ∅ db2 = rest.
Proof.
  intros Hu (_ & _ & _ & He & _) Hm.
  destruct (mark_processed_run s db1) as (? & Hm' & He' & _). rewrite Hm in Hm'.
  injection Hm' as -> <-. rewrite He in He'.
  pose proof (unprocessed_sorted ∅ db) as Hs. pose proof (NoDup_unprocessed ∅ db) as Hn.
  rewrite Hu in Hs, Hn. apply StronglySorted_inv in Hs as [Hs _].
  apply NoDup_cons in Hn as [Hni Hn].
  apply sorted_NoDup_eq; [apply unprocessed_sorted|done|apply NoDup_unprocessed|done|].
  intros x. pose proof (elem_of_unprocessed ∅ db x) as Hx. rewrite Hu in Hx.
  rewrite elem_of_unprocessed, He'. destruct (decide (x = s)) as [->|Hne].
  - split; [|done]. intros [(row & Hrow & Hp) _]. rewrite lookup_alter_eq in Hrow.
    destruct (engine_events db !! s); simplify_eq/=.
  - rewrite lookup_alter_ne by done. rewrite <- Hx, elem_of_cons. naive_solver.
Qed.

(** ** One round *)

Lemma process_next_idle db : unprocessed ∅ db = [] -> process_next ∅ db = (Ok false, db).
Proof. intros H. unfold process_next, fetch_next_event, bind, get, ret. by rewrite H. Qed.

Lemma process_next_step s rest db :
  unprocessed ∅ db = s :: rest ->
  process_next ∅ db =
    match settle_one s db with Ok db' => (Ok true, db') | Err e => (Err e, db) end.
Proof.
  intros H.
  assert (s ∈ unprocessed ∅ db) as [(row & Hrow & _) _]%elem_of_unprocessed
    by (rewrite H; left).
  unfold process_next, fetch_next_event, settle_one, bind, get, ret. rewrite H. simpl.
  rewrite Hrow. simpl. destruct (decode _) as [event|e]; [|done].
  unfold to_settlement. cbn [st_seq].
  destruct (settle_event s event db) as [[u db1]|e]; [|done].
  reflexivity.
Qed.

Lemma settle_one_unprocessed s rest db db' :
  unprocessed ∅ db = s :: rest -> settle_one s db = Ok db' -> unprocessed ∅ db' = rest.
Proof.
  intros H Hs.
  assert (s ∈ unprocessed ∅ db) as [(row & Hrow & _) _]%elem_of_unprocessed
    by (rewrite H; left).
  unfold settle_one in Hs. rewrite Hrow in Hs.
  destruct (decode _) as [event|]; [|done].
  destruct (settle_event s event db) as [[u db1]|] eqn:E; [|done].
  destruct (mark_processed s db1) as [[v db2]|] eqn:E2; [|done]. injection Hs as <-.
  eapply unprocessed_mark; [done| |done]. by eapply settle_event_static.
Qed.

(** An invariant of settling single events is one of the worker. *)
Lemma settle_all_invariant (P : Z -> WireEvent D -> Db J -> Prop) (Inv : Db J -> Prop) :
  (forall s event db u db1, Inv db -> P s event db -> settle_event s event db = Ok (u, db1) ->
     Inv db1) ->
  (forall s db u db1, Inv db -> mark_processed s db = Ok (u, db1) -> Inv db1) ->
  forall seqs db, Inv db -> each_event P seqs db -> Inv (settle_all seqs db).2.
Proof.
  intros Hset Hmark seqs. induction seqs as [|s rest IH]; intros db Hi; [done|].
  cbn [each_event settle_all]. unfold queued. intros [Hp Hr].
  destruct (settle_one s db) as [db'|e] eqn:E; [|done]. apply IH; [|done].
  unfold settle_one in E. destruct (engine_events db !! s) as [row|]; [|by simplify_eq].
  simpl in Hp. destruct (decode _) as [event|]; [|done].
  destruct (settle_event s event db) as [[u db1]|] eqn:E1; [|done].
  destruct (mark_processed s db1) as [[v db2]|] eqn:E2; [|done]. injection E as <-.
  eauto.
Qed.

(** No event leaves the table. *)
Lemma settle_all_keeps_events seqs db seq :
  is_Some (engine_events db !! seq) -> is_Some (engine_events (settle_all seqs db).2 !! seq).
Proof.
  intros H. apply (settle_all_invariant (fun _ _ _ => True)
    (fun db => is_Some (engine_events db !! seq))); [| |done|].
  - intros s event db0 u db1 Hi _ Hs.
    destruct (settle_event_static _ _ _ _ _ Hs) as (_ & _ & _ & -> & _). done.
  - intros s db0 u db1 Hi Hm. destruct (mark_processed_run s db0) as (? & Hm' & He & _).
    rewrite Hm in Hm'. simplify_eq. rewrite He. by rewrite lookup_alter_is_Some.
  - clear H. revert db. induction seqs as [|s rest IH]; intros db; simpl; [done|].
    split; [by destruct (queued s db)|]. by destruct (settle_one s db).
Qed.

(** ** The loop *)

(** What is left in the queue when the worker stops. *)
Fixpoint left_over (seqs : list Z) db : list Z :=
  match seqs with
  | [] => []
  | seq :: rest =>
      match settle_one seq db with Ok db' => left_over rest db' | Err _ => seqs end
  end.

Lemma process_loop_S fuel n db :
  process_loop (S fuel) n db =
    match process_next ∅ db with
    | (Ok true, db') => process_loop fuel (u64_saturating_add n 1) db'
    | (Ok false, db') => Some (Ok n, db')
    | (Err e, db') => Some (Err e, db')
    end.
Proof. done. Qed.

Lemma process_loop_settle_all seqs n db :
  0 <= n -> unprocessed ∅ db = seqs ->
  process_loop (S (length seqs)) (Z.min U64_MAX n) db =
    Some (res_map (fun _ => Z.min U64_MAX (n + Z.of_nat (length seqs)))
            (fst (settle_all seqs db)), snd (settle_all seqs db)) /\
  unprocessed ∅ (snd (settle_all seqs db)) = left_over seqs db.
Proof.
  revert n db. induction seqs as [|s rest IH]; intros n db Hn H.
  - simpl. rewrite (process_next_idle db H). simpl. by rewrite Z.add_0_r.
  - change (length (s :: rest)) with (S (length rest)). rewrite process_loop_S.
    rewrite (process_next_step s rest db H). cbn [settle_all left_over].
    destruct (settle_one s db) as [db'|e] eqn:E; [|done].
    pose proof (settle_one_unprocessed s rest db db' H E) as H'.
    replace (u64_saturating_add (Z.min U64_MAX n) 1) with (Z.min U64_MAX (n + 1))
      by (unfold u64_saturating_add; lia).
    destruct (IH (n + 1) db' ltac:(lia) H') as [-> ->].
    by replace (n + Z.of_nat (S (length rest))) with (n + 1 + Z.of_nat (length rest)) by lia.
Qed.

(** Whatever the fuel: a worker that returns has settled the queue. *)
Lemma process_loop_final fuel n db r db' :
  process_loop fuel n db = Some (r, db') -> db' = (settle_all (unprocessed ∅ db) db).2.
Proof.
  revert n db. induction fuel as [|fuel IH]; intros n db; [done|]. rewrite process_loop_S.
  destruct (unprocessed ∅ db) as [|s rest] eqn:Hu.
  - rewrite process_next_idle by done. by intros [= _ <-].
  - rewrite (process_next_step s rest db Hu). cbn [settle_all].
    destruct (settle_one s db) as [db1|e] eqn:E; [|by intros [= _ <-]].
    intros H. rewrite (IH _ _ H), (settle_one_unprocessed s rest db db1 Hu E). done.
Qed.

(** What is left is a tail of the queue: the events before it have been settled. *)
Lemma left_over_suffix seqs db :
  exists done_, seqs = done_ ++ left_over seqs db /\
    (fst (settle_all seqs db) = Ok () <-> left_over seqs db = []).
Proof.
  revert db. induction seqs as [|s rest IH]; intros db; [by exists []|]. simpl.
  destruct (settle_one s db) as [db'|e].
  - destruct (IH db') as (d & Hd & Hiff). exists (s :: d). simpl. split; [congruence|done].
  - by exists [].
Qed.
End SettleRun.

(** * The queue between the engine and settlement

    The bridge may connect any number of times and be sent the same events again; the
    queue keeps the first row of each sequence number. *)

Section Bridge.
Context {D J : Type} {ej : EventJson D J}.
Implicit Types (db : Db J) (event : SequencedEngineEvent D).

(** A number the bridge can store, and an event that can be written as JSON. *)
Definition storable event : Prop :=
  0 < se_seq event <= I64_MAX /\ is_Some (event_to_value (se_event event)).

Definition storable_response (r : EngineResponse D) : Prop :=
  match r with RespEvent event => storable event | _ => True end.

(** Only the queue changes, and it only gains unprocessed rows. *)
Definition queue_grows db db' : Prop :=
  db' = with_events (fun _ => engine_events db') db /\
  engine_events db ⊆ engine_events db'.

#[export] Instance queue_grows_preorder : PreOrder queue_grows.
Proof.
  split.
  - intros []. split; [done|]. simpl. reflexivity.
  - intros [] [] [] [H1 H1'] [H2 H2']. unfold with_events in *. simpl in *.
    injection H1. injection H2. intros. subst. split; [done|]. simpl. by etrans.
Qed.

Lemma persist_event_Ok event db u db' :
  persist_event event db = (Ok u, db') ->
  queue_grows db db' /\ is_Some (engine_events db' !! se_seq event) /\
  (engine_events db !! se_seq event = None ->
     exists j, event_to_value (se_event event) = Some j /\
       engine_events db' = <[se_seq event := mkEventTab (event_type (se_event event)) j false]>
         (engine_events db)).
Proof.
  unfold persist_event. case_match; [done|].
  destruct (event_to_value (se_event event)) as [j|] eqn:Ej; [|done].
  destruct (run_stmt _ db) as [[[]|e] db1] eqn:Er; [|done]. intros [= <- <-].
  apply run_tx_Ok in Er. unfold insert_event in Er. tx_inv.
  destruct (engine_events db !! se_seq event) eqn:El; tx_inv.
  - rewrite El. split; [done|]. by split; [eauto|].
  - split; [|by simpl; rewrite lookup_insert_eq; eauto].
    split; [done|]. simpl. by apply insert_subseteq.
Qed.

(** A stored number is left alone. *)
Lemma persist_event_stored event db :
  0 < se_seq event <= I64_MAX -> is_Some (event_to_value (se_event event)) ->
  is_Some (engine_events db !! se_seq event) -> persist_event event db = (Ok (), db).
Proof.
  intros Hs [j Hj] [row Hrow]. unfold persist_event.
  replace (I64_MAX <? se_seq event) with false by lia. rewrite Hj.
  unfold run_stmt, run_tx, insert_event, bind, require, get, ret.
  replace (0 <? se_seq event) with true by lia. by rewrite Hrow.
Qed.

Lemma persist_event_storable event db :
  storable event -> exists db', persist_event event db = (Ok (), db').
Proof.
  intros [Hs [j Hj]]. unfold persist_event.
  replace (I64_MAX <? se_seq event) with false by lia. rewrite Hj.
  unfold run_stmt, run_tx, insert_event, bind, require, get, ret, put.
  replace (0 <? se_seq event) with true by lia.
  destruct (engine_events db !! se_seq event); eauto.
Qed.

Lemma run_once_storable rs db :
  Forall storable_response rs ->
  exists db', run_once rs db = (Err BridgeClosed, db') /\ queue_grows db db' /\
    (forall event, RespEvent event ∈ rs -> is_Some (engine_events db' !! se_seq event)).
Proof.
  intros H. revert db. induction H as [|r rs Hr _ IH]; intros db; simpl.
  { exists db. split_and!; [done|done|]. intros ? []%not_elem_of_nil. }
  destruct r as [| |event|];
    try by (destruct (IH db) as (db' & -> & Hg & Hin); exists db'; split_and!; [done|done|];
            intros e [?|?]%elem_of_cons; [done|auto]).
  destruct (persist_event_storable event db Hr) as (db1 & Hp). rewrite Hp.
  destruct (persist_event_Ok _ _ _ _ Hp) as (Hg1 & Hs & _).
  destruct (IH db1) as (db' & -> & Hg & Hin). exists db'. split_and!; [done|by etrans|].
  intros e [[= ->]|?]%elem_of_cons; [|auto].
  destruct Hs as [row Hrow], Hg as [_ Hsub]. exists row. by eapply lookup_weaken.
Qed.

(** Once every number is stored, the stream changes nothing. *)
Lemma run_once_stored rs db :
  Forall storable_response rs ->
  (forall event, RespEvent event ∈ rs -> is_Some (engine_events db !! se_seq event)) ->
  run_once rs db = (Err BridgeClosed, db).
Proof.
  intros H. induction H as [|r rs Hr _ IH]; intros Hin; [done|]. simpl.
  assert (run_once rs db = (Err BridgeClosed, db)) as E
    by (apply IH; intros; apply Hin; by right).
  destruct r as [| |event|]; [done|done| |done].
  destruct Hr as [Hs Hj]. rewrite persist_event_stored; [done..|].
  apply Hin. by left.
Qed.

(** The queue never forgets what it holds for a number. *)
Lemma run_once_grows rs db : queue_grows db (run_once rs db).2.
Proof.
  revert db. induction rs as [|r rs IH]; intros db; simpl; [done|].
  destruct r as [| |event|]; try done.
  destruct (persist_event event db) as [[u|e] db1] eqn:E; simpl.
  - etrans; [|apply IH]. by destruct (persist_event_Ok _ _ _ _ E).
  - unfold persist_event in E. repeat case_match; simplify_eq; try done.
    match goal with H : run_stmt _ _ = _ |- _ => by apply run_tx_Err in H as -> end.
Qed.
(** A new number is stored as the first event sent with it. *)
Lemma run_once_row rs db event :
  Forall storable_response rs -> RespEvent event ∈ rs ->
  engine_events db !! se_seq event = None ->
  (forall other, RespEvent other ∈ rs -> se_seq other = se_seq event -> other = event) ->
  exists j, event_to_value (se_event event) = Some j /\
    engine_events (run_once rs db).2 !! se_seq event =
      Some (mkEventTab (event_type (se_event event)) j false).
Proof.
  intros H. revert db. induction H as [|r rs Hr _ IH]; intros db Hin Hnone Huniq;
    [by apply not_elem_of_nil in Hin|].
  destruct r as [| |e|]; simpl;
    try (apply IH; [by apply elem_of_cons in Hin as [?|?]|done|];
         intros; apply Huniq; [by right|done]).
  destruct (persist_event_storable e db Hr) as (db1 & Hp). rewrite Hp.
  destruct (persist_event_Ok _ _ _ _ Hp) as (_ & _ & Hnew).
  destruct (decide (se_seq e = se_seq event)) as [Es|Hne].
  - assert (e = event) as -> by (apply Huniq; [by left|done]).
    destruct (Hnew Hnone) as (j & Hj & Hdb1). exists j. split; [done|].
    eapply lookup_weaken; [|exact (proj2 (run_once_grows rs db1))]. by rewrite Hdb1, lookup_insert_eq.
  - apply IH; [by apply elem_of_cons in Hin as [[= ->]|?]| |intros; apply Huniq; [by right|done]].
    destruct (engine_events db !! se_seq e) as [row|] eqn:El.
    + destruct Hr as [? ?]. rewrite persist_event_stored in Hp by eauto. by simplify_eq.
    + destruct (Hnew eq_refl) as (j & Hj & ->). by rewrite lookup_insert_ne.
Qed.
End Bridge.
