(* ===== verification/SettleOrders.v ===== *)
(** * SettleOrders: order rows and trades

    [rows_ok]: trades are unique by engine sequence and by id, refer to orders that
    exist, and the filled quantity of every order row is the sum of its trades.
    Settlement keeps this as long as the quantities of the fills are on the column grid
    and the sums fit a [Decimal] mantissa ([fill_fits]).  Then the six bookings of a fill
    and what they move between its two accounts. *)
From S2P Require Import Prelude Decimal Proto Numeric Database Settlement Ledger.
From S2P Require Import SettleEvent.

(** The quantity traded by an order. *)
Definition filled_by (i : Uuid) (ts : list TradeTab) : Z :=
  foldr (fun t acc =>
    (if bool_decide (tt_taker_order_id t = i \/ tt_maker_order_id t = i)
     then tt_quantity t else 0) + acc) 0 ts.

Lemma filled_by_app i ts ts' : filled_by i (ts ++ ts') = filled_by i ts + filled_by i ts'.
Proof. induction ts as [|t ts IH]; simpl; lia. Qed.

Section SettleOrders.
Context {D J : Type}.
Implicit Types (db : Db J) (fill : TradeFill D).

Record rows_ok db : Prop := {
  rows_seq : NoDup (tt_engine_seq <$> trades db);
  rows_id : NoDup (tt_id <$> trades db);
  rows_refs : Forall (fun t => is_Some (orders db !! tt_taker_order_id t) /\
                               is_Some (orders db !! tt_maker_order_id t)) (trades db);
  rows_filled i o : orders db !! i = Some o -> ot_filled_quantity o = filled_by i (trades db);
  rows_nonneg i o : orders db !! i = Some o -> 0 <= ot_filled_quantity o;
}.

Lemma rows_fresh db i : rows_ok db -> orders db !! i = None -> filled_by i (trades db) = 0.
Proof.
  intros [_ _ Hr _ _] Hi. induction Hr as [|t ts [[? Ht] [? Hm]] _ IH]; [done|].
  simpl. rewrite bool_decide_false by naive_solver. lia.
Qed.

(** An order row that changes nothing but its status. *)
Lemma rows_ok_status db i o s :
  rows_ok db -> orders db !! i = Some o ->
  rows_ok (with_orders (insert i (set_status s o)) db).
Proof.
  intros [Hs Hid Hr Hf Hn] Hi. split; simpl; [done|done|..].
  - eapply Forall_impl; [exact Hr|]. intros t [? ?].
    rewrite !lookup_insert_is_Some'. auto.
  - intros j o' [[<- <-]|[? Hj]]%lookup_insert_Some; [by apply (Hf i o)|eauto].
  - intros j o' [[<- <-]|[? Hj]]%lookup_insert_Some; [by apply (Hn i o)|eauto].
Qed.

Lemma rows_ok_new db i o :
  rows_ok db -> orders db !! i = None -> ot_filled_quantity o = 0 ->
  rows_ok (with_orders (insert i o) db).
Proof.
  intros Hok Hi Ho. pose proof (rows_fresh db i Hok Hi) as H0.
  destruct Hok as [Hs Hid Hr Hf Hn]. split; simpl; [done|done|..].
  - eapply Forall_impl; [exact Hr|]. intros t [? ?]. rewrite !lookup_insert_is_Some'. auto.
  - intros j o' [[<- <-]|[? Hj]]%lookup_insert_Some; [lia|eauto].
  - intros j o' [[<- <-]|[? Hj]]%lookup_insert_Some; [lia|eauto].
Qed.

(** A new trade, with both its order rows moved by its quantity. *)
Lemma rows_ok_trade db db' t f ot om :
  rows_ok db ->
  ~ Exists (fun t' => tt_engine_seq t' = tt_engine_seq t) (trades db) ->
  Forall (fun t' => tt_id t' <> tt_id t) (trades db) ->
  tt_taker_order_id t <> tt_maker_order_id t -> 0 <= tt_quantity t ->
  orders db !! tt_taker_order_id t = Some ot -> orders db !! tt_maker_order_id t = Some om ->
  ot_filled_quantity (f ot) = ot_filled_quantity ot + tt_quantity t ->
  forall g, ot_filled_quantity (g om) = ot_filled_quantity om + tt_quantity t ->
  trades db' = trades db ++ [t] ->
  orders db' = <[tt_maker_order_id t := g om]> (<[tt_taker_order_id t := f ot]> (orders db)) ->
  rows_ok db'.
Proof.
  intros [Hs Hid Hr Hf Hn] Hseq Hnew Hne Hq Ht Hm Hft g Hfm Htr Ho.
  split; rewrite ?Htr, ?Ho, ?fmap_app; simpl.
  - apply NoDup_app. split_and!; [done| |apply NoDup_singleton].
    intros x (t' & -> & Ht')%list_elem_of_fmap Hx%list_elem_of_singleton.
    apply Hseq, Exists_exists. eauto.
  - apply NoDup_app. split_and!; [done| |apply NoDup_singleton].
    intros x (t' & -> & Ht')%list_elem_of_fmap Hx%list_elem_of_singleton.
    by apply (proj1 (Forall_forall _ _) Hnew t').
  - apply Forall_app. split; [|repeat constructor; rewrite !lookup_insert_is_Some'; auto].
    eapply Forall_impl; [exact Hr|]. intros t' [? ?]. rewrite !lookup_insert_is_Some'. auto.
  - intros j o'. rewrite filled_by_app. simpl.
    intros [[<- <-]|[Hj1 [[<- <-]|[Hj2 Hj]]%lookup_insert_Some]]%lookup_insert_Some.
    + rewrite bool_decide_true by auto. rewrite Hfm, (Hf _ _ Hm). lia.
    + rewrite bool_decide_true by auto. rewrite Hft, (Hf _ _ Ht). lia.
    + rewrite bool_decide_false by naive_solver. rewrite (Hf _ _ Hj). lia.
  - intros j o' [[<- <-]|[Hj1 [[<- <-]|[Hj2 Hj]]%lookup_insert_Some]]%lookup_insert_Some.
    + specialize (Hn _ _ Hm). lia.
    + specialize (Hn _ _ Ht). lia.
    + eauto.
Qed.

(** [rows_ok] reads two tables only. *)
Lemma rows_ok_eq db db' :
  orders db' = orders db -> trades db' = trades db -> rows_ok db -> rows_ok db'.
Proof. intros Ho Ht []. split; rewrite ?Ho, ?Ht; done. Qed.

Context {dops : DecimalOps D} {dlaws : DecimalLaws D} {pg : PgDecimal D}
  {plaws : PgDecimalLaws D} {ej : EventJson D J}.

(** The filled quantity of the order, if there is one, still fits with [n] more. *)
Definition has_room db (i : Uuid) (n : Z) : Prop :=
  match orders db !! i with Some o => ot_filled_quantity o + n < 2 ^ 96 | None => True end.

(** The fill is between two orders, its quantity is on the grid and the filled
    quantities fit. *)
Definition fill_fits fill db : Prop :=
  tf_taker_order_id fill <> tf_maker_order_id fill /\
  to_pg (tf_quantity fill) mod GRID = 0 /\
  has_room db (tf_taker_order_id fill) (round18 (to_pg (tf_quantity fill))) /\
  has_room db (tf_maker_order_id fill) (round18 (to_pg (tf_quantity fill))).

Definition event_fits (event : WireEvent D) db : Prop :=
  match event with WeFill fill => fill_fits fill db | _ => True end.

#[export] Instance event_fits_dec event db : Decision (event_fits event db).
Proof.
  destruct event as [| |fill| | |]; simpl; try apply _. unfold fill_fits, has_room.
  destruct (orders db !! tf_taker_order_id fill), (orders db !! tf_maker_order_id fill); apply _.
Defined.

Lemma valid_tick_GRID : valid_tick GRID.
Proof. exists 18%nat. split; [lia|done]. Qed.

(** Adding a grid quantity to a filled quantity is exact. *)
Lemma filled_add filled (f q : D) :
  of_pg filled = Some f -> 0 <= filled -> to_pg q mod GRID = 0 -> 0 <= round18 (to_pg q) ->
  filled + round18 (to_pg q) < 2 ^ 96 ->
  round18 (to_pg (dadd f q)) = filled + round18 (to_pg q).
Proof.
  intros Hf H0 Hg Hq Hlt.
  destruct (of_pg_exact filled) as (f' & Hf' & Hu); [lia|]. simplify_eq.
  apply Z.div_exact in Hg; [|done]. rewrite Z.mul_comm in Hg.
  rewrite Hg in Hq, Hlt |- *. rewrite round18_grid in Hq, Hlt |- *.
  rewrite to_pg_units in *.
  destruct (tick_representable GRID (filled + units q / GRID) valid_tick_GRID) as [r Hr];
    [lia|].
  assert (dadd f q = r) as -> by (apply dadd_exact; rewrite Hr, Hu; lia).
  by rewrite to_pg_units, Hr, round18_grid.
Qed.

(** The status [update_order_fill] writes. *)
Definition fill_status (total : option D) (new_filled : D) : string :=
  match total with
  | Some t => if dleb t new_filled then "filled" else "partial"
  | None => "partial"
  end.

(** The row [update_order_fill] writes. *)
Definition filled_row (row : OrderRow D) (q : D) (avg : Z) (o : OrderTab) : OrderTab :=
  set_fill (round18 (to_pg (dadd (filled_quantity row) q))) (Some avg)
    (fill_status (quantity row) (dadd (filled_quantity row) q)) o.

Lemma update_order_fill_Ok (row : OrderRow D) p q db u db' o :
  update_order_fill row p q db = Ok (u, db') -> orders db !! id row = Some o ->
  exists avg, db' = with_orders (insert (id row) (filled_row row q avg o)) db.
Proof.
  unfold update_order_fill. intros H Ho. tx_inv.
  match goal with H : update_order_row _ _ _ = _ |- _ =>
    apply update_order_row_Ok in H as [[? _]|(? & ? & _ & ->)] end; simplify_eq. eauto.
Qed.

Lemma insert_trade_Ok seq fill mid db u db' :
  insert_trade seq fill mid db = Ok (u, db') -> ~ traded seq db ->
  exists t, db' = with_trades (fun ts => ts ++ [t]) db /\
    tt_engine_seq t = seq /\ tt_id t = tf_trade_id fill /\
    tt_taker_order_id t = tf_taker_order_id fill /\
    tt_maker_order_id t = tf_maker_order_id fill /\
    tt_price t = round18 (to_pg (tf_price fill)) /\
    tt_quantity t = round18 (to_pg (tf_quantity fill)) /\ 0 < tt_quantity t /\
    Forall (fun t' => tt_id t' <> tf_trade_id fill) (trades db).
Proof.
  unfold insert_trade. intros H Hnt. tx_inv. rewrite bool_decide_false in * by done. tx_inv.
  eexists. split; [done|]. simpl. split_and!; try done.
  - unfold trade_checks in *. simpl in *. lia.
  - by match goal with H : bool_decide _ = true |- _ => apply bool_decide_eq_true in H end.
Qed.

(** The whole effect of a fill on the order and trade tables. *)
Lemma settle_fill_rows seq fill db u db' :
  settle_fill seq fill db = Ok (u, db') -> ~ traded seq db ->
  tf_taker_order_id fill <> tf_maker_order_id fill ->
  exists t taker maker ot om avg_t avg_m,
    fetch_order (tf_taker_order_id fill) db = Ok (taker, db) /\
    fetch_order (tf_maker_order_id fill) db = Ok (maker, db) /\
    orders db !! tf_taker_order_id fill = Some ot /\
    orders db !! tf_maker_order_id fill = Some om /\
    trades db' = trades db ++ [t] /\
    tt_engine_seq t = seq /\ tt_id t = tf_trade_id fill /\
    tt_taker_order_id t = tf_taker_order_id fill /\
    tt_maker_order_id t = tf_maker_order_id fill /\
    tt_quantity t = round18 (to_pg (tf_quantity fill)) /\ 0 < tt_quantity t /\
    Forall (fun t' => tt_id t' <> tf_trade_id fill) (trades db) /\
    orders db' = <[tf_maker_order_id fill := filled_row maker (tf_quantity fill) avg_m om]>
      (<[tf_taker_order_id fill := filled_row taker (tf_quantity fill) avg_t ot]> (orders db)).
Proof.
  unfold settle_fill. intros H Hnt Hne. tx_inv. rewrite bool_decide_false in * by done. tx_inv.
  repeat match goal with H : fetch_order _ ?d = Ok (?a, ?d') |- _ =>
    lazymatch d' with d => fail | _ =>
      let o := fresh "o" in let Ho := fresh "Ho" in let Hid := fresh "Hid" in
      pose proof (fetch_order_Ok _ _ _ _ H) as (-> & o & ? & Ho & _ & Hid & _) end end.
  match goal with H : insert_trade _ _ _ _ = Ok _ |- _ =>
    apply insert_trade_Ok in H as (t & -> & T1 & T2 & T3 & T4 & _ & T5 & T6 & T7); [|done] end.
  match goal with H : apply_fill_ledger _ _ _ _ _ = Ok _ |- _ =>
    apply apply_all_Ok, bookings_frame in H as (_ & _ & _ & Eo & Et & _) end.
  simpl in Eo, Et.
  destruct (update_order_fill_Ok _ _ _ _ _ _ o0 H3) as (avg_t & ->); [by rewrite Eo, Hid0|].
  destruct (update_order_fill_Ok _ _ _ _ _ _ o H5) as (avg_m & ->).
  { simpl. rewrite Eo, Hid, Hid0. by rewrite lookup_insert_ne. }
  exists t. do 6 eexists. split_and!; try done. simpl. by rewrite Eo, Hid, Hid0.
Qed.

(** Settling any event keeps the rows consistent. *)
Lemma settle_event_rows seq event db u db' :
  settle_event seq event db = Ok (u, db') ->
  event_fits event db -> rows_ok db -> rows_ok db'.
Proof.
  intros H Hfit Hok. destruct event as [o|? ?|fill|i r| |]; unfold settle_event in H;
    [| |destruct (decide (traded seq db)) as [Ht|Ht]|..].
  - unfold settle_order_accepted in H. tx_inv.
    match goal with H : fetch_market _ _ = Ok _ |- _ => apply fetch_market_Ok in H as [-> _] end.
    match goal with H : insert_order _ _ _ = Ok _ |- _ => unfold insert_order in H end. tx_inv.
    match goal with H : insert_order_row _ _ _ _ = Ok _ |- _ =>
      apply insert_order_row_Ok in H as [(-> & _ & _ & ->)|(-> & Ho & _ & ->)] end;
      simpl in *; tx_inv; [done|].
    match goal with H : context [with_orders (insert _ ?r) db] |- _ =>
      pose proof (rows_ok_new _ _ r Hok Ho eq_refl) as Hok' end.
    destruct (lock_obligation o _). case_match; tx_inv; [|by apply Hok'].
    match goal with H : apply_ledger _ _ = Ok _ |- _ =>
      apply apply_ledger_Ok in H as (? & ? & ? & _ & _ & _ & _ & _ & ->) end.
    by refine (rows_ok_eq _ _ _ _ Hok').
  - tx_inv. done.
  - unfold settle_fill in H. tx_inv. rewrite bool_decide_true in * by done. by tx_inv.
  - destruct Hfit as (Hne & Hg & Hlt & Hlm). unfold has_room in Hlt, Hlm.
    destruct (settle_fill_rows _ _ _ _ _ H Ht Hne) as
      (t & taker & maker & ot & om & at_ & am & F1 & F2 & O1 & O2 & Etr & T1 & T2 & T3 & T4 &
       T5 & T6 & T7 & Eo).
    apply fetch_order_Ok in F1 as (_ & ? & ? & O1' & _ & _ & _ & _ & _ & _ & P1 & _).
    apply fetch_order_Ok in F2 as (_ & ? & ? & O2' & _ & _ & _ & _ & _ & _ & P2 & _).
    rewrite O1 in Hlt. rewrite O2 in Hlm. simplify_eq. pose proof (rows_nonneg _ Hok).
    rewrite <- T3, <- T4 in *.
    eapply (rows_ok_trade db db' t); try done.
    + by rewrite T2.
    + lia.
    + simpl. rewrite T5. eapply filled_add; eauto. lia.
    + simpl. rewrite T5. eapply filled_add; eauto. lia.
  - unfold settle_cancel in H. tx_inv.
    match goal with H : fetch_order _ _ = Ok _ |- _ =>
      apply fetch_order_Ok in H as (-> & o & _ & Ho & _) end.
    case_bool_decide; tx_inv; [done|].
    match goal with H : update_order_row _ _ ?d = Ok _ |- _ =>
      assert (rows_ok d /\ orders d !! i = Some o) as [Hok' Ho'];
      [|apply update_order_row_Ok in H as [[? _]|(? & ? & _ & ->)]; simplify_eq;
        by apply rows_ok_status] end.
    case_match; tx_inv; [|done].
    match goal with H : apply_ledger _ _ = Ok _ |- _ =>
      apply apply_ledger_Ok in H as (? & ? & ? & _ & _ & _ & _ & _ & ->) end.
    split; [by refine (rows_ok_eq _ _ _ _ Hok)|done].
  - tx_inv. done.
  - tx_inv. done.
Qed.
End SettleOrders.

(** * The accounts a fill moves

    The six bookings of a fill summed up per account and per asset. *)

(** The markets trade two different assets ([chk_markets_distinct_assets]). *)
Definition markets_ok {J} (db : Db J) : Prop :=
  map_Forall (fun _ m => mt_base_asset_id m <> mt_quote_asset_id m) (markets db).

#[export] Instance markets_ok_dec {J} (db : Db J) : Decision (markets_ok db).
Proof. unfold markets_ok. apply _. Defined.

(** [n] where the condition holds. *)
Definition at_account (k k' : Uuid * Uuid) (n : Z) : Z := if bool_decide (k = k') then n else 0.
Definition at_asset (a a' : Uuid) (n : Z) : Z := if bool_decide (a = a') then n else 0.

Section SettleFill.
Context {D J : Type} {dops : DecimalOps D} {dlaws : DecimalLaws D} {pg : PgDecimal D}
  {plaws : PgDecimalLaws D} {ej : EventJson D J}.
Implicit Types (db : Db J) (fill : TradeFill D) (taker maker : OrderRow D).

(** The four amounts of a fill, as the columns hold them. *)
Definition fill_quantity fill : Z := round18 (to_pg (tf_quantity fill)).
Definition fill_notional fill : Z := round18 (to_pg (dmul (tf_price fill) (tf_quantity fill))).
Definition base_fee fill taker : Z :=
  round18 (to_pg (fee_amount (tf_quantity fill) (taker_fee_bps taker))).
Definition quote_fee fill maker : Z :=
  round18 (to_pg (fee_amount (dmul (tf_price fill) (tf_quantity fill)) (maker_fee_bps maker))).

Definition buyer fill taker maker : OrderRow D :=
  match tf_taker_side fill with WBuy => taker | WSell => maker end.
Definition seller fill taker maker : OrderRow D :=
  match tf_taker_side fill with WBuy => maker | WSell => taker end.

Section OneMarket.
Context (seq : Z) (fill : TradeFill D) (taker maker : OrderRow D) (base quote : Uuid).
Context (Hbt : base_asset_id taker = base) (Hbm : base_asset_id maker = base).
Context (Hqt : quote_asset_id taker = quote) (Hqm : quote_asset_id maker = quote).

Abbreviation ms := (fill_mutations seq fill taker maker).
Abbreviation buyer := (buyer fill taker maker).
Abbreviation seller := (seller fill taker maker).

Lemma fill_mutations_eq :
  ms = let entry user asset kind amount available_delta locked_delta :=
      mkMutation user asset kind amount available_delta locked_delta "trade"
        (Some (tf_trade_id fill)) (Some seq) in
    let q := tf_quantity fill in let n := dmul (tf_price fill) q in
    let tfee := fee_amount q (taker_fee_bps taker) in
    let mfee := fee_amount n (maker_fee_bps maker) in
    [ entry (user_id buyer) base "trade" q q dzero;
      entry (user_id buyer) base "fee" (dneg tfee) (dneg tfee) dzero;
      entry (user_id buyer) quote "trade" (dneg n) dzero (dneg n);
      entry (user_id seller) quote "trade" n n dzero;
      entry (user_id seller) quote "fee" (dneg mfee) (dneg mfee) dzero;
      entry (user_id seller) base "trade" (dneg q) dzero (dneg q) ].
Proof.
  unfold fill_mutations, SettleFill.buyer, SettleFill.seller.
  destruct (tf_taker_side fill); simpl; by rewrite ?Hbt, ?Hbm, ?Hqt, ?Hqm.
Qed.

Ltac sum_up :=
  rewrite fill_mutations_eq; simpl;
  rewrite ?to_pg_zero, ?to_pg_neg, ?round18_opp, ?round18_zero;
  unfold at_account, at_asset, fill_quantity, fill_notional, base_fee, quote_fee, account;
  simpl; repeat case_bool_decide; lia.

Lemma fill_available k :
  net lm_available_delta k ms =
    at_account (user_id buyer, base) k (fill_quantity fill - base_fee fill taker) +
    at_account (user_id seller, quote) k (fill_notional fill - quote_fee fill maker).
Proof. unfold net. sum_up. Qed.

Lemma fill_locked k :
  net lm_locked_delta k ms =
    - at_account (user_id buyer, quote) k (fill_notional fill) -
    at_account (user_id seller, base) k (fill_quantity fill).
Proof. unfold net. sum_up. Qed.

Lemma fill_assets a :
  asset_net a ms =
    - at_asset base a (base_fee fill taker) - at_asset quote a (quote_fee fill maker).
Proof. unfold asset_net. sum_up. Qed.
End OneMarket.

(** Orders of one market have its assets. *)
Lemma fetch_order_assets i j db (ri rj : OrderRow D) d d' :
  fetch_order i db = Ok (ri, d) -> fetch_order j db = Ok (rj, d') ->
  market_id ri = market_id rj -> markets_ok db ->
  base_asset_id ri = base_asset_id rj /\ quote_asset_id ri = quote_asset_id rj /\
  base_asset_id ri <> quote_asset_id ri.
Proof.
  intros Hi Hj Hm Hok.
  apply fetch_order_Ok in Hi as (_ & oi & mi & _ & Hmi & _ & _ & Ei & _ & _ & _ & _ & _ & -> & ->).
  apply fetch_order_Ok in Hj as (_ & oj & mj & _ & Hmj & _ & _ & Ej & _ & _ & _ & _ & _ & -> & ->).
  assert (mi = mj) as -> by congruence. split_and!; [done..|]. exact (Hok _ _ Hmj).
Qed.

(** ** Settlement creates nothing *)

(** A fill that is booked is one between orders of the same market. *)
Definition within_market (event : WireEvent D) db : Prop :=
  match event with
  | WeFill fill =>
      match fetch_order (tf_taker_order_id fill) db, fetch_order (tf_maker_order_id fill) db with
      | Ok (taker, _), Ok (maker, _) => market_id taker = market_id maker
      | _, _ => True
      end
  | _ => True
  end.

#[export] Instance within_market_dec event db : Decision (within_market event db).
Proof. unfold within_market. repeat case_match; apply _. Defined.

Lemma fill_internal seq fill taker maker base quote a :
  base_asset_id taker = base -> base_asset_id maker = base ->
  quote_asset_id taker = quote -> quote_asset_id maker = quote ->
  internal_net a (fill_mutations seq fill taker maker) = 0.
Proof.
  intros. rewrite (fill_mutations_eq seq fill taker maker base quote) by done.
  unfold internal_net. simpl. rewrite ?to_pg_neg, ?round18_opp. repeat case_bool_decide; lia.
Qed.

Lemma event_internal seq event db a :
  markets_ok db -> within_market event db -> internal_net a (event_mutations seq event db) = 0.
Proof.
  intros Hok Hw. destruct event as [o|? ?|fill|i r| |]; simpl; try done.
  - repeat case_match; simplify_eq; try done. unfold lock_mutations.
    repeat case_match; simpl; rewrite ?to_pg_zero, ?round18_zero; by repeat case_match.
  - destruct (decide (traded seq db)); [done|]. simpl in Hw.
    destruct (fetch_order _ db) as [[taker d]|] eqn:Et; [|done].
    destruct (fetch_order (tf_maker_order_id fill) db) as [[maker d']|] eqn:Em; [|done].
    destruct (fetch_order_assets _ _ _ _ _ _ _ Et Em Hw Hok) as (Hb & Hq & _).
    by eapply fill_internal.
  - repeat case_match; try done. unfold unlock_mutations.
    repeat case_match; simpl; rewrite ?to_pg_zero, ?round18_zero; by repeat case_match.
Qed.

Lemma settle_event_accounted seq event db u db' :
  settle_event seq event db = Ok (u, db') -> Forall exact (event_mutations seq event db) ->
  markets_ok db -> within_market event db -> accounted db db'.
Proof.
  intros (db1 & db2 & [E1 E2] & Hb & [E3 E4])%settle_event_books He Hm Hw.
  etrans; [by apply accounted_money|]. etrans; [|by apply accounted_money].
  eapply bookings_accounted; [exact Hb|by apply event_mutations_clean|].
  intros a. by apply event_internal.
Qed.
End SettleFill.
