(* ===== verification/SettleProps.v ===== *)
(** * SettleProps: the properties of settlement *)
From S2P Require Import Prelude Decimal Proto Numeric Database Settlement Ledger.
From S2P Require Import SettleEvent SettleRun SettleOrders.

(** ** A small exchange database

    The executable instances and the data of the witnesses: two users, one market with
    fees of ten basis points, and the engine events of two orders that trade. *)

(** Events stored as themselves. *)
#[export] Instance event_json : EventJson Z (WireEvent Z) := {|
  event_to_value := Some;
  event_from_value := Some;
  sequenced_from_value _ := None;
|}.

#[export] Instance event_json_laws : EventJsonLaws Z (WireEvent Z).
Proof. constructor. by intros e j [= ->]. Qed.

(** The value of a computation that succeeds. *)
Definition ok_or {E A} (d : A) (r : result E A) : A := match r with Ok a => a | Err _ => d end.

Definition dec (n : Z) : Z := n * ONE.
Definition col (n : Z) : Z := n * 10 ^ 18.

Definition alice : Uuid := 1%N.
Definition bob : Uuid := 2%N.
Definition btc : Uuid := 10%N.
Definition usdt : Uuid := 11%N.
Definition btcusdt : Uuid := 20%N.

Definition sample_markets : gmap Uuid MarketTab :=
  {[ btcusdt := mkMarketTab "BTCUSDT" btc usdt "trading" (col 10) (col 10) ]}.

Definition sample_users : gmap Uuid UserTab :=
  {[ alice := mkUserTab "active" false false; bob := mkUserTab "active" false false ]}.

Definition sample_assets : gmap Uuid AssetTab :=
  {[ btc := mkAssetTab "BTC" "active" (col 1); usdt := mkAssetTab "USDT" "active" (col 10000) ]}.

Definition deposit (u a : Uuid) (n : Z) : LedgerTab :=
  mkLedgerTab u a "deposit" n n 0 "deposit" None None.

(** Alice has 1000 USDT, Bob has 5 BTC. *)
Definition sample_db (events : list (Z * WireEvent Z)) : Db (WireEvent Z) := {|
  users := sample_users;
  assets := sample_assets;
  markets := sample_markets;
  balances := {[ (alice, usdt) := mkBalance (col 1000) 0; (alice, btc) := mkBalance 0 0;
                 (bob, btc) := mkBalance (col 5) 0; (bob, usdt) := mkBalance 0 0 ]};
  orders := ∅;
  trades := [];
  ledger_entries := [deposit alice usdt (col 1000); deposit bob btc (col 5)];
  deposits := ∅;
  engine_events :=
    list_to_map ((fun '(s, e) => (s, mkEventTab (event_type e) e false)) <$> events);
  worker_state := ∅;
  audit_log := [];
|}.

Definition limit_order (i user : Uuid) (side : OrderSide) (p q : Z) : EngineOrder Z := {|
  eo_id := i; eo_user_id := user; eo_symbol := "BTCUSDT"; eo_side := side;
  eo_order_type := WLimit; eo_price := Some (dec p); eo_quantity := dec q;
  eo_stp_mode := WDecrement; eo_stop_price := None; eo_oco_linked_id := None;
  eo_display_qty := None;
|}.

Definition sample_fill : TradeFill Z := {|
  tf_trade_id := 200%N; tf_symbol := "BTCUSDT"; tf_taker_order_id := 102%N;
  tf_maker_order_id := 101%N; tf_price := dec 100; tf_quantity := dec 1;
  tf_taker_side := WBuy; tf_ts := "t";
|}.

(** Bob offers 2 at 100, Alice takes 1 of them, Bob cancels the rest. *)
Definition sample_events : list (Z * WireEvent Z) :=
  [ (1, WeOrderAccepted (limit_order 101%N bob WSell 100 2));
    (2, WeOrderRested 101%N (dec 2));
    (3, WeOrderAccepted (limit_order 102%N alice WBuy 100 1));
    (4, WeFill sample_fill);
    (5, WeOrderCanceled 101%N WAdminCancel) ].

Definition queue_db : Db (WireEvent Z) := sample_db sample_events.

Example queue_is_settled :
  let r := process_available 6 queue_db in
  (fst <$> r) = Some (Ok 5) /\
  (r ≫= fun r => balances r.2 !! (alice, btc)) = Some (mkBalance (999 * 10 ^ 15) 0) /\
  (r ≫= fun r => balances r.2 !! (alice, usdt)) = Some (mkBalance (col 900) 0) /\
  (r ≫= fun r => balances r.2 !! (bob, btc)) = Some (mkBalance (col 4) 0) /\
  (r ≫= fun r => balances r.2 !! (bob, usdt)) = Some (mkBalance (999 * 10 ^ 17) 0) /\
  (r ≫= fun r => ot_status <$> orders r.2 !! 101%N) = Some "canceled" /\
  (r ≫= fun r => ot_status <$> orders r.2 !! 102%N) = Some "filled".
Proof. vm_compute. done. Qed.

(** ** The theorems *)

(** What settlement needs of an event: no amount it books lies half way between two
    column values, and a fill is between two orders with room for its quantity. *)
Definition settles_cleanly {D J : Type} {dops : DecimalOps D} {pg : PgDecimal D}
    (s : Z) (event : WireEvent D) (db : Db J) : Prop :=
  Forall exact (event_mutations s event db) /\ event_fits event db.

#[export] Instance settles_cleanly_dec {D J : Type} {dops : DecimalOps D} {pg : PgDecimal D}
  s event (db : Db J) : Decision (settles_cleanly s event db).
Proof. unfold settles_cleanly. apply _. Defined.



(** C15. The worker is an ordered fold and returns: with one round of fuel more than there
    are unprocessed events, [process_available] settles them one by one in ascending
    order of their engine sequence, each completely or not at all, stops at the first that
    fails, and reports how many there were if none did; what it leaves unprocessed is
    exactly the failed event and those behind it. *)
Theorem settlement_runs_in_order {D J} {dops : DecimalOps D} {pg : PgDecimal D}
    {ej : EventJson D J} (db : Db J) :
  let queue := unprocessed ∅ db in
  let '(r, db') := settle_all queue db in
  StronglySorted Z.le queue /\ NoDup queue /\
  process_available (S (length queue)) db =
    Some (res_map (fun _ => Z.min U64_MAX (Z.of_nat (length queue))) r, db') /\
  (exists settled, queue = settled ++ unprocessed ∅ db') /\
  (r = Ok () <-> unprocessed ∅ db' = []).
Proof.
  cbv zeta. destruct (settle_all _ db) as [r db'] eqn:E.
  destruct (process_loop_settle_all (unprocessed ∅ db) 0 db) as [E1 E2]; [done..|].
  destruct (left_over_suffix (unprocessed ∅ db) db) as (settled & Hq & Hiff).
  rewrite E in *. simpl in *. rewrite E2.
  split_and!; [apply unprocessed_sorted|apply NoDup_unprocessed|done|by exists settled|done].
Qed.

(** C17. A fill that settles, of a sequence number without a trade yet, between two
    orders of one market with two different assets, and of which no booked amount lies
    half way between two values of the NUMERIC column, moves assets between the two
    users and the exchange only: the buyer gains the quantity less the fee and pays the
    notional out of the locked balance, the seller gains the notional less the fee and
    gives the quantity out of the locked balance, and no other account changes; over all
    users the base asset shrinks by exactly the base fee, the quote asset by exactly the
    quote fee, and no other asset changes. *)
Theorem fill_conserves_assets {D J} {dops : DecimalOps D} {dlaws : DecimalLaws D}
    {pg : PgDecimal D} {plaws : PgDecimalLaws D} {ej : EventJson D J}
    (seq : Z) (fill : TradeFill D) (db db' : Db J) (taker maker : OrderRow D)
    (Hnew : ~ traded seq db) (Hmarkets : markets_ok db)
    (Htaker : fetch_order (tf_taker_order_id fill) db = Ok (taker, db))
    (Hmaker : fetch_order (tf_maker_order_id fill) db = Ok (maker, db))
    (Hsame : market_id taker = market_id maker)
    (Hexact : Forall exact (fill_mutations seq fill taker maker))
    (Hsettle : settle_fill seq fill db = Ok ((), db')) :
  let base := base_asset_id taker in let quote := quote_asset_id taker in
  base <> quote /\
  (forall k b', balances db' !! k = Some b' -> exists b, balances db !! k = Some b /\
     available b' = available b +
       at_account (user_id (buyer fill taker maker), base) k
         (fill_quantity fill - base_fee fill taker) +
       at_account (user_id (seller fill taker maker), quote) k
         (fill_notional fill - quote_fee fill maker) /\
     locked b' = locked b
       - at_account (user_id (buyer fill taker maker), quote) k (fill_notional fill)
       - at_account (user_id (seller fill taker maker), base) k (fill_quantity fill)) /\
  (forall a, asset_total a (balances db') = asset_total a (balances db)
     - at_asset base a (base_fee fill taker) - at_asset quote a (quote_fee fill maker)).
Proof.
  destruct (fetch_order_assets _ _ _ _ _ _ _ Htaker Hmaker Hsame Hmarkets) as (Hb & Hq & Hne).
  pose proof (settle_fill_books _ _ _ _ _ Hsettle) as Hbooks.
  pose proof (event_mutations_clean seq (WeFill fill) db) as Hc. simpl in Hbooks, Hc.
  rewrite decide_False, Htaker, Hmaker in Hbooks, Hc by done. specialize (Hc Hexact).
  split_and!; [done| |].
  - intros k b' Hk. destruct (books_balance _ _ _ _ _ Hbooks Hc Hk) as (b & Hbk & Ha & Hl).
    rewrite (fill_available seq fill taker maker (base_asset_id taker) (quote_asset_id taker)) in Ha by done. rewrite (fill_locked seq fill taker maker (base_asset_id taker) (quote_asset_id taker)) in Hl by done.
    exists b. split_and!; [done|lia..].
  - intros a. rewrite (books_total _ _ _ a Hbooks Hc). rewrite (fill_assets seq fill taker maker (base_asset_id taker) (quote_asset_id taker)) by done. lia.
Qed.

(** Bob's order accepted and rested, Alice's accepted, the fill next. *)
Definition fill_db : Db (WireEvent Z) := (settle_all [1; 2; 3] queue_db).2.
Definition row_of (i : Uuid) : OrderRow Z :=
  (ok_or (mkOrderRow 0%N 0%N 0%N "" None None 0 None "" 0%N 0%N 0 0, fill_db)
     (fetch_order i fill_db)).1.
Definition after_fill : Db (WireEvent Z) :=
  (ok_or ((), fill_db) (settle_fill 4 sample_fill fill_db)).2.

Lemma fill_conserves_assets_witness :
  let taker := row_of 102%N in let maker := row_of 101%N in
  let base := base_asset_id taker in let quote := quote_asset_id taker in
  base <> quote /\
  (forall k b', balances after_fill !! k = Some b' -> exists b, balances fill_db !! k = Some b /\
     available b' = available b +
       at_account (user_id (buyer sample_fill taker maker), base) k
         (fill_quantity sample_fill - base_fee sample_fill taker) +
       at_account (user_id (seller sample_fill taker maker), quote) k
         (fill_notional sample_fill - quote_fee sample_fill maker) /\
     locked b' = locked b
       - at_account (user_id (buyer sample_fill taker maker), quote) k (fill_notional sample_fill)
       - at_account (user_id (seller sample_fill taker maker), base) k
           (fill_quantity sample_fill)) /\
  (forall a, asset_total a (balances after_fill) = asset_total a (balances fill_db)
     - at_asset base a (base_fee sample_fill taker)
     - at_asset quote a (quote_fee sample_fill maker)).
Proof.
  apply (fill_conserves_assets 4 sample_fill fill_db after_fill (row_of 102%N) (row_of 101%N)).
  - apply (bool_decide_unpack _). vm_compute. exact I.
  - apply (bool_decide_unpack _). vm_compute. exact I.
  - vm_compute. reflexivity.
  - vm_compute. reflexivity.
  - vm_compute. reflexivity.
  - apply (bool_decide_unpack _). vm_compute. exact I.
  - vm_compute. reflexivity.
Defined.

(** C18. At-least-once delivery is settled at most once: whatever numbered events a
    connection delivers, the bridge stores them and touches nothing else; a new number is
    stored unprocessed and decodes to the event that was sent; and delivering the same
    stream again changes nothing, neither at once nor after the worker has settled what
    was stored. *)
Theorem bridge_delivers_once {D J} {dops : DecimalOps D} {pg : PgDecimal D}
    {ej : EventJson D J} {ejlaws : EventJsonLaws D J}
    (rs : list (EngineResponse D)) (db : Db J) (Hrs : Forall storable_response rs) :
  exists db', run_once rs db = (Err BridgeClosed, db') /\ queue_grows db db' /\
    (forall event, RespEvent event ∈ rs -> engine_events db !! se_seq event = None ->
       (forall other, RespEvent other ∈ rs -> se_seq other = se_seq event -> other = event) ->
       exists row, engine_events db' !! se_seq event = Some row /\ et_processed row = false /\
         decode (mkStored (se_seq event) (et_event_type row) (et_payload row)) =
           Ok (se_event event)) /\
    run_once rs db' = (Err BridgeClosed, db') /\
    let settled := (settle_all (unprocessed ∅ db') db').2 in
    run_once rs settled = (Err BridgeClosed, settled).
Proof.
  destruct (run_once_storable rs db Hrs) as (db' & E & Hg & Hin). exists db'.
  split_and!; [done|done| |by apply run_once_stored|].
  - intros event He Hnone Hu.
    destruct (run_once_row rs db event Hrs He Hnone Hu) as (j & Hj & Hrow).
    rewrite E in Hrow. eexists. split_and!; [exact Hrow|done|].
    unfold decode. simpl. by rewrite (event_json_roundtrip _ _ Hj).
  - apply run_once_stored; [done|]. intros event He.
    by apply settle_all_keeps_events, Hin.
Qed.

Lemma bridge_delivers_once_witness :
  let rs := RespPong 7%N :: ((fun '(s, e) => RespEvent (mkSequenced s e)) <$> sample_events) in
  let db := sample_db [] in
  exists db', run_once rs db = (Err BridgeClosed, db') /\ queue_grows db db' /\
    (forall event, RespEvent event ∈ rs -> engine_events db !! se_seq event = None ->
       (forall other, RespEvent other ∈ rs -> se_seq other = se_seq event -> other = event) ->
       exists row, engine_events db' !! se_seq event = Some row /\ et_processed row = false /\
         decode (mkStored (se_seq event) (et_event_type row) (et_payload row)) =
           Ok (se_event event)) /\
    run_once rs db' = (Err BridgeClosed, db') /\
    let settled := (settle_all (unprocessed ∅ db') db').2 in
    run_once rs settled = (Err BridgeClosed, settled).
Proof.
  apply (bridge_delivers_once (ejlaws := event_json_laws)
    (RespPong 7%N :: ((fun '(s, e) => RespEvent (mkSequenced s e)) <$> sample_events))
    (sample_db [])).
  repeat (apply Forall_cons; split); try apply Forall_nil; simpl; try exact I;
    (split; [unfold I64_MAX; simpl; lia|eexists; reflexivity]).
Defined.
