(* ===== verification/SettleMain.v ===== *)
(** * SettleMain: the settlement process, [services/settlement/src/main.rs]

    Two tasks share the database: the bridge reads one engine connection after the other
    and stores the events it delivers, and the worker settles what is stored, then waits
    for a notification, for the poll interval or for the signal to stop.  [proc_step] is
    what one task does between two awaits, a schedule is a list of such steps.  The
    notifications of the insert trigger are counted; traces and metrics are left out but
    for the counter and the lag. *)
From stdpp Require Import relations.
From S2P Require Import Prelude Decimal Proto Numeric Database Settlement Ledger.
From S2P Require Import SettleEvent SettleRun SettleProps.

Inductive RunError := RunProcessing (e : SettlementError) | RunDatabase | RunNotification.

(** [run]: in [process_available] with a count so far, in [select!], or returned. *)
Inductive WorkerPhase :=
| WkProcessing (processed : Z) | WkWaiting | WkStopped (r : result RunError ()).

(** [bridge_task]: reading what a connection still delivers, pausing, or aborted. *)
Inductive BridgePhase (D : Type) :=
| BrReading (rest : list (EngineResponse D)) | BrSleeping | BrAborted.
Arguments BrReading {D} _.
Arguments BrSleeping {D}.
Arguments BrAborted {D}.

Record Process (D J : Type) := mkProcess {
  pc_db : Db J;
  pc_worker : WorkerPhase;
  pc_bridge : BridgePhase D;
  pc_notified : nat;
  pc_counter : Z;
  pc_lag : option Z;
}.
Arguments mkProcess {D J}.
Arguments pc_db {D J} _.
Arguments pc_worker {D J} _.
Arguments pc_bridge {D J} _.
Arguments pc_notified {D J} _.
Arguments pc_counter {D J} _.
Arguments pc_lag {D J} _.

Inductive ProcStep (D : Type) :=
| PsSettle
| PsDatabaseFails
| PsNotification
| PsPollInterval
| PsListenerFails
| PsCtrlC
| PsBridge
| PsBridgeFails
| PsReconnect (responses : list (EngineResponse D)).
Arguments PsSettle {D}.
Arguments PsDatabaseFails {D}.
Arguments PsNotification {D}.
Arguments PsPollInterval {D}.
Arguments PsListenerFails {D}.
Arguments PsCtrlC {D}.
Arguments PsBridge {D}.
Arguments PsBridgeFails {D}.
Arguments PsReconnect {D} _.

Section Main.
Context {D J : Type} {dops : DecimalOps D} {pg : PgDecimal D} {ej : EventJson D J}.
Abbreviation Process := (Process D J).
Implicit Types (p : Process) (db : Db J).

(** [MAX(seq)] of the stored events less [last_processed_seq], both 0 when missing. *)
Definition settlement_lag db : Z :=
  default 0 (last (merge_sort Z.le (elements (dom (engine_events db))))) -
  default 0 (worker_state db !! SETTLEMENT_WORKER).

Definition process_new db (responses : list (EngineResponse D)) : Process :=
  mkProcess db (WkProcessing 0) (BrReading responses) 0 0 None.

(** [run] has returned: [main] aborts the bridge. *)
Definition stop (r : result RunError ()) p : Process :=
  mkProcess (pc_db p) (WkStopped r) BrAborted (pc_notified p) (pc_counter p) (pc_lag p).

Definition with_worker (w : WorkerPhase) p : Process :=
  mkProcess (pc_db p) w (pc_bridge p) (pc_notified p) (pc_counter p) (pc_lag p).

Definition with_bridge (b : BridgePhase D) p : Process :=
  mkProcess (pc_db p) (pc_worker p) b (pc_notified p) (pc_counter p) (pc_lag p).

Definition with_db db p : Process :=
  mkProcess db (pc_worker p) (pc_bridge p) (pc_notified p) (pc_counter p) (pc_lag p).

(** The end of a batch: [if processed > 0]. *)
Definition batch_done (processed : Z) p : Process :=
  if 0 <? processed then
    mkProcess (pc_db p) WkWaiting (pc_bridge p) (pc_notified p) (pc_counter p + processed)
      (Some (settlement_lag (pc_db p)))
  else with_worker WkWaiting p.

(** One round of [process_available]. *)
Definition worker_settles (processed : Z) p : Process :=
  match process_next ∅ (pc_db p) with
  | (Ok true, db) => with_worker (WkProcessing (u64_saturating_add processed 1)) (with_db db p)
  | (Ok false, db) => batch_done processed (with_db db p)
  | (Err e, db) => stop (Err (RunProcessing e)) (with_db db p)
  end.

(** The trigger notifies of a row that was inserted. *)
Definition bridge_stores (event : SequencedEngineEvent D) (rest : list (EngineResponse D)) p : Process :=
  match persist_event event (pc_db p) with
  | (Ok _, db) =>
      let inserted := bool_decide (engine_events (pc_db p) !! se_seq event = None) in
      mkProcess db (pc_worker p) (BrReading rest)
        (if inserted then S (pc_notified p) else pc_notified p) (pc_counter p) (pc_lag p)
  | (Err _, db) => with_bridge BrSleeping (with_db db p)
  end.

(** [None] where the step cannot happen. *)
Definition proc_step (step : ProcStep D) p : option Process :=
  match step, pc_worker p, pc_bridge p with
  | PsSettle, WkProcessing processed, _ => Some (worker_settles processed p)
  | PsDatabaseFails, WkProcessing _, _ => Some (stop (Err RunDatabase) p)
  | PsNotification, WkWaiting, _ =>
      match pc_notified p with
      | O => None
      | S n => Some (mkProcess (pc_db p) (WkProcessing 0) (pc_bridge p) n (pc_counter p) (pc_lag p))
      end
  | PsPollInterval, WkWaiting, _ => Some (with_worker (WkProcessing 0) p)
  | PsListenerFails, WkWaiting, _ => Some (stop (Err RunNotification) p)
  | PsCtrlC, WkWaiting, _ => Some (stop (Ok ()) p)
  | PsBridge, _, BrReading [] => Some (with_bridge BrSleeping p)
  | PsBridge, _, BrReading (RespEvent event :: rest) => Some (bridge_stores event rest p)
  | PsBridge, _, BrReading (_ :: rest) => Some (with_bridge (BrReading rest) p)
  | PsBridgeFails, _, BrReading _ => Some (with_bridge BrSleeping p)
  | PsReconnect responses, _, BrSleeping => Some (with_bridge (BrReading responses) p)
  | _, _, _ => None
  end.

Fixpoint proc_run (ss : list (ProcStep D)) p : option Process :=
  match ss with
  | [] => Some p
  | step :: ss => p' ← proc_step step p; proc_run ss p'
  end.

(** ** What is settled *)

(** The event a step settles. *)
Definition settles (step : ProcStep D) p : list Z :=
  match step, process_next ∅ (pc_db p) with
  | PsSettle, (Ok true, _) =>
      match head (unprocessed ∅ (pc_db p)) with Some seq => [seq] | None => [] end
  | _, _ => []
  end.

Fixpoint settled (ss : list (ProcStep D)) p : list Z :=
  match ss with
  | [] => []
  | step :: ss =>
      (settles step p ++ match proc_step step p with Some p' => settled ss p' | None => [] end)%list
  end.

Definition stored (seq : Z) db : Prop := is_Some (engine_events db !! seq).
Definition done_ (seq : Z) db : Prop :=
  exists row, engine_events db !! seq = Some row /\ et_processed row = true.
End Main.

Section Effects.
Context {D J : Type} {dops : DecimalOps D} {pg : PgDecimal D} {ej : EventJson D J}.
Implicit Types (p : Process D J) (db : Db J) (step : ProcStep D).

(** A round settles the head of the queue, or the queue is empty, or nothing happens. *)
Lemma process_next_effect db r db' :
  process_next ∅ db = (r, db') ->
  match r with
  | Ok true => exists seq, head (unprocessed ∅ db) = Some seq /\
      unprocessed ∅ db' = tail (unprocessed ∅ db) /\ ~ done_ seq db /\
      (forall s, stored s db' <-> stored s db) /\
      (forall s, done_ s db' <-> done_ s db \/ s = seq)
  | Ok false => unprocessed ∅ db = [] /\ db' = db
  | Err _ => db' = db
  end.
Proof.
  destruct (unprocessed ∅ db) as [|seq rest] eqn:Hu.
  { rewrite (process_next_idle db Hu). by intros [= <- <-]. }
  rewrite (process_next_step seq rest db Hu).
  destruct (settle_one seq db) as [db1|e] eqn:Es; intros [= <- <-]; [|done].
  pose proof (settle_one_unprocessed seq rest db db1 Hu Es) as Hr.
  assert (seq ∈ unprocessed ∅ db) as [(row & Hrow & Hp) _]%elem_of_unprocessed
    by (rewrite Hu; left).
  exists seq. split; [done|]. split; [done|].
  split; [intros (row' & ? & ?); congruence|].
  unfold settle_one in Es. rewrite Hrow in Es. destruct (decode _) as [event|]; [|done].
  destruct (settle_event seq event db) as [[u db2]|] eqn:E1; [|done].
  destruct (mark_processed seq db2) as [[v db3]|] eqn:E2; [|done]. injection Es as <-.
  destruct (settle_event_static _ _ _ _ _ E1) as (_ & _ & _ & He & _).
  destruct (mark_processed_run seq db2) as (? & Hm & He' & _). rewrite E2 in Hm.
  injection Hm as _ <-. rewrite He in He'. split.
  - intros s. unfold stored. by rewrite He', lookup_alter_is_Some.
  - intros s. unfold done_. rewrite He'. destruct (decide (s = seq)) as [->|Hne].
    + rewrite lookup_alter_eq, Hrow. naive_solver.
    + rewrite lookup_alter_ne by done. naive_solver.
Qed.

Lemma persist_event_effect (event : SequencedEngineEvent D) db r db' :
  persist_event event db = (r, db') ->
  (forall s, stored s db -> stored s db') /\ (forall s, done_ s db' <-> done_ s db).
Proof.
  intros H. destruct r as [u|e].
  - destruct (persist_event_Ok _ _ _ _ H) as ([_ Hsub] & _ & Hnew). split.
    + intros s [row Hrow]. exists row. by eapply lookup_weaken.
    + intros s. destruct (engine_events db !! se_seq event) as [row|] eqn:E.
      * unfold persist_event in H. destruct (I64_MAX <? _); [done|].
        destruct (event_to_value _); [|done]. unfold run_stmt, run_tx, insert_event, bind, require, get, ret in H.
        destruct (0 <? _); [|done]. rewrite E in H. by injection H as _ <-.
      * destruct (Hnew eq_refl) as (j & _ & He). unfold done_. rewrite He.
        destruct (decide (s = se_seq event)) as [->|Hne].
        -- rewrite lookup_insert_eq, E. naive_solver.
        -- by rewrite lookup_insert_ne.
  - assert (db' = db) as ->; [|done]. unfold persist_event in H. repeat case_match; simplify_eq; try done.
    match goal with H : run_stmt _ _ = _ |- _ => by apply run_tx_Err in H as -> end.
Qed.

Lemma step_effect step p p' :
  proc_step step p = Some p' ->
  (forall s, stored s (pc_db p) -> stored s (pc_db p')) /\
  (forall s, done_ s (pc_db p') <-> done_ s (pc_db p) \/ s ∈ settles step p) /\
  (forall s, s ∈ settles step p -> ~ done_ s (pc_db p)) /\ NoDup (settles step p).
Proof.
  assert (forall db, (forall s, stored s (pc_db p) -> stored s db) ->
    (forall s, done_ s db <-> done_ s (pc_db p)) -> settles step p = [] ->
    (forall s, stored s (pc_db p) -> stored s db) /\
    (forall s, done_ s db <-> done_ s (pc_db p) \/ s ∈ settles step p) /\
    (forall s, s ∈ settles step p -> ~ done_ s (pc_db p)) /\ NoDup (settles step p)) as Hquiet.
  { intros db Hs Hd ->. split_and!; [done| | |constructor].
    - intros s. rewrite Hd. set_solver.
    - by intros s ?%elem_of_nil. }
  intros H. destruct step as [| | | | | | | |rs]; cbn in H;
    try (destruct (pc_worker p) as [processed| |r] eqn:Hw; try done).
  { unfold worker_settles in H. unfold settles in *.
    destruct (process_next ∅ (pc_db p)) as [[[]|e] db] eqn:E; injection H as <-;
      apply process_next_effect in E.
    + destruct E as (seq & -> & _ & Hn & Hst & Hd). cbn. split_and!.
      * intros s. by rewrite Hst.
      * intros s. rewrite Hd. set_solver.
      * by intros s ->%list_elem_of_singleton.
      * by apply NoDup_singleton.
    + destruct E as [_ ->]. assert (pc_db (batch_done processed (with_db (pc_db p) p)) = pc_db p) as ->
        by (unfold batch_done; by destruct (0 <? processed)). by apply Hquiet.
    + subst db. by apply Hquiet. }
  all: repeat case_match; simplify_eq; try by apply Hquiet.
  all: unfold bridge_stores; destruct (persist_event _ (pc_db p)) as [x db] eqn:E;
    destruct (persist_event_effect _ _ _ _ E) as [Hst Hd]; by destruct x; apply Hquiet.
Qed.

Lemma run_effect ss p p' :
  proc_run ss p = Some p' ->
  (forall s, stored s (pc_db p) -> stored s (pc_db p')) /\
  (forall s, done_ s (pc_db p') <-> done_ s (pc_db p) \/ s ∈ settled ss p) /\
  (forall s, s ∈ settled ss p -> ~ done_ s (pc_db p)) /\ NoDup (settled ss p).
Proof.
  revert p. induction ss as [|step ss IH]; intros p H; cbn in H |- *.
  { injection H as ->. split_and!; [done| | |constructor]; set_solver. }
  destruct (proc_step step p) as [p1|] eqn:E; [|done].
  destruct (IH _ H) as (Hst & Hd & Hn & Hnd). destruct (step_effect _ _ _ E) as (Hst1 & Hd1 & Hn1 & Hnd1).
  split_and!.
  - auto.
  - intros s. rewrite Hd, Hd1, elem_of_app. tauto.
  - intros s [Hs|Hs]%elem_of_app; [by apply Hn1|]. intros Hdone. apply (Hn s Hs), Hd1. by left.
  - apply NoDup_app. split_and!; [done| |done]. intros s Hs Hs'. apply (Hn s Hs'), Hd1. by right.
Qed.

Lemma stopped_stays ss p p' r :
  proc_run ss p = Some p' -> pc_worker p = WkStopped r -> pc_worker p' = WkStopped r.
Proof.
  revert p. induction ss as [|step ss IH]; intros p H Hw; cbn in H; [by injection H as ->|].
  destruct (proc_step step p) as [p1|] eqn:E; [|done]. apply (IH _ H).
  destruct step; cbn in E; try rewrite Hw in E; repeat case_match; simplify_eq; try done.
  unfold bridge_stores. by repeat case_match.
Qed.

(** The worker goes on with its batch, or finds the queue empty, or stops. *)
Lemma worker_step step p p' n :
  proc_step step p = Some p' -> pc_worker p = WkProcessing n ->
  (exists m, pc_worker p' = WkProcessing m) \/ (exists r, pc_worker p' = WkStopped r) \/
  (pc_worker p' = WkWaiting /\ unprocessed ∅ (pc_db p) = [] /\ pc_db p' = pc_db p).
Proof.
  intros E Hw. destruct step; cbn in E; try rewrite Hw in E; repeat case_match; simplify_eq; eauto.
  - unfold worker_settles. destruct (process_next ∅ (pc_db p)) as [[[]|e] db] eqn:Ep; cbn; eauto.
    apply process_next_effect in Ep as [Hu ->]. right. right.
    unfold batch_done. by destruct (0 <? n).
  - unfold bridge_stores. repeat case_match; cbn; eauto.
Qed.

Lemma drained_done db seq : unprocessed ∅ db = [] -> stored seq db -> done_ seq db.
Proof.
  intros Hu [row Hrow]. exists row. split; [done|].
  destruct (et_processed row) eqn:Hp; [done|]. assert (seq ∈ unprocessed ∅ db) as Hin
    by (apply elem_of_unprocessed; split; [by exists row|set_solver]).
  rewrite Hu in Hin. by apply elem_of_nil in Hin.
Qed.

Lemma batch_drains ss p p' n :
  proc_run ss p = Some p' -> pc_worker p = WkProcessing n -> pc_worker p' = WkWaiting ->
  forall seq, stored seq (pc_db p) -> done_ seq (pc_db p').
Proof.
  revert p n. induction ss as [|step ss IH]; intros p n H Hw Hw' seq Hs; cbn in H.
  { injection H as ->. congruence. }
  destruct (proc_step step p) as [p1|] eqn:E; [|done].
  destruct (worker_step _ _ _ _ E Hw) as [[m Hm]|[[r Hr]|(Hm & Hu & Hdb)]].
  - eapply IH; [done|done|done|]. by eapply step_effect.
  - rewrite (stopped_stays _ _ _ _ H Hr) in Hw'. done.
  - apply (run_effect _ _ _ H). left. rewrite Hdb. by apply drained_done.
Qed.

Lemma batch_ends k p n :
  (length (unprocessed ∅ (pc_db p)) < k)%nat -> pc_worker p = WkProcessing n ->
  exists j p', (j <= k)%nat /\ proc_run (replicate j PsSettle) p = Some p' /\
    (pc_worker p' = WkWaiting \/ exists e, pc_worker p' = WkStopped (Err (RunProcessing e))).
Proof.
  revert p n. induction k as [|k IH]; intros p n Hk Hw; [lia|].
  assert (proc_step PsSettle p = Some (worker_settles n p)) as Hstep by (cbn; by rewrite Hw).
  destruct (process_next ∅ (pc_db p)) as [[[]|e] db] eqn:Ep.
  - assert (worker_settles n p = with_worker (WkProcessing (u64_saturating_add n 1)) (with_db db p)) as Hws
      by (unfold worker_settles; by rewrite Ep).
    apply process_next_effect in Ep as (seq & Hh & Ht & _).
    destruct (IH (worker_settles n p) (u64_saturating_add n 1)) as (j & p' & Hj & Hr & Hp').
    { rewrite Hws. cbn. rewrite Ht. destruct (unprocessed ∅ (pc_db p)); [done|]. cbn in *. lia. }
    { by rewrite Hws. }
    exists (S j), p'. split; [lia|]. split; [|done]. cbn [replicate proc_run]. by rewrite Hstep.
  - exists 1%nat, (worker_settles n p). split; [lia|]. cbn [replicate proc_run]. rewrite Hstep.
    split; [done|]. left. unfold worker_settles, batch_done. rewrite Ep. by destruct (0 <? n).
  - exists 1%nat, (worker_settles n p). split; [lia|]. cbn [replicate proc_run]. rewrite Hstep.
    split; [done|]. right. exists e. unfold worker_settles. by rewrite Ep.
Qed.
End Effects.

(** C16. The settlement process catches up with what is stored.  However the worker, the bridge with its
    reconnections, the notifications and the poll interval take turns: (1) no event is
    settled twice, and exactly the settled ones are marked as processed, for good; (2) when
    the worker waits again, everything that was stored when its batch began is processed;
    (3) a waiting worker can always begin a batch, and from any point of a batch, if from
    then on only the worker runs, the batch ends, waiting or stopped by an event that cannot
    be settled, after at most one round more than events wait.  (A bridge that keeps storing
    events in between can keep a batch going.) *)
Theorem settlement_process_catches_up {D J} {dops : DecimalOps D} {pg : PgDecimal D}
    {ej : EventJson D J} (ss : list (ProcStep D)) (p p' : Process D J) :
  proc_run ss p = Some p' ->
  (NoDup (settled ss p) /\ (forall seq, seq ∈ settled ss p -> ~ done_ seq (pc_db p)) /\
   forall seq, done_ seq (pc_db p') <-> done_ seq (pc_db p) \/ seq ∈ settled ss p) /\
  (forall n, pc_worker p = WkProcessing n -> pc_worker p' = WkWaiting ->
     forall seq, stored seq (pc_db p) -> done_ seq (pc_db p')) /\
  (pc_worker p' = WkWaiting -> exists p1, proc_step PsPollInterval p' = Some p1 /\
     pc_worker p1 = WkProcessing 0 /\ pc_db p1 = pc_db p') /\
  (forall n, pc_worker p' = WkProcessing n ->
     exists j p1, (j <= S (length (unprocessed ∅ (pc_db p'))))%nat /\
       proc_run (replicate j PsSettle) p' = Some p1 /\
       (pc_worker p1 = WkWaiting \/ exists e, pc_worker p1 = WkStopped (Err (RunProcessing e)))).
Proof.
  intros H. destruct (run_effect _ _ _ H) as (_ & Hd & Hn & Hnd). split_and!; [done|done|done| | |].
  - intros n Hw Hw'. by eapply batch_drains.
  - intros Hw. eexists. split; [cbn; by rewrite Hw|done].
  - intros n Hw. eapply batch_ends; [lia|done].
Qed.

(** ** Samples *)

(** The bridge delivers two of the events while the worker settles the others. *)
Definition sample_process : Process Z (WireEvent Z) :=
  process_new (sample_db (take 3 sample_events))
    (RespEvent <$> [mkSequenced 4 (WeFill sample_fill);
                    mkSequenced 5 (WeOrderCanceled 101%N WAdminCancel)]).

Definition sample_schedule : list (ProcStep Z) :=
  [PsSettle; PsBridge; PsSettle; PsSettle; PsSettle; PsSettle; PsBridge; PsNotification;
   PsSettle; PsSettle; PsBridge; PsReconnect []].

Definition caught_up : Process Z (WireEvent Z) :=
  default sample_process (proc_run sample_schedule sample_process).

Example sample_counts :
  settled sample_schedule sample_process = [1; 2; 3; 4; 5] /\ pc_counter caught_up = 5 /\
  pc_lag caught_up = Some 0 /\ pc_worker caught_up = WkWaiting.
Proof. vm_compute. done. Qed.

Lemma settlement_process_catches_up_witness :
  done_ 1 (pc_db caught_up) /\ done_ 2 (pc_db caught_up) /\ done_ 3 (pc_db caught_up).
Proof.
  assert (proc_run sample_schedule sample_process = Some caught_up) as H.
  { unfold caught_up. assert (is_Some (proc_run sample_schedule sample_process)) as [p ->]; [|done].
    apply (bool_decide_unpack _). vm_compute. exact I. }
  destruct (settlement_process_catches_up _ _ _ H) as (_ & Hbatch & _).
  assert (pc_worker caught_up = WkWaiting) as Hw by (vm_compute; reflexivity).
  split_and!; apply (Hbatch 0 eq_refl Hw); apply (bool_decide_unpack _); vm_compute; exact I.
Defined.

(** ** Findings *)

(** A fill whose order settlement has never seen, the event of its placement having been
    lost, ends the process; so it does after every restart, and nothing behind it is ever
    settled. *)
Definition poisoned : Db (WireEvent Z) :=
  sample_db [(4, WeFill sample_fill); (5, WeOrderAccepted (limit_order 103%N alice WBuy 100 1))].

Example poison_event_stops_settlement :
  let first := default sample_process (proc_run [PsSettle] (process_new poisoned [])) in
  let second := default sample_process (proc_run [PsSettle] (process_new (pc_db first) [])) in
  pc_worker first = WkStopped (Err (RunProcessing (Database RowNotFound))) /\
  pc_worker second = WkStopped (Err (RunProcessing (Database RowNotFound))) /\
  unprocessed ∅ (pc_db second) = [4; 5].
Proof. vm_compute. done. Qed.

(** The lag is a distance of sequence numbers: with two events left it can be 8. *)
Example lag_is_no_count :
  let p := default sample_process (proc_run [PsSettle] (process_new
    (sample_db [(1, WeOrderRested 101%N (dec 2)); (2, WeOrderRested 101%N (dec 2));
                (9, WeOrderRested 101%N (dec 2))]) [])) in
  settlement_lag (pc_db p) = 8 /\ length (unprocessed ∅ (pc_db p)) = 2%nat.
Proof. vm_compute. done. Qed.
