(* ===== verification/EngineClient.v ===== *)
(** * EngineClient: the API's client of the matching engine

    [services/api/src/engine_client.rs].  [send], which writes a frame, waits for the
    response with the request's id and may time out, belongs to the network: it is the
    [Transport] of a world type [W].  The operations classify its answers.  The second half
    models that part itself: any number of calls that share one connection, the table of
    pending calls, and the reader ([mux_step]). *)
From S2P Require Import Prelude Decimal Proto.

Inductive EngineClientError :=
| ClientIo | ClientSerialization | ClientTimeout | ClientUnexpected
| ClientRejected (code message : string).

Class Transport (D W : Type) := {
  send : EngineRequest D -> Uuid -> W -> result EngineClientError (EngineResponse D) * W;
}.

(** Which waiting call a response goes to; events go to none. *)
Definition response_id {D} (response : EngineResponse D) : option Uuid :=
  match response with
  | RespAck request_id _ => Some request_id
  | RespReject r => Some (rj_request_id r)
  | RespPong request_id => Some request_id
  | RespEvent _ => None
  end.

Section Client.
Context {D W : Type} {transport : Transport D W}.

(** What the operations have in common: pick the expected result out of an
    acknowledgement; a reject is an error with its code. *)
Definition expect_ack {A} (pick : AckResult D -> option A)
    (r : result EngineClientError (EngineResponse D)) : result EngineClientError A :=
  match r with
  | Err e => Err e
  | Ok (RespAck _ result) =>
      match pick result with Some ack => Ok ack | None => Err ClientUnexpected end
  | Ok (RespReject (mkReject _ code message)) => Err (ClientRejected code message)
  | Ok _ => Err ClientUnexpected
  end.

Definition place (req : PlaceRequest D) (w : W) : result EngineClientError (OrderAck D) * W :=
  let '(r, w') := send (ReqPlace req) (pr_request_id req) w in
  (expect_ack (fun a => match a with AckOrder ack => Some ack | _ => None end) r, w').

Definition cancel (req : CancelRequest) (w : W) : result EngineClientError CancelAck * W :=
  let '(r, w') := send (ReqCancel req) (cr_request_id req) w in
  (expect_ack (fun a => match a with AckCancel ack => Some ack | _ => None end) r, w').

Definition client_cancel_all (req : CancelAllRequest) (w : W)
    : result EngineClientError CancelAllAck * W :=
  let '(r, w') := send (ReqCancelAll req) (ca_request_id req) w in
  (expect_ack (fun a => match a with AckCancelAll ack => Some ack | _ => None end) r, w').

Definition client_halt_market (req : MarketControlRequest) (w : W)
    : result EngineClientError MarketStatusAck * W :=
  let '(r, w') := send (ReqHaltMarket req) (mc_request_id req) w in
  (expect_ack (fun a => match a with AckMarketStatus ack => Some ack | _ => None end) r, w').

Definition client_resume_market (req : MarketControlRequest) (w : W)
    : result EngineClientError MarketStatusAck * W :=
  let '(r, w') := send (ReqResumeMarket req) (mc_request_id req) w in
  (expect_ack (fun a => match a with AckMarketStatus ack => Some ack | _ => None end) r, w').

(** A snapshot reports any other answer, a reject too, as unexpected. *)
Definition client_snapshot (req : SnapshotRequest) (w : W)
    : result EngineClientError (BookSnapshot D) * W :=
  let '(r, w') := send (ReqSnapshot req) (sr_request_id req) w in
  (match r with
   | Err e => Err e
   | Ok (RespAck _ (AckSnapshot snap)) => Ok snap
   | Ok _ => Err ClientUnexpected
   end, w').

Definition ping (request_id : Uuid) (w : W) : result EngineClientError () * W :=
  let '(r, w') := send (ReqPing (mkPing request_id)) request_id w in
  (match r with
   | Err e => Err e
   | Ok (RespPong id) => if bool_decide (id = request_id) then Ok () else Err ClientUnexpected
   | Ok _ => Err ClientUnexpected
   end, w').
End Client.

(** * The multiplexed connection of the API's engine client

    [send], [write_or_reconnect] and [reader_loop] of
    [services/api/src/engine_client.rs]: calls share one connection and find their answers
    by request id in the pending map.  A step is what one task does between two awaits;
    [solo] is the specification, a call on its own. *)

(** A call: [Writing] until the frame is out, then [Waiting] for its oneshot channel;
    [Failed] once [send] has returned an error.  The slot is the channel: empty, closed
    without a value, or holding a response. *)
Inductive Phase := Writing | Waiting | Failed (e : EngineClientError).
Inductive Slot (D : Type) := Open | Closed | Full (r : EngineResponse D).
Arguments Open {D}.
Arguments Closed {D}.
Arguments Full {D} _.

Record Call (D : Type) := mkCall { cl_id : Uuid; cl_phase : Phase; cl_slot : Slot D }.
Arguments mkCall {D}.
Arguments cl_id {D} _.
Arguments cl_phase {D} _.
Arguments cl_slot {D} _.

(** The client: the connection whose write half is in use, how many were opened, the
    pending map from request ids to calls, and the calls. *)
Record Mux (D : Type) := mkMux {
  mx_writer : option nat;
  mx_opened : nat;
  mx_pending : gmap Uuid nat;
  mx_calls : list (Call D);
}.
Arguments mkMux {D}.
Arguments mx_writer {D} _.
Arguments mx_opened {D} _.
Arguments mx_pending {D} _.
Arguments mx_calls {D} _.

(** The network's part of [write_or_reconnect]: whether writing on the old connection,
    connecting and writing on the new one succeed. *)
Record WriteFate := mkFate { wf_old : bool; wf_connect : bool; wf_new : bool }.

Inductive MuxEvent (D : Type) :=
| MxCall (request_id : Uuid) (serialized : bool)
| MxWrite (n : nat) (fate : WriteFate)
| MxTimer (n : nat)
| MxFrame (connection : nat) (response : EngineResponse D)
| MxReaderEnd (connection : nat).
Arguments MxCall {D} _ _.
Arguments MxWrite {D} _ _.
Arguments MxTimer {D} _.
Arguments MxFrame {D} _ _.
Arguments MxReaderEnd {D} _.

Section Mux.
Context {D : Type}.
Abbreviation Call := (Call D).
Abbreviation Mux := (Mux D).
Abbreviation MuxEvent := (MuxEvent D).

Definition mux_new : Mux := mkMux None 0 ∅ [].

(** Sending into a oneshot channel and dropping its sender, at most once. *)
Definition fill (r : EngineResponse D) (c : Call) : Call :=
  match cl_slot c with Open => mkCall (cl_id c) (cl_phase c) (Full r) | _ => c end.
Definition close (c : Call) : Call :=
  match cl_slot c with Open => mkCall (cl_id c) (cl_phase c) Closed | _ => c end.
Definition fail (e : EngineClientError) (c : Call) : Call := mkCall (cl_id c) (Failed e) (cl_slot c).
Definition await (c : Call) : Call := mkCall (cl_id c) Waiting (cl_slot c).

Definition on_call (n : nat) (f : Call -> Call) (m : Mux) : Mux :=
  mkMux (mx_writer m) (mx_opened m) (mx_pending m) (alter f n (mx_calls m)).

(** [pending.remove(&id)], the sender dropped. *)
Definition pending_remove (id : Uuid) (m : Mux) : Mux :=
  match mx_pending m !! id with
  | Some k => on_call k close (mkMux (mx_writer m) (mx_opened m) (delete id (mx_pending m)) (mx_calls m))
  | None => m
  end.

(** [pending.insert(id, tx)]: a sender already there is dropped. *)
Definition pending_insert (id : Uuid) (m : Mux) : Mux :=
  let m := pending_remove id m in
  mkMux (mx_writer m) (mx_opened m) (<[id := length (mx_calls m)]> (mx_pending m))
    (mx_calls m ++ [mkCall id Writing Open]).

(** [write_or_reconnect]: whether the frame was written. *)
Definition write_or_reconnect (fate : WriteFate) (m : Mux) : bool * Mux :=
  if bool_decide (is_Some (mx_writer m)) && wf_old fate then (true, m)
  else if wf_connect fate && wf_new fate then
    (true, mkMux (Some (mx_opened m)) (S (mx_opened m)) (mx_pending m) (mx_calls m))
  else (false, mkMux None (mx_opened m) (mx_pending m) (mx_calls m)).

(** [None] where the step is not possible. *)
Definition mux_step (e : MuxEvent) (m : Mux) : option Mux :=
  match e with
  | MxCall id serialized =>
      let n := length (mx_calls m) in
      let m := pending_insert id m in
      Some (if serialized then m
            else on_call n (fail ClientSerialization) (pending_remove id m))
  | MxWrite n fate =>
      match mx_calls m !! n with
      | Some (mkCall id Writing _) =>
          let '(ok, m) := write_or_reconnect fate m in
          Some (if ok then on_call n await m
                else on_call n (fail ClientIo) (pending_remove id m))
      | _ => None
      end
  | MxTimer n =>
      match mx_calls m !! n with
      | Some (mkCall id Waiting Open) => Some (on_call n (fail ClientTimeout) (pending_remove id m))
      | _ => None
      end
  | MxFrame g response =>
      if (g <? mx_opened m)%nat then
        match response_id response with
        | Some id =>
            match mx_pending m !! id with
            | Some k => Some (on_call k (fill response)
                (mkMux (mx_writer m) (mx_opened m) (delete id (mx_pending m)) (mx_calls m)))
            | None => Some m
            end
        | None => Some m
        end
      else None
  | MxReaderEnd g =>
      if (g <? mx_opened m)%nat then
        Some (mkMux None (mx_opened m) ∅
          (imap (fun n c => if bool_decide (mx_pending m !! cl_id c = Some n) then close c else c)
             (mx_calls m)))
      else None
  end.

Fixpoint mux_run (es : list MuxEvent) (m : Mux) : option Mux :=
  match es with
  | [] => Some m
  | e :: es => mux_step e m ≫= mux_run es
  end.

(** What [send] returned, if it has. *)
Definition outcome (c : Call) : option (result EngineClientError (EngineResponse D)) :=
  match cl_phase c, cl_slot c with
  | Failed e, _ => Some (Err e)
  | Waiting, Full r => Some (Ok r)
  | Waiting, Closed => Some (Err ClientIo)
  | _, _ => None
  end.
End Mux.

(** ** The specification: a call on its own *)

(** What happens to one call. *)
Inductive CallEvent (D : Type) :=
| CeWritten (ok : bool) | CeTimeout | CeResponse (r : EngineResponse D) | CeLost.
Arguments CeWritten {D} _.
Arguments CeTimeout {D}.
Arguments CeResponse {D} _.
Arguments CeLost {D}.

Section Solo.
Context {D : Type}.
Abbreviation Call := (Call D).
Abbreviation Mux := (Mux D).
Abbreviation MuxEvent := (MuxEvent D).

Definition solo_new (id : Uuid) (serialized : bool) : Call :=
  if serialized then mkCall id Writing Open
  else mkCall id (Failed ClientSerialization) Closed.

Definition solo_step (c : Call) (e : CallEvent D) : Call :=
  match e with
  | CeWritten true => await c
  | CeWritten false => fail ClientIo (close c)
  | CeTimeout => fail ClientTimeout (close c)
  | CeResponse r => fill r c
  | CeLost => close c
  end.

(** What an event is to the call [n] with that id. *)
Definition sees (n : nat) (id : Uuid) (e : MuxEvent) (m : Mux) : list (CallEvent D) :=
  match e with
  | MxCall _ _ => []
  | MxWrite n' fate => if bool_decide (n' = n) then [CeWritten (write_or_reconnect fate m).1] else []
  | MxTimer n' => if bool_decide (n' = n) then [CeTimeout] else []
  | MxFrame _ r => if bool_decide (response_id r = Some id) then [CeResponse r] else []
  | MxReaderEnd _ => [CeLost]
  end.

(** Along a run, from the start of the call on. *)
Fixpoint sees_all (n : nat) (id : Uuid) (es : list MuxEvent) (m : Mux) : list (CallEvent D) :=
  match es with
  | [] => []
  | e :: es =>
      match mux_step e m with
      | Some m' =>
          (if (n <? length (mx_calls m))%nat then sees n id e m else []) ++ sees_all n id es m'
      | None => []
      end
  end.

(** The calls started, in order. *)
Definition started (es : list MuxEvent) : list (Uuid * bool) :=
  omap (fun e => match e with MxCall id ok => Some (id, ok) | _ => None end) es.

(** The requests under way have distinct ids, each open call is pending under its own and
    nothing else is. *)
Record mux_ok (m : Mux) : Prop := {
  mo_ids : NoDup (cl_id <$> mx_calls m);
  mo_pending id k : mx_pending m !! id = Some k -> cl_id <$> mx_calls m !! k = Some id;
  mo_open k c : mx_calls m !! k = Some c -> cl_slot c = Open -> mx_pending m !! cl_id c = Some k;
}.

Lemma same_call m k n id c :
  mux_ok m -> mx_pending m !! id = Some k -> mx_calls m !! n = Some c -> cl_id c = id -> k = n.
Proof.
  intros Hok Hk Hn Hid. apply (NoDup_lookup _ k n id (mo_ids _ Hok)).
  - rewrite list_lookup_fmap. by apply mo_pending.
  - rewrite list_lookup_fmap, Hn. cbn. by rewrite Hid.
Qed.

Lemma close_id (c : Call) : cl_id (close c) = cl_id c.
Proof. unfold close. by destruct (cl_slot c). Qed.
Lemma fill_id r (c : Call) : cl_id (fill r c) = cl_id c.
Proof. unfold fill. by destruct (cl_slot c). Qed.
Lemma close_idle (c : Call) : cl_slot c <> Open -> close c = c.
Proof. unfold close. by destruct (cl_slot c). Qed.
Lemma fill_idle r (c : Call) : cl_slot c <> Open -> fill r c = c.
Proof. unfold fill. by destruct (cl_slot c). Qed.
Lemma close_closed (c : Call) : cl_slot (close c) <> Open.
Proof. unfold close. by destruct (cl_slot c) eqn:E; cbn; rewrite ?E. Qed.
Lemma fill_closed r (c : Call) : cl_slot (fill r c) <> Open.
Proof. unfold fill. by destruct (cl_slot c) eqn:E; cbn; rewrite ?E. Qed.

Lemma alter_ids (f : Call -> Call) k (l : list Call) :
  (forall c, cl_id (f c) = cl_id c) -> cl_id <$> alter f k l = cl_id <$> l.
Proof.
  intros Hf. apply list_eq. intros i. rewrite !list_lookup_fmap.
  destruct (decide (i = k)) as [->|].
  - rewrite list_lookup_alter_eq. destruct (l !! k); cbn; [by rewrite Hf|done].
  - by rewrite list_lookup_alter_ne.
Qed.

(** Taking the entry of an id out of the pending map and finishing its call. *)
Definition finish (id : Uuid) (f : Call -> Call) (m : Mux) : Mux :=
  match mx_pending m !! id with
  | Some k => on_call k f (mkMux (mx_writer m) (mx_opened m) (delete id (mx_pending m)) (mx_calls m))
  | None => m
  end.

Lemma finish_ok id f m :
  (forall c, cl_id (f c) = cl_id c) -> (forall c, cl_slot (f c) <> Open) ->
  mux_ok m -> mux_ok (finish id f m).
Proof.
  intros Hid Hopen Hok. unfold finish. destruct (mx_pending m !! id) as [k|] eqn:Ek; [|done].
  constructor; cbn.
  - rewrite alter_ids by done. apply Hok.
  - intros id' k' Hk'. apply lookup_delete_Some in Hk' as [Hne Hk'].
    rewrite <-list_lookup_fmap, alter_ids, list_lookup_fmap by done. by apply mo_pending.
  - intros k' c Hc Hslot. destruct (decide (k' = k)) as [->|Hne].
    + rewrite list_lookup_alter_eq in Hc. destruct (mx_calls m !! k) as [c0|]; [|done].
      injection Hc as <-. by apply Hopen in Hslot.
    + rewrite list_lookup_alter_ne in Hc by done. rewrite lookup_delete_ne; [by apply (mo_open _ Hok)|].
      intros ->. apply Hne. symmetry. by eapply same_call.
Qed.

Lemma finish_call id f m n c :
  mux_ok m -> (forall c, cl_slot c <> Open -> f c = c) -> mx_calls m !! n = Some c ->
  mx_calls (finish id f m) !! n = Some (if bool_decide (cl_id c = id) then f c else c).
Proof.
  intros Hok Hidle Hn. unfold finish. case_bool_decide as Hid.
  - destruct (mx_pending m !! id) as [k|] eqn:Ek.
    + rewrite (same_call m k n id c) by done. cbn. by rewrite list_lookup_alter_eq, Hn.
    + rewrite Hidle; [done|]. intros Ho. pose proof (mo_open _ Hok n c Hn Ho). congruence.
  - destruct (mx_pending m !! id) as [k|] eqn:Ek; [|done]. cbn.
    rewrite list_lookup_alter_ne; [done|]. intros ->.
    apply (mo_pending _ Hok) in Ek. rewrite Hn in Ek. cbn in Ek. congruence.
Qed.

Lemma on_call_ok k f m :
  (forall c, cl_id (f c) = cl_id c) -> (forall c, cl_slot (f c) = cl_slot c) ->
  mux_ok m -> mux_ok (on_call k f m).
Proof.
  intros Hid Hs Hok. constructor; cbn.
  - rewrite alter_ids by done. apply Hok.
  - intros id' k' Hk'. rewrite <-list_lookup_fmap, alter_ids, list_lookup_fmap by done.
    by apply mo_pending.
  - intros k' c Hc Hslot. destruct (decide (k' = k)) as [->|Hne].
    + rewrite list_lookup_alter_eq in Hc. destruct (mx_calls m !! k) as [c0|] eqn:E; [|done].
      injection Hc as <-. rewrite Hid. apply (mo_open _ Hok); [done|]. by rewrite <-(Hs c0).
    + rewrite list_lookup_alter_ne in Hc by done. by apply (mo_open _ Hok).
Qed.

Lemma mux_ok_ext (m m' : Mux) :
  mx_pending m' = mx_pending m -> mx_calls m' = mx_calls m -> mux_ok m -> mux_ok m'.
Proof. intros Ep Ec [H1 H2 H3]. constructor; rewrite ?Ep, ?Ec; done. Qed.

Lemma write_keeps fate (m : Mux) :
  mx_pending (write_or_reconnect fate m).2 = mx_pending m /\
  mx_calls (write_or_reconnect fate m).2 = mx_calls m.
Proof. unfold write_or_reconnect. by repeat case_match. Qed.

(** Finishing the call [n], which has the id, with an error of its own. *)
Lemma finish_fail id n m e c :
  mux_ok m -> mx_calls m !! n = Some c -> cl_id c = id ->
  mux_ok (on_call n (fail e) (pending_remove id m)) /\
  forall n' c', mx_calls m !! n' = Some c' ->
    mx_calls (on_call n (fail e) (pending_remove id m)) !! n' =
      Some (if bool_decide (n = n') then fail e (close c') else c').
Proof.
  intros Hok Hn Hid. change (pending_remove id m) with (finish id close m). split.
  - apply on_call_ok; [done..|]. by apply finish_ok; [apply close_id|apply close_closed|].
  - intros n' c' Hn'. cbn. pose proof (finish_call id close m n' c' Hok close_idle Hn') as Hf.
    destruct (decide (n = n')) as [<-|E].
    + rewrite Hn in Hn'. simplify_eq. rewrite bool_decide_true in Hf by done.
      by rewrite list_lookup_alter_eq, Hf, bool_decide_true by done.
    + rewrite list_lookup_alter_ne, Hf, (bool_decide_false (n = n')) by done.
      rewrite bool_decide_false; [done|].
      intros Hid'. apply E. apply (NoDup_lookup _ n n' id (mo_ids _ Hok)); rewrite list_lookup_fmap.
      * by rewrite Hn, <-Hid.
      * by rewrite Hn', <-Hid'.
Qed.

(** A new id is added to the map and to the calls. *)
Lemma insert_ok id m :
  mux_ok m -> id ∉ cl_id <$> mx_calls m ->
  mux_ok (pending_insert id m) /\
  mx_calls (pending_insert id m) = mx_calls m ++ [mkCall id Writing Open].
Proof.
  intros Hok Hfresh. unfold pending_insert, pending_remove.
  destruct (mx_pending m !! id) as [k|] eqn:Ek.
  { apply (mo_pending _ Hok) in Ek. rewrite <-list_lookup_fmap in Ek.
    by apply list_elem_of_lookup_2 in Ek. }
  split; [|done]. constructor; cbn.
  - rewrite fmap_app. apply NoDup_app. split_and!; [apply Hok| |apply NoDup_singleton].
    intros x Hx Hin. apply list_elem_of_singleton in Hin. cbn in Hin. by subst x.
  - intros id' k [[<- <-]|[Hne Hk]]%lookup_insert_Some.
    + by rewrite lookup_app_r, Nat.sub_diag by done.
    + apply (mo_pending _ Hok) in Hk. destruct (mx_calls m !! k) as [c|] eqn:E; [|done].
      rewrite lookup_app_l by (by eapply lookup_lt_Some). by rewrite E.
  - intros k c [[_ Hk]|[-> <-]]%lookup_snoc_Some Hs; cbn in *.
    + rewrite lookup_insert_ne; [by apply (mo_open _ Hok)|]. intros ->. apply Hfresh.
      apply list_elem_of_fmap. exists c. split; [done|]. by eapply list_elem_of_lookup_2, Hk.
    + by rewrite lookup_insert_eq.
Qed.

Lemma alter_last {A} (f : A -> A) l x : alter f (length l) (l ++ [x]) = l ++ [f x].
Proof. by induction l as [|y l IH]; cbn; [|rewrite <-IH]. Qed.

Lemma call_step id ok m :
  mux_ok m -> id ∉ cl_id <$> mx_calls m ->
  exists m', mux_step (MxCall id ok) m = Some m' /\ mux_ok m' /\
    mx_calls m' = mx_calls m ++ [solo_new id ok].
Proof.
  intros Hok Hfresh. destruct (insert_ok id m Hok Hfresh) as [Hok1 E1].
  cbn -[pending_insert pending_remove]. eexists. split; [done|]. destruct ok; [by split|].
  assert (mx_calls (pending_insert id m) !! length (mx_calls m) = Some (mkCall id Writing Open)) as Hn
    by by rewrite E1, lookup_app_r, Nat.sub_diag.
  destruct (finish_fail id _ _ ClientSerialization _ Hok1 Hn eq_refl) as [Hok2 _]. split; [done|].
  unfold pending_remove. unfold pending_insert at 1. cbn [mx_pending]. rewrite lookup_insert_eq.
  cbn -[pending_insert]. rewrite E1.
  replace (length (mx_calls (pending_remove id m))) with (length (mx_calls m)).
  - by rewrite !alter_last.
  - unfold pending_remove. destruct (mx_pending m !! id); [|done]. cbn. by rewrite length_alter.
Qed.

(** The reader loop's end. *)
Definition lose (m : Mux) (n : nat) (c : Call) : Call :=
  if bool_decide (mx_pending m !! cl_id c = Some n) then close c else c.

Lemma lose_is_close m n c : mux_ok m -> mx_calls m !! n = Some c -> lose m n c = close c.
Proof.
  intros Hok Hn. unfold lose. case_bool_decide as E; [done|]. symmetry. apply close_idle.
  intros Ho. by apply E, (mo_open _ Hok).
Qed.

Lemma end_ok m w o : mux_ok m -> mux_ok (mkMux w o ∅ (imap (lose m) (mx_calls m))).
Proof.
  intros Hok. constructor; cbn.
  - assert (cl_id <$> imap (lose m) (mx_calls m) = cl_id <$> mx_calls m) as ->; [|apply Hok].
    apply list_eq. intros i. rewrite !list_lookup_fmap, list_lookup_imap.
    destruct (mx_calls m !! i) as [c|] eqn:E; cbn; [|done].
    rewrite (lose_is_close m i c) by done. by rewrite close_id.
  - intros id k. by rewrite lookup_empty.
  - intros k c Hk Hs. rewrite list_lookup_imap in Hk.
    destruct (mx_calls m !! k) as [c0|] eqn:E; [|done]. injection Hk as <-.
    rewrite (lose_is_close m k c0) in Hs by done. by apply close_closed in Hs.
Qed.

(** The other events change every call as they would change it alone. *)
Lemma other_step e m m' :
  mux_ok m -> mux_step e m = Some m' -> started [e] = [] ->
  mux_ok m' /\ length (mx_calls m') = length (mx_calls m) /\
  forall n c, mx_calls m !! n = Some c ->
    mx_calls m' !! n = Some (fold_left solo_step (sees n (cl_id c) e m) c).
Proof.
  intros Hok Hstep Hst.
  assert (forall n id e (m : Mux), length (mx_calls (on_call n (fail e) (pending_remove id m))) =
            length (mx_calls m)) as Hlen.
  { clear. intros n id err m. unfold pending_remove. cbn. rewrite length_alter.
    destruct (mx_pending m !! id); [|done]. cbn. by rewrite length_alter. }
  destruct e as [id ok|n fate|n|g r|g]; [done|..]; cbn -[pending_remove Nat.ltb] in Hstep.
  - destruct (mx_calls m !! n) as [[id [] s]|] eqn:Hn; [|done..].
    pose proof (write_keeps fate m) as [Ep Ec]. cbn [sees].
    destruct (write_or_reconnect fate m) as [ok m1]. cbn [fst snd] in *.
    pose proof (mux_ok_ext m m1 Ep Ec Hok) as Hok1. injection Hstep as <-. destruct ok.
    + split_and!; [by apply on_call_ok|cbn; by rewrite length_alter, Ec|].
      intros n' c Hn'. cbn. rewrite Ec. destruct (decide (n = n')) as [<-|Hne].
      * rewrite bool_decide_true by done. by rewrite list_lookup_alter_eq, Hn'.
      * rewrite bool_decide_false by done. by rewrite list_lookup_alter_ne.
    + rewrite <-Ec in Hn.
      destruct (finish_fail id n m1 ClientIo _ Hok1 Hn eq_refl) as [Hok' Hc].
      split_and!; [done|by rewrite Hlen, Ec|]. intros n' c Hn'. rewrite <-Ec in Hn'.
      rewrite (Hc n' c Hn').
      destruct (decide (n = n')); [by rewrite !bool_decide_true|by rewrite !bool_decide_false].
  - destruct (mx_calls m !! n) as [[id [] []]|] eqn:Hn; try done. injection Hstep as <-.
    destruct (finish_fail id n m ClientTimeout _ Hok Hn eq_refl) as [Hok' Hc].
    split_and!; [done|apply Hlen|]. intros n' c Hn'. rewrite (Hc n' c Hn'). cbn [sees].
    destruct (decide (n = n')); [by rewrite !bool_decide_true|by rewrite !bool_decide_false].
  - destruct (g <? mx_opened m)%nat; [|done]. cbn [sees].
    destruct (response_id r) as [id|] eqn:Er.
    + assert (m' = finish id (fill r) m) as ->.
      { unfold finish. by destruct (mx_pending m !! id); injection Hstep as <-. }
      split_and!; [by apply finish_ok; [apply fill_id|apply fill_closed|]| |].
      * unfold finish. destruct (mx_pending m !! id); [|done]. cbn. by rewrite length_alter.
      * intros n c Hn. rewrite (finish_call id (fill r) m n c Hok (fill_idle r) Hn).
        destruct (decide (cl_id c = id)) as [E|E];
          [rewrite !bool_decide_true by congruence|rewrite !bool_decide_false by congruence]; done.
    + injection Hstep as <-. split_and!; [done..|]. intros n c Hn.
      by rewrite bool_decide_false by done.
  - destruct (g <? mx_opened m)%nat; [|done]. injection Hstep as <-.
    split_and!; [by apply end_ok|apply length_imap|]. intros n c Hn. cbn [mx_calls sees].
    rewrite list_lookup_imap, Hn. cbn. f_equal. by apply lose_is_close.
Qed.

Lemma solo_id es : forall c : Call, cl_id (fold_left solo_step es c) = cl_id c.
Proof.
  induction es as [|e es IH]; intros c; [done|]. cbn. rewrite IH.
  destruct e as [[]| | |]; cbn; by rewrite ?close_id, ?fill_id.
Qed.

(** Any step. *)
Lemma any_step e m m' :
  mux_ok m -> NoDup ((cl_id <$> mx_calls m) ++ (started [e]).*1) -> mux_step e m = Some m' ->
  mux_ok m' /\
  exists old, mx_calls m' = old ++ ((fun io => solo_new io.1 io.2) <$> started [e]) /\
    length old = length (mx_calls m) /\
    forall n c, mx_calls m !! n = Some c ->
      old !! n = Some (fold_left solo_step (sees n (cl_id c) e m) c).
Proof.
  intros Hok Hnd Hst.
  assert (started [e] = [] \/ exists id ok, e = MxCall id ok) as [Hs|(id & ok & ->)]
    by (destruct e; eauto).
  - destruct (other_step e m m' Hok Hst Hs) as (Hok' & Hl & Hc). split; [done|].
    exists (mx_calls m'). rewrite Hs. cbn. by rewrite app_nil_r.
  - destruct (call_step id ok m Hok) as (m1 & E1 & Hok1 & Ec).
    { cbn in Hnd. apply NoDup_app in Hnd as (_ & Hd & _). intros Hin.
      apply (Hd _ Hin). by left. }
    rewrite Hst in E1. injection E1 as <-. split; [done|]. by exists (mx_calls m).
Qed.

Lemma solo_new_id id ok : cl_id (solo_new id ok : Call) = id.
Proof. by destruct ok. Qed.

Lemma step_ids e (m m' : Mux) old :
  mx_calls m' = old ++ ((fun io => solo_new io.1 io.2) <$> started [e]) ->
  length old = length (mx_calls m) ->
  (forall n c, mx_calls m !! n = Some c ->
     old !! n = Some (fold_left solo_step (sees n (cl_id c) e m) c)) ->
  cl_id <$> mx_calls m' = (cl_id <$> mx_calls m) ++ (started [e]).*1.
Proof.
  intros -> Hl Hold. rewrite fmap_app. f_equal.
  - apply list_eq. intros i. rewrite !list_lookup_fmap.
    destruct (mx_calls m !! i) as [c|] eqn:E; cbn.
    + rewrite (Hold i c E). cbn. by rewrite solo_id.
    + rewrite lookup_ge_None in E. by rewrite lookup_ge_None_2 by lia.
  - rewrite <-list_fmap_compose. apply list_fmap_ext. intros i [id ok] _. apply solo_new_id.
Qed.

(** A run, seen from the calls under way and from those it starts. *)
Lemma run_calls es : forall m m',
  mux_ok m -> NoDup ((cl_id <$> mx_calls m) ++ (started es).*1) -> mux_run es m = Some m' ->
  (forall n c, mx_calls m !! n = Some c ->
     mx_calls m' !! n = Some (fold_left solo_step (sees_all n (cl_id c) es m) c)) /\
  (forall k id ok, started es !! k = Some (id, ok) ->
     let n := (length (mx_calls m) + k)%nat in
     mx_calls m' !! n = Some (fold_left solo_step (sees_all n id es m) (solo_new id ok))).
Proof.
  induction es as [|e es IH]; intros m m' Hok Hnd Hrun; cbn [mux_run] in Hrun.
  { injection Hrun as <-. by split. }
  destruct (mux_step e m) as [m1|] eqn:Est; cbn in Hrun; [|done].
  assert (started (e :: es) = started [e] ++ started es) as Ese by (by destruct e).
  rewrite Ese, fmap_app, app_assoc in Hnd.
  destruct (any_step e m m1 Hok) as (Hok1 & old & Ec & Hl & Hold);
    [by apply NoDup_app in Hnd as (? & _)|done|].
  pose proof (step_ids e m m1 old Ec Hl Hold) as Eid. rewrite <-Eid in Hnd.
  destruct (IH m1 m' Hok1 Hnd Hrun) as [IH1 IH2]. clear IH.
  split; cbn [sees_all]; rewrite Est.
  - intros n c Hn. rewrite (proj2 (Nat.ltb_lt _ _)) by (by eapply lookup_lt_Some).
    specialize (Hold n c Hn). rewrite fold_left_app.
    rewrite (IH1 n (fold_left solo_step (sees n (cl_id c) e m) c)); [by rewrite solo_id|].
    rewrite Ec, lookup_app_l; [done|]. by eapply lookup_lt_Some.
  - intros k id ok Hk. cbv zeta. rewrite (proj2 (Nat.ltb_ge _ _)) by lia. cbn [app].
    rewrite Ese in Hk. apply lookup_app_Some in Hk as [Hk|[Hge Hk]].
    + rewrite <-(solo_new_id id ok) at 1. apply IH1.
      rewrite Ec, lookup_app_r by lia. replace (length (mx_calls m) + k - length old)%nat with k by lia.
      by rewrite list_lookup_fmap, Hk.
    + replace (length (mx_calls m) + k)%nat
        with (length (mx_calls m1) + (k - length (started [e])))%nat; [by apply IH2|].
      rewrite Ec, length_app, length_fmap. lia.
Qed.

(** A call holds no response but one with its id. *)
Lemma sees_own n id es : forall (m : Mux) r, CeResponse r ∈ sees_all n id es m ->
  response_id r = Some id.
Proof.
  induction es as [|e es IH]; intros m r; cbn [sees_all]; [by intros ?%not_elem_of_nil|].
  destruct (mux_step e m); [|by intros ?%not_elem_of_nil]. intros [Hin|Hin]%elem_of_app; [|by eapply IH].
  destruct (n <? _)%nat; [|by apply not_elem_of_nil in Hin].
  destruct e; cbn in Hin; try case_bool_decide; set_solver.
Qed.

Lemma solo_response es r : forall c : Call,
  cl_slot (fold_left solo_step es c) = Full r -> cl_slot c = Full r \/ CeResponse r ∈ es.
Proof.
  induction es as [|e es IH]; intros c; cbn; [by left|]. intros H.
  destruct (IH _ H) as [Hs|Hin]; [|right; by right].
  destruct e as [[]| | r'|]; cbn in Hs; [by left|..]; unfold close, fill in Hs;
    destruct (cl_slot c) eqn:E; cbn in Hs; rewrite ?E in Hs; try done; try (by left).
  injection Hs as ->. right. by left.
Qed.

End Solo.

(** C40. Concurrent calls do not interfere.  However calls, writes, timers, responses and
    connection losses interleave, as long as no two calls use the same request id, each
    call ends up exactly as it would alone: its state is that of [solo_step] run over what
    concerned it since it started, the fate of its own frame and timer, the responses with
    its id and the ends of the connection.  What it returns is one of those responses or
    an error. *)
Theorem concurrent_calls_do_not_interfere {D} (es : list (MuxEvent D)) m :
  NoDup (started es).*1 -> mux_run es mux_new = Some m ->
  forall n id ok, started es !! n = Some (id, ok) ->
  exists c, mx_calls m !! n = Some c /\
    c = fold_left solo_step (sees_all n id es mux_new) (solo_new id ok) /\
    (forall r, outcome c = Some (Ok r) -> response_id r = Some id /\
       CeResponse r ∈ sees_all n id es mux_new).
Proof.
  intros Hnd Hrun n id ok Hn. eexists. split; [|split; [reflexivity|]].
  - apply (run_calls es mux_new m); [|done|done|done].
    constructor; cbn; [constructor| |]; [intros i k|intros k c]; done.
  - intros r Ho. unfold outcome in Ho.
    assert (CeResponse r ∈ sees_all n id es mux_new) as Hin; [|by split; [eapply sees_own|]].
    destruct (cl_phase _); [done| |done].
    destruct (cl_slot (fold_left _ _ _)) as [| |r'] eqn:E; [done..|]. injection Ho as ->.
    apply solo_response in E as [E|E]; [by destruct ok|done].
Qed.

(** ** Samples *)

Definition works : WriteFate := mkFate true true true.

(** The answers come back in the other order. *)
Definition two_calls : list (MuxEvent Z) :=
  [MxCall 1 true; MxCall 2 true; MxWrite 0 works; MxWrite 1 works;
   MxFrame 0 (RespPong 2); MxFrame 0 (RespPong 1)].

Definition outcomes (es : list (MuxEvent Z)) :
    option (list (option (result EngineClientError (EngineResponse Z)))) :=
  (fun m => outcome <$> mx_calls m) <$> mux_run es mux_new.

Example concurrent_calls_do_not_interfere_witness :
  outcomes two_calls = Some [Some (Ok (RespPong 1)); Some (Ok (RespPong 2))] /\
  exists m c, mux_run two_calls mux_new = Some m /\ mx_calls m !! 0%nat = Some c /\
    c = fold_left solo_step [CeWritten true; CeResponse (RespPong 1)] (solo_new 1 true).
Proof.
  split; [reflexivity|].
  assert (NoDup (started two_calls).*1) as Hnd.
  { repeat (apply NoDup_cons; split; [set_solver|]). apply NoDup_nil. exact I. }
  destruct (mux_run two_calls mux_new) as [m|] eqn:E; [|discriminate E].
  destruct (concurrent_calls_do_not_interfere two_calls m Hnd E 0 1%N true eq_refl) as (c & Hc & Es & _).
  exists m, c. split; [reflexivity|]. split; [exact Hc|exact Es].
Defined.

(** ** Findings *)

Definition ack_of (id : Uuid) (n : Uuid) : EngineResponse Z :=
  RespAck id (AckOrder (mkOrderAck n StNew [] 1)).

(** The request id is the client's, from X-Request-Id.  Of two requests with the same id
    the second one drops the first one's channel, which returns an error although the
    engine accepts its order; and the second returns the answer to the first. *)
Example reused_id_gets_the_other_answer :
  outcomes [MxCall 1 true; MxWrite 0 works; MxCall 1 true; MxWrite 1 works;
            MxFrame 0 (ack_of 1 100); MxFrame 0 (ack_of 1 200)] =
  Some [Some (Err ClientIo); Some (Ok (ack_of 1 100))].
Proof. reflexivity. Qed.

(** The reader of a lost connection clears the whole pending map and the writer, also when
    they belong to the connection opened since: the call that was sent on it returns an
    error although its answer comes. *)
Example old_reader_cuts_the_new_connection :
  outcomes [MxCall 1 true; MxWrite 0 works; MxFrame 0 (ack_of 1 100);
            MxCall 2 true; MxWrite 1 (mkFate false true true);
            MxReaderEnd 0; MxFrame 1 (ack_of 2 200)] =
  Some [Some (Ok (ack_of 1 100)); Some (Err ClientIo)].
Proof. reflexivity. Qed.
