(* ===== verification/Server.v ===== *)
(** * Server: the TCP server of [engine/crates/server/src/server.rs]

    Any number of connections share the engine state behind a mutex and one broadcast
    channel of events.  A connection is three tasks: the main loop of [handle_connection],
    the task that forwards events, and the writer.  A step polls one task up to its next
    suspension; a schedule is a list of steps, in any order.

    The section [Log] is the vocabulary of ServerProps.v: the requests a schedule served,
    and what of them concerns one connection. *)
From S2P Require Import Prelude Decimal Types Book Bytes RecordLog Proto Wal Framing.
From S2P Require Import Wire Engine EngineClient.

Definition EVENT_CHANNEL_CAPACITY : nat := 1024.
Definition RESPONSE_CHANNEL_CAPACITY : nat := 128.

Inductive ConnError := CeFrame (e : FrameError) | CeServer (e : ServerError) | CeSend.

(** The event task: waiting for an event, waiting for room in the response channel. *)
Inductive EventTask (D Rx : Type) :=
| EtRecv (rx : Rx) | EtSend (rx : Rx) (event : SequencedEngineEvent D) | EtStopped.
Arguments EtRecv {D Rx} _.
Arguments EtSend {D Rx} _ _.
Arguments EtStopped {D Rx}.

Inductive WriterTask := WtRunning | WtDone (r : result FrameError unit).

(** Where the main loop stands. *)
Inductive Phase (D : Type) :=
| Reading
| Responding (bundle : ResponseBundle D)
| Broadcasting (events : list (SequencedEngineEvent D))
| Joining
| Ended (r : result ConnError unit).
Arguments Reading {D}.
Arguments Responding {D} _.
Arguments Broadcasting {D} _.
Arguments Joining {D}.
Arguments Ended {D} _.

(** [cn_reader] are the bytes the client is still to send before it closes its side. *)
Record Conn (D Rx : Type) := mkConn {
  cn_reader : bytes;
  cn_phase : Phase D;
  cn_event_task : EventTask D Rx;
  cn_queue : list (EngineResponse D);
  cn_writer : WriterTask;
  cn_written : bytes;
  cn_quota : list nat;
}.
Arguments mkConn {D Rx}.
Arguments cn_reader {D Rx} _.
Arguments cn_phase {D Rx} _.
Arguments cn_event_task {D Rx} _.
Arguments cn_queue {D Rx} _.
Arguments cn_writer {D Rx} _.
Arguments cn_written {D Rx} _.
Arguments cn_quota {D Rx} _.

Record Server (D W Ch Rx : Type) := mkServer {
  sv_state : EngineState D W;
  sv_events : Ch;
  sv_conns : list (Conn D Rx);
}.
Arguments mkServer {D W Ch Rx}.
Arguments sv_state {D W Ch Rx} _.
Arguments sv_events {D W Ch Rx} _.
Arguments sv_conns {D W Ch Rx} _.

Inductive SvStep :=
| SvAccept (peer_is_loopback : bool) (reader : bytes) (quota : list nat)
| SvMain (i : nat)
| SvEvents (i : nat)
| SvWriter (i : nat).

Section Server.
Context {D : Type} {dops : DecimalOps D}.
Context {W : Type} {wal : CommandLog W (WalCommand D)}.
Context {ecodec : Codec (SequencedEngineEvent D)}.
Context {reqcodec : Codec (EngineRequest D)} {respcodec : Codec (EngineResponse D)}.
Context {Ch Rx : Type} {bc : BroadcastOps (SequencedEngineEvent D) Ch Rx}.
Context (fuel : nat) (next_uuid : nat -> Uuid) (now_rfc3339 : nat -> string).
Abbreviation State := (EngineState D W).
Abbreviation Conn := (Conn D Rx).
Abbreviation Server := (Server D W Ch Rx).
Abbreviation Events := (list (SequencedEngineEvent D)).

Definition set_phase (p : Phase D) (c : Conn) : Conn :=
  mkConn (cn_reader c) p (cn_event_task c) (cn_queue c) (cn_writer c) (cn_written c) (cn_quota c).
Definition set_reader (r : bytes) (c : Conn) : Conn :=
  mkConn r (cn_phase c) (cn_event_task c) (cn_queue c) (cn_writer c) (cn_written c) (cn_quota c).
Definition set_event_task (t : EventTask D Rx) (c : Conn) : Conn :=
  mkConn (cn_reader c) (cn_phase c) t (cn_queue c) (cn_writer c) (cn_written c) (cn_quota c).
Definition set_writer (q : list (EngineResponse D)) (t : WriterTask) (written : bytes)
    (quota : list nat) (c : Conn) : Conn :=
  mkConn (cn_reader c) (cn_phase c) (cn_event_task c) q t written quota.
Definition push (r : EngineResponse D) (c : Conn) : Conn :=
  set_writer (cn_queue c ++ [r]) (cn_writer c) (cn_written c) (cn_quota c) c.

(** [Sender::send] on the response channel: it waits while the channel is full, and fails
    once the writer, which holds the receiver, has ended. *)
Inductive SendResult := Sent (c : Conn) | Full | Closed.
Definition send_response (r : EngineResponse D) (c : Conn) : SendResult :=
  match cn_writer c with
  | WtDone _ => Closed
  | WtRunning =>
      if (length (cn_queue c) <? RESPONSE_CHANNEL_CAPACITY)%nat then Sent (push r c) else Full
  end.

(** [handle_connection], up to the next suspension of its main loop; [None] where it is
    not ready. *)
Definition handle_connection (st : State) (ch : Ch) (c : Conn) : option (State * Ch * Conn) :=
  match cn_phase c with
  | Reading =>
      match read_json_frame (T := EngineRequest D) (cn_reader c) with
      | Err e => Some (st, ch, set_phase (Ended (Err (CeFrame e))) c)
      | Ok None => Some (st, ch, set_phase Joining (set_event_task EtStopped c))
      | Ok (Some (request, rest)) =>
          match handle_request fuel next_uuid now_rfc3339 request st with
          | None => None
          | Some (st, Err e) =>
              Some (st, ch, set_phase (Ended (Err (CeServer e))) (set_reader rest c))
          | Some (st, Ok bundle) =>
              Some (st, ch, set_phase (Responding bundle) (set_reader rest c))
          end
      end
  | Responding bundle =>
      match send_response (rb_response bundle) c with
      | Sent c => Some (st, ch, set_phase (Broadcasting (rb_events bundle)) c)
      | Full => None
      | Closed => Some (st, ch, set_phase (Ended (Err CeSend)) c)
      end
  | Broadcasting events =>
      Some (st, fold_left (fun ch e => bc_send e ch) events ch, set_phase Reading c)
  | Joining =>
      match cn_writer c with
      | WtRunning => None
      | WtDone (Ok tt) => Some (st, ch, set_phase (Ended (Ok tt)) c)
      | WtDone (Err e) => Some (st, ch, set_phase (Ended (Err (CeFrame e))) c)
      end
  | Ended _ => None
  end.

(** The task that forwards events. *)
Definition forward_events (ch : Ch) (c : Conn) : option Conn :=
  match cn_event_task c with
  | EtRecv rx =>
      match bc_recv ch rx with
      | (RxFrame event, rx) => Some (set_event_task (EtSend rx event) c)
      | (RxLagged _, rx) => Some (set_event_task (EtRecv rx) c)
      | (RxPending, _) => None
      end
  | EtSend rx event =>
      match send_response (RespEvent event) c with
      | Sent c => Some (set_event_task (EtRecv rx) c)
      | Full => None
      | Closed => Some (set_event_task EtStopped c)
      end
  | EtStopped => None
  end.

(** All senders of the response channel are gone. *)
Definition no_senders (c : Conn) : bool :=
  match cn_phase c, cn_event_task c with
  | (Joining | Ended _), EtStopped => true
  | _, _ => false
  end.

(** The writer task; what is queued when it ends is dropped with the receiver. *)
Definition write_responses (c : Conn) : option Conn :=
  match cn_writer c with
  | WtDone _ => None
  | WtRunning =>
      match cn_queue c with
      | r :: rest =>
          match write_json_frame r (cn_written c) (cn_quota c) with
          | (written, quota, Ok _) => Some (set_writer rest WtRunning written quota c)
          | (written, quota, Err e) => Some (set_writer [] (WtDone (Err e)) written quota c)
          end
      | [] =>
          if no_senders c
          then Some (set_writer [] (WtDone (Ok tt)) (cn_written c) (cn_quota c) c) else None
      end
  end.

(** A connection as accepted: it sees the events broadcast from now on. *)
Definition accept (reader : bytes) (quota : list nat) (ch : Ch) : Conn :=
  mkConn reader Reading (EtRecv (bc_subscribe ch)) [] WtRunning [] quota.

Definition with_conn (i : nat) (c : Conn) (sv : Server) : Server :=
  mkServer (sv_state sv) (sv_events sv) (<[i := c]> (sv_conns sv)).

(** A step of the schedule; [None] where the task it polls is not ready. *)
Definition sv_step (s : SvStep) (sv : Server) : option Server :=
  match s with
  | SvAccept loopback reader quota =>
      Some (if loopback
            then mkServer (sv_state sv) (sv_events sv)
                   (sv_conns sv ++ [accept reader quota (sv_events sv)])
            else sv)
  | SvMain i =>
      c ← sv_conns sv !! i;
      '(st, ch, c) ← handle_connection (sv_state sv) (sv_events sv) c;
      Some (mkServer st ch (<[i := c]> (sv_conns sv)))
  | SvEvents i =>
      c ← sv_conns sv !! i;
      c ← forward_events (sv_events sv) c;
      Some (with_conn i c sv)
  | SvWriter i =>
      c ← sv_conns sv !! i;
      c ← write_responses c;
      Some (with_conn i c sv)
  end.

Fixpoint sv_run (ss : list SvStep) (sv : Server) : option Server :=
  match ss with
  | [] => Some sv
  | s :: ss => sv_step s sv ≫= sv_run ss
  end.
End Server.

Inductive StartError := NonLoopbackBind | StartFailed.

(** [run_listener], up to its loop: the bind address is checked, the logs are opened. *)
Definition run_listener {D Ch Rx} {dops : DecimalOps D} {wcodec : Codec (WalEntry D)}
    {ecodec : Codec (SequencedEngineEvent D)} {bc : BroadcastOps (SequencedEngineEvent D) Ch Rx}
    (fuel : nat) (bind_is_loopback : bool) (command_wal event_log : option bytes)
    (quota_w quota_e : list nat) (snapshot_depth : nat) : result StartError (Server D Wal Ch Rx) :=
  if negb bind_is_loopback then Err NonLoopbackBind
  else match engine_open fuel command_wal event_log quota_w quota_e snapshot_depth with
       | Some st => Ok (mkServer st (broadcast_channel EVENT_CHANNEL_CAPACITY) [])
       | None => Err StartFailed
       end.

(** ** What a schedule did *)

Section Log.
Context {D : Type} {dops : DecimalOps D}.
Context {W : Type} {wal : CommandLog W (WalCommand D)}.
Context {ecodec : Codec (SequencedEngineEvent D)}.
Context (fuel : nat) (next_uuid : nat -> Uuid) (now_rfc3339 : nat -> string).
Abbreviation State := (EngineState D W).
Abbreviation handle := (handle_request fuel next_uuid now_rfc3339).

Definition request_id (r : EngineRequest D) : Uuid :=
  match r with
  | ReqPlace r => pr_request_id r
  | ReqCancel r => cr_request_id r
  | ReqCancelAll r => ca_request_id r
  | ReqHaltMarket r | ReqResumeMarket r => mc_request_id r
  | ReqSnapshot r => sr_request_id r
  | ReqPing r => pg_request_id r
  end.

(** The requests served, in the order of the lock, with the connection each came from. *)
Abbreviation Outcome := (result ServerError (ResponseBundle D)).
Abbreviation Served := (list (nat * (EngineRequest D * Outcome))).

Inductive chain (st0 : State) : Served -> State -> Prop :=
| chain_nil : chain st0 [] st0
| chain_snoc log st i req r st' :
    chain st0 log st -> handle req st = Some (st', r) ->
    chain st0 (log ++ [(i, (req, r))]) st'.

(** The part of one connection. *)
Definition at_conn {A} (i : nat) (l : list (nat * A)) : list A :=
  omap (fun e => if bool_decide (e.1 = i) then Some e.2 else None) l.
Definition requests_of (i : nat) (log : Served) : list (EngineRequest D) := fst <$> at_conn i log.
Definition bundles_of (i : nat) (log : Served) : list (ResponseBundle D) :=
  omap (fun e => match e.2 with Ok b => Some b | Err _ => None end) (at_conn i log).
Definition answers_of (i : nat) (log : Served) : list (EngineResponse D) :=
  rb_response <$> bundles_of i log.
Definition announced_by (i : nat) (log : Served) : list (SequencedEngineEvent D) :=
  bundles_of i log ≫= rb_events.

(** The responses of a stream that answer requests, and its events. *)
Definition as_event (r : EngineResponse D) : option (SequencedEngineEvent D) :=
  match r with RespEvent e => Some e | _ => None end.
Definition answers (l : list (EngineResponse D)) : list (EngineResponse D) :=
  filter (fun r => as_event r = None) l.
Definition events (l : list (EngineResponse D)) : list (SequencedEngineEvent D) := omap as_event l.

Lemma at_conn_app {A} i (l k : list (nat * A)) : at_conn i (l ++ k) = at_conn i l ++ at_conn i k.
Proof. apply omap_app. Qed.
Lemma at_conn_other {A} i j (x : A) : i <> j -> at_conn j [(i, x)] = [].
Proof. intros. cbn. by rewrite bool_decide_false. Qed.
Lemma at_conn_same {A} i (x : A) : at_conn i [(i, x)] = [x].
Proof. cbn. by rewrite bool_decide_true. Qed.
Lemma at_conn_tag {A} i j (l : list A) :
  at_conn j (pair i <$> l) = if bool_decide (i = j) then l else [].
Proof.
  induction l as [|x l IH]; cbn; [by case_bool_decide|].
  unfold at_conn in IH. rewrite IH. by case_bool_decide.
Qed.
Lemma at_conn_fresh {A} i (l : list (nat * A)) :
  Forall (fun e => (e.1 < i)%nat) l -> at_conn i l = [].
Proof.
  induction 1 as [|[j x] l Hj _ IH]; cbn in *; [done|]. by rewrite bool_decide_false by lia.
Qed.

Lemma answers_app l k : answers (l ++ k) = answers l ++ answers k.
Proof. apply filter_app. Qed.
Lemma events_app l k : events (l ++ k) = events l ++ events k.
Proof. apply omap_app. Qed.

Lemma rejected_id rid (o : EngineOrder D) rej :
  validate_wire_order rid o = Some rej -> rj_request_id rej = rid.
Proof. unfold validate_wire_order. repeat case_match; by intros [= <-]. Qed.
Lemma pre_rejected_id rid oid (es : list (EngineEvent D)) rej :
  immediate_pre_reject rid oid es = Some rej -> rj_request_id rej = rid.
Proof.
  induction es as [|e es IH]; cbn; [done|]. destruct e as [?|? ?|i reason|?]; try done.
  destruct (N.eqb i oid); [|done]. destruct reason; try done; by intros [= <-].
Qed.

Lemma place_answer rid o st st' b :
  place_order fuel next_uuid now_rfc3339 rid o st = Some (st', Ok b) ->
  response_id (rb_response b) = Some rid.
Proof.
  unfold place_order. destruct (validate_wire_order rid o) as [rej|] eqn:Ev.
  { intros [= _ <-]. cbn. by rewrite (rejected_id _ _ _ Ev). }
  case_bool_decide; [by intros [= _ <-]|].
  destruct (log_append _ _) as [w [?|e]]; [|done].
  destruct (match_order _ _ _) as [[book evs]|]; [|done].
  destruct (immediate_pre_reject _ _ _) as [rej|] eqn:Ep.
  { intros [= _ <-]. cbn. by rewrite (pre_rejected_id _ _ _ _ Ep). }
  destruct (to_wire_core_events _ _ _ _ _) as [[st1 we] fills].
  destruct (sequence_events _ _) as [st2 [ss|e]]; [|done]. by intros [= _ <-].
Qed.

Lemma cancel_answer r st st' b :
  cancel_order_request r st = (st', Ok b) -> response_id (rb_response b) = Some (cr_request_id r).
Proof.
  unfold cancel_order_request.
  destruct (es_open_orders st !! cr_order_id r) as [meta|]; [|by intros [= _ <-]].
  destruct (negb _); [by intros [= _ <-]|].
  destruct (cancel_known_order _ _) as [st1 [[|e es]|err]]; [by intros [= _ <-]| |done].
  destruct (sequence_events _ _) as [st2 [ss|err]]; [|done]. by intros [= _ <-].
Qed.

Lemma cancel_all_answer r st st' b :
  cancel_all r st = (st', Ok b) -> response_id (rb_response b) = Some (ca_request_id r).
Proof.
  unfold cancel_all. destruct (cancel_each _ _ _ _ _) as [st1 [[[ids syms] we]|e]]; [|done].
  destruct (sequence_events _ _) as [st2 [ss|err]]; [|done]. by intros [= _ <-].
Qed.

(** Every answer carries the id of its request, so it is never taken for an event. *)
Lemma handle_answer req st st' b :
  handle req st = Some (st', Ok b) -> response_id (rb_response b) = Some (request_id req).
Proof.
  destruct req; cbn [handle_request request_id].
  - apply place_answer.
  - intros [= H]. by eapply cancel_answer.
  - intros [= H]. by eapply cancel_all_answer.
  - unfold halt_market, market_status_response. destruct (sequence_events _ _) as [? [?|?]]; [|done].
    by intros [= _ <-].
  - unfold resume_market, market_status_response. destruct (sequence_events _ _) as [? [?|?]]; [|done].
    by intros [= _ <-].
  - by intros [= _ <-].
  - by intros [= _ <-].
Qed.
End Log.
