(* ===== verification/ServerProps.v ===== *)
(** * ServerProps: concurrent connections

    [conn_ok] follows one connection through the steps of its three tasks, [sv_ok] all of
    them.  [server_linearizes]: under every schedule the state is that of the requests
    served one after the other, and each client is written the answers to its requests, in
    order, between events that were broadcast.  [events_are_broadcast_in_order]: the events
    a connection causes are broadcast once and in order, and are in the event log; those of
    a connection that broke off while it was being answered may be missing. *)
From S2P Require Import Prelude Decimal Types Book BookProps Bytes RecordLog Proto.
From S2P Require Import Wal Framing LogProps Wire Engine EngineLog EngineProps.
From S2P Require Import EngineClient Server.

(** ** One connection *)

Section Connection.
Context {D : Type} {dops : DecimalOps D}.
Context {W : Type} {wal : CommandLog W (WalCommand D)}.
Context {ecodec : Codec (SequencedEngineEvent D)}.
Context {reqcodec : Codec (EngineRequest D)} {respcodec : Codec (EngineResponse D)}.
Context {Ch Rx : Type} {bc : BroadcastOps (SequencedEngineEvent D) Ch Rx}.
Context {views : BroadcastViews (SequencedEngineEvent D) Ch Rx}.
Context {laws : BroadcastLaws (SequencedEngineEvent D) Ch Rx}.
Context (fuel : nat) (next_uuid : nat -> Uuid) (now_rfc3339 : nat -> string).
Abbreviation State := (EngineState D W).
Abbreviation Conn := (Conn D Rx).
Abbreviation handle := (handle_request fuel next_uuid now_rfc3339).
Abbreviation Served := (list (nat * (EngineRequest D * result ServerError (ResponseBundle D)))).
Abbreviation Events := (list (SequencedEngineEvent D)).
Implicit Types (c : Conn) (log : Served) (sent : Events).

(** Frames read off a stream, and frames on a stream. *)
Inductive reads {T} {json : Codec T} (input : bytes) : list T -> bytes -> Prop :=
| reads_nil : reads input [] input
| reads_snoc rs mid r rest :
    reads input rs mid -> read_json_frame mid = Ok (Some (r, rest)) -> reads input (rs ++ [r]) rest.

Definition sendable (r : EngineResponse D) : Prop :=
  exists p, encode r = Some p /\ Z.of_nat (length p) <= MAX_FRAME_BYTES.
Definition frame (r : EngineResponse D) : bytes :=
  let payload := default [] (encode r) in
  u32_to_be_bytes (Z.of_nat (length payload)) ++ payload.
Definition frames (l : list (EngineResponse D)) : bytes := l ≫= frame.

(** What is still to be answered and announced. *)
Definition answer_due c : list (EngineResponse D) :=
  match cn_phase c with Responding b => [rb_response b] | _ => [] end.
Definition events_due c : Events :=
  match cn_phase c with Responding b => rb_events b | Broadcasting es => es | _ => [] end.
Definition broke_off c : Prop := cn_phase c = Ended (Err CeSend).

(** The broadcast events the event task has passed, and the one it holds. *)
Definition seen (t : EventTask D Rx) sent : Events :=
  match t with EtRecv rx | EtSend rx _ => take (bc_next rx) sent | EtStopped => sent end.
Definition held (t : EventTask D Rx) : Events := match t with EtSend _ e => [e] | _ => [] end.
Definition in_channel (t : EventTask D Rx) sent : Prop :=
  match t with EtRecv rx | EtSend rx _ => (bc_next rx <= length sent)%nat | EtStopped => True end.

(** [wrote] are the frames written whole. *)
Record stream_ok (i : nat) log sent c (wrote : list (EngineResponse D)) : Prop := {
  st_sendable : Forall sendable wrote;
  st_prefix : frames wrote `prefix_of` cn_written c /\ answers wrote `prefix_of` answers_of i log;
  st_running : cn_writer c = WtRunning -> cn_written c = frames wrote /\
    answers (wrote ++ cn_queue c) ++ answer_due c = answers_of i log;
  st_done : cn_writer c <> WtRunning -> cn_queue c = [];
  st_channel : in_channel (cn_event_task c) sent;
  st_events : events (wrote ++ cn_queue c) ++ held (cn_event_task c)
                `sublist_of` seen (cn_event_task c) sent;
}.

Record conn_ok (i : nat) (input : bytes) log (tagged : list (nat * SequencedEngineEvent D)) c
    : Prop := {
  co_reads : reads input (requests_of i log) (cn_reader c);
  co_stream : exists wrote, stream_ok i log tagged.*2 c wrote;
  co_events : exists lost, at_conn i tagged ++ events_due c ++ lost = announced_by i log /\
    (~ broke_off c -> lost = []);
}.

Lemma seen_grows t sent more : in_channel t sent -> seen t sent `sublist_of` seen t (sent ++ more).
Proof.
  destruct t as [rx|rx e|]; cbn; [| |intros _; by apply sublist_inserts_r];
    intros Hn; by rewrite take_app_le.
Qed.
Lemma in_channel_grows t sent more : in_channel t sent -> in_channel t (sent ++ more).
Proof. destruct t; cbn; rewrite ?length_app; lia. Qed.

(** The stream depends on nothing else. *)
Lemma stream_grows i log log' sent more c c' wrote :
  stream_ok i log sent c wrote ->
  cn_written c' = cn_written c -> cn_queue c' = cn_queue c -> cn_writer c' = cn_writer c ->
  cn_event_task c' = cn_event_task c ->
  answers_of i log `prefix_of` answers_of i log' ->
  (cn_writer c = WtRunning -> forall done, done ++ answer_due c = answers_of i log ->
     done ++ answer_due c' = answers_of i log') ->
  stream_ok i log' (sent ++ more) c' wrote.
Proof.
  intros [H0 [H1 H1'] H2 H3 H4 H5] Ew Eq Et Ee Hp Hdue. split; rewrite ?Ew, ?Eq, ?Et, ?Ee.
  - done.
  - split; [done|]. by trans (answers_of i log).
  - intros Hr. destruct (H2 Hr) as [? Ha]. split; [done|]. by apply Hdue.
  - done.
  - by apply in_channel_grows.
  - etrans; [exact H5|]. by apply seen_grows.
Qed.

(** What other connections do leaves it alone. *)
Lemma conn_other i j input log entry tagged es c :
  i <> j -> (forall e, e ∈ entry -> e.1 = i) ->
  conn_ok j input log tagged c -> conn_ok j input (log ++ entry) (tagged ++ (pair i <$> es)) c.
Proof.
  intros Hne Hi [Hr (wrote & Hs) (lost & He & Hl)].
  assert (at_conn j (log ++ entry) = at_conn j log) as El.
  { rewrite at_conn_app. replace (at_conn j entry) with (@nil (EngineRequest D * result ServerError (ResponseBundle D))); [by rewrite app_nil_r|].
    clear -Hne Hi. induction entry as [|e entry IH]; [done|]. cbn.
    rewrite bool_decide_false; [|rewrite (Hi e) by (by left); done].
    apply IH. intros e' ?. apply Hi. by right. }
  split.
  - unfold requests_of. by rewrite El.
  - exists wrote. rewrite fmap_app. eapply stream_grows; [exact Hs|done..| |].
    + unfold answers_of, bundles_of. by rewrite El.
    + intros _ done. unfold answers_of, bundles_of. by rewrite El.
  - exists lost. split; [|done]. rewrite at_conn_app, at_conn_tag, bool_decide_false, app_nil_r by done.
    unfold announced_by, bundles_of. by rewrite El.
Qed.

Lemma answers_of_snoc i log (entry : nat * (EngineRequest D * result ServerError (ResponseBundle D))) :
  entry.1 = i ->
  requests_of i (log ++ [entry]) = requests_of i log ++ [entry.2.1] /\
  answers_of i (log ++ [entry]) =
    answers_of i log ++ match entry.2.2 with Ok b => [rb_response b] | Err _ => [] end /\
  announced_by i (log ++ [entry]) =
    announced_by i log ++ match entry.2.2 with Ok b => rb_events b | Err _ => [] end.
Proof.
  destruct entry as [j [req r]]. cbn. intros ->.
  unfold answers_of, announced_by, bundles_of, requests_of.
  rewrite at_conn_app, at_conn_same, fmap_app, omap_app, fmap_app, bind_app.
  destruct r; cbn; by rewrite ?app_nil_r.
Qed.

(** The main loop, when it changes nothing but its phase and its reader. *)
Lemma conn_moves i input log entry tagged c c' :
  conn_ok i input log tagged c ->
  (forall e, e ∈ entry -> e.1 = i) ->
  cn_written c' = cn_written c -> cn_queue c' = cn_queue c -> cn_writer c' = cn_writer c ->
  cn_event_task c' = cn_event_task c ->
  reads input (requests_of i (log ++ entry)) (cn_reader c') ->
  answers_of i log `prefix_of` answers_of i (log ++ entry) ->
  (cn_writer c = WtRunning -> forall done, done ++ answer_due c = answers_of i log ->
     done ++ answer_due c' = answers_of i (log ++ entry)) ->
  (exists lost, at_conn i tagged ++ events_due c' ++ lost = announced_by i (log ++ entry) /\
     (~ broke_off c' -> lost = [])) ->
  conn_ok i input (log ++ entry) tagged c'.
Proof.
  intros [Hr (wrote & Hs) He] _ Ew Eq Et Ee Hr' Hp Hd He'. split; [done| |done].
  exists wrote. rewrite <-(app_nil_r tagged.*2). by eapply stream_grows.
Qed.

Definition reports (i : nat) (st : State) (entry : Served) (st' : State) : Prop :=
  (entry = [] /\ st' = st) \/
  exists req r, entry = [(i, (req, r))] /\ handle req st = Some (st', r).

Definition main_post i input log tagged (st : State) (ch : Ch) (st' : State) (ch' : Ch) c' : Prop :=
  exists entry es, reports i st entry st' /\
    bc_sent ch' = bc_sent ch ++ es /\
    conn_ok i input (log ++ entry) (tagged ++ (pair i <$> es)) c'.

(** A move of the main loop that serves and broadcasts nothing. *)
Lemma main_quiet i input log tagged st ch c c' :
  conn_ok i input log tagged c ->
  cn_written c' = cn_written c -> cn_queue c' = cn_queue c -> cn_writer c' = cn_writer c ->
  cn_event_task c' = cn_event_task c -> cn_reader c' = cn_reader c ->
  (cn_writer c = WtRunning -> answer_due c' = answer_due c) ->
  (events_due c' = events_due c /\ ~ broke_off c \/ broke_off c' /\ events_due c' = [] /\ ~ broke_off c) ->
  main_post i input log tagged st ch st ch c'.
Proof.
  intros Hok Ew Eq Et Ee Er Ha He. exists [], []. split; [by left|]. rewrite !app_nil_r. split; [done|].
  pose proof Hok as [Hr Hs (lost & Hl & Hlost)]. rewrite <-(app_nil_r log).
  eapply conn_moves; [exact Hok|by intros ? ?%not_elem_of_nil|done..| | | |].
  - by rewrite app_nil_r, Er.
  - by rewrite app_nil_r.
  - intros Hw. rewrite app_nil_r, Ha by done. by intros.
  - rewrite app_nil_r. destruct He as [[-> Hn]|(Hb & -> & Hn)].
    + exists []. rewrite (Hlost Hn) in Hl. done.
    + exists (events_due c). rewrite (Hlost Hn), app_nil_r in Hl. done.
Qed.

Lemma event_task_stops i input log tagged c :
  conn_ok i input log tagged c -> conn_ok i input log tagged (set_event_task EtStopped c).
Proof.
  intros [Hr (wrote & [H0 H1 H2 H3 H4 H5]) He]. split; [done| |done].
  exists wrote. split; [done..|]. cbn. rewrite app_nil_r.
  etrans; [|etrans; [exact H5|]]; [by apply sublist_inserts_r|].
  destruct (cn_event_task c); cbn; [apply sublist_take..|done].
Qed.

Lemma main_reads i input log tagged st ch c st' ch' c' :
  conn_ok i input log tagged c -> cn_phase c = Reading ->
  handle_connection fuel next_uuid now_rfc3339 st ch c = Some (st', ch', c') ->
  main_post i input log tagged st ch st' ch' c'.
Proof.
  intros Hok Hp. assert (~ broke_off c) as Hn by (unfold broke_off; by rewrite Hp).
  assert (answer_due c = []) as Ha by (unfold answer_due; by rewrite Hp).
  assert (events_due c = []) as Hev by (unfold events_due; by rewrite Hp).
  unfold handle_connection. rewrite Hp.
  destruct (read_json_frame (cn_reader c)) as [[[req rest]|]|e] eqn:Er.
  - destruct (handle req st) as [[st1 r]|] eqn:Eh; [|done]. intros H.
    pose proof Hok as [Hr Hs (lost & Hl & Hlost)]. specialize (Hlost Hn). subst lost.
    rewrite Hev, !app_nil_r in Hl.
    destruct (answers_of_snoc i log (i, (req, r)) eq_refl) as (Hq & Han & Hann). cbn in Hq, Han, Hann.
    exists [(i, (req, r))], []. rewrite !app_nil_r.
    assert (st' = st1 /\ ch' = ch) as [-> ->] by (destruct r; by simplify_eq).
    split; [right; eauto|]. split; [done|].
    eapply conn_moves; [exact Hok|by intros ? ->%list_elem_of_singleton|..];
      try (destruct r; by simplify_eq).
    + rewrite Hq. econstructor; [exact Hr|]. rewrite Er. by destruct r; simplify_eq.
    + rewrite Han. by apply prefix_app_r.
    + intros _ done. rewrite Ha, Han, app_nil_r. intros ->. destruct r; by simplify_eq.
    + exists []. rewrite Hann, Hl, app_nil_r. destruct r; simplify_eq; done.
  - intros [= <- <- <-]. eapply (main_quiet _ _ _ _ _ _ (set_event_task EtStopped c));
      [by apply event_task_stops|done..| |left]; [|split; [unfold events_due; cbn; by rewrite Hp|done]].
    intros _. unfold answer_due. cbn. by rewrite Hp.
  - intros [= <- <- <-]. eapply main_quiet; [exact Hok|done..| |left]; [by rewrite Ha|by rewrite Hev].
Qed.

Definition answering (r : EngineResponse D) : Prop := as_event r = None.

Lemma answers_id l : Forall answering l -> answers l = l.
Proof.
  induction 1 as [|r l Hr _ IH]; [done|]. cbn. rewrite decide_True by done. by f_equal.
Qed.

Lemma main_responds i input log tagged st ch b c st' ch' c' :
  conn_ok i input log tagged c -> Forall answering (answers_of i log) ->
  cn_phase c = Responding b ->
  handle_connection fuel next_uuid now_rfc3339 st ch c = Some (st', ch', c') ->
  main_post i input log tagged st ch st' ch' c'.
Proof.
  intros Hok Han Hp. assert (~ broke_off c) as Hn by (unfold broke_off; by rewrite Hp).
  assert (answer_due c = [rb_response b]) as Ha by (unfold answer_due; by rewrite Hp).
  assert (events_due c = rb_events b) as Hev by (unfold events_due; by rewrite Hp).
  unfold handle_connection, send_response. rewrite Hp.
  destruct (cn_writer c) eqn:Ew; [destruct (_ <? _)%nat; [|done]|]; intros [= <- <- <-].
  - exists [], []. rewrite !app_nil_r. split; [by left|]. split; [done|].
    destruct Hok as [Hr (wrote & [H0 H1 H2 H3 H4 H5]) (lost & Hl & Hlost)]. split; [done| |].
    + destruct (H2 Ew) as [Hw Hans]. rewrite Ha in Hans.
      assert (answering (rb_response b)) as Hb.
      { rewrite <-Hans, Forall_app in Han. by apply Forall_singleton, Han. }
      exists wrote. split; cbn; rewrite ?Ew; [done|done| |done|done|].
      * intros _. split; [done|]. rewrite (assoc (++)), answers_app, app_nil_r, <-Hans.
        f_equal. apply answers_id. by constructor.
      * rewrite (assoc (++)), events_app. cbn. rewrite Hb. by rewrite app_nil_r.
    + exists lost. cbn. rewrite Hev in Hl. split; [done|]. intros _. by apply Hlost.
  - eapply main_quiet; [exact Hok|done..| |right]; [by rewrite Ew|done].
Qed.

Lemma bc_sent_fold es (ch : Ch) :
  bc_sent (fold_left (fun ch e => bc_send e ch) es ch) = bc_sent ch ++ es.
Proof.
  revert ch. induction es as [|e es IH]; intros ch; cbn; [by rewrite app_nil_r|].
  by rewrite IH, send_sent, <-(assoc (++)).
Qed.

Lemma main_broadcasts i input log tagged st ch es c st' ch' c' :
  conn_ok i input log tagged c -> cn_phase c = Broadcasting es ->
  handle_connection fuel next_uuid now_rfc3339 st ch c = Some (st', ch', c') ->
  main_post i input log tagged st ch st' ch' c'.
Proof.
  intros [Hr (wrote & Hs) (lost & Hl & Hlost)] Hp. unfold handle_connection. rewrite Hp.
  assert (lost = []) as -> by (apply Hlost; unfold broke_off; by rewrite Hp).
  assert (events_due c = es) as Hev by (unfold events_due; by rewrite Hp).
  assert (answer_due c = []) as Ha by (unfold answer_due; by rewrite Hp).
  intros [= <- <- <-]. exists [], es. split; [by left|]. split; [apply bc_sent_fold|].
  rewrite app_nil_r. split; [done| |].
  - exists wrote. rewrite fmap_app, <-list_fmap_compose, list_fmap_id.
    eapply stream_grows; [exact Hs|done..|]. intros _ done. by rewrite Ha.
  - exists []. rewrite at_conn_app, at_conn_tag, bool_decide_true by done. cbn.
    by rewrite Hev, app_nil_r in *.
Qed.

Lemma main_ok i input log tagged st ch c st' ch' c' :
  conn_ok i input log tagged c -> Forall answering (answers_of i log) ->
  handle_connection fuel next_uuid now_rfc3339 st ch c = Some (st', ch', c') ->
  main_post i input log tagged st ch st' ch' c'.
Proof.
  intros Hok Han Hh. destruct (cn_phase c) as [|b|es| |r] eqn:Hp.
  - by eapply main_reads.
  - by eapply main_responds.
  - by eapply main_broadcasts.
  - assert (answer_due c = []) as Ha by (unfold answer_due; by rewrite Hp).
    assert (events_due c = []) as Hev by (unfold events_due; by rewrite Hp).
    assert (~ broke_off c) as Hn by (unfold broke_off; by rewrite Hp).
    unfold handle_connection in Hh. rewrite Hp in Hh.
    destruct (cn_writer c) as [|[[]|e]] eqn:Ew; simplify_eq;
      (eapply main_quiet; [exact Hok|done..| |left]; [by rewrite Ew|by rewrite Hev]).
  - unfold handle_connection in Hh. by rewrite Hp in Hh.
Qed.

(** The task that forwards events. *)
Lemma task_ok i input log tagged c c' :
  conn_ok i input log tagged c ->
  cn_reader c' = cn_reader c -> cn_phase c' = cn_phase c ->
  (forall wrote, stream_ok i log tagged.*2 c wrote -> exists wrote', stream_ok i log tagged.*2 c' wrote') ->
  conn_ok i input log tagged c'.
Proof.
  intros [Hr (wrote & Hs) He] Er Ep Hst. split; [by rewrite Er|by eapply Hst|].
  unfold events_due, broke_off in *. by rewrite Ep.
Qed.

Lemma take_sublist {A} m n (l : list A) : (m <= n)%nat -> take m l `sublist_of` take n l.
Proof.
  intros H. replace (take m l) with (take m (take n l)); [apply sublist_take|].
  rewrite take_take. f_equal. lia.
Qed.

Lemma forward_events_ok i input log tagged ch c c' :
  conn_ok i input log tagged c -> bc_sent ch = tagged.*2 ->
  forward_events ch c = Some c' -> conn_ok i input log tagged c'.
Proof.
  intros Hok Hsent. unfold forward_events, send_response.
  destruct (cn_event_task c) as [rx|rx e|] eqn:Et; [| |done].
  - destruct (bc_recv ch rx) as [got rx'] eqn:Erx. intros Hc. eapply task_ok; [exact Hok| | |];
      try (by destruct got; simplify_eq). intros wrote [H0 H1 H2 H3 H4 H5].
    rewrite Et in H4, H5. cbn in H4, H5. rewrite <-Hsent in H4, H5. rewrite app_nil_r in H5.
    exists wrote. rewrite <-Hsent.
    destruct (decide (bc_next rx = length (bc_sent ch))) as [Hend|Hlt].
    { destruct (recv_pending ch rx Hend) as (r' & Hp & _). rewrite Hp in Erx. by simplify_eq. }
    destruct (decide (bc_next rx + bc_room ch < length (bc_sent ch))%nat) as [Hlag|Hroom].
    + destruct (recv_lagged ch rx Hlag) as (n & r' & Hp & Hn). rewrite Hp in Erx. simplify_eq.
      split; cbn; [done|done|done|done|rewrite Hn; lia|]. rewrite app_nil_r.
      etrans; [exact H5|]. rewrite Hn. apply take_sublist. lia.
    + destruct (lookup_lt_is_Some_2 (bc_sent ch) (bc_next rx)) as [f Hf]; [lia|].
      destruct (recv_frame ch rx f) as (r' & Hp & Hn); [lia|done|]. rewrite Hp in Erx. simplify_eq.
      split; cbn; [done|done|done|done|rewrite Hn; lia|]. rewrite Hn, (take_S_r _ _ f) by done.
      by apply sublist_app.
  - destruct (cn_writer c) eqn:Ew; [destruct (_ <? _)%nat; [|done]|]; intros [= <-].
    + eapply task_ok; [exact Hok|done..|]. intros wrote [H0 H1 H2 H3 H4 H5]. rewrite Et in H4, H5.
      exists wrote. split; cbn; rewrite ?Ew; [done|done| |done|done|].
      * intros _. destruct (H2 Ew) as [Hw Ha]. split; [done|].
        rewrite (assoc (++)), answers_app. change (answers [RespEvent e]) with (@nil (EngineResponse D)).
        by rewrite app_nil_r.
      * rewrite (assoc (++)), events_app, app_nil_r. done.
    + by apply event_task_stops.
Qed.

Lemma server_frames_snoc l r : frames (l ++ [r]) = frames l ++ frame r.
Proof. unfold frames. rewrite bind_app. cbn. by rewrite app_nil_r. Qed.

Lemma write_frame_ok r written quota written' quota' u :
  write_json_frame r written quota = (written', quota', Ok u) -> written' = written ++ frame r.
Proof.
  intros (p & Hp & _ & ->)%write_json_frame_ok. unfold frame. by rewrite Hp.
Qed.

Lemma write_frame_sendable r written quota written' quota' u :
  write_json_frame r written quota = (written', quota', Ok u) -> sendable r.
Proof. intros (p & Hp & Hlen & _)%write_json_frame_ok. by exists p. Qed.

Lemma write_frame_grows (r : EngineResponse D) written quota written' quota' res :
  write_json_frame r written quota = (written', quota', res) -> written `prefix_of` written'.
Proof.
  assert (forall d w q w' q' rest ok, dev_write d w q = (w', q', rest, ok) -> w `prefix_of` w') as Hd.
  { intros d w q w' q' rest ok. unfold dev_write. destruct q as [|n q]; [|destruct (_ <=? n)%nat];
      intros [= <- <- <- <-]; by apply prefix_app_r. }
  unfold write_json_frame. destruct (encode r) as [p|]; [|by intros [= <- <- <-]].
  destruct (_ <? _)%Z; [by intros [= <- <- <-]|].
  destruct (u32_try_from _); [|by intros [= <- <- <-]].
  destruct (dev_write _ written quota) as [[[w1 q1] r1] [|]] eqn:E1;
    [|intros [= <- <- <-]; by eapply Hd].
  destruct (dev_write p w1 q1) as [[[w2 q2] r2] ok] eqn:E2. intros [= <- <- <-].
  trans w1; by eapply Hd.
Qed.

Lemma writer_ok i input log tagged c c' :
  conn_ok i input log tagged c -> write_responses c = Some c' -> conn_ok i input log tagged c'.
Proof.
  intros Hok. unfold write_responses. destruct (cn_writer c) eqn:Ew; [|done].
  destruct (cn_queue c) as [|r rest] eqn:Eq.
  - destruct (no_senders c); [|done]. intros [= <-]. eapply task_ok; [exact Hok|done..|].
    intros wrote [H0 H1 H2 H3 H4 H5]. exists wrote. rewrite Eq in H5. by split; cbn.
  - destruct (write_json_frame r (cn_written c) (cn_quota c)) as [[written quota] [u|e]] eqn:Hw;
      intros [= <-]; (eapply task_ok; [exact Hok|done..|]); intros wrote [H0 [H1 H1'] H2 H3 H4 H5];
      destruct (H2 Ew) as [Hwr Ha]; rewrite Eq in Ha, H5.
    + pose proof (write_frame_sendable _ _ _ _ _ _ Hw) as Hsend.
      apply write_frame_ok in Hw. exists (wrote ++ [r]).
      split; cbn; rewrite <-?(assoc (++)); [by apply Forall_app; split; [|by apply Forall_singleton]|split| |done|done|done].
      * by rewrite server_frames_snoc, Hw, Hwr.
      * exists (answers rest ++ answer_due c). rewrite <-Ha.
        change (r :: rest) with ([r] ++ rest). by rewrite !answers_app, <-!(assoc (++)).
      * intros _. by rewrite server_frames_snoc, Hw, Hwr.
    + apply write_frame_grows in Hw. exists wrote. split; cbn; [done| |done|done|done|].
      * split; [by trans (cn_written c)|done].
      * rewrite app_nil_r. etrans; [|exact H5]. rewrite events_app, <-(assoc (++)).
        apply sublist_app; [done|]. by apply sublist_inserts_l.
Qed.

(** What was written is read back frame by frame. *)
Lemma reads_frames {rlaws : CodecLaws (EngineResponse D)} input l tail :
  Forall sendable l -> forall pre, input = pre ++ frames l ++ tail ->
  forall before, reads input before (frames l ++ tail) -> reads input (before ++ l) tail.
Proof.
  induction 1 as [|r l (p & Hp & Hlen) _ IH]; intros pre Hin before Hb; [by rewrite app_nil_r|].
  assert (frames (r :: l) ++ tail = frame r ++ frames l ++ tail) as Hf.
  { unfold frames. cbn. by rewrite <-(assoc (++)). }
  rewrite Hf in Hin, Hb. rewrite (assoc (++) before [r] l : before ++ r :: l = _).
  apply (IH (pre ++ frame r)); [by rewrite Hin, <-(assoc (++))|].
  econstructor; [exact Hb|]. unfold frame. rewrite Hp. cbn. rewrite <-(assoc (++)).
  by apply read_json_frame_written.
Qed.

Lemma client_reads {rlaws : CodecLaws (EngineResponse D)} i log sent c wrote :
  stream_ok i log sent c wrote ->
  exists tail, reads (cn_written c) wrote tail /\ (cn_writer c = WtRunning -> tail = []).
Proof.
  intros [H0 [[tail Ht] _] H2 _ _ _].
  exists tail. split.
  - apply (reads_frames _ wrote tail H0 [] Ht []). rewrite <-Ht. constructor.
  - intros Hr. destruct (H2 Hr) as [Hw _]. rewrite Hw in Ht.
    apply (f_equal length) in Ht. rewrite length_app in Ht. apply length_zero_iff_nil. lia.
Qed.
End Connection.

(** ** All connections *)

(** What each client sends, in the order of the connections. *)
Definition accepted (ss : list SvStep) : list bytes :=
  omap (fun s => match s with SvAccept true reader _ => Some reader | _ => None end) ss.

Section Connections.
Context {D : Type} {dops : DecimalOps D}.
Context {W : Type} {wal : CommandLog W (WalCommand D)}.
Context {ecodec : Codec (SequencedEngineEvent D)}.
Context {reqcodec : Codec (EngineRequest D)} {respcodec : Codec (EngineResponse D)}.
Context {Ch Rx : Type} {bc : BroadcastOps (SequencedEngineEvent D) Ch Rx}.
Context {views : BroadcastViews (SequencedEngineEvent D) Ch Rx}.
Context {laws : BroadcastLaws (SequencedEngineEvent D) Ch Rx}.
Context (fuel : nat) (next_uuid : nat -> Uuid) (now_rfc3339 : nat -> string).
Abbreviation State := (EngineState D W).
Abbreviation Server := (Server D W Ch Rx).
Abbreviation Served := (list (nat * (EngineRequest D * result ServerError (ResponseBundle D)))).
Abbreviation run := (sv_run fuel next_uuid now_rfc3339).
Abbreviation chain := (chain fuel next_uuid now_rfc3339).
Abbreviation conn_ok := (conn_ok (Ch := Ch)).
Implicit Types (log : Served) (sv : Server).

(** Freshly started on a state. *)
Definition server_new (st : State) : Server :=
  mkServer st (broadcast_channel EVENT_CHANNEL_CAPACITY) [].

Record sv_ok (st0 : State) (inputs : list bytes) log
    (tagged : list (nat * SequencedEngineEvent D)) sv : Prop := {
  so_chain : chain st0 log (sv_state sv);
  so_sent : bc_sent (sv_events sv) = tagged.*2;
  so_length : length inputs = length (sv_conns sv);
  so_log : Forall (fun e => (e.1 < length inputs)%nat) log;
  so_tagged : Forall (fun e => (e.1 < length inputs)%nat) tagged;
  so_conns i c : sv_conns sv !! i = Some c ->
    exists input, inputs !! i = Some input /\ conn_ok i input log tagged c;
}.

Lemma chain_answers st0 log st i : chain st0 log st -> Forall answering (answers_of i log).
Proof.
  induction 1 as [|log st j req r st' _ IH Hh]; [constructor|].
  destruct (decide (j = i)) as [<-|Hne].
  - destruct (answers_of_snoc j log (j, (req, r)) eq_refl) as (_ & -> & _). apply Forall_app.
    split; [done|]. destruct r as [b|e]; [|constructor]. apply Forall_singleton.
    apply handle_answer in Hh. unfold answering. cbn. by destruct (rb_response b).
  - unfold answers_of, bundles_of in *. by rewrite at_conn_app, at_conn_other, app_nil_r by done.
Qed.

Lemma ok_accept st0 inputs log tagged sv reader quota :
  sv_ok st0 inputs log tagged sv ->
  sv_ok st0 (inputs ++ [reader]) log tagged
    (mkServer (sv_state sv) (sv_events sv) (sv_conns sv ++ [accept reader quota (sv_events sv)])).
Proof.
  intros [Hc Hs Hlen Hlog Htag Hconns].
  assert (forall A (l : list (nat * A)), Forall (fun e => (e.1 < length inputs)%nat) l ->
    Forall (fun e => (e.1 < length (inputs ++ [reader]))%nat) l) as Hmono.
  { intros A l Hl. eapply Forall_impl; [exact Hl|]. intros e. rewrite length_app. cbn. lia. }
  split; cbn; [done|done| |by apply Hmono|by apply Hmono|].
  - rewrite !length_app. cbn. lia.
  - intros i c [Hi|[Hge Hi]]%lookup_app_Some.
    + destruct (Hconns i c Hi) as (input & Hin & Hok). exists input. split; [|done].
      by apply lookup_app_l_Some.
    + apply list_lookup_singleton_Some in Hi as [Hi <-].
      assert (i = length inputs) as -> by lia. exists reader. split.
      { by rewrite lookup_app_r, Nat.sub_diag by lia. }
      unfold answers_of, announced_by, bundles_of, requests_of. split.
      * unfold requests_of. rewrite (at_conn_fresh _ log) by done. constructor.
      * exists []. unfold answers_of, bundles_of. split; cbn; unfold answers_of, bundles_of;
          rewrite ?(at_conn_fresh _ log), ?subscribe_next, ?Hs by done; cbn; try done.
        apply sublist_nil_l.
      * exists []. unfold announced_by, bundles_of.
        by rewrite (at_conn_fresh _ log), (at_conn_fresh _ tagged) by done.
Qed.

(** Replacing one connection. *)
Lemma ok_replace st0 inputs log tagged sv i c c' :
  sv_ok st0 inputs log tagged sv -> sv_conns sv !! i = Some c ->
  (forall input, conn_ok i input log tagged c -> conn_ok i input log tagged c') ->
  sv_ok st0 inputs log tagged (with_conn i c' sv).
Proof.
  intros [Hc Hs Hlen Hlog Htag Hconns] Hi Hok. split; cbn; [done|done| |done|done|].
  - by rewrite length_insert.
  - intros j d [(<- & <- & _)|[_ Hj]]%list_lookup_insert_Some; [|by apply Hconns].
    destruct (Hconns i c Hi) as (input & Hin & Hco). exists input. auto.
Qed.

Lemma ok_main st0 inputs log tagged sv i c st ch c' :
  sv_ok st0 inputs log tagged sv -> sv_conns sv !! i = Some c ->
  handle_connection fuel next_uuid now_rfc3339 (sv_state sv) (sv_events sv) c = Some (st, ch, c') ->
  exists log' tagged', sv_ok st0 inputs log' tagged' (mkServer st ch (<[i := c']> (sv_conns sv))).
Proof.
  intros [Hc Hs Hlen Hlog Htag Hconns] Hi Hh.
  destruct (Hconns i c Hi) as (input & Hin & Hco).
  assert (i < length inputs)%nat as Hlt by (by eapply lookup_lt_Some).
  pose proof (main_ok fuel next_uuid now_rfc3339 i input log tagged _ _ _ _ _ _ Hco
    (chain_answers _ _ _ i Hc) Hh) as (entry & es & Hrep & Hsent & Hco').
  exists (log ++ entry), (tagged ++ (pair i <$> es)).
  assert (forall e, e ∈ entry -> e.1 = i) as Hentry.
  { destruct Hrep as [[-> _]|(req & r & -> & _)]; [by intros ? ?%not_elem_of_nil|].
    by intros ? ->%list_elem_of_singleton. }
  split; cbn.
  - destruct Hrep as [[-> ->]|(req & r & -> & Hr)]; [by rewrite app_nil_r|by econstructor].
  - rewrite Hsent, Hs, fmap_app, <-list_fmap_compose. f_equal. by rewrite list_fmap_id.
  - by rewrite length_insert.
  - apply Forall_app. split; [done|]. apply Forall_forall. intros e He. by rewrite (Hentry e He).
  - apply Forall_app. split; [done|]. apply Forall_forall. by intros e (x & -> & _)%list_elem_of_fmap.
  - intros j d [(<- & <- & _)|[Hne Hj]]%list_lookup_insert_Some; [by exists input|].
    destruct (Hconns j d Hj) as (inp & Hinp & Hd). exists inp. split; [done|].
    by apply (conn_other i).
Qed.

Lemma ok_step st0 inputs log tagged sv s sv' :
  sv_ok st0 inputs log tagged sv -> sv_step fuel next_uuid now_rfc3339 s sv = Some sv' ->
  exists log' tagged', sv_ok st0 (inputs ++ accepted [s]) log' tagged' sv'.
Proof.
  intros Hok Hs. destruct s as [[|] reader quota|i|i|i]; cbn in Hs |- *; rewrite ?app_nil_r.
  - simplify_eq. exists log, tagged. by apply ok_accept.
  - simplify_eq. by exists log, tagged.
  - destruct (sv_conns sv !! i) as [c|] eqn:Hi; [|done]. cbn in Hs.
    destruct (handle_connection _ _ _ _ _ c) as [[[st ch] c']|] eqn:Hh; [|done].
    cbn in Hs. simplify_eq. by eapply ok_main.
  - destruct (sv_conns sv !! i) as [c|] eqn:Hi; [|done]. cbn in Hs.
    destruct (forward_events _ c) as [c'|] eqn:Hh; [|done]. cbn in Hs. simplify_eq.
    exists log, tagged. eapply ok_replace; [done|done|]. intros input Hco.
    eapply forward_events_ok; [done|apply Hok|done].
  - destruct (sv_conns sv !! i) as [c|] eqn:Hi; [|done]. cbn in Hs.
    destruct (write_responses c) as [c'|] eqn:Hh; [|done]. cbn in Hs. simplify_eq.
    exists log, tagged. eapply ok_replace; [done|done|]. intros input Hco. by eapply writer_ok.
Qed.

Lemma ok_run ss st0 inputs log tagged sv sv' :
  sv_ok st0 inputs log tagged sv -> run ss sv = Some sv' ->
  exists log' tagged', sv_ok st0 (inputs ++ accepted ss) log' tagged' sv'.
Proof.
  revert inputs log tagged sv. induction ss as [|s ss IH]; intros inputs log tagged sv Hok;
    cbn [sv_run].
  { intros [= <-]. rewrite app_nil_r. eauto. }
  rewrite (omap_app _ [s] ss : accepted (s :: ss) = accepted [s] ++ accepted ss).
  destruct (sv_step _ _ _ s sv) as [sv1|] eqn:Hs; [|done]. cbn. intros Hr.
  destruct (ok_step _ _ _ _ _ _ _ Hok Hs) as (log1 & tagged1 & Hok1).
  destruct (IH _ _ _ _ Hok1 Hr) as (log2 & tagged2 & Hok2). exists log2, tagged2.
  by rewrite <-(assoc (++)) in Hok2.
Qed.

Lemma new_ok st : sv_ok st [] [] [] (server_new st).
Proof. split; cbn; [constructor|apply channel_sent|done|constructor|constructor|done]. Qed.

(** Answers name their requests, in order. *)
Lemma chain_ids st0 log st i :
  chain st0 log st ->
  omap response_id (answers_of i log) `sublist_of` request_id <$> requests_of i log.
Proof.
  induction 1 as [|log st j req r st' _ IH Hh]; [constructor|].
  destruct (decide (j = i)) as [<-|Hne].
  - destruct (answers_of_snoc j log (j, (req, r)) eq_refl) as (-> & -> & _). cbn.
    rewrite omap_app, fmap_app. apply sublist_app; [done|].
    destruct r as [b|e]; cbn; [|apply sublist_nil_l]. by rewrite (handle_answer _ _ _ _ _ _ _ Hh).
  - unfold answers_of, requests_of, bundles_of in *. by rewrite at_conn_app, at_conn_other, app_nil_r.
Qed.

(** The events of all answers, in the order of the lock. *)
Definition announced (log : Served) : list (SequencedEngineEvent D) :=
  log ≫= fun e => match e.2.2 with Ok b => rb_events b | Err _ => [] end.

Lemma chain_log {elaws : CodecLaws (SequencedEngineEvent D)} st0 log st es :
  chain st0 log st -> log_at st0 es -> Forall (fun e => exists b, e.2.2 = Ok b) log ->
  log_at st (es ++ announced log).
Proof.
  intros Hc Hl. induction Hc as [|log st j req r st' _ IH Hh]; intros Hok.
  { by rewrite app_nil_r. }
  apply Forall_app in Hok as [Hok [[b Hr] _]%Forall_cons]. cbn in Hr. subst r. unfold announced in *.
  rewrite bind_app, (assoc (++)). cbn. rewrite app_nil_r.
  eapply handle_request_grows; [by apply IH|exact Hh].
Qed.
End Connections.

(** ** The theorems *)

(** C10. Connections are served as if one after the other.  Whatever the schedule, the engine
    state is that of the requests handled one at a time, in the order in which they got the
    lock ([log]); those of a connection are the frames its client sent, in order.  What the
    client reads are answers to them, with their ids and in their order, with broadcast
    events in between in the order of the channel; while the writer runs nothing is lost:
    what it wrote, what waits for it and what is about to be sent are all the answers. *)
Theorem server_linearizes {D} {dops : DecimalOps D} {W} {wal : CommandLog W (WalCommand D)}
    {ecodec : Codec (SequencedEngineEvent D)} {reqcodec : Codec (EngineRequest D)}
    {respcodec : Codec (EngineResponse D)} {rlaws : CodecLaws (EngineResponse D)}
    {Ch Rx} {bc : BroadcastOps (SequencedEngineEvent D) Ch Rx}
    {views : BroadcastViews (SequencedEngineEvent D) Ch Rx}
    {laws : BroadcastLaws (SequencedEngineEvent D) Ch Rx}
    fuel next_uuid now_rfc3339 (st : EngineState D W) ss (sv : Server D W Ch Rx) :
  sv_run fuel next_uuid now_rfc3339 ss (server_new st) = Some sv ->
  exists log, chain fuel next_uuid now_rfc3339 st log (sv_state sv) /\
    forall i c, sv_conns sv !! i = Some c -> exists input read tail,
      accepted ss !! i = Some input /\ reads input (requests_of i log) (cn_reader c) /\
      omap response_id (answers_of i log) `sublist_of` request_id <$> requests_of i log /\
      reads (cn_written c) read tail /\
      answers read `prefix_of` answers_of i log /\
      events read `sublist_of` bc_sent (sv_events sv) /\
      (cn_writer c = WtRunning -> tail = [] /\
         answers (read ++ cn_queue c) ++ answer_due c = answers_of i log).
Proof.
  intros Hr. destruct (ok_run _ _ _ _ _ _ _ _ _ _ (new_ok _ _ _ st) Hr)
    as (log & tagged & [Hc Hs _ _ _ Hconns]).
  exists log. split; [exact Hc|]. intros i c Hi.
  destruct (Hconns i c Hi) as (input & Hin & [Hreads (wrote & Hst) _]).
  destruct (client_reads _ _ _ _ _ Hst) as (tail & Htail & Hrun).
  exists input, wrote, tail. split_and!; [done|done|by eapply chain_ids|done|apply Hst| |].
  - rewrite Hs. etrans; [|etrans; [apply (st_events _ _ _ _ _ Hst)|]].
    + rewrite events_app, <-(assoc (++)). by apply sublist_inserts_r.
    + unfold seen. destruct (cn_event_task c); [apply sublist_take..|done].
  - intros Hw. split; [by apply Hrun|]. by apply (st_running _ _ _ _ _ Hst).
Qed.

(** C11. Events are broadcast once and in order.  Whatever the schedule, the events broadcast
    on behalf of a connection, followed by those it is still to broadcast, are exactly the
    events of its answers, in order, unless it broke off while an answer was being sent:
    then the last of them are missing.  As long as no append fails, the event log of the
    engine gains the events of all answers in the order of the lock. *)
Theorem events_are_broadcast_in_order {D} {dops : DecimalOps D} {dlaws : DecimalLaws D}
    {W} {wal : CommandLog W (WalCommand D)}
    {ecodec : Codec (SequencedEngineEvent D)} {elaws : CodecLaws (SequencedEngineEvent D)}
    {reqcodec : Codec (EngineRequest D)} {respcodec : Codec (EngineResponse D)}
    {Ch Rx} {bc : BroadcastOps (SequencedEngineEvent D) Ch Rx}
    {views : BroadcastViews (SequencedEngineEvent D) Ch Rx}
    {laws : BroadcastLaws (SequencedEngineEvent D) Ch Rx}
    fuel next_uuid now_rfc3339 (st : EngineState D W) es ss (sv : Server D W Ch Rx) :
  log_at st es -> sv_run fuel next_uuid now_rfc3339 ss (server_new st) = Some sv ->
  exists log tagged, chain fuel next_uuid now_rfc3339 st log (sv_state sv) /\
    bc_sent (sv_events sv) = tagged.*2 /\
    (forall i c, sv_conns sv !! i = Some c -> exists lost,
       at_conn i tagged ++ events_due c ++ lost = announced_by i log /\
       (~ broke_off c -> lost = [])) /\
    (Forall (fun e => exists b, e.2.2 = Ok b) log -> log_at (sv_state sv) (es ++ announced log)).
Proof.
  intros Hl Hr. destruct (ok_run _ _ _ _ _ _ _ _ _ _ (new_ok _ _ _ st) Hr)
    as (log & tagged & [Hc Hs _ _ _ Hconns]).
  exists log, tagged. split_and!; [exact Hc|exact Hs| |].
  - intros i c Hi. destruct (Hconns i c Hi) as (input & _ & [_ _ He]). exact He.
  - intros Hok. by eapply chain_log.
Qed.

(** ** Samples *)

#[local] Existing Instances list_broadcast list_views list_laws.

#[local] Instance Request_ser : Ser (EngineRequest Z).
Proof.
  refine (Ser_iso
    (fun r => match r with
      | ReqPlace r => inl (pr_request_id r, pr_order r)
      | ReqCancel r => inr (inl (cr_request_id r, cr_symbol r, cr_order_id r))
      | ReqCancelAll r => inr (inr (inl (ca_request_id r, ca_user_id r, ca_symbol r)))
      | ReqHaltMarket r => inr (inr (inr (inl (mc_request_id r, mc_symbol r, true))))
      | ReqResumeMarket r => inr (inr (inr (inl (mc_request_id r, mc_symbol r, false))))
      | ReqSnapshot r => inr (inr (inr (inr (inl (sr_request_id r, sr_symbol r, sr_depth r)))))
      | ReqPing r => inr (inr (inr (inr (inr (pg_request_id r))))) end)
    (fun x => match x with
      | inl (i, o) => ReqPlace (mkPlace i o)
      | inr (inl (i, s, o)) => ReqCancel (mkCancel i s o)
      | inr (inr (inl (i, u, s))) => ReqCancelAll (mkCancelAll i u s)
      | inr (inr (inr (inl (i, s, b)))) =>
          if b : bool then ReqHaltMarket (mkControl i s) else ReqResumeMarket (mkControl i s)
      | inr (inr (inr (inr (inl (i, s, d))))) => ReqSnapshot (mkSnapshotReq i s d)
      | inr (inr (inr (inr (inr i)))) => ReqPing (mkPing i) end) _).
  by intros [[]|[]|[]|[]|[]|[]|[]].
Defined.

#[local] Instance OrderStatus_countable : Countable OrderStatus.
Proof.
  refine (inj_countable' (fun s => match s with StNew => 0 | StPartial => 1 | StFilled => 2
            | StCanceled => 3 | StRejected => 4 end)%nat
    (fun n => match n with 0 => StNew | 1 => StPartial | 2 => StFilled | 3 => StCanceled
              | _ => StRejected end)%nat _).
  by intros [].
Defined.

#[local] Instance Ack_ser : Ser (AckResult Z).
Proof.
  refine (Ser_iso
    (fun a => match a with
      | AckOrder a => inl (oa_order_id a, oa_status a, oa_fills a, oa_seq a)
      | AckCancel a => inr (inl (ck_order_id a, ck_status a, ck_seq a))
      | AckCancelAll a => inr (inr (inl (ak_order_ids a, ak_seq a)))
      | AckSnapshot b => inr (inr (inr (inl (bs_symbol b, bs_bids b, bs_asks b, bs_seq b))))
      | AckMarketStatus a => inr (inr (inr (inr (ms_symbol a, ms_status a, ms_seq a)))) end)
    (fun x => match x with
      | inl (i, s, f, n) => AckOrder (mkOrderAck i s f n)
      | inr (inl (i, s, n)) => AckCancel (mkCancelAck i s n)
      | inr (inr (inl (l, n))) => AckCancelAll (mkCancelAllAck l n)
      | inr (inr (inr (inl (s, b, a, n)))) => AckSnapshot (mkSnapshot s b a n)
      | inr (inr (inr (inr (s, t, n)))) => AckMarketStatus (mkStatusAck s t n) end) _).
  by intros [[]|[]|[]|[]|[]].
Defined.

#[local] Instance Response_ser : Ser (EngineResponse Z).
Proof.
  refine (Ser_iso
    (fun r => match r with
      | RespAck i a => inl (inl (i, a))
      | RespReject r => inl (inr (rj_request_id r, rj_code r, rj_message r))
      | RespEvent e => inr (inl e)
      | RespPong i => inr (inr i) end)
    (fun x => match x with
      | inl (inl (i, a)) => RespAck i a
      | inl (inr (i, c, m)) => RespReject (mkReject i c m)
      | inr (inl e) => RespEvent e
      | inr (inr i) => RespPong i end) _).
  by intros [|[]| |].
Defined.

#[local] Instance request_codec : Codec (EngineRequest Z) := ser_codec _.
#[local] Instance response_codec : Codec (EngineResponse Z) := ser_codec _.
#[local] Instance response_laws : CodecLaws (EngineResponse Z) := ser_codec_laws _.
#[local] Existing Instances event_codec event_codec_laws.

Abbreviation SampleServer := (Server Z Wal (ListChannel (SequencedEngineEvent Z)) nat).

Definition sample_run (ss : list SvStep) : option SampleServer :=
  sv_run (wal := wal_command_log (codec := wal_codec)) 60 N.of_nat (fun _ => "") ss
    (server_new fresh_engine).

Definition request_frame (r : EngineRequest Z) : bytes :=
  u32_to_be_bytes (Z.of_nat (length (put r))) ++ put r.

Definition sell_req : EngineRequest Z := place_req (order 1 11 Sell Limit (Some 10) 5).
Definition buy_req : EngineRequest Z := place_req (order 2 12 Buy Limit (Some 10) 3).

(** A client that sends one order and is forwarded the first event of it. *)
Definition one_client : list SvStep :=
  [SvAccept true (request_frame sell_req) []; SvMain 0; SvMain 0; SvWriter 0; SvMain 0;
   SvEvents 0; SvEvents 0; SvWriter 0].

Definition empty_server : SampleServer := server_new fresh_engine.
Definition one_client_server : SampleServer := default empty_server (sample_run one_client).

Lemma fresh_log : log_at (ecodec := event_codec) fresh_engine [].
Proof. by destruct (open_fresh_durable (wclaws := wal_codec_laws) (ecodec := event_codec) 60 1 10 fresh_engine eq_refl). Qed.

Lemma server_linearizes_witness :
  exists log, chain (wal := wal_command_log (codec := wal_codec)) 60 N.of_nat (fun _ => "")
    fresh_engine log (sv_state one_client_server).
Proof.
  destruct (server_linearizes (wal := wal_command_log (codec := wal_codec)) 60 N.of_nat
    (fun _ => "") fresh_engine one_client one_client_server) as (log & Hc & _).
  - vm_compute. reflexivity.
  - exists log. exact Hc.
Defined.

Lemma events_are_broadcast_in_order_witness :
  exists tagged : list (nat * SequencedEngineEvent Z),
    bc_sent (sv_events one_client_server) = tagged.*2.
Proof.
  destruct (events_are_broadcast_in_order (wal := wal_command_log (codec := wal_codec)) 60 N.of_nat
    (fun _ => "") fresh_engine [] one_client one_client_server) as (log & tagged & _ & H & _).
  - exact fresh_log.
  - vm_compute. reflexivity.
  - exists tagged. exact H.
Defined.

Definition sent_numbers (sv : SampleServer) : list Z := se_seq <$> bc_sent (sv_events sv).

(** ** Findings *)

(** A client that hangs up while its second order is served: the order is matched and in
    the event log, and its events are never broadcast, so settlement never sees them. *)
Example broken_connection_loses_events :
  (fun sv => (sent_numbers sv, el_sequence (es_event_log (sv_state sv)),
              cn_phase <$> sv_conns sv)) <$>
    sample_run [SvAccept true (request_frame sell_req ++ request_frame buy_req) [0%nat];
                SvMain 0; SvMain 0; SvMain 0; SvMain 0; SvWriter 0; SvMain 0] =
  Some ([1; 2; 3], 6, [Ended (Err CeSend)]).
Proof. vm_compute. reflexivity. Qed.

(** Between serving a request and broadcasting its events the lock is released: the events
    of a later request can overtake them. *)
Example events_overtake :
  sent_numbers <$>
    sample_run [SvAccept true (request_frame sell_req) []; SvAccept true (request_frame buy_req) [];
                SvMain 0; SvMain 1; SvMain 1; SvMain 1; SvMain 0; SvMain 0] =
  Some [4; 5; 6; 1; 2; 3].
Proof. vm_compute. reflexivity. Qed.

(** The server refuses every bind address but the loopback one. *)
Example only_loopback_is_served :
  run_listener (Ch := ListChannel (SequencedEngineEvent Z)) (Rx := nat) (wcodec := wal_codec)
    60 false None None [] [] 10 = Err NonLoopbackBind.
Proof. reflexivity. Qed.
