(* ===== verification/ApiBase.v ===== *)
(** * ApiBase: what the API handlers share

    [services/api/src/errors.rs], the world a handler runs in (database, engine
    connection, spawned tasks, identifiers) and the monad it is written in: unlike a
    transaction, a handler that fails keeps the statements it has already run. *)
From Stdlib Require Import Ascii.
From S2P Require Import Prelude Decimal Proto Numeric Database EngineClient.

Inductive ErrorCode :=
  InvalidEmail | WeakPassword | EmailTaken | InvalidCredentials | MfaRequired | MfaInvalid
| TokenExpired | TokenInvalid | Forbidden
| InsufficientBalance | MarketHalted | MarketUnknown | OrderNotFound | PostOnlyRejected
| FokNotFilled | SelfTradePrevented | StopPriceInvalid | LotSize | TickSize | MinNotional
| IdempotencyConflict
| RateLimited | SigTimestamp | SigReplay | SigInvalid
| NotFound | EngineTimeout | Internal.

(** [ApiError]; the structured details are left out. *)
Record ApiError := mkApiError {
  ae_status : nat;
  ae_code : ErrorCode;
  ae_message : string;
  ae_request_id : option Uuid;
}.

Definition api_error (status : nat) (code : ErrorCode) (message : string) : ApiError :=
  mkApiError status code message None.
Definition with_request_id (request_id : Uuid) (e : ApiError) : ApiError :=
  mkApiError (ae_status e) (ae_code e) (ae_message e) (Some request_id).
Definition internal : ApiError := api_error 500 Internal "Something went wrong".

(** [str::to_lowercase] and [str::to_uppercase]: the Unicode tables are a parameter, the
    laws give their ASCII part. *)
Class UnicodeCase := { to_lowercase : string -> string; to_uppercase : string -> string }.

Definition ascii_lower (c : ascii) : ascii :=
  let n := N_of_ascii c in
  if ((65 <=? n) && (n <=? 90))%N then ascii_of_N (n + 32) else c.
Definition ascii_upper (c : ascii) : ascii :=
  let n := N_of_ascii c in
  if ((97 <=? n) && (n <=? 122))%N then ascii_of_N (n - 32) else c.
Definition map_string (f : ascii -> ascii) (s : string) : string :=
  String.string_of_list_ascii (f <$> String.list_ascii_of_string s).
Definition is_ascii (s : string) : bool :=
  forallb (fun c => (N_of_ascii c <? 128)%N) (String.list_ascii_of_string s).

Class UnicodeCaseLaws {uc : UnicodeCase} := {
  to_lowercase_ascii s : is_ascii s = true -> to_lowercase s = map_string ascii_lower s;
  to_uppercase_ascii s : is_ascii s = true -> to_uppercase s = map_string ascii_upper s;
}.

(** [Decimal::from_str] and [Display]. *)
Class DecimalText (D : Type) := {
  parse_decimal : string -> option D;
  decimal_to_string : D -> string;
}.

(** A task handed to [tokio::spawn], still to run. *)
Record UnlockTask (D : Type) := mkUnlock {
  ul_user_id : Uuid; ul_asset_id : Uuid; ul_amount : D }.
Arguments mkUnlock {D}.
Arguments ul_user_id {D} _.
Arguments ul_asset_id {D} _.
Arguments ul_amount {D} _.

Record World (D J W : Type) := mkWorld {
  w_db : Db J;
  w_net : W;
  w_spawned : list (UnlockTask D);
  w_uuids : nat;
}.
Arguments mkWorld {D J W}.
Arguments w_db {D J W} _.
Arguments w_net {D J W} _.
Arguments w_spawned {D J W} _.
Arguments w_uuids {D J W} _.

(** [Uuid::new_v4]: the [n]th identifier generated. *)
Class UuidSource := { new_v4 : nat -> Uuid }.

Section Handlers.
Context {D J W : Type}.
Abbreviation World := (World D J W).

Definition Handler (A : Type) : Type := World -> result ApiError A * World.

Definition hret {A} (a : A) : Handler A := fun w => (Ok a, w).
Definition herr {A} (e : ApiError) : Handler A := fun w => (Err e, w).
Definition hbind {A B} (m : Handler A) (k : A -> Handler B) : Handler B :=
  fun w => match m w with (Ok a, w') => k a w' | (Err e, w') => (Err e, w') end.

(** [?] on a [Result], an [Option]. *)
Definition hresult {A} (r : result ApiError A) : Handler A := fun w => (r, w).
Definition hsome {A} (e : ApiError) (x : option A) : Handler A :=
  match x with Some a => hret a | None => herr e end.

(** One statement on the pool, its error left to the handler. *)
Definition stmt {A} (m : Tx J A) : Handler (result DbError A) :=
  fun w => let '(r, db') := run_stmt m (w_db w) in
    (Ok r, mkWorld db' (w_net w) (w_spawned w) (w_uuids w)).

(** One statement, any error mapped to [e]. *)
Definition stmt_or {A} (e : ApiError) (m : Tx J A) : Handler A :=
  hbind (stmt m) (fun r => match r with Ok a => hret a | Err _ => herr e end).

Definition engine {A} (f : W -> result EngineClientError A * W)
    : Handler (result EngineClientError A) :=
  fun w => let '(r, n) := f (w_net w) in
    (Ok r, mkWorld (w_db w) n (w_spawned w) (w_uuids w)).

Definition spawn (t : UnlockTask D) : Handler () :=
  fun w => (Ok (), mkWorld (w_db w) (w_net w) (w_spawned w ++ [t]) (w_uuids w)).

Definition fresh_uuid {us : UuidSource} : Handler Uuid :=
  fun w => (Ok (new_v4 (w_uuids w)), mkWorld (w_db w) (w_net w) (w_spawned w) (S (w_uuids w))).
End Handlers.
Arguments Handler D J W A : clear implicits.

Declare Scope handler_scope.
Delimit Scope handler_scope with handler.
Notation "'let*' x := m 'in' k" := (hbind m (fun x => k))
  (at level 10, x pattern, m at level 100, k at level 200) : handler_scope.
Notation "m ;;; k" := (hbind m (fun _ => k)) (at level 100, k at level 200) : handler_scope.
