(* ===== verification/ApiOrders.v ===== *)
(** * ApiOrders: the order endpoints of the API

    [services/api/src/repositories/orders.rs] and [handlers/orders.rs].  Every repository
    call is one statement in a transaction of its own; the handler is the sequence of
    them with the call to the engine in the middle.  The timestamps of the rows are left
    out; the paginated listing is in Markets.v.  At the end the faucet. *)
From S2P Require Import Prelude Decimal Proto Numeric Database Settlement.
From S2P Require Import EngineClient ApiBase.

Record ApiOrderRow (D : Type) := mkApiOrderRow {
  ar_id : Uuid;
  ar_user_id : Uuid;
  ar_market_id : Uuid;
  ar_symbol : string;
  ar_client_order_id : option string;
  ar_side : string;
  ar_order_type : string;
  ar_status : string;
  ar_price : option D;
  ar_stop_price : option D;
  ar_quantity : option D;
  ar_quote_quantity : option D;
  ar_display_quantity : option D;
  ar_filled_quantity : D;
  ar_avg_fill_price : option D;
}.
Arguments mkApiOrderRow {D}.
Arguments ar_id {D} _.
Arguments ar_symbol {D} _.
Arguments ar_client_order_id {D} _.
Arguments ar_side {D} _.
Arguments ar_order_type {D} _.
Arguments ar_status {D} _.
Arguments ar_price {D} _.
Arguments ar_stop_price {D} _.
Arguments ar_quantity {D} _.
Arguments ar_quote_quantity {D} _.
Arguments ar_filled_quantity {D} _.
Arguments ar_avg_fill_price {D} _.

Record InsertOrder (D : Type) := mkInsertOrder {
  io_id : Uuid;
  io_user_id : Uuid;
  io_market_id : Uuid;
  io_client_order_id : option string;
  io_side : string;
  io_order_type : string;
  io_status : string;
  io_price : option D;
  io_stop_price : option D;
  io_quantity : option D;
  io_quote_quantity : option D;
  io_display_quantity : option D;
}.
Arguments mkInsertOrder {D}.
Arguments io_id {D} _.
Arguments io_user_id {D} _.
Arguments io_market_id {D} _.
Arguments io_client_order_id {D} _.
Arguments io_side {D} _.
Arguments io_order_type {D} _.
Arguments io_status {D} _.
Arguments io_price {D} _.
Arguments io_stop_price {D} _.
Arguments io_quantity {D} _.
Arguments io_quote_quantity {D} _.
Arguments io_display_quantity {D} _.

(** The JSON body of [POST /orders]. *)
Record PlaceOrderInput := mkPlaceOrderInput {
  pi_client_order_id : option string;
  pi_market : string;
  pi_side : string;
  pi_order_type : string;
  pi_price : option string;
  pi_stop_price : option string;
  pi_quantity : option string;
  pi_quote_quantity : option string;
  pi_display_quantity : option string;
}.

Record FillResponse := mkFillResponse {
  fr_trade_id : Uuid; fr_price : string; fr_quantity : string; fr_side : string; fr_ts : string }.

Record OrderResponse := mkOrderResponse {
  or_id : Uuid;
  or_client_order_id : option string;
  or_market : string;
  or_side : string;
  or_order_type : string;
  or_status : string;
  or_price : option string;
  or_stop_price : option string;
  or_quantity : option string;
  or_quote_quantity : option string;
  or_filled_quantity : string;
  or_avg_fill_price : option string;
  or_fills : list FillResponse;
}.

Section Repository.
Context {D J : Type} {pg : PgDecimal D}.
Open Scope tx_scope.
Implicit Types db : Db J.

(** Decoding of the selected columns, by the client: the statement has run by then. *)
Definition decode_numeric (n : Z) : result DbError D :=
  match of_pg n with Some d => Ok d | None => Err ColumnDecode end.
Definition decode_nullable (x : option Z) : result DbError (option D) :=
  match x with None => Ok None | Some n => res_map Some (decode_numeric n) end.

(** An order row joined with its market. *)
Definition decode_row (i : Uuid) (o : OrderTab) (market : option MarketTab)
    : result DbError (ApiOrderRow D) :=
  (let? m := match market with Some m => Ok m | None => Err RowNotFound end in
   let? price := decode_nullable (ot_price o) in
   let? stop_price := decode_nullable (ot_stop_price o) in
   let? quantity := decode_nullable (ot_quantity o) in
   let? quote_quantity := decode_nullable (ot_quote_quantity o) in
   let? display_quantity := decode_nullable (ot_display_quantity o) in
   let? filled := decode_numeric (ot_filled_quantity o) in
   let? avg := decode_nullable (ot_avg_fill_price o) in
   Ok (mkApiOrderRow i (ot_user_id o) (ot_market_id o) (mt_symbol m) (ot_client_order_id o)
    (ot_side o) (ot_type o) (ot_status o) price stop_price quantity quote_quantity
    display_quantity filled avg))%rust.

Definition read_row (i : Uuid) (o : OrderTab) : Tx J (ApiOrderRow D) :=
  fun db => res_map (fun row => (row, db)) (decode_row i o (markets db !! ot_market_id o)).

(** The INSERT; the result is the inserted row and its market, still to be decoded. *)
Definition insert_pending (input : InsertOrder D) : Tx J (OrderTab * option MarketTab) :=
  let! side := cast order_side_labels (io_side input) in
  let! type := cast order_type_labels (io_order_type input) in
  let! status := cast order_status_labels (io_status input) in
  let! price := column_opt (to_pg <$> io_price input) in
  let! stop_price := column_opt (to_pg <$> io_stop_price input) in
  let! quantity := column_opt (to_pg <$> io_quantity input) in
  let! quote_quantity := column_opt (to_pg <$> io_quote_quantity input) in
  let! display_quantity := column_opt (to_pg <$> io_display_quantity input) in
  let o := mkOrderTab (io_user_id input) (io_market_id input) (io_client_order_id input)
    side type status price stop_price quantity quote_quantity display_quantity 0 None in
  insert_order_row false (io_id input) o ;;
  let! db := get in
  ret (o, markets db !! ot_market_id o).

(** The rows the WHERE clause selects; both keys are unique. *)
Definition find_by_id (order_id user_id : Uuid) : Tx J (option (ApiOrderRow D)) :=
  let! db := get in
  match orders db !! order_id with
  | Some o =>
      if bool_decide (ot_user_id o = user_id) then
        let! row := read_row order_id o in ret (Some row)
      else ret None
  | None => ret None
  end.

Definition find_by_client_order_id (user_id : Uuid) (client_order_id : string)
    : Tx J (option (ApiOrderRow D)) :=
  let! db := get in
  match head (filter (fun io => ot_user_id io.2 = user_id /\
                ot_client_order_id io.2 = Some client_order_id) (map_to_list (orders db))) with
  | Some (i, o) => let! row := read_row i o in ret (Some row)
  | None => ret None
  end.

Definition update_status (order_id : Uuid) (status : string) : Tx J () :=
  let! status := cast order_status_labels status in
  update_order_row order_id (set_status status).

(** Moves [amount] from available to locked if there is enough. *)
Definition try_lock_balance (user_id asset_id : Uuid) (amount : D) : Tx J bool :=
  let! db := get in
  match balances db !! (user_id, asset_id) with
  | Some b =>
      if to_pg amount <=? available b * GRID then
        set_balance (user_id, asset_id) (available b * GRID - to_pg amount)
          (locked b * GRID + to_pg amount) ;;
        ret true
      else ret false
  | None => ret false
  end.

Definition unlock_balance (user_id asset_id : Uuid) (amount : D) : Tx J () :=
  let! db := get in
  match balances db !! (user_id, asset_id) with
  | Some b =>
      set_balance (user_id, asset_id) (available b * GRID + to_pg amount)
        (locked b * GRID - to_pg amount) ;;
      ret ()
  | None => ret ()
  end.

(** [repositories/markets.rs]. *)
Definition get_market_assets (symbol : string) : Tx J (option (Uuid * Uuid * Uuid * string)) :=
  let! db := get in
  ret ((fun '(i, m) => (i, mt_base_asset_id m, mt_quote_asset_id m, mt_status m)) <$>
    head (filter (fun im => mt_symbol im.2 = symbol) (map_to_list (markets db)))).
End Repository.

Definition bad_request (message : string) (request_id : Uuid) : ApiError :=
  with_request_id request_id (api_error 400 Internal message).

Definition parse_side_type {uc : UnicodeCase} (side order_type : string) (request_id : Uuid)
    : result ApiError (OrderSide * EngineOrderType) :=
  let side := to_lowercase side in
  let order_type := to_lowercase order_type in
  let engine_side :=
    if bool_decide (side = "buy") then Ok WBuy
    else if bool_decide (side = "sell") then Ok WSell
    else Err (bad_request "side must be buy or sell" request_id) in
  let engine_type :=
    if bool_decide (order_type = "limit") then Ok WLimit
    else if bool_decide (order_type = "market") then Ok WMarket
    else if bool_decide (order_type = "ioc") then Ok WIoc
    else if bool_decide (order_type = "fok") then Ok WFok
    else if bool_decide (order_type = "post_only") then Ok WPostOnly
    else if bool_decide (order_type = "stop_limit") then Ok WStopLimit
    else if bool_decide (order_type = "stop_market") then Ok WStopMarket
    else if bool_decide (order_type = "oco") then Ok WOco
    else Err (bad_request "Unknown order type" request_id) in
  res_bind engine_side (fun s => res_bind engine_type (fun t => Ok (s, t))).

Definition parse_optional_decimal {D} {dt : DecimalText D} (raw : option string)
    (field : string) (request_id : Uuid) : result ApiError (option D) :=
  match raw with
  | None => Ok None
  | Some s =>
      match parse_decimal s with
      | Some d => Ok (Some d)
      | None => Err (bad_request (String.append "Invalid decimal for " field) request_id)
      end
  end.

Definition balance_lock_params {D} {dops : DecimalOps D} (side : OrderSide)
    (order_type : EngineOrderType) (price : option D) (quantity : D)
    (quote_quantity : option D) (base_asset_id quote_asset_id : Uuid)
    : option Uuid * option D :=
  match side, order_type with
  | _, (WStopLimit | WStopMarket) => (None, None)
  | WBuy, _ =>
      match price with
      | None =>
          match quote_quantity with
          | None => (None, None)
          | Some qq => (Some quote_asset_id, Some qq)
          end
      | Some p => (Some quote_asset_id, Some (dmul p quantity))
      end
  | WSell, _ => (Some base_asset_id, Some quantity)
  end.

Definition order_type_str (t : EngineOrderType) : string := order_type_db t.

(** [format!("{:?}", status).to_lowercase()]. *)
Definition status_debug (s : OrderStatus) : string :=
  match s with
  | StNew => "New" | StPartial => "Partial" | StFilled => "Filled"
  | StCanceled => "Canceled" | StRejected => "Rejected"
  end.
Definition side_debug (s : OrderSide) : string :=
  match s with WBuy => "Buy" | WSell => "Sell" end.

Definition map_engine_reject (code : string) (request_id : Uuid) : ApiError :=
  let e :=
    if bool_decide (code = "POST_ONLY_REJECTED") then
      api_error 409 PostOnlyRejected "Post-only order would cross the book"
    else if bool_decide (code = "FOK_NOT_FILLED") then
      api_error 409 FokNotFilled "FOK order could not be fully filled"
    else if bool_decide (code = "SELF_TRADE_PREVENTED") then
      api_error 409 SelfTradePrevented "Self-trade prevented"
    else if bool_decide (code = "STOP_PRICE_INVALID") then
      api_error 400 StopPriceInvalid "Stop price is on the wrong side of last price"
    else if bool_decide (code = "MARKET_HALTED") then
      api_error 409 MarketHalted "Market is halted"
    else api_error 400 Internal "Order rejected by engine" in
  with_request_id request_id e.

Section Handlers.
Context {D J W : Type} {dops : DecimalOps D} {pg : PgDecimal D} {dt : DecimalText D}
  {uc : UnicodeCase} {us : UuidSource} {transport : Transport D W}.
Open Scope handler_scope.
Abbreviation Handler := (Handler D J W).

Definition order_to_response (row : ApiOrderRow D) (fills : list (TradeFill D))
    : OrderResponse := {|
  or_id := ar_id row;
  or_client_order_id := ar_client_order_id row;
  or_market := ar_symbol row;
  or_side := ar_side row;
  or_order_type := ar_order_type row;
  or_status := ar_status row;
  or_price := decimal_to_string <$> ar_price row;
  or_stop_price := decimal_to_string <$> ar_stop_price row;
  or_quantity := decimal_to_string <$> ar_quantity row;
  or_quote_quantity := decimal_to_string <$> ar_quote_quantity row;
  or_filled_quantity := decimal_to_string (ar_filled_quantity row);
  or_avg_fill_price := decimal_to_string <$> ar_avg_fill_price row;
  or_fills := (fun f => mkFillResponse (tf_trade_id f) (decimal_to_string (tf_price f))
    (decimal_to_string (tf_quantity f)) (to_lowercase (side_debug (tf_taker_side f)))
    (tf_ts f)) <$> fills;
|}.

(** The decimals of the input, parsed in the order of the code. *)
Record ParsedInput := mkParsed {
  ps_side : OrderSide;
  ps_type : EngineOrderType;
  ps_price : option D;
  ps_stop_price : option D;
  ps_quote_quantity : option D;
  ps_display_quantity : option D;
  ps_effective_qty : D;
}.

(** Validation, from [parse_side_type] to the limit price check. *)
Definition validate_input (input : PlaceOrderInput) (request_id : Uuid)
    : result ApiError ParsedInput :=
  (let? side_type := parse_side_type (pi_side input) (pi_order_type input) request_id in
   let '(engine_side, engine_type) := side_type in
   let? price := parse_optional_decimal (pi_price input) "price" request_id in
   let? stop_price := parse_optional_decimal (pi_stop_price input) "stopPrice" request_id in
   let? quantity := parse_optional_decimal (pi_quantity input) "quantity" request_id in
   let? quote_quantity :=
     parse_optional_decimal (pi_quote_quantity input) "quoteQuantity" request_id in
   let? display_quantity :=
     parse_optional_decimal (pi_display_quantity input) "displayQuantity" request_id in
   let? effective_qty :=
     match engine_type, engine_side with
     | WMarket, WBuy =>
         match quote_quantity with
         | Some q => Ok q
         | None => Err (bad_request "Market buy requires quoteQuantity" request_id)
         end
     | WMarket, WSell =>
         match quantity with
         | Some q => Ok q
         | None => Err (bad_request "Market sell requires quantity" request_id)
         end
     | _, _ =>
         match quantity with
         | Some q => Ok q
         | None =>
             Err (bad_request "quantity is required for this order type" request_id)
         end
     end in
   if dleb effective_qty dzero then Err (bad_request "quantity must be positive" request_id)
   else if match engine_type with WLimit | WPostOnly | WIoc | WFok => true | _ => false end &&
           match price with None => true | Some _ => false end
   then Err (bad_request "price is required for this order type" request_id)
   else Ok (mkParsed engine_side engine_type price stop_price quote_quantity
              display_quantity effective_qty))%rust.

(** The request the engine gets. *)
Definition engine_request (order_id user_id request_id : Uuid) (symbol : string)
    (p : ParsedInput) : PlaceRequest D :=
  mkPlace request_id {|
    eo_id := order_id; eo_user_id := user_id; eo_symbol := symbol; eo_side := ps_side p;
    eo_order_type := ps_type p; eo_price := ps_price p; eo_quantity := ps_effective_qty p;
    eo_stp_mode := WDecrement; eo_stop_price := ps_stop_price p; eo_oco_linked_id := None;
    eo_display_qty := ps_display_quantity p |}.

(** The pending row of the order. *)
Definition pending_row (order_id user_id market_id : Uuid) (input : PlaceOrderInput)
    (p : ParsedInput) : InsertOrder D :=
  mkInsertOrder order_id user_id market_id (pi_client_order_id input)
    (to_lowercase (pi_side input)) (order_type_str (ps_type p)) "pending" (ps_price p)
    (ps_stop_price p) (Some (ps_effective_qty p)) (ps_quote_quantity p)
    (ps_display_quantity p).

Definition engine_failure (err : EngineClientError) (request_id : Uuid) : ApiError :=
  match err with
  | ClientTimeout =>
      with_request_id request_id
        (api_error 503 EngineTimeout "Engine did not respond in time")
  | ClientRejected code _ => map_engine_reject code request_id
  | _ => with_request_id request_id internal
  end.

(** From the lookup of the market on: the market and balance checks, the row, the engine. *)
Definition submit_order (user_id request_id : Uuid) (input : PlaceOrderInput)
    (symbol : string) (p : ParsedInput) : Handler (nat * OrderResponse) :=
  let internal_error := with_request_id request_id internal in
  let* found := stmt_or internal_error (get_market_assets symbol) in
  let* market := hsome (with_request_id request_id
                   (api_error 404 MarketUnknown "Market not found")) found in
  let '(market_id, base_asset_id, quote_asset_id, market_status) := market in
  if bool_decide (market_status = "halted" \/ market_status = "delisted") then
    herr (with_request_id request_id (api_error 409 MarketHalted "Market is halted"))
  else
  let lock := balance_lock_params (ps_side p) (ps_type p) (ps_price p) (ps_effective_qty p)
                (ps_quote_quantity p) base_asset_id quote_asset_id in
  match lock with
  | (Some asset_id, Some amount) =>
      let* locked := stmt_or internal_error (try_lock_balance user_id asset_id amount) in
      if locked : bool then hret () else
      herr (with_request_id request_id
              (api_error 402 InsufficientBalance "Insufficient balance"))
  | _ => hret ()
  end ;;;
  let* order_id := fresh_uuid in
  let* inserted := stmt_or internal_error
    (insert_pending (pending_row order_id user_id market_id input p)) in
  match decode_row (D := D) order_id inserted.1 inserted.2 with
  | Ok _ => hret ()
  | Err _ => herr internal_error
  end ;;;
  let* answer := engine (place (engine_request order_id user_id request_id symbol p)) in
  match answer with
  | Err err =>
      match lock with
      | (Some asset_id, Some amount) => spawn (mkUnlock user_id asset_id amount)
      | _ => hret ()
      end ;;;
      herr (engine_failure err request_id)
  | Ok ack =>
      stmt (update_status order_id (to_lowercase (status_debug (oa_status ack)))) ;;;
      let* row := stmt_or internal_error (find_by_id order_id user_id) in
      let* row := hsome internal_error row in
      hret (201%nat, order_to_response row (oa_fills ack))
  end.

(** [POST /orders]; [payload] is [None] when the body is not valid JSON. *)
Definition place_order (user_id request_id : Uuid) (payload : option PlaceOrderInput)
    : Handler (nat * OrderResponse) :=
  let* input := hsome (bad_request "Invalid JSON body" request_id) payload in
  let symbol := to_uppercase (pi_market input) in
  let* existing :=
    match pi_client_order_id input with
    | Some cid =>
        stmt_or (with_request_id request_id internal) (find_by_client_order_id user_id cid)
    | None => hret None
    end in
  match existing with
  | Some row => hret (200%nat, order_to_response row [])
  | None =>
      let* p := hresult (validate_input input request_id) in
      submit_order user_id request_id input symbol p
  end.

Definition order_not_found (request_id : Uuid) : ApiError :=
  with_request_id request_id (api_error 404 OrderNotFound "Order not found").

(** [GET /orders/:id]. *)
Definition get_order (user_id request_id order_id : Uuid) : Handler OrderResponse :=
  let* row := stmt_or (with_request_id request_id internal) (find_by_id order_id user_id) in
  let* row := hsome (order_not_found request_id) row in
  hret (order_to_response row []).

(** Cancelling maps a reject to the generic error. *)
Definition cancel_failure (err : EngineClientError) (request_id : Uuid) : ApiError :=
  match err with
  | ClientTimeout =>
      with_request_id request_id
        (api_error 503 EngineTimeout "Engine did not respond in time")
  | _ => with_request_id request_id internal
  end.

Definition final_status (s : string) : Prop := s = "filled" \/ s = "canceled" \/ s = "rejected".

#[export] Instance final_status_dec s : Decision (final_status s).
Proof. unfold final_status. apply _. Defined.

(** [DELETE /orders/:id]. *)
Definition cancel_order (user_id request_id order_id : Uuid) : Handler (nat * OrderResponse) :=
  let internal_error := with_request_id request_id internal in
  let* found := stmt_or internal_error (find_by_id order_id user_id) in
  let* row := hsome (order_not_found request_id) found in
  if decide (final_status (ar_status row)) then hret (200%nat, order_to_response row []) else
  let* answer := engine (cancel (mkCancel request_id (ar_symbol row) order_id)) in
  match answer with
  | Err err => herr (cancel_failure err request_id)
  | Ok ack =>
      stmt (update_status order_id (to_lowercase (status_debug (ck_status ack)))) ;;;
      let* updated := stmt_or internal_error (find_by_id order_id user_id) in
      hret (200%nat, order_to_response (default row updated) [])
  end.

(** [DELETE /orders]: only the engine is told. *)
Definition cancel_all_orders (user_id request_id : Uuid) (market : option string)
    : Handler (list Uuid) :=
  let* answer := engine (client_cancel_all
                   (mkCancelAll request_id user_id (to_uppercase <$> market))) in
  match answer with
  | Err err => herr (cancel_failure err request_id)
  | Ok ack => hret (ak_order_ids ack)
  end.

(** The next spawned unlock, once the runtime gets to it; its error is only logged. *)
Definition run_spawned (w : World D J W) : World D J W :=
  match w_spawned w with
  | [] => w
  | t :: ts =>
      mkWorld (run_stmt (unlock_balance (ul_user_id t) (ul_asset_id t) (ul_amount t)) (w_db w)).2
        (w_net w) ts (w_uuids w)
  end.
End Handlers.

(** * The faucet

    [apply_faucet] and [get_faucet_limit] of
    [services/api/src/repositories/account.rs] and the handler [faucet] of
    [services/api/src/handlers/account.rs]. *)

Record FaucetInput := mkFaucetInput { fi_asset : string; fi_amount : string }.

Record FaucetResponse := mkFaucetResponse {
  fa_deposit_id : Uuid; fa_asset : string; fa_amount : string; fa_available_after : string }.

Section Faucet.
Context {D J : Type} {pg : PgDecimal D}.
Open Scope tx_scope.

(** One transaction: the balance, the deposit row, the ledger entry. *)
Definition apply_faucet (user_id asset_id : Uuid) (amount : D) (deposit_id : Uuid) : Tx J D :=
  let k := (user_id, asset_id) in
  let! db := get in
  let! b := of_option RowNotFound (balances db !! k) in
  let! b' := set_balance k (available b * GRID + to_pg amount) (locked b * GRID) in
  let! new_available := of_option ColumnDecode (of_pg (available b')) in
  let! deposit_amount := column (to_pg amount) in
  insert_deposit_row deposit_id (mkDepositTab user_id asset_id deposit_amount "completed") ;;
  let! ledger_amount := column (to_pg amount) in
  insert_ledger_row (mkLedgerTab user_id asset_id "deposit" ledger_amount (available b')
    (locked b') "deposit" (Some deposit_id) None) ;;
  ret new_available.

(** The limit of an active asset. *)
Definition get_faucet_limit (asset_symbol : string) : Tx J (option (Uuid * D)) :=
  let! db := get in
  match head (filter (fun ia => at_symbol ia.2 = asset_symbol /\ at_status ia.2 = "active")
                (map_to_list (assets db))) with
  | Some (i, a) =>
      let! faucet_max := of_option ColumnDecode (of_pg (at_faucet_max a)) in
      ret (Some (i, faucet_max))
  | None => ret None
  end.
End Faucet.

Section Handler.
Context {D J W : Type} {dops : DecimalOps D} {pg : PgDecimal D} {dt : DecimalText D}
  {uc : UnicodeCase} {us : UuidSource}.
Open Scope handler_scope.

(** [POST /wallet/faucet]. *)
Definition faucet (user_id request_id : Uuid) (payload : option FaucetInput)
    : Handler D J W (nat * FaucetResponse) :=
  let* input := hsome (bad_request "Invalid JSON body" request_id) payload in
  let* amount := hsome (bad_request "Invalid amount format" request_id)
                   (parse_decimal (fi_amount input)) in
  if dleb amount dzero then herr (bad_request "Amount must be positive" request_id) else
  let* limit := stmt_or internal (get_faucet_limit (to_uppercase (fi_asset input))) in
  let* found := hsome (with_request_id request_id (api_error 404 NotFound "Asset not found"))
                  limit in
  let '(asset_id, faucet_max) := found in
  if dltb faucet_max amount then
    herr (with_request_id request_id (api_error 400 InsufficientBalance
      (String.append "Faucet limit is " (decimal_to_string faucet_max))))
  else
  let* deposit_id := fresh_uuid in
  let* new_available := stmt_or internal (apply_faucet user_id asset_id amount deposit_id) in
  hret (201%nat, mkFaucetResponse deposit_id (to_uppercase (fi_asset input))
    (decimal_to_string amount) (decimal_to_string new_available)).
End Handler.
