(* ===== verification/ApiLemmas.v ===== *)
(** * ApiLemmas: the statements of the order endpoints and what handlers leave alone *)
From S2P Require Import Prelude Decimal Proto Numeric Database Settlement Ledger.
From S2P Require Import SettleEvent EngineClient ApiBase ApiOrders.

(** ** Locking and unlocking *)

Section Locks.
Context {D J : Type} {pg : PgDecimal D}.
Implicit Types (db : Db J) (b : Balance).

(** The columns of a balance row are in range. *)
Definition stored b : Prop :=
  0 <= available b < NUMERIC_LIMIT /\ 0 <= locked b < NUMERIC_LIMIT.

Lemma try_lock_Ok u a (amount : D) db r db' :
  try_lock_balance u a amount db = Ok (r, db') ->
  (r = false /\ db' = db) \/
  (r = true /\ exists b, balances db !! (u, a) = Some b /\ to_pg amount <= available b * GRID /\
     0 <= round18 (available b * GRID - to_pg amount) /\
     0 <= round18 (locked b * GRID + to_pg amount) /\
     db' = with_balances (insert (u, a)
       (mkBalance (round18 (available b * GRID - to_pg amount))
                  (round18 (locked b * GRID + to_pg amount)))) db).
Proof.
  unfold try_lock_balance. intros H. tx_inv.
  destruct (balances db !! (u, a)) as [b|] eqn:E; [|by tx_inv; left].
  destruct (to_pg amount <=? available b * GRID) eqn:El; [|by tx_inv; left]. tx_inv.
  match goal with H : set_balance _ _ _ _ = Ok _ |- _ =>
    apply set_balance_Ok in H as (-> & ? & ? & ->) end.
  right. split; [done|]. exists b. split_and!; [done|lia|done..].
Qed.

Lemma unlock_Ok u a (amount : D) db r db' :
  unlock_balance u a amount db = Ok (r, db') ->
  db' = db \/
  exists b, balances db !! (u, a) = Some b /\
    0 <= round18 (available b * GRID + to_pg amount) /\
    0 <= round18 (locked b * GRID - to_pg amount) /\
    db' = with_balances (insert (u, a)
      (mkBalance (round18 (available b * GRID + to_pg amount))
                 (round18 (locked b * GRID - to_pg amount)))) db.
Proof.
  unfold unlock_balance. intros H. tx_inv.
  destruct (balances db !! (u, a)) as [b|] eqn:E; tx_inv; [|by left].
  match goal with H : set_balance _ _ _ _ = Ok _ |- _ =>
    apply set_balance_Ok in H as (-> & ? & ? & ->) end.
  right. by exists b.
Qed.

Lemma round18_sub a n : no_tie n -> round18 (a * GRID - n) = a - round18 n.
Proof.
  intros H. rewrite <- Z.add_opp_r, round18_add, round18_opp by auto with cex. lia.
Qed.

(** A successful statement that stores columns in range. *)
Lemma set_balance_run k a l db :
  0 <= round18 a < NUMERIC_LIMIT -> 0 <= round18 l < NUMERIC_LIMIT ->
  set_balance k a l db = Ok (mkBalance (round18 a) (round18 l),
    with_balances (insert k (mkBalance (round18 a) (round18 l))) db).
Proof.
  intros Ha Hl. unfold set_balance, column, to_column, bind, of_option, require, get, put, ret.
  replace (Z.abs (round18 a) <? NUMERIC_LIMIT) with true by lia.
  replace (Z.abs (round18 l) <? NUMERIC_LIMIT) with true by lia.
  unfold balance_checks. simpl. by replace ((0 <=? round18 a) && (0 <=? round18 l)) with true by lia.
Qed.

(** Unlocking undoes a lock, whatever happened to other tables in between. *)
Lemma unlock_after_lock u a (amount : D) db db1 db2 b :
  try_lock_balance u a amount db = Ok (true, db1) -> no_tie (to_pg amount) ->
  balances db !! (u, a) = Some b -> stored b -> balances db2 = balances db1 ->
  unlock_balance u a amount db2 = Ok ((), with_balances (fun _ => balances db) db2).
Proof.
  intros [[? _]|(_ & b' & Hb & _ & _ & _ & ->)]%try_lock_Ok Ht Hb' [Ha Hl] Hbs; [done|].
  assert (b' = b) as -> by congruence. clear Hb. simpl in Hbs.
  unfold unlock_balance, bind at 1, get. rewrite Hbs, lookup_insert_eq. simpl.
  rewrite round18_sub, round18_add by done.
  pose proof (round18_add (available b - round18 (to_pg amount)) (to_pg amount) Ht) as E1.
  pose proof (round18_sub (locked b + round18 (to_pg amount)) (to_pg amount) Ht) as E2.
  unfold bind. rewrite set_balance_run; [|lia..]. unfold ret. do 2 f_equal.
  unfold with_balances. rewrite Hbs, insert_insert_eq, E1, E2.
  replace (available b - round18 (to_pg amount) + round18 (to_pg amount)) with (available b) by lia.
  replace (locked b + round18 (to_pg amount) - round18 (to_pg amount)) with (locked b) by lia.
  replace (mkBalance (available b) (locked b)) with b by (by destruct b).
  by rewrite insert_id.
Qed.

(** Moving within an account keeps the ledger. *)
Lemma move_ledger_ok u a db b b' :
  ledger_ok db -> balances db !! (u, a) = Some b -> worth b' = worth b ->
  0 <= available b' -> 0 <= locked b' -> ledger_ok (with_balances (insert (u, a) b') db).
Proof.
  intros Hok Hb Hw Ha Hl k b1. simpl.
  intros [[<- <-]|[Hk Hb1]]%lookup_insert_Some; [|by apply Hok].
  rewrite Hw. by split; [apply Hok|].
Qed.

Lemma try_lock_ledger_ok u a (amount : D) db r db' :
  try_lock_balance u a amount db = Ok (r, db') -> no_tie (to_pg amount) ->
  ledger_ok db -> ledger_ok db'.
Proof.
  intros [[_ ->]|(_ & b & Hb & _ & H1 & H2 & ->)]%try_lock_Ok Ht Hok; [done|].
  eapply move_ledger_ok; [done..| |done|done].
  unfold worth. simpl. rewrite round18_sub, round18_add by done. lia.
Qed.

Lemma unlock_ledger_ok u a (amount : D) db r db' :
  unlock_balance u a amount db = Ok (r, db') -> no_tie (to_pg amount) ->
  ledger_ok db -> ledger_ok db'.
Proof.
  intros [->|(b & Hb & H1 & H2 & ->)]%unlock_Ok Ht Hok; [done|].
  eapply move_ledger_ok; [done..| |done|done].
  unfold worth. simpl. rewrite round18_sub, round18_add by done. lia.
Qed.
End Locks.

(** ** What a handler for one user and one new order may touch *)

Section Frame.
Context {J : Type} (u i : Uuid).
Implicit Types db : Db J.

Definition own_rows db db' : Prop :=
  users db' = users db /\ assets db' = assets db /\ markets db' = markets db /\
  trades db' = trades db /\ ledger_entries db' = ledger_entries db /\
  deposits db' = deposits db /\ engine_events db' = engine_events db /\
  worker_state db' = worker_state db /\
  (forall k, k.1 <> u -> balances db' !! k = balances db !! k) /\
  (forall j, j <> i -> orders db' !! j = orders db !! j).

#[export] Instance own_rows_preorder : PreOrder own_rows.
Proof.
  split; [done|]. unfold own_rows.
  intros ??? (?&?&?&?&?&?&?&?&B1&O1) (?&?&?&?&?&?&?&?&B2&O2). split_and!; try congruence.
  - intros k Hk. by rewrite B2, B1.
  - intros j Hj. by rewrite O2, O1.
Qed.

Lemma own_rows_balance a b db : own_rows db (with_balances (insert (u, a) b) db).
Proof.
  split_and!; try done. intros k Hk. simpl. rewrite lookup_insert_ne; [done|]. naive_solver.
Qed.

Lemma own_rows_order o db : own_rows db (with_orders (insert i o) db).
Proof. split_and!; try done. intros j Hj. simpl. by rewrite lookup_insert_ne. Qed.

Context {D : Type} {pg : PgDecimal D}.

Lemma try_lock_own a (amount : D) : steps own_rows (try_lock_balance (J := J) u a amount).
Proof.
  intros db r db' [[_ ->]|(_ & b & _ & _ & _ & _ & ->)]%try_lock_Ok; [done|].
  apply own_rows_balance.
Qed.

Lemma unlock_own a (amount : D) : steps own_rows (unlock_balance (J := J) u a amount).
Proof.
  intros db r db' [->|(b & _ & _ & _ & ->)]%unlock_Ok; [done|]. apply own_rows_balance.
Qed.

Lemma update_status_own s : steps own_rows (update_status (J := J) i s).
Proof.
  intros db r db' H. unfold update_status in H. tx_inv.
  match goal with H : update_order_row _ _ _ = _ |- _ =>
    apply update_order_row_Ok in H as [[_ ->]|(o & _ & _ & ->)] end; [done|].
  apply own_rows_order.
Qed.

Lemma insert_pending_own (input : InsertOrder D) :
  io_id input = i -> steps own_rows (insert_pending (J := J) input).
Proof.
  intros Hi db r db' H. unfold insert_pending in H. tx_inv.
  match goal with H : insert_order_row _ _ _ _ = _ |- _ =>
    apply insert_order_row_Ok in H as [(_ & ? & _)|(_ & _ & _ & ->)] end; [done|].
  rewrite Hi. apply own_rows_order.
Qed.

Lemma read_row_same j o db (row : ApiOrderRow D) db' :
  read_row j o db = Ok (row, db') -> db' = db.
Proof. unfold read_row. destruct (decode_row _ _ _); simpl; congruence. Qed.

Lemma find_by_id_same j v db (r : option (ApiOrderRow D)) db' :
  find_by_id j v db = Ok (r, db') -> db' = db.
Proof.
  unfold find_by_id. intros H. tx_inv. destruct (orders db !! j); [|by tx_inv].
  case_bool_decide; tx_inv; [|done].
  match goal with H : read_row _ _ _ = _ |- _ => by apply read_row_same in H end.
Qed.

Lemma find_by_client_same v c db (r : option (ApiOrderRow D)) db' :
  find_by_client_order_id v c db = Ok (r, db') -> db' = db.
Proof.
  unfold find_by_client_order_id. intros H. tx_inv. destruct (head _) as [[j o]|]; [|by tx_inv].
  tx_inv. match goal with H : read_row _ _ _ = _ |- _ => by apply read_row_same in H end.
Qed.
End Frame.

(** ** Handlers *)

Section HandlerFrame.
Context {D J W : Type}.
Implicit Types w : World D J W.

(** Every run relates the databases by [R]. *)
Definition hdb (R : relation (Db J)) {A} (m : Handler D J W A) : Prop :=
  forall w, R (w_db w) (w_db (m w).2).

(** No identifier is drawn. *)
Definition no_fresh {A} (m : Handler D J W A) : Prop := forall w, w_uuids (m w).2 = w_uuids w.

Context (R : relation (Db J)) `{!PreOrder R}.

Lemma hdb_bind {A B} (m : Handler D J W A) (k : A -> Handler D J W B) :
  hdb R m -> (forall a, hdb R (k a)) -> hdb R (hbind m k).
Proof.
  intros Hm Hk w. unfold hbind. specialize (Hm w). destruct (m w) as [[a|e] w1]; [|done].
  etrans; [exact Hm|apply Hk].
Qed.

Lemma hdb_stmt {A} (m : Tx J A) : steps R m -> hdb R (stmt m).
Proof.
  intros H w. unfold stmt, run_stmt, run_tx. simpl.
  destruct (m (w_db w)) as [[a db']|e] eqn:E; simpl; [by eapply H|done].
Qed.

Lemma hdb_stmt_or {A} e (m : Tx J A) : steps R m -> hdb R (stmt_or e m).
Proof.
  intros H. unfold stmt_or. apply hdb_bind; [by apply hdb_stmt|]. by intros [a|e'] w.
Qed.

Lemma hdb_ret {A} (a : A) : hdb R (hret a). Proof. by intros w. Qed.
Lemma hdb_err {A} e : hdb R (herr (A := A) e). Proof. by intros w. Qed.
Lemma hdb_result {A} (r : result ApiError A) : hdb R (hresult r). Proof. by intros w. Qed.
Lemma hdb_some {A} e (x : option A) : hdb R (hsome e x). Proof. by destruct x; intros w. Qed.
Lemma hdb_spawn t : hdb R (spawn t). Proof. by intros w. Qed.
Lemma hdb_engine {A} (f : W -> result EngineClientError A * W) : hdb R (engine f).
Proof. intros w. unfold engine. by destruct (f (w_net w)). Qed.
Lemma hdb_fresh {us : UuidSource} : hdb R fresh_uuid. Proof. by intros w. Qed.
End HandlerFrame.

Section NoFresh.
Context {D J W : Type}.

Lemma no_fresh_bind {A B} (m : Handler D J W A) (k : A -> Handler D J W B) :
  no_fresh m -> (forall a, no_fresh (k a)) -> no_fresh (hbind m k).
Proof.
  intros Hm Hk w. unfold hbind. specialize (Hm w). destruct (m w) as [[a|e] w1]; [|done].
  rewrite <- Hm. apply Hk.
Qed.

Lemma no_fresh_stmt {A} (m : Tx J A) : no_fresh (D := D) (W := W) (stmt m).
Proof. intros w. unfold stmt. by destruct (run_stmt m (w_db w)). Qed.

Lemma no_fresh_stmt_or {A} e (m : Tx J A) : no_fresh (D := D) (W := W) (stmt_or e m).
Proof. apply no_fresh_bind; [apply no_fresh_stmt|]. by intros [a|e'] w. Qed.

Lemma no_fresh_ret {A} (a : A) : no_fresh (D := D) (J := J) (W := W) (hret a).
Proof. done. Qed.
Lemma no_fresh_err {A} e : no_fresh (D := D) (J := J) (W := W) (herr (A := A) e).
Proof. done. Qed.
Lemma no_fresh_some {A} e (x : option A) : no_fresh (D := D) (J := J) (W := W) (hsome e x).
Proof. by destruct x. Qed.

(** [R i] for the first identifier drawn. *)
Definition hdb_fresh_id {us : UuidSource} (R : Uuid -> relation (Db J)) {A}
    (m : Handler D J W A) : Prop :=
  forall w, R (new_v4 (w_uuids w)) (w_db w) (w_db (m w).2).

Context {us : UuidSource} (R : Uuid -> relation (Db J)) `{!forall i, PreOrder (R i)}.

Lemma fresh_id_hdb {A} (m : Handler D J W A) : (forall i, hdb (R i) m) -> hdb_fresh_id R m.
Proof. intros Hm w. apply Hm. Qed.

Lemma fresh_id_bind {A B} (m : Handler D J W A) (k : A -> Handler D J W B) :
  (forall i, hdb (R i) m) -> no_fresh m -> (forall a, hdb_fresh_id R (k a)) ->
  hdb_fresh_id R (hbind m k).
Proof.
  intros Hm Hn Hk w. unfold hbind. specialize (Hm (new_v4 (w_uuids w)) w). specialize (Hn w).
  destruct (m w) as [[a|e] w1]; [|exact Hm]. simpl in *.
  etrans; [exact Hm|]. rewrite <- Hn. apply Hk.
Qed.

Lemma fresh_id_draw {A} (k : Uuid -> Handler D J W A) :
  (forall i, hdb (R i) (k i)) -> hdb_fresh_id R (hbind fresh_uuid k).
Proof.
  intros Hk w.
  exact (Hk (new_v4 (w_uuids w)) (mkWorld (w_db w) (w_net w) (w_spawned w) (S (w_uuids w)))).
Qed.
End NoFresh.

#[export] Hint Resolve hdb_ret hdb_err hdb_result hdb_some hdb_spawn hdb_engine hdb_stmt
  hdb_stmt_or hdb_fresh no_fresh_ret no_fresh_err no_fresh_some no_fresh_stmt
  no_fresh_stmt_or : tx.

(** Proves [hdb R m] and [no_fresh m] statement by statement. *)
Ltac handler_tac :=
  repeat first
    [ solve [eauto with tx typeclass_instances]
    | apply hdb_bind; [typeclasses eauto|..]
    | apply no_fresh_bind
    | lazymatch goal with |- forall _, _ => intros ? end
    | match goal with |- context [match ?x with _ => _ end] => destruct x end ].
