(* ===== verification/ApiSteps.v ===== *)
(** * ApiSteps: the order endpoint, step by step

    [place_order] opened up: what it may touch, the checks that refuse an order before
    anything is written ([refused]), and what follows them ([submit_open]). *)
From S2P Require Import Prelude Decimal Proto Numeric Database Settlement Ledger.
From S2P Require Import SettleEvent EngineClient ApiBase ApiOrders ApiLemmas.

Section Contained.
Context {D J W : Type} {dops : DecimalOps D} {pg : PgDecimal D} {dt : DecimalText D}
  {uc : UnicodeCase} {us : UuidSource} {transport : Transport D W}.
Implicit Types w : World D J W.

Lemma find_by_client_own u i v c :
  steps (own_rows u i) (find_by_client_order_id (D := D) (J := J) v c).
Proof. by intros db r db' ->%find_by_client_same. Qed.

Lemma find_by_id_own u i j v : steps (own_rows u i) (find_by_id (D := D) (J := J) j v).
Proof. by intros db r db' ->%find_by_id_same. Qed.

Lemma get_market_assets_own u i s : steps (own_rows u i) (get_market_assets (J := J) s).
Proof. intros db r db' H. unfold get_market_assets in H. by tx_inv. Qed.

Hint Resolve find_by_client_own find_by_id_own get_market_assets_own try_lock_own
  update_status_own insert_pending_own : tx.

Lemma submit_order_own u rid input sym p :
  hdb_fresh_id (own_rows u) (submit_order (D := D) (J := J) (W := W) u rid input sym p).
Proof.
  unfold submit_order.
  apply fresh_id_bind; [typeclasses eauto|handler_tac|handler_tac|]. intros found.
  apply fresh_id_bind; [typeclasses eauto|handler_tac|handler_tac|].
  intros [[[market_id base] quote] market_status].
  case_bool_decide; [apply fresh_id_hdb; handler_tac|].
  apply fresh_id_bind; [typeclasses eauto|handler_tac|handler_tac|]. intros _.
  apply fresh_id_draw. intros i.
  apply hdb_bind; [typeclasses eauto| |].
  - apply hdb_stmt_or; [typeclasses eauto|]. by apply insert_pending_own.
  - handler_tac.
Qed.

Lemma cancel_order_own u rid i :
  hdb (own_rows u i) (cancel_order (D := D) (J := J) (W := W) u rid i).
Proof. unfold cancel_order. handler_tac. Qed.

Lemma place_order_own u rid payload :
  hdb_fresh_id (own_rows u) (place_order (D := D) (J := J) (W := W) u rid payload).
Proof.
  unfold place_order.
  apply fresh_id_bind; [typeclasses eauto|handler_tac|handler_tac|]. intros input.
  apply fresh_id_bind; [typeclasses eauto|handler_tac|handler_tac|].
  intros [row|]; [apply fresh_id_hdb; handler_tac|].
  apply fresh_id_bind; [typeclasses eauto|handler_tac|by intros w|]. intros p.
  apply submit_order_own.
Qed.
End Contained.

Section Steps.
Context {D J W : Type}.
Implicit Types w : World D J W.

Lemma world_eta w : mkWorld (w_db w) (w_net w) (w_spawned w) (w_uuids w) = w.
Proof. by destruct w. Qed.

Lemma hbind_Ok {A B} (m : Handler D J W A) (k : A -> Handler D J W B) w a w' :
  m w = (Ok a, w') -> hbind m k w = k a w'.
Proof. unfold hbind. by intros ->. Qed.

Lemma hbind_Err {A B} (m : Handler D J W A) (k : A -> Handler D J W B) w e w' :
  m w = (Err e, w') -> hbind m k w = (Err e, w').
Proof. unfold hbind. by intros ->. Qed.

Lemma stmt_or_Ok {A} e (m : Tx J A) w a db' :
  m (w_db w) = Ok (a, db') ->
  stmt_or e m w = (Ok a, mkWorld db' (w_net w) (w_spawned w) (w_uuids w)).
Proof. intros H. unfold stmt_or, hbind, stmt, run_stmt, run_tx. by rewrite H. Qed.

Lemma stmt_or_Err {A} e (m : Tx J A) w e' :
  m (w_db w) = Err e' -> stmt_or e m w = (Err e, w).
Proof.
  intros H. unfold stmt_or, hbind, stmt, run_stmt, run_tx. rewrite H. by destruct w.
Qed.

Lemma stmt_or_read {A} e (m : Tx J A) w a :
  m (w_db w) = Ok (a, w_db w) -> stmt_or e m w = (Ok a, w).
Proof. intros H. rewrite (stmt_or_Ok e m w a (w_db w) H). by rewrite world_eta. Qed.
End Steps.

Section Refusals.
Context {D J W : Type} {dops : DecimalOps D} {pg : PgDecimal D} {dt : DecimalText D}
  {uc : UnicodeCase} {us : UuidSource} {transport : Transport D W}.
Implicit Types w : World D J W.
Context (u rid : Uuid).

(** No order of the caller has the client order id yet. *)
Definition new_client_id (input : PlaceOrderInput) (db : Db J) : Prop :=
  match pi_client_order_id input with
  | Some cid => find_by_client_order_id (D := D) u cid db = Ok (None, db)
  | None => True
  end.

(** The market the input names, and the lock its order needs. *)
Definition market_of (input : PlaceOrderInput) (db : Db J)
    (m : option (Uuid * Uuid * Uuid * string)) : Prop :=
  get_market_assets (to_uppercase (pi_market input)) db = Ok (m, db).
Definition lock_of (p : ParsedInput (D := D)) (base quote : Uuid) : option Uuid * option D :=
  balance_lock_params (ps_side p) (ps_type p) (ps_price p) (ps_effective_qty p)
    (ps_quote_quantity p) base quote.

Definition open_status (s : string) : Prop := ~ (s = "halted" \/ s = "delisted").

(** The checks of [place_order] before anything is written. *)
Inductive refused (db : Db J) : option PlaceOrderInput -> ApiError -> Prop :=
| RefusedBody : refused db None (bad_request "Invalid JSON body" rid)
| RefusedInput input e :
    new_client_id input db -> validate_input (D := D) input rid = Err e ->
    refused db (Some input) e
| RefusedMarket input p :
    new_client_id input db -> validate_input (D := D) input rid = Ok p ->
    market_of input db None ->
    refused db (Some input)
      (with_request_id rid (api_error 404 MarketUnknown "Market not found"))
| RefusedHalted input p m b q s :
    new_client_id input db -> validate_input (D := D) input rid = Ok p ->
    market_of input db (Some (m, b, q, s)) -> ~ open_status s ->
    refused db (Some input)
      (with_request_id rid (api_error 409 MarketHalted "Market is halted"))
| RefusedFunds input p m b q s asset amount :
    new_client_id input db -> validate_input (D := D) input rid = Ok p ->
    market_of input db (Some (m, b, q, s)) -> open_status s ->
    lock_of p b q = (Some asset, Some amount) ->
    match balances db !! (u, asset) with
    | Some bal => available bal * GRID < to_pg amount
    | None => True
    end ->
    refused db (Some input)
      (with_request_id rid (api_error 402 InsufficientBalance "Insufficient balance")).

(** With no earlier order of that client id, the handler is validation and submission. *)
Lemma place_order_new input w :
  new_client_id input (w_db w) ->
  place_order u rid (Some input) w =
    match validate_input input rid with
    | Ok p => submit_order u rid input (to_uppercase (pi_market input)) p w
    | Err e => (Err e, w)
    end.
Proof.
  unfold new_client_id, place_order. intros H. unfold hsome at 1.
  rewrite (hbind_Ok (hret input) _ w input w) by done. cbv zeta.
  destruct (pi_client_order_id input) as [cid|].
  - rewrite (hbind_Ok _ _ w None w) by by apply stmt_or_read.
    unfold hbind at 1, hresult. by destruct (validate_input input rid).
  - rewrite (hbind_Ok _ _ w None w) by done.
    unfold hbind at 1, hresult. by destruct (validate_input input rid).
Qed.

Lemma submit_market input sym (p : ParsedInput (D := D)) w m :
  get_market_assets sym (w_db w) = Ok (m, w_db w) ->
  match m with
  | None => submit_order u rid input sym p w =
      (Err (with_request_id rid (api_error 404 MarketUnknown "Market not found")), w)
  | Some (_, b, q, s) => ~ open_status s -> submit_order u rid input sym p w =
      (Err (with_request_id rid (api_error 409 MarketHalted "Market is halted")), w)
  end.
Proof.
  intros H. destruct m as [[[[m b] q] s]|].
  - intros Hs. unfold submit_order. cbv zeta.
    rewrite (hbind_Ok _ _ w (Some (m, b, q, s)) w) by by apply stmt_or_read.
    rewrite (hbind_Ok _ _ w (m, b, q, s) w) by done.
    rewrite bool_decide_true; [done|]. by apply dec_stable.
  - unfold submit_order. cbv zeta.
    rewrite (hbind_Ok _ _ w None w) by by apply stmt_or_read. done.
Qed.

(** What follows the market check. *)
Lemma submit_open input sym (p : ParsedInput (D := D)) w m b q s asset amount :
  get_market_assets sym (w_db w) = Ok (Some (m, b, q, s), w_db w) -> open_status s ->
  lock_of p b q = (Some asset, Some amount) ->
  (forall r db1, try_lock_balance u asset amount (w_db w) = Ok (r, db1) ->
   submit_order u rid input sym p w =
    if r then
      let order_id := new_v4 (w_uuids w) in
      let w1 := mkWorld db1 (w_net w) (w_spawned w) (S (w_uuids w)) in
      match insert_pending (pending_row order_id u m input p) db1 with
      | Err _ => (Err (with_request_id rid internal), w1)
      | Ok (raw, db2) =>
          let w2 := mkWorld db2 (w_net w) (w_spawned w) (S (w_uuids w)) in
          match decode_row (D := D) order_id raw.1 raw.2 with
          | Err _ => (Err (with_request_id rid internal), w2)
          | Ok _ =>
              let '(answer, net') := place (engine_request order_id u rid sym p) (w_net w) in
              match answer with
              | Err err =>
                  (Err (engine_failure err rid),
                   mkWorld db2 net' (w_spawned w ++ [mkUnlock u asset amount]) (S (w_uuids w)))
              | Ok ack =>
                  hbind (stmt (update_status order_id
                                 (to_lowercase (status_debug (oa_status ack))))) (fun _ =>
                  hbind (stmt_or (with_request_id rid internal) (find_by_id order_id u))
                    (fun row => hbind (hsome (with_request_id rid internal) row) (fun row =>
                       hret (201%nat, order_to_response row (oa_fills ack)))))
                    (mkWorld db2 net' (w_spawned w) (S (w_uuids w)))
              end
          end
      end
    else (Err (with_request_id rid (api_error 402 InsufficientBalance "Insufficient balance")),
          mkWorld db1 (w_net w) (w_spawned w) (w_uuids w))).
Proof.
  intros Hm Hs Hl r db1 Ht. unfold submit_order. cbv zeta.
  rewrite (hbind_Ok _ _ w (Some (m, b, q, s)) w) by by apply stmt_or_read.
  rewrite (hbind_Ok _ _ w (m, b, q, s) w) by done.
  rewrite bool_decide_false by done. unfold lock_of in Hl. rewrite Hl.
  destruct r.
  - erewrite hbind_Ok; [|erewrite hbind_Ok; [|by apply stmt_or_Ok]; done].
    unfold hbind at 1, fresh_uuid. cbn [w_uuids w_db w_net w_spawned].
    unfold hbind at 1, stmt_or at 1, hbind at 1, stmt at 1, run_stmt, run_tx.
    cbn [w_uuids w_db w_net w_spawned].
    destruct (insert_pending _ db1) as [[raw db2]|e]; [|done].
    cbv beta iota. unfold hret at 1, hbind at 1.
    destruct (decode_row (new_v4 (w_uuids w)) raw.1 raw.2) as [?|?]; [|done].
    unfold hret at 1, hbind at 1, engine. cbn [w_uuids w_db w_net w_spawned].
    destruct (place _ (w_net w)) as [[ack|err] net']; [done|]. done.
  - rewrite (hbind_Err _ _ w
      (with_request_id rid (api_error 402 InsufficientBalance "Insufficient balance"))
      (mkWorld db1 (w_net w) (w_spawned w) (w_uuids w))); [done|].
    by erewrite hbind_Ok; [|by apply stmt_or_Ok].
Qed.

Lemma try_lock_refused asset (amount : D) (db : Db J) :
  match balances db !! (u, asset) with
  | Some bal => available bal * GRID < to_pg amount
  | None => True
  end ->
  try_lock_balance u asset amount db = Ok (false, db).
Proof.
  unfold try_lock_balance, bind, get. destruct (balances db !! (u, asset)) as [bal|]; [|done].
  intros H. by replace (to_pg amount <=? available bal * GRID) with false by lia.
Qed.

Lemma refused_no_trace payload e w :
  refused (w_db w) payload e -> place_order u rid payload w = (Err e, w).
Proof.
  intros [|input e' Hc Hv|input p Hc Hv Hm|input p m b q s Hc Hv Hm Hs
         |input p m b q s asset amount Hc Hv Hm Hs Hl Hb]; [done|..];
    rewrite (place_order_new input w Hc), Hv; [done|..].
  - exact (submit_market input _ p w None Hm).
  - exact (submit_market input _ p w _ Hm Hs).
  - rewrite (submit_open input _ p w m b q s asset amount Hm Hs Hl false (w_db w));
      [by rewrite world_eta|]. by apply try_lock_refused.
Qed.
End Refusals.

(** ** After a successful submission *)

Section Submitted.
Context {D J W : Type} {dops : DecimalOps D} {pg : PgDecimal D} {dt : DecimalText D}
  {uc : UnicodeCase} {us : UuidSource} {transport : Transport D W}.
Implicit Types w : World D J W.

Lemma insert_pending_Ok (input : InsertOrder D) (db db' : Db J) raw :
  insert_pending input db = Ok (raw, db') ->
  exists o, db' = with_orders (insert (io_id input) o) db /\
    ot_user_id o = io_user_id input /\ ot_client_order_id o = io_client_order_id input /\
    ot_status o = io_status input /\ ot_filled_quantity o = 0 /\
    orders db !! io_id input = None /\
    (ot_client_order_id o <> None ->
       map_Forall (fun _ o' => (ot_user_id o', ot_client_order_id o') <>
                               (ot_user_id o, ot_client_order_id o)) (orders db)).
Proof.
  unfold insert_pending. intros H. tx_inv.
  match goal with H : insert_order_row _ _ _ _ = _ |- _ =>
    pose proof H as Hr; apply insert_order_row_Ok in H as [(_ & ? & _)|(_ & Hn & _ & ->)] end;
    [done|].
  eexists. split_and!; try done. intros Hc.
  unfold insert_order_row in Hr. tx_inv. rewrite Hn in *. tx_inv.
  repeat match goal with H : bool_decide _ = true |- _ => apply bool_decide_eq_true in H end.
  naive_solver.
Qed.

Lemma update_status_row (i : Uuid) s (db db' : Db J) x o :
  update_status i s db = Ok (x, db') -> orders db !! i = Some o ->
  db' = with_orders (insert i (set_status s o)) db.
Proof.
  unfold update_status. intros H Ho. tx_inv.
  match goal with H : update_order_row _ _ _ = _ |- _ =>
    apply update_order_row_Ok in H as [[? _]|(? & ? & _ & ->)] end; by simplify_eq.
Qed.

Lemma find_by_id_Ok (i v : Uuid) (db db' : Db J) (row : ApiOrderRow D) :
  find_by_id i v db = Ok (Some row, db') ->
  exists o, orders db !! i = Some o /\ ot_user_id o = v /\
    decode_row i o (markets db !! ot_market_id o) = Ok row.
Proof.
  unfold find_by_id. intros H. tx_inv. destruct (orders db !! i) as [o|] eqn:E; [|by tx_inv].
  case_bool_decide; tx_inv; [|done]. exists o. split_and!; [done..|].
  match goal with H : read_row _ _ _ = _ |- _ => unfold read_row in H end.
  destruct (decode_row _ _ _); naive_solver.
Qed.

(** A row of which there is only one is found by its client id. *)
Lemma find_by_client_unique (u : Uuid) cid i o (db : Db J) (row : ApiOrderRow D) :
  orders db !! i = Some o -> ot_user_id o = u -> ot_client_order_id o = Some cid ->
  (forall j o', orders db !! j = Some o' -> ot_user_id o' = u ->
     ot_client_order_id o' = Some cid -> j = i) ->
  decode_row i o (markets db !! ot_market_id o) = Ok row ->
  find_by_client_order_id u cid db = Ok (Some row, db).
Proof.
  intros Ho Hu Hc Huniq Hd. unfold find_by_client_order_id, bind, get.
  set (l := filter _ (map_to_list (orders db))).
  assert ((i, o) ∈ l) as Hin
    by (apply list_elem_of_filter; split; [done|by apply elem_of_map_to_list]).
  destruct l as [|[j o'] l'] eqn:El; [by apply not_elem_of_nil in Hin|]. simpl.
  assert ((j, o') ∈ l) as Hj by (rewrite El; left).
  apply list_elem_of_filter in Hj as [[Hu' Hc'] Hj%elem_of_map_to_list]. simpl in *.
  assert (j = i) as -> by eauto. simplify_eq. unfold read_row. by rewrite Hd.
Qed.
(** Cancelling reads and writes no balance. *)
Definition same_balances (db db' : Db J) : Prop := balances db' = balances db.

#[export] Instance same_balances_preorder : PreOrder same_balances.
Proof. split; [done|]. unfold same_balances. intros ??? -> ->. done. Qed.

Lemma update_status_balances i s : steps same_balances (update_status (J := J) i s).
Proof.
  intros db r db' H. unfold update_status in H. tx_inv.
  match goal with H : update_order_row _ _ _ = _ |- _ =>
    by apply update_order_row_Ok in H as [[_ ->]|(o & _ & _ & ->)] end.
Qed.

Lemma find_by_id_balances i v : steps same_balances (find_by_id (D := D) (J := J) i v).
Proof. by intros db r db' ->%find_by_id_same. Qed.

Hint Resolve update_status_balances find_by_id_balances : tx.

Lemma cancel_order_balances u rid i :
  hdb same_balances (cancel_order (D := D) (J := J) (W := W) u rid i).
Proof. unfold cancel_order. handler_tac. Qed.

(** Another user's order looks like none. *)
Lemma find_by_id_foreign (u i : Uuid) (db : Db J) :
  match orders db !! i with Some o => ot_user_id o <> u | None => True end ->
  find_by_id (D := D) i u db = Ok (None, db).
Proof.
  unfold find_by_id, bind, get. destruct (orders db !! i); [|done].
  intros H. by rewrite bool_decide_false.
Qed.

Lemma cancel_order_foreign u rid i w :
  match orders (w_db w) !! i with Some o => ot_user_id o <> u | None => True end ->
  cancel_order u rid i w = (Err (order_not_found rid), w).
Proof.
  intros H%find_by_id_foreign. unfold cancel_order. cbv zeta.
  by rewrite (hbind_Ok _ _ w None w) by by apply stmt_or_read.
Qed.

Lemma get_order_foreign u rid i w :
  match orders (w_db w) !! i with Some o => ot_user_id o <> u | None => True end ->
  get_order u rid i w = (Err (order_not_found rid), w).
Proof.
  intros H%find_by_id_foreign. unfold get_order.
  by rewrite (hbind_Ok _ _ w None w) by by apply stmt_or_read.
Qed.

Lemma hbind_inv {A B} (m : Handler D J W A) (k : A -> Handler D J W B) w b w' :
  hbind m k w = (Ok b, w') -> exists a w1, m w = (Ok a, w1) /\ k a w1 = (Ok b, w').
Proof. unfold hbind. destruct (m w) as [[a|e] w1]; [eauto|done]. Qed.

Lemma stmt_or_inv {A} e (m : Tx J A) w a w' :
  stmt_or e m w = (Ok a, w') ->
  exists db', m (w_db w) = Ok (a, db') /\ w' = mkWorld db' (w_net w) (w_spawned w) (w_uuids w).
Proof.
  unfold stmt_or. intros (r & w1 & H1 & H2)%hbind_inv. unfold stmt, run_stmt, run_tx in H1.
  destruct (m (w_db w)) as [[a' db']|e']; injection H1 as <- <-; [|done].
  injection H2 as <- <-. eauto.
Qed.

(** The row a submission leaves: found under its client id, and only there. *)
Definition order_found u input (row : ApiOrderRow D) (db : Db J) : Prop :=
  forall cid, pi_client_order_id input = Some cid ->
    find_by_client_order_id u cid db = Ok (Some row, db).

(** The end of a submission, from the inserted row on. *)
Lemma placed_row_found u i input (p : ParsedInput (D := D)) m db1 raw db2 db3 db4 row s :
  insert_pending (pending_row i u m input p) db1 = Ok (raw, db2) ->
  (update_status i s db2 = Ok ((), db3) \/ db3 = db2) ->
  find_by_id i u db3 = Ok (Some row, db4) -> order_found u input row db3.
Proof.
  intros (o & -> & Hu & Hc & _ & _ & Hfresh & Huniq)%insert_pending_Ok Hs Hf cid Hcid.
  simpl in *. apply find_by_id_Ok in Hf as (o' & Ho' & Hu' & Hd).
  assert (ot_client_order_id o' = Some cid /\
    forall j, j <> i -> orders db3 !! j = orders db1 !! j) as [Hc' Hsame].
  { destruct Hs as [Hs| ->].
    - apply (update_status_row _ _ _ _ _ o) in Hs as ->; [|by simpl; rewrite lookup_insert_eq].
      simpl in *. rewrite lookup_insert_eq in Ho'. simplify_eq. simpl. rewrite Hc.
      split; [done|]. intros j Hj. by rewrite !lookup_insert_ne.
    - simpl in *. rewrite lookup_insert_eq in Ho'. simplify_eq. rewrite Hc.
      split; [done|]. intros j Hj. by rewrite lookup_insert_ne. }
  eapply find_by_client_unique; [done..| |done].
  intros j oj Hj Huj Hcj. destruct (decide (j = i)) as [|Hne]; [done|]. exfalso.
  rewrite Hsame in Hj by done. rewrite Hc, Hcid in Huniq.
  apply (Huniq ltac:(done) _ _ Hj). simpl. congruence.
Qed.

Lemma submit_order_201 u rid input sym (p : ParsedInput (D := D)) w resp w' :
  submit_order u rid input sym p w = (Ok (201%nat, resp), w') ->
  exists row fills, resp = order_to_response row fills /\ order_found u input row (w_db w').
Proof.
  unfold submit_order. cbv zeta.
  intros (found & w1 & _ & H)%hbind_inv. apply hbind_inv in H as (mk & w2 & _ & H).
  destruct mk as [[[m b] q] st]. case_bool_decide; [done|].
  apply hbind_inv in H as (? & w3 & _ & H). apply hbind_inv in H as (i & w4 & _ & H).
  apply hbind_inv in H as (raw & w5 & (db2 & Hi & ->)%stmt_or_inv & H).
  apply hbind_inv in H as (? & w6 & Hd & H).
  assert (w6 = mkWorld db2 (w_net w4) (w_spawned w4) (w_uuids w4)) as ->
    by (destruct (decode_row _ _ _); simpl in Hd; unfold hret, herr in Hd; by simplify_eq). clear Hd.
  apply hbind_inv in H as (answer & w7 & Ha & H).
  unfold engine in Ha. cbn [w_net w_db w_spawned w_uuids] in Ha.
  destruct (place _ _) as [ans net']. simplify_eq.
  destruct answer as [ack|err]; [|by apply hbind_inv in H as (? & ? & _ & ?)].
  apply hbind_inv in H as (r & w8 & Hst & H).
  apply hbind_inv in H as (row & w9 & (db4 & Hf & ->)%stmt_or_inv & H).
  destruct row as [row|]; [|done]. unfold hsome, hbind, hret in H. simplify_eq. simpl.
  assert (db4 = w_db w8) as -> by by eapply find_by_id_same.
  exists row. eexists. split; [done|]. eapply placed_row_found; [exact Hi| |exact Hf].
  unfold stmt, run_stmt, run_tx in Hst. cbn [w_net w_db w_spawned w_uuids] in Hst.
  destruct (update_status _ _ db2) as [[[] db3]|e] eqn:E; simplify_eq; simpl; eauto.
Qed.
(** A 201 means that no order had the client id before, and one has it now. *)
Lemma place_order_201 u rid input w resp w' :
  place_order u rid (Some input) w = (Ok (201%nat, resp), w') ->
  exists row fills, resp = order_to_response (D := D) row fills /\
    order_found u input row (w_db w').
Proof.
  intros H. unfold place_order in H. rewrite (hbind_Ok _ _ w input w) in H by done. cbv zeta in H.
  apply hbind_inv in H as ([row|] & w1 & _ & H); [by simplify_eq|].
  apply hbind_inv in H as (p & w2 & Hp & H). by apply submit_order_201 in H.
Qed.

Lemma place_order_known u rid input input' cid row w :
  order_found u input row (w_db w) -> pi_client_order_id input = Some cid ->
  pi_client_order_id input' = Some cid ->
  place_order u rid (Some input') w = (Ok (200%nat, order_to_response row []), w).
Proof.
  intros Hf Hc Hc'. unfold place_order. rewrite (hbind_Ok _ _ w input' w) by done. cbv zeta.
  rewrite Hc'. rewrite (hbind_Ok _ _ w (Some row) w); [done|].
  apply stmt_or_read. by apply Hf.
Qed.

Lemma get_faucet_limit_same s (db db' : Db J) (r : option (Uuid * D)) :
  get_faucet_limit s db = Ok (r, db') -> db' = db.
Proof.
  unfold get_faucet_limit. intros H. tx_inv. destruct (head _) as [[? ?]|]; by tx_inv.
Qed.
End Submitted.
