(* ===== verification/ApiBooks.v ===== *)
(** * ApiBooks: the endpoints keep the books

    [books_ok] through every statement and handler of the API that moves money or order
    rows: every balance is the sum of its ledger entries, order rows agree with the trades,
    and of every asset the users hold what was deposited less the fees. *)
From S2P Require Import Prelude Decimal Proto Numeric Database Settlement Ledger.
From S2P Require Import SettleEvent SettleOrders EngineClient ApiBase ApiOrders.
From S2P Require Import ApiLemmas ApiSteps.

Section Books.
Context {J : Type}.
Implicit Types db : Db J.

Definition books_ok db : Prop := ledger_ok db /\ rows_ok db /\ solvent db.

Definition keeps db db' : Prop := books_ok db -> books_ok db'.

#[export] Instance keeps_preorder : PreOrder keeps.
Proof. split; unfold keeps; auto. Qed.

Context {D : Type} {pg : PgDecimal D}.

Lemma balance_keeps_rows k b db : rows_ok db -> rows_ok (with_balances (insert k b) db).
Proof. by apply rows_ok_eq. Qed.

Lemma try_lock_keeps u a (amount : D) :
  no_tie (to_pg amount) -> steps keeps (try_lock_balance (J := J) u a amount).
Proof.
  intros Ht db r db' H (Hl & Hr & Hs). split; [by eapply try_lock_ledger_ok|].
  apply try_lock_Ok in H as [[_ ->]|(_ & b & Hb & _ & _ & _ & ->)]; [done|].
  split; [by apply balance_keeps_rows|]. eapply accounted_solvent, Hs.
  eapply accounted_move; [exact Hb|].
  unfold worth. simpl. rewrite round18_sub, round18_add by done. lia.
Qed.

Lemma unlock_keeps u a (amount : D) :
  no_tie (to_pg amount) -> steps keeps (unlock_balance (J := J) u a amount).
Proof.
  intros Ht db r db' H (Hl & Hr & Hs). split; [by eapply unlock_ledger_ok|].
  apply unlock_Ok in H as [->|(b & Hb & _ & _ & ->)]; [done|].
  split; [by apply balance_keeps_rows|]. eapply accounted_solvent, Hs.
  eapply accounted_move; [exact Hb|].
  unfold worth. simpl. rewrite round18_sub, round18_add by done. lia.
Qed.

Lemma update_status_keeps i s : steps keeps (update_status (J := J) i s).
Proof.
  intros db r db' H (Hl & Hr & Hs). unfold update_status in H. tx_inv.
  match goal with H : update_order_row _ _ _ = _ |- _ =>
    apply update_order_row_Ok in H as [[_ ->]|(o & Ho & _ & ->)] end; [done|].
  split_and!; [by apply (ledger_ok_money db)|by apply rows_ok_status|done].
Qed.

Lemma insert_pending_keeps (input : InsertOrder D) : steps keeps (insert_pending (J := J) input).
Proof.
  intros db r db' (o & -> & _ & _ & _ & Hz & Hn & _)%insert_pending_Ok (Hl & Hr & Hs).
  split_and!; [by apply (ledger_ok_money db)|by apply rows_ok_new|done].
Qed.

Lemma find_by_client_keeps v c :
  steps keeps (find_by_client_order_id (D := D) (J := J) v c).
Proof. by intros db r db' ->%find_by_client_same. Qed.

Lemma find_by_id_keeps j v : steps keeps (find_by_id (D := D) (J := J) j v).
Proof. by intros db r db' ->%find_by_id_same. Qed.

Lemma get_market_assets_keeps s : steps keeps (get_market_assets (J := J) s).
Proof. intros db r db' H. unfold get_market_assets in H. by tx_inv. Qed.

Lemma get_faucet_limit_keeps s : steps keeps (get_faucet_limit (D := D) (J := J) s).
Proof.
  intros db r db' H. unfold get_faucet_limit in H. tx_inv.
  destruct (head _) as [[? ?]|]; by tx_inv.
Qed.

(** The faucet's transaction: the balance and its entry grow alike. *)
Lemma apply_faucet_Ok u a (amount : D) i db (x : D) db' :
  apply_faucet u a amount i db = Ok (x, db') ->
  exists b, balances db !! (u, a) = Some b /\
    let b' := mkBalance (round18 (available b * GRID + to_pg amount)) (locked b) in
    0 <= available b' /\ of_pg (available b') = Some x /\ 0 < round18 (to_pg amount) /\
    db' = with_ledger (fun ls => ls ++ [mkLedgerTab u a "deposit" (round18 (to_pg amount))
              (available b') (locked b) "deposit" (Some i) None])
            (with_deposits (insert i (mkDepositTab u a (round18 (to_pg amount)) "completed"))
              (with_balances (insert (u, a) b') db)).
Proof.
  unfold apply_faucet. intros H. tx_inv.
  match goal with H : set_balance _ _ _ _ = Ok _ |- _ =>
    apply set_balance_Ok in H as (-> & ? & ? & ->) end.
  match goal with H : insert_deposit_row _ _ _ = Ok _ |- _ =>
    unfold insert_deposit_row in H end. tx_inv.
  match goal with H : match ?x with _ => _ end _ = Ok _ |- _ => destruct x end; tx_inv.
  match goal with H : insert_ledger_row _ _ = Ok _ |- _ => apply insert_ledger_row_Ok in H as -> end.
  rewrite round18_grid in *. eexists. split; [eassumption|]. simpl in *.
  split_and!; [done|done|lia|done].
Qed.

Lemma apply_faucet_keeps u a (amount : D) i :
  no_tie (to_pg amount) -> steps keeps (apply_faucet (J := J) u a amount i).
Proof.
  intros Ht db x db' (b & Hb & Ha & _ & _ & ->)%apply_faucet_Ok (Hl & Hr & Hs).
  split_and!; [|by apply (rows_ok_eq db)|].
  2: { intros c. specialize (Hs c). simpl in *. rewrite issued_app. simpl.
       rewrite (asset_total_insert c (u, a) b) by done. rewrite Hs. unfold worth. simpl.
       rewrite round18_add by done. case_bool_decide; lia. }
  intros k b1 Hk. simpl in *. rewrite booked_app, booked_one. simpl.
  destruct (Hl _ _ Hb) as (Hw & _ & Hlk). unfold worth in *.
  apply lookup_insert_Some in Hk as [[<- <-]|[Hne Hk]].
  - rewrite bool_decide_true by done. simpl. rewrite round18_add in * by done. lia.
  - rewrite bool_decide_false by done. rewrite Z.add_0_r. by apply Hl.
Qed.
End Books.

#[export] Hint Resolve update_status_keeps insert_pending_keeps find_by_client_keeps
  find_by_id_keeps get_market_assets_keeps get_faucet_limit_keeps : tx.

Section Handlers.
Context {D J W : Type} {dops : DecimalOps D} {pg : PgDecimal D} {dt : DecimalText D}
  {uc : UnicodeCase} {us : UuidSource} {transport : Transport D W}.
Implicit Types w : World D J W.

(** What the input would lock is not half way between two column values. *)
Definition lock_exact (input : PlaceOrderInput) (rid : Uuid) : Prop :=
  forall p b q a amount, validate_input (D := D) input rid = Ok p ->
    lock_of p b q = (Some a, Some amount) -> no_tie (to_pg amount).

Lemma submit_order_keeps u rid input sym (p : ParsedInput (D := D)) :
  (forall b q a amount, lock_of p b q = (Some a, Some amount) -> no_tie (to_pg amount)) ->
  hdb keeps (submit_order (J := J) (W := W) u rid input sym p).
Proof.
  intros He. unfold submit_order. cbv zeta.
  apply hdb_bind; [typeclasses eauto|handler_tac|]. intros found.
  apply hdb_bind; [typeclasses eauto|handler_tac|]. intros [[[m b] q] s].
  case_bool_decide; [handler_tac|].
  apply hdb_bind; [typeclasses eauto| |intros _; handler_tac].
  specialize (He b q). unfold lock_of in He.
  destruct (balance_lock_params _ _ _ _ _ _ _) as [[a|] [amount|]]; try solve [handler_tac].
  apply hdb_bind; [typeclasses eauto| |handler_tac].
  apply hdb_stmt_or; [typeclasses eauto|]. apply try_lock_keeps. by eapply He.
Qed.

(** A known result in front of a continuation. *)
Lemma hdb_bind_known {A B} (R : relation (Db J)) (m : Handler D J W A) (a : A)
    (k : A -> Handler D J W B) :
  (forall w, m w = (Ok a, w)) -> hdb R (k a) -> hdb R (hbind m k).
Proof. intros Hm Hk w. rewrite (hbind_Ok m k w a w) by done. apply Hk. Qed.

Lemma place_order_keeps u rid payload :
  match payload with Some input => lock_exact input rid | None => True end ->
  hdb keeps (place_order (J := J) (W := W) u rid payload).
Proof.
  intros He. unfold place_order. destruct payload as [input|]; [|by intros w].
  apply (hdb_bind_known _ _ input); [done|]. cbv zeta.
  apply hdb_bind; [typeclasses eauto|handler_tac|]. intros [row|]; [handler_tac|].
  destruct (validate_input input rid) as [p|e] eqn:Ev; [|by intros w].
  apply (hdb_bind_known _ _ p); [done|]. apply submit_order_keeps.
  intros b q a amount Hl. by eapply (He p).
Qed.

Lemma cancel_order_keeps u rid i :
  hdb keeps (cancel_order (D := D) (J := J) (W := W) u rid i).
Proof. unfold cancel_order. handler_tac. Qed.

(** The unlocks waiting to run. *)
Definition tasks_exact (w : World D J W) : Prop :=
  Forall (fun t => no_tie (to_pg (ul_amount t))) (w_spawned w).

Lemma run_spawned_keeps w : tasks_exact w -> keeps (w_db w) (w_db (run_spawned w)).
Proof.
  unfold tasks_exact, run_spawned. destruct (w_spawned w) as [|t ts]; [by intros _|].
  intros [Ht _]%Forall_cons. simpl. unfold run_stmt, run_tx.
  destruct (unlock_balance _ _ _ _) as [[? db']|] eqn:E; simpl; [|by intros ?].
  by eapply (unlock_keeps _ _ _ Ht).
Qed.

Lemma faucet_keeps u rid payload :
  (forall input amount, payload = Some input -> parse_decimal (fi_amount input) = Some amount ->
     no_tie (to_pg amount)) ->
  hdb keeps (faucet (D := D) (J := J) (W := W) u rid payload).
Proof.
  intros He. unfold faucet. destruct payload as [input|]; [|by intros w].
  apply (hdb_bind_known _ _ input); [done|].
  destruct (parse_decimal (fi_amount input)) as [amount|] eqn:Ea; [|by intros w].
  apply (hdb_bind_known _ _ amount); [done|]. specialize (He input amount eq_refl Ea).
  case_match; [handler_tac|].
  apply hdb_bind; [typeclasses eauto|handler_tac|]. intros limit.
  apply hdb_bind; [typeclasses eauto|handler_tac|]. intros [asset faucet_max].
  case_match; [handler_tac|].
  apply hdb_bind; [typeclasses eauto|handler_tac|]. intros i.
  apply hdb_bind; [typeclasses eauto| |handler_tac].
  apply hdb_stmt_or; [typeclasses eauto|]. by apply apply_faucet_keeps.
Qed.
End Handlers.
