(* ===== verification/ApiProps.v ===== *)
(** * ApiProps: the correctness of the order and faucet endpoints

    Executable instances: whole numbers as decimal text, ASCII case, counted identifiers,
    and an engine connection that answers from a list. *)
From Stdlib Require Import Ascii.
From stdpp Require Import pretty.
From S2P Require Import Prelude Decimal Proto Numeric Database Settlement Ledger.
From S2P Require Import SettleEvent SettleRun SettleOrders SettleProps.
From S2P Require Import EngineClient ApiBase ApiOrders ApiLemmas ApiSteps ApiBooks.

#[export] Instance ascii_case : UnicodeCase := {|
  to_lowercase := map_string ascii_lower;
  to_uppercase := map_string ascii_upper;
|}.

#[export] Instance counted_uuids : UuidSource := {| new_v4 n := N.of_nat (500 + n) |}.

Fixpoint parse_digits (acc : Z) (l : list ascii) : option Z :=
  match l with
  | [] => Some acc
  | c :: l' =>
      let n := N_of_ascii c in
      if ((48 <=? n) && (n <=? 57))%N then parse_digits (10 * acc + Z.of_N (n - 48)) l'
      else None
  end.

(** Signed whole numbers. *)
#[export] Instance whole_numbers : DecimalText Z := {|
  parse_decimal s :=
    match String.list_ascii_of_string s with
    | [] => None
    | c :: l =>
        if ascii_dec c "-"%char then (fun n => - n * ONE) <$> parse_digits 0 l
        else (fun n => n * ONE) <$> parse_digits 0 (c :: l)
    end;
  decimal_to_string n := pretty (n / ONE);
|}.

(** The engine answers the given responses in turn and is silent afterwards. *)
#[export] Instance scripted : Transport Z (list (EngineResponse Z)) := {|
  send _ _ w := match w with [] => (Err ClientTimeout, []) | r :: w' => (Ok r, w') end;
|}.

Definition api_world (db : Db (WireEvent Z)) (answers : list (EngineResponse Z))
    : World Z (WireEvent Z) (list (EngineResponse Z)) := mkWorld db answers [] 0.

(** A limit buy of 2 at the given price. *)
Definition buy_two (cid : option string) (price : string) : PlaceOrderInput :=
  mkPlaceOrderInput cid "btcusdt" "Buy" "limit" (Some price) None (Some "2") None None.

Definition order_ack (i : Uuid) (s : OrderStatus) : EngineResponse Z :=
  RespAck 9%N (AckOrder {| oa_order_id := i; oa_status := s; oa_fills := []; oa_seq := 7 |}).

Example placed :
  let '(r, w) := place_order alice 9%N (Some (buy_two (Some "c1") "100"))
                   (api_world (sample_db []) [order_ack 500%N StNew]) in
  res_map fst r = Ok 201%nat /\
  balances (w_db w) !! (alice, usdt) = Some (mkBalance (col 800) (col 200)) /\
  ot_status <$> (orders (w_db w) !! 500%N) = Some "new".
Proof. vm_compute. done. Qed.

Example too_expensive :
  place_order alice 9%N (Some (buy_two None "600")) (api_world (sample_db []) []) =
  (Err (with_request_id 9%N (api_error 402 InsufficientBalance "Insufficient balance")),
   api_world (sample_db []) []).
Proof. vm_compute. done. Qed.

(** * The properties of the order and faucet endpoints *)

(** C19. An order request touches only what is its own: whatever [POST /orders] does, it
    changes no balance of another user, no order but the new one, and no trade, ledger
    entry, deposit, event or master data; [DELETE /orders/:id] changes no balance and no
    order but that one, and answers 404 with no effect at all when the order does not
    exist or is another user's. *)
Theorem orders_touch_only_own_rows {D J W} {dops : DecimalOps D} {pg : PgDecimal D}
    {dt : DecimalText D} {uc : UnicodeCase} {us : UuidSource} {transport : Transport D W}
    (u rid : Uuid) (w : World D J W) :
  (forall payload, own_rows u (new_v4 (w_uuids w)) (w_db w)
     (w_db (place_order u rid payload w).2)) /\
  (forall i, own_rows u i (w_db w) (w_db (cancel_order u rid i w).2) /\
     balances (w_db (cancel_order u rid i w).2) = balances (w_db w)) /\
  (forall i, match orders (w_db w) !! i with Some o => ot_user_id o <> u | None => True end ->
     cancel_order u rid i w = (Err (order_not_found rid), w) /\
     get_order u rid i w = (Err (order_not_found rid), w)).
Proof.
  split_and!.
  - intros payload. apply place_order_own.
  - intros i. split; [apply cancel_order_own|apply cancel_order_balances].
  - intros i Hi. split; [by apply cancel_order_foreign|by apply get_order_foreign].
Qed.

(** C20. A refused order leaves no trace: when the body or the input is invalid, the market
    unknown or halted, or the balance to lock too small, the answer is the matching error
    and nothing has happened: no row, no lock, no identifier drawn, no word to the engine. *)
Theorem refused_order_leaves_no_trace {D J W} {dops : DecimalOps D} {pg : PgDecimal D}
    {dt : DecimalText D} {uc : UnicodeCase} {us : UuidSource} {transport : Transport D W}
    (u rid : Uuid) (w : World D J W) payload (e : ApiError)
    (Hrefused : refused u rid (w_db w) payload e) :
  place_order u rid payload w = (Err e, w).
Proof. by apply refused_no_trace. Qed.

Lemma refused_order_leaves_no_trace_witness :
  place_order alice 9%N (Some (buy_two None "600")) (api_world (sample_db []) []) =
  (Err (with_request_id 9%N (api_error 402 InsufficientBalance "Insufficient balance")),
   api_world (sample_db []) []).
Proof.
  apply refused_order_leaves_no_trace.
  eapply (RefusedFunds _ _ _ _ (ok_or (mkParsed WBuy WLimit None None None None 0)
    (validate_input (buy_two None "600") 9%N)) btcusdt btc usdt "trading" usdt (dec 1200));
    [exact I|vm_compute; reflexivity..| |vm_compute; reflexivity|vm_compute; reflexivity].
  intros [H|H]; discriminate H.
Defined.

(** C21. When the engine refuses an order or does not answer, the funds come back.
    Suppose a valid order in an open market, its client order id new if it has one, its
    amount locked from a balance within its column and its row stored, with no other
    unlock waiting, is refused by the engine or gets no answer, and the locked amount
    does not lie half way between two values of the NUMERIC column: then the handler
    reports the failure, and once the unlock it spawned has run, as the next thing that
    happens, every balance is what it was before the request; what remains is the order
    row, pending. (An amount half way is rounded up when it is locked and when it is
    unlocked: [half_unit_lock_is_not_restored].) *)
Theorem engine_refusal_restores_funds {D J W} {dops : DecimalOps D} {pg : PgDecimal D}
    {dt : DecimalText D} {uc : UnicodeCase} {us : UuidSource} {transport : Transport D W}
    (u rid : Uuid) (input : PlaceOrderInput) (w : World D J W) (p : ParsedInput (D := D))
    m b q s asset amount bal db1 raw db2 row err net'
    (Hidle : w_spawned w = [])
    (Hnew : new_client_id (D := D) u input (w_db w))
    (Hvalid : validate_input input rid = Ok p)
    (Hmarket : market_of input (w_db w) (Some (m, b, q, s))) (Hopen : open_status s)
    (Hlock : lock_of p b q = (Some asset, Some amount)) (Hexact : no_tie (to_pg amount))
    (Hbal : balances (w_db w) !! (u, asset) = Some bal) (Hstored : stored bal)
    (Hlocked : try_lock_balance u asset amount (w_db w) = Ok (true, db1))
    (Hinsert : insert_pending (pending_row (new_v4 (w_uuids w)) u m input p) db1 = Ok (raw, db2))
    (Hdecode : decode_row (D := D) (new_v4 (w_uuids w)) raw.1 raw.2 = Ok row)
    (Hengine : place (engine_request (new_v4 (w_uuids w)) u rid
                 (to_uppercase (pi_market input)) p) (w_net w) = (Err err, net')) :
  exists w', place_order u rid (Some input) w = (Err (engine_failure err rid), w') /\
    balances (w_db (run_spawned w')) = balances (w_db w) /\
    w_spawned (run_spawned w') = [] /\
    ot_status <$> (orders (w_db (run_spawned w')) !! new_v4 (w_uuids w)) = Some "pending".
Proof.
  rewrite (place_order_new u rid input w Hnew), Hvalid.
  rewrite (submit_open u rid input _ p w m b q s asset amount Hmarket Hopen Hlock true db1 Hlocked).
  cbv zeta. rewrite Hinsert, Hdecode, Hengine, Hidle. eexists. split; [done|].
  destruct (insert_pending_Ok _ _ _ _ Hinsert) as (o & -> & _ & _ & Hst & _).
  unfold run_spawned, run_stmt, run_tx.
  cbn [w_spawned w_db app ul_user_id ul_asset_id ul_amount].
  rewrite (unlock_after_lock u asset amount (w_db w) db1 _ bal) by done. simpl.
  split_and!; [done..|]. rewrite lookup_insert_eq. simpl. by rewrite Hst.
Qed.

(** Alice's order for 2 at 100; the engine is silent. *)
Definition silent_world := api_world (sample_db []) [].
Definition silent_input := buy_two None "100".
Definition silent_parsed : ParsedInput (D := Z) :=
  ok_or (mkParsed WBuy WLimit None None None None 0) (validate_input silent_input 9%N).
Definition silent_locked : Db (WireEvent Z) :=
  (ok_or (true, sample_db []) (try_lock_balance alice usdt (dec 200) (sample_db []))).2.
Definition silent_pending := pending_row 500%N alice btcusdt silent_input silent_parsed.
Definition silent_inserted : (OrderTab * option MarketTab) * Db (WireEvent Z) :=
  ok_or ((mkOrderTab 0%N 0%N None "" "" "" None None None None None 0 None, None), sample_db [])
    (insert_pending silent_pending silent_locked).
Definition silent_row : ApiOrderRow Z :=
  ok_or (mkApiOrderRow 0%N 0%N 0%N "" None "" "" "" None None None None None 0 None)
    (decode_row 500%N silent_inserted.1.1 silent_inserted.1.2).

Lemma engine_refusal_restores_funds_witness :
  exists w', place_order alice 9%N (Some silent_input) silent_world =
      (Err (engine_failure ClientTimeout 9%N), w') /\
    balances (w_db (run_spawned w')) = balances (w_db silent_world) /\
    w_spawned (run_spawned w') = [] /\
    ot_status <$> (orders (w_db (run_spawned w')) !! new_v4 (w_uuids silent_world)) =
      Some "pending".
Proof.
  apply (engine_refusal_restores_funds alice 9%N silent_input silent_world silent_parsed
    btcusdt btc usdt "trading" usdt (dec 200) (mkBalance (col 1000) 0) silent_locked
    silent_inserted.1 silent_inserted.2 silent_row ClientTimeout []).
  - reflexivity.
  - exact I.
  - vm_compute. reflexivity.
  - vm_compute. reflexivity.
  - intros [H|H]; discriminate H.
  - vm_compute. reflexivity.
  - apply (bool_decide_unpack _). vm_compute. exact I.
  - vm_compute. reflexivity.
  - unfold stored. vm_compute. repeat split; discriminate.
  - vm_compute. reflexivity.
  - vm_compute. reflexivity.
  - vm_compute. reflexivity.
  - vm_compute. reflexivity.
Defined.

(** C22. Retrying with a client order id is idempotent: once a request with that id has
    been answered 201, any further request of the user with it is answered 200 with the
    same order, whatever else it says, and has no effect at all. *)
Theorem client_order_id_is_idempotent {D J W} {dops : DecimalOps D} {pg : PgDecimal D}
    {dt : DecimalText D} {uc : UnicodeCase} {us : UuidSource} {transport : Transport D W}
    (u rid rid' : Uuid) (input input' : PlaceOrderInput) cid (w w' : World D J W) resp
    (Hcid : pi_client_order_id input = Some cid) (Hcid' : pi_client_order_id input' = Some cid)
    (Hplaced : place_order u rid (Some input) w = (Ok (201%nat, resp), w')) :
  exists row fills, resp = order_to_response row fills /\
    place_order u rid' (Some input') w' = (Ok (200%nat, order_to_response row []), w').
Proof.
  destruct (place_order_201 _ _ _ _ _ _ Hplaced) as (row & fills & -> & Hfound).
  exists row, fills. split; [done|]. by eapply place_order_known.
Qed.

Definition placed_world :=
  api_world (sample_db []) [order_ack 500%N StNew; order_ack 501%N StNew].
Definition placed_result := place_order alice 9%N (Some (buy_two (Some "c1") "100")) placed_world.
Definition placed_response : OrderResponse :=
  (ok_or (0%nat, mkOrderResponse 0%N None "" "" "" "" None None None None "" None [])
     placed_result.1).2.

Lemma client_order_id_is_idempotent_witness :
  exists row fills, placed_response = order_to_response row fills /\
    place_order alice 10%N (Some (buy_two (Some "c1") "7")) placed_result.2 =
      (Ok (200%nat, order_to_response row []), placed_result.2).
Proof.
  apply (client_order_id_is_idempotent alice 9%N 10%N (buy_two (Some "c1") "100")
    (buy_two (Some "c1") "7") "c1" placed_world placed_result.2 placed_response).
  - reflexivity.
  - reflexivity.
  - vm_compute. reflexivity.
Defined.

(** The endpoints keep the books: placing, cancelling, the faucet and the unlock task
    preserve the invariant of the ledger and of the order rows, on every path through the
    handlers, as long as no amount they move lies half way between two column values. *)
Theorem endpoints_keep_the_books {D J W} {dops : DecimalOps D} {pg : PgDecimal D}
    {dt : DecimalText D} {uc : UnicodeCase} {us : UuidSource} {transport : Transport D W}
    (u rid : Uuid) (w : World D J W) (Hbooks : books_ok (w_db w)) :
  (forall input, lock_exact (D := D) input rid ->
     books_ok (w_db (place_order u rid (Some input) w).2)) /\
  (forall i, books_ok (w_db (cancel_order u rid i w).2)) /\
  (forall input amount, parse_decimal (fi_amount input) = Some amount ->
     no_tie (to_pg amount) -> books_ok (w_db (faucet u rid (Some input) w).2)) /\
  (tasks_exact w -> books_ok (w_db (run_spawned w))).
Proof.
  split_and!.
  - intros input He. by apply (place_order_keeps u rid (Some input) He).
  - intros i. by apply (cancel_order_keeps u rid i).
  - intros input amount Hp Ht. apply (faucet_keeps u rid (Some input)); [|done].
    intros ?? [= <-] ?. by simplify_eq.
  - intros Ht. by apply run_spawned_keeps.
Qed.

Lemma endpoints_keep_the_books_witness :
  let w := silent_world in
  (forall input, lock_exact (D := Z) input 9%N ->
     books_ok (w_db (place_order alice 9%N (Some input) w).2)) /\
  (forall i, books_ok (w_db (cancel_order alice 9%N i w).2)) /\
  (forall input amount, parse_decimal (fi_amount input) = Some amount ->
     no_tie (to_pg amount) -> books_ok (w_db (faucet alice 9%N (Some input) w).2)) /\
  (tasks_exact w -> books_ok (w_db (run_spawned w))).
Proof.
  apply (endpoints_keep_the_books alice 9%N silent_world). split_and!.
  - apply (bool_decide_unpack _). vm_compute. exact I.
  - split; [constructor|constructor|constructor|done|done].
  - apply (bool_decide_unpack _). vm_compute. exact I.
Defined.

(** The faucet credits what it reports and never more than the limit: an accepted
    request moves exactly the requested amount, positive and at most the limit of an active
    asset, into the available balance of the caller and records it as one deposit and one
    ledger entry; a refused one changes no row. *)
Theorem faucet_credits_within_limit {D J W} {dops : DecimalOps D} {dlaws : DecimalLaws D}
    {pg : PgDecimal D} {dt : DecimalText D} {uc : UnicodeCase} {us : UuidSource}
    (u rid : Uuid) (payload : option FaucetInput) (w : World D J W) :
  match faucet u rid payload w with
  | (Err _, w') => w_db w' = w_db w
  | (Ok (code, resp), w') =>
      exists input amount asset faucet_max b,
        payload = Some input /\ parse_decimal (fi_amount input) = Some amount /\
        get_faucet_limit (to_uppercase (fi_asset input)) (w_db w) =
          Ok (Some (asset, faucet_max), w_db w) /\
        0 < units amount <= units faucet_max /\
        balances (w_db w) !! (u, asset) = Some b /\
        let a' := round18 (available b * GRID + to_pg amount) in
        w_db w' = with_ledger (fun ls => ls ++ [mkLedgerTab u asset "deposit"
              (round18 (to_pg amount)) a' (locked b) "deposit" (Some (fa_deposit_id resp)) None])
            (with_deposits (insert (fa_deposit_id resp)
                 (mkDepositTab u asset (round18 (to_pg amount)) "completed"))
              (with_balances (insert (u, asset) (mkBalance a' (locked b))) (w_db w)))
  end.
Proof.
  unfold faucet. destruct payload as [input|]; [|done].
  rewrite (hbind_Ok _ _ w input w) by done.
  destruct (parse_decimal (fi_amount input)) as [amount|] eqn:Ep; [|done].
  rewrite (hbind_Ok _ _ w amount w) by done.
  destruct (dleb amount dzero) eqn:El; [done|].
  destruct (get_faucet_limit (to_uppercase (fi_asset input)) (w_db w)) as [[limit db1]|e] eqn:Eg.
  2:{ by rewrite (hbind_Err _ _ w internal w) by by eapply stmt_or_Err. }
  assert (db1 = w_db w) as -> by by eapply get_faucet_limit_same.
  rewrite (hbind_Ok _ _ w limit w) by by apply stmt_or_read.
  destruct limit as [[asset faucet_max]|]; [|done].
  rewrite (hbind_Ok _ _ w (asset, faucet_max) w) by done.
  destruct (dltb faucet_max amount) eqn:Elt; [done|].
  unfold hbind at 1, fresh_uuid.
  set (w1 := mkWorld (w_db w) (w_net w) (w_spawned w) (S (w_uuids w))).
  destruct (apply_faucet u asset amount (new_v4 (w_uuids w)) (w_db w)) as [[x db2]|e] eqn:Ea.
  - rewrite (hbind_Ok _ _ w1 x (mkWorld db2 (w_net w) (w_spawned w) (S (w_uuids w))))
      by by apply (stmt_or_Ok _ _ w1).
    apply apply_faucet_Ok in Ea as (b & Hb & _ & _ & _ & ->). simpl.
    exists input, amount, asset, faucet_max, b. rewrite dleb_units, units_zero in El.
    rewrite dltb_units in Elt. split_and!; [done..|lia|lia|done|done].
  - by rewrite (hbind_Err _ _ w1 internal w1) by by eapply (stmt_or_Err _ _ w1).
Qed.

(** * What settlement and the order endpoints do that they should not

    Runs on concrete data; the executable instances are those of the samples. *)

(** The database once the worker has drained its queue. *)
Definition drained (db : Db (WireEvent Z)) : Db (WireEvent Z) :=
  (settle_all (unprocessed ∅ db) db).2.

(** A buy order that trades below its limit keeps the difference locked for ever: the lock
    was taken at the limit price and each fill releases only its own notional. *)
Lemma price_improvement_stays_locked :
  let db := drained (sample_db
    [ (1, WeOrderAccepted (limit_order 101%N bob WSell 100 1));
      (2, WeOrderAccepted (limit_order 102%N alice WBuy 110 1)); (3, WeFill sample_fill) ]) in
  unprocessed ∅ db = [] /\ ot_status <$> (orders db !! 102%N) = Some "filled" /\
  locked <$> (balances db !! (alice, usdt)) = Some (col 10).
Proof. vm_compute. done. Qed.

(** The endpoint writes the status "canceled" before the worker sees the event, and the
    worker takes such an order for finished: the lock is never released. *)
Definition cancel_ack : EngineResponse Z :=
  RespAck 10%N (AckCancel (mkCancelAck 500%N StCanceled 8)).
Definition after_place_and_cancel :=
  let w := (place_order alice 9%N (Some (buy_two None "100"))
              (api_world (sample_db []) [order_ack 500%N StNew; cancel_ack])).2 in
  (cancel_order alice 10%N 500%N w).2.

Lemma api_cancel_keeps_the_lock :
  let db := (run_once [RespEvent (mkSequenced 1 (WeOrderAccepted (limit_order 500%N alice WBuy 100 2)));
                       RespEvent (mkSequenced 2 (WeOrderCanceled 500%N WAdminCancel))]
               (w_db after_place_and_cancel)).2 in
  unprocessed ∅ (drained db) = [] /\
  ot_status <$> (orders (drained db) !! 500%N) = Some "canceled" /\
  balances (drained db) !! (alice, usdt) = Some (mkBalance (col 800) (col 200)).
Proof. vm_compute. done. Qed.

(** A negative limit price passes the endpoint's checks and turns the lock around: funds
    locked for another order become available; the CHECK on the row then fails the
    request, but the move stays. *)
Lemma negative_price_frees_locked_funds :
  let w := (place_order alice 9%N (Some (buy_two None "100"))
              (api_world (sample_db []) [order_ack 500%N StNew])).2 in
  balances (w_db w) !! (alice, usdt) = Some (mkBalance (col 800) (col 200)) /\
  let '(r, w') := place_order alice 10%N (Some (buy_two None "-100")) w in
  r = Err (with_request_id 10%N internal) /\
  balances (w_db w') !! (alice, usdt) = Some (mkBalance (col 1000) 0).
Proof. vm_compute. done. Qed.

(** A row the database refuses (here a display quantity of zero) leaves the lock behind:
    only a failure of the engine spawns the unlock. *)
Lemma failed_insert_keeps_the_lock :
  let input := mkPlaceOrderInput None "BTCUSDT" "buy" "limit" (Some "100") None (Some "2")
                 None (Some "0") in
  let '(r, w) := place_order alice 9%N (Some input) (api_world (sample_db []) []) in
  r = Err (with_request_id 9%N internal) /\ orders (w_db w) = ∅ /\ w_spawned w = [] /\
  balances (w_db w) !! (alice, usdt) = Some (mkBalance (col 800) (col 200)).
Proof. vm_compute. done. Qed.

(** A stop order locks nothing, at the endpoint or later, although the comment says the
    trigger will: when it fills, the worker cannot take the funds, and no later event is
    settled either, however often it tries. *)
Lemma unlocked_stop_stops_the_worker :
  let input := mkPlaceOrderInput None "BTCUSDT" "buy" "stop_market" None (Some "90") (Some "1")
                 None None in
  let w := (place_order alice 9%N (Some input)
              (api_world (sample_db []) [order_ack 500%N StNew])).2 in
  let fill := mkTradeFill 200%N "BTCUSDT" 500%N 101%N (dec 100) (dec 1) WBuy "t" in
  let db := (run_once [RespEvent (mkSequenced 1 (WeOrderAccepted (limit_order 101%N bob WSell 100 1)));
                       RespEvent (mkSequenced 2 (WeFill fill));
                       RespEvent (mkSequenced 3 (WeOrderAccepted (limit_order 103%N bob WSell 100 1)))]
               (w_db w)).2 in
  balances (w_db w) !! (alice, usdt) = Some (mkBalance (col 1000) 0) /\
  (settle_all (unprocessed ∅ db) db).1 = Err (Database CheckViolation) /\
  unprocessed ∅ (drained db) = [2; 3] /\
  (settle_all (unprocessed ∅ (drained db)) (drained db)).1 = Err (Database CheckViolation).
Proof. vm_compute. done. Qed.

(** The rates are swapped when the taker sells: the buyer, who is the maker, is charged by
    the taker's rate, and the seller by the maker's. *)
Lemma maker_buyer_pays_taker_rate :
  let fill := mkTradeFill 200%N "BTCUSDT" 102%N 101%N (dec 100) (dec 1) WSell "t" in
  let row i u s : OrderRow Z := mkOrderRow i u btcusdt s (Some (dec 1)) (Some (dec 100)) 0 None
    "new" btc usdt (dec 0) (dec 20) in
  (fun m => (lm_user_id m, lm_asset_id m, lm_amount m)) <$>
    filter (fun m => lm_kind m = "fee") (fill_mutations 3 fill (row 102%N alice "sell") (row 101%N bob "buy"))
  = [(bob, btc, - (2 * 10 ^ 25)); (alice, usdt, 0)].
Proof. vm_compute. done. Qed.

(** Fees leave the system: no account is credited with them. *)
Lemma fees_are_credited_nowhere :
  let db := drained queue_db in
  asset_total btc (balances db) = asset_total btc (balances queue_db) - 10 ^ 15 /\
  asset_total usdt (balances db) = asset_total usdt (balances queue_db) - 10 ^ 17.
Proof. vm_compute. done. Qed.

(** A fee half way between two column values is rounded up in the ledger and up in the
    balance: the balance and the sum of its entries differ by one unit. *)
Lemma half_unit_fee_breaks_the_ledger :
  let q := 5 * 10 ^ 12 in
  let sell := mkEngineOrder 101%N bob "BTCUSDT" WSell WLimit (Some (dec 100)) q WDecrement
                None None None in
  let buy := mkEngineOrder 102%N alice "BTCUSDT" WBuy WLimit (Some (dec 100)) q WDecrement
                None None None in
  let fill := mkTradeFill 200%N "BTCUSDT" 102%N 101%N (dec 100) q WBuy "t" in
  let db0 := sample_db [(1, WeOrderAccepted sell); (2, WeOrderAccepted buy); (3, WeFill fill)] in
  let db := drained db0 in
  ledger_ok db0 /\ unprocessed ∅ db = [] /\
  worth <$> (balances db !! (alice, btc)) = Some 500 /\
  booked (alice, btc) (ledger_entries db) = 499.
Proof.
  cbv zeta. split; [apply (bool_decide_unpack _); vm_compute; exact I|]. vm_compute. done.
Qed.

(** Half a unit of the column is rounded up when it is locked and when it is unlocked: the
    balance ends one unit higher in both parts. *)
Lemma half_unit_lock_is_not_restored :
  let half : Z := 5 * 10 ^ 9 in
  exists db, (let! _ := try_lock_balance alice usdt half in unlock_balance alice usdt half)%tx
      (sample_db []) = Ok ((), db) /\
    forall b, balances (sample_db []) !! (alice, usdt) = Some b ->
      balances db !! (alice, usdt) = Some (mkBalance (available b + 1) (locked b + 1)).
Proof.
  cbv zeta. eexists. split; [vm_compute; reflexivity|]. intros b Hb. vm_compute in Hb.
  injection Hb as <-. vm_compute. reflexivity.
Qed.

(** A market buy sends the amount of quote currency to spend as the quantity to buy. *)
Lemma market_buy_sends_quote_as_base :
  let input := mkPlaceOrderInput None "BTCUSDT" "buy" "market" None None None (Some "500") None in
  (fun p => eo_quantity (pr_order (engine_request 500%N alice 9%N "BTCUSDT" p))) <$>
    match validate_input (D := Z) input 9%N with Ok p => Some p | Err _ => None end
  = Some (dec 500).
Proof. vm_compute. done. Qed.

(** A timeout gives the funds back although the engine may hold the order: when it trades,
    settlement fails. *)
Lemma timeout_unlocks_a_live_order :
  let w := run_spawned (place_order alice 9%N (Some (buy_two None "100"))
              (api_world (sample_db []) [])).2 in
  let fill := mkTradeFill 200%N "BTCUSDT" 500%N 101%N (dec 100) (dec 1) WBuy "t" in
  let db := (run_once [RespEvent (mkSequenced 1 (WeOrderAccepted (limit_order 101%N bob WSell 100 1)));
                       RespEvent (mkSequenced 2 (WeOrderAccepted (limit_order 500%N alice WBuy 100 2)));
                       RespEvent (mkSequenced 3 (WeFill fill))] (w_db w)).2 in
  balances (w_db w) !! (alice, usdt) = Some (mkBalance (col 1000) 0) /\
  (settle_all (unprocessed ∅ db) db).1 = Err (Database CheckViolation).
Proof. vm_compute. done. Qed.

(** With a second worker holding the first event, a worker settles the next one ahead of
    it: the fill finds no orders. *)
Lemma two_workers_settle_out_of_order :
  let db := sample_db [(1, WeOrderAccepted (limit_order 101%N bob WSell 100 1)); (2, WeFill sample_fill)] in
  (process_next {[1]} db).1 = Err (Database RowNotFound).
Proof. vm_compute. done. Qed.
