(* ===== verification/Admin.v ===== *)
(** * Admin: the administrators' endpoints

    [services/api/src/handlers/admin.rs] and [repositories/admin.rs]: halting and resuming
    a market, cancelling all orders of one, freezing a user, and the overview of the
    engine's state.  Timestamps of rows are left out. *)
From S2P Require Import Prelude Decimal Proto Numeric Database Settlement.
From S2P Require Import EngineClient ApiBase ApiOrders.

#[local] Open Scope string_scope.

Record AdminUserRow := mkAdminUser { au_id : Uuid; au_is_admin : bool; au_status : string }.
Record AdminMarketRow := mkAdminMarket { am_id : Uuid; am_symbol : string; am_status : string }.
Record MarketStateRow := mkMarketState {
  mk_symbol : string; mk_status : string; mk_open_order_count : Z }.

Definition open_order (o : OrderTab) : bool :=
  bool_decide (ot_status o ∈ ["pending"; "new"; "partial"]).

Section Repository.
Context {J : Type}.
Open Scope tx_scope.

Definition find_admin_user (user_id : Uuid) : Tx J (option AdminUserRow) :=
  let! db := get in
  ret ((fun u => mkAdminUser user_id (ut_is_admin u) (ut_status u)) <$> users db !! user_id).

Definition find_market (symbol : string) : Tx J (option AdminMarketRow) :=
  let! db := get in
  ret ((fun im : Uuid * MarketTab => mkAdminMarket im.1 (mt_symbol im.2) (mt_status im.2)) <$>
    head (filter (fun im => mt_symbol im.2 = symbol) (map_to_list (markets db)))).

Definition set_market_status (status : string) (m : MarketTab) : MarketTab :=
  mkMarketTab (mt_symbol m) (mt_base_asset_id m) (mt_quote_asset_id m) status
    (mt_maker_fee_bps m) (mt_taker_fee_bps m).

Definition update_market_status (symbol status : string) : Tx J bool :=
  let! status := cast market_status_labels status in
  let! db := get in
  put (with_markets (fmap (fun m =>
         if bool_decide (mt_symbol m = symbol) then set_market_status status m else m)) db) ;;
  ret (negb (bool_decide (map_Forall (fun _ m => mt_symbol m <> symbol) (markets db)))).

(** Whether a row was updated. *)
Definition repo_freeze_user (user_id : Uuid) : Tx J bool :=
  let! db := get in
  match users db !! user_id with
  | Some u =>
      if bool_decide (ut_status u = "closed") then ret false
      else
        put (with_users (insert user_id (mkUserTab "frozen" (ut_is_mm u) (ut_is_admin u))) db) ;;
        ret true
  | None => ret false
  end.

(** The order is in the market of that symbol. *)
Definition in_market (db : Db J) (symbol : string) (o : OrderTab) : bool :=
  match markets db !! ot_market_id o with
  | Some m => bool_decide (mt_symbol m = symbol)
  | None => false
  end.

Definition users_with_open_orders_in_market (symbol : string) : Tx J (list Uuid) :=
  let! db := get in
  ret (merge_sort N.le (elements (list_to_set (C := gset Uuid)
    (omap (fun io : Uuid * OrderTab =>
       if in_market db symbol io.2 && open_order io.2 then Some (ot_user_id io.2) else None)
       (map_to_list (orders db)))))).

(** The CHECKs do not mention the status. *)
Definition mark_orders_canceled (order_ids : list Uuid) : Tx J () :=
  match order_ids with
  | [] => ret ()
  | _ =>
      let! db := get in
      put (with_orders (map_imap (fun i o =>
        Some (if bool_decide (i ∈ order_ids) && open_order o then set_status "canceled" o else o))) db)
  end.

Definition insert_audit_log (actor_user_id : Uuid) (action target_type : string)
    (target_id : option Uuid) (metadata : Json) : Tx J () :=
  let! db := get in
  require (bool_decide (is_Some (users db !! actor_user_id))) ForeignKeyViolation ;;
  put (with_audit_log
         (fun l => l ++ [mkAuditTab actor_user_id action target_type target_id metadata])%list db).

(** One row per market that is not delisted, in the C collation of the symbols. *)
Definition by_market (a b : MarketStateRow) : Prop := String.leb (mk_symbol a) (mk_symbol b) = true.
#[export] Instance by_market_dec a b : Decision (by_market a b).
Proof. unfold by_market. apply _. Defined.

Definition market_state : Tx J (list MarketStateRow) :=
  let! db := get in
  ret (merge_sort by_market
    (omap (fun im : Uuid * MarketTab =>
       if bool_decide (mt_status im.2 = "delisted") then None
       else Some (mkMarketState (mt_symbol im.2) (mt_status im.2)
              (Z.of_nat (length (filter (fun io : Uuid * OrderTab =>
                 ot_market_id io.2 = im.1 /\ open_order io.2 = true) (map_to_list (orders db)))))))
       (map_to_list (markets db)))).
End Repository.

Record AdminActionResponse := mkAdminAction {
  aa_symbol : option string;
  aa_status : option string;
  aa_canceled_order_ids : list Uuid;
  aa_count : nat;
}.

Record EngineMarketStateResponse := mkEngineMarketState {
  em_symbol : string;
  em_status : string;
  em_open_order_count : Z;
  em_best_bid : option (string * string);
  em_best_ask : option (string * string);
  em_seq : option Z;
}.

Section Handlers.
Context {D J W : Type} {dt : DecimalText D} {uc : UnicodeCase} {transport : Transport D W}.
Context (user_id request_id : Uuid).
Open Scope handler_scope.
Abbreviation Handler := (Handler D J W).

Definition forbidden : ApiError :=
  with_request_id request_id (api_error 403 Forbidden "Admin privileges required").
Definition admin_not_found (message : string) : ApiError :=
  with_request_id request_id (api_error 404 NotFound message).
Definition internal_error : ApiError := with_request_id request_id internal.

Definition engine_error (error : EngineClientError) : ApiError :=
  match error with
  | ClientTimeout =>
      with_request_id request_id (api_error 503 EngineTimeout "Engine did not respond in time")
  | ClientRejected _ _ =>
      with_request_id request_id (api_error 409 Internal "Engine rejected the admin command")
  | ClientIo | ClientSerialization | ClientUnexpected => internal_error
  end.

Definition admin_engine {A} (f : W -> result EngineClientError A * W) : Handler A :=
  let* r := engine f in
  match r with Ok a => hret a | Err e => herr (engine_error e) end.

Definition ensure_admin : Handler AdminUserRow :=
  let* found := stmt_or internal_error (find_admin_user user_id) in
  let* row := hsome forbidden found in
  if negb (au_is_admin row) || negb (String.eqb (au_status row) "active")
  then herr forbidden else hret row.

Definition admin_find_market (symbol : string) : Handler AdminMarketRow :=
  let* found := stmt_or internal_error (find_market symbol) in
  hsome (admin_not_found "Market not found") found.

Definition audit (actor_user_id : Uuid) (action target_type : string) (target_id : option Uuid)
    (metadata : Json) : Handler () :=
  stmt_or internal_error (insert_audit_log actor_user_id action target_type target_id metadata).

(** [POST /admin/markets/:symbol/halt]. *)
Definition halt_market (symbol : string) : Handler AdminActionResponse :=
  let* admin := ensure_admin in
  let symbol := to_uppercase symbol in
  let* market := admin_find_market symbol in
  let* ack := admin_engine (client_halt_market (mkControl request_id symbol)) in
  stmt_or internal_error (update_market_status symbol "halted") ;;;
  audit (au_id admin) "market.halt" "market" (Some (am_id market))
    (JObject [("symbol", JString symbol); ("seq", JNumber (ms_seq ack))]) ;;;
  hret (mkAdminAction (Some symbol) (Some "halted") [] 0).

(** [POST /admin/markets/:symbol/resume]. *)
Definition resume_market (symbol : string) : Handler AdminActionResponse :=
  let* admin := ensure_admin in
  let symbol := to_uppercase symbol in
  let* market := admin_find_market symbol in
  let* ack := admin_engine (client_resume_market (mkControl request_id symbol)) in
  stmt_or internal_error (update_market_status symbol "trading") ;;;
  audit (au_id admin) "market.resume" "market" (Some (am_id market))
    (JObject [("symbol", JString symbol); ("seq", JNumber (ms_seq ack))]) ;;;
  hret (mkAdminAction (Some symbol) (Some "trading") [] 0).

(** The loop over the users; [canceled] is what the earlier ones gave. *)
Fixpoint cancel_for_users (users : list Uuid) (symbol : option string) (canceled : list Uuid)
    : Handler (list Uuid) :=
  match users with
  | [] => hret canceled
  | u :: rest =>
      let* ack := admin_engine (client_cancel_all (mkCancelAll request_id u symbol)) in
      cancel_for_users rest symbol (canceled ++ ak_order_ids ack)%list
  end.

(** [POST /admin/markets/:symbol/cancel-all]. *)
Definition cancel_all_in_market (symbol : string) : Handler AdminActionResponse :=
  let* admin := ensure_admin in
  let symbol := to_uppercase symbol in
  let* market := admin_find_market symbol in
  let* users := stmt_or internal_error (users_with_open_orders_in_market symbol) in
  let* canceled := cancel_for_users users (Some symbol) [] in
  stmt_or internal_error (mark_orders_canceled canceled) ;;;
  audit (au_id admin) "market.cancel_all" "market" (Some (am_id market))
    (JObject [("symbol", JString symbol); ("count", JNumber (Z.of_nat (length canceled)))]) ;;;
  hret (mkAdminAction (Some symbol) None canceled (length canceled)).

(** [POST /admin/users/:id/freeze]. *)
Definition freeze_user (target : Uuid) : Handler AdminActionResponse :=
  let* admin := ensure_admin in
  let* updated := stmt_or internal_error (repo_freeze_user target) in
  if negb updated then herr (admin_not_found "User not found") else
  let* canceled := cancel_for_users [target] None [] in
  stmt_or internal_error (mark_orders_canceled canceled) ;;;
  audit (au_id admin) "user.freeze" "user" (Some target)
    (JObject [("canceledOrderCount", JNumber (Z.of_nat (length canceled)))]) ;;;
  hret (mkAdminAction None (Some "frozen") canceled (length canceled)).

(** The loop over the rows of [engine_state]; an unanswered snapshot leaves the fields out. *)
Fixpoint engine_states (rows : list MarketStateRow) : Handler (list EngineMarketStateResponse) :=
  match rows with
  | [] => hret []
  | row :: rest =>
      let* answer := engine (client_snapshot (mkSnapshotReq request_id (mk_symbol row) 1)) in
      let snapshot := match answer with Ok snap => Some snap | Err _ => None end in
      let text (pq : D * D) := (decimal_to_string pq.1, decimal_to_string pq.2) in
      let* states := engine_states rest in
      hret (mkEngineMarketState (mk_symbol row) (mk_status row) (mk_open_order_count row)
              (text <$> (snapshot ≫= fun s => head (bs_bids s)))
              (text <$> (snapshot ≫= fun s => head (bs_asks s)))
              (bs_seq <$> snapshot) :: states)
  end.

(** [GET /admin/engine/state]. *)
Definition engine_state : Handler (list EngineMarketStateResponse) :=
  let* _ := ensure_admin in
  let* rows := stmt_or internal_error market_state in
  engine_states rows.
End Handlers.
