(* ===== verification/AdminProps.v ===== *)
(** * AdminProps: what administrators can do

    [admin_actions_are_audited]: only active administrators act, each success leaves one
    audit entry that names them, and no action touches money. *)
From S2P Require Import Prelude Decimal BTree Types Book Bytes RecordLog Proto Wal.
From S2P Require Import LogProps Wire Engine EngineRun EngineProps Numeric Database.
From S2P Require Import Settlement Ledger SettleEvent SettleRun SettleOrders.
From S2P Require Import SettleProps EngineClient ApiBase ApiOrders ApiLemmas.
From S2P Require Import ApiSteps ApiBooks ApiProps Admin.

#[local] Open Scope string_scope.

Inductive AdminAction :=
| AaHalt (symbol : string) | AaResume (symbol : string)
| AaCancelAll (symbol : string) | AaFreeze (user : Uuid).

Definition admin_act {D J W} {uc : UnicodeCase} {transport : Transport D W} (caller rid : Uuid)
    (a : AdminAction) : Handler D J W AdminActionResponse :=
  match a with
  | AaHalt symbol => halt_market caller rid symbol
  | AaResume symbol => resume_market caller rid symbol
  | AaCancelAll symbol => cancel_all_in_market caller rid symbol
  | AaFreeze user => freeze_user caller rid user
  end.

Definition action_name (a : AdminAction) : string :=
  match a with
  | AaHalt _ => "market.halt" | AaResume _ => "market.resume"
  | AaCancelAll _ => "market.cancel_all" | AaFreeze _ => "user.freeze"
  end.

Section Frame.
Context {J : Type}.
Implicit Types db : Db J.

(** Everything but statuses and the audit log stays. *)
Record admin_frame db db' : Prop := {
  af_assets : assets db' = assets db;
  af_balances : balances db' = balances db;
  af_trades : trades db' = trades db;
  af_ledger : ledger_entries db' = ledger_entries db;
  af_deposits : deposits db' = deposits db;
  af_events : engine_events db' = engine_events db;
  af_worker : worker_state db' = worker_state db;
  af_orders i : orders db' !! i = orders db !! i \/
    exists o, orders db !! i = Some o /\ open_order o = true /\
      orders db' !! i = Some (set_status "canceled" o);
  af_markets i : set_market_status "" <$> (markets db' !! i) = set_market_status "" <$> (markets db !! i);
  af_users i : users db' !! i = users db !! i \/
    exists u, users db !! i = Some u /\ ut_status u <> "closed" /\
      users db' !! i = Some (mkUserTab "frozen" (ut_is_mm u) (ut_is_admin u));
}.

#[export] Instance admin_frame_preorder : PreOrder admin_frame.
Proof.
  split.
  - intros db. split; auto.
  - intros db1 db2 db3 [] []. split; try (by etrans).
    + intros i. destruct (af_orders0 i) as [E1|(o & Ho & Hop & E1)],
        (af_orders1 i) as [E2|(o' & Ho' & Hop' & E2)]; rewrite E1 in *.
      * by left.
      * right. eauto.
      * right. eauto.
      * by simplify_eq.
    + intros i. by rewrite af_markets1.
    + intros i. destruct (af_users0 i) as [E1|(o & Ho & Hop & E1)],
        (af_users1 i) as [E2|(o' & Ho' & Hop' & E2)]; rewrite E1 in *.
      * by left.
      * right. eauto.
      * right. eauto.
      * simplify_eq. right. eauto.
Qed.

(** The audit log is left alone. *)
Definition silent db db' : Prop := audit_log db' = audit_log db.
#[export] Instance silent_preorder : PreOrder silent.
Proof. split; [done|]. unfold silent. congruence. Qed.

Lemma find_admin_user_same u db r db' : find_admin_user u db = Ok (r, db') -> db' = db.
Proof. unfold find_admin_user. intros H. by tx_inv. Qed.
Lemma find_market_same s db r db' : find_market s db = Ok (r, db') -> db' = db.
Proof. unfold find_market. intros H. by tx_inv. Qed.
Lemma users_with_open_orders_same s db r db' :
  users_with_open_orders_in_market s db = Ok (r, db') -> db' = db.
Proof. unfold users_with_open_orders_in_market. intros H. by tx_inv. Qed.

Lemma update_market_status_Ok s st db r db' :
  update_market_status s st db = Ok (r, db') ->
  db' = with_markets (fmap (fun m =>
    if bool_decide (mt_symbol m = s) then set_market_status st m else m)) db.
Proof. unfold update_market_status. intros H. by tx_inv. Qed.

Lemma freeze_user_Ok u db r db' :
  repo_freeze_user u db = Ok (r, db') ->
  db' = db \/ exists t, users db !! u = Some t /\ ut_status t <> "closed" /\
    db' = with_users (insert u (mkUserTab "frozen" (ut_is_mm t) (ut_is_admin t))) db.
Proof.
  unfold repo_freeze_user. intros H. tx_inv. destruct (users db !! u) as [t|]; [|by tx_inv; left].
  case_bool_decide; tx_inv; eauto.
Qed.

Lemma mark_orders_canceled_Ok ids db r db' :
  mark_orders_canceled ids db = Ok (r, db') ->
  db' = with_orders (map_imap (fun i o =>
    Some (if bool_decide (i ∈ ids) && open_order o then set_status "canceled" o else o))) db.
Proof.
  unfold mark_orders_canceled. destruct ids; intros H; tx_inv; [|done].
  destruct db. unfold with_orders. cbn. f_equal. symmetry. apply map_eq. intros i.
  rewrite map_lookup_imap. by destruct (_ !! i).
Qed.

Lemma update_market_status_frame s st : steps admin_frame (update_market_status (J := J) s st).
Proof.
  intros db r db' ->%update_market_status_Ok. split; auto. cbn. intros i. rewrite lookup_fmap.
  destruct (markets db !! i) as [m|]; [|done]. cbn. by case_bool_decide.
Qed.
Lemma freeze_user_frame u : steps admin_frame (repo_freeze_user (J := J) u).
Proof.
  intros db r db' [->|(t & Ht & Hc & ->)]%freeze_user_Ok; [done|]. split; auto. cbn. intros i.
  destruct (decide (u = i)) as [<-|]; [rewrite lookup_insert_eq|rewrite lookup_insert_ne by done]; eauto.
Qed.
Lemma mark_orders_canceled_frame ids : steps admin_frame (mark_orders_canceled (J := J) ids).
Proof.
  intros db r db' ->%mark_orders_canceled_Ok. split; auto. cbn. intros i. rewrite map_lookup_imap.
  destruct (orders db !! i) as [o|] eqn:E; cbn; [|by left]. destruct (bool_decide (i ∈ ids)); cbn; [|by left].
  destruct (open_order o) eqn:Eo; [right|by left]. eauto.
Qed.
Lemma insert_audit_log_frame u a t i m : steps admin_frame (insert_audit_log (J := J) u a t i m).
Proof. intros db r db' H. unfold insert_audit_log in H. tx_inv. split; auto. Qed.

Lemma find_admin_user_frame R `{!PreOrder R} u : steps R (find_admin_user (J := J) u).
Proof. by intros db r db' ->%find_admin_user_same. Qed.
Lemma find_market_frame R `{!PreOrder R} s : steps R (find_market (J := J) s).
Proof. by intros db r db' ->%find_market_same. Qed.
Lemma users_with_open_orders_frame R `{!PreOrder R} s :
  steps R (users_with_open_orders_in_market (J := J) s).
Proof. by intros db r db' ->%users_with_open_orders_same. Qed.

Lemma update_market_status_silent s st : steps silent (update_market_status (J := J) s st).
Proof. by intros db r db' ->%update_market_status_Ok. Qed.
Lemma freeze_user_silent u : steps silent (repo_freeze_user (J := J) u).
Proof. by intros db r db' [->|(t & _ & _ & ->)]%freeze_user_Ok. Qed.
Lemma mark_orders_canceled_silent ids : steps silent (mark_orders_canceled (J := J) ids).
Proof. by intros db r db' ->%mark_orders_canceled_Ok. Qed.

(** Statuses do not enter the books. *)
Lemma admin_frame_books db db' : admin_frame db db' -> books_ok db -> books_ok db'.
Proof.
  intros [] (Hl & Hr & Hsol). split_and!; [by apply (ledger_ok_money db)| |
    by eapply accounted_solvent, Hsol; apply accounted_money].
  assert (forall i o', orders db' !! i = Some o' ->
    exists o, orders db !! i = Some o /\ ot_filled_quantity o' = ot_filled_quantity o) as Ho.
  { intros i o' H. destruct (af_orders0 i) as [E|(o & Ho & _ & E)]; rewrite E in H; [eauto|].
    simplify_eq. by exists o. }
  destruct Hr as [Hs Hid Href Hf Hn]. split; rewrite ?af_trades0; [done|done| |..].
  - eapply Forall_impl; [exact Href|]. intros t [H1 H2].
    assert (forall i, is_Some (orders db !! i) -> is_Some (orders db' !! i)) as Hdom.
    { intros i H. destruct (af_orders0 i) as [E|(o & _ & _ & E)]; rewrite E; eauto. }
    split; by apply Hdom.
  - intros i o' (o & Hi & ->)%Ho. by apply Hf.
  - intros i o' (o & Hi & ->)%Ho. by apply (Hn i).
Qed.
End Frame.

#[export] Hint Resolve update_market_status_frame freeze_user_frame mark_orders_canceled_frame
  insert_audit_log_frame find_admin_user_frame find_market_frame users_with_open_orders_frame
  update_market_status_silent freeze_user_silent mark_orders_canceled_silent : tx.

Section Actions.
Context {D J W : Type} {uc : UnicodeCase} {transport : Transport D W}.
Context (caller rid : Uuid).
Implicit Types w : World D J W.
Abbreviation Handler := (Handler D J W).

Definition active_admin (db : Db J) : bool :=
  match users db !! caller with
  | Some u => ut_is_admin u && String.eqb (ut_status u) "active"
  | None => false
  end.

Lemma ensure_admin_cases w :
  if active_admin (w_db w)
  then exists row, ensure_admin caller rid w = (Ok row, w) /\ au_id row = caller
  else ensure_admin caller rid w = (Err (forbidden rid), w).
Proof.
  unfold ensure_admin, active_admin.
  rewrite (hbind_Ok _ _ w _ w (stmt_or_read _ (find_admin_user caller) w _ eq_refl)).
  destruct (users (w_db w) !! caller) as [u|]; [|done].
  unfold hbind, hsome. cbn.
  destruct (ut_is_admin u); cbn; [|done]. destruct (String.eqb (ut_status u) "active"); cbn; eauto.
Qed.

(** Success leaves one entry in the audit log, failure none. *)
Definition audited {A} (action : string) (m : Handler A) : Prop :=
  forall w, match m w with
            | (Ok _, w') => exists target_type target metadata,
                audit_log (w_db w') = (audit_log (w_db w) ++
                  [mkAuditTab caller action target_type target metadata])%list
            | (Err _, w') => audit_log (w_db w') = audit_log (w_db w)
            end.

Lemma audited_bind {A B} action (m : Handler A) (k : A -> Handler B) :
  hdb silent m -> (forall a, audited action (k a)) -> audited action (hbind m k).
Proof.
  intros Hm Hk w. unfold hbind. specialize (Hm w). destruct (m w) as [[a|e] w1]; [|exact Hm].
  cbn in Hm. specialize (Hk a w1). unfold silent in Hm. rewrite Hm in Hk. exact Hk.
Qed.

Lemma audited_last {A} (x : A) actor action tt t md :
  actor = caller -> audited action (hbind (audit rid actor action tt t md) (fun _ => hret x)).
Proof.
  intros -> w. unfold audit, hbind, stmt_or, stmt, hbind, run_stmt, run_tx, insert_audit_log, bind,
    get, require, put, ret, fail. cbn. case_bool_decide; cbn; eauto.
Qed.

Lemma admin_engine_hdb R `{!PreOrder R} {A} (f : W -> result EngineClientError A * W) :
  hdb R (admin_engine (D := D) (J := J) rid f).
Proof. unfold admin_engine. handler_tac. Qed.

Lemma cancel_for_users_hdb R `{!PreOrder R} us s ids :
  hdb R (cancel_for_users (D := D) (J := J) (W := W) rid us s ids).
Proof.
  revert ids. induction us as [|u us IH]; intros ids; cbn; [handler_tac|].
  apply hdb_bind; [done|by apply admin_engine_hdb|]. intros ack. apply IH.
Qed.

Lemma ensure_admin_hdb R `{!PreOrder R} : hdb R (ensure_admin (D := D) (J := J) (W := W) caller rid).
Proof. unfold ensure_admin. handler_tac. Qed.
Lemma admin_find_market_hdb R `{!PreOrder R} s :
  hdb R (admin_find_market (D := D) (J := J) (W := W) rid s).
Proof. unfold admin_find_market. handler_tac. Qed.

Hint Resolve admin_engine_hdb cancel_for_users_hdb ensure_admin_hdb admin_find_market_hdb : tx.

Ltac audited_tac :=
  repeat first
    [ apply audited_last; congruence
    | apply audited_bind; [solve [handler_tac]|intros ?]
    | match goal with |- context [if ?x then _ else _] => destruct x; [by intros ?|] end ].

Lemma admin_act_frame a : hdb admin_frame (admin_act (D := D) (J := J) (W := W) caller rid a).
Proof. destruct a; unfold admin_act, halt_market, resume_market, cancel_all_in_market, freeze_user, audit; handler_tac. Qed.

(** The action behind the check of the caller. *)
Lemma admin_act_rest a : exists k : AdminUserRow -> Handler AdminActionResponse,
  admin_act caller rid a = hbind (ensure_admin caller rid) k /\
  forall row, au_id row = caller -> audited (action_name a) (k row).
Proof.
  destruct a; eexists; (split; [reflexivity|]); intros row Hid; cbv beta zeta; audited_tac.
Qed.

Lemma admin_act_audited a w :
  active_admin (w_db w) = true ->
  match admin_act caller rid a w with
  | (Ok _, w') => exists target_type target metadata,
      audit_log (w_db w') = (audit_log (w_db w) ++
        [mkAuditTab caller (action_name a) target_type target metadata])%list
  | (Err _, w') => audit_log (w_db w') = audit_log (w_db w)
  end.
Proof.
  intros Ha. pose proof (ensure_admin_cases w) as He. rewrite Ha in He. destruct He as (row & He & Hid).
  destruct (admin_act_rest a) as (k & -> & Hk). rewrite (hbind_Ok _ _ w _ w He). by apply Hk.
Qed.

Lemma admin_act_refused a w :
  active_admin (w_db w) = false -> admin_act caller rid a w = (Err (forbidden rid), w).
Proof.
  intros Ha. pose proof (ensure_admin_cases w) as He. rewrite Ha in He.
  destruct (admin_act_rest a) as (k & -> & _). by apply hbind_Err.
Qed.
End Actions.

(** ** The theorem *)


(** C24. Administration is for administrators and on record.  A caller who is not an active
    administrator gets 403 and nothing happens at all.  Otherwise an action that succeeds
    adds one entry with the caller and the action to the audit log, one that fails adds
    none; either way no balance, trade, ledger entry, deposit or event changes, orders,
    markets and users change in their status at most, and the books stay in order. *)
Theorem admin_actions_are_audited {D J W} {uc : UnicodeCase} {transport : Transport D W}
    caller rid a (w : World D J W) :
  match admin_act caller rid a w with
  | (r, w') =>
      admin_frame (w_db w) (w_db w') /\ (books_ok (w_db w) -> books_ok (w_db w')) /\
      if active_admin caller (w_db w) then
        match r with
        | Ok _ => exists target_type target metadata,
            audit_log (w_db w') = (audit_log (w_db w) ++
              [mkAuditTab caller (action_name a) target_type target metadata])%list
        | Err _ => audit_log (w_db w') = audit_log (w_db w)
        end
      else r = Err (forbidden rid) /\ w' = w
  end.
Proof.
  pose proof (admin_act_frame caller rid a w) as Hf.
  pose proof (admin_act_audited caller rid a w) as Ha.
  pose proof (admin_act_refused caller rid a w) as Hr.
  destruct (admin_act caller rid a w) as [r w']. split_and!; [done|by apply admin_frame_books|].
  destruct (active_admin caller (w_db w)).
  - specialize (Ha eq_refl). by destruct r.
  - specialize (Hr eq_refl). by simplify_eq.
Qed.
