(* ===== verification/System.v ===== *)
(** * System: the exchange as a whole

    The API on top of the matching engine, over a connection that may lose messages, with
    the bridge, settlement and the unlock tasks, as one state machine whose steps may come
    in any order ([sys_run]).  [halt_stops_trading]: after a market was halted nothing
    trades in it until it is resumed. *)
From S2P Require Import Prelude Decimal BTree Types Book Bytes RecordLog Proto Wal.
From S2P Require Import LogProps Wire Engine EngineRun EngineProps Numeric Database.
From S2P Require Import Settlement Ledger SettleEvent SettleRun SettleOrders.
From S2P Require Import SettleProps EngineClient ApiBase ApiOrders ApiLemmas.
From S2P Require Import ApiSteps ApiBooks ApiProps Admin AdminProps.

#[local] Open Scope string_scope.

(** ** The API on top of the engine *)

Inductive LinkFate := LfDelivered | LfRequestLost | LfAnswerLost.

(** The engine behind a connection: what becomes of the next messages. *)
Record EngineLink (D L : Type) := mkLink {
  lk_engine : EngineState D L; lk_fates : list LinkFate }.
Arguments mkLink {D L}.
Arguments lk_engine {D L} _.
Arguments lk_fates {D L} _.

Section Link.
Context {D : Type} {dops : DecimalOps D} {L : Type} {wal : CommandLog L (WalCommand D)}.
Context {ecodec : Codec (SequencedEngineEvent D)}.
Context (fuel : nat) (next_uuid : nat -> Uuid) (now_rfc3339 : nat -> string).
Abbreviation handle := (handle_request fuel next_uuid now_rfc3339).
Implicit Types (st : EngineState D L).

Definition link_send (req : EngineRequest D) (_ : Uuid) (lk : EngineLink D L)
    : result EngineClientError (EngineResponse D) * EngineLink D L :=
  let rest := tail (lk_fates lk) in
  match head (lk_fates lk) with
  | Some LfRequestLost => (Err ClientTimeout, mkLink (lk_engine lk) rest)
  | fate =>
      match handle req (lk_engine lk) with
      | Some (st, Ok b) =>
          (match fate with Some LfAnswerLost => Err ClientTimeout | _ => Ok (rb_response b) end,
           mkLink st rest)
      | Some (st, Err _) => (Err ClientIo, mkLink st rest)
      | None => (Err ClientTimeout, mkLink (lk_engine lk) rest)
      end
  end.

Definition engine_transport : Transport D (EngineLink D L) := {| send := link_send |}.

(** A request that may put the market back into trading. *)
Definition resumes (s : string) (req : EngineRequest D) : Prop :=
  match req with ReqResumeMarket r => mc_symbol r = s | _ => False end.

Lemma cancel_known_order_halted id st st' r :
  cancel_known_order id st = (st', r) -> es_halted_symbols st' = es_halted_symbols st.
Proof.
  unfold cancel_known_order. destruct (es_open_orders st !! id); [|by intros [= <- _]].
  destruct (log_append _ _) as [w [?|?]]; [|by intros [= <- _]].
  destruct (es_books _ !! _); [|by intros [= <- _]].
  destruct (Book.cancel_order _ _). by intros [= <- _].
Qed.

Lemma cancel_each_halted ids done_ids syms we st st' r :
  cancel_each ids done_ids syms we st = (st', r) -> es_halted_symbols st' = es_halted_symbols st.
Proof.
  revert done_ids syms we st. induction ids as [|id ids IH]; intros done_ids syms we st; cbn.
  { by intros [= <- _]. }
  destruct (es_open_orders st !! id); [|apply IH].
  destruct (cancel_known_order id st) as [st1 [[|e es]|err]] eqn:Ek;
    apply cancel_known_order_halted in Ek; [intros H%IH; congruence..|]. intros [= <- _]. done.
Qed.

Lemma sequence_events_halted events st st' r :
  sequence_events events st = (st', r) -> es_halted_symbols st' = es_halted_symbols st.
Proof. intros H. by apply sequence_events_same in H as []. Qed.

Lemma handle_halted s req st st' r :
  handle req st = Some (st', r) -> s ∈ es_halted_symbols st -> ~ resumes s req ->
  s ∈ es_halted_symbols st'.
Proof.
  intros Hh Hin Hn. destruct req as [p|c|c|m|m|sn|pg]; cbn in Hh.
  - apply place_order_cases in Hh as [[[_ _ _ ->] _]|(_ & _ & -> & _)]; done.
  - injection Hh as Hh. unfold cancel_order_request in Hh.
    destruct (es_open_orders st !! _); [|by simplify_eq]. destruct (negb _); [by simplify_eq|].
    destruct (cancel_known_order _ st) as [st1 [[|e es]|err]] eqn:Ek;
      apply cancel_known_order_halted in Ek; [by simplify_eq; rewrite Ek| |by simplify_eq; rewrite Ek].
    destruct (sequence_events _ st1) as [st2 [ss|err]] eqn:Es; apply sequence_events_halted in Es;
      simplify_eq; by rewrite Es, Ek.
  - injection Hh as Hh. unfold Engine.cancel_all in Hh.
    destruct (cancel_each _ _ _ _ st) as [st1 [[[ids syms] we]|err]] eqn:Ek;
      apply cancel_each_halted in Ek; [|by simplify_eq; rewrite Ek].
    destruct (sequence_events _ st1) as [st2 [ss|err]] eqn:Es; apply sequence_events_halted in Es;
      simplify_eq; by rewrite Es, Ek.
  - injection Hh as Hh. unfold Engine.halt_market, market_status_response in Hh.
    destruct (sequence_events _ _) as [st2 [ss|err]] eqn:Es; apply sequence_events_halted in Es;
      simplify_eq; rewrite Es; cbn; set_solver.
  - injection Hh as Hh. unfold Engine.resume_market, market_status_response in Hh. cbn in Hn.
    destruct (sequence_events _ _) as [st2 [ss|err]] eqn:Es; apply sequence_events_halted in Es;
      simplify_eq; rewrite Es; cbn; set_solver.
  - by simplify_eq.
  - by simplify_eq.
Qed.

Definition link_halted (s : string) (lk : EngineLink D L) : Prop :=
  s ∈ es_halted_symbols (lk_engine lk).

Lemma link_keeps_halt s req id lk :
  link_halted s lk -> ~ resumes s req -> link_halted s (link_send req id lk).2.
Proof.
  unfold link_halted, link_send. intros Hin Hn.
  assert (forall st r, handle req (lk_engine lk) = Some (st, r) -> s ∈ es_halted_symbols st) as H.
  { intros st r Hh. by eapply handle_halted. }
  destruct (head _) as [[| |]|]; [| |..]; cbn; try done;
    (destruct (handle req (lk_engine lk)) as [[st [b|e]]|] eqn:Eh; cbn; [by eapply H|by eapply H|done]).
Qed.

(** A halt that was acknowledged took place. *)
Lemma link_halts rid s lk b lk' :
  link_send (ReqHaltMarket (mkControl rid s)) rid lk = (Ok b, lk') -> link_halted s lk'.
Proof.
  unfold link_halted, link_send. cbn. unfold Engine.halt_market, market_status_response.
  destruct (sequence_events _ _) as [st2 [ss|err]] eqn:Es; apply sequence_events_halted in Es.
  - destruct (head _) as [[| |]|]; intros; simplify_eq; cbn; rewrite Es; cbn; set_solver.
  - destruct (head _) as [[| |]|]; intros; simplify_eq.
Qed.
End Link.

(** ** What the handlers do to the connection and the unlock tasks *)

Section Net.
Context {D J W : Type} {transport : Transport D W}.
Context (P : W -> list (UnlockTask D) -> Prop).

Definition hnet {A} (m : Handler D J W A) : Prop :=
  forall w, P (w_net w) (w_spawned w) -> P (w_net (m w).2) (w_spawned (m w).2).

Lemma hnet_bind {A B} (m : Handler D J W A) (k : A -> Handler D J W B) :
  hnet m -> (forall a, hnet (k a)) -> hnet (hbind m k).
Proof.
  intros Hm Hk w Hw. unfold hbind. specialize (Hm w Hw). destruct (m w) as [[a|e] w1]; [|done].
  by apply Hk.
Qed.
(** A known result in front of a continuation. *)
Lemma hnet_bind_known {A B} (m : Handler D J W A) (a : A) (k : A -> Handler D J W B) :
  (forall w, m w = (Ok a, w)) -> hnet (k a) -> hnet (hbind m k).
Proof. intros Hm Hk w. rewrite (hbind_Ok m k w a w) by done. apply Hk. Qed.
Lemma hnet_same {A} (m : Handler D J W A) :
  (forall w, w_net (m w).2 = w_net w /\ w_spawned (m w).2 = w_spawned w) -> hnet m.
Proof. intros H w Hw. by destruct (H w) as [-> ->]. Qed.
Lemma hnet_stmt {A} (m : Tx J A) : hnet (stmt m).
Proof. apply hnet_same. intros w. unfold stmt. by destruct (run_stmt m (w_db w)). Qed.
Lemma hnet_stmt_or {A} e (m : Tx J A) : hnet (stmt_or e m).
Proof. apply hnet_bind; [apply hnet_stmt|]. by intros [a|e']; apply hnet_same. Qed.
Lemma hnet_engine {A} (f : W -> result EngineClientError A * W) :
  (forall n ts, P n ts -> P (f n).2 ts) -> hnet (engine f).
Proof. intros Hf w Hw. unfold engine. specialize (Hf _ _ Hw). by destruct (f (w_net w)). Qed.
Lemma hnet_spawn t : (forall n ts, P n ts -> P n (ts ++ [t])) -> hnet (spawn t).
Proof. intros H w Hw. by apply H. Qed.
Lemma hnet_ret {A} (a : A) : hnet (hret a). Proof. by apply hnet_same. Qed.
Lemma hnet_err {A} e : hnet (herr (A := A) e). Proof. by apply hnet_same. Qed.
Lemma hnet_result {A} (r : result ApiError A) : hnet (hresult r). Proof. by apply hnet_same. Qed.
Lemma hnet_some {A} e (x : option A) : hnet (hsome e x). Proof. by destruct x; apply hnet_same. Qed.
Lemma hnet_fresh {us : UuidSource} : hnet fresh_uuid. Proof. by apply hnet_same. Qed.
End Net.

Create HintDb net.
#[export] Hint Resolve hnet_stmt hnet_stmt_or hnet_ret hnet_err hnet_result hnet_some
  hnet_fresh : net.

(** Proves [hnet P m] up to the requests sent and the tasks spawned. *)
Ltac net_tac :=
  repeat first
    [ solve [eauto with net]
    | apply hnet_bind
    | apply hnet_engine
    | apply hnet_spawn
    | lazymatch goal with |- forall _, _ => intros ? end
    | match goal with |- hnet _ (match ?x with _ => _ end) => destruct x end ].

Section Requests.
Context {D J W : Type} {dops : DecimalOps D} {pg : PgDecimal D} {dt : DecimalText D}
  {uc : UnicodeCase} {us : UuidSource} {transport : Transport D W}.
Context (P : W -> list (UnlockTask D) -> Prop) (allowed : EngineRequest D -> Prop).
Context (task_ok : UnlockTask D -> Prop).
Context (Hsend : forall req id n ts, allowed req -> P n ts -> P (send req id n).2 ts).
Context (Hspawn : forall n ts t, task_ok t -> P n ts -> P n (ts ++ [t])).

Lemma client_keeps {A} pick req (id : Uuid) (n : W) ts :
  allowed req -> P n ts ->
  P ((let '(r, w') := send req id n in (expect_ack (A := A) pick r, w')).2) ts.
Proof. intros Ha Hn. specialize (Hsend req id n ts Ha Hn). by destruct (send req id n). Qed.

(** The tasks an order may spawn: the unlock of what it locks. *)
Definition locks_ok u rid payload : Prop :=
  match payload with
  | Some input => forall p b q a amount, validate_input (D := D) input rid = Ok p ->
      lock_of p b q = (Some a, Some amount) -> task_ok (mkUnlock u a amount)
  | None => True
  end.

Lemma submit_order_net u rid input sym (p : ParsedInput (D := D)) :
  (forall r, allowed (ReqPlace r)) ->
  (forall b q a amount, lock_of p b q = (Some a, Some amount) -> task_ok (mkUnlock u a amount)) ->
  hnet P (submit_order (J := J) u rid input sym p).
Proof.
  intros Ha He. unfold submit_order. cbv zeta. apply hnet_bind; [net_tac|]. intros found.
  apply hnet_bind; [net_tac|]. intros [[[m b] q] s]. case_bool_decide; [net_tac|].
  specialize (He b q). unfold lock_of in He.
  destruct (balance_lock_params _ _ _ _ _ _ _) as [[a|] [amount|]]; net_tac;
    first [by apply client_keeps | apply Hspawn; [by apply He|done]].
Qed.

Lemma place_order_net u rid payload :
  (forall r, allowed (ReqPlace r)) -> locks_ok u rid payload ->
  hnet P (place_order (J := J) u rid payload).
Proof.
  intros Ha He. unfold place_order. destruct payload as [input|]; [|by apply hnet_same].
  apply (hnet_bind_known _ _ input); [done|]. cbv zeta.
  apply hnet_bind; [net_tac|]. intros [row|]; [net_tac|].
  destruct (validate_input input rid) as [p|e] eqn:Ev; [|by apply hnet_same].
  apply (hnet_bind_known _ _ p); [done|]. apply submit_order_net; [done|].
  intros b q a amount Hl. by eapply (He p).
Qed.
Lemma cancel_order_net u rid i :
  (forall r, allowed (ReqCancel r)) -> hnet P (cancel_order (D := D) (J := J) u rid i).
Proof. intros Ha. unfold cancel_order. net_tac. by apply client_keeps. Qed.
Lemma cancel_all_net u rid m :
  (forall r, allowed (ReqCancelAll r)) -> hnet P (cancel_all_orders (D := D) (J := J) u rid m).
Proof. intros Ha. unfold cancel_all_orders. net_tac. by apply client_keeps. Qed.
Lemma faucet_net u rid payload : hnet P (faucet (D := D) (J := J) u rid payload).
Proof. unfold faucet. net_tac. Qed.
Lemma cancel_for_users_net rid us' s ids :
  (forall r, allowed (ReqCancelAll r)) -> hnet P (cancel_for_users (D := D) (J := J) rid us' s ids).
Proof.
  intros Ha. revert ids. induction us' as [|u us' IH]; intros ids; cbn; [net_tac|].
  apply hnet_bind; [|intros ?; apply IH]. unfold admin_engine. net_tac. by apply client_keeps.
Qed.
Lemma admin_act_net caller rid a :
  (forall r, allowed (ReqCancelAll r)) -> (forall r, allowed (ReqHaltMarket r)) ->
  (forall s, a = AaResume s -> allowed (ReqResumeMarket (mkControl rid (to_uppercase s)))) ->
  hnet P (admin_act (D := D) (J := J) caller rid a).
Proof.
  intros Hc Hh Hr.
  destruct a; unfold admin_act, halt_market, resume_market, cancel_all_in_market, freeze_user,
    ensure_admin, admin_find_market, audit, admin_engine; net_tac;
    first [by apply cancel_for_users_net | apply client_keeps; auto].
Qed.
End Requests.

(** ** The whole system *)

(** What may happen next: a request to the API, the unlock task, what the bridge is sent on
    a connection, settlement, or a request of another client of the engine. *)
Inductive SysStep (D : Type) :=
| SyPlace (u rid : Uuid) (payload : option PlaceOrderInput)
| SyCancel (u rid order : Uuid)
| SyCancelAll (u rid : Uuid) (market : option string)
| SyFaucet (u rid : Uuid) (payload : option FaucetInput)
| SyUnlock
| SyAdmin (u rid : Uuid) (a : AdminAction)
| SyBridge (responses : list (EngineResponse D))
| SySettle (fuel : nat)
| SyDirect (req : EngineRequest D).
Arguments SyPlace {D} _ _ _.
Arguments SyCancel {D} _ _ _.
Arguments SyCancelAll {D} _ _ _.
Arguments SyFaucet {D} _ _ _.
Arguments SyUnlock {D}.
Arguments SyAdmin {D} _ _ _.
Arguments SyBridge {D} _.
Arguments SySettle {D} _.
Arguments SyDirect {D} _.

Section System.
Context {D J L : Type} {dops : DecimalOps D} {pg : PgDecimal D} {dt : DecimalText D}
  {uc : UnicodeCase} {us : UuidSource} {ej : EventJson D J}
  {wal : CommandLog L (WalCommand D)} {ecodec : Codec (SequencedEngineEvent D)}.
Context (fuel : nat) (next_uuid : nat -> Uuid) (now_rfc3339 : nat -> string).
#[local] Instance link_transport : Transport D (EngineLink D L) :=
  engine_transport fuel next_uuid now_rfc3339.
Abbreviation World := (World D J (EngineLink D L)).
Implicit Types (w : World) (db : Db J).

Definition sys_step (s : SysStep D) w : World :=
  match s with
  | SyPlace u rid payload => (place_order u rid payload w).2
  | SyCancel u rid order => (cancel_order u rid order w).2
  | SyCancelAll u rid market => (cancel_all_orders u rid market w).2
  | SyFaucet u rid payload => (faucet u rid payload w).2
  | SyUnlock => run_spawned w
  | SyAdmin u rid a => (admin_act u rid a w).2
  | SyBridge rs => mkWorld (run_once rs (w_db w)).2 (w_net w) (w_spawned w) (w_uuids w)
  | SySettle n =>
      match process_available n (w_db w) with
      | Some (_, db) => mkWorld db (w_net w) (w_spawned w) (w_uuids w)
      | None => w
      end
  | SyDirect req =>
      mkWorld (w_db w) (link_send fuel next_uuid now_rfc3339 req 0%N (w_net w)).2 (w_spawned w) (w_uuids w)
  end.
Definition sys_run (ss : list (SysStep D)) w : World := fold_left (fun w s => sys_step s w) ss w.

(** A step that may put the market back into trading. *)
Definition resuming (s : string) (step : SysStep D) : Prop :=
  match step with
  | SyAdmin _ _ (AaResume symbol) => to_uppercase symbol = s
  | SyDirect req => resumes s req
  | _ => False
  end.

Definition market_stopped (s : string) db : Prop :=
  map_Forall (fun _ m => mt_symbol m = s -> mt_status m = "halted") (markets db).
Definition stopped (s : string) w : Prop :=
  market_stopped s (w_db w) /\ link_halted s (w_net w).

Definition stays_stopped (s : string) db db' : Prop := market_stopped s db -> market_stopped s db'.
#[export] Instance stays_stopped_preorder s : PreOrder (stays_stopped s).
Proof. split; unfold stays_stopped; auto. Qed.

Lemma same_markets_stopped s db db' : markets db' = markets db -> stays_stopped s db db'.
Proof. unfold stays_stopped, market_stopped. by intros ->. Qed.

Lemma own_rows_stopped s u i db db' : own_rows u i db db' -> stays_stopped s db db'.
Proof. intros (_ & _ & H & _). by apply same_markets_stopped. Qed.

Lemma update_market_status_stopped s s' st :
  s' <> s \/ st = "halted" ->
  steps (stays_stopped s) (update_market_status (J := J) s' st).
Proof.
  intros Hs db r db' ->%update_market_status_Ok Hdb i m. cbn. rewrite lookup_fmap.
  destruct (markets db !! i) as [m0|] eqn:E; [|done]. intros [= <-]. case_bool_decide; cbn.
  - intros Hm. destruct Hs; [congruence|done].
  - by apply (Hdb i).
Qed.

Lemma admin_act_stopped s caller rid a :
  ~ resuming s (SyAdmin caller rid a) ->
  hdb (stays_stopped s) (admin_act (D := D) (J := J) (W := EngineLink D L) caller rid a).
Proof.
  intros Hn.
  assert (forall A (m : Tx J A), steps admin_frame m ->
    (forall db r db', m db = Ok (r, db') -> markets db' = markets db) ->
    steps (stays_stopped s) m) as Hsame.
  { intros A m _ H db r db' Hm. by eapply same_markets_stopped, H. }
  assert (forall u, steps (stays_stopped s) (repo_freeze_user (J := J) u)) as Hf.
  { intros u db r db' [->|(t & _ & _ & ->)]%freeze_user_Ok; [done|]. by apply same_markets_stopped. }
  assert (forall ids, steps (stays_stopped s) (mark_orders_canceled (J := J) ids)) as Hm.
  { intros ids db r db' ->%mark_orders_canceled_Ok. by apply same_markets_stopped. }
  assert (forall u a t i m, steps (stays_stopped s) (insert_audit_log (J := J) u a t i m)) as Ha.
  { intros u act t i m db r db' H. unfold insert_audit_log in H. tx_inv. by apply same_markets_stopped. }
  assert (forall s' st, (s' <> s \/ st = "halted") ->
    hdb (D := D) (W := EngineLink D L) (stays_stopped s)
      (stmt_or (internal_error rid) (update_market_status (J := J) s' st))) as Hu.
  { intros s' st H. apply hdb_stmt_or; [typeclasses eauto|]. by apply update_market_status_stopped. }
  assert (forall us' s' ids, hdb (stays_stopped s)
    (cancel_for_users (D := D) (J := J) (W := EngineLink D L) rid us' s' ids)) as Hc.
  { intros. apply cancel_for_users_hdb, _. }
  destruct a; unfold admin_act, halt_market, resume_market, cancel_all_in_market, freeze_user,
    ensure_admin, admin_find_market, audit, admin_engine; cbn in Hn; handler_tac; apply Hu; auto.
Qed.

Lemma process_next_markets skip db r db' :
  process_next skip db = (r, db') -> markets db' = markets db.
Proof.
  unfold process_next. destruct (fetch_next_event skip db) as [[[stored|] ?]|]; [|by intros [= _ <-]..].
  destruct (decode stored); [|by intros [= _ <-]]. unfold to_settlement.
  destruct (bind _ _ db) as [[u db2]|] eqn:Hb; intros [= _ <-]; [|done].
  apply bind_Ok in Hb as ([] & db3 & (_ & _ & He & _)%settle_event_static & Hmk).
  destruct (mark_processed_run (st_seq stored) db3) as (db4 & Hmk' & _ & _ & _ & _ & Hmkt & _).
  rewrite Hmk in Hmk'. simplify_eq. congruence.
Qed.

Lemma settle_markets n db r db' :
  process_available n db = Some (r, db') -> markets db' = markets db.
Proof.
  unfold process_available. generalize 0. revert db. induction n as [|n IH]; intros db c; cbn [process_loop]; [done|].
  destruct (process_next ∅ db) as [[[|]|e] db1] eqn:Hp; apply process_next_markets in Hp.
  - intros H%IH. congruence.
  - by intros [= _ <-].
  - by intros [= _ <-].
Qed.

Definition same_markets db db' : Prop := markets db' = markets db.
#[local] Instance same_markets_preorder : PreOrder same_markets.
Proof. split; [done|]. unfold same_markets. congruence. Qed.

Lemma cancel_all_markets u rid m : hdb same_markets (cancel_all_orders (D := D) (J := J) (W := EngineLink D L) u rid m).
Proof. unfold cancel_all_orders. handler_tac. Qed.

Lemma faucet_markets u rid payload :
  hdb same_markets (faucet (D := D) (J := J) (W := EngineLink D L) u rid payload).
Proof.
  assert (forall s, steps same_markets (get_faucet_limit (D := D) (J := J) s)) as H1.
  { by intros s db r db' ->%get_faucet_limit_same. }
  assert (forall u a (x : D) i, steps same_markets (apply_faucet (J := J) u a x i)) as H2.
  { by intros v a x i db r db' (b & _ & _ & _ & _ & ->)%apply_faucet_Ok. }
  unfold faucet. handler_tac.
Qed.

Lemma step_stopped s step w : stopped s w -> ~ resuming s step -> stopped s (sys_step step w).
Proof.
  intros [Hdb Hnet] Hn.
  set (P := fun (n : EngineLink D L) (_ : list (UnlockTask D)) => link_halted s n).
  assert (forall req id n ts, ~ resumes s req -> P n ts -> P (send req id n).2 ts)
    as Hsend by (intros req id n ts H1 H2; by apply link_keeps_halt).
  assert (forall n ts t, True -> P n ts -> P n (ts ++ [t])%list) as Hspawn by done.
  destruct step as [u rid payload|u rid i|u rid m|u rid payload| |u rid a|rs|n|req]; cbn [sys_step].
  - split; [|eapply (place_order_net P); [exact Hsend|exact Hspawn|by intros ? []|by destruct payload|done]].
    by eapply own_rows_stopped; [apply place_order_own|].
  - split; [|eapply (cancel_order_net P); [exact Hsend|by intros ? []|done]].
    by eapply own_rows_stopped; [apply cancel_order_own|].
  - split; [|eapply (cancel_all_net P); [exact Hsend|by intros ? []|done]].
    eapply same_markets_stopped; [apply cancel_all_markets|done].
  - split; [|by apply (faucet_net P)]. eapply same_markets_stopped; [apply faucet_markets|done].
  - unfold run_spawned. destruct (w_spawned w) as [|t ts]; [done|]. split; [|done]. cbn.
    unfold run_stmt, run_tx. destruct (unlock_balance _ _ _ _) as [[? db']|] eqn:E; cbn; [|done].
    eapply own_rows_stopped; [eapply (unlock_own _ 0%N); exact E|done].
  - split; [by apply (admin_act_stopped s)|].
    eapply (admin_act_net P); [exact Hsend|by intros ? []|by intros ? []| |done].
    intros s' -> H. by apply Hn.
  - split; [|done]. eapply same_markets_stopped; [|done]. cbn.
    by destruct (run_once_grows rs (w_db w)) as [-> _].
  - destruct (process_available n (w_db w)) as [[r db']|] eqn:Hp; [|done].
    split; [|done]. eapply same_markets_stopped; [by eapply settle_markets|done].
  - split; [done|]. by apply link_keeps_halt.
Qed.

Lemma run_stopped s ss w :
  stopped s w -> Forall (fun step => ~ resuming s step) ss -> stopped s (sys_run ss w).
Proof.
  unfold sys_run. intros Hw Hss. revert w Hw.
  induction Hss as [|step ss Hn _ IH]; intros w Hw; [done|]. apply IH. by apply step_stopped.
Qed.

(** ** Whatever happens, the books are kept *)

(** Only the status of a market changes. *)
Definition markets_kept db db' : Prop :=
  forall i, set_market_status "" <$> (markets db' !! i) = set_market_status "" <$> (markets db !! i).
#[local] Instance markets_kept_preorder : PreOrder markets_kept.
Proof. split; [done|]. intros ??? H1 H2 i. by rewrite H2. Qed.

Lemma markets_kept_same db db' : markets db' = markets db -> markets_kept db db'.
Proof. intros E i. by rewrite E. Qed.

Lemma markets_kept_ok db db' : markets_kept db db' -> markets_ok db -> markets_ok db'.
Proof.
  intros H Hok i m Hm. specialize (H i). rewrite Hm in H.
  destruct (markets db !! i) as [m0|] eqn:E; [|done]. specialize (Hok i m0 E).
  destruct m, m0. cbn in *. by simplify_eq.
Qed.

(** What settlement needs of an event for the books. *)
Definition settles_soundly (seq : Z) (event : WireEvent D) db : Prop :=
  settles_cleanly seq event db /\ within_market event db.

#[export] Instance settles_soundly_dec seq event db : Decision (settles_soundly seq event db).
Proof. unfold settles_soundly. apply _. Defined.

(** No amount the step moves lies half way between two column values, and what is settled
    is sound. *)
Definition step_exact (step : SysStep D) w : Prop :=
  match step with
  | SyPlace _ rid (Some input) => lock_exact (D := D) input rid
  | SyFaucet _ _ (Some input) =>
      forall amount : D, parse_decimal (fi_amount input) = Some amount -> no_tie (to_pg amount)
  | SySettle _ => each_event settles_soundly (unprocessed ∅ (w_db w)) (w_db w)
  | _ => True
  end.

Fixpoint run_exact (ss : list (SysStep D)) w : Prop :=
  match ss with
  | [] => True
  | step :: ss' => step_exact step w /\ run_exact ss' (sys_step step w)
  end.

(** The state that is kept. *)
Definition sound w : Prop := books_ok (w_db w) /\ markets_ok (w_db w) /\ tasks_exact w.

Lemma step_markets_kept step w : markets_kept (w_db w) (w_db (sys_step step w)).
Proof.
  destruct step as [u rid payload|u rid i|u rid m|u rid payload| |u rid a|rs|n|req]; cbn [sys_step].
  - apply markets_kept_same. by destruct (place_order_own u rid payload w) as (_ & _ & E & _).
  - apply markets_kept_same. by destruct (cancel_order_own u rid i w) as (_ & _ & E & _).
  - apply markets_kept_same, cancel_all_markets.
  - apply markets_kept_same, faucet_markets.
  - unfold run_spawned. destruct (w_spawned w) as [|t ts]; [done|]. cbn.
    unfold run_stmt, run_tx. destruct (unlock_balance _ _ _ _) as [[? db']|] eqn:E; cbn; [|done].
    apply markets_kept_same. by apply (unlock_own _ 0%N) in E as (_ & _ & E & _).
  - intros i. apply (af_markets _ _ (admin_act_frame u rid a w)).
  - apply markets_kept_same. cbn. by destruct (run_once_grows rs (w_db w)) as [-> _].
  - destruct (process_available n (w_db w)) as [[r db']|] eqn:Hp; [|done].
    by eapply markets_kept_same, settle_markets.
  - done.
Qed.

Lemma step_tasks_exact step w :
  tasks_exact w -> step_exact step w -> tasks_exact (sys_step step w).
Proof.
  intros Ht He.
  set (task_ok := fun t : UnlockTask D => no_tie (to_pg (ul_amount t))).
  set (P := fun (_ : EngineLink D L) ts => Forall task_ok ts).
  assert (forall req id n ts, True -> P n ts -> P (send req id n).2 ts) as Hsend by done.
  assert (forall n ts t, task_ok t -> P n ts -> P n (ts ++ [t])%list) as Hspawn.
  { intros n ts t H1 H2. by apply Forall_app_2; [|apply Forall_singleton]. }
  destruct step as [u rid payload|u rid i|u rid m|u rid payload| |u rid a|rs|n|req];
    cbn [sys_step]; [..|done|by destruct (process_available n (w_db w)) as [[? ?]|]|done].
  - eapply (place_order_net P); [exact Hsend|exact Hspawn|done| |exact Ht].
    destruct payload as [input|]; [|done]. intros p b q a amount. apply He.
  - by apply (cancel_order_net P (fun _ => True)).
  - by apply (cancel_all_net P (fun _ => True)).
  - by apply (faucet_net P).
  - unfold run_spawned, tasks_exact in *. destruct (w_spawned w) as [|t ts] eqn:E; cbn.
    + by rewrite E.
    + by apply Forall_cons in Ht as [_ Ht].
  - by apply (admin_act_net P (fun _ => True)).
Qed.

Lemma queue_grows_keeps db db' : queue_grows db db' -> keeps db db'.
Proof.
  intros [-> _] (Hl & Hr & Hs).
  split_and!; [by apply (ledger_ok_money db)|by apply (rows_ok_eq db)|done].
Qed.

Lemma admin_frame_keeps db db' : admin_frame db db' -> keeps db db'.
Proof. intros H Hb. by eapply admin_frame_books. Qed.

Lemma cancel_all_keeps u rid m :
  hdb keeps (cancel_all_orders (D := D) (J := J) (W := EngineLink D L) u rid m).
Proof. unfold cancel_all_orders. handler_tac. Qed.

Context {dlaws : DecimalLaws D} {plaws : PgDecimalLaws D}.

(** The worker keeps the books, with any fuel. *)
Lemma settle_keeps n db r db' :
  process_available n db = Some (r, db') -> each_event settles_soundly (unprocessed ∅ db) db ->
  books_ok db -> markets_ok db -> books_ok db' /\ markets_ok db'.
Proof.
  intros ->%process_loop_final Hc Hb Hm.
  apply (settle_all_invariant settles_soundly (fun db => books_ok db /\ markets_ok db)); [| |done..].
  - intros s event db0 u db1 [(Hl & Hr & Hs) Hok] [[He Hf] Hw] Hset. unfold books_ok. split_and!.
    + eapply books_ledger_ok; [by eapply settle_event_books|by apply event_mutations_clean|done].
    + by eapply settle_event_rows.
    + eapply accounted_solvent, Hs. by eapply settle_event_accounted.
    + apply settle_event_static in Hset as (_ & _ & E & _). by eapply markets_kept_ok, Hok; apply markets_kept_same.
  - intros s db0 u db1 [(Hl & Hr & Hs) Hok] Hmark. destruct (mark_processed_run s db0) as
      (db2 & Hm' & _ & _ & _ & _ & E & Hba & Ho & Ht & Hle). rewrite Hmark in Hm'. simplify_eq.
    unfold books_ok. split_and!; [by apply (ledger_ok_money db0)|by apply (rows_ok_eq db0)| |].
    + eapply accounted_solvent, Hs. by apply accounted_money.
    + by eapply markets_kept_ok, Hok; apply markets_kept_same.
Qed.

Lemma step_books step w : sound w -> step_exact step w -> books_ok (w_db (sys_step step w)).
Proof.
  intros (Hb & Hm & Ht) He.
  destruct step as [u rid payload|u rid i|u rid m|u rid payload| |u rid a|rs|n|req]; cbn [sys_step].
  - apply (place_order_keeps u rid payload); [|done]. by destruct payload.
  - by apply (cancel_order_keeps u rid i).
  - by apply (cancel_all_keeps u rid m).
  - apply (faucet_keeps u rid payload); [|done]. intros input amount ->. apply He.
  - by apply run_spawned_keeps.
  - eapply admin_frame_keeps, Hb. apply admin_act_frame.
  - eapply queue_grows_keeps, Hb. apply run_once_grows.
  - destruct (process_available n (w_db w)) as [[r db']|] eqn:Hp; [|done].
    by eapply settle_keeps.
  - done.
Qed.

Lemma step_sound step w : sound w -> step_exact step w -> sound (sys_step step w).
Proof.
  intros Hw He. split_and!; [by apply step_books| |].
  - eapply markets_kept_ok; [apply step_markets_kept|apply Hw].
  - apply step_tasks_exact; [apply Hw|done].
Qed.

Lemma run_sound ss w : sound w -> run_exact ss w -> sound (sys_run ss w).
Proof.
  revert w. induction ss as [|step ss IH]; intros w Hw; [done|]. intros [He Hss].
  apply (IH (sys_step step w)); [by apply step_sound|done].
Qed.

(** A halt that was answered with success. *)
Lemma halted_stopped caller rid symbol w resp w' :
  halt_market caller rid symbol w = (Ok resp, w') -> stopped (to_uppercase symbol) w'.
Proof.
  unfold halt_market. intros H.
  apply hbind_inv in H as (admin & w1 & _ & H). cbv zeta in H.
  apply hbind_inv in H as (market & w2 & _ & H).
  apply hbind_inv in H as (ack & w3 & He & H).
  apply hbind_inv in H as (updated & w4 & Hu & H).
  assert (link_halted (to_uppercase symbol) (w_net w3)) as Hnet.
  { unfold admin_engine in He. apply hbind_inv in He as (r & w3' & He & Hr).
    unfold engine, client_halt_market in He.
    destruct (send _ _ (w_net w2)) as [[b|e] net] eqn:Hs; [|by simplify_eq].
    apply link_halts in Hs. simplify_eq. unfold hret, herr in Hr.
    by repeat case_match; simplify_eq. }
  assert (stopped (to_uppercase symbol) w4) as Hw4.
  { unfold stmt_or in Hu. apply hbind_inv in Hu as (r & w4' & Hs & Hr).
    unfold stmt in Hs. destruct (run_stmt _ (w_db w3)) as [[upd|e] db4] eqn:Hrun; simplify_eq; unfold hret in Hr; simplify_eq.
    apply run_tx_Ok, update_market_status_Ok in Hrun. split; [|done]. cbn. rewrite Hrun.
    intros i m. cbn. rewrite lookup_fmap. destruct (markets (w_db w3) !! i) as [m0|]; [|done].
    intros [= <-]. by case_bool_decide. }
  unfold audit in H. apply hbind_inv in H as ([] & w5 & Ha & H). unfold hret in H. simplify_eq.
  unfold stmt_or in Ha. apply hbind_inv in Ha as (r & w5' & Hs & Hr).
  unfold stmt in Hs. destruct (run_stmt _ (w_db w4)) as [[upd|e] db5] eqn:Hrun; simplify_eq; unfold hret in Hr; simplify_eq.
  apply run_tx_Ok in Hrun. unfold insert_audit_log in Hrun. tx_inv. exact Hw4.
Qed.

Lemma stmt_or_reads {A} e (m : Tx J A) w :
  (forall db r db', m db = Ok (r, db') -> db' = db) -> (stmt_or (W := EngineLink D L) e m w).2 = w.
Proof.
  intros H. destruct (m (w_db w)) as [[a db']|e'] eqn:E.
  - apply H in E as E'. subst. by rewrite (stmt_or_read e m w a E).
  - by rewrite (stmt_or_Err e m w e' E).
Qed.

(** Placing an order in a stopped market changes nothing. *)
Lemma place_order_stopped s u rid input w r w' :
  stopped s w -> to_uppercase (pi_market input) = s ->
  place_order u rid (Some input) w = (r, w') -> w' = w /\ forall resp, r <> Ok (201%nat, resp).
Proof.
  intros [Hdb _] Hs. unfold place_order. rewrite (hbind_Ok _ _ w input w) by done. cbv zeta.
  set (find := match pi_client_order_id input with Some cid => _ | None => _ end).
  assert (exists x, find w = (x, w)) as [x Hx].
  { subst find. destruct (pi_client_order_id input) as [cid|]; [|by eexists].
    pose proof (stmt_or_reads (with_request_id rid internal)
      (find_by_client_order_id (D := D) u cid) w (find_by_client_same u cid)) as H2.
    destruct (stmt_or _ _ w). cbn in H2. subst. eauto. }
  destruct x as [[row|]|e]; [rewrite (hbind_Ok _ _ w _ w Hx)|rewrite (hbind_Ok _ _ w _ w Hx)|
    rewrite (hbind_Err _ _ w e w Hx)]; [by intros [= <- <-]| |by intros [= <- <-]].
  destruct (validate_input input rid) as [p|e]; [rewrite (hbind_Ok _ _ w p w) by done|by intros [= <- <-]].
  unfold submit_order.
  rewrite (hbind_Ok _ _ w _ w (stmt_or_read _ (get_market_assets _) w _ eq_refl)).
  destruct (head _) as [[i m]|] eqn:Eh; [|by intros [= <- <-]].
  rewrite (hbind_Ok _ _ w _ w) by done. cbv beta iota.
  rewrite bool_decide_true; [by intros [= <- <-]|].
  left. apply head_Some_elem_of, list_elem_of_filter in Eh as [Hm Hin%elem_of_map_to_list].
  apply (Hdb i m Hin). cbn in Hm. by rewrite Hm, Hs.
Qed.

(** So does an order that reaches the engine by another way. *)
Lemma engine_place_stopped s rid (o : EngineOrder D) st st' r :
  s ∈ es_halted_symbols st -> eo_symbol o = s ->
  handle_request fuel next_uuid now_rfc3339 (ReqPlace (mkPlace rid o)) st = Some (st', r) ->
  es_books st' = es_books st /\ es_command_wal st' = es_command_wal st /\
  exists rej, r = Ok (mkBundle (RespReject rej) []).
Proof.
  intros Hin Hs Hh. cbn in Hh.
  apply place_order_cases in Hh as [[[] (rej & -> & _)]|(_ & Hn & _)]; [eauto|].
  by rewrite Hs in Hn.
Qed.
End System.

(** ** The books *)


(** ** Halting *)

(** C23. A halted market stands still.  After a halt that was answered with success, and
    whatever requests to the API and to the engine, unlocks, settlement and lost messages
    follow, none of them resuming the market: placing an order in it through the API
    changes nothing at all and is not accepted, and an order that reaches the engine by any
    other way is rejected with the books and the command log as they were. *)
Theorem halt_stops_trading {D J L} {dops : DecimalOps D} {pg : PgDecimal D}
    {dt : DecimalText D} {uc : UnicodeCase} {us : UuidSource} {ej : EventJson D J}
    {wal : CommandLog L (WalCommand D)} {ecodec : Codec (SequencedEngineEvent D)}
    fuel next_uuid now_rfc3339 caller rid symbol resp (w w1 : World D J (EngineLink D L)) ss :
  halt_market (transport := engine_transport fuel next_uuid now_rfc3339) caller rid symbol w =
    (Ok resp, w1) ->
  Forall (fun step => ~ resuming (to_uppercase symbol) step) ss ->
  let w2 := sys_run fuel next_uuid now_rfc3339 ss w1 in
  (forall u rid' input r w3, to_uppercase (pi_market input) = to_uppercase symbol ->
     place_order (transport := engine_transport fuel next_uuid now_rfc3339) u rid' (Some input) w2 =
       (r, w3) -> w3 = w2 /\ forall resp', r <> Ok (201%nat, resp')) /\
  (forall rid' o st r, eo_symbol o = to_uppercase symbol ->
     handle_request fuel next_uuid now_rfc3339 (ReqPlace (mkPlace rid' o)) (lk_engine (w_net w2)) =
       Some (st, r) ->
     es_books st = es_books (lk_engine (w_net w2)) /\
     es_command_wal st = es_command_wal (lk_engine (w_net w2)) /\
     exists rej, r = Ok (mkBundle (RespReject rej) [])).
Proof.
  intros Hh Hss w2.
  pose proof (run_stopped fuel next_uuid now_rfc3339 _ ss w1
    (halted_stopped fuel next_uuid now_rfc3339 _ _ _ _ _ _ Hh) Hss) as Hw2. split.
  - intros u rid' input r w3 Hs Hp. by eapply place_order_stopped.
  - intros rid' o st r Ho Hp. by eapply engine_place_stopped; [apply Hw2| |].
Qed.

(** ** Samples *)

#[local] Existing Instances event_codec.

Definition root : Uuid := 9%N.

(** Alice, Bob and an administrator, in front of a fresh engine. *)
Definition admin_world (fates : list LinkFate) : World Z (WireEvent Z) (EngineLink Z Wal) :=
  mkWorld (with_users (insert root (mkUserTab "active" false true)) (sample_db []))
    (mkLink fresh_engine fates) [] 0.

#[local] Instance sample_wal : CommandLog Wal (WalCommand Z) := wal_command_log (codec := wal_codec).
#[local] Instance sample_transport : Transport Z (EngineLink Z Wal) :=
  engine_transport 60 N.of_nat (fun _ => "").

Definition halted_world := (halt_market root 9%N "btcusdt" (admin_world [])).2.

Example halted_everywhere :
  let '(r, w) := halt_market root 9%N "btcusdt" (admin_world []) in
  r = Ok (mkAdminAction (Some "BTCUSDT") (Some "halted") [] 0) /\
  mt_status <$> (markets (w_db w) !! btcusdt) = Some "halted" /\
  au_action <$> audit_log (w_db w) = ["market.halt"].
Proof. vm_compute. done. Qed.

Definition after_halt := sys_run 60 N.of_nat (fun _ => "")
  [SyPlace alice 9%N (Some (buy_two None "100")); SySettle 5] halted_world.

Lemma halt_stops_trading_witness :
  (place_order alice 10%N (Some (buy_two None "100")) after_halt).2 = after_halt.
Proof.
  assert (halt_market root 9%N "btcusdt" (admin_world []) =
    (Ok (mkAdminAction (Some "BTCUSDT") (Some "halted") [] 0), halted_world)) as Hh.
  { unfold halted_world. rewrite (surjective_pairing (halt_market _ _ _ _)) at 1.
    f_equal. }
  pose proof (halt_stops_trading 60 N.of_nat (fun _ => "") root 9%N "btcusdt" _ _ _
    [SyPlace alice 9%N (Some (buy_two None "100")); SySettle 5] Hh
    ltac:(repeat constructor; by intros [])) as [Hplace _].
  exact (proj1 (Hplace alice 10%N (buy_two None "100") _ _ eq_refl (surjective_pairing _))).
Defined.

(** ** A day at the exchange *)

Definition sell_one : PlaceOrderInput :=
  mkPlaceOrderInput None "btcusdt" "Sell" "limit" (Some "100") None (Some "1") None None.

(** What the engine broadcasts for an order of the API, after the requests before it. *)
Definition order_request (i u rid : Uuid) (input : PlaceOrderInput) : list (EngineRequest Z) :=
  match validate_input input rid with
  | Ok p => [ReqPlace (engine_request i u rid (to_uppercase (pi_market input)) p)]
  | Err _ => []
  end.
Definition broadcast (reqs : list (EngineRequest Z)) : list (EngineResponse Z) :=
  (fold_left (fun '(st, said) req =>
     match handle_request 60 N.of_nat (fun _ => "") req st with
     | Some (st', Ok b) => (st', said ++ (RespEvent <$> rb_events b))%list
     | Some (st', Err _) => (st', said)
     | None => (st, said)
     end) reqs (fresh_engine, [])).2.

(** Alice buys, Bob sells to her, her second order is lost on its way; the bridge is sent
    the engine's events, settlement and the unlock task run, the market is halted and Alice
    goes to the faucet. *)
Definition day : list (SysStep Z) :=
  [ SyPlace alice 9%N (Some (buy_two None "100"));
    SyPlace bob 10%N (Some sell_one);
    SyPlace alice 11%N (Some (buy_two None "50"));
    SyBridge (broadcast (order_request 500%N alice 9%N (buy_two None "100") ++
                         order_request 501%N bob 10%N sell_one)%list);
    SySettle 7; SyUnlock; SyAdmin root 12%N (AaHalt "btcusdt");
    SyFaucet alice 13%N (Some (mkFaucetInput "btc" "1")) ].
Definition before_day := admin_world [LfDelivered; LfDelivered; LfRequestLost].
Definition after_day := sys_run 60 N.of_nat (fun _ => "") day before_day.

(** One BTC for 100 USDT with fees of ten basis points on either side, 100 USDT still
    locked for the rest of Alice's order. *)
Example what_the_day_left :
  let db := w_db after_day in
  balances db !! (alice, btc) = Some (mkBalance (1999 * 10 ^ 15) 0) /\
  balances db !! (alice, usdt) = Some (mkBalance (col 800) (col 100)) /\
  balances db !! (bob, btc) = Some (mkBalance (col 4) 0) /\
  balances db !! (bob, usdt) = Some (mkBalance (999 * 10 ^ 17) 0) /\
  length (ledger_entries db) = 9%nat /\ length (trades db) = 1%nat /\
  unprocessed ∅ db = [] /\ w_spawned after_day = [].
Proof. vm_compute. done. Qed.

Lemma lock_exact_run input rid (p0 : ParsedInput (D := Z)) :
  validate_input input rid = Ok p0 ->
  (forall b q, match lock_of p0 b q with
               | (Some _, Some amount) => no_tie (to_pg amount) | _ => True end) ->
  lock_exact (D := Z) input rid.
Proof.
  intros Hp H p b q a amount Hp' Hl. rewrite Hp in Hp'. simplify_eq.
  specialize (H b q). by rewrite Hl in H.
Qed.

Ltac lock_exact_tac :=
  eapply lock_exact_run; [vm_compute; reflexivity|];
  intros b q; cbn [lock_of balance_lock_params ps_side ps_type ps_price ps_effective_qty];
  apply (bool_decide_unpack _); vm_compute; exact I.

Lemma buy_exact : lock_exact (D := Z) (buy_two None "100") 9%N.
Proof. lock_exact_tac. Qed.
Lemma sell_exact : lock_exact (D := Z) sell_one 10%N.
Proof. lock_exact_tac. Qed.
Lemma lost_exact : lock_exact (D := Z) (buy_two None "50") 11%N.
Proof. lock_exact_tac. Qed.
Lemma faucet_exact (amount : Z) : parse_decimal "1" = Some amount -> no_tie (to_pg amount).
Proof.
  intros Ha. vm_compute in Ha. injection Ha as <-.
  apply (bool_decide_unpack _). vm_compute. exact I.
Qed.

Definition settling_world := sys_run 60 N.of_nat (fun _ => "") (take 4 day) before_day.
Definition settling_db : Db (WireEvent Z) := Eval vm_compute in w_db settling_world.
Lemma settling_exact :
  each_event settles_soundly (unprocessed ∅ (w_db settling_world)) (w_db settling_world).
Proof.
  assert (w_db settling_world = settling_db) as -> by (vm_compute; reflexivity).
  apply (bool_decide_unpack _). vm_compute. exact I.
Qed.

Lemma day_exact : run_exact 60 N.of_nat (fun _ => "") day before_day.
Proof.
  exact (conj buy_exact (conj sell_exact (conj lost_exact (conj I (conj settling_exact
    (conj I (conj I (conj faucet_exact I)))))))).
Qed.


(** ** Findings *)

(** Alice rests a buy order and is frozen: the endpoint marks the order as canceled before
    settlement hears of the cancellation, so settlement leaves the 200 USDT locked; and a
    frozen user whose token is still valid goes on trading. *)
Definition frozen_world :=
  (freeze_user root 9%N alice (place_order alice 9%N (Some (buy_two None "100")) (admin_world [])).2).2.

Example frozen_user_keeps_the_lock :
  let db := w_db frozen_world in
  ot_status <$> (orders db !! 500%N) = Some "canceled" /\
  balances db !! (alice, usdt) = Some (mkBalance (col 800) (col 200)) /\
  settle_event 4 (WeOrderCanceled 500%N WAdminCancel) db = Ok ((), db).
Proof. vm_compute. done. Qed.

Example frozen_user_trades_on :
  ut_status <$> (users (w_db frozen_world) !! alice) = Some "frozen" /\
  res_map fst (place_order alice 10%N (Some (buy_two None "100")) frozen_world).1 = Ok 201%nat.
Proof. vm_compute. done. Qed.

(** A halt whose answer is lost has taken place in the engine and nowhere else. *)
Example half_halted :
  let '(r, w) := halt_market root 9%N "btcusdt" (admin_world [LfAnswerLost]) in
  r = Err (engine_error 9%N ClientTimeout) /\
  "BTCUSDT" ∈ es_halted_symbols (lk_engine (w_net w)) /\
  mt_status <$> (markets (w_db w) !! btcusdt) = Some "trading" /\ audit_log (w_db w) = [].
Proof. vm_compute. split_and!; done. Qed.
