(* ===== verification/Time.v ===== *)
(** * Time: the timestamps of [engine/crates/server/src/time.rs]

    [format_unix_millis] and Howard Hinnant's [civil_from_days], with the machine
    integers of the code: [i64] division truncates towards zero ([Z.quot]).  The days are
    checked against a calendar that counts days one by one ([tomorrow]). *)
From Stdlib Require Import Ascii.
From stdpp Require Import pretty.
From S2P Require Import Prelude.

Definition I32_MAX : Z := 2 ^ 31 - 1.
Definition DAYS_MAX : Z := 2 ^ 63 - 1.

(** [i32::try_from(x).unwrap_or(i32::MAX)] and [u32::try_from(x).unwrap_or(1)]. *)
Definition to_i32 (x : Z) : Z := if (- 2 ^ 31 <=? x) && (x <=? I32_MAX) then x else I32_MAX.
Definition to_u32 (x : Z) : Z := if (0 <=? x) && (x <=? U32_MAX) then x else 1.

Definition civil_from_days (days_since_epoch : Z) : Z * Z * Z :=
  let shifted := days_since_epoch + 719468 in
  let era := Z.quot (if 0 <=? shifted then shifted else shifted - 146096) 146097 in
  let day_of_era := shifted - era * 146097 in
  let year_of_era :=
    Z.quot (day_of_era - Z.quot day_of_era 1460 + Z.quot day_of_era 36524
            - Z.quot day_of_era 146096) 365 in
  let year := year_of_era + era * 400 in
  let day_of_year :=
    day_of_era - (365 * year_of_era + Z.quot year_of_era 4 - Z.quot year_of_era 100) in
  let month_prime := Z.quot (5 * day_of_year + 2) 153 in
  let day := day_of_year - Z.quot (153 * month_prime + 2) 5 + 1 in
  let month := month_prime + (if month_prime <? 10 then 3 else -9) in
  let adjusted_year := year + (if month <=? 2 then 1 else 0) in
  (to_i32 adjusted_year, to_u32 month, to_u32 day).

(** [{n:0width$}] for a non-negative number. *)
Definition zero_pad (width : nat) (n : Z) : string :=
  let s := pretty n in
  String.append (String.string_of_list_ascii (replicate (width - String.length s) "0"%char)) s.

Definition format_unix_millis (seconds millis : Z) : string :=
  let days := let d := seconds / 86400 in if d <=? DAYS_MAX then d else DAYS_MAX in
  let seconds_of_day := seconds mod 86400 in
  let hour := seconds_of_day / 3600 in
  let minute := (seconds_of_day mod 3600) / 60 in
  let second := seconds_of_day mod 60 in
  let '(year, month, day) := civil_from_days days in
  String.concat "" [zero_pad 4 year; "-"; zero_pad 2 month; "-"; zero_pad 2 day; "T";
    zero_pad 2 hour; ":"; zero_pad 2 minute; ":"; zero_pad 2 second; "."; zero_pad 3 millis; "Z"].

Example formats_unix_epoch : format_unix_millis 0 0 = "1970-01-01T00:00:00.000Z".
Proof. vm_compute. done. Qed.
Example formats_recent_utc_timestamp :
  format_unix_millis 1735689600 123 = "2025-01-01T00:00:00.123Z".
Proof. vm_compute. done. Qed.

(** ** The Gregorian calendar, day by day *)

Definition leap (y : Z) : bool :=
  (y mod 4 =? 0) && (negb (y mod 100 =? 0) || (y mod 400 =? 0)).

Definition days_in_month (y m : Z) : Z :=
  if m =? 2 then (if leap y then 29 else 28)
  else if (m =? 4) || (m =? 6) || (m =? 9) || (m =? 11) then 30 else 31.

Definition tomorrow (d : Z * Z * Z) : Z * Z * Z :=
  let '(y, m, day) := d in
  if day <? days_in_month y m then (y, m, day + 1)
  else if m <? 12 then (y, m + 1, 1) else (y + 1, 1, 1).

(** The [n]th day after the epoch. *)
Definition calendar (n : nat) : Z * Z * Z := Nat.iter n tomorrow (1970, 1, 1).

(** The code's date without the casts: the day of the 400-year era gives the year of the
    era (years begin in March) and the day of that year, this the month and day. *)
Definition year_weight (doe : Z) : Z := doe - doe / 1460 + doe / 36524 - doe / 146096.
Definition year_of (doe : Z) : Z := year_weight doe / 365.
Definition year_start (yoe : Z) : Z := 365 * yoe + yoe / 4 - yoe / 100.
Definition month_day (doy : Z) : Z * Z :=
  let mp := (5 * doy + 2) / 153 in
  (mp + (if mp <? 10 then 3 else -9), doy - (153 * mp + 2) / 5 + 1).

Definition era_date (era yoe doy : Z) : Z * Z * Z :=
  let '(m, d) := month_day doy in (yoe + era * 400 + (if m <=? 2 then 1 else 0), m, d).

Definition civil (z : Z) : Z * Z * Z :=
  let doe := (z + 719468) mod 146097 in
  era_date ((z + 719468) / 146097) (year_of doe) (doe - year_start (year_of doe)).

Lemma leap_shift k y : leap (y + 400 * k) = leap y.
Proof.
  unfold leap.
  replace (y + 400 * k) with (y + (100 * k) * 4) at 1 by ring.
  replace (y + 400 * k) with (y + (4 * k) * 100) at 1 by ring.
  replace (y + 400 * k) with (y + k * 400) by ring. by rewrite !Z.mod_add.
Qed.

(** *** The year of a day *)

(** The length of a March year; the last one of an era has the day the code's weights
    leave for it. *)
Definition year_len (yoe : Z) : Z :=
  year_start (yoe + 1) - year_start yoe + (if yoe =? 399 then 1 else 0).

Definition year_ok (yoe : Z) : bool :=
  (365 * yoe <=? year_weight (year_start yoe)) &&
  (year_weight (year_start yoe + year_len yoe - 1) <? 365 * (yoe + 1)) &&
  (0 <=? year_start yoe) && (year_start yoe + year_len yoe <=? 146097) &&
  (year_len yoe =? if leap (yoe + 1) then 366 else 365).

Lemma years_ok : forallb year_ok (seqZ 0 400) = true.
Proof. vm_compute. reflexivity. Qed.

Lemma year_ok_spec yoe : 0 <= yoe < 400 ->
  365 * yoe <= year_weight (year_start yoe) /\
  year_weight (year_start yoe + year_len yoe - 1) < 365 * (yoe + 1) /\
  0 <= year_start yoe /\ year_start yoe + year_len yoe <= 146097 /\
  year_len yoe = if leap (yoe + 1) then 366 else 365.
Proof.
  intros Hy. pose proof years_ok as H. rewrite forallb_forall in H.
  specialize (H yoe ltac:(apply list_elem_of_In, elem_of_seqZ; lia)).
  unfold year_ok in H. rewrite !andb_true_iff, !Z.leb_le, Z.ltb_lt, Z.eqb_eq in H. tauto.
Qed.

Lemma year_weight_mono a b : 0 <= a <= b -> b <= 146096 -> year_weight a <= year_weight b.
Proof. intros. unfold year_weight. Z.div_mod_to_equations. lia. Qed.

Lemma year_of_split yoe doy :
  0 <= yoe < 400 -> 0 <= doy < year_len yoe -> year_of (year_start yoe + doy) = yoe.
Proof.
  intros Hy Hd. destruct (year_ok_spec yoe Hy) as (H1 & H2 & Hs & He & _).
  pose proof (year_weight_mono (year_start yoe) (year_start yoe + doy) ltac:(lia) ltac:(lia)).
  pose proof (year_weight_mono (year_start yoe + doy) (year_start yoe + year_len yoe - 1)
    ltac:(lia) ltac:(lia)).
  unfold year_of. symmetry.
  apply (Z.div_unique _ _ _ (year_weight (year_start yoe + doy) - 365 * yoe)); lia.
Qed.

(** Every day of an era is in one of its years. *)
Lemma split_exists doe (n : nat) :
  0 <= doe < year_start (Z.of_nat n) + (if Z.of_nat n =? 400 then 1 else 0) ->
  (n <= 400)%nat ->
  exists yoe doy, 0 <= yoe < Z.of_nat n /\ 0 <= doy < year_len yoe /\
    doe = year_start yoe + doy.
Proof.
  induction n as [|n IH]; intros Hd Hn; [change (year_start _ + _) with 0 in Hd; lia|].
  rewrite Nat2Z.inj_succ in *. unfold Z.succ in *.
  destruct (Z_lt_dec doe (year_start (Z.of_nat n))) as [Hlt|Hge].
  - destruct IH as (y & d & Hy & Hd' & He); [|lia|].
    + replace (Z.of_nat n =? 400) with false by lia. lia.
    + exists y, d. split_and!; solve [lia|done].
  - exists (Z.of_nat n), (doe - year_start (Z.of_nat n)).
    split_and!; try lia. unfold year_len.
    destruct (Z.eqb_spec (Z.of_nat n) 399), (Z.eqb_spec (Z.of_nat n + 1) 400); lia.
Qed.

(** *** The month of a day *)

(** February is the last month of a March year and starts on its day 337; the day after
    any other is the one the calendar has for a month of its length. *)
Definition month_ok (doy : Z) : bool :=
  let '(m, d) := month_day doy in
  (1 <=? m) && (m <=? 12) && (1 <=? d) && (d <=? 31) &&
  if m =? 2 then (d =? doy - 336) && bool_decide (month_day (doy + 1) = (2, d + 1))
  else (doy <? 337) && bool_decide (month_day (doy + 1) =
         if d <? days_in_month 1 m then (m, d + 1) else if m <? 12 then (m + 1, 1) else (1, 1)).

Lemma months_ok : forallb month_ok (seqZ 0 365) = true.
Proof. vm_compute. reflexivity. Qed.

Lemma month_ok_spec doy m d : 0 <= doy < 365 -> month_day doy = (m, d) ->
  1 <= m <= 12 /\ 1 <= d <= 31 /\
  (m = 2 /\ d = doy - 336 /\ month_day (doy + 1) = (2, d + 1) \/
   m <> 2 /\ doy < 337 /\ month_day (doy + 1) =
     if d <? days_in_month 1 m then (m, d + 1) else if m <? 12 then (m + 1, 1) else (1, 1)).
Proof.
  intros H Hmd. pose proof months_ok as Hm. rewrite forallb_forall in Hm.
  specialize (Hm doy ltac:(apply list_elem_of_In, elem_of_seqZ; lia)).
  unfold month_ok in Hm. rewrite Hmd in Hm. rewrite !andb_true_iff in Hm.
  destruct Hm as [[[[? ?] ?] ?] Hb].
  split; [lia|]. split; [lia|]. destruct (Z.eqb_spec m 2); [left|right];
    apply andb_true_iff in Hb as [? Hb%bool_decide_eq_true]; (split; [lia|]; split; [lia|done]).
Qed.

(** The next day of the same year. *)
Lemma tomorrow_same_year era yoe doy :
  0 <= yoe < 400 -> 0 <= doy -> doy + 1 < year_len yoe ->
  tomorrow (era_date era yoe doy) = era_date era yoe (doy + 1).
Proof.
  intros Hy H0 Hlt. destruct (year_ok_spec yoe Hy) as (_ & _ & _ & _ & Hl).
  assert (doy < 365) as H1 by (destruct (leap _) in Hl; lia).
  unfold era_date. destruct (month_day doy) as [m d] eqn:Hmd.
  destruct (month_ok_spec _ _ _ (conj H0 H1) Hmd) as (Hm & _ & [(-> & -> & ->)|(H2 & _ & ->)]).
  - unfold tomorrow, days_in_month. simpl.
    replace (yoe + era * 400 + 1) with ((yoe + 1) + 400 * era) by ring. rewrite leap_shift.
    destruct (leap (yoe + 1)); case_match; try done; lia.
  - unfold tomorrow, days_in_month. replace (m =? 2) with false by lia.
    destruct (d <? _); [done|]. destruct (Z.ltb_spec m 12).
    + f_equal. f_equal. destruct (Z.leb_spec m 2), (Z.leb_spec (m + 1) 2); lia.
    + replace (m <=? 2) with false by lia. f_equal. f_equal. simpl. ring.
Qed.

(** The last day of a March year is the last of February. *)
Lemma tomorrow_next_year era yoe :
  0 <= yoe < 400 ->
  tomorrow (era_date era yoe (year_len yoe - 1)) = (yoe + 1 + era * 400, 3, 1).
Proof.
  intros Hy. destruct (year_ok_spec yoe Hy) as (_ & _ & _ & _ & ->).
  replace (yoe + 1 + era * 400) with ((yoe + 1) + 400 * era) by ring.
  unfold era_date. destruct (leap (yoe + 1)) eqn:Hl;
    [change (month_day (366 - 1)) with (2, 29)|change (month_day (365 - 1)) with (2, 28)];
    unfold tomorrow, days_in_month; cbn -[Z.add Z.mul leap];
    replace (yoe + era * 400 + 1) with ((yoe + 1) + 400 * era) by ring;
    by rewrite leap_shift, Hl.
Qed.

Lemma year_start_succ yoe : yoe <> 399 -> year_start (yoe + 1) = year_start yoe + year_len yoe.
Proof. intros H. unfold year_len. replace (yoe =? 399) with false by lia. lia. Qed.

Lemma civil_split era yoe doy : 0 <= yoe < 400 -> 0 <= doy < year_len yoe ->
  civil (era * 146097 + (year_start yoe + doy) - 719468) = era_date era yoe doy.
Proof.
  intros Hy Hd. destruct (year_ok_spec yoe Hy) as (_ & _ & Hs & He & _).
  unfold civil. replace (_ - 719468 + 719468) with (year_start yoe + doy + era * 146097) by ring.
  rewrite Z.mod_add, Z.div_add, Z.mod_small, Z.div_small, year_of_split by lia.
  f_equal; lia.
Qed.

(** Every day is a day of a year of an era. *)
Lemma split_day z : exists era yoe doy, 0 <= yoe < 400 /\ 0 <= doy < year_len yoe /\
  z = era * 146097 + (year_start yoe + doy) - 719468.
Proof.
  pose proof (Z.div_mod (z + 719468) 146097 ltac:(done)) as Hd.
  pose proof (Z.mod_pos_bound (z + 719468) 146097 ltac:(lia)) as Hm.
  generalize dependent ((z + 719468) mod 146097). intros doe Hd Hm.
  destruct (split_exists doe 400) as (y & d & Hy & Hdy & He);
    [change (year_start (Z.of_nat 400) + _) with 146097; lia|lia|].
  exists ((z + 719468) / 146097), y, d.
  generalize dependent ((z + 719468) / 146097). intros. split_and!; lia.
Qed.

Lemma year_len_pos yoe : 0 <= yoe < 400 -> 365 <= year_len yoe <= 366.
Proof. intros H. destruct (year_ok_spec yoe H) as (_ & _ & _ & _ & ->). case_match; lia. Qed.

Lemma civil_tomorrow z : tomorrow (civil z) = civil (z + 1).
Proof.
  destruct (split_day z) as (era & y & d & Hy & Hd & ->). rewrite civil_split by done.
  destruct (Z_lt_dec (d + 1) (year_len y)) as [Hlt|Hge].
  { rewrite tomorrow_same_year, <- civil_split by lia. f_equal. lia. }
  replace d with (year_len y - 1) by lia. rewrite tomorrow_next_year by done.
  destruct (Z.eq_dec y 399) as [->|Hne].
  - pose proof (year_len_pos 0 ltac:(lia)).
    assert (era * 146097 + (year_start 399 + (year_len 399 - 1)) - 719468 + 1
      = (era + 1) * 146097 + (year_start 0 + 0) - 719468) as ->
      by (change (year_start 399) with 145731; change (year_len 399) with 366;
          change (year_start 0) with 0; lia).
    rewrite civil_split by lia. unfold era_date. change (month_day 0) with (3, 1). f_equal. f_equal.
    change (if 3 <=? 2 then 1 else 0) with 0. ring.
  - pose proof (year_len_pos (y + 1) ltac:(lia)). pose proof (year_start_succ y Hne).
    assert (era * 146097 + (year_start y + (year_len y - 1)) - 719468 + 1
      = era * 146097 + (year_start (y + 1) + 0) - 719468) as -> by lia.
    rewrite civil_split by lia. unfold era_date. change (month_day 0) with (3, 1). f_equal. f_equal.
    change (if 3 <=? 2 then 1 else 0) with 0. ring.
Qed.

Lemma civil_calendar n : civil (Z.of_nat n) = calendar n.
Proof.
  induction n as [|n IH]; [vm_compute; done|].
  change (calendar (S n)) with (tomorrow (calendar n)).
  rewrite <- IH, civil_tomorrow. f_equal. lia.
Qed.

(** ** The code's date *)

Lemma quot_div a b : 0 <= a -> 0 < b -> Z.quot a b = a / b.
Proof. intros. by apply Z.quot_div_nonneg. Qed.

(** The parts of a date after the epoch are small. *)
Lemma civil_bounds z y m d : 0 <= z -> civil z = (y, m, d) ->
  0 <= y <= (z + 719468) / 146097 * 400 + 400 /\ 1 <= m <= 12 /\ 1 <= d <= 31.
Proof.
  intros Hz Hc. destruct (split_day z) as (era & yo & doy & Hy & Hd & ->).
  destruct (year_ok_spec yo Hy) as (_ & _ & Hs & He & _). pose proof (year_len_pos yo Hy).
  rewrite civil_split in Hc by done. unfold era_date in Hc.
  replace (_ - 719468 + 719468) with (year_start yo + doy + era * 146097) by ring.
  rewrite Z.div_add, Z.div_small by lia.
  destruct (month_day doy) as [m' d'] eqn:Hmd. injection Hc as <- -> ->.
  assert (0 <= (if m <=? 2 then 1 else 0) <= 1) by (case_match; lia).
  destruct (Z.eq_dec doy 365) as [->|].
  - change (month_day 365) with (2, 29) in Hmd. injection Hmd as <- <-. lia.
  - destruct (month_ok_spec doy m d ltac:(lia) Hmd). lia.
Qed.

(** The days whose year fits the code's [i32]: past the year 2 000 000 000. *)
Definition DAYS_BOUND : Z := 146097 * 5000000.

Lemma civil_from_days_spec z : 0 <= z < DAYS_BOUND -> civil_from_days z = civil z.
Proof.
  intros Hz. unfold DAYS_BOUND in Hz. unfold civil_from_days. cbv zeta.
  replace (0 <=? z + 719468) with true by lia. rewrite (quot_div (z + 719468)) by lia.
  pose proof (Z.mod_pos_bound (z + 719468) 146097 ltac:(lia)) as Hm.
  replace (z + 719468 - (z + 719468) / 146097 * 146097) with ((z + 719468) mod 146097)
    by (rewrite Z.mod_eq by done; ring).
  assert (0 <= (z + 719468) / 146097 <= 5000005) as Hera
    by (split; [apply Z.div_pos|apply Z.div_le_upper_bound]; lia).
  destruct (civil z) as [[y m] d] eqn:Hc. pose proof (civil_bounds z y m d ltac:(lia) Hc) as Hb.
  unfold civil in Hc. revert Hc Hb Hera.
  generalize ((z + 719468) / 146097). generalize dependent ((z + 719468) mod 146097).
  intros doe Hd era Hc Hb Hera.
  destruct (split_exists doe 400) as (yo & doy & Hy & Hdy & ->);
    [change (year_start (Z.of_nat 400) + _) with 146097; lia|lia|].
  rewrite year_of_split in Hc by done. pose proof (year_of_split yo doy Hy Hdy) as Hyo.
  unfold year_of, year_weight in Hyo. set (doe := year_start yo + doy) in *.
  rewrite !(quot_div doe), (quot_div (_ - _)) by (Z.div_mod_to_equations; lia).
  rewrite Hyo, !(quot_div yo) by lia. fold (year_start yo).
  replace (doe - year_start yo) with doy in * by (unfold doe; lia).
  rewrite (quot_div (5 * doy + 2)) by lia.
  unfold era_date, month_day in Hc.
  assert (0 <= (5 * doy + 2) / 153) by (apply Z.div_pos; lia).
  rewrite (quot_div (153 * _ + 2)) by lia.
  injection Hc as Hy' Hm' Hd'. rewrite Hy', Hm', Hd'.
  unfold to_i32, to_u32, I32_MAX, U32_MAX.
  rewrite (proj2 (andb_true_iff _ _)) by lia.
  rewrite (proj2 (andb_true_iff _ _)) by lia.
  by rewrite (proj2 (andb_true_iff _ _)) by lia.
Qed.

(** ** The clock, second by second *)

Record instant := { date : Z * Z * Z; hour_of : Z; minute_of : Z; second_of : Z }.

(** One second later. *)
Definition one_second (i : instant) : instant :=
  if second_of i <? 59 then
    {| date := date i; hour_of := hour_of i; minute_of := minute_of i; second_of := second_of i + 1 |}
  else if minute_of i <? 59 then
    {| date := date i; hour_of := hour_of i; minute_of := minute_of i + 1; second_of := 0 |}
  else if hour_of i <? 23 then
    {| date := date i; hour_of := hour_of i + 1; minute_of := 0; second_of := 0 |}
  else {| date := tomorrow (date i); hour_of := 0; minute_of := 0; second_of := 0 |}.

Definition epoch : instant :=
  {| date := (1970, 1, 1); hour_of := 0; minute_of := 0; second_of := 0 |}.

(** RFC 3339 in UTC. *)
Definition rfc3339 (i : instant) (millis : Z) : string :=
  let '(year, month, day) := date i in
  String.concat "" [zero_pad 4 year; "-"; zero_pad 2 month; "-"; zero_pad 2 day; "T";
    zero_pad 2 (hour_of i); ":"; zero_pad 2 (minute_of i); ":"; zero_pad 2 (second_of i); ".";
    zero_pad 3 millis; "Z"].

Definition instant_of (s : Z) : instant :=
  {| date := civil (s / 86400); hour_of := s mod 86400 / 3600;
     minute_of := s mod 86400 mod 3600 / 60; second_of := s mod 86400 mod 60 |}.

Lemma instant_split d h mi s :
  0 <= h < 24 -> 0 <= mi < 60 -> 0 <= s < 60 ->
  instant_of (86400 * d + (3600 * h + (60 * mi + s))) =
  {| date := civil d; hour_of := h; minute_of := mi; second_of := s |}.
Proof.
  intros Hh Hm Hs. unfold instant_of.
  replace (_ mod 86400) with (3600 * h + (60 * mi + s))
    by (Z.div_mod_to_equations; lia).
  f_equal; [f_equal|..]; Z.div_mod_to_equations; lia.
Qed.

Lemma instant_tick s : 0 <= s -> one_second (instant_of s) = instant_of (s + 1).
Proof.
  intros H0.
  assert (exists d h mi sec, 0 <= h < 24 /\ 0 <= mi < 60 /\ 0 <= sec < 60 /\
    s = 86400 * d + (3600 * h + (60 * mi + sec))) as (d & h & mi & sec & Hh & Hm & Hs & ->).
  { exists (s / 86400), (s mod 86400 / 3600), (s mod 86400 mod 3600 / 60),
      (s mod 86400 mod 3600 mod 60). Z.div_mod_to_equations; lia. }
  rewrite instant_split by done. unfold one_second. cbn [date hour_of minute_of second_of].
  destruct (Z.ltb_spec sec 59).
  { rewrite <- instant_split by lia. f_equal. lia. }
  destruct (Z.ltb_spec mi 59).
  { rewrite <- instant_split by lia. f_equal. lia. }
  destruct (Z.ltb_spec h 23).
  { rewrite <- instant_split by lia. f_equal. lia. }
  rewrite civil_tomorrow, <- instant_split by lia. f_equal. lia.
Qed.

Lemma instant_iter n : instant_of (Z.of_nat n) = Nat.iter n one_second epoch.
Proof.
  induction n as [|n IH]; [vm_compute; done|].
  change (Nat.iter (S n) one_second epoch) with (one_second (Nat.iter n one_second epoch)).
  rewrite <- IH, instant_tick by lia. f_equal. lia.
Qed.

(** The timestamp the engine writes for a Unix time is the RFC 3339 text of the
    moment a clock shows that was set to 1970-01-01T00:00:00 and has ticked that many
    seconds through the Gregorian calendar, leap years included.  The bound keeps the year
    in the code's [i32]. *)
Theorem timestamp_is_calendar_time (seconds millis : Z) :
  0 <= seconds < 86400 * DAYS_BOUND ->
  format_unix_millis seconds millis =
  rfc3339 (Nat.iter (Z.to_nat seconds) one_second epoch) millis.
Proof.
  intros Hs. rewrite <- instant_iter, Z2Nat.id by lia.
  assert (0 <= seconds / 86400 < DAYS_BOUND) as Hd
    by (split; [apply Z.div_pos|apply Z.div_lt_upper_bound]; lia).
  unfold format_unix_millis. rewrite (proj2 (Z.leb_le (seconds / 86400) DAYS_MAX))
    by (unfold DAYS_MAX, DAYS_BOUND in *; lia).
  rewrite civil_from_days_spec by done. unfold rfc3339, instant_of. cbn.
  by destruct (civil (seconds / 86400)) as [[]].
Qed.

(** The 29th of February 2000, one second before midnight. *)
Lemma timestamp_is_calendar_time_witness :
  0 <= 951868799 < 86400 * DAYS_BOUND /\
  format_unix_millis 951868799 7 = rfc3339 (Nat.iter (Z.to_nat 951868799) one_second epoch) 7.
Proof. split; [split; reflexivity || discriminate|]. apply timestamp_is_calendar_time. split; [discriminate|reflexivity]. Defined.
