(* ===== verification/Reserves.v ===== *)
(** * Reserves: the proof of reserves of [services/api/src/repositories/proof.rs]

    The liabilities of the exchange, a Merkle tree over them, the proofs handed to users
    and the table of snapshots.  SHA-256, the text of a [Uuid] and the text of a
    [Decimal] come from crates: [HashOps] and [TextOps] list what the code calls,
    [HashLaws] and [TextLaws] what it relies on.  Strings are their UTF-8 bytes, which is
    also how Rust orders them. *)
From Stdlib Require Import Ascii.
From S2P Require Import Prelude Decimal BTree Numeric Database ApiBase.

#[local] Open Scope string_scope.

(** ** Strings and keys in order *)

#[export] Instance string_key : KeyOrd string := String.compare.
#[export] Instance uuid_key : KeyOrd Uuid := N.compare.
(** [Ordering::then_with]. *)
#[export] Instance pair_key {A B} {ka : KeyOrd A} {kb : KeyOrd B} : KeyOrd (A * B) :=
  fun x y => match kcmp x.1 y.1 with Eq => kcmp x.2 y.2 | c => c end.

Class HashOps := sha256 : string -> list Z.
Class HashLaws {h : HashOps} := {
  sha256_length s : length (sha256 s) = 32%nat;
  sha256_bytes s : Forall (fun b => 0 <= b < 256) (sha256 s);
}.

Class TextOps (D : Type) := {
  (** [Uuid]'s [Display]. *)
  uuid_text : Uuid -> string;
  (** [Decimal::normalize]: the same value without trailing zeros. *)
  normalize : D -> D;
}.

Definition colon : ascii := ":"%char.
Definition no_colon (s : string) : Prop := colon ∉ String.list_ascii_of_string s.

Class TextLaws (D : Type) {dt : DecimalText D} {t : TextOps D} := {
  uuid_text_inj x y : uuid_text x = uuid_text y -> x = y;
  uuid_no_colon x : no_colon (uuid_text x);
  normalize_value x : normalize x = x;
  parse_to_string x : parse_decimal (decimal_to_string x) = Some x;
  to_string_no_colon x : no_colon (decimal_to_string x);
}.

(** ** Records *)

Record ProofLiability := mkProofLiability {
  pl_user_id : Uuid; pl_asset : string; pl_total : string }.

Record ProofSnapshot := mkProofSnapshot {
  ps_id : Uuid;
  ps_merkle_root : string;
  ps_liabilities : list ProofLiability;
  ps_generated_at : Z;
}.

Record LiabilitySummary := mkLiabilitySummary { ls_asset : string; ls_total : string }.

Record UserProofEntry := mkUserProofEntry {
  pe_asset : string;
  pe_total : string;
  pe_leaf_payload : string;
  pe_leaf_hash : string;
  pe_sibling_hashes : list string;
}.

Record LiabilityRow (D : Type) := mkLiabilityRow {
  lr_user_id : Uuid; lr_asset : string; lr_total : D }.
Arguments mkLiabilityRow {D}.
Arguments lr_user_id {D} _.
Arguments lr_asset {D} _.
Arguments lr_total {D} _.

Record MerkleLeaf := mkMerkleLeaf {
  ml_liability : ProofLiability; ml_payload : string; ml_hash : string }.

Record MerkleTree := mkMerkleTree { mk_leaves : list MerkleLeaf; mk_root : string }.

#[export] Instance liability_eq_dec : EqDecision ProofLiability.
Proof. solve_decision. Defined.

Definition EMPTY_ROOT_PAYLOAD : string := "aether:por:v1:empty".
Definition INTERNAL_PREFIX : string := "aether:por:v1:node".
Definition LEAF_PREFIX : string := "aether:por:v1:leaf".

(** ** Hashes *)

Definition HEX : string := "0123456789abcdef".

Definition hex_digit (n : Z) : ascii := default "0"%char (String.get (Z.to_nat n) HEX).

Fixpoint hex_lower (bs : list Z) : string :=
  match bs with
  | [] => ""
  | b :: bs =>
      String (hex_digit (Z.shiftr b 4)) (String (hex_digit (Z.land b 15)) (hex_lower bs))
  end.

Section Merkle.
Context {D : Type} {dops : DecimalOps D} {pg : PgDecimal D}.
Context {hops : HashOps} {dt : DecimalText D} {tops : TextOps D}.

Definition canonical_decimal (value : D) : string := decimal_to_string (normalize value).

Definition hash_hex (payload : string) : string := hex_lower (sha256 payload).

(** What [hash_pair] hashes. *)
Definition pair_payload (l r : string) : string :=
  let '(first, second) := if String.leb l r then (l, r) else (r, l) in
  INTERNAL_PREFIX ++ ":" ++ first ++ ":" ++ second.

Definition hash_pair (l r : string) : string := hash_hex (pair_payload l r).

Definition leaf_payload (liability : ProofLiability) : string :=
  LEAF_PREFIX ++ ":" ++ uuid_text (pl_user_id liability) ++ ":" ++ pl_asset liability ++ ":" ++
  pl_total liability.

(** ** The tree *)

(** A chunk of [chunks(2)] has one or two elements. *)
Fixpoint next_level (level : list string) : list string :=
  match level with
  | l :: r :: rest => hash_pair l r :: next_level rest
  | _ => level
  end.

(** The loop [while level.len() > 1]; [merkle_loop_done] shows that as many rounds as the
    level has hashes are enough. *)
Fixpoint merkle_loop (fuel : nat) (level : list string) : list string :=
  match fuel with
  | O => level
  | S fuel => if (1 <? length level)%nat then merkle_loop fuel (next_level level) else level
  end.

Definition merkle_root (level : list string) : string :=
  match level with
  | [] => hash_hex EMPTY_ROOT_PAYLOAD
  | _ => default (hash_hex EMPTY_ROOT_PAYLOAD) (head (merkle_loop (length level) level))
  end.

(** The index counts leaves, so that [saturating_add] does not saturate. *)
Fixpoint proof_loop (fuel : nat) (level : list string) (index : nat) : list string :=
  match fuel with
  | O => []
  | S fuel =>
      if (1 <? length level)%nat then
        let sibling_index := if Nat.even index then S index else pred index in
        match level !! sibling_index with
        | Some sibling => [sibling]
        | None => []
        end ++ proof_loop fuel (next_level level) (index / 2)%nat
      else []
  end%list.

Definition proof_for_index (leaves : list string) (index : nat) : list string :=
  proof_loop (length leaves) leaves index.

(** [a.asset.cmp(&b.asset).then_with(user_id).then_with(total)]. *)
Definition liability_key (l : ProofLiability) : string * (Uuid * string) :=
  (pl_asset l, (pl_user_id l, pl_total l)).
Definition liability_le (a b : ProofLiability) : Prop :=
  kcmp (liability_key a) (liability_key b) <> Gt.

#[export] Instance liability_le_dec a b : Decision (liability_le a b).
Proof. unfold liability_le. apply _. Defined.

Definition merkle_leaf (l : ProofLiability) : MerkleLeaf :=
  let payload := leaf_payload l in mkMerkleLeaf l payload (hash_hex payload).

Definition MerkleTree_new (liabilities : list ProofLiability) : MerkleTree :=
  let leaves := merkle_leaf <$> merge_sort liability_le liabilities in
  mkMerkleTree leaves (merkle_root (ml_hash <$> leaves)).

Definition entries_for_user (t : MerkleTree) (user_id : Uuid) : list UserProofEntry :=
  let hashes := ml_hash <$> mk_leaves t in
  let entry '(index, leaf) :=
    mkUserProofEntry (pl_asset (ml_liability leaf)) (pl_total (ml_liability leaf))
      (ml_payload leaf) (ml_hash leaf) (proof_for_index hashes index) in
  entry <$> filter (fun il => pl_user_id (ml_liability il.2) = user_id)
    (imap pair (mk_leaves t)).

Definition user_proof_entries (snapshot : ProofSnapshot) (user_id : Uuid) : list UserProofEntry :=
  entries_for_user (MerkleTree_new (ps_liabilities snapshot)) user_id.

Definition verify_proof (payload : string) (sibling_hashes : list string) (root : string) : bool :=
  bool_decide (fold_left hash_pair sibling_hashes (hash_hex payload) = root).

(** ** The summary *)

Definition add_liability (totals : btree string D) (l : ProofLiability) : btree string D :=
  let amount := default dzero (parse_decimal (pl_total l)) in
  bt_insert (pl_asset l)
    (match bt_get (pl_asset l) totals with Some total => dadd total amount | None => amount end)
    totals.

Definition summarize_liabilities (snapshot : ProofSnapshot) : list LiabilitySummary :=
  (fun '(asset, total) => mkLiabilitySummary asset (canonical_decimal total)) <$>
  fold_left add_liability (ps_liabilities snapshot) [].

(** ** Snapshots *)

Section Snapshots.
Context {J : Type}.
(** The rows in the order of [ORDER BY a.symbol, b.user_id] under the collation of the
    database. *)
Context (sql_order : list (Uuid * string * Z) -> list (Uuid * string * Z)).

(** The join of balances, assets and users, with the [WHERE] clause. *)
Definition liability_row (db : Db J) (kb : (Uuid * Uuid) * Balance) : option (Uuid * string * Z) :=
  let '((user_id, asset_id), b) := kb in
  match assets db !! asset_id, users db !! user_id with
  | Some a, Some u =>
      if (0 <? available b + locked b)%Z && negb (bool_decide (ut_status u = "closed"))
         && negb (ut_is_mm u)
      then Some (user_id, at_symbol a, (available b + locked b)%Z) else None
  | _, _ => None
  end.

Definition decode_liability (r : Uuid * string * Z) : option (LiabilityRow D) :=
  mkLiabilityRow r.1.1 r.1.2 <$> of_pg r.2.

Definition current_liabilities : Tx J (list ProofLiability) :=
  bind get (fun db =>
  bind (of_option ColumnDecode
    (mapM decode_liability (sql_order (omap (liability_row db) (map_to_list (balances db))))))
    (fun rows => ret ((fun row : LiabilityRow D =>
       mkProofLiability (lr_user_id row) (lr_asset row) (canonical_decimal (lr_total row)))
       <$> rows))).

(** [ORDER BY generated_at DESC LIMIT 1]. *)
Definition latest_snapshot (rows : list ProofSnapshot) : option ProofSnapshot :=
  fold_left (fun best row =>
    match best with
    | Some b => if (ps_generated_at b <? ps_generated_at row)%Z then Some row else best
    | None => Some row
    end) rows None.

(** [gen_random_uuid()] and [now()] are the defaults of the columns. *)
Definition insert_snapshot (id : Uuid) (now : Z) (root : string)
    (liabilities : list ProofLiability) (rows : list ProofSnapshot) :
    result DbError ProofSnapshot * list ProofSnapshot :=
  if bool_decide (id ∈ ps_id <$> rows) then (Err UniqueViolation, rows)
  else let row := mkProofSnapshot id root liabilities now in (Ok row, (rows ++ [row])%list).

(** The balances are read from [db], the snapshots from [rows]. *)
Definition ensure_current_snapshot (id : Uuid) (now : Z) (db : Db J) (rows : list ProofSnapshot) :
    result DbError ProofSnapshot * list ProofSnapshot :=
  match run_stmt current_liabilities db with
  | (Err e, _) => (Err e, rows)
  | (Ok liabilities, _) =>
      let tree := MerkleTree_new liabilities in
      match latest_snapshot rows with
      | Some latest =>
          if bool_decide (ps_merkle_root latest = mk_root tree) then (Ok latest, rows)
          else insert_snapshot id now (mk_root tree) liabilities rows
      | None => insert_snapshot id now (mk_root tree) liabilities rows
      end
  end.

(** ** The endpoints of [handlers/proof.rs] *)

(** [OffsetDateTime]'s [Display]. *)
Context (time_text : Z -> string).

Record ProofLatestResponse := mkProofLatestResponse {
  lat_snapshot_id : Uuid;
  lat_merkle_root : string;
  lat_generated_at : string;
  lat_liabilities : list LiabilitySummary;
}.

Record MyProofResponse := mkMyProofResponse {
  my_snapshot_id : Uuid;
  my_merkle_root : string;
  my_generated_at : string;
  my_entries : list UserProofEntry;
}.

Definition latest_response (s : ProofSnapshot) : ProofLatestResponse :=
  mkProofLatestResponse (ps_id s) (ps_merkle_root s) (time_text (ps_generated_at s))
    (summarize_liabilities s).

(** [GET /proof-of-reserves/latest]; a database error is the internal error. *)
Definition latest_proof (request_id id : Uuid) (now : Z) (db : Db J) (rows : list ProofSnapshot) :
    result ApiError ProofLatestResponse * list ProofSnapshot :=
  match ensure_current_snapshot id now db rows with
  | (Err _, rows) => (Err (with_request_id request_id internal), rows)
  | (Ok snapshot, rows) => (Ok (latest_response snapshot), rows)
  end.

(** [GET /proof-of-reserves/me]. *)
Definition my_proof (request_id caller id : Uuid) (now : Z) (db : Db J)
    (rows : list ProofSnapshot) : result ApiError MyProofResponse * list ProofSnapshot :=
  match ensure_current_snapshot id now db rows with
  | (Err _, rows) => (Err (with_request_id request_id internal), rows)
  | (Ok s, rows) =>
      (Ok (mkMyProofResponse (ps_id s) (ps_merkle_root s) (time_text (ps_generated_at s))
             (user_proof_entries s caller)), rows)
  end.
End Snapshots.
End Merkle.
