(* ===== verification/ReservesTree.v ===== *)
(** * ReservesTree: the Merkle tree behind the proof of reserves

    The order the leaves are sorted in, the hexadecimal text of a hash, the levels the
    code computes and the binary trees they stand for ([htree]); [fits] says that a level
    consists of the roots of given trees. *)
From Stdlib Require Import Ascii.
From S2P Require Import Prelude Decimal BTree Numeric Database ApiBase Reserves.

(** ** Keys in order *)

#[export] Instance string_key_laws : KeyOrdLaws string.
Proof.
  assert (forall x, String.compare x x = Eq) as Hrefl.
  { induction x as [|c x IH]; simpl; [done|]. unfold Ascii.compare. by rewrite N.compare_refl. }
  assert (forall x y : string, String.compare y x = CompOpp (String.compare x y)) as Hanti
    by (intros; apply String.compare_antisym).
  split; unfold kcmp, string_key.
  - intros x y. split; [apply String.compare_eq_iff|intros ->; apply Hrefl].
  - intros x y. apply Hanti.
  - intros x y z H1 H2.
    assert (String.le x z) as Hle.
    { transitivity y; unfold String.le, String.leb; [by rewrite H1|by rewrite H2]. }
    unfold String.le, String.leb in Hle.
    destruct (String.compare x z) eqn:E; [|done|done].
    apply String.compare_eq_iff in E as ->. rewrite Hanti, H1 in H2. done.
Qed.

#[export] Instance uuid_key_laws : KeyOrdLaws Uuid.
Proof.
  split; unfold kcmp, uuid_key; intros *; [apply N.compare_eq_iff|apply N.compare_antisym|].
  rewrite !N.compare_lt_iff. apply N.lt_trans.
Qed.

#[export] Instance pair_key_laws {A B} {ka : KeyOrd A} {kb : KeyOrd B}
  {la : KeyOrdLaws A} {lb : KeyOrdLaws B} : KeyOrdLaws (A * B).
Proof.
  split; unfold kcmp, pair_key; intros *.
  - destruct (kcmp x.1 y.1) eqn:E.
    + apply kcmp_eq in E. rewrite kcmp_eq. destruct x, y; simpl in *. naive_solver.
    + split; [done|]. intros ->. assert (kcmp y.1 y.1 = Eq) by by apply kcmp_eq. congruence.
    + split; [done|]. intros ->. assert (kcmp y.1 y.1 = Eq) by by apply kcmp_eq. congruence.
  - rewrite (kcmp_antisym x.1 y.1), (kcmp_antisym x.2 y.2). by destruct (kcmp x.1 y.1).
  - destruct (kcmp x.1 y.1) eqn:E1, (kcmp y.1 z.1) eqn:E2; try done; intros H1 H2.
    + apply kcmp_eq in E1, E2. rewrite E1, E2, (proj2 (kcmp_eq z.1 z.1)) by done.
      by apply kcmp_trans with y.2.
    + apply kcmp_eq in E1. by rewrite E1, E2.
    + apply kcmp_eq in E2. by rewrite <- E2, E1.
    + by rewrite (kcmp_trans _ _ _ E1 E2).
Qed.

Section KeyLe.
Context {K : Type} {ko : KeyOrd K} {kl : KeyOrdLaws K}.
Implicit Types x y z : K.

Lemma kle_total x y : kcmp x y <> Gt \/ kcmp y x <> Gt.
Proof. rewrite (kcmp_antisym x y). destruct (kcmp x y); simpl; naive_solver. Qed.

Lemma kle_antisym x y : kcmp x y <> Gt -> kcmp y x <> Gt -> x = y.
Proof.
  rewrite (kcmp_antisym x y). destruct (kcmp x y) eqn:E; simpl; [|done..].
  intros _ _. by apply kcmp_eq.
Qed.

Lemma kle_trans x y z : kcmp x y <> Gt -> kcmp y z <> Gt -> kcmp x z <> Gt.
Proof.
  destruct (kcmp x y) eqn:E1; [apply kcmp_eq in E1 as ->; done| |done].
  destruct (kcmp y z) eqn:E2; [apply kcmp_eq in E2 as ->; by rewrite E1| |done].
  by rewrite (kcmp_trans _ _ _ E1 E2).
Qed.
End KeyLe.

#[export] Instance liability_le_trans : Transitive liability_le.
Proof. intros x y z. apply kle_trans. Qed.
#[export] Instance liability_le_total : Total liability_le.
Proof. intros x y. apply kle_total. Qed.
#[export] Instance liability_le_antisym : AntiSymm (=) liability_le.
Proof.
  intros [] [] H1 H2. pose proof (kle_antisym _ _ H1 H2) as E. unfold liability_key in E.
  simpl in E. by simplify_eq.
Qed.

(** Sorting forgets the order the liabilities came in. *)
Lemma sorted_liabilities_perm l k :
  l ≡ₚ k -> merge_sort liability_le l = merge_sort liability_le k.
Proof.
  intros Hp. apply (StronglySorted_unique liability_le).
  - apply StronglySorted_merge_sort; apply _.
  - apply StronglySorted_merge_sort; apply _.
  - by rewrite !merge_sort_Permutation.
Qed.

(** ** Hexadecimal text *)

Lemma hex_lower_length bs : String.length (hex_lower bs) = (2 * length bs)%nat.
Proof. induction bs as [|b bs IH]; simpl; [done|]. rewrite IH. lia. Qed.

Definition nibble_ok (n : Z) : bool :=
  forallb (fun m => implb (bool_decide (hex_digit n = hex_digit m)) (n =? m)) (seqZ 0 16).

Lemma nibbles_ok : forallb nibble_ok (seqZ 0 16) = true.
Proof. vm_compute. reflexivity. Qed.

Lemma hex_digit_inj n m :
  0 <= n < 16 -> 0 <= m < 16 -> hex_digit n = hex_digit m -> n = m.
Proof.
  intros Hn Hm He. pose proof nibbles_ok as H. rewrite forallb_forall in H.
  specialize (H n ltac:(apply list_elem_of_In, elem_of_seqZ; lia)). unfold nibble_ok in H.
  rewrite forallb_forall in H.
  specialize (H m ltac:(apply list_elem_of_In, elem_of_seqZ; lia)).
  rewrite bool_decide_eq_true_2 in H by done. simpl in H. lia.
Qed.

Lemma byte_nibbles b : 0 <= b < 256 ->
  b = 16 * Z.shiftr b 4 + Z.land b 15 /\ 0 <= Z.shiftr b 4 < 16 /\ 0 <= Z.land b 15 < 16.
Proof.
  intros Hb. rewrite Z.shiftr_div_pow2 by done. change 15 with (Z.ones 4).
  rewrite Z.land_ones by done. change (2 ^ 4) with 16. Z.div_mod_to_equations. lia.
Qed.

Lemma hex_lower_inj bs cs :
  Forall (fun b => 0 <= b < 256) bs -> Forall (fun b => 0 <= b < 256) cs ->
  hex_lower bs = hex_lower cs -> bs = cs.
Proof.
  intros Hb. revert cs. induction Hb as [|b bs Hb _ IH]; intros cs Hc He.
  - by destruct Hc.
  - destruct Hc as [|c cs Hc Hcs]; [done|]. cbn in He. injection He as H1 H2 H3.
    destruct (byte_nibbles b Hb) as (Eb & ? & ?), (byte_nibbles c Hc) as (Ec & ? & ?).
    apply hex_digit_inj in H1, H2; [|done..]. f_equal; [lia|auto].
Qed.

Section Tree.
Context {hops : HashOps} {hlaws : HashLaws}.

Lemma hash_hex_length s : String.length (hash_hex s) = 64%nat.
Proof. unfold hash_hex. by rewrite hex_lower_length, sha256_length. Qed.

Lemma hash_hex_inj s t : hash_hex s = hash_hex t -> sha256 s = sha256 t.
Proof. apply hex_lower_inj; apply sha256_bytes. Qed.

Lemma pair_payload_comm a b : pair_payload a b = pair_payload b a.
Proof.
  unfold pair_payload. destruct (String.leb a b) eqn:E1, (String.leb b a) eqn:E2; try done.
  - by rewrite (String.leb_antisym _ _ E1 E2).
  - destruct (String.leb_total a b); congruence.
Qed.

Lemma hash_pair_comm a b : hash_pair a b = hash_pair b a.
Proof. unfold hash_pair. by rewrite pair_payload_comm. Qed.

(** ** Levels *)

(** Two levels at a time. *)
Lemma level_ind (P : list string -> Prop) :
  P [] -> (forall a, P [a]) -> (forall a b l, P l -> P (a :: b :: l)) -> forall l, P l.
Proof.
  intros H0 H1 H2 l. enough (P l /\ forall a, P (a :: l)) as [? _] by done.
  induction l as [|b l [IH1 IH2]]; [auto|]. split; [apply IH2|]. intros a. by apply H2.
Qed.

Lemma next_level_length l : length (next_level l) = ((length l + 1) / 2)%nat.
Proof.
  induction l as [| |a b l IH] using level_ind; [done..|]. cbn [next_level length].
  rewrite IH. replace (S (S (length l)) + 1)%nat with (length l + 1 + 1 * 2)%nat by lia.
  rewrite Nat.div_add by done. lia.
Qed.

Lemma next_level_shorter l : (1 < length l)%nat -> (length (next_level l) < length l)%nat.
Proof.
  intros H. rewrite next_level_length. apply Nat.Div0.div_lt_upper_bound. lia.
Qed.

Lemma next_level_nonempty l : l <> [] -> next_level l <> [].
Proof. by destruct l as [|? []]. Qed.

Lemma merkle_loop_S fuel l :
  merkle_loop (S fuel) l =
  if (1 <? length l)%nat then merkle_loop fuel (next_level l) else l.
Proof. reflexivity. Qed.

Lemma proof_loop_S fuel l i :
  proof_loop (S fuel) l i =
  if (1 <? length l)%nat then
    match l !! (if Nat.even i then S i else pred i) with Some s => [s] | None => [] end ++
    proof_loop fuel (next_level l) (i / 2)%nat
  else [].
Proof. reflexivity. Qed.

(** The loop of [merkle_root] ends with one hash. *)
Lemma merkle_loop_done fuel l :
  l <> [] -> (length l <= fuel)%nat -> exists r, merkle_loop fuel l = [r].
Proof.
  revert l. induction fuel as [|fuel IH]; intros l Hl Hf.
  - destruct l; simpl in Hf; [done|lia].
  - rewrite merkle_loop_S. destruct (Nat.ltb_spec 1 (length l)) as [H|H].
    + apply IH; [by apply next_level_nonempty|]. pose proof (next_level_shorter l H). lia.
    + destruct l as [|x [|]]; simpl in H; [done|by exists x|lia].
Qed.

Lemma merkle_root_eq l : l <> [] -> [merkle_root l] = merkle_loop (length l) l.
Proof.
  intros Hl. destruct (merkle_loop_done (length l) l Hl) as [r Hr]; [done|].
  unfold merkle_root. destruct l; [done|]. by rewrite Hr.
Qed.

(** What the hash at [i] becomes on the next level, given its sibling. *)
Lemma next_level_lookup l i h :
  l !! i = Some h ->
  next_level l !! (i / 2)%nat =
    Some (fold_left hash_pair
      (match l !! (if Nat.even i then S i else pred i) with Some s => [s] | None => [] end) h).
Proof.
  revert i. induction l as [|a|a b l IH] using level_ind; intros i Hi; [done|..].
  - destruct i as [|i]; [|done]. simpl in *. congruence.
  - destruct i as [|[|i]]; simpl in Hi; simplify_eq; [done|simpl; by rewrite hash_pair_comm|].
    replace (S (S i) / 2)%nat with (S (i / 2)%nat)
      by (replace (S (S i)) with (i + 1 * 2)%nat by lia; rewrite Nat.div_add; lia).
    change (next_level (a :: b :: l) !! S (i / 2)%nat) with (next_level l !! (i / 2)%nat).
    rewrite (IH i Hi).
    do 2 f_equal. change (Nat.even (S (S i))) with (Nat.even i).
    destruct (Nat.even i) eqn:E; [done|]. destruct i; [done|]. done.
Qed.

(** A leaf and its proof lead to the root. *)
Lemma proof_loop_root fuel l i h :
  l !! i = Some h -> (length l <= fuel)%nat ->
  merkle_loop fuel l = [fold_left hash_pair (proof_loop fuel l i) h].
Proof.
  revert l i h. induction fuel as [|fuel IH]; intros l i h Hi Hf.
  - destruct l; simpl in Hf; [done|lia].
  - rewrite merkle_loop_S, proof_loop_S. destruct (Nat.ltb_spec 1 (length l)) as [H|H].
    + rewrite fold_left_app. apply IH; [by apply next_level_lookup|].
      pose proof (next_level_shorter l H). lia.
    + destruct l as [|x [|]]; simpl in H; [done| |lia].
      destruct i as [|i]; [simpl in *; congruence|done].
Qed.

Lemma proof_for_index_root l i h :
  l !! i = Some h -> fold_left hash_pair (proof_for_index l i) h = merkle_root l.
Proof.
  intros Hi. assert (l <> []) as Hl by by intros ->.
  pose proof (merkle_root_eq l Hl) as E. unfold proof_for_index.
  rewrite (proof_loop_root _ _ _ _ Hi) in E by done. by injection E.
Qed.
End Tree.
