(* ===== verification/ReservesSound.v ===== *)
(** * ReservesSound: what a root commits to

    A level of hashes stands for binary trees over leaf payloads; the root stands for one
    tree ([root_tree]).  As long as SHA-256 does not collide on the strings the code
    hashes, a path that ends in the root starts at a leaf of that tree, and two trees with
    one root have the same leaves. *)
From Stdlib Require Import Ascii.
From S2P Require Import Prelude Decimal BTree Numeric Database ApiBase Reserves.
From S2P Require Import ReservesTree.

#[local] Open Scope string_scope.

(** ** Taking concatenations apart *)

Lemma string_length_app a b : String.length (a ++ b) = (String.length a + String.length b)%nat.
Proof. induction a as [|c a IH]; simpl; [done|]. congruence. Qed.

Lemma string_app_assoc a b c : a ++ b ++ c = (a ++ b) ++ c.
Proof.
  induction a as [|x a IH]; [reflexivity|].
  change (String x (a ++ b ++ c) = String x ((a ++ b) ++ c)). by rewrite IH.
Qed.

Lemma string_app_inj x y a b :
  String.length x = String.length y -> x ++ a = y ++ b -> x = y /\ a = b.
Proof.
  revert y. induction x as [|c x IH]; intros [|d y] Hl He; simpl in *; try done.
  injection He as -> He. destruct (IH y); [lia|done|]. split; congruence.
Qed.

Lemma string_app_inj_r x y a b :
  String.length a = String.length b -> x ++ a = y ++ b -> x = y /\ a = b.
Proof.
  intros Hl He. apply string_app_inj; [|done].
  apply (f_equal String.length) in He. rewrite !string_length_app in He. lia.
Qed.

(** The last colon separates two texts when the second has none. *)
Lemma last_colon_inj x y a b :
  no_colon a -> no_colon b -> x ++ ":" ++ a = y ++ ":" ++ b -> x = y /\ a = b.
Proof.
  assert (forall x a, no_colon (x ++ String colon a) -> False) as Hno.
  { intros z a' H. apply H. induction z; simpl; [left|right; auto].
    apply IHz. intros ?. apply H. by right. }
  change (":" ++ a) with (String colon a). change (":" ++ b) with (String colon b).
  intros Ha Hb. revert y. induction x as [|c x IH]; intros [|d y] He; cbn in He.
  - injection He as He. done.
  - injection He as <- He. rewrite He in Ha. destruct (Hno _ _ Ha).
  - injection He as -> He. rewrite <- He in Hb. destruct (Hno _ _ Hb).
  - injection He as -> He. destruct (IH y He). split; congruence.
Qed.

(** The first colon does when the first has none. *)
Lemma first_colon_inj x y a b :
  no_colon x -> no_colon y -> x ++ ":" ++ a = y ++ ":" ++ b -> x = y /\ a = b.
Proof.
  change (":" ++ a) with (String colon a). change (":" ++ b) with (String colon b).
  unfold no_colon. revert y. induction x as [|c x IH]; intros [|d y] Hx Hy He; cbn in *.
  - injection He as He. done.
  - injection He as <- He. destruct Hy. left.
  - injection He as -> He. destruct Hx. left.
  - injection He as -> He. destruct (IH y); [set_solver..|done|]. split; congruence.
Qed.

(** ** What the code hashes *)

Section Inputs.
Context {hops : HashOps}.

Fixpoint level_inputs (level : list string) : list string :=
  match level with
  | a :: b :: rest => pair_payload a b :: level_inputs rest
  | _ => []
  end.

Fixpoint loop_inputs (fuel : nat) (level : list string) : list string :=
  match fuel with
  | O => []
  | S fuel => (level_inputs level ++ loop_inputs fuel (next_level level))%list
  end.

(** The strings hashed by [merkle_root] after the leaf payloads [ps]. *)
Definition root_inputs (ps : list string) : list string :=
  (EMPTY_ROOT_PAYLOAD :: ps ++ loop_inputs (length ps) (hash_hex <$> ps))%list.

(** The strings hashed by [verify_proof]. *)
Fixpoint path_inputs (current : string) (siblings : list string) : list string :=
  match siblings with
  | [] => []
  | s :: siblings => pair_payload current s :: path_inputs (hash_pair current s) siblings
  end.
Definition verify_inputs (payload : string) (siblings : list string) : list string :=
  payload :: path_inputs (hash_hex payload) siblings.

Definition collision_free (inputs : list string) : Prop :=
  forall x y, x ∈ inputs -> y ∈ inputs -> sha256 x = sha256 y -> x = y.
End Inputs.

(** ** Trees *)

Inductive htree := HLeaf (payload : string) | HNode (l r : htree).

Section Sound.
Context {hops : HashOps} {hlaws : HashLaws}.

Fixpoint thash (t : htree) : string :=
  match t with HLeaf p => hash_hex p | HNode l r => hash_pair (thash l) (thash r) end.
Fixpoint tleaves (t : htree) : list string :=
  match t with HLeaf p => [p] | HNode l r => tleaves l ++ tleaves r end%list.
Fixpoint preimages (t : htree) : list string :=
  match t with
  | HLeaf p => [p]
  | HNode l r => pair_payload (thash l) (thash r) :: preimages l ++ preimages r
  end%list.

Fixpoint next_trees (ts : list htree) : list htree :=
  match ts with
  | a :: b :: rest => HNode a b :: next_trees rest
  | _ => ts
  end.

Lemma tree_level_ind (P : list htree -> Prop) :
  P [] -> (forall a, P [a]) -> (forall a b l, P l -> P (a :: b :: l)) -> forall l, P l.
Proof.
  intros H0 H1 H2 l. enough (P l /\ forall a, P (a :: l)) as [? _] by done.
  induction l as [|b l [IH1 IH2]]; [auto|]. split; [apply IH2|]. intros a. by apply H2.
Qed.

Lemma next_trees_spec ts :
  next_level (thash <$> ts) = thash <$> next_trees ts /\
  concat (tleaves <$> next_trees ts) = concat (tleaves <$> ts) /\
  concat (preimages <$> next_trees ts) ⊆
    (level_inputs (thash <$> ts) ++ concat (preimages <$> ts))%list.
Proof.
  induction ts as [| |a b ts (IH1 & IH2 & IH3)] using tree_level_ind; [done|done|].
  cbn [next_trees fmap list_fmap next_level thash concat tleaves preimages level_inputs].
  split_and!; [f_equal; apply IH1|by rewrite <- app_assoc; do 2 f_equal|].
  intros x. specialize (IH3 x). revert IH3.
  set_solver.
Qed.

Lemma loop_tree fuel ts r :
  merkle_loop fuel (thash <$> ts) = [r] ->
  exists t, thash t = r /\ tleaves t = concat (tleaves <$> ts) /\
    preimages t ⊆ (loop_inputs fuel (thash <$> ts) ++ concat (preimages <$> ts))%list.
Proof.
  revert ts. induction fuel as [|fuel IH]; intros ts.
  - destruct ts as [|t []]; [done| |done]. intros [= <-]. exists t. simpl.
    rewrite !app_nil_r. done.
  - rewrite merkle_loop_S. destruct (1 <? _)%nat eqn:E.
    + destruct (next_trees_spec ts) as (Hn & Hl & Hp). rewrite Hn. intros H.
      destruct (IH _ H) as (t & ? & Ht & Hpt). exists t. split_and!; [done|congruence|].
      intros x Hx%Hpt. cbn [loop_inputs]. rewrite Hn. rewrite !elem_of_app in *.
      destruct Hx as [|Hx%Hp]; [tauto|]. rewrite elem_of_app in Hx. tauto.
    + destruct ts as [|t []]; [done| |done]. intros [= <-]. exists t. split_and!; [done|..].
      * simpl. by rewrite app_nil_r.
      * simpl. rewrite app_nil_r. intros x Hx. rewrite elem_of_app. auto.
Qed.

Definition padded (ps : list string) : list string :=
  match ps with [] => [EMPTY_ROOT_PAYLOAD] | _ => ps end.

(** The root is the hash of one tree, whose leaves are the payloads. *)
Lemma root_tree ps : exists t,
  thash t = merkle_root (hash_hex <$> ps) /\ tleaves t = padded ps /\
  preimages t ⊆ root_inputs ps.
Proof.
  destruct ps as [|p ps].
  { exists (HLeaf EMPTY_ROOT_PAYLOAD). split_and!; [done..|]. unfold root_inputs. set_solver. }
  assert (hash_hex <$> p :: ps <> []) as Hne by done.
  pose proof (merkle_root_eq _ Hne) as Hr. clear Hne. set (qs := p :: ps) in *.
  assert (hash_hex <$> qs = thash <$> (HLeaf <$> qs)) as Hq by by rewrite <- list_fmap_compose.
  rewrite length_fmap, Hq in Hr. symmetry in Hr. apply loop_tree in Hr as (t & Ht & Hl & Hp).
  assert (forall xs : list string, concat ((fun x => [x]) <$> xs) = xs) as Hc
    by (induction xs as [|x xs IH]; [done|]; cbn; by f_equal).
  assert (tleaves <$> (HLeaf <$> qs) = (fun x => [x]) <$> qs) as E1
    by by rewrite <- list_fmap_compose.
  assert (preimages <$> (HLeaf <$> qs) = (fun x => [x]) <$> qs) as E2
    by by rewrite <- list_fmap_compose.
  rewrite E1, Hc in Hl. rewrite E2, Hc, <- Hq in Hp. rewrite <- Hq in Ht.
  exists t. split_and!; [done..|]. unfold root_inputs. intros x Hx%Hp.
  rewrite elem_of_cons, !elem_of_app in *. tauto.
Qed.

(** ** Payloads *)

Definition not_node (p : string) : Prop := forall a b, p <> pair_payload a b.

Lemma pair_payload_prefix a b : exists s, pair_payload a b = INTERNAL_PREFIX ++ s.
Proof.
  unfold pair_payload. destruct (if String.leb a b then (a, b) else (b, a)). eauto.
Qed.

Lemma empty_not_node : not_node EMPTY_ROOT_PAYLOAD.
Proof. intros a b. destruct (pair_payload_prefix a b) as [s ->]. done. Qed.

(** Two texts can be told from the payload of their pair, given a length of each. *)
Lemma joined_inj x y x' y' :
  String.length x = String.length x' \/ String.length y = String.length y' ->
  INTERNAL_PREFIX ++ ":" ++ x ++ ":" ++ y = INTERNAL_PREFIX ++ ":" ++ x' ++ ":" ++ y' ->
  x = x' /\ y = y'.
Proof.
  intros Hl H. apply string_app_inj in H as [_ H]; [|done].
  apply string_app_inj in H as [_ H]; [|done]. destruct Hl as [Hl|Hl].
  - apply string_app_inj in H as [-> H]; [|done]. by apply string_app_inj in H as [_ ->].
  - apply string_app_inj_r in H as [-> H]; [|rewrite !string_length_app; lia].
    by apply string_app_inj in H as [_ ->].
Qed.

Lemma pair_payload_inj a s c d :
  String.length a = 64%nat -> String.length c = 64%nat -> String.length d = 64%nat ->
  pair_payload a s = pair_payload c d -> a = c /\ s = d \/ a = d /\ s = c.
Proof.
  intros Ha Hc Hd. unfold pair_payload.
  destruct (String.leb a s), (String.leb c d); intros H; apply joined_inj in H; [tauto|lia|..].
  all: tauto || lia.
Qed.

Lemma thash_length t : String.length (thash t) = 64%nat.
Proof. destruct t; apply hash_hex_length. Qed.

Lemma collision_free_subset (xs ys : list string) :
  xs ⊆ ys -> collision_free ys -> collision_free xs.
Proof. intros Hs Hc x y Hx Hy. apply Hc; auto. Qed.

(** ** Paths *)

Lemma path_inputs_snoc c ss s :
  path_inputs c (ss ++ [s])%list = (path_inputs c ss ++ [pair_payload (fold_left hash_pair ss c) s])%list.
Proof. revert c. induction ss as [|s' ss IH]; intros c; [done|]. cbn. by rewrite IH. Qed.

Lemma path_length c ss :
  String.length c = 64%nat -> String.length (fold_left hash_pair ss c) = 64%nat.
Proof.
  revert c. induction ss as [|s ss IH]; intros c Hc; [done|]. apply IH, hash_hex_length.
Qed.

(** A path that ends in the hash of a tree starts at one of its leaves. *)
Lemma path_sound p ss t :
  not_node p -> Forall not_node (tleaves t) ->
  collision_free (verify_inputs p ss ++ preimages t)%list ->
  fold_left hash_pair ss (hash_hex p) = thash t -> p ∈ tleaves t.
Proof.
  intros Hp. revert t. induction ss as [|s ss IH] using rev_ind; intros t Ht Hc He.
  - destruct t as [q|a b]; cbn in *; apply hash_hex_inj in He; apply Hc in He.
    all: try set_solver. destruct (Hp _ _ He).
  - rewrite fold_left_app in He. cbn in He.
    set (c := fold_left hash_pair ss (hash_hex p)) in *.
    assert (Hin : pair_payload c s ∈ (verify_inputs p (ss ++ [s]) ++ preimages t)%list).
    { unfold verify_inputs. rewrite path_inputs_snoc. fold c. set_solver. }
    destruct t as [q|a b]; cbn in He, Ht; apply hash_hex_inj in He.
    { apply Hc in He; [|done|cbn; set_solver]. apply Forall_cons in Ht as [Ht _].
      by destruct (Ht c s). }
    apply Hc in He; [|done|cbn; set_solver].
    apply Forall_app in Ht as [Hta Htb]. cbn [tleaves]. rewrite elem_of_app.
    assert (forall u, preimages u ⊆ preimages (HNode a b) -> 
      collision_free (verify_inputs p ss ++ preimages u)%list) as Hcu.
    { intros u Hu. eapply collision_free_subset, Hc. unfold verify_inputs.
      rewrite path_inputs_snoc. set_solver. }
    apply pair_payload_inj in He as [[He _]|[He _]]; try apply thash_length;
      [left|right|by apply path_length, hash_hex_length]; apply IH; try done; apply Hcu;
      cbn; set_solver.
Qed.

(** Trees with the same hash have the same leaves. *)
Lemma trees_bind t1 t2 :
  Forall not_node (tleaves t1) -> Forall not_node (tleaves t2) ->
  collision_free (preimages t1 ++ preimages t2)%list ->
  thash t1 = thash t2 -> tleaves t1 ≡ₚ tleaves t2.
Proof.
  revert t2. induction t1 as [p|a IHa b IHb]; intros [q|c d] H1 H2 Hc He; cbn in He, H1, H2;
    apply hash_hex_inj in He; apply Hc in He; try (cbn; set_solver).
  - apply Forall_cons in H1 as [H1 _]. by destruct (H1 _ _ He).
  - apply Forall_cons in H2 as [H2 _]. by destruct (H2 _ _ (eq_sym He)).
  - apply Forall_app in H1 as [? ?], H2 as [? ?]. cbn [tleaves].
    apply pair_payload_inj in He as [[He1 He2]|[He1 He2]]; try apply thash_length.
    + rewrite (IHa c), (IHb d); try done; (eapply collision_free_subset, Hc; cbn; set_solver).
    + rewrite (IHa d), (IHb c), Permutation_app_comm; try done;
        (eapply collision_free_subset, Hc; cbn; set_solver).
Qed.
End Sound.
