(* ===== verification/ReservesSummary.v ===== *)
(** * ReservesSummary: the totals published with a snapshot

    [summarize_liabilities] adds up decimals asset by asset; as long as the totals fit a
    [Decimal], the sums are exact ([asset_sum]) and are what the balances add up to
    ([owed]). *)
From S2P Require Import Prelude Decimal BTree Numeric Database ApiBase Reserves.
From S2P Require Import ReservesTree.

Section Summary.
Context {D : Type} {dops : DecimalOps D} {dlaws : DecimalLaws D}.
Context {dt : DecimalText D} {tops : TextOps D} {tlaws : TextLaws D}.

Definition amount_of (l : ProofLiability) : D := default dzero (parse_decimal (pl_total l)).

Definition asset_sum (a : string) (ls : list ProofLiability) : Z :=
  foldr (fun l acc => (if bool_decide (pl_asset l = a) then units (amount_of l) else 0) + acc) 0 ls.

Lemma asset_sum_perm a ls ks : ls ≡ₚ ks -> asset_sum a ls = asset_sum a ks.
Proof. unfold asset_sum. induction 1; cbn; lia. Qed.

(** A whole number of column units, not negative. *)
Definition amounts_ok (ls : list ProofLiability) : Prop := Forall (fun l => lot GRID (amount_of l)) ls.

Lemma valid_grid : valid_tick GRID.
Proof. exists 18%nat. split; [lia|reflexivity]. Qed.

Lemma asset_sum_nonneg a ls : amounts_ok ls -> 0 <= asset_sum a ls.
Proof.
  unfold asset_sum. induction 1 as [|l ls Hl _ IH]; cbn; [done|].
  pose proof (lot_nonneg _ _ valid_grid Hl). case_match; lia.
Qed.

(** What the map of totals holds when each asset starts with [base]. *)
Definition totals_are (base : string -> Z) (m : btree string D) : Prop :=
  sorted m /\ forall a, match bt_get a m with
    | Some d => units d = base a /\ lot GRID d
    | None => base a = 0
    end.

Lemma add_liability_spec base m l :
  totals_are base m -> lot GRID (amount_of l) ->
  base (pl_asset l) + units (amount_of l) < GRID * 2 ^ 96 ->
  totals_are (fun a => base a + if bool_decide (pl_asset l = a) then units (amount_of l) else 0)
    (add_liability m l).
Proof.
  intros [Hs Hm] Hl Hlt. unfold add_liability. fold (amount_of l).
  split; [by apply bt_insert_sorted|]. intros a. case_bool_decide as Ha.
  - subst a. rewrite bt_get_insert by done. specialize (Hm (pl_asset l)).
    destruct (bt_get (pl_asset l) m) as [d|].
    + destruct Hm as [Hu Hd]. rewrite <- Hu in *.
      by apply (lot_add GRID); [apply valid_grid|..].
    + rewrite Hm. split; [lia|done].
  - rewrite bt_get_insert_ne by congruence. specialize (Hm a). rewrite Z.add_0_r. done.
Qed.

Lemma add_liabilities_spec ls base m :
  totals_are base m -> amounts_ok ls ->
  (forall a, base a + asset_sum a ls < GRID * 2 ^ 96) ->
  totals_are (fun a => base a + asset_sum a ls) (fold_left add_liability ls m).
Proof.
  revert base m. induction ls as [|l ls IH]; intros base m Hm Hok Hlt.
  - destruct Hm as [Hs Hm]. split; [done|]. intros a. cbn. rewrite Z.add_0_r. apply Hm.
  - apply Forall_cons in Hok as [Hl Hok]. cbn [fold_left].
    pose proof (Hlt (pl_asset l)) as Hla. cbn in Hla. rewrite bool_decide_eq_true_2 in Hla by done.
    pose proof (asset_sum_nonneg (pl_asset l) ls Hok) as Hnn. unfold asset_sum in Hnn.
    pose proof (add_liability_spec base m l Hm Hl ltac:(lia)) as H1.
    apply IH in H1; [|done|].
    + destruct H1 as [Hs H1]. split; [done|]. intros a. specialize (H1 a). cbn in *.
      unfold asset_sum in *. rewrite <- Z.add_assoc in H1. exact H1.
    + intros a. specialize (Hlt a). cbn in Hlt. unfold asset_sum. lia.
Qed.

(** The summary of a snapshot: each asset once, with its exact sum, none left out. *)
Lemma summarize_spec (s : ProofSnapshot) :
  amounts_ok (ps_liabilities s) ->
  (forall a, asset_sum a (ps_liabilities s) < GRID * 2 ^ 96) ->
  NoDup (ls_asset <$> summarize_liabilities s) /\
  (forall x, x ∈ summarize_liabilities s -> exists d,
     ls_total x = canonical_decimal d /\ units d = asset_sum (ls_asset x) (ps_liabilities s)) /\
  (forall a, asset_sum a (ps_liabilities s) <> 0 ->
     a ∈ ls_asset <$> summarize_liabilities s).
Proof.
  intros Hok Hlt. unfold summarize_liabilities.
  destruct (add_liabilities_spec (ps_liabilities s) (fun _ => 0) [] ltac:(split; [apply sorted_nil|done]) Hok Hlt)
    as [Hs Hm]. set (m := fold_left add_liability (ps_liabilities s) []) in *.
  assert (ls_asset <$> ((fun '(a, t) => mkLiabilitySummary a (canonical_decimal t)) <$> m) = keys m)
    as Hk by (unfold keys; rewrite <- list_fmap_compose; apply list_fmap_ext; by intros ? [] ?).
  rewrite Hk. split_and!.
  - by apply sorted_NoDup_keys.
  - intros x ([a d] & -> & Hin)%list_elem_of_fmap. exists d. split; [done|].
    apply bt_get_elem in Hin; [|done]. specialize (Hm a). rewrite Hin in Hm. cbn. tauto.
  - intros a Ha. specialize (Hm a). destruct (bt_get a m) as [d|] eqn:E; [by apply (bt_get_key _ d)|].
    lia.
Qed.

(** ** What the balances add up to *)

Definition rows_sum (a : string) (rows : list (Uuid * string * Z)) : Z :=
  foldr (fun r acc => (if bool_decide (r.1.2 = a) then r.2 else 0) + acc) 0 rows.

Lemma rows_sum_perm a rows ks : rows ≡ₚ ks -> rows_sum a rows = rows_sum a ks.
Proof. unfold rows_sum. induction 1; cbn; lia. Qed.

(** What the exchange owes its customers in one asset. *)
Definition owed {J} (db : Db J) (a : string) : Z :=
  rows_sum a (omap (liability_row db) (map_to_list (balances db))).

Lemma liability_row_pos {J} (db : Db J) rows :
  Forall (fun r => 0 < r.2) (omap (liability_row db) rows).
Proof.
  apply Forall_forall. intros [[v a] n] ([[u k] b] & _ & Hr)%list_elem_of_omap.
  unfold liability_row in Hr. repeat (case_match; try done). injection Hr as <- <- <-.
  cbn. match goal with H : _ && _ = true |- _ => rewrite !andb_true_iff in H end. lia.
Qed.

Lemma rows_sum_bound a rows r :
  Forall (fun r => 0 < r.2) rows -> r ∈ rows -> r.1.2 = a -> r.2 <= rows_sum a rows.
Proof.
  assert (forall rows, Forall (fun r : Uuid * string * Z => 0 < r.2) rows -> 0 <= rows_sum a rows) as Hn.
  { unfold rows_sum. induction 1; cbn; [done|]. case_match; lia. }
  intros Hf Hr Ha. induction Hf as [|x rows Hx Hf IH]; [by apply elem_of_nil in Hr|].
  unfold rows_sum. cbn. fold (rows_sum a rows). pose proof (Hn rows Hf).
  apply elem_of_cons in Hr as [->|Hr]; [rewrite bool_decide_eq_true_2 by done; lia|].
  specialize (IH Hr). case_match; lia.
Qed.

Context {pg : PgDecimal D} {pglaws : PgDecimalLaws D}.

Definition liability_of (row : LiabilityRow D) : ProofLiability :=
  mkProofLiability (lr_user_id row) (lr_asset row) (canonical_decimal (lr_total row)).

Lemma amount_of_row row : amount_of (liability_of row) = lr_total row.
Proof.
  unfold amount_of, liability_of, canonical_decimal. cbn.
  by rewrite parse_to_string, normalize_value.
Qed.

Lemma decoded_sums rows drows :
  mapM decode_liability rows = Some drows -> Forall (fun r => 0 < r.2 < 2 ^ 96) rows ->
  amounts_ok (liability_of <$> drows) /\
  forall a, asset_sum a (liability_of <$> drows) = rows_sum a rows * GRID.
Proof.
  intros Hm%mapM_Some. induction Hm as [|[[v a] n] r rows drows Hr _ IH]; intros Hf.
  - split; [constructor|done].
  - apply Forall_cons in Hf as [Hn Hf]. destruct (IH Hf) as [Hok Hs]. cbn in Hn.
    destruct (of_pg_exact (D:=D) n ltac:(lia)) as (d & Hd & Hu).
    unfold decode_liability in Hr. cbn in Hr. rewrite Hd in Hr. injection Hr as <-.
    cbn [fmap list_fmap]. split.
    + constructor; [|done]. rewrite amount_of_row. exists n. cbn. split; [done|lia].
    + intros b. unfold asset_sum, rows_sum in *. cbn [foldr]. rewrite Hs, amount_of_row. cbn.
      case_match; lia.
Qed.

(** Reading the liabilities does not fail and changes nothing. *)
Lemma current_liabilities_ok {J} sql_order (db : Db J) :
  (forall rows, sql_order rows ≡ₚ rows) -> (forall a, owed db a < 2 ^ 96) ->
  exists ls, current_liabilities sql_order db = Ok (ls, db).
Proof.
  intros Ho Hlt. unfold current_liabilities, bind, get.
  destruct (mapM _ _) as [drows|] eqn:Hm; [cbn; eauto|exfalso].
  apply mapM_None, Exists_exists in Hm as (r & Hr & Hd). rewrite Ho in Hr.
  pose proof (liability_row_pos db (map_to_list (balances db))) as Hp.
  pose proof (rows_sum_bound _ _ _ Hp Hr eq_refl) as Hb. rewrite Forall_forall in Hp.
  specialize (Hp r Hr). specialize (Hlt r.1.2). unfold owed in Hlt.
  destruct (of_pg_exact (D:=D) r.2 ltac:(lia)) as (d & He & _).
  unfold decode_liability in Hd. by rewrite He in Hd.
Qed.

Lemma current_sums {J} sql_order (db : Db J) ls db' :
  (forall rows, sql_order rows ≡ₚ rows) ->
  current_liabilities sql_order db = Ok (ls, db') -> (forall a, owed db a < 2 ^ 96) ->
  amounts_ok ls /\ forall a, asset_sum a ls = owed db a * GRID.
Proof.
  intros Ho Hc Hlt. unfold current_liabilities, bind, get in Hc.
  destruct (mapM _ _) as [drows|] eqn:Hm; [|done]. cbn in Hc. injection Hc as <- <-.
  destruct (decoded_sums _ _ Hm) as [Hok Hs].
  - rewrite Ho. pose proof (liability_row_pos db (map_to_list (balances db))) as Hp.
    apply Forall_forall. intros r Hr. pose proof (rows_sum_bound _ _ _ Hp Hr eq_refl) as Hb.
    rewrite Forall_forall in Hp. specialize (Hp r Hr). specialize (Hlt r.1.2).
    unfold owed in Hlt. lia.
  - split; [exact Hok|]. intros a. unfold owed. rewrite <- (rows_sum_perm a _ _ (Ho _)). apply Hs.
Qed.
End Summary.
