(* ===== verification/ReservesProps.v ===== *)
(** * ReservesProps: the correctness theorems of the proof of reserves

    First executable instances: identifiers and amounts written in binary, least digit
    first, and a "hash" that keeps the last 32 bytes of its input: enough to run the code and to tell the strings of the
    samples apart. *)
From Stdlib Require Import Ascii.
From S2P Require Import Prelude Decimal BTree Proto Numeric Database Settlement.
From S2P Require Import SettleProps ApiBase Reserves ReservesTree ReservesSound.
From S2P Require Import ReservesSummary.

Fixpoint pos_text (p : positive) : string :=
  match p with
  | xH => String "."%char EmptyString
  | xO p => String "0"%char (pos_text p)
  | xI p => String "1"%char (pos_text p)
  end.

Fixpoint text_pos (s : string) : option positive :=
  match s with
  | EmptyString => None
  | String c s =>
      if ascii_dec c "."%char then Some xH
      else if ascii_dec c "0"%char then xO <$> text_pos s else xI <$> text_pos s
  end.

Lemma text_pos_text p : text_pos (pos_text p) = Some p.
Proof. induction p as [p IH|p IH|]; simpl; by rewrite ?IH. Qed.

Lemma pos_text_no_colon p : no_colon (pos_text p).
Proof. unfold no_colon. induction p as [p IH|p IH|]; simpl; set_solver. Qed.

Definition z_text (n : Z) : string :=
  match n with
  | Z0 => "z"
  | Zpos p => String "+"%char (pos_text p)
  | Zneg p => String "-"%char (pos_text p)
  end.

Definition text_z (s : string) : option Z :=
  match s with
  | String c s =>
      if ascii_dec c "z"%char then Some 0
      else if ascii_dec c "+"%char then Zpos <$> text_pos s else Zneg <$> text_pos s
  | EmptyString => None
  end.

Lemma text_z_text n : text_z (z_text n) = Some n.
Proof. destruct n as [|p|p]; simpl; by rewrite ?text_pos_text. Qed.

Lemma z_text_no_colon n : no_colon (z_text n).
Proof.
  destruct n as [|p|p]; unfold no_colon; simpl; try (pose proof (pos_text_no_colon p));
    unfold no_colon, colon in *; set_solver.
Qed.

Definition bit_numbers : DecimalText Z := {|
  parse_decimal := text_z;
  decimal_to_string := z_text;
|}.

Definition bit_texts : TextOps Z := {|
  uuid_text u := z_text (Z.of_N u);
  normalize x := x;
|}.

#[local] Existing Instances bit_numbers bit_texts.

Lemma bit_laws : TextLaws Z.
Proof.
  split.
  - unfold uuid_text, bit_texts. intros x y H. apply (f_equal text_z) in H. rewrite !text_z_text in H. injection H. lia.
  - intros x. apply z_text_no_colon.
  - done.
  - apply text_z_text.
  - apply z_text_no_colon.
Qed.

(** The last 32 bytes, padded. *)
Definition last_bytes : HashOps := fun s =>
  let codes := (fun c => Z.of_N (N_of_ascii c)) <$> String.list_ascii_of_string s in
  take 32 (rev codes ++ replicate 32 0).

Lemma last_bytes_laws : @HashLaws last_bytes.
Proof.
  split; intros s; unfold sha256, last_bytes.
  - rewrite length_take, length_app, length_replicate. lia.
  - apply Forall_take, Forall_app. split; [|apply Forall_replicate; lia].
    apply Forall_rev, Forall_fmap, Forall_true. intros c. cbn.
    pose proof (N_ascii_bounded c). lia.
Qed.

(** The check of [collision_free]. *)
Definition distinct_hashes {h : HashOps} (inputs : list string) : bool :=
  let hashed := (fun x => (x, sha256 x)) <$> inputs in
  forallb (fun x => forallb (fun y =>
    implb (bool_decide (x.2 = y.2)) (bool_decide (x.1 = y.1))) hashed) hashed.

Lemma distinct_collision_free {h : HashOps} inputs :
  distinct_hashes inputs = true -> collision_free inputs.
Proof.
  unfold distinct_hashes. rewrite forallb_forall. intros H x y Hx Hy He.
  specialize (H (x, sha256 x)
    ltac:(apply list_elem_of_In, list_elem_of_fmap; by exists x)).
  rewrite forallb_forall in H.
  specialize (H (y, sha256 y)
    ltac:(apply list_elem_of_In, list_elem_of_fmap; by exists y)).
  cbn in H. rewrite bool_decide_eq_true_2 in H by done. by apply bool_decide_eq_true in H.
Qed.

Definition two_liabilities : list ProofLiability :=
  [mkProofLiability 1 "BTC" "+1."; mkProofLiability 2 "ETH" "+."].

(** Alice's leaf and the hash of Bob's. *)
Definition sample_siblings : list string :=
  [@hash_hex last_bytes (leaf_payload (mkProofLiability 2 "ETH" "+."))].

Example alice_is_accepted :
  @verify_proof last_bytes (leaf_payload (mkProofLiability 1 "BTC" "+1.")) sample_siblings
    (mk_root (@MerkleTree_new Z last_bytes _ two_liabilities)) = true.
Proof. vm_compute. reflexivity. Qed.

Example balances_are_summed :
  fst (@latest_proof Z _ _ last_bytes _ _ _ (fun rows => rows) (fun _ => "now") 7 8 0 (sample_db []) []) =
  Ok (mkProofLatestResponse 8
        (mk_root (@MerkleTree_new Z last_bytes _
           [mkProofLiability bob "BTC" (z_text (dec 5));
            mkProofLiability alice "USDT" (z_text (dec 1000))])) "now"
        [mkLiabilitySummary "BTC" (z_text (dec 5));
         mkLiabilitySummary "USDT" (z_text (dec 1000))]).
Proof. vm_compute. reflexivity. Qed.

(** * The correctness theorems of the proof of reserves *)

#[local] Open Scope string_scope.

Section Props.
Context {D : Type} {dops : DecimalOps D} {dlaws : DecimalLaws D} {pg : PgDecimal D}.
Context {hops : HashOps} {hlaws : HashLaws} {dt : DecimalText D} {tops : TextOps D}.
Context {tlaws : TextLaws D}.

Lemma leaf_payload_inj (a b : ProofLiability) :
  no_colon (pl_total a) -> no_colon (pl_total b) -> leaf_payload a = leaf_payload b -> a = b.
Proof.
  destruct a as [u x t], b as [v y s]. unfold leaf_payload. cbn [pl_user_id pl_asset pl_total].
  intros Ha Hb H. apply string_app_inj in H as [_ H]; [|done].
  apply string_app_inj in H as [_ H]; [|done].
  apply first_colon_inj in H as [Hu H]; [|apply uuid_no_colon..].
  apply last_colon_inj in H as [-> ->]; [|done..]. by apply uuid_text_inj in Hu as ->.
Qed.

Lemma leaf_not_node (l : ProofLiability) : not_node (leaf_payload l).
Proof. intros a b. destruct (pair_payload_prefix a b) as [s ->]. done. Qed.

Lemma leaf_not_empty (l : ProofLiability) : leaf_payload l <> EMPTY_ROOT_PAYLOAD.
Proof. done. Qed.

(** The payloads of the leaves, in order, and what is hashed to get to the root. *)
Definition payloads (ls : list ProofLiability) : list string :=
  leaf_payload <$> merge_sort liability_le ls.
Definition tree_inputs (ls : list ProofLiability) : list string := root_inputs (payloads ls).

Lemma tree_root ls : mk_root (MerkleTree_new ls) = merkle_root (hash_hex <$> payloads ls).
Proof.
  unfold MerkleTree_new, payloads. cbn [mk_root]. f_equal. by rewrite <- !list_fmap_compose.
Qed.

Lemma padded_not_node ls : Forall not_node (padded (payloads ls)).
Proof.
  assert (Forall not_node (payloads ls)) as H
    by (unfold payloads; rewrite Forall_fmap; apply Forall_true; apply leaf_not_node).
  destruct (payloads ls); [|done]. constructor; [apply empty_not_node|done].
Qed.

Lemma padded_perm ls ks :
  padded (payloads ls) ≡ₚ padded (payloads ks) -> payloads ls ≡ₚ payloads ks.
Proof.
  assert (forall ls, EMPTY_ROOT_PAYLOAD ∉ payloads ls) as Hno.
  { intros l (x & Hx & _)%list_elem_of_fmap. by apply (leaf_not_empty x). }
  pose proof (Hno ls) as H1. pose proof (Hno ks) as H2.
  destruct (payloads ls) as [|p ps], (payloads ks) as [|q qs]; cbn; intros H; try done.
  - destruct H2. rewrite <- H. left.
  - destruct H1. rewrite H. left.
Qed.

(** An injective map can be taken off a permutation. *)
Lemma fmap_perm_inv {A B} (f : A -> B) l k :
  (forall x y, x ∈ l -> y ∈ k -> f x = f y -> x = y) -> f <$> l ≡ₚ f <$> k -> l ≡ₚ k.
Proof.
  revert k. induction l as [|x l IH]; intros k Hi Hp.
  - apply Permutation_nil_l in Hp. destruct k; [done|discriminate Hp].
  - assert (f x ∈ f <$> k) as (y & Hy & Hk)%list_elem_of_fmap by (rewrite <- Hp; left).
    apply Hi in Hy as <-; [|left|done]. apply elem_of_Permutation in Hk as [k' Hk].
    rewrite Hk in Hp |- *. cbn in Hp. apply Permutation_cons_inv in Hp.
    constructor. apply IH; [|done]. intros. apply Hi; [by right|rewrite Hk; by right|done].
Qed.

Definition texts_ok (ls : list ProofLiability) : Prop := Forall (fun l => no_colon (pl_total l)) ls.

Lemma same_root ls ks :
  texts_ok ls -> texts_ok ks -> collision_free (tree_inputs ls ++ tree_inputs ks)%list ->
  mk_root (MerkleTree_new ls) = mk_root (MerkleTree_new ks) -> ls ≡ₚ ks.
Proof.
  intros Hl Hk Hc He. rewrite !tree_root in He.
  destruct (root_tree (payloads ls)) as (t & Ht & Htl & Htp).
  destruct (root_tree (payloads ks)) as (u & Hu & Hul & Hup).
  assert (tleaves t ≡ₚ tleaves u) as Hp.
  { apply trees_bind; [rewrite Htl; apply padded_not_node|rewrite Hul; apply padded_not_node| |congruence].
    eapply collision_free_subset, Hc. unfold tree_inputs. set_solver. }
  rewrite Htl, Hul in Hp. apply padded_perm, fmap_perm_inv in Hp.
  - by rewrite !merge_sort_Permutation in Hp.
  - intros x y. rewrite !merge_sort_Permutation. intros Hx Hy. unfold texts_ok in *.
    rewrite Forall_forall in Hl, Hk. apply leaf_payload_inj; auto.
Qed.

(** C25. A proof that verifies is about a liability the root commits to: whatever sibling
    hashes are presented, if [verify_proof] accepts a liability against the root of a
    tree, the liability is one of the tree.  Nothing is assumed of SHA-256 except that it
    does not collide on the strings hashed to build the tree and to check the proof. *)
Theorem accepted_proof_is_committed (ls : list ProofLiability) (l : ProofLiability)
    (siblings : list string) :
  texts_ok (l :: ls) ->
  collision_free (verify_inputs (leaf_payload l) siblings ++ tree_inputs ls)%list ->
  verify_proof (leaf_payload l) siblings (mk_root (MerkleTree_new ls)) = true ->
  l ∈ ls.
Proof.
  intros [Hl Hls]%Forall_cons Hc Hv%bool_decide_eq_true. rewrite tree_root in Hv.
  destruct (root_tree (payloads ls)) as (t & Ht & Htl & Htp).
  assert (leaf_payload l ∈ tleaves t) as Hin.
  { apply path_sound with siblings; [apply leaf_not_node|rewrite Htl; apply padded_not_node| |congruence].
    eapply collision_free_subset, Hc. unfold tree_inputs. set_solver. }
  assert (leaf_payload l ∈ payloads ls) as (k & Hk & Hkin)%list_elem_of_fmap.
  { rewrite Htl in Hin. destruct (payloads ls); [|done].
    apply list_elem_of_singleton in Hin. by destruct (leaf_not_empty l). }
  rewrite merge_sort_Permutation in Hkin. rewrite Forall_forall in Hls.
  apply leaf_payload_inj in Hk as ->; auto.
Qed.

(** [verify_proof] does not look at the prefix of what it is given: the text hashed for an
    inner node, here the root of a tree of two leaves, is accepted as a leaf. *)
Lemma inner_node_is_accepted (a b : ProofLiability) :
  let ls := [a; b] in
  verify_proof (pair_payload (hash_hex (leaf_payload a)) (hash_hex (leaf_payload b))) []
    (mk_root (MerkleTree_new ls)) = true.
Proof.
  cbv zeta. unfold verify_proof. apply bool_decide_eq_true. rewrite tree_root. unfold payloads.
  assert (merge_sort liability_le [a; b] = [a; b] \/ merge_sort liability_le [a; b] = [b; a])
    as [-> | ->].
  { apply Permutation_length_2_inv. by rewrite merge_sort_Permutation. }
  - done.
  - cbn. unfold merkle_root. cbn. unfold hash_pair. by rewrite pair_payload_comm.
Qed.

(** ** Entries *)

Lemma imap_pair_lookup {A} (l : list A) i x : (i, x) ∈ imap pair l <-> l !! i = Some x.
Proof.
  rewrite elem_of_lookup_imap. split; [|intros H; by exists i, x].
  intros (j & y & [= -> ->] & H). done.
Qed.

Lemma entries_spec ls user_id e :
  e ∈ entries_for_user (MerkleTree_new ls) user_id <->
  exists i l, merge_sort liability_le ls !! i = Some l /\ pl_user_id l = user_id /\
    e = mkUserProofEntry (pl_asset l) (pl_total l) (leaf_payload l) (hash_hex (leaf_payload l))
          (proof_for_index (hash_hex <$> payloads ls) i).
Proof.
  unfold entries_for_user, MerkleTree_new, payloads. cbn [mk_leaves].
  rewrite <- !list_fmap_compose, list_elem_of_fmap. split.
  - intros ([i x] & -> & [Hu Hx]%list_elem_of_filter). apply imap_pair_lookup in Hx.
    rewrite list_lookup_fmap in Hx. destruct (_ !! i) as [l|] eqn:E; [|done].
    injection Hx as <-. by exists i, l.
  - intros (i & l & Hi & Hu & ->). exists (i, merkle_leaf l). split; [done|].
    apply list_elem_of_filter. split; [done|]. apply imap_pair_lookup.
    by rewrite list_lookup_fmap, Hi.
Qed.

Lemma entry_verifies ls user_id e :
  e ∈ entries_for_user (MerkleTree_new ls) user_id ->
  verify_proof (pe_leaf_payload e) (pe_sibling_hashes e) (mk_root (MerkleTree_new ls)) = true.
Proof.
  intros (i & l & Hi & _ & ->)%entries_spec. unfold verify_proof. apply bool_decide_eq_true.
  rewrite tree_root. cbn [pe_leaf_payload pe_sibling_hashes].
  apply proof_for_index_root. unfold payloads. by rewrite !list_lookup_fmap, Hi.
Qed.

Lemma entries_texts ls user_id asset total :
  (exists e, e ∈ entries_for_user (MerkleTree_new ls) user_id /\
     pe_asset e = asset /\ pe_total e = total) <->
  mkProofLiability user_id asset total ∈ ls.
Proof.
  rewrite <- (merge_sort_Permutation liability_le ls), list_elem_of_lookup. split.
  - intros (e & (i & [] & Hi & <- & ->)%entries_spec & <- & <-). by exists i.
  - intros [i Hi]. eexists. split; [apply entries_spec; eauto|done].
Qed.

(** ** Snapshots *)

Lemma mapM_elem {A B} (f : A -> option B) l k y :
  mapM f l = Some k -> y ∈ k <-> exists x, x ∈ l /\ f x = Some y.
Proof.
  intros H%mapM_Some. induction H as [|x z l k Hxz _ IH]; [set_solver|].
  rewrite elem_of_cons, IH. split; [set_solver|].
  intros (x' & [->|Hx]%elem_of_cons & Hf); [left; congruence|right; eauto].
Qed.

Section Snapshots.
Context {J : Type} (sql_order : list (Uuid * string * Z) -> list (Uuid * string * Z)).
Context (Horder : forall rows, sql_order rows ≡ₚ rows).

(** The balance behind a liability: positive, of a customer whose account is open. *)
Definition owes (db : Db J) (user_id : Uuid) (asset : string) (amount : D) : Prop :=
  exists asset_id b a u,
    balances db !! (user_id, asset_id) = Some b /\ assets db !! asset_id = Some a /\
    users db !! user_id = Some u /\ at_symbol a = asset /\
    0 < available b + locked b /\ ut_status u <> "closed" /\ ut_is_mm u = false /\
    of_pg (available b + locked b) = Some amount.

Lemma liability_row_spec (db : Db J) user_id asset n :
  (user_id, asset, n) ∈ omap (liability_row db) (map_to_list (balances db)) <->
  exists asset_id b a u,
    balances db !! (user_id, asset_id) = Some b /\ assets db !! asset_id = Some a /\
    users db !! user_id = Some u /\ at_symbol a = asset /\
    0 < available b + locked b /\ ut_status u <> "closed" /\ ut_is_mm u = false /\
    n = available b + locked b.
Proof.
  rewrite list_elem_of_omap. split.
  - intros ([[v k] b] & Hk%elem_of_map_to_list & Hr). unfold liability_row in Hr.
    destruct (assets db !! k) as [a|] eqn:Ha; [|done].
    destruct (users db !! v) as [u|] eqn:Hu; [|done].
    destruct (_ && _) eqn:Hc; [|done]. rewrite !andb_true_iff, !negb_true_iff in Hc.
    destruct Hc as [[? Hs%bool_decide_eq_false] ?]. injection Hr as <- <- <-.
    exists k, b, a, u. split_and!; done || lia.
  - intros (k & b & a & u & Hb & Ha & Hu & <- & Hp & Hs & Hm & ->).
    exists ((user_id, k), b). split; [by apply elem_of_map_to_list|].
    unfold liability_row. rewrite Ha, Hu, Hm, bool_decide_eq_false_2 by done.
    by replace (0 <? available b + locked b)%Z with true by lia.
Qed.

Lemma current_liabilities_spec (db : Db J) ls db' :
  current_liabilities sql_order db = Ok (ls, db') ->
  texts_ok ls /\ forall l, l ∈ ls <-> exists amount,
    owes db (pl_user_id l) (pl_asset l) amount /\ pl_total l = canonical_decimal amount.
Proof.
  unfold current_liabilities, bind, get. destruct (mapM _ _) as [rows|] eqn:Hm; [|done].
  cbn. intros [= <- <-]. split.
  { unfold texts_ok. rewrite Forall_fmap. apply Forall_true. intros r.
    apply to_string_no_colon. }
  intros l. rewrite list_elem_of_fmap. unfold owes. split.
  - intros (r & -> & Hr). apply (mapM_elem _ _ _ _ Hm) in Hr as ([[v a] n] & Hr & Hd).
    rewrite Horder in Hr. apply liability_row_spec in Hr as (k & b & t & u & ?&?&?&?&?&?&?& ->).
    unfold decode_liability in Hd. cbn in Hd.
    destruct (of_pg _) as [d|] eqn:Hd'; [|done]. injection Hd as <-.
    exists d. split; [|done]. by exists k, b, t, u.
  - destruct l as [v a t]. cbn. intros (d & (k & b & x & u & ?&?&?&?&?&?&?& Hd) & ->).
    exists (mkLiabilityRow v a d). split; [done|].
    apply (mapM_elem _ _ _ _ Hm). exists (v, a, available b + locked b). split.
    + rewrite Horder. apply liability_row_spec. by exists k, b, x, u.
    + unfold decode_liability. cbn. by rewrite Hd.
Qed.

(** What the code keeps true of the table: only it inserts rows. *)
Definition snapshot_ok (s : ProofSnapshot) : Prop :=
  texts_ok (ps_liabilities s) /\ ps_merkle_root s = mk_root (MerkleTree_new (ps_liabilities s)).
Definition snapshots_ok (rows : list ProofSnapshot) : Prop := Forall snapshot_ok rows.

Lemma latest_in rows s : latest_snapshot rows = Some s -> s ∈ rows.
Proof.
  unfold latest_snapshot.
  assert (forall best, fold_left (fun best row =>
    match best with
    | Some b => if (ps_generated_at b <? ps_generated_at row)%Z then Some row else best
    | None => Some row
    end) rows best = Some s -> s ∈ rows \/ best = Some s) as H.
  { induction rows as [|r rows IH]; intros best Hf; [by right|]. cbn in Hf.
    apply IH in Hf as [Hf|Hf]; [left; by right|]. destruct best as [b|].
    - case_match; [injection Hf as ->; left; left|by right].
    - injection Hf as ->. left; left. }
  intros [?|?]%H; done.
Qed.

(** No two strings hashed for the trees of the table or of the liabilities collide. *)
Definition table_inputs (ls : list ProofLiability) (rows : list ProofSnapshot) : list string :=
  (tree_inputs ls ++ concat ((tree_inputs ∘ ps_liabilities) <$> rows))%list.

Lemma table_inputs_row ls rows s :
  s ∈ rows -> (tree_inputs (ps_liabilities s) ++ tree_inputs ls)%list ⊆ table_inputs ls rows.
Proof.
  intros Hs x Hx. unfold table_inputs. rewrite elem_of_app in *. destruct Hx as [Hx|]; [|auto].
  right. rewrite list_elem_of_In, in_concat. exists (tree_inputs (ps_liabilities s)).
  rewrite <- !list_elem_of_In. split; [|done]. apply list_elem_of_fmap. by exists s.
Qed.

(** The snapshot served holds the current liabilities. *)
Lemma ensure_spec id now (db : Db J) rows ls db' :
  snapshots_ok rows -> current_liabilities sql_order db = Ok (ls, db') ->
  collision_free (table_inputs ls rows) -> id ∉ ps_id <$> rows ->
  exists s rows', ensure_current_snapshot sql_order id now db rows = (Ok s, rows') /\
    snapshot_ok s /\ ps_liabilities s ≡ₚ ls /\ snapshots_ok rows' /\
    (s ∈ rows /\ rows' = rows \/ rows' = (rows ++ [s])%list).
Proof.
  intros Hr Hl Hc Hid. pose proof (current_liabilities_spec _ _ _ Hl) as [Ht _].
  unfold ensure_current_snapshot, run_stmt, run_tx. rewrite Hl.
  assert (forall s rows', insert_snapshot id now (mk_root (MerkleTree_new ls)) ls rows = (Ok s, rows') ->
    snapshot_ok s /\ ps_liabilities s ≡ₚ ls /\ snapshots_ok rows' /\ rows' = (rows ++ [s])%list) as Hins.
  { unfold insert_snapshot. rewrite bool_decide_eq_false_2 by done. intros s rows' [= <- <-].
    split_and!; [done..| |done]. apply Forall_app. by repeat constructor. }
  assert (exists s rows', insert_snapshot id now (mk_root (MerkleTree_new ls)) ls rows = (Ok s, rows'))
    as (s & rows' & Hi) by (unfold insert_snapshot; rewrite bool_decide_eq_false_2; eauto).
  destruct (Hins _ _ Hi) as (Hs1 & Hs2 & Hs3 & Hs4).
  destruct (latest_snapshot rows) as [latest|] eqn:E; [|exists s, rows'; split_and!; auto].
  case_bool_decide as Hroot; [|exists s, rows'; split_and!; auto].
  apply latest_in in E. pose proof Hr as Hok. unfold snapshots_ok in Hok.
  rewrite Forall_forall in Hok. pose proof (Hok _ E) as [Htx Hrt].
  exists latest, rows. split_and!; [done|done| |done|by left].
  apply same_root; [done|done| |congruence].
  eapply collision_free_subset, Hc. by apply table_inputs_row.
Qed.

Context {pglaws : PgDecimalLaws D} (time_text : Z -> string).

(** The strings hashed when a snapshot is asked for. *)
Definition endpoint_inputs (db : Db J) (rows : list ProofSnapshot) : list string :=
  match current_liabilities sql_order db with
  | Ok (ls, _) => table_inputs ls rows
  | Err _ => []
  end.

(** The hypotheses of the endpoints: rows written by this code, totals a [Decimal] can
    hold, no collision, a fresh identifier. *)
Definition can_serve (id : Uuid) (db : Db J) (rows : list ProofSnapshot) : Prop :=
  snapshots_ok rows /\ (forall a, owed db a < 2 ^ 96) /\
  collision_free (endpoint_inputs db rows) /\ id ∉ ps_id <$> rows.

Lemma serve_spec id now (db : Db J) rows :
  can_serve id db rows ->
  exists ls s rows', current_liabilities sql_order db = Ok (ls, db) /\
    ensure_current_snapshot sql_order id now db rows = (Ok s, rows') /\
    snapshot_ok s /\ ps_liabilities s ≡ₚ ls /\ snapshots_ok rows' /\ s ∈ rows'.
Proof.
  intros (Hr & Hlt & Hc & Hid).
  destruct (current_liabilities_ok sql_order db Horder Hlt) as [ls Hl].
  unfold endpoint_inputs in Hc. rewrite Hl in Hc.
  destruct (ensure_spec id now db rows ls db Hr Hl Hc Hid)
    as (s & rows' & He & Hs & Hp & Hr' & Hin).
  exists ls, s, rows'. split_and!; try done.
  destruct Hin as [[? ->]| ->]; [done|]. rewrite elem_of_app. right. left.
Qed.

(** C26. [GET /proof-of-reserves/me] answers with proofs of exactly the caller's
    balances: one entry for every positive balance (available plus locked) of an open
    customer account and no other, with its amount, and every entry verifies against the
    root it is served with, which is the root of a stored snapshot. *)
Theorem my_proof_shows_balances (request_id caller id : Uuid) (now : Z) (db : Db J)
    (rows : list ProofSnapshot) :
  can_serve id db rows ->
  exists resp rows',
    my_proof sql_order time_text request_id caller id now db rows = (Ok resp, rows') /\
    snapshots_ok rows' /\
    (exists s, s ∈ rows' /\ ps_id s = my_snapshot_id resp /\
       ps_merkle_root s = my_merkle_root resp) /\
    (forall e, e ∈ my_entries resp ->
       verify_proof (pe_leaf_payload e) (pe_sibling_hashes e) (my_merkle_root resp) = true) /\
    (forall asset total,
       (exists e, e ∈ my_entries resp /\ pe_asset e = asset /\ pe_total e = total) <->
       exists amount, owes db caller asset amount /\ total = decimal_to_string amount).
Proof.
  intros Hs. destruct (serve_spec id now db rows Hs)
    as (ls & s & rows' & Hl & He & [_ Hroot] & Hp & Hr' & Hin).
  destruct (current_liabilities_spec _ _ _ Hl) as [_ Hspec].
  unfold my_proof. rewrite He. eexists _, rows'. split; [done|].
  cbn [my_snapshot_id my_merkle_root my_entries]. split_and!; [done|by exists s| |].
  - intros e Hin'. rewrite Hroot. by apply entry_verifies in Hin'.
  - intros asset total. unfold user_proof_entries. rewrite entries_texts, Hp, Hspec.
    cbn [pl_user_id pl_asset pl_total].
    unfold canonical_decimal. split; intros (d & ? & ->); exists d;
      by rewrite normalize_value.
Qed.

(** [GET /proof-of-reserves/latest] publishes, for every asset, exactly what the
    customer balances in the database add up to: each asset is listed once with the exact
    sum of available and locked over all open customer accounts, and an asset that is owed
    at all is listed. *)
Theorem latest_proof_adds_up (request_id id : Uuid) (now : Z) (db : Db J)
    (rows : list ProofSnapshot) :
  can_serve id db rows ->
  exists resp rows',
    latest_proof sql_order time_text request_id id now db rows = (Ok resp, rows') /\
    NoDup (ls_asset <$> lat_liabilities resp) /\
    (forall x, x ∈ lat_liabilities resp -> exists d,
       ls_total x = decimal_to_string d /\ units d = owed db (ls_asset x) * GRID) /\
    (forall a, 0 < owed db a -> a ∈ ls_asset <$> lat_liabilities resp).
Proof.
  intros Hs. destruct (serve_spec id now db rows Hs)
    as (ls & s & rows' & Hl & He & _ & Hp & _ & _).
  destruct Hs as (_ & Hlt & _). destruct (current_sums _ _ _ _ Horder Hl Hlt) as [Hok Hsum].
  assert (forall a, asset_sum a (ps_liabilities s) = owed db a * GRID) as Hsum'
    by (intros a; by rewrite (asset_sum_perm a _ _ Hp)).
  destruct (summarize_spec s) as (Hnd & Htot & Hall).
  { unfold amounts_ok. by rewrite Hp. }
  { intros a. rewrite Hsum'. specialize (Hlt a). pose proof GRID_pos. nia. }
  unfold latest_proof. rewrite He. eexists _, rows'. split; [done|]. cbn. split_and!; [done|..].
  - intros x Hx. destruct (Htot x Hx) as (d & -> & Hu). exists d.
    unfold canonical_decimal. by rewrite normalize_value, Hu, Hsum'.
  - intros a Ha. apply Hall. rewrite Hsum'. pose proof GRID_pos. nia.
Qed.
End Snapshots.
End Props.

(** ** Witnesses *)

(** Alice's leaf in the tree of two liabilities. *)
Lemma accepted_proof_is_committed_witness :
  mkProofLiability 1 "BTC" "+1." ∈ two_liabilities.
Proof.
  refine (@accepted_proof_is_committed Z last_bytes last_bytes_laws bit_numbers bit_texts bit_laws
    two_liabilities (mkProofLiability 1 "BTC" "+1.") sample_siblings _ _ _).
  - unfold texts_ok, two_liabilities, no_colon.
    repeat apply Forall_cons_2; [..|apply Forall_nil_2]; apply (bool_decide_unpack _); reflexivity.
  - apply distinct_collision_free. vm_compute. reflexivity.
  - vm_compute. reflexivity.
Defined.

Lemma sample_can_serve :
  @can_serve Z _ last_bytes bit_numbers bit_texts (WireEvent Z) (fun rows => rows) 8 (sample_db []) [].
Proof.
  split_and!; [constructor| |apply distinct_collision_free; vm_compute; reflexivity|set_solver].
  intros a. unfold owed.
  assert (omap (liability_row (sample_db [])) (map_to_list (balances (sample_db []))) =
    [(bob, "BTC", col 5); (alice, "USDT", col 1000)]) as -> by (vm_compute; reflexivity).
  unfold rows_sum. cbn [foldr fst snd]. repeat case_match; unfold col; lia.
Qed.

Lemma my_proof_shows_balances_witness :
  exists resp rows',
    @my_proof Z _ last_bytes bit_numbers bit_texts (WireEvent Z) (fun rows => rows) (fun _ => "now")
      7 alice 8 0 (sample_db []) [] = (Ok resp, rows') /\
    @snapshots_ok Z last_bytes bit_texts rows'.
Proof.
  destruct (@my_proof_shows_balances Z _ _ _ last_bytes last_bytes_laws bit_numbers bit_texts bit_laws
    (WireEvent Z) (fun rows => rows) (fun rows => reflexivity rows) _ (fun _ => "now") 7 alice 8 0
    (sample_db []) [] sample_can_serve) as (resp & rows' & H & Hr & _).
  exact (ex_intro _ resp (ex_intro _ rows' (conj H Hr))).
Defined.

Lemma latest_proof_adds_up_witness :
  exists resp rows',
    @latest_proof Z _ _ last_bytes bit_numbers bit_texts (WireEvent Z) (fun rows => rows)
      (fun _ => "now") 7 8 0 (sample_db []) [] = (Ok resp, rows') /\
    "USDT" ∈ ls_asset <$> lat_liabilities resp.
Proof.
  destruct (@latest_proof_adds_up Z _ _ _ last_bytes last_bytes_laws bit_numbers bit_texts bit_laws
    (WireEvent Z) (fun rows => rows) (fun rows => reflexivity rows) _ (fun _ => "now") 7 8 0
    (sample_db []) [] sample_can_serve) as (resp & rows' & H & _ & _ & Ha).
  refine (ex_intro _ resp (ex_intro _ rows' (conj H (Ha "USDT" _)))).
  vm_compute. reflexivity.
Defined.
