(* ===== verification/AuthBase.v ===== *)
(** * AuthBase: input checks, tokens and the repository interface of the API's auth

    [services/api/src/schemas.rs] (emails and passwords), [auth/password.rs],
    [auth/tokens.rs] and the [AuthRepository] trait of [repositories/mod.rs], which is
    the class [AuthRepository] here; [AuthRepositoryLaws] says what the trait promises.
    Argon2, JSON web tokens, base64, the random source and the calendar of the [time]
    crate are parameters ([AuthCrates]); the character classes of Unicode are
    [UnicodeChars]. *)
From Stdlib Require Import Ascii.
From S2P Require Import Prelude Wire Database ApiBase Reserves.

(** ** Strings *)

Definition codes (s : string) : list N := N_of_ascii <$> String.list_ascii_of_string s.
Definition of_codes (l : list N) : string := String.string_of_list_ascii (ascii_of_N <$> l).

(** [str::trim] on UTF-8. *)
Fixpoint trim_start (l : list N) : list N :=
  match l with
  | 194 :: 133 :: r | 194 :: 160 :: r => trim_start r
  | 225 :: 154 :: 128 :: r => trim_start r
  | 226 :: 128 :: c :: r =>
      if (((128 <=? c) && (c <=? 138)) || (c =? 168) || (c =? 169) || (c =? 175))%N
      then trim_start r else l
  | 226 :: 129 :: 159 :: r => trim_start r
  | 227 :: 128 :: 128 :: r => trim_start r
  | c :: r => if (((9 <=? c) && (c <=? 13)) || (c =? 32))%N then trim_start r else l
  | [] => []
  end%N.

(** A suffix that consists of white space starts at a character. *)
Fixpoint trim_end (l : list N) : list N :=
  if blank_codes l then []
  else match l with [] => [] | c :: r => c :: trim_end r end.

Definition trim (s : string) : string := of_codes (trim_end (trim_start (codes s))).

(** [email.trim().to_ascii_lowercase()]. *)
Definition normalize_email (email : string) : string := map_string ascii_lower (trim email).

Definition is_alnum (c : N) : bool :=
  ((48 <=? c) && (c <=? 57) || (65 <=? c) && (c <=? 90) || (97 <=? c) && (c <=? 122))%N.
Definition local_char (c : N) : bool :=
  is_alnum c || bool_decide (c ∈ codes ".!#$%&'*+/=?^_`{|}~-").
Definition domain_char (c : N) : bool := is_alnum c || (c =? 45)%N.

(** The part before the first [sep] and, if there is one, the part after it. *)
Fixpoint split_at (sep : N) (l : list N) : list N * option (list N) :=
  match l with
  | [] => ([], None)
  | c :: r => if (c =? sep)%N then ([], Some r) else
      let '(a, b) := split_at sep r in (c :: a, b)
  end.

Fixpoint split_all (sep : N) (l : list N) : list (list N) :=
  match l with
  | [] => [[]]
  | c :: r => if (c =? sep)%N then [] :: split_all sep r
      else match split_all sep r with a :: rest => (c :: a) :: rest | [] => [[c]] end
  end.

Definition word (f : N -> bool) (l : list N) : bool := (0 <? length l)%nat && forallb f l.

(** The pattern [EMAIL_RE]: [local@label(.label)+], each part non-empty; ["@"] is in
    neither class and ["."] not in the class of a label, so there is one way to split. *)
Definition EMAIL_RE (s : string) : bool :=
  match split_at 64 (codes s) with
  | (local, Some domain) =>
      let labels := split_all 46 domain in
      word local_char local && (1 <? length labels)%nat && forallb (word domain_char) labels
  | _ => false
  end.

Definition is_valid_email (email : string) : bool :=
  let normalised := normalize_email email in
  (String.length normalised <=? 254)%nat && EMAIL_RE normalised &&
  bool_decide (34%N ∉ codes normalised).

Class UnicodeChars := {
  chars : string -> list N;
  is_lowercase : N -> bool;
  is_uppercase : N -> bool;
  is_alphanumeric : N -> bool;
}.

Definition is_ascii_digit (c : N) : bool := ((48 <=? c) && (c <=? 57))%N.

Definition password_policy_failures {uc : UnicodeChars} (password : string) : list string :=
  let cs := chars password in
  (if (length cs <? 12)%nat then ["min_length"] else []) ++
  (if existsb is_lowercase cs then [] else ["lowercase"]) ++
  (if existsb is_uppercase cs then [] else ["uppercase"]) ++
  (if existsb is_ascii_digit cs then [] else ["digit"]) ++
  (if existsb (fun c => negb (is_alphanumeric c)) cs then [] else ["symbol"]).

(** ** Accounts and refresh tokens *)

Inductive AccountStatus := Active | Frozen | Closed.
#[export] Instance account_status_eq_dec : EqDecision AccountStatus.
Proof. solve_decision. Defined.

Definition status_from_db (value : string) : AccountStatus :=
  if bool_decide (value = "active") then Active
  else if bool_decide (value = "frozen") then Frozen else Closed.

Record AuthUser := mkAuthUser {
  au_id : Uuid; au_email : string; au_password_hash : string; au_status : AccountStatus;
  au_kyc_level : Z; au_totp_enabled : bool }.

(** Instants are counted in nanoseconds since the Unix epoch. *)
Record RefreshToken := mkRefreshToken {
  rt_id : Uuid; rt_user_id : Uuid; rt_session_id : Uuid; rt_token_hash : string;
  rt_family_id : Uuid; rt_expires_at : Z; rt_revoked_at : option Z }.

Record CreateUser := mkCreateUser {
  cu_id : Uuid; cu_email : string; cu_password_hash : string }.

Record CreateRefreshToken := mkCreateRefreshToken {
  cr_id : Uuid; cr_user_id : Uuid; cr_session_id : Uuid; cr_token_hash : string;
  cr_family_id : Uuid; cr_expires_at : Z }.

Inductive RepositoryError := RepoEmailTaken | RepoUnavailable.

(** ** The repository *)

Definition RepoOp (S A : Type) : Type := S -> result RepositoryError A * S.

Class AuthRepository (S : Type) := {
  create_user : CreateUser -> RepoOp S AuthUser;
  find_user_by_email : string -> RepoOp S (option AuthUser);
  insert_refresh_token : CreateRefreshToken -> RepoOp S ();
  find_refresh_token : string -> RepoOp S (option RefreshToken);
  find_user_by_id : Uuid -> RepoOp S (option AuthUser);
  revoke_refresh_token : Uuid -> Z -> RepoOp S ();
  revoke_refresh_family : Uuid -> Z -> RepoOp S ();
}.

(** [COALESCE(revoked_at, $2)]. *)
Definition revoke (at_ : Z) (t : RefreshToken) : RefreshToken :=
  mkRefreshToken (rt_id t) (rt_user_id t) (rt_session_id t) (rt_token_hash t) (rt_family_id t)
    (rt_expires_at t) (Some (default at_ (rt_revoked_at t))).

Definition new_token (c : CreateRefreshToken) : RefreshToken :=
  mkRefreshToken (cr_id c) (cr_user_id c) (cr_session_id c) (cr_token_hash c) (cr_family_id c)
    (cr_expires_at c) None.

Definition new_user (c : CreateUser) : AuthUser :=
  mkAuthUser (cu_id c) (cu_email c) (cu_password_hash c) Active 0 false.

(** ** What a repository promises *)

(** What is stored: the users and tokens by id, the accounts' balances and the assets that
    are active. *)
Class AuthViews (S : Type) := {
  users_of : S -> gmap Uuid AuthUser;
  tokens_of : S -> gmap Uuid RefreshToken;
  balances_of : S -> gmap (Uuid * Uuid) Balance;
  active_assets : S -> gset Uuid;
}.

(** The keys of the tables: ids, token hashes and emails are unique. *)
Definition keys_ok {S} {v : AuthViews S} (s : S) : Prop :=
  (forall i u, users_of s !! i = Some u -> au_id u = i) /\
  (forall i t, tokens_of s !! i = Some t -> rt_id t = i) /\
  (forall i j u w, users_of s !! i = Some u -> users_of s !! j = Some w ->
     au_email u = au_email w -> i = j) /\
  (forall i j t w, tokens_of s !! i = Some t -> tokens_of s !! j = Some w ->
     rt_token_hash t = rt_token_hash w -> i = j).

Definition same_accounts {S} {v : AuthViews S} (s s' : S) : Prop :=
  users_of s' = users_of s /\ balances_of s' = balances_of s /\
  active_assets s' = active_assets s.

Definition same_store {S} {v : AuthViews S} (s s' : S) : Prop :=
  same_accounts s s' /\ tokens_of s' = tokens_of s.

(** Zero balances for the active assets the user has no balance of yet. *)
Definition seeded (user_id : Uuid) (active : gset Uuid) (b b' : gmap (Uuid * Uuid) Balance) : Prop :=
  forall u k, b' !! (u, k) =
    match b !! (u, k) with
    | Some x => Some x
    | None => if decide (u = user_id /\ k ∈ active) then Some (mkBalance 0 0) else None
    end.

(** Any operation may fail, and then nothing has changed. *)
Class AuthRepositoryLaws (S : Type) {repo : AuthRepository S} {views : AuthViews S} := {
  create_user_law c s s' r : keys_ok s -> create_user c s = (r, s') ->
    match r with
    | Ok u => u = new_user c /\ users_of s !! cu_id c = None /\
        (forall i v, users_of s !! i = Some v -> au_email v <> cu_email c) /\
        users_of s' = <[cu_id c := u]> (users_of s) /\ tokens_of s' = tokens_of s /\
        active_assets s' = active_assets s /\
        seeded (cu_id c) (active_assets s) (balances_of s) (balances_of s')
    | Err _ => same_store s s'
    end;
  find_user_by_email_law e s s' r : keys_ok s -> find_user_by_email e s = (r, s') ->
    same_store s s' /\
    match r with
    | Ok (Some u) => users_of s !! au_id u = Some u /\ au_email u = e
    | Ok None => forall i v, users_of s !! i = Some v -> au_email v <> e
    | Err _ => True
    end;
  find_user_by_id_law i s s' r : keys_ok s -> find_user_by_id i s = (r, s') ->
    same_store s s' /\ match r with Ok u => users_of s !! i = u | Err _ => True end;
  insert_refresh_token_law c s s' r : keys_ok s -> insert_refresh_token c s = (r, s') ->
    same_accounts s s' /\
    match r with
    | Ok _ => tokens_of s !! cr_id c = None /\
        (forall i t, tokens_of s !! i = Some t -> rt_token_hash t <> cr_token_hash c) /\
        tokens_of s' = <[cr_id c := new_token c]> (tokens_of s)
    | Err _ => tokens_of s' = tokens_of s
    end;
  find_refresh_token_law h s s' r : keys_ok s -> find_refresh_token h s = (r, s') ->
    same_store s s' /\
    match r with
    | Ok (Some t) => tokens_of s !! rt_id t = Some t /\ rt_token_hash t = h
    | Ok None => forall i t, tokens_of s !! i = Some t -> rt_token_hash t <> h
    | Err _ => True
    end;
  revoke_refresh_token_law i time s s' r : keys_ok s -> revoke_refresh_token i time s = (r, s') ->
    same_accounts s s' /\
    tokens_of s' = match r with Ok _ => alter (revoke time) i (tokens_of s) | Err _ => tokens_of s end;
  revoke_refresh_family_law f time s s' r : keys_ok s -> revoke_refresh_family f time s = (r, s') ->
    same_accounts s s' /\
    tokens_of s' = match r with
      | Ok _ => (fun t => if decide (rt_family_id t = f) then revoke time t else t) <$> tokens_of s
      | Err _ => tokens_of s
      end;
}.

(** ** Passwords and tokens *)

Record AccessClaims := mkAccessClaims {
  ac_sub : Uuid; ac_sid : Uuid; ac_kyc : Z; ac_iat : Z; ac_exp : Z; ac_jti : Uuid }.
Record MfaClaims := mkMfaClaims {
  mc_sub : Uuid; mc_sid : Uuid; mc_purpose : string; mc_iat : Z; mc_exp : Z; mc_jti : Uuid }.

Class AuthCrates := {
  (** [Argon2::new(Argon2id, V0x13, Params::new(..))], by its cost parameters. *)
  argon2_hash : Z * Z * Z -> string -> string -> option string;
  argon2_verify : Z * Z * Z -> string -> string -> bool;
  argon2_params : Z * Z * Z -> bool;
  (** [PasswordHash::new]: whether the text is well formed. *)
  phc_parses : string -> bool;
  (** The [n]th salt and the [n]th 32 bytes drawn from [OsRng]. *)
  os_salt : nat -> string;
  os_bytes : nat -> list Z;
  (** [URL_SAFE_NO_PAD.encode]. *)
  base64_url : list Z -> string;
  (** [jsonwebtoken::encode] with HS256. *)
  encode_access : string -> AccessClaims -> option string;
  encode_mfa : string -> MfaClaims -> option string;
  (** [OffsetDateTime::unix_timestamp] and [checked_add] of seconds. *)
  unix_timestamp : Z -> Z;
  checked_add_seconds : Z -> Z -> option Z;
}.

Class AuthCratesLaws {ac : AuthCrates} := {
  argon2_params_ok : argon2_params (65536, 3, 4) = true;
  argon2_verifies p salt w h : argon2_hash p salt w = Some h ->
    phc_parses h = true /\ argon2_verify p w h = true;
}.

Inductive PasswordError := PeParams | PeHash | PeParse.

Record TokenConfig := mkTokenConfig {
  jwt_secret : string;
  (** In seconds. *)
  access_token_ttl : Z; mfa_token_ttl : Z; refresh_token_ttl : Z }.

Record TokenPair := mkTokenPair {
  tp_access_token : string; tp_refresh_token : string; tp_refresh_token_hash : string;
  tp_refresh_expires_at : Z; tp_expires_in : Z }.

Inductive TokenError := TeJwt | TeExpiryOverflow.

Section Tokens.
Context {ac : AuthCrates} {hops : HashOps}.

Definition ARGON2 : Z * Z * Z := (64 * 1024, 3, 4).

Definition argon2 : result PasswordError (Z * Z * Z) :=
  if argon2_params ARGON2 then Ok ARGON2 else Err PeParams.

Definition hash_password (salt password : string) : result PasswordError string :=
  res_bind argon2 (fun params =>
    match argon2_hash params salt password with Some h => Ok h | None => Err PeHash end).

Definition verify_password (password stored_hash : string) : result PasswordError bool :=
  if phc_parses stored_hash then
    res_map (fun params => argon2_verify params password stored_hash) argon2
  else Err PeParse.

(** [hex_char] reads the same table as [Reserves.hex_digit]. *)
Definition hash_refresh_token (token : string) : string := hex_lower (sha256 token).

Definition generate_refresh_token (draw : nat) : string := base64_url (os_bytes draw).

(** [i64::try_from(duration.as_secs())], then [checked_add]. *)
Definition add_duration (now duration : Z) : option Z :=
  if duration <? 2 ^ 63 then checked_add_seconds now duration else None.

(** [draw] numbers the bytes taken from [OsRng]. *)
Definition mint_pair (config : TokenConfig) (draw : nat) (now : Z)
    (user_id session_id : Uuid) (kyc_level : Z) (jwt_id : Uuid) : result TokenError TokenPair :=
  match add_duration now (access_token_ttl config), add_duration now (refresh_token_ttl config) with
  | Some access_expires_at, Some refresh_expires_at =>
      let claims := mkAccessClaims user_id session_id kyc_level (unix_timestamp now)
                      (unix_timestamp access_expires_at) jwt_id in
      match encode_access (jwt_secret config) claims with
      | None => Err TeJwt
      | Some access_token =>
          let refresh_token := generate_refresh_token draw in
          Ok (mkTokenPair access_token refresh_token (hash_refresh_token refresh_token)
                refresh_expires_at (access_token_ttl config))
      end
  | _, _ => Err TeExpiryOverflow
  end.

Definition mint_mfa_token (config : TokenConfig) (now : Z) (user_id session_id jwt_id : Uuid)
    : result TokenError string :=
  match add_duration now (mfa_token_ttl config) with
  | None => Err TeExpiryOverflow
  | Some expires_at =>
      match encode_mfa (jwt_secret config) (mkMfaClaims user_id session_id "mfa"
              (unix_timestamp now) (unix_timestamp expires_at) jwt_id) with
      | Some t => Ok t
      | None => Err TeJwt
      end
  end.
End Tokens.

Lemma hash_verifies {ac : AuthCrates} {acl : AuthCratesLaws} salt w h :
  hash_password salt w = Ok h -> verify_password w h = Ok true.
Proof.
  unfold hash_password, verify_password, argon2. rewrite argon2_params_ok. cbn.
  destruct (argon2_hash _ salt w) as [x|] eqn:E; [|done]. intros [= <-].
  destruct (argon2_verifies _ _ _ _ E) as [-> ->]. done.
Qed.
