(* ===== verification/Auth.v ===== *)
(** * Auth: signing up, logging in and refreshing a session

    [AuthService] of [services/api/src/auth/service.rs], against the repository interface
    of AuthBase.  The service keeps the failed logins in memory; [sv_clock], [sv_ids] and
    [sv_draws] count the readings of the clock, the identifiers and the random draws
    taken so far.

    Requests run at the same time.  What runs undivided is one statement of the repository,
    one section under the lock of the failed logins and one reading of a source; the
    operations ([signup_steps], [login_steps], [refresh_steps]) are written over these, for
    any way [M] to run them.  As a [Task] an operation can be stopped after each of them,
    and AuthConc.v interleaves such tasks.  [signup], [login] and [refresh] are the
    operations with nothing in between ([login_alone] and its siblings). *)
From S2P Require Import Prelude Database ApiBase Reserves AuthBase.

Definition LOGIN_WINDOW_SECONDS : Z := 15 * 60.
Definition MAX_LOGIN_FAILURES : Z := 5.

Record FailureWindow := mkFailureWindow { fw_count : Z; fw_first_failure_at : Z }.

Record LoginAttempts := mkLoginAttempts {
  by_email : gmap string FailureWindow; by_ip : gmap string FailureWindow }.

Inductive LoginOutcome := Tokens (pair : TokenPair) | MfaNeeded (mfa_token : string).

Inductive AuthError :=
  AeInvalidEmail | AeWeakPassword (missing : list string) | AeEmailTaken | AeInvalidCredentials
| AeTooManyAttempts | AeTokenExpired | AeTokenInvalid | AeInternal.

Record SignupInput := mkSignupInput { si_email : string; si_password : string }.
Record LoginInput := mkLoginInput { li_email : string; li_password : string }.

(** ** Failed logins *)

Definition u32_saturating_add (a b : Z) : Z := Z.min U32_MAX (a + b).

Definition increment_window (w : FailureWindow) : FailureWindow :=
  mkFailureWindow (u32_saturating_add (fw_count w) 1) (fw_first_failure_at w).

(** [entry(key).or_insert(window)], incremented. *)
Definition record_in (key : string) (now : Z) (m : gmap string FailureWindow) :=
  <[key := increment_window (default (mkFailureWindow 0 now) (m !! key))]> m.

Definition attempts_record (email ip_key : string) (now : Z) (a : LoginAttempts) : LoginAttempts :=
  mkLoginAttempts (record_in email now (by_email a)) (record_in ip_key now (by_ip a)).

Definition recent (now : Z) (kw : string * FailureWindow) : Prop :=
  now - fw_first_failure_at kw.2 <= LOGIN_WINDOW_SECONDS.

#[export] Instance recent_dec now kw : Decision (recent now kw).
Proof. unfold recent. apply _. Defined.

Definition attempts_prune (now : Z) (a : LoginAttempts) : LoginAttempts :=
  mkLoginAttempts (filter (recent now) (by_email a)) (filter (recent now) (by_ip a)).

Definition window_locked (w : option FailureWindow) : bool :=
  match w with Some w => MAX_LOGIN_FAILURES <=? fw_count w | None => false end.

Definition is_locked (email ip_key : string) (a : LoginAttempts) : bool :=
  window_locked (by_email a !! email) || window_locked (by_ip a !! ip_key).

(** ** The service *)

Record Service (S : Type) := mkService {
  sv_repo : S;
  sv_attempts : LoginAttempts;
  sv_clock : nat;
  sv_ids : nat;
  sv_draws : nat;
}.
Arguments mkService {S}.
Arguments sv_repo {S} _.
Arguments sv_attempts {S} _.
Arguments sv_clock {S} _.
Arguments sv_ids {S} _.
Arguments sv_draws {S} _.

(** [self.clock.now()]: the [n]th reading. *)
Class ClockSource := { clock_now : nat -> Z }.

Section AuthService.
Context {S : Type} {repo : AuthRepository S} {ac : AuthCrates} {hops : HashOps}.
Context {uc : UnicodeChars} {us : UuidSource} {ck : ClockSource}.
Context (token_config : TokenConfig).

Definition AuthM (A : Type) : Type := Service S -> result AuthError A * Service S.

Definition aret {A} (a : A) : AuthM A := fun s => (Ok a, s).
Definition aerr {A} (e : AuthError) : AuthM A := fun s => (Err e, s).
Definition abind {A B} (m : AuthM A) (k : A -> AuthM B) : AuthM B :=
  fun s => match m s with (Ok a, s') => k a s' | (Err e, s') => (Err e, s') end.

Definition lift_repo {A} (m : RepoOp S A) : AuthM (result RepositoryError A) :=
  fun s => let '(r, s') := m (sv_repo s) in
    (Ok r, mkService s' (sv_attempts s) (sv_clock s) (sv_ids s) (sv_draws s)).

(** [.await.map_err(|_| AuthError::Internal)?]. *)
Definition repo_or_internal {A} (m : RepoOp S A) : AuthM A :=
  abind (lift_repo m) (fun r => match r with Ok a => aret a | Err _ => aerr AeInternal end).

Definition or_internal {E A} (r : result E A) : AuthM A :=
  match r with Ok a => aret a | Err _ => aerr AeInternal end.

Definition now : AuthM Z := fun s =>
  (Ok (clock_now (sv_clock s)),
   mkService (sv_repo s) (sv_attempts s) (Datatypes.S (sv_clock s)) (sv_ids s) (sv_draws s)).
Definition new_uuid : AuthM Uuid := fun s =>
  (Ok (new_v4 (sv_ids s)),
   mkService (sv_repo s) (sv_attempts s) (sv_clock s) (Datatypes.S (sv_ids s)) (sv_draws s)).
Definition draw : AuthM nat := fun s =>
  (Ok (sv_draws s),
   mkService (sv_repo s) (sv_attempts s) (sv_clock s) (sv_ids s) (Datatypes.S (sv_draws s))).
Definition get_attempts : AuthM LoginAttempts := fun s => (Ok (sv_attempts s), s).
Definition set_attempts (a : LoginAttempts) : AuthM () := fun s =>
  (Ok (), mkService (sv_repo s) a (sv_clock s) (sv_ids s) (sv_draws s)).

Local Notation "'let^' x := m 'in' k" := (abind m (fun x => k))
  (at level 10, x pattern, m at level 100, k at level 200).
Local Notation "m ;^ k" := (abind m (fun _ => k)) (at level 100, k at level 200).

Definition normalised_email_or_error (email : string) : AuthM string :=
  let email := normalize_email email in
  if is_valid_email email then aret email else aerr AeInvalidEmail.

Definition ensure_login_allowed (email ip_key : string) (now : Z) : AuthM () :=
  let^ attempts := get_attempts in
  let attempts := attempts_prune now attempts in
  set_attempts attempts ;^
  if is_locked email ip_key attempts then aerr AeTooManyAttempts else aret ().

Definition record_login_failure (email ip_key : string) (now : Z) : AuthM () :=
  let^ attempts := get_attempts in
  set_attempts (attempts_record email ip_key now attempts).

Definition clear_login_failures (email ip_key : string) : AuthM () :=
  let^ a := get_attempts in
  set_attempts (mkLoginAttempts (delete email (by_email a)) (delete ip_key (by_ip a))).

End AuthService.

(** ** The operations *)

(** A way to run an operation: [atomic m] is one undivided section. *)
Class AuthSteps (S : Type) (M : Type -> Type) := {
  sret {A} : A -> M A;
  sfail {A} : AuthError -> M A;
  sbind {A B} : M A -> (A -> M B) -> M B;
  atomic {A} : AuthM (S := S) A -> M A;
}.

Local Notation "'let^' x := m 'in' k" := (sbind m (fun x => k))
  (at level 10, x pattern, m at level 100, k at level 200).
Local Notation "m ;^ k" := (sbind m (fun _ => k)) (at level 100, k at level 200).

Section Operations.
Context {S : Type} {repo : AuthRepository S} {ac : AuthCrates} {hops : HashOps}.
Context {uc : UnicodeChars} {us : UuidSource} {ck : ClockSource}.
Context {M : Type -> Type} {steps : AuthSteps S M}.
Context (token_config : TokenConfig).

Definition mint_and_store_pair_with_family_steps (user_id session_id family_id token_id : Uuid)
    (kyc_level : Z) : M TokenPair :=
  let^ time := atomic now in
  let^ jwt_id := atomic new_uuid in
  let^ n := atomic draw in
  let^ minted := atomic (or_internal
    (mint_pair token_config n time user_id session_id kyc_level jwt_id)) in
  atomic (repo_or_internal (insert_refresh_token (mkCreateRefreshToken token_id user_id
    session_id (tp_refresh_token_hash minted) family_id (tp_refresh_expires_at minted)))) ;^
  sret minted.

Definition mint_and_store_pair_steps (user_id session_id family_id : Uuid) (kyc_level : Z)
    : M TokenPair :=
  let^ token_id := atomic new_uuid in
  mint_and_store_pair_with_family_steps user_id session_id family_id token_id kyc_level.

(** The pause before EMAIL_TAKEN is left out: it only delays the answer. *)
Definition signup_steps (input : SignupInput) : M TokenPair :=
  let^ email := atomic (normalised_email_or_error (si_email input)) in
  let missing := password_policy_failures (si_password input) in
  if bool_decide (missing <> []) then sfail (AeWeakPassword missing) else
  let^ n := atomic draw in
  let^ password_hash := atomic (or_internal (hash_password (os_salt n) (si_password input))) in
  let^ user_id := atomic new_uuid in
  let^ user := atomic (lift_repo (create_user (mkCreateUser user_id email password_hash))) in
  match user with
  | Err RepoEmailTaken => sfail AeEmailTaken
  | Err RepoUnavailable => sfail AeInternal
  | Ok user =>
      let^ session_id := atomic new_uuid in
      let^ family_id := atomic new_uuid in
      mint_and_store_pair_steps (au_id user) session_id family_id (au_kyc_level user)
  end.

(** A failed login: remembered, then refused. *)
Definition refuse_login_steps {A} (email ip_key : string) (now : Z) : M A :=
  atomic (record_login_failure email ip_key now) ;^ sfail AeInvalidCredentials.

Definition login_steps (input : LoginInput) (ip_key : string) : M LoginOutcome :=
  let^ email := atomic (normalised_email_or_error (li_email input)) in
  let^ time := atomic now in
  let time := unix_timestamp time in
  atomic (ensure_login_allowed email ip_key time) ;^
  let^ found := atomic (repo_or_internal (find_user_by_email email)) in
  match found with
  | None => refuse_login_steps email ip_key time
  | Some user =>
      if bool_decide (au_status user <> Active) then refuse_login_steps email ip_key time else
      let^ verified := atomic (or_internal
        (verify_password (li_password input) (au_password_hash user))) in
      if negb verified then refuse_login_steps email ip_key time else
      atomic (clear_login_failures email ip_key) ;^
      let^ session_id := atomic new_uuid in
      if au_totp_enabled user then
        let^ time := atomic now in
        let^ jwt_id := atomic new_uuid in
        let^ mfa_token := atomic (or_internal
          (mint_mfa_token token_config time (au_id user) session_id jwt_id)) in
        sret (MfaNeeded mfa_token)
      else
        let^ family_id := atomic new_uuid in
        let^ minted := mint_and_store_pair_steps (au_id user) session_id family_id (au_kyc_level user) in
        sret (Tokens minted)
  end.

Definition refresh_find_steps (refresh_token : string) : M (option RefreshToken) :=
  atomic (repo_or_internal (find_refresh_token (hash_refresh_token refresh_token))).

Definition refresh_use_steps (stored : option RefreshToken) : M TokenPair :=
  match stored with
  | None => sfail AeTokenInvalid
  | Some stored =>
      let^ time := atomic now in
      if bool_decide (is_Some (rt_revoked_at stored)) then
        atomic (repo_or_internal (revoke_refresh_family (rt_family_id stored) time)) ;^
        sfail AeTokenInvalid
      else if rt_expires_at stored <=? time then
        atomic (repo_or_internal (revoke_refresh_token (rt_id stored) time)) ;^
        sfail AeTokenExpired
      else
        let^ user := atomic (repo_or_internal (find_user_by_id (rt_user_id stored))) in
        match user with
        | None => sfail AeTokenInvalid
        | Some user =>
            if bool_decide (au_status user <> Active) then sfail AeTokenInvalid else
            atomic (repo_or_internal (revoke_refresh_token (rt_id stored) time)) ;^
            let^ token_id := atomic new_uuid in
            mint_and_store_pair_with_family_steps (au_id user) (rt_session_id stored)
              (rt_family_id stored) token_id (au_kyc_level user)
        end
  end.

(** Two requests with one token may both look it up before either revokes it. *)
Definition refresh_steps (refresh_token : string) : M TokenPair :=
  let^ stored := refresh_find_steps refresh_token in
  refresh_use_steps stored.
End Operations.

(** ** Alone, and as tasks *)

(** The sections one after the other. *)
#[export] Instance auth_alone (S : Type) : AuthSteps S (AuthM (S := S)) := {|
  sret _ := aret;
  sfail _ := aerr;
  sbind _ _ := abind;
  atomic _ m := m;
|}.

(** An operation under way: finished, or before its next section. *)
Inductive Task (S A : Type) :=
| Finish (r : result AuthError A)
| Await {X : Type} (m : AuthM (S := S) X) (k : X -> Task S A).
Arguments Finish {S A} _.
Arguments Await {S A X} _ _.

Fixpoint tbind {S A B} (t : Task S A) (k : A -> Task S B) : Task S B :=
  match t with
  | Finish (Ok a) => k a
  | Finish (Err e) => Finish (Err e)
  | Await m k' => Await m (fun x => tbind (k' x) k)
  end.

#[export] Instance task_steps (S : Type) : AuthSteps S (Task S) := {|
  sret _ a := Finish (Ok a);
  sfail _ e := Finish (Err e);
  sbind _ _ := tbind;
  atomic _ m := Await m (fun x => Finish (Ok x));
|}.

(** The next section of a task. *)
Definition advance {S A} (t : Task S A) (s : Service S) : Task S A * Service S :=
  match t with
  | Finish r => (Finish r, s)
  | Await m k => match m s with (Ok x, s') => (k x, s') | (Err e, s') => (Finish (Err e), s') end
  end.

Fixpoint run_alone {S A} (t : Task S A) : AuthM (S := S) A :=
  match t with
  | Finish r => fun s => (r, s)
  | Await m k => abind m (fun x => run_alone (k x))
  end.

Section Alone.
Context {S : Type} {repo : AuthRepository S} {ac : AuthCrates} {hops : HashOps}.
Context {uc : UnicodeChars} {us : UuidSource} {ck : ClockSource}.
Context (token_config : TokenConfig).

Definition mint_and_store_pair_with_family (user_id session_id family_id token_id : Uuid)
    (kyc_level : Z) : AuthM (S := S) TokenPair :=
  mint_and_store_pair_with_family_steps token_config user_id session_id family_id token_id kyc_level.
Definition mint_and_store_pair (user_id session_id family_id : Uuid) (kyc_level : Z)
    : AuthM (S := S) TokenPair :=
  mint_and_store_pair_steps token_config user_id session_id family_id kyc_level.
Definition refuse_login {A} (email ip_key : string) (now : Z) : AuthM (S := S) A :=
  refuse_login_steps email ip_key now.
Definition signup (input : SignupInput) : AuthM (S := S) TokenPair := signup_steps token_config input.
Definition login (input : LoginInput) (ip_key : string) : AuthM (S := S) LoginOutcome :=
  login_steps token_config input ip_key.
Definition refresh_find (refresh_token : string) : AuthM (S := S) (option RefreshToken) :=
  refresh_find_steps refresh_token.
Definition refresh_use (stored : option RefreshToken) : AuthM (S := S) TokenPair :=
  refresh_use_steps token_config stored.
Definition refresh (refresh_token : string) : AuthM (S := S) TokenPair :=
  refresh_steps token_config refresh_token.

(** *** A task that nothing comes in between of is the operation *)

Definition denotes {A} (t : Task S A) (m : AuthM (S := S) A) : Prop := forall s, run_alone t s = m s.

Lemma denotes_ret {A} (a : A) : denotes (sret a) (sret a). Proof. done. Qed.
Lemma denotes_fail {A} e : denotes (A := A) (sfail e) (sfail e). Proof. done. Qed.
Lemma denotes_atomic {A} (m : AuthM A) : denotes (atomic m) (atomic m).
Proof. intros s. cbn. unfold abind. by destruct (m s) as [[a|e] s']. Qed.

Lemma denotes_bind {A B} (t : Task S A) (m : AuthM A) (k : A -> Task S B) (k' : A -> AuthM B) :
  denotes t m -> (forall a, denotes (k a) (k' a)) -> denotes (sbind t k) (sbind m k').
Proof.
  intros Ht Hk s. transitivity (abind (run_alone t) k' s); [|unfold sbind, abind; cbn; by rewrite Ht].
  clear m Ht. revert s. induction t as [[a|e]|X m k0 IH]; intros s; cbn; [apply Hk|done|].
  unfold abind. destruct (m s) as [[x|e] s']; [apply IH|done].
Qed.

Ltac denotes_tac :=
  repeat first
    [ apply denotes_ret | apply denotes_fail | apply denotes_atomic
    | apply denotes_bind; [|intros ?]
    | match goal with |- context [match ?x with _ => _ end] => destruct x end ].

Lemma signup_alone input s : run_alone (signup_steps token_config input) s = signup input s.
Proof.
  revert s. change (denotes (signup_steps token_config input) (signup_steps token_config input)).
  unfold signup_steps, mint_and_store_pair_steps, mint_and_store_pair_with_family_steps. denotes_tac.
Qed.
Lemma login_alone input ip s : run_alone (login_steps token_config input ip) s = login input ip s.
Proof.
  revert s. change (denotes (login_steps token_config input ip) (login_steps token_config input ip)).
  unfold login_steps, refuse_login_steps, mint_and_store_pair_steps,
    mint_and_store_pair_with_family_steps. denotes_tac.
Qed.
Lemma refresh_alone token s : run_alone (refresh_steps token_config token) s = refresh token s.
Proof.
  revert s. change (denotes (refresh_steps token_config token) (refresh_steps token_config token)).
  unfold refresh_steps, refresh_find_steps, refresh_use_steps,
    mint_and_store_pair_with_family_steps. denotes_tac.
Qed.
End Alone.

Arguments signup : simpl never.
Arguments login : simpl never.
Arguments refresh_find : simpl never.
Arguments refresh_use : simpl never.
Arguments refresh : simpl never.

(** Opens up an operation that runs alone. *)
Ltac open_alone H :=
  unfold signup, login, refresh, refresh_find, refresh_use, signup_steps, login_steps,
    refresh_steps, refresh_find_steps, refresh_use_steps in H;
  repeat match type of H with
  | context [@mint_and_store_pair_steps ?S ?r ?a ?h ?u ?k _ (auth_alone _)] =>
      change (@mint_and_store_pair_steps S r a h u k _ (auth_alone S))
        with (@mint_and_store_pair S r a h u k) in H
  | context [@mint_and_store_pair_with_family_steps ?S ?r ?a ?h ?u ?k _ (auth_alone _)] =>
      change (@mint_and_store_pair_with_family_steps S r a h u k _ (auth_alone S))
        with (@mint_and_store_pair_with_family S r a h u k) in H
  | context [@refuse_login_steps ?S _ (auth_alone _) ?A] =>
      change (@refuse_login_steps S _ (auth_alone S) A) with (@refuse_login S A) in H
  end;
  cbn [sbind sret sfail atomic auth_alone] in H.
