(* ===== verification/AuthPg.v ===== *)
(** * AuthPg: the repositories of the API's auth

    Two implementations of [AuthRepository].  The first is
    [services/api/src/repositories/postgres.rs] on the tables [users], [refresh_tokens],
    [balances] and [assets], which keeps the laws of the trait.
    A row of [users] is split between [Database.users] and [pg_accounts], which holds the
    columns only auth reads.  [pg_faults] says which of the next statements fail because
    the database cannot be reached; a transaction counts as one, since it is rolled back
    wherever it fails.  The second, [repositories/memory.rs], answers as the first does. *)
From S2P Require Import Prelude Numeric Database AuthBase.

Record AccountRow := mkAccountRow {
  ac_email : string; ac_password_hash : string; ac_kyc_level : Z; ac_totp_enabled : bool }.

Record PgAuthRepository (J : Type) := mkPgAuth {
  pg_db : Db J;
  pg_accounts : gmap Uuid AccountRow;
  pg_tokens : gmap Uuid RefreshToken;
  pg_faults : list bool;
}.
Arguments mkPgAuth {J}.
Arguments pg_db {J} _.
Arguments pg_accounts {J} _.
Arguments pg_tokens {J} _.
Arguments pg_faults {J} _.

Section Pg.
Context {J : Type}.
Abbreviation PgAuth := (PgAuthRepository J).

Definition map_sqlx (e : DbError) : RepositoryError :=
  match e with UniqueViolation => RepoEmailTaken | _ => RepoUnavailable end.

Definition after_fault (s : PgAuth) : PgAuth :=
  mkPgAuth (pg_db s) (pg_accounts s) (pg_tokens s) (tail (pg_faults s)).

(** A statement or transaction: all of it or nothing. *)
Definition pg_run {A} (m : PgAuth -> result DbError (A * PgAuth)) : RepoOp PgAuth A := fun s =>
  match pg_faults s with
  | true :: _ => (Err RepoUnavailable, after_fault s)
  | _ =>
      match m (after_fault s) with
      | Ok (a, s') => (Ok a, s')
      | Err e => (Err (map_sqlx e), after_fault s)
      end
  end.

(** [AuthUser::from(AuthUserRow)]. *)
Definition auth_user (id : Uuid) (row : UserTab * AccountRow) : AuthUser :=
  mkAuthUser id (ac_email row.2) (ac_password_hash row.2) (status_from_db (ut_status row.1))
    (ac_kyc_level row.2) (ac_totp_enabled row.2).

Definition pg_users (s : PgAuth) : gmap Uuid AuthUser :=
  map_imap (fun id row => Some (auth_user id row)) (map_zip (users (pg_db s)) (pg_accounts s)).

Definition active_asset_ids (db : Db J) : gset Uuid :=
  dom (filter (fun ka => at_status ka.2 = "active") (assets db)).

(** [INSERT .. SELECT .. ON CONFLICT DO NOTHING]. *)
Definition seed_zero_balances (user_id : Uuid) (db : Db J) : Db J :=
  with_balances (fun b => b ∪
    set_to_map (fun k => ((user_id, k), mkBalance 0 0)) (active_asset_ids db)) db.

(** The primary key and [uq_users_email]. *)
Definition pg_create_user (c : CreateUser) (s : PgAuth) : result DbError (AuthUser * PgAuth) :=
  if bool_decide (users (pg_db s) !! cu_id c = None /\
       map_Forall (fun _ a => ac_email a <> cu_email c) (pg_accounts s)) then
    let user := mkUserTab "active" false false in
    let account := mkAccountRow (cu_email c) (cu_password_hash c) 0 false in
    let db := seed_zero_balances (cu_id c) (with_users (insert (cu_id c) user) (pg_db s)) in
    Ok (auth_user (cu_id c) (user, account),
        mkPgAuth db (<[cu_id c := account]> (pg_accounts s)) (pg_tokens s) (pg_faults s))
  else Err UniqueViolation.

Definition pg_find_user_by_email (email : string) (s : PgAuth)
    : result DbError (option AuthUser * PgAuth) :=
  Ok (head (filter (fun u => au_email u = email) (map_to_list (pg_users s)).*2), s).

Definition pg_find_user_by_id (id : Uuid) (s : PgAuth) : result DbError (option AuthUser * PgAuth) :=
  Ok (pg_users s !! id, s).

Definition with_tokens (f : gmap Uuid RefreshToken -> gmap Uuid RefreshToken) (s : PgAuth) : PgAuth :=
  mkPgAuth (pg_db s) (pg_accounts s) (f (pg_tokens s)) (pg_faults s).

(** The primary key, [uq_refresh_tokens_token_hash] and the foreign key. *)
Definition pg_insert_refresh_token (c : CreateRefreshToken) (s : PgAuth)
    : result DbError (() * PgAuth) :=
  if bool_decide (pg_tokens s !! cr_id c = None /\
       map_Forall (fun _ t => rt_token_hash t <> cr_token_hash c) (pg_tokens s)) then
    if bool_decide (is_Some (users (pg_db s) !! cr_user_id c)) then
      Ok ((), with_tokens (insert (cr_id c) (new_token c)) s)
    else Err ForeignKeyViolation
  else Err UniqueViolation.

Definition pg_find_refresh_token (h : string) (s : PgAuth)
    : result DbError (option RefreshToken * PgAuth) :=
  Ok (snd <$> head (filter (fun it => rt_token_hash it.2 = h) (map_to_list (pg_tokens s))), s).

Definition pg_revoke_refresh_token (id : Uuid) (time : Z) (s : PgAuth)
    : result DbError (() * PgAuth) :=
  Ok ((), with_tokens (alter (revoke time) id) s).

Definition pg_revoke_refresh_family (f : Uuid) (time : Z) (s : PgAuth)
    : result DbError (() * PgAuth) :=
  Ok ((), with_tokens (fmap (fun t => if decide (rt_family_id t = f) then revoke time t else t)) s).

#[export] Instance pg_repository : AuthRepository PgAuth := {|
  create_user c := pg_run (pg_create_user c);
  find_user_by_email e := pg_run (pg_find_user_by_email e);
  insert_refresh_token c := pg_run (pg_insert_refresh_token c);
  find_refresh_token h := pg_run (pg_find_refresh_token h);
  find_user_by_id i := pg_run (pg_find_user_by_id i);
  revoke_refresh_token i time := pg_run (pg_revoke_refresh_token i time);
  revoke_refresh_family f time := pg_run (pg_revoke_refresh_family f time);
|}.

#[export] Instance pg_views : AuthViews PgAuth := {|
  users_of := pg_users;
  tokens_of := pg_tokens;
  balances_of s := balances (pg_db s);
  active_assets s := active_asset_ids (pg_db s);
|}.

(** ** The laws *)

(** A statement that went through ran in the state with one fault fewer; one that did not
    left everything. *)
Lemma pg_run_cases {A} (m : PgAuth -> result DbError (A * PgAuth)) s r s' :
  pg_run m s = (r, s') ->
  (exists a, r = Ok a /\ m (after_fault s) = Ok (a, s')) \/
  (exists e, r = Err e /\ s' = after_fault s).
Proof.
  unfold pg_run. destruct (pg_faults s) as [|[] f]; intros H; [| simplify_eq; eauto|];
    destruct (m (after_fault s)) as [[a s1]|e]; simplify_eq; eauto.
Qed.

Lemma after_fault_same s : same_store s (after_fault s).
Proof. done. Qed.

Lemma pg_users_lookup s i :
  pg_users s !! i =
  match users (pg_db s) !! i, pg_accounts s !! i with
  | Some u, Some a => Some (auth_user i (u, a))
  | _, _ => None
  end.
Proof.
  unfold pg_users. rewrite map_lookup_imap, map_lookup_zip_with.
  by destruct (users (pg_db s) !! i), (pg_accounts s !! i).
Qed.

Lemma with_tokens_same f s : same_accounts s (with_tokens f s).
Proof. done. Qed.

Lemma seed_spec user_id db :
  seeded user_id (active_asset_ids db) (balances db) (balances (seed_zero_balances user_id db)).
Proof.
  intros u k. unfold seed_zero_balances. cbn. rewrite lookup_union.
  assert (forall x, (set_to_map (fun k => ((user_id, k), mkBalance 0 0)) (active_asset_ids db)
      : gmap (Uuid * Uuid) Balance) !! (u, k) = Some x <->
      (u = user_id /\ k ∈ active_asset_ids db) /\ x = mkBalance 0 0) as Hs.
  { intros x. rewrite lookup_set_to_map by (intros; simplify_eq; done). naive_solver. }
  destruct (balances db !! (u, k)) as [b|]; [by rewrite union_Some_l|].
  rewrite option_union_left_id. case_decide as Hd.
  - by apply Hs.
  - apply eq_None_not_Some. intros [x Hx]. by apply Hs in Hx as [? _].
Qed.

#[export] Instance pg_laws : AuthRepositoryLaws PgAuth.
Proof.
  split; intros *; intros Hk H; apply pg_run_cases in H as [(a & -> & H)|(err & -> & ->)];
    try done; unfold after_fault in H.
  - unfold pg_create_user in H. cbn in H. case_bool_decide as Hc; [|done].
    destruct Hc as [Hi He]. injection H as <- <-. split_and!.
    + done.
    + cbn. by rewrite pg_users_lookup, Hi.
    + intros i v. cbn. rewrite pg_users_lookup.
      destruct (users (pg_db s) !! i), (pg_accounts s !! i) eqn:Ea; try done.
      intros [= <-]. by apply (He i).
    + cbn. apply map_eq. intros i. rewrite pg_users_lookup. cbn.
      destruct (decide (i = cu_id c)) as [->|Hne]; [by rewrite !lookup_insert_eq|].
      rewrite !lookup_insert_ne by done. by rewrite pg_users_lookup.
    + done.
    + done.
    + apply (seed_spec (cu_id c) (with_users (insert (cu_id c) (mkUserTab "active" false false)) (pg_db s))).
  - injection H as <- <-. split; [done|]. cbn.
    set (l := filter _ _). destruct (head l) as [u|] eqn:Hh.
    + assert (u ∈ l) as Hin by (destruct l; [done|injection Hh as ->; left]).
      apply list_elem_of_filter in Hin as [He Hin].
      apply list_elem_of_fmap in Hin as ([i w] & -> & Hw). apply elem_of_map_to_list in Hw.
      split; [|done]. cbn in *. destruct Hk as [Hid _]. by rewrite (Hid i).
    + intros i v Hv He. assert (v ∈ l) as Hin.
      { apply list_elem_of_filter. split; [done|]. apply list_elem_of_fmap.
        exists (i, v). split; [done|]. by apply elem_of_map_to_list. }
      destruct l; [by apply elem_of_nil in Hin|done].
  - by injection H as <- <-.
  - unfold pg_insert_refresh_token in H. cbn in H.
    case_bool_decide as Hc; [|done]. case_bool_decide; [|done]. destruct Hc as [Hi Hh].
    injection H as <- <-. split_and!; done.
  - injection H as <- <-. split; [done|]. cbn.
    set (l := filter _ _). destruct (head l) as [[i t]|] eqn:Hh; cbn.
    + assert ((i, t) ∈ l) as Hin by (destruct l; [done|injection Hh as ->; left]).
      apply list_elem_of_filter in Hin as [He Hin]. apply elem_of_map_to_list in Hin.
      split; [|done]. destruct Hk as (_ & Hid & _). by rewrite (Hid i).
    + intros i t Ht He. assert ((i, t) ∈ l) as Hin
        by (apply list_elem_of_filter; split; [done|]; by apply elem_of_map_to_list).
      destruct l; [by apply elem_of_nil in Hin|done].
  - by injection H as <- <-.
  - by injection H as <- <-.
Qed.
End Pg.

(** * The in-memory repository of [repositories/memory.rs]

    Three hash maps under one lock.  The identifiers and token hashes it is given are not
    compared with the stored ones, so it keeps the promises of the trait only for new
    ones; for these it answers what PostgreSQL answers. *)

Record MemoryInner := mkMemory {
  users_by_id : gmap Uuid AuthUser;
  user_id_by_email : gmap string Uuid;
  refresh_by_hash : gmap string RefreshToken;
}.

Section Memory.

Definition insert_user (user : AuthUser) (m : MemoryInner) : MemoryInner :=
  mkMemory (<[au_id user := user]> (users_by_id m))
    (<[au_email user := au_id user]> (user_id_by_email m)) (refresh_by_hash m).

Definition mem_create_user (c : CreateUser) : RepoOp MemoryInner AuthUser := fun m =>
  match user_id_by_email m !! cu_email c with
  | Some _ => (Err RepoEmailTaken, m)
  | None => (Ok (new_user c), insert_user (new_user c) m)
  end.

Definition mem_find_user_by_email (email : string) : RepoOp MemoryInner (option AuthUser) := fun m =>
  (Ok (user_id_by_email m !! email ≫= fun id => users_by_id m !! id), m).

Definition mem_insert_refresh_token (c : CreateRefreshToken) : RepoOp MemoryInner () := fun m =>
  (Ok (), mkMemory (users_by_id m) (user_id_by_email m)
            (<[cr_token_hash c := new_token c]> (refresh_by_hash m))).

Definition mem_find_refresh_token (h : string) : RepoOp MemoryInner (option RefreshToken) := fun m =>
  (Ok (refresh_by_hash m !! h), m).

Definition mem_find_user_by_id (i : Uuid) : RepoOp MemoryInner (option AuthUser) := fun m =>
  (Ok (users_by_id m !! i), m).

(** Tokens that are revoked already keep their time. *)
Definition revoke_where (P : RefreshToken -> Prop) `{!forall t, Decision (P t)} (time : Z)
    (m : MemoryInner) : MemoryInner :=
  mkMemory (users_by_id m) (user_id_by_email m)
    ((fun t => if decide (P t /\ rt_revoked_at t = None) then revoke time t else t) <$>
     refresh_by_hash m).

Definition mem_revoke_refresh_token (id : Uuid) (time : Z) : RepoOp MemoryInner () := fun m =>
  (Ok (), revoke_where (fun t => rt_id t = id) time m).

Definition mem_revoke_refresh_family (f : Uuid) (time : Z) : RepoOp MemoryInner () := fun m =>
  (Ok (), revoke_where (fun t => rt_family_id t = f) time m).

#[export] Instance memory_repository : AuthRepository MemoryInner := {|
  create_user := mem_create_user;
  find_user_by_email := mem_find_user_by_email;
  insert_refresh_token := mem_insert_refresh_token;
  find_refresh_token := mem_find_refresh_token;
  find_user_by_id := mem_find_user_by_id;
  revoke_refresh_token := mem_revoke_refresh_token;
  revoke_refresh_family := mem_revoke_refresh_family;
|}.
End Memory.

(** ** It stands in for PostgreSQL *)

Inductive RepoCall :=
| CallCreate (c : CreateUser) | CallFindEmail (e : string) | CallFindId (i : Uuid)
| CallInsert (c : CreateRefreshToken) | CallFindToken (h : string)
| CallRevoke (i : Uuid) (time : Z) | CallRevokeFamily (f : Uuid) (time : Z).

Inductive RepoAnswer :=
| AnsUser (r : result RepositoryError AuthUser)
| AnsFound (r : result RepositoryError (option AuthUser))
| AnsToken (r : result RepositoryError (option RefreshToken))
| AnsDone (r : result RepositoryError ()).

Definition answer {S A} (f : result RepositoryError A -> RepoAnswer)
    (rs : result RepositoryError A * S) : RepoAnswer * S := (f rs.1, rs.2).

Definition call {S} {repo : AuthRepository S} (c : RepoCall) (s : S) : RepoAnswer * S :=
  match c with
  | CallCreate c => answer AnsUser (create_user c s)
  | CallFindEmail e => answer AnsFound (find_user_by_email e s)
  | CallFindId i => answer AnsFound (find_user_by_id i s)
  | CallInsert c => answer AnsDone (insert_refresh_token c s)
  | CallFindToken h => answer AnsToken (find_refresh_token h s)
  | CallRevoke i time => answer AnsDone (revoke_refresh_token i time s)
  | CallRevokeFamily f time => answer AnsDone (revoke_refresh_family f time s)
  end.

Fixpoint calls {S} {repo : AuthRepository S} (cs : list RepoCall) (s : S) : list RepoAnswer :=
  match cs with [] => [] | c :: cs => (call c s).1 :: calls cs (call c s).2 end.

Section Mirror.
Context {J : Type}.
Abbreviation PgAuth := (PgAuthRepository J).

(** Identifiers and hashes are new, a token is of a stored user. *)
Definition call_fresh (c : RepoCall) (s : PgAuth) : Prop :=
  match c with
  | CallCreate c => users (pg_db s) !! cu_id c = None /\ pg_accounts s !! cu_id c = None
  | CallInsert c =>
      pg_tokens s !! cr_id c = None /\
      map_Forall (fun _ t => rt_token_hash t <> cr_token_hash c) (pg_tokens s) /\
      is_Some (users (pg_db s) !! cr_user_id c)
  | _ => True
  end.

Fixpoint calls_fresh (cs : list RepoCall) (s : PgAuth) : Prop :=
  match cs with [] => True | c :: cs => call_fresh c s /\ calls_fresh cs (call c s).2 end.

Record mirrors (m : MemoryInner) (s : PgAuth) : Prop := {
  mi_users : users_by_id m = pg_users s;
  mi_email : forall e i, user_id_by_email m !! e = Some i <->
    exists u, pg_users s !! i = Some u /\ au_email u = e;
  mi_tokens : forall h t, refresh_by_hash m !! h = Some t <->
    pg_tokens s !! rt_id t = Some t /\ rt_token_hash t = h;
  mi_halves : forall i, is_Some (pg_accounts s !! i) -> is_Some (users (pg_db s) !! i);
  mi_quiet : pg_faults s = [];
  mi_keys : keys_ok s;
}.

Lemma quiet_after (s : PgAuth) : pg_faults s = [] -> after_fault s = s.
Proof. destruct s as [d a t f]. cbn. by intros ->. Qed.

Lemma pg_run_quiet {A} (m : PgAuth -> result DbError (A * PgAuth)) s :
  pg_faults s = [] ->
  pg_run m s = match m s with Ok (a, s') => (Ok a, s') | Err e => (Err (map_sqlx e), s) end.
Proof. intros Hq. unfold pg_run. rewrite Hq. by rewrite (quiet_after s Hq). Qed.

(** What a lookup in both finds is the same. *)
Lemma mirror_email m s e : mirrors m s ->
  (find_user_by_email e m).1 = (find_user_by_email e s).1 /\
  (find_user_by_email e m).2 = m /\ (find_user_by_email e s).2 = s.
Proof.
  intros Hm. pose proof (mi_quiet _ _ Hm) as Hq.
  destruct (find_user_by_email e s) as [r s'] eqn:E.
  pose proof (find_user_by_email_law e s s' r (mi_keys _ _ Hm) E) as [_ Hr].
  cbn in E. rewrite pg_run_quiet in E by done. unfold pg_find_user_by_email in E.
  injection E as <- <-. split_and!; [|done|done]. cbn. f_equal.
  set (found := head _) in *. destruct found as [u|].
  - destruct Hr as [Hu He]. rewrite (proj2 (mi_email _ _ Hm e (au_id u))) by eauto.
    cbn. by rewrite (mi_users _ _ Hm).
  - destruct (user_id_by_email m !! e) as [i|] eqn:Ei; [|done].
    apply (mi_email _ _ Hm) in Ei as (u & Hu & He). by destruct (Hr i u Hu).
Qed.

Lemma mirror_token m s h : mirrors m s ->
  (find_refresh_token h m).1 = (find_refresh_token h s).1 /\
  (find_refresh_token h m).2 = m /\ (find_refresh_token h s).2 = s.
Proof.
  intros Hm. pose proof (mi_quiet _ _ Hm) as Hq.
  destruct (find_refresh_token h s) as [r s'] eqn:E.
  pose proof (find_refresh_token_law h s s' r (mi_keys _ _ Hm) E) as [_ Hr].
  cbn in E. rewrite pg_run_quiet in E by done. unfold pg_find_refresh_token in E.
  injection E as <- <-. split_and!; [|done|done]. cbn. f_equal.
  set (found := snd <$> head _) in *. destruct found as [t|].
  - by apply (mi_tokens _ _ Hm).
  - destruct (refresh_by_hash m !! h) as [t|] eqn:Et; [|done].
    apply (mi_tokens _ _ Hm) in Et as [Ht Hh]. by destruct (Hr _ _ Ht).
Qed.

(** Revoking the tokens of [P] in both. *)
Lemma mirror_revoke (P : RefreshToken -> Prop) `{!forall t, Decision (P t)} time m s s' :
  mirrors m s -> same_accounts s s' -> pg_db s' = pg_db s -> pg_accounts s' = pg_accounts s ->
  pg_faults s' = [] -> (forall t, P (revoke time t) <-> P t) ->
  pg_tokens s' = (fun t => if decide (P t) then revoke time t else t) <$> pg_tokens s ->
  mirrors (revoke_where P time m) s'.
Proof.
  intros Hm (Hu & _ & _) Hdb Hac Hf HP Ht. cbn in Hu.
  set (f := fun t => if decide (P t) then revoke time t else t) in *.
  assert (forall t, rt_id (f t) = rt_id t /\ rt_token_hash (f t) = rt_token_hash t) as Hf'
    by (intros t; subst f; cbn; by case_decide).
  assert (forall t, (if decide (P t /\ rt_revoked_at t = None) then revoke time t else t) = f t)
    as Hone.
  { intros t. subst f. cbn. destruct (decide (P t)) as [Hp|Hp].
    - destruct (rt_revoked_at t) as [at_|] eqn:Er.
      + rewrite decide_False by (intros [_ ?]; done). unfold revoke. rewrite Er. cbn.
        destruct t; cbn in *. by rewrite Er.
      + by rewrite decide_True.
    - by rewrite decide_False by tauto. }
  destruct Hm as [H1 H2 H3 H4 H5 H6]. split; cbn.
  - by rewrite Hu.
  - intros e i. by rewrite Hu, H2.
  - intros h t. rewrite lookup_fmap, Ht, lookup_fmap. setoid_rewrite fmap_Some. split.
    + intros (t0 & H0 & ->). rewrite Hone. apply H3 in H0 as [H0 Hh].
      destruct (Hf' t0) as [-> ->]. split; [by exists t0|done].
    + intros [(t0 & H0 & E) Hh]. exists t0. rewrite Hone. split; [|done].
      apply H3. pose proof (Hf' t0) as [Hi Hh0]. rewrite <-E in Hi, Hh0.
      rewrite <-Hi, <-Hh0. done.
  - by rewrite Hdb, Hac.
  - done.
  - destruct H6 as (K1 & K2 & K3 & K4). unfold keys_ok. cbn. rewrite Hu, Ht.
    split_and!; [done| |done|].
    + intros i t. rewrite lookup_fmap. intros (t0 & H0 & ->)%fmap_Some.
      rewrite (proj1 (Hf' t0)). by apply K2.
    + intros i j t w. rewrite !lookup_fmap. intros (t0 & H0 & ->)%fmap_Some (w0 & Hw & ->)%fmap_Some.
      rewrite (proj2 (Hf' t0)), (proj2 (Hf' w0)). by apply K4.
Qed.

Lemma mirror_taken m s e : mirrors m s ->
  is_Some (user_id_by_email m !! e) <-> exists i a, pg_accounts s !! i = Some a /\ ac_email a = e.
Proof.
  intros Hm. split.
  - intros [i Hi]. apply (mi_email _ _ Hm) in Hi as (u & Hu & He). rewrite pg_users_lookup in Hu.
    destruct (users _ !! i), (pg_accounts s !! i) as [a|] eqn:Ea; try done.
    exists i, a. split; [done|]. by injection Hu as <-.
  - intros (i & a & Ha & He). exists i. apply (mi_email _ _ Hm).
    destruct (mi_halves _ _ Hm i ltac:(by eexists)) as [u Hu].
    exists (auth_user i (u, a)). by rewrite pg_users_lookup, Hu, Ha.
Qed.

Lemma mirror_create m s c : mirrors m s -> call_fresh (CallCreate c) s ->
  (create_user c m).1 = (create_user c s).1 /\ mirrors (create_user c m).2 (create_user c s).2.
Proof.
  intros Hm [Hu Ha]. pose proof (mi_quiet _ _ Hm) as Hq.
  destruct (create_user c s) as [r s'] eqn:E.
  pose proof (create_user_law c s s' r (mi_keys _ _ Hm) E) as Hlaw.
  cbn in E. rewrite pg_run_quiet in E by done. cbn. unfold mem_create_user.
  unfold pg_create_user in E. case_bool_decide as Hc.
  - injection E as <- <-. destruct (user_id_by_email m !! cu_email c) as [i|] eqn:Ei.
    { destruct (proj1 (mirror_taken m s (cu_email c) Hm)) as (j & a & Hj & He); [by eexists|].
      by destruct (proj2 Hc j a Hj). }
    destruct Hlaw as (_ & Hnone & Hmail & Hus & Htok & _). split; [done|].
    cbn in Hus, Hnone, Hmail. destruct Hm as [H1 H2 H3 H4 H5 (K1 & K2 & K3 & K4)].
    split; cbn.
    + by rewrite Hus, <-H1.
    + intros e i. rewrite Hus. destruct (decide (i = cu_id c)) as [->|Hi].
      * rewrite lookup_insert_eq. destruct (decide (e = cu_email c)) as [->|He].
        -- rewrite lookup_insert_eq. split; [by eauto|done].
        -- rewrite lookup_insert_ne, H2, Hnone by done. split; [by intros (? & ? & _)|].
           intros (u & [= <-] & He'). cbn in He'. congruence.
      * rewrite (lookup_insert_ne (pg_users s)) by done.
        destruct (decide (e = cu_email c)) as [->|He].
        -- rewrite lookup_insert_eq. split; [congruence|]. intros (u & Hu' & He).
           by destruct (Hmail i u Hu').
        -- by rewrite lookup_insert_ne, H2 by done.
    + done.
    + intros i [a Hi]. destruct (decide (i = cu_id c)) as [->|Hne].
      * rewrite lookup_insert_eq. by eexists.
      * rewrite lookup_insert_ne by done. apply H4. rewrite lookup_insert_ne in Hi by done. by eexists.
    + done.
    + unfold keys_ok. cbn in *. rewrite Hus. split_and!; [| done| |done].
      * intros i u. destruct (decide (i = cu_id c)) as [->|Hi]; simplify_map_eq;
          [by intros [= <-]|apply K1].
      * intros i j u w. destruct (decide (i = cu_id c)) as [->|], (decide (j = cu_id c)) as [->|];
          simplify_map_eq; [done| | |apply K3].
        -- intros [= <-] Hj Heq. by destruct (Hmail _ _ Hj).
        -- intros Hi [= <-] Heq. by destruct (Hmail _ _ Hi).
  - injection E as <- <-. destruct (user_id_by_email m !! cu_email c) as [i|] eqn:Ei; [done|].
    destruct Hc. split; [done|]. intros i a Hi He.
    destruct (proj2 (mirror_taken m s (cu_email c) Hm)) as [? ?]; [eauto|congruence].
Qed.

Lemma mirror_insert m s c : mirrors m s -> call_fresh (CallInsert c) s ->
  (insert_refresh_token c m).1 = (insert_refresh_token c s).1 /\
  mirrors (insert_refresh_token c m).2 (insert_refresh_token c s).2.
Proof.
  intros Hm (Hi & Hh & Hu). pose proof (mi_quiet _ _ Hm) as Hq.
  cbn. rewrite pg_run_quiet by done. unfold pg_insert_refresh_token.
  rewrite bool_decide_eq_true_2 by done. rewrite bool_decide_eq_true_2 by done.
  split; [done|]. destruct Hm as [H1 H2 H3 H4 H5 (K1 & K2 & K3 & K4)]. split; cbn; try done.
  - intros h t. destruct (decide (h = cr_token_hash c)) as [->|Hne].
    + rewrite lookup_insert_eq. split.
      * intros [= <-]. by rewrite lookup_insert_eq.
      * intros [Ht Hth]. destruct (decide (rt_id t = cr_id c)) as [E|E];
          simplify_map_eq; [by rewrite E, lookup_insert_eq in Ht|].
        by destruct (Hh _ _ Ht).
    + rewrite lookup_insert_ne, H3 by done. destruct (decide (rt_id t = cr_id c)) as [E|E].
      * rewrite E, lookup_insert_eq, Hi. split; [by intros [? _]|].
        intros [[= <-] Hth]. by destruct Hne.
      * by rewrite lookup_insert_ne.
  - unfold keys_ok. cbn. split_and!; [done| |done|].
    + intros i t. destruct (decide (i = cr_id c)) as [->|]; simplify_map_eq;
        [by intros [= <-]|apply K2].
    + intros i j t w. destruct (decide (i = cr_id c)) as [->|], (decide (j = cr_id c)) as [->|];
        simplify_map_eq; [done| | |apply K4].
      * intros [= <-] Hj Heq. by destruct (Hh _ _ Hj).
      * intros Ht [= <-] Heq. by destruct (Hh _ _ Ht).
Qed.

Lemma mirror_call c m s : mirrors m s -> call_fresh c s ->
  (call c m).1 = (call c s).1 /\ mirrors (call c m).2 (call c s).2.
Proof.
  intros Hm Hf. pose proof (mi_quiet _ _ Hm) as Hq. destruct c as [c|e|i|c|h|i time|f time];
    unfold call, answer; cbn [fst snd].
  - destruct (mirror_create m s c Hm Hf) as [-> ?]. done.
  - destruct (mirror_email m s e Hm) as (-> & -> & ->). done.
  - cbn. rewrite pg_run_quiet by done. cbn. by rewrite (mi_users _ _ Hm).
  - destruct (mirror_insert m s c Hm Hf) as [-> ?]. done.
  - destruct (mirror_token m s h Hm) as (-> & -> & ->). done.
  - cbn. rewrite pg_run_quiet by done. cbn. split; [done|].
    apply (mirror_revoke (fun t => rt_id t = i) time m s); try done.
    cbn. apply map_eq. intros j. rewrite lookup_fmap.
    destruct (mi_keys _ _ Hm) as (_ & K2 & _). cbn in K2.
    destruct (decide (j = i)) as [->|Hj].
    + rewrite lookup_alter_eq. destruct (pg_tokens s !! i) as [t|] eqn:E; [|done]. cbn.
      by rewrite decide_True by (by apply K2).
    + rewrite lookup_alter_ne by done. destruct (pg_tokens s !! j) as [t|] eqn:E; [|done]. cbn.
      rewrite decide_False; [done|]. intros <-. apply Hj. symmetry. by apply K2.
  - cbn. rewrite pg_run_quiet by done. cbn. split; [done|].
    by apply (mirror_revoke (fun t => rt_family_id t = f) time m s).
Qed.

(** The in-memory repository stands in for PostgreSQL.  As long as identifiers and
    token hashes are new, as those of the service are, and the database answers, any
    sequence of calls gets the same answers from both; so what the service does on one
    it does on the other. *)
Theorem memory_repository_mirrors_postgres cs m s :
  mirrors m s -> calls_fresh cs s -> calls cs m = calls cs s.
Proof.
  revert m s. induction cs as [|c cs IH]; intros m s Hm Hf; [done|]. destruct Hf as [Hc Hf].
  destruct (mirror_call c m s Hm Hc) as [Ha Hm']. cbn [calls]. rewrite Ha. f_equal. by apply IH.
Qed.
End Mirror.
