(* ===== verification/AuthInv.v ===== *)
(** * AuthInv: what the auth service does to users and refresh tokens

    [token_step n n' T T'] lists the changes one request can make to the table of refresh
    tokens while the identifiers numbered from [n] to [n'] are drawn.  [service_ok] is
    the invariant of the service: unique keys, and at most one live token in every
    session family. *)
From stdpp Require Import relations.
From S2P Require Import Prelude Database ApiBase Reserves AuthBase Auth.

Section Runs.
Context {S : Type} {repo : AuthRepository S} {views : AuthViews S} {laws : AuthRepositoryLaws S}.
Context {ac : AuthCrates} {hops : HashOps} {uc : UnicodeChars} {us : UuidSource} {ck : ClockSource}.
Context (cfg : TokenConfig).
Implicit Types (s : Service S).

(** ** Runs of the monad *)

Lemma abind_inv {A B} (m : AuthM A) (k : A -> AuthM B) s r s' :
  abind m k s = (r, s') ->
  (exists a s1, m s = (Ok a, s1) /\ k a s1 = (r, s')) \/
  (exists e, m s = (Err e, s') /\ r = Err e).
Proof. unfold abind. destruct (m s) as [[a|e] s1]; intros H; simplify_eq; eauto. Qed.

Lemma lift_repo_inv {A} (m : RepoOp S A) s r s' :
  lift_repo m s = (r, s') ->
  exists x q, m (sv_repo s) = (x, q) /\ r = Ok x /\
    s' = mkService q (sv_attempts s) (sv_clock s) (sv_ids s) (sv_draws s).
Proof. unfold lift_repo. destruct (m (sv_repo s)) as [x q]. intros H. simplify_eq. eauto. Qed.

Lemma repo_or_internal_inv {A} (m : RepoOp S A) s r s' :
  repo_or_internal m s = (r, s') ->
  exists q, s' = mkService q (sv_attempts s) (sv_clock s) (sv_ids s) (sv_draws s) /\
    ((exists a, m (sv_repo s) = (Ok a, q) /\ r = Ok a) \/
     (exists e, m (sv_repo s) = (Err e, q) /\ r = Err AeInternal)).
Proof.
  unfold repo_or_internal. intros [(x & s1 & H & Hk)|(e & H & ->)]%abind_inv;
    apply lift_repo_inv in H as (y & q & Hm & Hr & ->); [|done]. injection Hr as ->.
  destruct y; injection Hk as <- <-; eauto 8.
Qed.

Lemma or_internal_inv {E A} (x : result E A) s r s' :
  or_internal x s = (r, s') -> s' = s /\ match x with Ok a => r = Ok a | Err _ => r = Err AeInternal end.
Proof. destruct x; intros H; by injection H as <- <-. Qed.

Definition with_attempts (a : LoginAttempts) s : Service S :=
  mkService (sv_repo s) a (sv_clock s) (sv_ids s) (sv_draws s).

Lemma ensure_eq e ip t s :
  let a := attempts_prune t (sv_attempts s) in
  ensure_login_allowed e ip t s =
  (if is_locked e ip a then Err AeTooManyAttempts else Ok (), with_attempts a s).
Proof.
  cbv zeta. unfold ensure_login_allowed, abind, get_attempts, set_attempts. cbn.
  by destruct (is_locked _ _ _).
Qed.

Lemma refuse_eq {A} e ip t s :
  refuse_login (A := A) e ip t s =
  (Err AeInvalidCredentials, with_attempts (attempts_record e ip t (sv_attempts s)) s).
Proof. done. Qed.

Lemma clear_eq e ip s :
  clear_login_failures e ip s =
  (Ok (), with_attempts (mkLoginAttempts (delete e (by_email (sv_attempts s)))
                           (delete ip (by_ip (sv_attempts s)))) s).
Proof. done. Qed.

End Runs.

(** Splits a run of the service into the runs of its statements. *)
Ltac auth_step1 :=
  match goal with
  | H : abind _ _ _ = (_, _) |- _ =>
      let a := fresh "a" in let s1 := fresh "s1" in let e := fresh "e" in
      apply abind_inv in H as [(a & s1 & ?H & H)|(e & H & ->)]
  | H : repo_or_internal _ _ = (_, _) |- _ =>
      let q := fresh "q" in let a := fresh "a" in let e := fresh "e" in
      apply repo_or_internal_inv in H as (q & -> & [(a & H & ?H)|(e & H & ?H)])
  | H : lift_repo _ _ = (_, _) |- _ =>
      let q := fresh "q" in let x := fresh "x" in
      apply lift_repo_inv in H as (x & q & H & ?H & ->)
  | H : or_internal ?x _ = (_, _) |- _ => apply or_internal_inv in H as [-> H]; destruct x eqn:?
  | H : aret _ _ = (_, _) |- _ => unfold aret in H
  | H : aerr _ _ = (_, _) |- _ => unfold aerr in H
  | H : now _ = (_, _) |- _ => unfold now in H
  | H : new_uuid _ = (_, _) |- _ => unfold new_uuid in H
  | H : draw _ = (_, _) |- _ => unfold draw in H
  | H : get_attempts _ = (_, _) |- _ => unfold get_attempts in H
  | H : set_attempts _ _ = (_, _) |- _ => unfold set_attempts in H
  | H : (Ok _, _) = (_, _) |- _ => injection H as <- <-
  | H : (Err _, _) = (_, _) |- _ => injection H as <- <-
  | H : (Ok _, _) = (Err _, _) |- _ => discriminate H
  | H : (Err _, _) = (Ok _, _) |- _ => discriminate H
  | H : Ok _ = Ok _ |- _ => injection H as ?
  | H : Err _ = Err _ |- _ => injection H as ?
  | H : Ok _ = Err _ |- _ => discriminate H
  | H : Err _ = Ok _ |- _ => discriminate H
  end.
Ltac auth_inv :=
  repeat (auth_step1; cbn [sv_repo sv_attempts sv_clock sv_ids sv_draws] in *; subst).

Ltac auth_case :=
  match goal with
  | H : ensure_login_allowed _ _ _ _ = (_, _) |- _ =>
      rewrite ensure_eq in H; destruct (is_locked _ _ _)
  | H : refuse_login _ _ _ _ = (_, _) |- _ => rewrite refuse_eq in H
  | H : clear_login_failures _ _ _ = (_, _) |- _ => rewrite clear_eq in H
  | H : (if bool_decide _ then _ else _) _ = (_, _) |- _ => case_bool_decide
  | H : (if ?b then _ else _) _ = (_, _) |- _ => destruct b
  | H : match ?x with Some _ => _ | None => _ end _ = (_, _) |- _ => destruct x
  end.
Ltac auth_runs := repeat (auth_inv; try auth_case); unfold with_attempts in *; auth_inv.

(** The parts of a run that only read keep the store. *)
Ltac reads :=
  repeat match goal with
  | H : find_user_by_email _ _ = _ |- _ => apply find_user_by_email_law in H as [? ?]; [|done]
  | H : find_user_by_id _ _ = _ |- _ => apply find_user_by_id_law in H as [? ?]; [|done]
  | H : find_refresh_token _ _ = _ |- _ => apply find_refresh_token_law in H as [? ?]; [|done]
  end.

Section Requests.
Context {S : Type} {repo : AuthRepository S} {views : AuthViews S} {laws : AuthRepositoryLaws S}.
Context {ac : AuthCrates} {hops : HashOps} {uc : UnicodeChars} {us : UuidSource} {ck : ClockSource}.
Context (cfg : TokenConfig).
Implicit Types (s : Service S).

(** ** Changes of the tables *)

Definition insertable (c : CreateRefreshToken) (T : gmap Uuid RefreshToken) : Prop :=
  T !! cr_id c = None /\ forall i t, T !! i = Some t -> rt_token_hash t <> cr_token_hash c.

Definition revoke_family_in (f : Uuid) (time : Z) (T : gmap Uuid RefreshToken) :=
  (fun t => if decide (rt_family_id t = f) then revoke time t else t) <$> T.

Inductive token_step (n n' : nat) (T : gmap Uuid RefreshToken) : gmap Uuid RefreshToken -> Prop :=
| TsSame : token_step n n' T T
| TsOpen c k :
    (n <= k < n')%nat -> cr_family_id c = new_v4 k -> insertable c T ->
    token_step n n' T (<[cr_id c := new_token c]> T)
| TsRevoke i time : token_step n n' T (alter (revoke time) i T)
| TsRevokeFamily f time : token_step n n' T (revoke_family_in f time T)
| TsRotate i t time c :
    T !! i = Some t -> rt_revoked_at t = None -> cr_family_id c = rt_family_id t ->
    insertable c (alter (revoke time) i T) ->
    token_step n n' T (<[cr_id c := new_token c]> (alter (revoke time) i T)).

(** Minting a pair stores one token of the family or nothing. *)
Lemma mint_store_spec u sid f tid kyc s r s' :
  keys_ok (sv_repo s) ->
  mint_and_store_pair_with_family cfg u sid f tid kyc s = (r, s') ->
  same_accounts (sv_repo s) (sv_repo s') /\ (sv_ids s <= sv_ids s')%nat /\
  sv_attempts s' = sv_attempts s /\ (sv_clock s <= sv_clock s')%nat /\
  match r with
  | Ok minted => exists c, cr_family_id c = f /\ cr_user_id c = u /\
      cr_token_hash c = hash_refresh_token (tp_refresh_token minted) /\
      insertable c (tokens_of (sv_repo s)) /\
      tokens_of (sv_repo s') = <[cr_id c := new_token c]> (tokens_of (sv_repo s))
  | Err e => e = AeInternal /\ tokens_of (sv_repo s') = tokens_of (sv_repo s)
  end.
Proof.
  intros Hk H. unfold mint_and_store_pair_with_family, mint_and_store_pair_with_family_steps in H.
  cbn [sbind atomic auth_alone] in H. unfold abind, now, new_uuid, draw in H. cbn in H.
  destruct (mint_pair _ _ _ _ _ _ _) as [minted|e] eqn:Hm; cbn in H;
    [|injection H as <- <-; split_and!; cbn; done || lia].
  change (abind (repo_or_internal (insert_refresh_token (mkCreateRefreshToken tid u sid
    (tp_refresh_token_hash minted) f (tp_refresh_expires_at minted)))) (fun _ => aret minted)
    (mkService (sv_repo s) (sv_attempts s) (Datatypes.S (sv_clock s)) (Datatypes.S (sv_ids s))
       (Datatypes.S (sv_draws s))) = (r, s')) in H.
  assert (tp_refresh_token_hash minted = hash_refresh_token (tp_refresh_token minted)) as Hh.
  { unfold mint_pair in Hm. repeat (case_match; try done). by injection Hm as <-. }
  apply abind_inv in H as [([] & s1 & H & Hr)|(e & H & ->)];
    apply repo_or_internal_inv in H as (q & -> & [(b & H & Hb)|(e' & H & He)]); try done;
    cbn in H; apply insert_refresh_token_law in H as [Hs H]; try done; cbn.
  - injection Hr as <- <-. cbn. split_and!; [done|lia|done|lia|]. destruct H as (H1 & H2 & H3).
    eexists. split_and!; [| | | |exact H3]; done.
  - split_and!; [done|lia|done|lia|congruence|done].
Qed.

(** ** The requests *)

(** A new account: its id and email were not in use, and it has zero balances. *)
Definition creates_user (c : CreateUser) (q q' : S) : Prop :=
  users_of q !! cu_id c = None /\
  (forall i v, users_of q !! i = Some v -> au_email v <> cu_email c) /\
  users_of q' = <[cu_id c := new_user c]> (users_of q) /\
  active_assets q' = active_assets q /\
  seeded (cu_id c) (active_assets q) (balances_of q) (balances_of q').

(** What every request does: the accounts stay, or one is added. *)
Definition request_step s s' : Prop :=
  (sv_ids s <= sv_ids s')%nat /\
  token_step (sv_ids s) (sv_ids s') (tokens_of (sv_repo s)) (tokens_of (sv_repo s')) /\
  (same_accounts (sv_repo s) (sv_repo s') \/
   exists c, creates_user c (sv_repo s) (sv_repo s')).

Lemma request_same s s' :
  same_store (sv_repo s) (sv_repo s') -> (sv_ids s <= sv_ids s')%nat -> request_step s s'.
Proof.
  intros [Hu Ht] Hi. split; [done|]. split; [|by left]. rewrite Ht. apply TsSame.
Qed.

Lemma keys_ok_same (r r' : S) : same_store r r' -> keys_ok r -> keys_ok r'.
Proof. intros [(Hu & _) Ht]. unfold keys_ok. by rewrite Hu, Ht. Qed.

(** Logging in stores at most one token, of a family drawn for it. *)
Definition opens_session s s' : Prop :=
  same_accounts (sv_repo s) (sv_repo s') /\ (sv_ids s <= sv_ids s')%nat /\
  (tokens_of (sv_repo s') = tokens_of (sv_repo s) \/
   exists c k, (sv_ids s <= k < sv_ids s')%nat /\ cr_family_id c = new_v4 k /\
     insertable c (tokens_of (sv_repo s)) /\
     tokens_of (sv_repo s') = <[cr_id c := new_token c]> (tokens_of (sv_repo s))).

Lemma opens_session_step s s' : opens_session s s' -> request_step s s'.
Proof.
  intros (Hu & Hi & Ht). split; [done|]. split; [|by left].
  destruct Ht as [->|(c & k & ? & ? & ? & ->)]; [apply TsSame|by eapply TsOpen].
Qed.

(** A session family drawn between [s] and the minting. *)
Lemma mint_opens u sid k kyc s r s' :
  keys_ok (sv_repo s) -> (k < sv_ids s)%nat ->
  mint_and_store_pair cfg u sid (new_v4 k) kyc s = (r, s') ->
  forall s0, same_store (sv_repo s0) (sv_repo s) -> (sv_ids s0 <= k)%nat ->
  opens_session s0 s' /\ sv_attempts s' = sv_attempts s /\ (sv_clock s <= sv_clock s')%nat /\
  forall e, r = Err e -> e = AeInternal.
Proof.
  intros Hk Hlt H s0 [Ha Ht] Hi. unfold mint_and_store_pair, mint_and_store_pair_steps in H.
  cbn [sbind atomic auth_alone] in H. auth_inv.
  apply mint_store_spec in H as (Hs & Hid & Hat & Hck & H); [|done]. cbn in *.
  unfold opens_session, same_accounts in *.
  destruct Hs as (-> & -> & ->), Ha as (-> & -> & ->). rewrite <- Ht.
  split; [|split_and!; [done|lia|intros e ->; tauto]]. split; [done|]. split; [lia|].
  destruct r as [minted|e]; [right|left; tauto].
  destruct H as (c & Hf & _ & _ & Hin & ->). exists c, k. split_and!; done || lia.
Qed.

Lemma opens_same s s' :
  same_store (sv_repo s) (sv_repo s') -> (sv_ids s <= sv_ids s')%nat -> opens_session s s'.
Proof. intros [? ?] ?. split_and!; try done. by left. Qed.

Lemma login_spec input ip s r s' :
  keys_ok (sv_repo s) -> login cfg input ip s = (r, s') -> opens_session s s'.
Proof.
  intros Hk H. open_alone H. unfold normalised_email_or_error in H.
  destruct (is_valid_email _); auth_runs; reads; try (apply opens_same; [done|cbn; lia]).
  all: match goal with H : mint_and_store_pair _ _ _ _ _ _ = _ |- _ =>
    eapply mint_opens in H as [H _]; [exact H|cbn; by eapply keys_ok_same|cbn; lia|done|cbn; lia] end.
Qed.

Lemma creates_then q q1 q2 c :
  creates_user c q q1 -> same_accounts q1 q2 -> creates_user c q q2.
Proof.
  intros (? & ? & Hu & Ha & Hb) (Hu' & Hb' & Ha'). split_and!; [done|done|congruence|congruence|].
  by rewrite Hb'.
Qed.

Lemma keys_ok_creates q q' c :
  creates_user c q q' -> tokens_of q' = tokens_of q -> keys_ok q -> keys_ok q'.
Proof.
  intros (Hn & He & Hu & _) Ht (K1 & K2 & K3 & K4). unfold keys_ok. rewrite Hu, Ht.
  split_and!; [|done| |done].
  - intros i u. destruct (decide (i = cu_id c)) as [->|]; simplify_map_eq; [by intros [= <-]|].
    apply K1.
  - intros i j u w. destruct (decide (i = cu_id c)) as [->|], (decide (j = cu_id c)) as [->|];
      simplify_map_eq; [done| | |apply K3].
    + intros [= <-] Hj Heq. destruct (He _ _ Hj). by rewrite <- Heq.
    + intros Hi [= <-] Heq. by destruct (He _ _ Hi).
Qed.

Lemma signup_spec input s r s' :
  keys_ok (sv_repo s) -> signup cfg input s = (r, s') ->
  request_step s s' /\
  match r with
  | Ok _ => exists c salt, creates_user c (sv_repo s) (sv_repo s') /\
      is_valid_email (normalize_email (si_email input)) = true /\
      cu_email c = normalize_email (si_email input) /\
      hash_password salt (si_password input) = Ok (cu_password_hash c)
  | Err _ => True
  end.
Proof.
  intros Hk H. open_alone H. unfold normalised_email_or_error in H.
  destruct (is_valid_email _) eqn:Hv; auth_runs.
  all: match goal with H : create_user _ _ = (?x, _) |- _ => idtac | _ =>
    split; [apply request_same; [done|cbn; lia]|done] end.
  match goal with H : create_user ?c _ = (?x, ?q) |- _ =>
    apply create_user_law in H; [|done];
    set (s1 := mkService q (sv_attempts s) (sv_clock s) (Datatypes.S (sv_ids s))
                 (Datatypes.S (sv_draws s))) in *; destruct x as [user|[]] end;
    auth_runs; try (split; [apply request_same; [done|cbn; lia]|done]).
  match goal with H : _ = new_user ?c /\ _ |- _ =>
    destruct H as (-> & H1 & H2 & H3 & Ht & Ha & Hb);
    assert (creates_user c (sv_repo s) q) as Hc by done end.
  pose proof (keys_ok_creates _ _ _ Hc Ht Hk) as Hk'.
  assert (opens_session s1 s') as (Hs & Hi & Htok)
    by (refine (proj1 (mint_opens _ _ _ _ _ _ _ _ _ H s1 _ _)); [exact Hk'|cbn; lia|done|cbn; lia]).
  pose proof (creates_then _ _ _ _ Hc Hs) as Hcs. split; [|destruct r; [|done]; eauto 8].
  split; [cbn in Hi; lia|]. split; [|eauto]. cbn in Htok. rewrite Ht in Htok.
  destruct Htok as [->|(c' & k & Hkk & ? & ? & ->)]; [apply TsSame|].
  eapply TsOpen; [|done..]. cbn in Hi. lia.
Qed.
(** ** Refreshing *)

Lemma insertable_new c T i :
  insertable c T -> is_Some (T !! i) -> i <> cr_id c.
Proof. intros [Hn _] [x Hx] ->. congruence. Qed.

Lemma keys_ok_alter q q' i time :
  same_accounts q q' -> tokens_of q' = alter (revoke time) i (tokens_of q) -> keys_ok q -> keys_ok q'.
Proof.
  intros (Hu & _) Ht (K1 & K2 & K3 & K4). unfold keys_ok. rewrite Hu, Ht.
  assert (forall j t, alter (revoke time) i (tokens_of q) !! j = Some t -> exists t0,
    tokens_of q !! j = Some t0 /\ rt_id t = rt_id t0 /\ rt_token_hash t = rt_token_hash t0) as Hb.
  { intros j t. destruct (decide (i = j)) as [->|]; [|rewrite lookup_alter_ne by done; eauto].
    rewrite lookup_alter_eq. destruct (tokens_of q !! j); [|done]. intros [= <-]. eauto. }
  split_and!; [done| |done|].
  - intros j t (t0 & H0 & -> & _)%Hb. by apply K2.
  - intros j k t w (t0 & H0 & _ & ->)%Hb (w0 & H1 & _ & ->)%Hb. by apply K4.
Qed.

Lemma same_accounts_trans (q q1 q2 : S) :
  same_accounts q q1 -> same_accounts q1 q2 -> same_accounts q q2.
Proof. intros (?&?&?) (?&?&?). split_and!; congruence. Qed.

Lemma same_store_trans (q q1 q2 : S) : same_store q q1 -> same_store q1 q2 -> same_store q q2.
Proof. intros [? ?] [? ?]. split; [by eapply same_accounts_trans|congruence]. Qed.

Lemma step_by s s' (P : Prop) :
  same_accounts (sv_repo s) (sv_repo s') -> (sv_ids s <= sv_ids s')%nat ->
  token_step (sv_ids s) (sv_ids s') (tokens_of (sv_repo s)) (tokens_of (sv_repo s')) -> P ->
  request_step s s' /\ same_accounts (sv_repo s) (sv_repo s') /\ P.
Proof. intros. split; [split_and!; [done..|by left]|done]. Qed.

Ltac accounts :=
  repeat match goal with H : same_store _ _ |- _ => destruct H end;
  eauto using same_accounts_trans.
Ltac tables :=
  repeat match goal with H : same_store _ _ |- _ => destruct H end;
  repeat match goal with E : tokens_of ?x = _ |- context [tokens_of ?x] => rewrite E end.

(** A refresh changes one family; when it succeeds, the token it was given was live and
    is revoked now. *)
Lemma refresh_spec tok s r s' :
  keys_ok (sv_repo s) -> refresh cfg tok s = (r, s') ->
  request_step s s' /\ same_accounts (sv_repo s) (sv_repo s') /\
  match r with
  | Ok _ => exists i t time, tokens_of (sv_repo s) !! i = Some t /\
      rt_token_hash t = hash_refresh_token tok /\ rt_revoked_at t = None /\
      tokens_of (sv_repo s') !! i = Some (revoke time t)
  | Err _ => True
  end.
Proof.
  intros Hk H. open_alone H. auth_inv;
    match goal with H : find_refresh_token _ _ = _ |- _ =>
      apply find_refresh_token_law in H as [Hs Hf]; [|done] end;
    [|split_and!; [by apply request_same|apply Hs|done]].
  match goal with x : option RefreshToken |- _ => destruct x as [t|] end;
    auth_runs;
    try (split_and!; [apply request_same; [done|cbn; lia]|apply Hs|done]).
  all: pose proof (keys_ok_same _ _ Hs Hk) as Hkq; destruct Hf as [Hf Hh].
  all: repeat match goal with
    | H : find_user_by_id _ _ = _ |- _ =>
        apply find_user_by_id_law in H as [H _]; [|done];
        pose proof (keys_ok_same _ _ H Hkq); pose proof (same_store_trans _ _ _ Hs H)
    | H : revoke_refresh_token _ _ _ = _ |- _ => apply revoke_refresh_token_law in H as [? ?]; [|done]
    | H : revoke_refresh_family _ _ _ = _ |- _ => apply revoke_refresh_family_law in H as [? ?]; [|done]
    end.
  all: try match goal with |- request_step _ _ /\ _ /\ True => apply step_by; cbn [sv_repo sv_ids];
    [accounts|lia|tables; solve [apply TsSame|apply TsRevoke|apply TsRevokeFamily]|done] end.
  match goal with Hr : tokens_of ?q1 = alter (revoke ?time) _ (tokens_of ?q0),
      Ha : same_accounts ?q0 ?q1, Hq : keys_ok ?q0 |- _ =>
    pose proof (keys_ok_alter _ _ _ _ Ha Hr Hq) as Hk1;
    apply mint_store_spec in H as (Hsa & Hi & _ & _ & Hm); [|exact Hk1]; cbn in Hsa, Hi, Hm;
    apply step_by; [accounts|lia| |];
    assert (tokens_of q1 = alter (revoke time) (rt_id t) (tokens_of (sv_repo s))) as Ht
      by (tables; done); rewrite Ht in Hm end.
  - destruct r as [minted|e]; [|destruct Hm as [_ ->]; apply TsRevoke].
    destruct Hm as (c & Hc & _ & _ & Hin & ->). by eapply TsRotate, Hin; [|apply eq_None_not_Some|].
  - destruct r as [minted|e]; [|done]. destruct Hm as (c & Hc & _ & _ & Hin & ->).
    eexists (rt_id t), t, _. split_and!; [done|done|by apply eq_None_not_Some|].
    rewrite lookup_insert_ne; [by rewrite lookup_alter_eq, Hf|].
    apply not_eq_sym, (insertable_new _ _ _ Hin). rewrite lookup_alter_eq, Hf. by eexists.
Qed.

(** Presenting a revoked token revokes its family. *)
Lemma refresh_reuse tok s r s' i t :
  keys_ok (sv_repo s) -> refresh cfg tok s = (r, s') ->
  tokens_of (sv_repo s) !! i = Some t -> rt_token_hash t = hash_refresh_token tok ->
  is_Some (rt_revoked_at t) ->
  r = Err AeInternal /\ tokens_of (sv_repo s') = tokens_of (sv_repo s) \/
  r = Err AeTokenInvalid /\ exists time,
    tokens_of (sv_repo s') = revoke_family_in (rt_family_id t) time (tokens_of (sv_repo s)).
Proof.
  intros Hk H Hi Hh Hrev. open_alone H. auth_inv;
    match goal with H : find_refresh_token _ _ = _ |- _ =>
      apply find_refresh_token_law in H as [Hs Hf]; [|done] end; [|left; split; [done|apply Hs]].
  match goal with x : option RefreshToken |- _ => destruct x as [t'|] end;
    [|by destruct (Hf _ _ Hi)].
  destruct Hf as [Hf Hh']. destruct Hk as (K1 & K2 & K3 & K4).
  assert (i = rt_id t') as -> by (eapply K4; [done|done|congruence]).
  assert (t' = t) as -> by congruence. clear Hf Hh'.
  auth_inv. rewrite bool_decide_eq_true_2 in H by done.
  pose proof (keys_ok_same _ _ Hs (conj K1 (conj K2 (conj K3 K4)))) as Hkq.
  auth_inv; match goal with H : revoke_refresh_family _ _ _ = _ |- _ =>
    apply revoke_refresh_family_law in H as [_ Hrv]; [|done]; rewrite (proj2 Hs) in Hrv end;
    [right; split; [done|eexists; exact Hrv]|left; done].
Qed.
End Requests.
