(* ===== verification/AuthTokens.v ===== *)
(** * AuthTokens: requests one after the other

    The invariant of the auth service ([service_ok]): keys are unique, every family was
    drawn by the service, and no family has two live tokens.  Requests keep it, tokens
    stay once issued, revoked ones stay revoked, and a family without a live token stays
    without one.  [login_attempts] is what one login does to the windows of failed
    attempts. *)
From stdpp Require Import relations.
From S2P Require Import Prelude Database ApiBase Reserves AuthBase Auth AuthInv.

Section Tables.
Context {us : UuidSource} {Hinj : Inj (=) (=) new_v4}.
Implicit Types (T : gmap Uuid RefreshToken) (t : RefreshToken).

Definition live t : Prop := rt_revoked_at t = None.

(** [t'] is [t], perhaps revoked. *)
Definition ages t t' : Prop := t' = t \/ exists time, t' = revoke time t.

Definition dead (f : Uuid) T : Prop :=
  forall i t, T !! i = Some t -> rt_family_id t = f -> ~ live t.

Record tokens_ok (n : nat) T : Prop := {
  tok_ids i t : T !! i = Some t -> rt_id t = i;
  tok_hashes i j t w : T !! i = Some t -> T !! j = Some w ->
    rt_token_hash t = rt_token_hash w -> i = j;
  tok_drawn i t : T !! i = Some t -> exists k, (k < n)%nat /\ rt_family_id t = new_v4 k;
  tok_one_live i j t w : T !! i = Some t -> T !! j = Some w ->
    rt_family_id t = rt_family_id w -> live t -> live w -> i = j;
}.

Lemma revoke_not_live time t : ~ live (revoke time t).
Proof. done. Qed.

Lemma ages_facts t t' : ages t t' ->
  rt_id t' = rt_id t /\ rt_token_hash t' = rt_token_hash t /\ rt_family_id t' = rt_family_id t /\
  (live t' -> live t).
Proof. intros [->|[time ->]]; split_and!; done. Qed.

Lemma alter_ages i time T j t' :
  alter (revoke time) i T !! j = Some t' -> exists t, T !! j = Some t /\ ages t t'.
Proof.
  destruct (decide (i = j)) as [->|].
  - rewrite lookup_alter_eq. destruct (T !! j); [|done]. intros [= <-].
    eexists. split; [done|right; eauto].
  - rewrite lookup_alter_ne by done. intros. eexists. split; [done|by left].
Qed.

Lemma alter_forward i time T j t :
  T !! j = Some t -> exists t', alter (revoke time) i T !! j = Some t' /\ ages t t'.
Proof.
  intros Hj. destruct (decide (i = j)) as [->|].
  - rewrite lookup_alter_eq, Hj. eexists. split; [done|right; eauto].
  - rewrite lookup_alter_ne by done. eexists. split; [done|by left].
Qed.

(** The tokens of the step before the new one, if there is a new one. *)
Lemma token_step_cases n n' T T' :
  token_step n n' T T' ->
  exists T1, (forall j t', T1 !! j = Some t' -> exists t, T !! j = Some t /\ ages t t') /\
    (forall j t, T !! j = Some t -> exists t', T1 !! j = Some t' /\ ages t t') /\
    (T' = T1 \/
     exists c, insertable c T1 /\ T' = <[cr_id c := new_token c]> T1 /\
       ((exists k, (n <= k < n')%nat /\ cr_family_id c = new_v4 k) \/
        exists i t time, T !! i = Some t /\ live t /\ cr_family_id c = rt_family_id t /\
          T1 !! i = Some (revoke time t))).
Proof.
  destruct 1 as [|c k Hk Hf Hin|i time|f time|i t time c Hi Hl Hf Hin].
  - exists T. split_and!; [|..|by left]; intros j t Ht; exists t; by split; [|left].
  - exists T. split_and!; try (intros j t Ht; exists t; by split; [|left]).
    right. exists c. split_and!; [done|done|left; eauto].
  - exists (alter (revoke time) i T).
    split_and!; [intros j t; apply alter_ages|intros j t; apply alter_forward|by left].
  - exists (revoke_family_in f time T). unfold revoke_family_in. split_and!; [| |by left].
    + intros j t'. rewrite lookup_fmap. destruct (T !! j) as [t|]; [|done]. intros [= <-].
      exists t. split; [done|]. case_decide; [right; eauto|by left].
    + intros j t Ht. rewrite lookup_fmap, Ht. eexists. split; [done|].
      case_decide; [right; eauto|by left].
  - exists (alter (revoke time) i T).
    split_and!; [intros j w; apply alter_ages|intros j w; apply alter_forward|].
    right. exists c. split_and!; [done|done|]. right. exists i, t, time.
    split_and!; try done. by rewrite lookup_alter_eq, Hi.
Qed.

(** What a token is after a step. *)
Definition older T T' : Prop :=
  forall i t, T !! i = Some t -> exists t', T' !! i = Some t' /\
    rt_token_hash t' = rt_token_hash t /\ rt_family_id t' = rt_family_id t /\
    (live t' -> live t).

#[export] Instance older_preorder : PreOrder older.
Proof.
  split.
  - intros T i t Ht. by exists t.
  - intros T1 T2 T3 H12 H23 i t Ht. destruct (H12 i t Ht) as (t' & Ht' & E1 & E2 & E3).
    destruct (H23 i t' Ht') as (t'' & ? & F1 & F2 & F3).
    exists t''. split_and!; [done|congruence|congruence|tauto].
Qed.

Lemma token_step_older n n' T T' : token_step n n' T T' -> older T T'.
Proof.
  intros (T1 & _ & Hf & Ht)%token_step_cases i t Hi.
  destruct (Hf i t Hi) as (t' & H1 & Ha). pose proof (ages_facts t t' Ha) as (_ & ? & ? & ?).
  exists t'. split_and!; try done. destruct Ht as [->|(c & [Hn _] & -> & _)]; [done|].
  rewrite lookup_insert_ne; [done|]. intros E. congruence.
Qed.

Lemma tokens_ok_aged n T T1 :
  tokens_ok n T -> (forall j t', T1 !! j = Some t' -> exists t, T !! j = Some t /\ ages t t') ->
  tokens_ok n T1.
Proof.
  intros [H1 H2 H3 H4] Hb. split.
  - intros i t (t0 & Hi & (-> & _)%ages_facts)%Hb. by apply H1.
  - intros i j t w (t0 & Hi & (_ & -> & _)%ages_facts)%Hb (w0 & Hj & (_ & -> & _)%ages_facts)%Hb.
    by apply H2.
  - intros i t (t0 & Hi & (_ & _ & -> & _)%ages_facts)%Hb. by apply (H3 i).
  - intros i j t w (t0 & Hi & (_ & _ & -> & Hl)%ages_facts)%Hb
      (w0 & Hj & (_ & _ & -> & Hl')%ages_facts)%Hb Hf ??. eapply H4; eauto.
Qed.

Lemma tokens_ok_step n n' T T' :
  (n <= n')%nat -> token_step n n' T T' -> tokens_ok n T -> tokens_ok n' T'.
Proof.
  intros Hn (T1 & Hb & Hf & Ht)%token_step_cases Hok.
  pose proof (tokens_ok_aged _ _ _ Hok Hb) as [H1 H2 H3 H4].
  destruct Ht as [->|(c & [Hc Hh] & -> & Hfam)].
  { split; [done|done| |done]. intros i t Hi. destruct (H3 i t Hi) as (k & ? & ?). exists k. by split; [lia|]. }
  (* no live token of the new token's family is left in [T1] *)
  assert (forall i t, T1 !! i = Some t -> rt_family_id t = cr_family_id c -> ~ live t) as Hdead.
  { intros i t Hi Hif Hl. destruct Hfam as [(k & Hk & Hck)|(j & w & time & Hj & Hwl & Hcw & Hj1)].
    - destruct (H3 i t Hi) as (k' & Hk' & Hfk). assert (k' = k) by (apply (inj new_v4); congruence). lia.
    - destruct (Hb i t Hi) as (t0 & Hi0 & Ha). pose proof (ages_facts _ _ Ha) as (_ & _ & Hff & Hll).
      assert (i = j) as -> by (apply (tok_one_live _ _ Hok _ _ t0 w); auto; congruence).
      rewrite Hj1 in Hi. injection Hi as <-. by apply (revoke_not_live time w). }
  split.
  - intros i t. destruct (decide (i = cr_id c)) as [->|]; simplify_map_eq; [by intros [= <-]|apply H1].
  - intros i j t w. destruct (decide (i = cr_id c)) as [->|], (decide (j = cr_id c)) as [->|];
      simplify_map_eq; [done| | |apply H2].
    + intros [= <-] Hj He. by destruct (Hh j w Hj).
    + intros Hi [= <-] He. by destruct (Hh i t Hi).
  - intros i t. destruct (decide (i = cr_id c)) as [->|]; simplify_map_eq.
    + intros [= <-]. cbn. destruct Hfam as [(k & Hk & ->)|(j & w & _ & Hj & _ & Hcw & _)]; [exists k; by split; [lia|]|].
      destruct (tok_drawn _ _ Hok j w Hj) as (k & ? & ?). exists k. split; [lia|]. cbn. congruence.
    + intros Hi. destruct (H3 i t Hi) as (k & ? & ?). exists k. by split; [lia|].
  - intros i j t w. destruct (decide (i = cr_id c)) as [->|], (decide (j = cr_id c)) as [->|];
      simplify_map_eq; [done| | |apply H4].
    + intros [= <-] Hj He _ Hl. by destruct (Hdead j w Hj (eq_sym He) Hl).
    + intros Hi [= <-] He Hl _. by destruct (Hdead i t Hi He Hl).
Qed.

(** A family that was drawn and has no live token gets none. *)
Lemma dead_step n n' T T' k :
  (k < n)%nat -> token_step n n' T T' -> dead (new_v4 k) T -> dead (new_v4 k) T'.
Proof.
  intros Hk (T1 & Hb & _ & Ht)%token_step_cases Hd.
  assert (dead (new_v4 k) T1) as Hd1.
  { intros i t (t0 & Hi & (_ & _ & E & Hl)%ages_facts)%Hb Hf Hlive.
    apply (Hd i t0 Hi); [congruence|auto]. }
  destruct Ht as [->|(c & _ & -> & Hfam)]; [done|].
  intros i t. destruct (decide (i = cr_id c)) as [->|]; simplify_map_eq; [|apply Hd1].
  intros [= <-] Hf _. cbn in Hf. destruct Hfam as [(k' & Hk' & Hc)|(j & w & _ & Hj & Hl & Hc & _)].
  - assert (k' = k) by (apply (inj new_v4); congruence). lia.
  - apply (Hd j w Hj); [congruence|done].
Qed.
End Tables.

Section Requests.
Context {S : Type} {repo : AuthRepository S} {views : AuthViews S} {laws : AuthRepositoryLaws S}.
Context {ac : AuthCrates} {hops : HashOps} {uc : UnicodeChars} {us : UuidSource} {ck : ClockSource}.
Context {Hinj : Inj (=) (=) new_v4} (cfg : TokenConfig).
Implicit Types (s : Service S).

(** One request, whatever its answer. *)
Inductive request s s' : Prop :=
| RSignup input r : signup cfg input s = (r, s') -> request s s'
| RLogin input ip r : login cfg input ip s = (r, s') -> request s s'
| RRefresh tok r : refresh cfg tok s = (r, s') -> request s s'.

Definition service_ok s : Prop :=
  keys_ok (sv_repo s) /\ tokens_ok (sv_ids s) (tokens_of (sv_repo s)).

Lemma request_is_step s s' : keys_ok (sv_repo s) -> request s s' -> request_step s s'.
Proof.
  intros Hk. destruct 1 as [input r H|input ip r H|tok r H].
  - by eapply signup_spec.
  - eapply opens_session_step, login_spec; eauto.
  - by eapply refresh_spec.
Qed.

Lemma step_ok s s' : service_ok s -> request_step s s' -> service_ok s'.
Proof.
  intros [Hk Ht] (Hn & Hst & Hu). pose proof (tokens_ok_step _ _ _ _ Hn Hst Ht) as Ht'.
  split; [|done]. destruct Hk as (K1 & _ & K3 & _).
  destruct Ht' as [T1 T2 _ _]. destruct Hu as [(Hu & _)|(c & Hc)].
  - unfold keys_ok. rewrite Hu. by split_and!.
  - destruct Hc as (Hn' & He & Hu & _). unfold keys_ok. rewrite Hu. split_and!; try done.
    + intros i u. destruct (decide (i = cu_id c)) as [->|]; simplify_map_eq; [by intros [= <-]|apply K1].
    + intros i j u w. destruct (decide (i = cu_id c)) as [->|], (decide (j = cu_id c)) as [->|];
        simplify_map_eq; [done| | |apply K3].
      * intros [= <-] Hj E. by destruct (He j w Hj).
      * intros Hi [= <-] E. by destruct (He i u Hi).
Qed.

Lemma request_ok s s' : service_ok s -> request s s' -> service_ok s'.
Proof. intros Hs Hr. eapply step_ok, request_is_step; [done|apply Hs|done]. Qed.

Lemma requests_ok s s' : service_ok s -> rtc request s s' -> service_ok s'.
Proof. induction 2; eauto using request_ok. Qed.

Lemma requests_older s s' :
  service_ok s -> rtc request s s' -> older (tokens_of (sv_repo s)) (tokens_of (sv_repo s')).
Proof.
  intros Hs. induction 1 as [s|s s1 s2 Hr _ IH]; [done|].
  transitivity (tokens_of (sv_repo s1)); [|eauto using request_ok].
  eapply token_step_older, request_is_step; [apply Hs|done].
Qed.

Lemma requests_dead s s' k :
  service_ok s -> rtc request s s' -> (k < sv_ids s)%nat ->
  dead (new_v4 k) (tokens_of (sv_repo s)) -> dead (new_v4 k) (tokens_of (sv_repo s')).
Proof.
  intros Hs. induction 1 as [s|s s1 s2 Hr _ IH]; [done|]. intros Hk Hd.
  destruct (request_is_step _ _ (proj1 Hs) Hr) as (Hn & Hst & _).
  apply IH; [eauto using request_ok|lia|by eapply dead_step].
Qed.

(** A refresh succeeds with a live token only. *)
Lemma refresh_needs_live tok s minted s' i t :
  service_ok s -> refresh cfg tok s = (Ok minted, s') ->
  tokens_of (sv_repo s) !! i = Some t -> rt_token_hash t = hash_refresh_token tok -> live t.
Proof.
  intros [Hk Ht] H Hi Hh. apply refresh_spec in H as (_ & _ & j & w & _ & Hj & Hw & Hl & _); [|done].
  assert (i = j) as -> by (apply (tok_hashes _ _ Ht i j t w); congruence). unfold live. congruence.
Qed.

(** ** Failed logins *)

(** The time a login goes by. *)
Definition login_time s : Z := unix_timestamp (clock_now (sv_clock s)).

Definition cleared (email ip : string) (a : LoginAttempts) : LoginAttempts :=
  mkLoginAttempts (delete email (by_email a)) (delete ip (by_ip a)).

Lemma login_attempts input ip s r s' :
  keys_ok (sv_repo s) -> login cfg input ip s = (r, s') ->
  let e := normalize_email (li_email input) in
  let a := attempts_prune (login_time s) (sv_attempts s) in
  (is_valid_email e = false /\ r = Err AeInvalidEmail /\ s' = s) \/
  ((sv_clock s < sv_clock s')%nat /\
   ((is_locked e ip a = true /\ r = Err AeTooManyAttempts /\ sv_attempts s' = a) \/
    (is_locked e ip a = false /\ r = Err AeInvalidCredentials /\
       sv_attempts s' = attempts_record e ip (login_time s) a) \/
    (is_locked e ip a = false /\ (r = Err AeInternal \/ exists o, r = Ok o) /\
       (sv_attempts s' = a \/ sv_attempts s' = cleared e ip a)))).
Proof.
  intros Hk H. cbv zeta. open_alone H. unfold normalised_email_or_error in H.
  destruct (is_valid_email (normalize_email (li_email input))); [|auth_inv; by left].
  right. apply abind_inv in H as [(e & s1 & He & H)|(e & He & _)]; [|done].
  unfold aret in He. injection He as <- <-.
  apply abind_inv in H as [(t & s1 & Ht & H)|(t & Ht & _)]; [|done].
  unfold now in Ht. injection Ht as <- <-.
  apply abind_inv in H as [(u & s1 & Hl & H)|(er & Hl & ->)]; rewrite ensure_eq in Hl;
    fold (login_time s) in *; cbn [sv_attempts] in Hl;
    destruct (is_locked (normalize_email (li_email input)) ip
      (attempts_prune (login_time s) (sv_attempts s))); try done.
  2: { injection Hl as <- <-. cbn. split; [lia|]. by left. }
  injection Hl as _ <-. unfold with_attempts in H.
  cbn [sv_repo sv_clock sv_ids sv_draws sv_attempts] in H.
  auth_runs; reads; cbn; try (split; [lia|]); try (right; left; by split_and!);
    try (right; right; split_and!; [done|by left|by left]);
    try (right; right; split_and!; [done|solve [by left|right; eauto]|by right]).
  all: match goal with H : mint_and_store_pair _ _ _ _ _ _ = _ |- _ =>
    eapply mint_opens in H as (_ & Ha & Hck & Hr);
      [cbn in *|cbn; by eapply keys_ok_same|cbn; lia|done|cbn; lia] end.
  all: split; [lia|]; right; right; split_and!; [done| |by right].
  - right. eauto.
  - left. by rewrite (Hr _ eq_refl).
Qed.

(** Windows that have passed lock nothing. *)
Lemma lock_expires e ip s :
  (forall w, by_email (sv_attempts s) !! e = Some w \/ by_ip (sv_attempts s) !! ip = Some w ->
     fw_first_failure_at w + LOGIN_WINDOW_SECONDS < login_time s) ->
  is_locked e ip (attempts_prune (login_time s) (sv_attempts s)) = false.
Proof.
  intros Hold. unfold is_locked. cbn.
  assert (forall k (m : gmap string FailureWindow), (forall w, m !! k = Some w ->
    fw_first_failure_at w + LOGIN_WINDOW_SECONDS < login_time s) ->
    filter (recent (login_time s)) m !! k = None) as Hf.
  { intros k m Hm. apply map_lookup_filter_None_2. right. intros w Hw. unfold recent. cbn.
    specialize (Hm w Hw). lia. }
  rewrite !Hf; [done|..]; intros w Hw; apply Hold; auto.
Qed.

(** Accounts stay. *)
Lemma request_users s s' i u :
  keys_ok (sv_repo s) -> request s s' ->
  users_of (sv_repo s) !! i = Some u -> users_of (sv_repo s') !! i = Some u.
Proof.
  intros Hk Hr Hi. destruct (request_is_step _ _ Hk Hr) as (_ & _ & [(-> & _)|(c & Hn & _ & -> & _)]);
    [done|]. rewrite lookup_insert_ne; [done|congruence].
Qed.

Lemma requests_users s s' i u :
  service_ok s -> rtc request s s' ->
  users_of (sv_repo s) !! i = Some u -> users_of (sv_repo s') !! i = Some u.
Proof.
  intros Hs. induction 1 as [s|s s1 s2 Hr _ IH]; [done|]. intros Hi.
  apply IH; [eauto using request_ok|]. eapply request_users; [apply Hs|done..].
Qed.
End Requests.
