(* ===== verification/AuthConc.v ===== *)
(** * AuthConc: requests to the auth service at the same time

    [Conc] is the service with the requests that have come in, each a [Task] of Auth.v that
    is stopped between two of its undivided sections; a request never leaves the list, so
    a later position means a later start.  [conc_step] starts a request, runs the next
    section of one, or lets another part of the API change the store ([outside]).

    [wp] says what a task promises however the others come in between: a program logic
    whose rely is [later].  The failed logins are counted by a labelling of the tasks
    ([follows]): which logins are past the check of the lock and which are barred. *)
From stdpp Require Import relations.
From S2P Require Import Prelude Database ApiBase Reserves AuthBase Auth AuthInv AuthTokens.

Inductive AuthRequest :=
| QSignup (input : SignupInput)
| QLogin (input : LoginInput) (ip_key : string)
| QRefresh (refresh_token : string).

(** How many elements of a list pass a test. *)
Definition count {A} (f : A -> bool) (l : list A) : nat := sum_list_with (fun x => Nat.b2n (f x)) l.

Lemma count_snoc {A} (f : A -> bool) l x : count f (l ++ [x]) = (count f l + Nat.b2n (f x))%nat.
Proof. unfold count. rewrite sum_list_with_app. cbn. lia. Qed.

Lemma count_insert {A} (f : A -> bool) l i x y :
  l !! i = Some x -> (count f (<[i := y]> l) + Nat.b2n (f x) = count f l + Nat.b2n (f y))%nat.
Proof.
  unfold count. revert i. induction l as [|z l IH]; intros [|i]; [done..|intros [= <-]; cbn; lia|].
  intros Hi. specialize (IH i Hi). change (<[Datatypes.S i:=y]> (z :: l)) with (z :: <[i:=y]> l).
  cbn [sum_list_with]. lia.
Qed.

Section Pool.
Context {S : Type} {repo : AuthRepository S} {views : AuthViews S} {laws : AuthRepositoryLaws S}.
Context {ac : AuthCrates} {hops : HashOps} {uc : UnicodeChars} {us : UuidSource} {ck : ClockSource}.
Context (cfg : TokenConfig).
Implicit Types (s : Service S).

Definition handle (q : AuthRequest) : Task S LoginOutcome :=
  match q with
  | QSignup input => sbind (signup_steps cfg input) (fun minted => sret (Tokens minted))
  | QLogin input ip_key => login_steps cfg input ip_key
  | QRefresh token => sbind (refresh_steps cfg token) (fun minted => sret (Tokens minted))
  end.

Record Conc := mkConc {
  cn_service : Service S;
  cn_calls : list (AuthRequest * Task S LoginOutcome);
}.

Definition conc_start (q : AuthRequest) (c : Conc) : Conc :=
  mkConc (cn_service c) (cn_calls c ++ [(q, handle q)]).

Definition conc_advance (i : nat) (c : Conc) : Conc :=
  match cn_calls c !! i with
  | Some (q, t) =>
      let '(t', s') := advance t (cn_service c) in mkConc s' (<[i := (q, t')]> (cn_calls c))
  | None => c
  end.

(** No statement of the API changes an email or a password hash, removes an account, or
    removes a refresh token or revives it. *)
Definition accounts_kept (q q' : S) : Prop :=
  forall i u, users_of q !! i = Some u -> exists u', users_of q' !! i = Some u' /\
    au_email u' = au_email u /\ au_password_hash u' = au_password_hash u.

Definition outside s s' : Prop :=
  keys_ok (sv_repo s') /\ older (tokens_of (sv_repo s)) (tokens_of (sv_repo s')) /\
  accounts_kept (sv_repo s) (sv_repo s') /\ sv_attempts s' = sv_attempts s /\
  (sv_clock s <= sv_clock s')%nat.

Inductive conc_step (c : Conc) : Conc -> Prop :=
| CsStart q : conc_step c (conc_start q c)
| CsAdvance i : conc_step c (conc_advance i c)
| CsOutside s' : outside (cn_service c) s' -> conc_step c (mkConc s' (cn_calls c)).

(** A schedule, to run one. *)
Inductive ConcEvent := EvStart (q : AuthRequest) | EvAdvance (i : nat).

Definition conc_do (c : Conc) (ev : ConcEvent) : Conc :=
  match ev with EvStart q => conc_start q c | EvAdvance i => conc_advance i c end.

Lemma conc_do_step c ev : conc_step c (conc_do c ev).
Proof. destruct ev; constructor. Qed.

Lemma schedule_run c evs : rtc conc_step c (foldl conc_do c evs).
Proof.
  revert c. induction evs as [|ev evs IH]; intros c; [done|].
  eapply rtc_l; [apply conc_do_step|apply IH].
Qed.

(** The answers so far. *)
Definition answers (c : Conc) : list (AuthRequest * option (result AuthError LoginOutcome)) :=
  (fun call => (call.1, match call.2 with Finish r => Some r | Await _ _ => None end)) <$>
    cn_calls c.

Lemma answered c i q r : answers c !! i = Some (q, Some r) -> cn_calls c !! i = Some (q, Finish r).
Proof.
  unfold answers. rewrite list_lookup_fmap. destruct (cn_calls c !! i) as [[q' [r'|]]|]; [|done..].
  by intros [= -> ->].
Qed.

Lemma asked c i q t : cn_calls c !! i = Some (q, t) -> (answers c).*1 !! i = Some q.
Proof. intros H. unfold answers. by rewrite !list_lookup_fmap, H. Qed.

(** Nothing in between: the answer is the one of the request run alone. *)
Lemma advance_alone q (t : Task S LoginOutcome) s calls :
  let '(r, s') := run_alone t s in
  exists n, foldl conc_do (mkConc s (calls ++ [(q, t)])) (replicate n (EvAdvance (length calls))) =
    mkConc s' (calls ++ [(q, Finish r)]).
Proof.
  revert s. induction t as [r|X m k IH]; intros s; cbn; [by exists 0%nat|]. unfold abind.
  assert (forall c', conc_advance (length calls) (mkConc s (calls ++ [(q, Await m k)])) = c' -> forall l,
    foldl conc_do (mkConc s (calls ++ [(q, Await m k)])) (EvAdvance (length calls) :: l) = foldl conc_do c' l)
    as Hstep by by intros ? <-.
  destruct (m s) as [[x|e] s1] eqn:E.
  - specialize (IH x s1). destruct (run_alone (k x) s1) as [r s']. destruct IH as [n Hn].
    exists (Datatypes.S n). cbn [replicate]. erewrite Hstep; [exact Hn|]. unfold conc_advance. cbn.
    rewrite list_lookup_middle by done. cbn. rewrite E, insert_app_r_alt, Nat.sub_diag by done. done.
  - exists 1%nat. cbn [replicate]. erewrite Hstep; [done|]. unfold conc_advance. cbn.
    rewrite list_lookup_middle by done. cbn. rewrite E, insert_app_r_alt, Nat.sub_diag by done. done.
Qed.

(** ** What a section does to the store *)

Definition later s s' : Prop :=
  older (tokens_of (sv_repo s)) (tokens_of (sv_repo s')) /\
  accounts_kept (sv_repo s) (sv_repo s') /\ (sv_clock s <= sv_clock s')%nat.

#[export] Instance later_preorder : PreOrder later.
Proof.
  split.
  - intros s. split_and!; [done|intros i u Hu; by exists u|done].
  - intros s1 s2 s3 (O1 & A1 & C1) (O2 & A2 & C2). split_and!; [by etransitivity| |lia].
    intros i u Hu. destruct (A1 i u Hu) as (u1 & Hu1 & ? & ?).
    destruct (A2 i u1 Hu1) as (u2 & Hu2 & ? & ?). exists u2. split_and!; congruence.
Qed.

Lemma later_trans s1 s2 s3 : later s1 s2 -> later s2 s3 -> later s1 s3.
Proof. apply transitivity. Qed.

(** What holds of every section of a task. *)
Fixpoint sections (P : forall X, AuthM (S := S) X -> Prop) {A} (t : Task S A) : Prop :=
  match t with Finish _ => True | Await m k => P _ m /\ forall x, sections P (k x) end.

Lemma sections_bind P {A B} (t : Task S A) (k : A -> Task S B) :
  sections P t -> (forall a, sections P (k a)) -> sections P (tbind t k).
Proof.
  induction t as [[a|e]|X m k0 IH]; cbn; [auto|done|]. intros [Hm Hk] Ha. auto.
Qed.

Definition sound (X : Type) (m : AuthM (S := S) X) : Prop :=
  forall s r s', keys_ok (sv_repo s) -> m s = (r, s') ->
  keys_ok (sv_repo s') /\ later s s'.

Definition keeps_attempts (X : Type) (m : AuthM (S := S) X) : Prop :=
  forall s r s', m s = (r, s') -> sv_attempts s' = sv_attempts s.

Lemma later_same s s' :
  same_store (sv_repo s) (sv_repo s') -> (sv_clock s <= sv_clock s')%nat ->
  keys_ok (sv_repo s) -> keys_ok (sv_repo s') /\ later s s'.
Proof.
  intros Hs Hc Hk. split; [by eapply keys_ok_same|]. destruct Hs as [(Hu & _) Ht].
  unfold later, accounts_kept. rewrite Hu, Ht. split_and!; [done|eauto|done].
Qed.

(** Tokens that are revoked, or stored under new keys. *)
Lemma later_revoked q q' :
  same_accounts q q' ->
  (forall j t', tokens_of q' !! j = Some t' -> exists t, tokens_of q !! j = Some t /\ ages t t') ->
  keys_ok q -> keys_ok q'.
Proof.
  intros (Hu & _) Hb (K1 & K2 & K3 & K4). unfold keys_ok. rewrite Hu. split_and!; [done| |done|].
  - intros j t (t0 & H0 & (-> & _)%ages_facts)%Hb. by apply K2.
  - intros j k t w (t0 & H0 & (_ & -> & _)%ages_facts)%Hb (w0 & H1 & (_ & -> & _)%ages_facts)%Hb.
    by apply K4.
Qed.

Lemma later_tokens s s' n n' :
  same_accounts (sv_repo s) (sv_repo s') -> (sv_clock s <= sv_clock s')%nat ->
  token_step n n' (tokens_of (sv_repo s)) (tokens_of (sv_repo s')) -> later s s'.
Proof.
  intros (Hu & _) Hc Ht. split_and!; [by eapply token_step_older| |done].
  unfold accounts_kept. rewrite Hu. eauto.
Qed.

Lemma repo_ran {A} (m : RepoOp S A) s r s' :
  repo_or_internal m s = (r, s') -> exists x q, m (sv_repo s) = (x, q) /\
    s' = mkService q (sv_attempts s) (sv_clock s) (sv_ids s) (sv_draws s).
Proof. intros (q & -> & [(x & H & _)|(x & H & _)])%repo_or_internal_inv; eauto. Qed.

Lemma sound_insert c : sound _ (repo_or_internal (insert_refresh_token c)).
Proof.
  intros s r s' Hk (x & q & Hx & ->)%repo_ran. apply insert_refresh_token_law in Hx as [Ha Hx]; [|done].
  destruct x as [|e]; [|apply later_same; [by split|cbn; lia|done]]. destruct Hx as (Hn & Hh & Ht).
  split; [|split_and!; cbn; [|unfold accounts_kept; rewrite (proj1 Ha); eauto|lia]].
  - destruct Hk as (K1 & K2 & K3 & K4). unfold keys_ok. cbn. rewrite Ht, (proj1 Ha). split_and!; [done| |done|].
    + intros i t. destruct (decide (i = cr_id c)) as [->|]; simplify_map_eq; [by intros [= <-]|apply K2].
    + intros i j t w. destruct (decide (i = cr_id c)) as [->|], (decide (j = cr_id c)) as [->|];
        simplify_map_eq; [done| | |apply K4].
      * intros [= <-] Hj He. by destruct (Hh j w Hj).
      * intros Hi [= <-] He. by destruct (Hh i t Hi).
  - rewrite Ht. intros i t Hi. exists t. rewrite lookup_insert_ne; [done|congruence].
Qed.

Lemma sound_revoke i time : sound _ (repo_or_internal (revoke_refresh_token i time)).
Proof.
  intros s r s' Hk (x & q & Hx & ->)%repo_ran. apply revoke_refresh_token_law in Hx as [Ha Ht]; [|done].
  destruct x; [|apply later_same; [by split|cbn; lia|done]]. split.
  - by eapply keys_ok_alter.
  - eapply (later_tokens _ _ 0 0); cbn; [done|lia|]. rewrite Ht. apply TsRevoke.
Qed.

Lemma sound_revoke_family f time : sound _ (repo_or_internal (revoke_refresh_family f time)).
Proof.
  intros s r s' Hk (x & q & Hx & ->)%repo_ran. apply revoke_refresh_family_law in Hx as [Ha Ht]; [|done].
  destruct x; [|apply later_same; [by split|cbn; lia|done]]. split.
  - eapply later_revoked; [done| |done]. cbn. rewrite Ht. intros j t'. rewrite lookup_fmap.
    destruct (tokens_of (sv_repo s) !! j) as [t|]; [|done]. intros [= <-].
    exists t. split; [done|]. case_decide; [right; eauto|by left].
  - eapply (later_tokens _ _ 0 0); cbn; [done|lia|]. rewrite Ht. apply TsRevokeFamily.
Qed.

Lemma sound_create c : sound _ (lift_repo (create_user c)).
Proof.
  intros s r s' Hk (x & q & H & -> & ->)%lift_repo_inv.
  apply create_user_law in H; [|done]. destruct x as [u|]; [|apply later_same; [done|cbn; lia|done]].
  destruct H as (-> & Hn & He & Hu & Ht & Ha & Hb). split.
  - eapply (keys_ok_creates (sv_repo s) _ c); done.
  - split_and!; cbn; [by rewrite Ht| |lia]. intros i u Hi. exists u.
    rewrite Hu, lookup_insert_ne; [done|congruence].
Qed.

Lemma sound_reads {A} (m : RepoOp S A) :
  (forall q q' r, keys_ok q -> m q = (r, q') -> same_store q q') -> sound _ (repo_or_internal m).
Proof.
  intros Hm s r s' Hk (q & -> & H)%repo_or_internal_inv.
  apply later_same; [|cbn; lia|done]. destruct H as [(? & H & _)|(? & H & _)]; by eapply Hm.
Qed.

Lemma sound_find_email e : sound _ (repo_or_internal (find_user_by_email e)).
Proof. apply sound_reads. intros q q' r Hk H. by apply find_user_by_email_law in H as [? _]. Qed.
Lemma sound_find_id i : sound _ (repo_or_internal (find_user_by_id i)).
Proof. apply sound_reads. intros q q' r Hk H. by apply find_user_by_id_law in H as [? _]. Qed.
Lemma sound_find_token h : sound _ (repo_or_internal (find_refresh_token h)).
Proof. apply sound_reads. intros q q' r Hk H. by apply find_refresh_token_law in H as [? _]. Qed.

(** Sections that do not touch the store. *)
Lemma sound_local {A} (m : AuthM A) :
  (forall s r s', m s = (r, s') -> sv_repo s' = sv_repo s /\ (sv_clock s <= sv_clock s')%nat) -> sound _ m.
Proof. intros Hm s r s' Hk H. destruct (Hm _ _ _ H) as [E ?]. apply later_same; [by rewrite E|done|done]. Qed.
End Pool.

Ltac local_section :=
  intros ? ? ?; unfold now, new_uuid, draw, normalised_email_or_error, or_internal,
    record_login_failure, clear_login_failures, get_attempts, set_attempts, abind, aret, aerr;
  repeat case_match; intros; simplify_eq; cbn; first [done|split; [done|lia]].

Section Sections.
Context {S : Type} {repo : AuthRepository S} {views : AuthViews S} {laws : AuthRepositoryLaws S}.
Context {ac : AuthCrates} {hops : HashOps} {uc : UnicodeChars} {us : UuidSource} {ck : ClockSource}.
Context (cfg : TokenConfig).
Implicit Types (s : Service S).

Lemma sound_now : sound (S := S) _ now.
Proof. apply sound_local. local_section. Qed.
Lemma sound_uuid : sound (S := S) _ new_uuid.
Proof. apply sound_local. local_section. Qed.
Lemma sound_draw : sound (S := S) _ draw.
Proof. apply sound_local. local_section. Qed.
Lemma sound_email email : sound (S := S) _ (normalised_email_or_error email).
Proof. apply sound_local. local_section. Qed.
Lemma sound_or_internal {E A} (r : result E A) : sound (S := S) _ (or_internal r).
Proof. apply sound_local. local_section. Qed.
Lemma sound_ensure e ip t : sound (S := S) _ (ensure_login_allowed e ip t).
Proof. apply sound_local. intros s r s'. rewrite ensure_eq. intros [= _ <-]. done. Qed.
Lemma sound_record e ip t : sound (S := S) _ (record_login_failure e ip t).
Proof. apply sound_local. local_section. Qed.
Lemma sound_clear e ip : sound (S := S) _ (clear_login_failures e ip).
Proof. apply sound_local. local_section. Qed.

Lemma keeps_repo {A} (m : RepoOp S A) : keeps_attempts _ (repo_or_internal m).
Proof. by intros s r s' (q & -> & _)%repo_or_internal_inv. Qed.
Lemma keeps_lift {A} (m : RepoOp S A) : keeps_attempts _ (lift_repo m).
Proof. by intros s r s' (x & q & _ & _ & ->)%lift_repo_inv. Qed.
Lemma keeps_now : keeps_attempts (S := S) _ now.
Proof. local_section. Qed.
Lemma keeps_uuid : keeps_attempts (S := S) _ new_uuid.
Proof. local_section. Qed.
Lemma keeps_draw : keeps_attempts (S := S) _ draw.
Proof. local_section. Qed.
Lemma keeps_email email : keeps_attempts (S := S) _ (normalised_email_or_error email).
Proof. local_section. Qed.
Lemma keeps_or_internal {E A} (r : result E A) : keeps_attempts (S := S) _ (or_internal r).
Proof. local_section. Qed.
End Sections.

Create HintDb sections.
#[export] Hint Resolve sound_insert sound_revoke sound_revoke_family sound_create sound_find_email
  sound_find_id sound_find_token sound_now sound_uuid sound_draw sound_email sound_or_internal
  sound_ensure sound_record sound_clear keeps_repo keeps_lift keeps_now keeps_uuid keeps_draw
  keeps_email keeps_or_internal : sections.

(** Goes through the sections of an operation. *)
Ltac by_sections :=
  repeat first
    [ progress cbn [sections sbind sret sfail atomic task_steps tbind]
    | split; [solve [auto with sections]|intros ?]
    | match goal with
      | |- True => exact I
      | |- sections _ (tbind _ _) => apply sections_bind; [|intros ?]
      | |- sections _ (match ?x with _ => _ end) => destruct x
      | |- sections _ (sbind _ _) => apply sections_bind; [|intros ?]
      end ].

Section Handle.
Context {S : Type} {repo : AuthRepository S} {views : AuthViews S} {laws : AuthRepositoryLaws S}.
Context {ac : AuthCrates} {hops : HashOps} {uc : UnicodeChars} {us : UuidSource} {ck : ClockSource}.
Context (cfg : TokenConfig).
Implicit Types (s : Service S).

Lemma handle_sound q : sections sound (handle (S := S) cfg q).
Proof.
  destruct q; cbn [handle]; unfold signup_steps, login_steps, refresh_steps, refresh_find_steps,
    refresh_use_steps, refuse_login_steps, mint_and_store_pair_steps,
    mint_and_store_pair_with_family_steps; by_sections.
Qed.

Lemma mint_keeps u sid f kyc :
  sections keeps_attempts (mint_and_store_pair_steps (S := S) (M := Task S) cfg u sid f kyc).
Proof.
  unfold mint_and_store_pair_steps, mint_and_store_pair_with_family_steps. by_sections.
Qed.

Lemma signup_keeps input : sections keeps_attempts (handle (S := S) cfg (QSignup input)).
Proof.
  cbn [handle]; unfold signup_steps. by_sections; apply mint_keeps.
Qed.

Lemma refresh_keeps token : sections keeps_attempts (handle (S := S) cfg (QRefresh token)).
Proof.
  cbn [handle]; unfold refresh_steps, refresh_find_steps, refresh_use_steps,
    mint_and_store_pair_with_family_steps. by_sections.
Qed.

(** ** Runs *)

Implicit Types (c : Conc (S := S)).

Definition conc_ready c : Prop :=
  keys_ok (sv_repo (cn_service c)) /\
  forall i q t, cn_calls c !! i = Some (q, t) -> sections sound t.

Lemma advance_sound {A} (t t' : Task S A) s s' :
  keys_ok (sv_repo s) -> sections sound t -> advance t s = (t', s') ->
  keys_ok (sv_repo s') /\ later s s' /\ sections sound t'.
Proof.
  intros Hk Ht H. destruct t as [r|X m k]; cbn in H; [by injection H as <- <-|].
  destruct Ht as [Hm Hx], (m s) as [r s1] eqn:E. destruct (Hm _ _ _ Hk E) as [? ?].
  destruct r; injection H as <- <-; by split_and!.
Qed.

Lemma ready_step c c' :
  conc_ready c -> conc_step cfg c c' -> conc_ready c' /\ later (cn_service c) (cn_service c').
Proof.
  intros [Hk Ht] Hc. destruct Hc as [q|i|s' (Hk' & Ho & Ha & _ & Hc)].
  - split; [|done]. split; [done|]. cbn. intros i q' t [Hi|[_ Hi]]%lookup_app_Some; [eauto|].
    apply list_lookup_singleton_Some in Hi as [_ [= <- <-]]. apply handle_sound.
  - unfold conc_advance. destruct (cn_calls c !! i) as [[q t]|] eqn:Hi; [|done].
    destruct (advance t (cn_service c)) as [t' s'] eqn:E.
    destruct (advance_sound _ _ _ _ Hk (Ht _ _ _ Hi) E) as (? & ? & ?). split; [|done]. split; [done|].
    cbn. intros j q' w Hj. apply list_lookup_insert_Some in Hj as [(_ & [= <- <-] & _)|[_ Hj]]; eauto.
  - split; [by split|by split_and!].
Qed.

Lemma ready_run c c' :
  conc_ready c -> rtc (conc_step cfg) c c' -> conc_ready c' /\ later (cn_service c) (cn_service c').
Proof.
  intros Hr. induction 1 as [c|c c1 c2 Hs _ IH]; [done|].
  destruct (ready_step _ _ Hr Hs) as [Hr1 Hl]. destruct (IH Hr1). split; [done|]. by etransitivity.
Qed.

(** A call keeps its place and its request. *)
Lemma calls_stay c c' i q t :
  rtc (conc_step cfg) c c' -> cn_calls c !! i = Some (q, t) ->
  exists t', cn_calls c' !! i = Some (q, t').
Proof.
  intros Hr. revert t. induction Hr as [c|c c1 c2 Hs _ IH]; intros t Hi; [eauto|].
  assert (exists t1, cn_calls c1 !! i = Some (q, t1)) as [t1 H1]; [|by eapply IH].
  destruct Hs as [q'|j|s' _]; cbn; [|unfold conc_advance|eauto].
  - exists t. by apply lookup_app_l_Some.
  - destruct (cn_calls c !! j) as [[q' w]|] eqn:Hj; [|eauto].
    destruct (advance w (cn_service c)) as [w' s'] eqn:E. cbn.
    destruct (decide (i = j)) as [->|]; [|rewrite list_lookup_insert_ne by done; eauto].
    rewrite Hj in Hi. injection Hi as -> ->. exists w'. apply list_lookup_insert_eq.
    by eapply lookup_lt_Some.
Qed.

(** ** What a task promises *)

Definition post : Type := result AuthError LoginOutcome -> Service S -> Prop.

Section Promises.
(** What holds of the service all the time. *)
Context (always : Service S -> Prop).

Fixpoint wp {A} (t : Task S A) (Q : result AuthError A -> Service S -> Prop) s : Prop :=
  match t with
  | Finish r => Q r s
  | Await m k => forall s1 r s2,
      later s s1 -> keys_ok (sv_repo s1) -> always s1 -> m s1 = (r, s2) ->
      later s1 s2 -> keys_ok (sv_repo s2) -> always s2 ->
      match r with Ok x => wp (k x) Q s2 | Err e => Q (Err e) s2 end
  end.

Definition stable {A} (Q : result AuthError A -> Service S -> Prop) : Prop :=
  forall r s s', later s s' -> Q r s -> Q r s'.

Lemma wp_later {A} (t : Task S A) Q s s' : stable Q -> later s s' -> wp t Q s -> wp t Q s'.
Proof.
  intros HQ Hl. destruct t as [r|X m k]; cbn; [by apply HQ|].
  intros H s1 r s2 Hl1. apply H. by transitivity s'.
Qed.

Lemma wp_mono {A} (t : Task S A) (Q Q' : result AuthError A -> Service S -> Prop) s :
  (forall r s, Q r s -> Q' r s) -> wp t Q s -> wp t Q' s.
Proof.
  intros HQ. revert s. induction t as [r|X m k IH]; intros s; cbn; [apply HQ|].
  intros H s1 r s2 H1 H2 H3 H4 H5 H6 H7. specialize (H s1 r s2 H1 H2 H3 H4 H5 H6 H7).
  destruct r; [by apply IH|by apply HQ].
Qed.

Lemma wp_bind {A B} (t : Task S A) (k : A -> Task S B) Q s :
  wp t (fun r s => match r with Ok a => wp (k a) Q s | Err e => Q (Err e) s end) s ->
  wp (tbind t k) Q s.
Proof.
  revert s. induction t as [[a|e]|X m k0 IH]; intros s; cbn; [done|done|].
  intros H s1 r s2 H1 H2 H3 H4 H5 H6 H7. specialize (H s1 r s2 H1 H2 H3 H4 H5 H6 H7).
  destruct r; [by apply IH|done].
Qed.

(** A fact the others keep is kept. *)
Lemma wp_frame {A} (t : Task S A) (P : Service S -> Prop) s :
  (forall s s', later s s' -> P s -> P s') -> P s -> wp t (fun _ => P) s.
Proof.
  intros HP. revert s. induction t as [r|X m k IH]; intros s Hs; cbn; [done|].
  intros s1 r s2 Hl _ _ _ Hl' _ _. destruct r; [apply IH|]; eauto.
Qed.

(** One section; [s1] is where it begins. *)
Lemma wp_await {A X} (m : AuthM X) (k : X -> Task S A) Q s :
  (forall s1 r s2, later s s1 -> keys_ok (sv_repo s1) -> always s1 -> m s1 = (r, s2) ->
     later s s2 -> always s2 ->
     match r with Ok x => wp (k x) Q s2 | Err e => Q (Err e) s2 end) ->
  wp (Await m k) Q s.
Proof. intros H s1 r s2 ? ? ? ? ? ? ?. apply (H s1); try done. by transitivity s1. Qed.

Definition promised (Q : nat -> AuthRequest -> post) c : Prop :=
  forall i q t, cn_calls c !! i = Some (q, t) -> wp t (Q i q) (cn_service c).

Lemma promised_step Q c c' :
  (forall i q, stable (Q i q)) ->
  (forall q s, keys_ok (sv_repo s) -> always s -> wp (handle cfg q) (Q (length (cn_calls c)) q) s) ->
  conc_ready c -> always (cn_service c) -> always (cn_service c') -> conc_step cfg c c' ->
  promised Q c -> promised Q c'.
Proof.
  intros HQ Hh Hr Ha Ha' Hc Hp. destruct (ready_step _ _ Hr Hc) as [Hr' Hl].
  intros i q t Hi. destruct Hc as [q'|j|s' Ho].
  - apply lookup_app_Some in Hi as [Hi|[Hn Hi]]; [by apply Hp|].
    apply list_lookup_singleton_Some in Hi as [Hn' [= <- <-]].
    replace i with (length (cn_calls c)) by lia. apply Hh; [apply Hr|done].
  - unfold conc_advance in *. destruct (cn_calls c !! j) as [[q' w]|] eqn:Hj; [|by apply Hp].
    destruct (advance w (cn_service c)) as [w' s'] eqn:E. cbn in *.
    apply list_lookup_insert_Some in Hi as [(<- & [= <- <-] & _)|[_ Hi]].
    + specialize (Hp _ _ _ Hj). destruct w as [r|X m k]; cbn in E; [by injection E as <- <-|].
      destruct (m (cn_service c)) as [r s1] eqn:Em.
      specialize (Hp (cn_service c) r s1). destruct r; injection E as <- <-;
        (apply Hp; [done|apply Hr|done|done|exact Hl|apply Hr'|done]).
    + eapply wp_later, Hp; [done..|exact Hi].
  - eapply wp_later, Hp; [done..|exact Hi].
Qed.

(** A run during which something always holds. *)
Definition run_while c c' : Prop := conc_step cfg c c' /\ always (cn_service c').

Lemma run_while_run c c' : rtc run_while c c' -> rtc (conc_step cfg) c c'.
Proof. apply rtc_subrel. by intros ? ? [? _]. Qed.

Lemma wp_true {A} (t : Task S A) (Q : result AuthError A -> Service S -> Prop) s :
  (forall r s, Q r s) -> wp t Q s.
Proof.
  intros HQ. revert s. induction t as [r|X m k IH]; intros s; cbn; [done|].
  intros s1 r s2 _ _ _ _ _ _ _. destruct r; [apply IH|done].
Qed.

Lemma promised_run (Q : nat -> AuthRequest -> post) c c' :
  (forall i q, stable (Q i q)) ->
  (forall i q s, keys_ok (sv_repo s) -> always s -> wp (handle cfg q) (Q i q) s) ->
  conc_ready c -> always (cn_service c) -> rtc run_while c c' -> promised Q c -> promised Q c'.
Proof.
  intros HQ Hh Hr Ha Hrun. revert Hr Ha. induction Hrun as [c|c c1 c2 [Hs Ha1] _ IH]; [done|].
  intros Hr Ha Hp. apply IH; [by apply (ready_step _ _ Hr Hs)|done|].
  eapply promised_step; eauto.
Qed.

(** The requests that come in during a run keep the promise of their kind. *)
Lemma run_promised (Q : AuthRequest -> post) c c' :
  (forall q, stable (Q q)) ->
  (forall q s, keys_ok (sv_repo s) -> always s -> wp (handle cfg q) (Q q) s) ->
  conc_ready c -> always (cn_service c) -> rtc run_while c c' ->
  forall i q r, (length (cn_calls c) <= i)%nat -> cn_calls c' !! i = Some (q, Finish r) ->
  Q q r (cn_service c').
Proof.
  intros HQ Hh Hr Ha Hrun i q r Hi Hf. remember (length (cn_calls c)) as n eqn:En.
  enough (promised (fun j q r s => (n <= j)%nat -> Q q r s) c') as Hp by exact (Hp _ _ _ Hf Hi).
  eapply promised_run; [| |done|done|done|].
  - intros j q' r' s s' Hl H ?. eapply HQ; eauto.
  - intros j q' s Hk Hs. eapply wp_mono; [|by apply Hh]. auto.
  - intros j q' t Hj%lookup_lt_Some. apply wp_true. lia.
Qed.
End Promises.
End Handle.

(** ** The operations *)

Ltac wp_simpl :=
  cbn [handle sbind sret sfail atomic task_steps tbind];
  unfold refuse_login_steps;
  cbn [handle sbind sret sfail atomic task_steps tbind].
Ltac wp_section s s' Hm :=
  wp_simpl; apply wp_await; let r := fresh "r" in
  let L := fresh "L" in let L' := fresh "L" in let Hk := fresh "Hk" in let Ha := fresh "Ha" in
  let Ha' := fresh "Ha" in
  intros s r s' L Hk Ha Hm L' Ha'; destruct r; [wp_simpl|].

Section Operations.
Context {S : Type} {repo : AuthRepository S} {views : AuthViews S} {laws : AuthRepositoryLaws S}.
Context {ac : AuthCrates} {hops : HashOps} {uc : UnicodeChars} {us : UuidSource} {ck : ClockSource}.
Context (cfg : TokenConfig).
Implicit Types (s : Service S) (c : Conc (S := S)).

(** A refresh token that is stored and no longer live. *)
Definition spent (token : string) s : Prop :=
  exists i t, tokens_of (sv_repo s) !! i = Some t /\
    rt_token_hash t = hash_refresh_token token /\ ~ live t.

Lemma spent_later token s s' : later s s' -> spent token s -> spent token s'.
Proof.
  intros (Ho & _) (i & t & Hi & Hh & Hl). destruct (Ho i t Hi) as (t' & Hi' & Hh' & _ & Hl').
  exists i, t'. split_and!; [done|congruence|tauto].
Qed.

(** The exchange spends the token, whatever happens in between. *)
Lemma refresh_spends token s :
  wp (fun _ => True) (handle (S := S) cfg (QRefresh token))
    (fun r s' => match r with Ok _ => spent token s' | Err _ => True end) s.
Proof.
  wp_simpl. unfold refresh_steps, refresh_find_steps, refresh_use_steps.
  wp_section s1 s2 M1; [|done].
  apply repo_or_internal_inv in M1 as (q & -> & [(x & Hx & Hr)|(? & _ & ?)]); [|done].
  injection Hr as ->. apply find_refresh_token_law in Hx as [[_ Ht] Hx]; [|done].
  destruct x as [stored|]; [|done]. destruct Hx as [Hst Hh]. rewrite <- Ht in Hst.
  wp_section s3 s4 M2; [|done]. case_bool_decide; [by wp_section s5 s6 M3|].
  case_match; [by wp_section s5 s6 M3|]. wp_section s5 s6 M3; [|done].
  match goal with x : option AuthUser |- _ => destruct x as [u|] end; [|done].
  case_bool_decide; [done|]. wp_section s7 s8 M4; [|done].
  apply repo_or_internal_inv in M4 as (q2 & -> & [(x & Hx & _)|(? & _ & ?)]); [|done].
  apply revoke_refresh_token_law in Hx as [_ Hx]; [|done].
  match type of L0 with later _ ?s0 => assert (later s0 s7) as [Ho _] by eauto using later_trans end.
  destruct (Ho (rt_id stored) stored Hst) as (t' & Ht' & Hh' & _).
  eapply wp_mono; [|apply (wp_frame _ _ (spent token))]; [by intros []|apply spent_later|].
  exists (rt_id stored), (revoke a t'). cbn. rewrite Hx, lookup_alter_eq, Ht'.
  split_and!; [done|cbn; congruence|apply revoke_not_live].
Qed.

(** A token spent before is refused. *)
Lemma refresh_refuses_spent token s :
  wp (spent token) (handle (S := S) cfg (QRefresh token))
    (fun r _ => match r with Ok _ => False | Err _ => True end) s.
Proof.
  wp_simpl. unfold refresh_steps, refresh_find_steps, refresh_use_steps.
  wp_section s1 s2 M1; [|done].
  apply repo_or_internal_inv in M1 as (q & -> & [(x & Hx & Hr)|(? & _ & ?)]); [|done].
  injection Hr as ->. apply find_refresh_token_law in Hx as [[_ Ht] Hx]; [|done].
  destruct x as [stored|]; [|done]. destruct Hx as [Hst Hh].
  destruct Ha as (i & t & Hi & Hth & Hlive).
  assert (i = rt_id stored) as -> by (destruct Hk as (_ & _ & _ & K4); eapply K4; [done..|congruence]).
  assert (t = stored) as -> by congruence.
  wp_section s3 s4 M2; [|done]. rewrite bool_decide_eq_true_2; [by wp_section s5 s6 M3|].
  destruct (rt_revoked_at stored) eqn:E; [by eexists|by destruct Hlive].
Qed.

(** An account with this email is stored. *)
Definition taken (email : string) s : Prop :=
  exists i u, users_of (sv_repo s) !! i = Some u /\ au_email u = email.

(** The account [i] is one a login with this email and password is meant for. *)
Definition opens_with (i : Uuid) (email password : string) s : Prop :=
  exists u, users_of (sv_repo s) !! i = Some u /\ au_email u = email /\
    is_valid_email email = true /\ verify_password password (au_password_hash u) = Ok true.

Definition active (i : Uuid) s : Prop :=
  exists u, users_of (sv_repo s) !! i = Some u /\ au_status u = Active.

Lemma opens_with_later i e w s s' : later s s' -> opens_with i e w s -> opens_with i e w s'.
Proof.
  intros (_ & Ha & _) (u & Hu & ? & ? & ?). destruct (Ha i u Hu) as (u' & Hu' & ? & ?).
  exists u'. split_and!; congruence.
Qed.

Lemma opens_with_taken i e w s : opens_with i e w s -> taken e s.
Proof. intros (u & ? & ? & _). by exists i, u. Qed.

Lemma signup_refused input s :
  wp (taken (normalize_email (si_email input))) (handle (S := S) cfg (QSignup input))
    (fun r _ => match r with Ok _ => False | Err _ => True end) s.
Proof.
  wp_simpl. unfold signup_steps. wp_section s1 s2 M1; [|done]. case_bool_decide; [done|].
  wp_section s3 s4 M2; [|done]. wp_section s5 s6 M3; [|done]. wp_section s7 s8 M4; [|done].
  wp_section s9 s10 M5; [|done]. apply lift_repo_inv in M5 as (x & q & Hc & Hr & ->).
  injection Hr as ->. apply create_user_law in Hc; [|done]. destruct x as [u|[]]; [|done..].
  destruct Hc as (_ & _ & He & _).
  match goal with H : taken _ s9 |- _ => destruct H as (i & u' & Hu & Hue) end.
  destruct (He i u' Hu). unfold normalised_email_or_error in M1. cbn.
  destruct (is_valid_email _); [|done]. injection M1 as <- _. done.
Qed.

Lemma signup_opens {acl : AuthCratesLaws} input s :
  wp (fun _ => True) (handle (S := S) cfg (QSignup input))
    (fun r s' => match r with
       | Ok _ => exists i, opens_with i (normalize_email (si_email input)) (si_password input) s'
       | Err _ => True end) s.
Proof.
  wp_simpl. unfold signup_steps. wp_section s1 s2 M1; [|done].
  unfold normalised_email_or_error in M1. destruct (is_valid_email _) eqn:Hv; [|done].
  injection M1 as <- <-. case_bool_decide; [done|].
  wp_section s3 s4 M2; [|done]. wp_section s5 s6 M3; [|done]. apply or_internal_inv in M3 as [-> M3].
  destruct (hash_password _ _) as [h|] eqn:Hh; [|done]. injection M3 as ->.
  wp_section s7 s8 M4; [|done].
  wp_section s9 s10 M5; [|done]. apply lift_repo_inv in M5 as (x & q & Hc & Hr & ->).
  injection Hr as ->. apply create_user_law in Hc; [|done]. destruct x as [u|[]]; [|done..].
  destruct Hc as (-> & _ & _ & Hu & _).
  cbn in Hu. match type of Hu with _ = <[?i := _]> _ =>
    eapply wp_mono; [|apply (wp_frame _ _
      (opens_with i (normalize_email (si_email input)) (si_password input)))];
    [intros [] ? ?; [by eexists|done]|intros ? ?; apply opens_with_later|] end.
  eexists. cbn. rewrite Hu, lookup_insert_eq. split_and!; [done|done|done|].
  by eapply hash_verifies.
Qed.

Definition internal_or_ok {A} (r : result AuthError A) s : Prop := r = Err AeInternal \/ exists a, r = Ok a.

Lemma mint_internal I u sid f kyc s :
  wp I (mint_and_store_pair_steps (S := S) (M := Task S) cfg u sid f kyc) internal_or_ok s.
Proof.
  unfold mint_and_store_pair_steps, mint_and_store_pair_with_family_steps.
  wp_section s1 s2 M1; [|done]. wp_section s3 s4 M2; [|done]. wp_section s5 s6 M3; [|done].
  wp_section s7 s8 M4; [|done]. wp_section s9 s10 M5.
  - wp_section s11 s12 M6.
    + right. eauto.
    + apply repo_or_internal_inv in M6 as (q & -> & [(x & _ & ?)|(x & _ & [= ->])]); [done|by left].
  - apply or_internal_inv in M5 as [-> M5]. destruct (mint_pair _ _ _ _ _ _ _); [done|].
    injection M5 as ->. by left.
Qed.

(** The right password of an active account. *)
Lemma login_opens i input ip s :
  let e := normalize_email (li_email input) in
  wp (fun s => opens_with i e (li_password input) s /\ active i s)
    (handle (S := S) cfg (QLogin input ip))
    (fun r _ => r = Err AeTooManyAttempts \/ internal_or_ok r s) s.
Proof.
  cbv zeta. wp_simpl. unfold login_steps. wp_section s1 s2 M1.
  2: { unfold normalised_email_or_error in M1. destruct Ha as [(u & _ & _ & Hv & _) _].
       by rewrite Hv in M1. }
  unfold normalised_email_or_error in M1. destruct (is_valid_email _); [|done]. injection M1 as <- <-.
  wp_section s3 s4 M2; [|done]. wp_section s5 s6 M3.
  2: { rewrite ensure_eq in M3. destruct (is_locked _ _ _); [|done]. injection M3 as <- _. by left. }
  wp_section s7 s8 M4.
  2: { apply repo_or_internal_inv in M4 as (q & -> & [(x & _ & ?)|(x & _ & [= ->])]); [done|].
       right. by left. }
  apply repo_or_internal_inv in M4 as (q & -> & [(x & Hx & Hr)|(x & _ & ?)]); [|done].
  injection Hr as ->. apply find_user_by_email_law in Hx as [_ Hx]; [|done].
  match goal with H : opens_with i _ _ s7 /\ _ |- _ =>
    destruct H as [(u & Hu & He & _ & Hpw) (u' & Hu' & Hst)] end.
  rewrite Hu in Hu'. injection Hu' as <-.
  destruct x as [w|]; [|by destruct (Hx i u Hu)]. destruct Hx as [Hw Hwe].
  assert (w = u) as ->.
  { assert (au_id w = i) as E; [|rewrite E in Hw; congruence].
    match goal with H : keys_ok (sv_repo s7) |- _ => destruct H as (_ & _ & K3 & _) end.
    eapply K3; [done..|congruence]. }
  rewrite bool_decide_eq_false_2 by (rewrite Hst; auto). rewrite Hpw.
  wp_section s9 s10 M5; [|done]. injection M5 as <- <-. cbn [negb].
  wp_section s11 s12 M6; [|done]. wp_section s13 s14 M7; [|done].
  destruct (au_totp_enabled u).
  - wp_section s15 s16 M8; [|done]. wp_section s17 s18 M9; [|done]. wp_section s19 s20 M10.
    + right. right. eauto.
    + apply or_internal_inv in M10 as [-> M10]. destruct (mint_mfa_token _ _ _ _ _); [done|].
      injection M10 as ->. right. by left.
  - wp_section s15 s16 M8; [|done]. apply wp_bind. eapply wp_mono; [|apply mint_internal].
    intros r s' [->|[p ->]]; right; [by left|right; cbn; eauto].
Qed.

(** *** Over a run *)

Lemma ready_begin s : keys_ok (sv_repo s) -> conc_ready (mkConc s []).
Proof. intros Hk. split; [done|]. by intros i q t Hi. Qed.

Lemma run_whole c c' : rtc (conc_step cfg) c c' -> rtc (run_while cfg (fun _ => True)) c c'.
Proof. by apply rtc_subrel. Qed.

(** A fact that is kept holds all along. *)
Lemma run_keeps (P Q : Service S -> Prop) c c' :
  (forall s s', later s s' -> P s -> P s') -> conc_ready c -> P (cn_service c) ->
  rtc (run_while cfg Q) c c' -> rtc (run_while cfg (fun s => P s /\ Q s)) c c'.
Proof.
  intros HP Hr Hc Hrun. induction Hrun as [c|c c1 c2 [Hs Hq] _ IH]; [done|].
  destruct (ready_step cfg _ _ Hr Hs) as [Hr1 Hl]. assert (P (cn_service c1)) by eauto.
  eapply rtc_l; [by split|auto].
Qed.

Lemma exchanged_is_spent s c token i o :
  keys_ok (sv_repo s) -> rtc (conc_step cfg) (mkConc s []) c ->
  cn_calls c !! i = Some (QRefresh token, Finish (Ok o)) -> spent token (cn_service c).
Proof.
  intros Hk Hrun Hi.
  apply (run_promised cfg (fun _ => True) (fun q r s => match q, r with
    | QRefresh token, Ok _ => spent token s | _, _ => True end) (mkConc s []) c) with (i := i) in Hi;
    [done| | |by apply ready_begin|done|by apply run_whole|cbn; lia].
  - intros [] [] ? ?; try done. apply spent_later.
  - intros [| |tok] s1 _ _; [by apply wp_true..|apply refresh_spends].
Qed.

Lemma spent_is_refused c c' token i r :
  conc_ready c -> spent token (cn_service c) -> rtc (conc_step cfg) c c' ->
  (length (cn_calls c) <= i)%nat -> cn_calls c' !! i = Some (QRefresh token, Finish r) ->
  match r with Ok _ => False | Err _ => True end.
Proof.
  intros Hr Hs Hrun Hn Hi.
  apply (run_promised cfg (spent token) (fun q r _ => match q, r with
    | QRefresh token', Ok _ => token' <> token | _, _ => True end) c c') with (i := i) in Hi;
    [by destruct r| | |done|done| |done].
  - by intros [] [] ? ?.
  - intros [| |token'] s1 _ _; [by apply wp_true..|].
    destruct (decide (token' = token)) as [->|]; [|apply wp_true; by intros []].
    eapply wp_mono; [|apply refresh_refuses_spent]. by intros [].
  - eapply rtc_subrel; [|apply (run_keeps (spent token) (fun _ => True));
      [intros ? ?; apply spent_later|done|done|by apply run_whole]]. intros ? ? [? [? _]]. by split.
Qed.

Lemma accepted_signup_opens {acl : AuthCratesLaws} s c input i o :
  keys_ok (sv_repo s) -> rtc (conc_step cfg) (mkConc s []) c ->
  cn_calls c !! i = Some (QSignup input, Finish (Ok o)) ->
  exists j, opens_with j (normalize_email (si_email input)) (si_password input) (cn_service c).
Proof.
  intros Hk Hrun Hi.
  apply (run_promised cfg (fun _ => True) (fun q r s => match q, r with
    | QSignup input, Ok _ =>
        exists j, opens_with j (normalize_email (si_email input)) (si_password input) s
    | _, _ => True end) (mkConc s []) c) with (i := i) in Hi;
    [done| | |by apply ready_begin|done|by apply run_whole|cbn; lia].
  - intros [] [] ? ?; try done. intros Hl [j Hj]. exists j. by eapply opens_with_later.
  - intros [input'| |] s1 _ _; [apply signup_opens|by apply wp_true..].
Qed.

Lemma taken_later email s s' : later s s' -> taken email s -> taken email s'.
Proof.
  intros (_ & Ha & _) (i & u & Hu & He). destruct (Ha i u Hu) as (u' & ? & ? & _).
  exists i, u'. split; congruence.
Qed.

Lemma taken_is_refused c c' input i r :
  conc_ready c -> taken (normalize_email (si_email input)) (cn_service c) -> rtc (conc_step cfg) c c' ->
  (length (cn_calls c) <= i)%nat -> cn_calls c' !! i = Some (QSignup input, Finish r) ->
  match r with Ok _ => False | Err _ => True end.
Proof.
  intros Hr Hs Hrun Hn Hi. set (e := normalize_email (si_email input)) in *.
  apply (run_promised cfg (taken e) (fun q r _ => match q, r with
    | QSignup input', Ok _ => normalize_email (si_email input') <> e | _, _ => True end) c c')
    with (i := i) in Hi; [by destruct r| | |done|done| |done].
  - by intros [] [] ? ?.
  - intros [input'| |] s1 _ _; [|by apply wp_true..].
    destruct (decide (normalize_email (si_email input') = e)) as [E|]; [|apply wp_true; by intros []].
    rewrite <- E. eapply wp_mono; [|apply signup_refused]. by intros [].
  - eapply rtc_subrel; [|apply (run_keeps (taken e) (fun _ => True));
      [intros ? ?; apply taken_later|done|done|by apply run_whole]]. intros ? ? [? [? _]]. by split.
Qed.

Lemma opened_is_let_in c c' account input ip i r :
  conc_ready c -> opens_with account (normalize_email (li_email input)) (li_password input) (cn_service c) ->
  active account (cn_service c) -> rtc (run_while cfg (active account)) c c' ->
  (length (cn_calls c) <= i)%nat -> cn_calls c' !! i = Some (QLogin input ip, Finish r) ->
  r = Err AeTooManyAttempts \/ r = Err AeInternal \/ exists o, r = Ok o.
Proof.
  intros Hr Hs Hact Hrun Hn Hi.
  set (e := normalize_email (li_email input)) in *. set (w := li_password input) in *.
  apply (run_promised cfg (fun s => opens_with account e w s /\ active account s)
    (fun q r _ => match q with
    | QLogin input' _ => normalize_email (li_email input') = e -> li_password input' = w ->
        r = Err AeTooManyAttempts \/ r = Err AeInternal \/ exists o, r = Ok o
    | _ => True end) c c') with (i := i) in Hi; [by apply Hi| | |done|done| |done].
  - by intros [] ? ? ?.
  - intros [|input' ip'|] s1 _ _; [by apply wp_true| |by apply wp_true].
    destruct (decide (normalize_email (li_email input') = e)) as [E|]; [|by apply wp_true].
    destruct (decide (li_password input' = w)) as [E'|]; [|by apply wp_true].
    rewrite <- E, <- E'. eapply wp_mono; [|apply login_opens]. intros r' s' Hr' _ _. exact Hr'.
  - apply run_keeps; [intros ? ?; apply opens_with_later|done..].
Qed.
End Operations.

(** ** Guesses at one account *)

(** How far a login to the account has come: before the check of the lock, past it, barred
    by it, or refused for its password; [PhOther] is any other request. *)
Inductive Phase := PhOther | PhFresh | PhPast | PhBarred | PhWrong.

Section Guesses.
Context {S : Type} {repo : AuthRepository S} {views : AuthViews S} {laws : AuthRepositoryLaws S}.
Context {ac : AuthCrates} {hops : HashOps} {uc : UnicodeChars} {us : UuidSource} {ck : ClockSource}.
Context (cfg : TokenConfig).
(** The account, its email and password hash, and when the run begins. *)
Context (i : Uuid) (e h : string) (t0 : Z).
Implicit Types (s : Service S) (c : Conc (S := S)).

Definition to_account (q : AuthRequest) : bool :=
  match q with
  | QLogin input _ => bool_decide (normalize_email (li_email input) = e)
  | _ => false
  end.

Definition wrong_password (q : AuthRequest) : Prop :=
  match q with
  | QLogin input _ => verify_password (li_password input) h <> Ok true
  | _ => True
  end.

(** A login to the account that was answered INVALID_CREDENTIALS. *)
Definition wrong_answer (call : AuthRequest * Task S LoginOutcome) : bool :=
  to_account call.1 && match call.2 with Finish (Err AeInvalidCredentials) => true | _ => false end.

(** A login to the account that was not answered yet. *)
Definition unanswered (call : AuthRequest * Task S LoginOutcome) : bool :=
  to_account call.1 && match call.2 with Finish _ => false | Await _ _ => true end.

Definition watched s : option FailureWindow := by_email (sv_attempts s) !! e.
Definition fails s : Z := match watched s with Some w => fw_count w | None => 0 end.

Definition counted s : Prop :=
  keys_ok (sv_repo s) /\
  (exists u, users_of (sv_repo s) !! i = Some u /\ au_email u = e /\ au_password_hash u = h) /\
  forall w, watched s = Some w -> t0 <= fw_first_failure_at w.

(** The clock was read within 15 minutes of [t0]. *)
Definition timely s s' : Prop :=
  forall n, (sv_clock s <= n < sv_clock s')%nat ->
  t0 <= unix_timestamp (clock_now n) <= t0 + LOGIN_WINDOW_SECONDS.

Definition answer_fits (ph : Phase) (r : result AuthError LoginOutcome) : Prop :=
  match ph with
  | PhOther => True
  | PhFresh | PhPast => r <> Err AeInvalidCredentials
  | PhBarred => r = Err AeTooManyAttempts
  | PhWrong => r = Err AeInvalidCredentials
  end.

(** A task in a phase: its next section leaves the window of the account alone, lets the
    login past the check of the lock, or remembers a wrong password and answers it. *)
Fixpoint follows (ph : Phase) (t : Task S LoginOutcome) : Prop :=
  match t with
  | Finish r => answer_fits ph r
  | Await m k => ph <> PhWrong /\ forall s r s',
      counted s -> (ph = PhBarred -> MAX_LOGIN_FAILURES <= fails s) -> timely s s' -> m s = (r, s') ->
      (watched s' = watched s /\
       match r with
       | Err err => answer_fits ph (Err err)
       | Ok x => follows ph (k x) \/
           (ph = PhFresh /\ fails s < MAX_LOGIN_FAILURES /\ follows PhPast (k x))
       end) \/
      (ph = PhPast /\ exists w x, r = Ok x /\ k x = Finish (Err AeInvalidCredentials) /\
         watched s' = Some w /\ t0 <= fw_first_failure_at w /\
         fw_count w = u32_saturating_add (fails s) 1)
  end.

Lemma follows_await {X} ph (m : AuthM X) (k : X -> Task S LoginOutcome) :
  ph <> PhWrong ->
  (forall s r s', counted s -> (ph = PhBarred -> MAX_LOGIN_FAILURES <= fails s) -> timely s s' ->
     m s = (r, s') ->
     watched s' = watched s /\
     match r with Err err => answer_fits ph (Err err) | Ok x => follows ph (k x) end) ->
  follows ph (Await m k).
Proof.
  intros Hp H. split; [done|]. intros s r s' Hc Hb Ht Hm. left.
  destruct (H _ _ _ Hc Hb Ht Hm) as [? Hr]. split; [done|]. destruct r; [by left|done].
Qed.

Lemma keeps_watched {X} (m : AuthM X) s r s' : keeps_attempts _ m -> m s = (r, s') -> watched s' = watched s.
Proof. intros Hm H. unfold watched. by rewrite (Hm _ _ _ H). Qed.

Lemma follows_other t : sections keeps_attempts t -> follows PhOther t.
Proof.
  induction t as [r|X m k IH]; intros Ht; [done|]. destruct Ht as [Hm Hk].
  apply follows_await; [done|]. intros s r s' _ _ _ H. split; [by eapply keeps_watched|].
  destruct r; [by apply IH|done].
Qed.

Lemma prune_watched t s :
  counted s -> t <= t0 + LOGIN_WINDOW_SECONDS ->
  by_email (attempts_prune t (sv_attempts s)) !! e = watched s.
Proof.
  intros (_ & _ & Hw) Ht. unfold watched in *. cbn. destruct (by_email (sv_attempts s) !! e) as [w|] eqn:E.
  - apply map_lookup_filter_Some_2; [done|]. unfold recent. cbn. specialize (Hw w eq_refl). lia.
  - apply map_lookup_filter_None_2. by left.
Qed.

Lemma now_timely s r s' :
  timely s s' -> now s = (r, s') -> exists t, r = Ok t /\
    t0 <= unix_timestamp t <= t0 + LOGIN_WINDOW_SECONDS.
Proof. intros Ht [= <- <-]. eexists. split; [done|]. apply Ht. cbn. lia. Qed.

Lemma ensure_watched email ip t s r s' :
  counted s -> t <= t0 + LOGIN_WINDOW_SECONDS -> ensure_login_allowed email ip t s = (r, s') ->
  watched s' = watched s /\
  r = if is_locked email ip (attempts_prune t (sv_attempts s)) then Err AeTooManyAttempts else Ok ().
Proof.
  intros Hc Ht. rewrite ensure_eq. intros [= <- <-]. split; [|done]. by rewrite <- (prune_watched t s Hc Ht).
Qed.

(** Remembering a failure and refusing, of the account or of another. *)
Lemma follows_refuse email ip t :
  t0 <= t ->
  follows (if decide (email = e) then PhPast else PhOther) (refuse_login_steps (M := Task S) email ip t).
Proof.
  intros Ht. unfold refuse_login_steps. cbn [sbind sfail atomic task_steps tbind].
  case_decide as He; [|apply follows_await; [done|]].
  - subst email. split; [done|]. intros s r s' (_ & _ & Hw) _ _ [= <- <-]. right. split; [done|].
    eexists _, _. unfold fails, watched in *. cbn. unfold record_in. rewrite lookup_insert_eq.
    split_and!; [done..| |]; destruct (by_email (sv_attempts s) !! e) as [w|]; cbn; auto.
  - intros s r s' _ _ _ [= <- <-]. split; [|done]. unfold watched. cbn. unfold record_in.
    by rewrite lookup_insert_ne.
Qed.

Ltac follow_section s s' Hm :=
  cbn [sbind sret sfail atomic task_steps tbind]; apply follows_await; [done|];
  let r := fresh "r" in let Hc := fresh "Hc" in let Hb := fresh "Hb" in let Ht := fresh "Ht" in
  intros s r s' Hc Hb Ht Hm.

Lemma found_hash s s' f :
  counted s -> repo_or_internal (find_user_by_email e) s = (Ok f, s') ->
  exists u, f = Some u /\ au_password_hash u = h.
Proof.
  intros (Hk & (u & Hu & He & Hh) & _) (q & -> & [(x & Hx & [= ->])|(? & _ & ?)])%repo_or_internal_inv;
    [|done].
  apply find_user_by_email_law in Hx as [_ Hx]; [|done].
  destruct x as [w|]; [|by destruct (Hx i u Hu)]. destruct Hx as [Hw Hwe].
  assert (au_id w = i) as E by (destruct Hk as (_ & _ & K3 & _); eapply K3; [done..|congruence]).
  rewrite E in Hw. exists w. split; [done|congruence].
Qed.

(** A login to another account. *)
Lemma login_other input ip :
  normalize_email (li_email input) <> e -> follows PhOther (handle cfg (QLogin input ip)).
Proof.
  intros He. pose proof (follows_refuse (normalize_email (li_email input)) ip) as Href.
  rewrite decide_False in Href by done.
  cbn [handle]. unfold login_steps. follow_section s1 s2 M1.
  split; [eapply keeps_watched, M1; auto with sections|]. destruct r as [em|]; [|done].
  unfold normalised_email_or_error in M1. destruct (is_valid_email _); [|done]. injection M1 as <- <-.
  follow_section s3 s4 M2. destruct (now_timely _ _ _ Ht0 M2) as (t & -> & Hclock).
  split; [eapply keeps_watched, M2; auto with sections|].
  follow_section s5 s6 M3. destruct (ensure_watched _ _ _ _ _ _ Hc1 (proj2 Hclock) M3) as [Hw3 _].
  split; [done|]. destruct r; [|done].
  follow_section s7 s8 M4. split; [eapply keeps_watched, M4; auto with sections|].
  destruct r as [[u|]|]; [|by apply Href, Hclock|done]. case_bool_decide; [by apply Href, Hclock|].
  follow_section s9 s10 M5. split; [eapply keeps_watched, M5; auto with sections|].
  destruct r as [[]|]; [|by apply Href, Hclock|done]. cbn [negb].
  follow_section s11 s12 M6. split.
  { injection M6 as _ <-. unfold watched. cbn. by rewrite lookup_delete_ne. }
  destruct r; [|done]. apply follows_other. by_sections; apply mint_keeps.
Qed.

Lemma other_follows q : to_account q = false -> follows PhOther (handle cfg q).
Proof.
  destruct q as [input|input ip|token]; cbn [to_account]; intros Hq.
  - apply follows_other, signup_keeps.
  - apply bool_decide_eq_false in Hq. by apply login_other.
  - apply follows_other, refresh_keeps.
Qed.

(** A login to the account with a wrong password. *)
Lemma fresh_follows q :
  to_account q = true -> wrong_password q -> follows PhFresh (handle cfg q).
Proof.
  destruct q as [|input ip|]; cbn [to_account wrong_password]; [done| |done].
  intros He%bool_decide_eq_true Hpw. pose proof (follows_refuse e ip) as Href.
  rewrite decide_True in Href by done.
  cbn [handle]. unfold login_steps. follow_section s1 s2 M1.
  split; [eapply keeps_watched, M1; auto with sections|]. unfold normalised_email_or_error in M1.
  rewrite He in M1. destruct (is_valid_email _); injection M1 as <- <-; [|done].
  follow_section s3 s4 M2. destruct (now_timely _ _ _ Ht0 M2) as (t & -> & Hclock).
  split; [eapply keeps_watched, M2; auto with sections|].
  cbn [sbind atomic task_steps tbind]. split; [done|]. intros s5 r s6 Hc1 _ _ M3. left.
  destruct (ensure_watched _ _ _ _ _ _ Hc1 (proj2 Hclock) M3) as [Hw3 ->]. split; [done|].
  destruct (is_locked _ _ _) eqn:Hlock; [done|]. right. split; [done|].
  assert (fails s5 < MAX_LOGIN_FAILURES) as Hlt.
  { apply orb_false_iff in Hlock as [Hlock _]. rewrite (prune_watched _ s5 Hc1 (proj2 Hclock)) in Hlock.
    unfold fails. destruct (watched s5); cbn in *; unfold MAX_LOGIN_FAILURES in *; lia. }
  split; [done|]. follow_section s7 s8 M4. split; [eapply keeps_watched, M4; auto with sections|].
  destruct r as [f|].
  2: { apply repo_or_internal_inv in M4 as (q & -> & [(x & _ & ?)|(x & _ & [= ->])]); done. }
  destruct (found_hash _ _ _ Hc2 M4) as (u & -> & Hh).
  case_bool_decide; [by apply Href, Hclock|]. follow_section s9 s10 M5.
  split; [eapply keeps_watched, M5; auto with sections|].
  apply or_internal_inv in M5 as [-> M5]. rewrite Hh in M5.
  destruct (verify_password _ h) as [[]|]; [done| |by rewrite M5]. rewrite M5. by apply Href, Hclock.
Qed.

(** A login to the account once five failures are remembered, with any password. *)
Lemma barred_follows q :
  to_account q = true -> is_valid_email e = true -> follows PhBarred (handle cfg q).
Proof.
  destruct q as [|input ip|]; cbn [to_account]; [done| |done]. intros He%bool_decide_eq_true Hv.
  cbn [handle]. unfold login_steps. follow_section s1 s2 M1.
  split; [eapply keeps_watched, M1; auto with sections|]. unfold normalised_email_or_error in M1.
  rewrite He, Hv in M1. injection M1 as <- <-.
  follow_section s3 s4 M2. destruct (now_timely _ _ _ Ht0 M2) as (t & -> & Hclock).
  split; [eapply keeps_watched, M2; auto with sections|].
  follow_section s5 s6 M3. destruct (ensure_watched _ _ _ _ _ _ Hc1 (proj2 Hclock) M3) as [Hw3 ->].
  split; [done|].
  assert (is_locked e ip (attempts_prune (unix_timestamp t) (sv_attempts s5)) = true) as ->; [|done].
  apply orb_true_iff. left. rewrite (prune_watched _ s5 Hc1 (proj2 Hclock)).
  specialize (Hb1 eq_refl). unfold fails in Hb1. destruct (watched s5); cbn in *; [lia|done].
Qed.

(** *** The calls and their phases *)

Definition labelled (ph : Phase) (call : AuthRequest * Task S LoginOutcome) : Prop :=
  follows ph call.2 /\ (ph = PhOther <-> to_account call.1 = false) /\
  (ph = PhPast -> unanswered call = true).

#[local] Instance phase_eq_dec : EqDecision Phase.
Proof. solve_decision. Defined.

Definition in_phase (ph ph' : Phase) : bool := bool_decide (ph' = ph).

Lemma labelled_wrong ph call : labelled ph call -> wrong_answer call = in_phase PhWrong ph.
Proof.
  destruct call as [q t]. intros (Hf & Hq & Hp). unfold wrong_answer, in_phase. cbn in *.
  destruct ph; cbn in *.
  - by rewrite (proj1 Hq eq_refl).
  - destruct t as [[|[]]|]; cbn in *; by rewrite ?andb_false_r.
  - destruct t as [[|[]]|]; cbn in *; by rewrite ?andb_false_r.
  - destruct t as [[|[]]|]; cbn in *; by rewrite ?andb_false_r.
  - destruct (to_account q) eqn:E; [|by destruct Hq as [_ Hq]; specialize (Hq eq_refl)].
    destruct t as [r|]; [|by destruct Hf]. cbn in Hf. by rewrite Hf.
Qed.

Lemma labelled_past ph call :
  labelled ph call -> (Nat.b2n (in_phase PhPast ph) <= Nat.b2n (unanswered call))%nat.
Proof.
  intros (_ & _ & Hp). unfold in_phase. case_bool_decide; [|cbn; lia]. by rewrite Hp.
Qed.

(** The phase of a task whose last section has run. *)
Definition settled (ph : Phase) (t : Task S LoginOutcome) : Phase :=
  match ph, t with PhPast, Finish _ => PhFresh | _, _ => ph end.

Lemma labelled_settled ph q t :
  follows ph t -> (ph = PhOther <-> to_account q = false) -> labelled (settled ph t) (q, t).
Proof.
  intros Hf Hq. destruct ph, t; try (split_and!; [exact Hf|exact Hq|done]);
    (split_and!; [exact Hf|cbn; by rewrite <- Hq|]).
  - done.
  - intros _. unfold unanswered. cbn. destruct (to_account q); [done|].
    destruct Hq as [_ Hq]. by specialize (Hq eq_refl).
Qed.

Lemma settled_same ph t :
  (settled ph t = PhWrong <-> ph = PhWrong) /\ (settled ph t = PhBarred <-> ph = PhBarred) /\
  (settled ph t = PhOther <-> ph = PhOther) /\ (settled ph t = PhPast -> ph = PhPast).
Proof. by destruct ph, t. Qed.

(** What the next section of a call does to its phase and to the window. *)
Lemma advance_follows ph q t s t' s' :
  labelled ph (q, t) -> counted s -> (ph = PhBarred -> MAX_LOGIN_FAILURES <= fails s) ->
  timely s s' -> advance t s = (t', s') ->
  exists ph', labelled ph' (q, t') /\ (ph' = PhBarred <-> ph = PhBarred) /\
    (ph' = PhOther <-> ph = PhOther) /\
    ((watched s' = watched s /\ (ph' = PhWrong <-> ph = PhWrong) /\
      (ph' = PhPast -> ph = PhPast \/ fails s < MAX_LOGIN_FAILURES)) \/
     (ph = PhPast /\ ph' = PhWrong /\ exists w, watched s' = Some w /\ t0 <= fw_first_failure_at w /\
        fw_count w = u32_saturating_add (fails s) 1)).
Proof.
  intros (Hf & Hq & Hp) Hc Hb Ht H. destruct t as [r|X m k].
  { injection H as <- <-. exists ph. split_and!; [by split_and!|done|done|]. left. split_and!; auto. }
  cbn in Hf, H. destruct Hf as [Hne Hf], (m s) as [r s1] eqn:E. cbn [fst snd] in *.
  assert (s1 = s') as -> by (destruct r; by injection H).
  assert (forall t1, (t1, s') = (t', s') -> watched s' = watched s -> follows ph t1 -> exists ph',
    labelled ph' (q, t') /\ (ph' = PhBarred <-> ph = PhBarred) /\ (ph' = PhOther <-> ph = PhOther) /\
    watched s' = watched s /\ (ph' = PhWrong <-> ph = PhWrong) /\ (ph' = PhPast -> ph = PhPast)) as Hsame.
  { intros t1 [= ->] Hw Hf1. exists (settled ph t'). pose proof (settled_same ph t') as (? & ? & ? & ?).
    split_and!; auto using labelled_settled. }
  destruct (Hf s r s' Hc Hb Ht E) as [[Hw Hr]|(-> & w & x & -> & Hk & Hw & Hfirst & Hcount)].
  - destruct r as [x|err]; [destruct Hr as [Hr|(-> & Hlt & Hr)]|].
    + destruct (Hsame _ H Hw Hr) as (ph' & ? & ? & ? & ? & ? & ?). exists ph'. naive_solver.
    + injection H as <-. exists (settled PhPast (k x)).
      split; [apply labelled_settled; [done|]; rewrite <- Hq; by split|].
      destruct (k x); cbn; naive_solver.
    + destruct (Hsame _ H Hw Hr) as (ph' & ? & ? & ? & ? & ? & ?). exists ph'. naive_solver.
  - injection H as <-. exists PhWrong. split_and!; [|done..|].
    + rewrite Hk. split_and!; [done| |done]. cbn. rewrite <- Hq. by split.
    + right. split_and!; eauto.
Qed.

(** *** The count *)

Definition wrong_answers c : nat := count wrong_answer (cn_calls c).

(** A step within 15 minutes of [t0] that leaves at most [n] logins to the account
    unanswered. *)
Definition paced (n : nat) c c' : Prop :=
  conc_step cfg c c' /\ timely (cn_service c) (cn_service c') /\
  (count unanswered (cn_calls c') <= n)%nat.

(** The window counts the wrong answers, and there is room for the logins that are past the
    check.  The calls from position [N] on came in after the fifth wrong answer. *)
Record guesses_ok (N n : nat) c (labels : list Phase) : Prop := {
  go_calls : Forall2 labelled labels (cn_calls c);
  go_counted : counted (cn_service c);
  go_fails : fails (cn_service c) = Z.min U32_MAX (Z.of_nat (count (in_phase PhWrong) labels));
  go_bound : (count (in_phase PhWrong) labels + count (in_phase PhPast) labels <= 4 + n)%nat;
  go_barred j : labels !! j = Some PhBarred -> MAX_LOGIN_FAILURES <= fails (cn_service c);
  go_late j ph : (N <= j)%nat -> labels !! j = Some ph -> ph = PhBarred \/ ph = PhOther;
}.

Lemma wrong_labels labels calls :
  Forall2 labelled labels calls -> count wrong_answer calls = count (in_phase PhWrong) labels.
Proof.
  induction 1 as [|ph call labels calls H _ IH]; [done|]. unfold count in *.
  cbn [sum_list_with]. by rewrite IH, (labelled_wrong _ _ H).
Qed.

Lemma past_labels labels calls :
  Forall2 labelled labels calls -> (count (in_phase PhPast) labels <= count unanswered calls)%nat.
Proof.
  induction 1 as [|ph call labels calls H _ IH]; [done|]. unfold count in *.
  cbn [sum_list_with]. pose proof (labelled_past _ _ H). lia.
Qed.

Lemma counted_later s s' :
  counted s -> keys_ok (sv_repo s') -> later s s' ->
  (forall w, watched s' = Some w -> t0 <= fw_first_failure_at w) -> counted s'.
Proof.
  intros (_ & (u & Hu & He & Hh) & _) Hk (_ & Ha & _) Hw. split; [done|]. split; [|done].
  destruct (Ha i u Hu) as (u' & ? & ? & ?). exists u'. split_and!; congruence.
Qed.

Lemma same_window s s' : watched s' = watched s -> fails s' = fails s.
Proof. unfold fails. by intros ->. Qed.

(** A new call. *)
Lemma guesses_start N n c labels q :
  guesses_ok N n c labels ->
  ((length (cn_calls c) < N)%nat /\ (to_account q = true -> wrong_password q)) \/
    (MAX_LOGIN_FAILURES <= fails (cn_service c) /\ is_valid_email e = true) ->
  exists labels', guesses_ok N n (conc_start cfg q c) labels'.
Proof.
  intros [G1 G2 G3 G4 G5 G6] Hq. pose proof (Forall2_length _ _ _ G1) as Hlen.
  assert (exists ph, labelled ph (q, handle cfg q) /\ ph <> PhWrong /\ ph <> PhPast /\
    (ph = PhBarred -> MAX_LOGIN_FAILURES <= fails (cn_service c)) /\
    ((N <= length labels)%nat -> ph = PhBarred \/ ph = PhOther))
    as (ph & Hl & Hw & Hp & Hb & HN).
  { destruct (to_account q) eqn:E.
    - destruct Hq as [[Hlt Hq]|[H5 Hv]].
      + exists PhFresh. split_and!; [|done..|lia]. split_and!; [by apply fresh_follows, Hq|cbn|done].
        rewrite E. by split.
      + exists PhBarred. split_and!; [|done..|auto]. split_and!; [by apply barred_follows|cbn|done].
        rewrite E. by split.
    - exists PhOther. split_and!; [|done..|auto]. split_and!; [by apply other_follows|done|done]. }
  exists (labels ++ [ph]). split; cbn [conc_start cn_service cn_calls]; [|done|..].
  - apply Forall2_app; [done|by constructor].
  - rewrite G3, count_snoc. unfold in_phase at 3. rewrite bool_decide_eq_false_2 by done. f_equal. cbn. lia.
  - rewrite !count_snoc. unfold in_phase at 2 4. rewrite !bool_decide_eq_false_2 by done. cbn. lia.
  - intros j [Hj|[_ [_ ->]%list_lookup_singleton_Some]]%lookup_app_Some; eauto.
  - intros j ph' Hj [Hj'|[_ [? <-]%list_lookup_singleton_Some]]%lookup_app_Some; [eauto|].
    apply HN. lia.
Qed.

(** The next section of a call. *)
Lemma guesses_advance N n c labels j :
  conc_ready c -> guesses_ok N n c labels -> paced n c (conc_advance j c) ->
  exists labels', guesses_ok N n (conc_advance j c) labels'.
Proof.
  intros Hr [G1 G2 G3 G4 G5 G6] (Hc & Ht & Hn).
  destruct (ready_step cfg _ _ Hr Hc) as [[Hk _] Hlater]. unfold conc_advance in *.
  destruct (cn_calls c !! j) as [[q t]|] eqn:Hj; [|by exists labels].
  destruct (advance t (cn_service c)) as [t' s'] eqn:E. cbn [cn_service cn_calls] in *.
  destruct (Forall2_lookup_r _ _ _ _ _ G1 Hj) as (ph & Hph & Hl).
  assert (ph = PhBarred -> MAX_LOGIN_FAILURES <= fails (cn_service c)) as Hb by (intros ->; eauto).
  destruct (advance_follows _ _ _ _ _ _ Hl G2 Hb Ht E) as (ph' & Hl' & Hb' & Ho' & Hw).
  exists (<[j := ph']> labels).
  assert (Forall2 labelled (<[j:=ph']> labels) (<[j:=(q, t')]> (cn_calls c))) as G1'
    by by apply Forall2_insert.
  pose proof (past_labels _ _ G1') as Hpast.
  pose proof (count_insert (in_phase PhWrong) labels j ph ph' Hph) as Cw.
  pose proof (count_insert (in_phase PhPast) labels j ph ph' Hph) as Cp.
  unfold in_phase in Cw at 2 4. unfold in_phase in Cp at 2 4.
  assert (counted s' /\ fails (cn_service c) <= fails s' /\
    fails s' = Z.min U32_MAX (Z.of_nat (count (in_phase PhWrong) (<[j:=ph']> labels))) /\
    (count (in_phase PhWrong) (<[j:=ph']> labels) + count (in_phase PhPast) (<[j:=ph']> labels) <= 4 + n)%nat)
    as (Hcount & Hle & Hf & Hbound).
  { unfold U32_MAX, MAX_LOGIN_FAILURES in *.
    destruct Hw as [(Hw & Hwr & Hp)|(-> & -> & w & Hw & Hfirst & Hcount)].
    - rewrite (same_window _ _ Hw). rewrite (bool_decide_ext _ _ Hwr) in Cw.
      split_and!; [eapply counted_later; eauto; rewrite Hw; apply G2|lia|rewrite G3; lia|].
      destruct (decide (ph' = PhPast)) as [E'|E'].
      + destruct (Hp E') as [->|Hlt]; [|lia]. subst ph'. rewrite !bool_decide_eq_true_2 in Cp by done. lia.
      + rewrite (bool_decide_eq_false_2 (ph' = PhPast)) in Cp by done. cbn in Cp. lia.
    - rewrite (bool_decide_eq_false_2 (PhPast = _)), bool_decide_eq_true_2 in Cw by done.
      rewrite bool_decide_eq_true_2, (bool_decide_eq_false_2 (PhWrong = _)) in Cp by done.
      cbn in Cw, Cp. assert (fails s' = u32_saturating_add (fails (cn_service c)) 1) as Hfs
        by (unfold fails at 1; by rewrite Hw).
      unfold u32_saturating_add, U32_MAX in Hfs. split_and!; [eapply counted_later; eauto|lia|lia|lia].
      rewrite Hw. by intros ? [= <-]. }
  split; cbn [cn_service cn_calls]; [done..| |].
  - intros k [(<- & -> & _)|[_ Hk']]%list_lookup_insert_Some; [|specialize (G5 _ Hk'); lia].
    specialize (Hb (proj1 Hb' eq_refl)). lia.
  - intros k ph1 Hle' [(<- & -> & _)|[_ Hk']]%list_lookup_insert_Some; [|eauto].
    destruct (G6 _ _ Hle' Hph); tauto.
Qed.

Lemma guesses_step N n c c' labels :
  conc_ready c -> guesses_ok N n c labels -> paced n c c' ->
  (forall q t, cn_calls c' !! length (cn_calls c) = Some (q, t) ->
     ((length (cn_calls c) < N)%nat /\ (to_account q = true -> wrong_password q)) \/
     (MAX_LOGIN_FAILURES <= fails (cn_service c) /\ is_valid_email e = true)) ->
  exists labels', guesses_ok N n c' labels'.
Proof.
  intros Hr G Hp Hq. pose proof (proj1 Hp) as Hs. destruct Hs as [q|j|s' Ho].
  - eapply guesses_start, Hq; [done|]. cbn. by apply list_lookup_middle.
  - by eapply guesses_advance.
  - destruct (ready_step cfg _ _ Hr (proj1 Hp)) as [[Hk _] Hl]. destruct Ho as (_ & _ & _ & Ha & _).
    assert (watched s' = watched (cn_service c)) as Hw by (unfold watched; by rewrite Ha).
    destruct G as [G1 G2 G3 G4 G5 G6]. exists labels.
    split; cbn [cn_service cn_calls]; rewrite ?(same_window _ _ Hw); try done.
    eapply counted_later; eauto. rewrite Hw. apply G2.
Qed.

Lemma paced_run n c c' : rtc (paced n) c c' -> rtc (conc_step cfg) c c'.
Proof. apply rtc_subrel. by intros ? ? [? _]. Qed.

Lemma wrong_answers_step c c' : conc_step cfg c c' -> (wrong_answers c <= wrong_answers c')%nat.
Proof.
  unfold wrong_answers. destruct 1 as [q|j|s' _]; cbn [conc_start cn_calls];
    [rewrite count_snoc; lia|unfold conc_advance|done].
  destruct (cn_calls c !! j) as [[q t]|] eqn:Hj; [|done].
  destruct (advance t (cn_service c)) as [t' s'] eqn:E. cbn [cn_calls].
  pose proof (count_insert wrong_answer _ _ _ (q, t') Hj).
  destruct t as [r|]; [injection E as <- <-; lia|].
  assert (wrong_answer (q, Await m k) = false) as Hw by apply andb_false_r. rewrite Hw in H. cbn in H. lia.
Qed.

(** A run in which every login to the account has a wrong password. *)
Lemma guesses_run n c c1 labels :
  conc_ready c -> guesses_ok (length (cn_calls c1)) n c labels -> rtc (paced n) c c1 ->
  (forall j q t, cn_calls c1 !! j = Some (q, t) -> to_account q = true -> wrong_password q) ->
  exists labels', guesses_ok (length (cn_calls c1)) n c1 labels'.
Proof.
  intros Hr G Hrun Hq. revert labels G Hr. induction Hrun as [c|c c' c1 Hs Hrun IH]; intros labels G Hr; [eauto|].
  destruct (guesses_step _ _ _ _ _ Hr G Hs) as [labels' G'].
  - intros q t Hi. left. destruct (calls_stay cfg _ _ _ _ _ (paced_run _ _ _ Hrun) Hi) as [t' Ht'].
    split; [by eapply lookup_lt_Some|by eapply Hq].
  - eapply IH; [done|exact G'|]. by eapply (ready_step cfg), Hs.
Qed.

(** A run that begins with five remembered failures. *)
Lemma locked_run N n c c' labels :
  conc_ready c -> guesses_ok N n c labels -> rtc (paced n) c c' ->
  MAX_LOGIN_FAILURES <= fails (cn_service c) -> is_valid_email e = true ->
  exists labels', guesses_ok N n c' labels'.
Proof.
  intros Hr G Hrun H5 Hv. revert labels G Hr H5.
  induction Hrun as [c|c c' c2 Hs Hrun IH]; intros labels G Hr H5; [eauto|].
  destruct (guesses_step _ _ _ _ _ Hr G Hs) as [labels' G']; [auto|].
  eapply IH; [exact G'|by eapply (ready_step cfg), Hs|].
  pose proof (wrong_answers_step _ _ (proj1 Hs)) as Hle. unfold wrong_answers in Hle.
  rewrite (wrong_labels _ _ (go_calls _ _ _ _ G)), (wrong_labels _ _ (go_calls _ _ _ _ G')) in Hle.
  rewrite (go_fails _ _ _ _ G) in H5. rewrite (go_fails _ _ _ _ G'). unfold MAX_LOGIN_FAILURES in *. lia.
Qed.

Lemma guesses_begin N n s u :
  keys_ok (sv_repo s) -> users_of (sv_repo s) !! i = Some u -> au_email u = e ->
  au_password_hash u = h -> watched s = None -> guesses_ok N n (mkConc s []) [].
Proof.
  intros Hk Hu He Hh Hw. split; cbn [cn_service cn_calls]; [done| | |cbn; lia|done|done].
  - split_and!; [done|eauto|]. rewrite Hw. done.
  - unfold fails. by rewrite Hw.
Qed.
End Guesses.
