(* ===== verification/AuthProps.v ===== *)
(** * AuthProps: the correctness theorems of signing up, logging in and refreshing

    First executable instances for the witnesses: ASCII character classes, counted
    identifiers, a clock that advances one second per reading, and "hashes" that keep
    their input; the repository is the PostgreSQL one on
    the sample database.  Then the theorems, and behaviours that contradict the
    intent of the service. *)
From stdpp Require Import relations pretty.
From S2P Require Import Prelude Proto Numeric Database Settlement SettleProps.
From S2P Require Import ApiBase Reserves ReservesProps AuthBase Auth AuthPg AuthInv.
From S2P Require Import AuthTokens AuthConc.

#[export] Instance ascii_chars : UnicodeChars := {|
  chars := codes;
  is_lowercase c := ((97 <=? c) && (c <=? 122))%N;
  is_uppercase c := ((65 <=? c) && (c <=? 90))%N;
  is_alphanumeric := is_alnum;
|}.

#[export] Instance numbered : UuidSource := {| new_v4 n := N.of_nat (500 + n) |}.

Lemma numbered_inj : Inj (=) (=) (new_v4 (UuidSource := numbered)).
Proof. intros x y H. cbn in H. lia. Qed.

Definition second : Z := 10 ^ 9.

#[export] Instance slow_clock : ClockSource := {| clock_now n := Z.of_nat n * second |}.

#[export] Instance plain_crates : AuthCrates := {|
  argon2_hash _ _ w := Some w;
  argon2_verify _ w h := bool_decide (h = w);
  argon2_params _ := true;
  phc_parses _ := true;
  os_salt _ := "";
  os_bytes n := [Z.of_nat n];
  base64_url l := z_text (default 0 (head l));
  encode_access _ _ := Some "jwt";
  encode_mfa _ _ := Some "mfa";
  unix_timestamp t := t / second;
  checked_add_seconds t n := Some (t + n * second);
|}.

#[export] Instance plain_crates_laws : AuthCratesLaws.
Proof.
  split; [done|]. intros p salt w h [= <-]. split; [done|]. by apply bool_decide_eq_true.
Qed.

#[export] Existing Instance last_bytes.

Definition config : TokenConfig := mkTokenConfig "secret" 900 300 2592000.

Abbreviation Store := (PgAuthRepository (WireEvent Z)).

Definition start : Service Store :=
  mkService (mkPgAuth (sample_db []) ∅ ∅ []) (mkLoginAttempts ∅ ∅) 0 0 0.

Lemma start_ok : service_ok start.
Proof.
  assert (forall i, pg_users (sv_repo start) !! i = None) as Hu.
  { intros i. rewrite pg_users_lookup. cbn. by destruct (_ !! i). }
  split; [split_and!|split]; cbn; intros *; rewrite ?Hu, ?lookup_empty; done.
Qed.

(** Both repositories before anyone has signed up. *)
Example memory_starts_as_postgres : mirrors (mkMemory ∅ ∅ ∅) (sv_repo start).
Proof.
  assert (forall i, pg_users (sv_repo start) !! i = None) as Hu.
  { intros i. rewrite pg_users_lookup. cbn. by destruct (_ !! i). }
  split; cbn.
  - apply map_eq. intros i. by rewrite lookup_empty, Hu.
  - intros e i. rewrite Hu, lookup_empty. split; [done|by intros (? & ? & _)].
  - intros h t. rewrite !lookup_empty. split; [done|by intros [? _]].
  - intros i. rewrite lookup_empty. by intros [? ?].
  - done.
  - apply start_ok.
Qed.

Definition carol : SignupInput := mkSignupInput " Carol@Example.com " "Tr0ub4dor&3xyz".
Definition carol_login (password : string) : LoginInput := mkLoginInput "carol@example.COM" password.

Definition run {A} (m : AuthM A) (s : Service Store) : Service Store := (m s).2.
Definition value {A} (m : AuthM A) (s : Service Store) : option A :=
  match (m s).1 with Ok a => Some a | Err _ => None end.

(** Carol has signed up. *)
Definition signed_up : Service Store := run (signup config carol) start.

Definition token_after (m : AuthM TokenPair) (s : Service Store) : string :=
  match value m s with Some minted => tp_refresh_token minted | None => "" end.
Definition first_token : string := token_after (signup config carol) start.

Definition refreshed : Service Store := run (refresh config first_token) signed_up.
Definition second_token : string := token_after (refresh config first_token) signed_up.

Example carol_has_zero_balances :
  balances_of (sv_repo signed_up) !! (500%N, btc) = Some (mkBalance 0 0).
Proof. vm_compute. reflexivity. Qed.

Example carol_logs_in :
  exists minted, (login config (carol_login "Tr0ub4dor&3xyz") "10.0.0.1" signed_up).1
    = Ok (Tokens minted).
Proof. eexists. vm_compute. reflexivity. Qed.

Example second_token_works : exists minted,
  (refresh config second_token refreshed).1 = Ok minted.
Proof. eexists. vm_compute. reflexivity. Qed.

Example reuse_kills_the_family :
  let reused := run (refresh config first_token) refreshed in
  (refresh config first_token refreshed).1 = Err AeTokenInvalid /\
  (refresh config second_token reused).1 = Err AeTokenInvalid.
Proof. vm_compute. by split. Qed.

(** * The theorems of signing up, logging in and refreshing *)

(** C27. Refresh tokens work once.  Start in a state with unique keys and at most one live
    token in every session family, whose identifiers are never drawn again.  (1) Let
    requests of any kind run at the same time, each stopped and resumed between any two of
    its statements, while other parts of the API change the store in between ([outside]:
    they keep keys unique, and revive and remove no token): once a refresh has been
    answered with new tokens, no refresh with the same token that comes in after that
    answer is ever answered with tokens.  For requests that come in one after the other,
    whichever of their statements fail, also (2) no session family ever has two live
    tokens, and (3) when a token that is no longer live is presented and refused as
    invalid, its whole family is dead from then on: no token of it is ever accepted, the
    newest included.  (When the statement that ends the family fails, the answer is
    INTERNAL instead, and the family is not ended.)  Two refreshes with one token that
    overlap can both be answered with tokens: [refresh_race]. *)
Theorem refresh_tokens_work_once {S : Type} {repo : AuthRepository S} {views : AuthViews S}
    {laws : AuthRepositoryLaws S} {ac : AuthCrates} {hops : HashOps} {uc : UnicodeChars}
    {us : UuidSource} {ck : ClockSource} (cfg : TokenConfig) (s : Service S) :
  Inj (=) (=) new_v4 -> service_ok s ->
  (forall tok c1 c2 i j o r,
     rtc (conc_step cfg) (mkConc s []) c1 -> cn_calls c1 !! i = Some (QRefresh tok, Finish (Ok o)) ->
     rtc (conc_step cfg) c1 c2 -> (length (cn_calls c1) <= j)%nat ->
     cn_calls c2 !! j = Some (QRefresh tok, Finish r) -> forall o', r <> Ok o') /\
  (forall s', rtc (request cfg) s s' -> service_ok s') /\
  (forall tok i t s1 s2 tok' j t' minted' s3,
     tokens_of (sv_repo s) !! i = Some t -> rt_token_hash t = hash_refresh_token tok -> ~ live t ->
     refresh cfg tok s = (Err AeTokenInvalid, s1) -> rtc (request cfg) s1 s2 ->
     tokens_of (sv_repo s2) !! j = Some t' -> rt_token_hash t' = hash_refresh_token tok' ->
     rt_family_id t' = rt_family_id t ->
     refresh cfg tok' s2 <> (Ok minted', s3)).
Proof.
  intros Hinj Hs. split_and!.
  - intros tok c1 c2 i j o r Hrun1 Hi Hrun2 Hj Hf o' ->.
    destruct (ready_run cfg _ _ (ready_begin s (proj1 Hs)) Hrun1) as [Hr1 _].
    pose proof (exchanged_is_spent cfg s c1 tok i o (proj1 Hs) Hrun1 Hi) as Hspent.
    by apply (spent_is_refused cfg c1 c2 tok j (Ok o') Hr1 Hspent Hrun2 Hj).
  - intros s'. by apply requests_ok.
  - intros tok i t s1 s2 tok' j t' minted' s3 Hi Hh Hl Hr Hrun Hj Hh' Hf Hr'.
    pose proof (request_ok cfg _ _ Hs (RRefresh _ _ _ _ _ Hr)) as Hs1.
    destruct (tok_drawn _ _ (proj2 Hs) i t Hi) as (k & Hk & Hfk).
    destruct (request_is_step cfg _ _ (proj1 Hs) (RRefresh _ _ _ _ _ Hr)) as (Hn & _).
    eapply refresh_reuse in Hr as [[? _]|[_ [time Ht]]]; [done| |apply Hs|done|done|];
      [|destruct (rt_revoked_at t) eqn:E; [by eexists|by destruct Hl]].
    assert (dead (new_v4 k) (tokens_of (sv_repo s1))) as Hd.
    { rewrite Ht. intros m w Hw Hwf. unfold revoke_family_in in Hw. rewrite lookup_fmap in Hw.
      destruct (tokens_of (sv_repo s) !! m); [|done]. injection Hw as <-.
      case_decide as Hd; [apply revoke_not_live|congruence]. }
    apply (requests_dead cfg _ _ k Hs1 Hrun ltac:(lia) Hd j t' Hj); [congruence|].
    eapply refresh_needs_live; [by eapply requests_ok|done..].
Qed.



(** ** Witnesses *)

Lemma signed_up_ok : service_ok signed_up.
Proof.
  eapply (request_ok (Hinj := numbered_inj) config start); [exact start_ok|].
  eapply RSignup, surjective_pairing.
Qed.

(** Call number [i] with nothing in between; no operation has more than 14 sections. *)
Definition alone (i : nat) (q : AuthRequest) : list ConcEvent := EvStart q :: replicate 14 (EvAdvance i).

Definition schedule (c : Conc (S := Store)) (evs : list ConcEvent) : Conc := foldl (conc_do config) c evs.

(** Carol's first refresh token is exchanged, and comes in again. *)
Lemma refresh_tokens_work_once_witness :
  let c1 := schedule (mkConc signed_up []) (alone 0 (QRefresh first_token)) in
  let c2 := schedule c1 (alone 1 (QRefresh first_token)) in
  exists r, cn_calls c2 !! 1%nat = Some (QRefresh first_token, Finish r) /\ forall o, r <> Ok o.
Proof.
  cbv zeta. set (c1 := schedule (mkConc signed_up []) (alone 0 (QRefresh first_token))).
  set (c2 := schedule c1 (alone 1 (QRefresh first_token))).
  assert (exists o, answers c1 !! 0%nat = Some (QRefresh first_token, Some (Ok o))) as [o Ho]
    by (eexists; vm_compute; reflexivity).
  assert (exists r, answers c2 !! 1%nat = Some (QRefresh first_token, Some r)) as [r Hr]
    by (eexists; vm_compute; reflexivity).
  exists r. split; [exact (answered _ _ _ _ Hr)|].
  destruct (refresh_tokens_work_once config signed_up numbered_inj signed_up_ok) as [Honce _].
  apply (Honce first_token c1 c2 0%nat 1%nat o r).
  - apply schedule_run.
  - exact (answered _ _ _ _ Ho).
  - apply schedule_run.
  - vm_compute. reflexivity.
  - exact (answered _ _ _ _ Hr).
Defined.

Definition guess (n : nat) : AuthRequest := QLogin (carol_login (pretty n)) "10.0.0.1".
Definition carols : string := "carol@example.com".

(** Whether a schedule stays within the 900 readings of [slow_clock] in 15 minutes, and
    within [n] unanswered logins to Carol's account. *)
Fixpoint within (n : nat) (c : Conc (S := Store)) (evs : list ConcEvent) : bool :=
  match evs with
  | [] => true
  | ev :: evs =>
      let c' := conc_do config c ev in
      (sv_clock (cn_service c') <=? 900)%nat && (count (unanswered carols) (cn_calls c') <=? n)%nat &&
      within n c' evs
  end.

Lemma within_paced n (c : Conc (S := Store)) evs :
  within n c evs = true -> rtc (paced config carols 0 n) c (schedule c evs).
Proof.
  revert c. induction evs as [|ev evs IH]; intros c H; [apply rtc_refl|].
  apply andb_prop in H as [[Hc%Nat.leb_le Hn%Nat.leb_le]%andb_prop H].
  eapply rtc_l; [|apply IH, H]. split; [apply conc_do_step|]. split; [|done].
  intros k Hk. unfold unix_timestamp, clock_now, plain_crates, slow_clock, LOGIN_WINDOW_SECONDS.
  rewrite Z.div_mul by done. lia.
Qed.



(** * Behaviours of the auth service that contradict its intent *)

Definition live_tokens (s : Service Store) : nat :=
  length (filter (fun t => rt_revoked_at t = None) (map_to_list (tokens_of (sv_repo s))).*2).

(** Two requests with one refresh token at the same time: the second looks the token up
    before the first has revoked it.  Both are answered with new tokens, and the family has
    two live ones. *)
Lemma refresh_race :
  let q := QRefresh first_token in
  let c := schedule (mkConc signed_up [])
    ([EvStart q; EvStart q; EvAdvance 0; EvAdvance 1] ++ replicate 9 (EvAdvance 0) ++
     replicate 9 (EvAdvance 1)) in
  exists o o', answers c = [(q, Some (Ok o)); (q, Some (Ok o'))] /\
    live_tokens (cn_service c) = 2%nat.
Proof. cbv zeta. eexists _, _. split; vm_compute; reflexivity. Qed.

(** Twenty guesses at the same time: all pass the check of the lock before the first of
    them is remembered, and twenty passwords are compared. *)
Lemma guess_race :
  let ids := seq 0 20 in
  let c := schedule (mkConc signed_up []) ((EvStart ∘ guess <$> ids) ++
    (ids ≫= (fun i => replicate 3 (EvAdvance i))) ++ (ids ≫= (fun i => replicate 3 (EvAdvance i)))) in
  wrong_answers carols c = 20%nat.
Proof. vm_compute. reflexivity. Qed.

(** A login to one's own account clears the failures of the address, so the limit per
    address never stops guesses at many accounts that are mixed with such logins. *)
Lemma own_login_clears_address :
  let guess n := run (login config (mkLoginInput (String.append "user" (String.append (pretty n) "@example.com")) "guess") "10.0.0.1") in
  let four s := guess 4%N (guess 3%N (guess 2%N (guess 1%N s))) in
  let s := run (login config (carol_login "Tr0ub4dor&3xyz") "10.0.0.1") (four signed_up) in
  by_ip (sv_attempts s) !! "10.0.0.1" = None.
Proof. vm_compute. reflexivity. Qed.
