(* ===== verification/Http.v ===== *)
(** * Http: requests, responses and the identity of the caller

    The parts of axum's [Request] and [Response] the middleware of
    [services/api/src] looks at, the extractors [extractors/auth.rs] and
    [extractors/api_caller.rs], and what they use of the standard library: string
    prefixes, the text of an [i64], UTF-8.  Decoding a JSON web token is a parameter. *)
From Stdlib Require Import Ascii.
From stdpp Require Import pretty.
From S2P Require Import Prelude ApiBase AuthBase.

#[local] Open Scope string_scope.

(** ** Standard library *)

(** [str::strip_prefix]. *)
Fixpoint strip_prefix (p s : string) : option string :=
  match p, s with
  | EmptyString, _ => Some s
  | String c p, String c' s => if ascii_dec c c' then strip_prefix p s else None
  | String _ _, EmptyString => None
  end.

Definition starts_with (p s : string) : bool := bool_decide (is_Some (strip_prefix p s)).

(** [str::contains]. *)
Fixpoint contains (p s : string) : bool :=
  starts_with p s || match s with String _ s => contains p s | EmptyString => false end.

(** [i64::to_string]. *)
Definition i64_text (n : Z) : string := pretty n.

Definition digit (c : ascii) : option Z :=
  let n := (Z.of_N (N_of_ascii c) - 48)%Z in
  if (0 <=? n)%Z && (n <=? 9)%Z then Some n else None.

Fixpoint digits (acc : Z) (s : string) : option Z :=
  match s with
  | EmptyString => Some acc
  | String c s => match digit c with Some d => digits (acc * 10 + d) s | None => None end
  end.

Definition i64_range (n : Z) : option Z :=
  if (- 2 ^ 63 <=? n)%Z && (n <? 2 ^ 63)%Z then Some n else None.

(** [str::parse::<i64>]: a sign and at least one digit. *)
Definition parse_i64 (s : string) : option Z :=
  match s with
  | EmptyString | String "+" EmptyString | String "-" EmptyString => None
  | String "+" s => digits 0 s ≫= i64_range
  | String "-" s => digits 0 s ≫= fun n => i64_range (- n)
  | _ => digits 0 s ≫= i64_range
  end%char.

(** *** Printing a number and parsing it again *)

Lemma digit_pretty x : (x < 10)%N -> digit (pretty_N_char x) = Some (Z.of_N x).
Proof.
  intros H. assert (x = 0 \/ x = 1 \/ x = 2 \/ x = 3 \/ x = 4 \/ x = 5 \/ x = 6 \/ x = 7 \/
    x = 8 \/ x = 9)%N as Hx by lia.
  by repeat destruct Hx as [->|Hx]; [..|subst x].
Qed.

Lemma digits_go x s : digits 0 (pretty_N_go x s) = digits (Z.of_N x) s.
Proof.
  revert s. induction (N.lt_wf_0 x) as [x _ IH]. intros s.
  destruct (decide (x = 0%N)) as [->|Hx]; [by rewrite pretty_N_go_0|].
  rewrite pretty_N_go_step, IH by (try apply N.div_lt; lia). cbn [digits].
  rewrite digit_pretty by (by apply N.mod_lt). f_equal.
  rewrite (N.div_mod x 10) at 3 by done. lia.
Qed.

Lemma digits_pretty (x : N) : digits 0 (pretty x) = Some (Z.of_N x).
Proof.
  unfold pretty, pretty_N. case_decide as Hx; [by subst|]. by rewrite digits_go.
Qed.

(** No sign in front: every character is a digit. *)
Lemma parse_digits s n : s <> "" -> digits 0 s = Some n -> parse_i64 s = i64_range n.
Proof.
  intros Hs Hd. destruct s as [|c s]; [done|].
  assert (digit "+"%char = None /\ digit "-"%char = None) as [Hp Hm] by done.
  destruct (ascii_dec c "+"%char) as [->|Hc1]; [cbn [digits] in Hd; by rewrite Hp in Hd|].
  destruct (ascii_dec c "-"%char) as [->|Hc2]; [cbn [digits] in Hd; by rewrite Hm in Hd|].
  assert (parse_i64 (String c s) = digits 0 (String c s) ≫= i64_range) as ->.
  { destruct c as [[] [] [] [] [] [] [] []]; try reflexivity; done. }
  by rewrite Hd.
Qed.

Lemma parse_minus s : s <> "" ->
  parse_i64 (String "-"%char s) = digits 0 s ≫= fun n => i64_range (- n).
Proof. by destruct s. Qed.

Lemma pretty_N_nonempty (x : N) : pretty x <> "".
Proof. intros H. pose proof (digits_pretty x) as Hd. rewrite H in Hd. cbn in Hd.
  assert (x = 0%N) as -> by (injection Hd; lia). done. Qed.

Lemma parse_i64_text n : (- 2 ^ 63 <= n < 2 ^ 63)%Z -> parse_i64 (i64_text n) = Some n.
Proof.
  intros Hn. assert (i64_range n = Some n) as Hr.
  { unfold i64_range. destruct (_ && _) eqn:E; [done|]. lia. }
  destruct n as [|p|p].
  - done.
  - change (i64_text (Z.pos p)) with (pretty (N.pos p)). rewrite (parse_digits _ (Z.of_N (Npos p))); [done|apply pretty_N_nonempty|apply digits_pretty].
  - change (i64_text (Z.neg p)) with (String "-"%char (pretty (N.pos p))).
    rewrite parse_minus by apply pretty_N_nonempty. rewrite digits_pretty. exact Hr.
Qed.

Definition continuation (c : N) : bool := ((128 <=? c) && (c <=? 191))%N.

(** [std::str::from_utf8]: the well-formed byte sequences of the Unicode standard. *)
Fixpoint utf8 (l : list N) : bool :=
  match l with
  | [] => true
  | c :: r =>
    if (c <? 128)%N then utf8 r else
    match r with
    | c1 :: r1 =>
      if ((194 <=? c) && (c <=? 223))%N then continuation c1 && utf8 r1 else
      match r1 with
      | c2 :: r2 =>
        if ((224 <=? c) && (c <=? 239))%N then
          ((if c =? 224 then 160 else 128) <=? c1)%N &&
          (c1 <=? (if c =? 237 then 159 else 191))%N && continuation c2 && utf8 r2
        else
        match r2 with
        | c3 :: r3 =>
            ((240 <=? c) && (c <=? 244))%N &&
            ((if c =? 240 then 144 else 128) <=? c1)%N &&
            (c1 <=? (if c =? 244 then 143 else 191))%N &&
            continuation c2 && continuation c3 && utf8 r3
        | [] => false
        end
      | [] => false
      end
    | [] => false
    end
  end.

Definition from_utf8 (s : string) : option string := if utf8 (codes s) then Some s else None.

(** ** Requests and responses *)

Record HmacCaller := mkHmacCaller {
  hc_user_id : Uuid; hc_key_id : Uuid; hc_permissions : list string }.

(** Header names are lower case; a value is [None] where [HeaderValue::to_str] refuses it.
    The body is [None] when reading it fails. *)
Record Request := mkRequest {
  rq_method : string;
  rq_path : string;
  rq_path_and_query : option string;
  rq_headers : list (string * option string);
  rq_body : option string;
  rq_context : option Uuid;
  rq_hmac : option HmacCaller;
}.

Definition with_hmac (c : HmacCaller) (r : Request) : Request :=
  mkRequest (rq_method r) (rq_path r) (rq_path_and_query r) (rq_headers r) (rq_body r)
    (rq_context r) (Some c).

(** [HeaderMap::get]: the first value. *)
Definition header (name : string) (r : Request) : option (option string) :=
  snd <$> head (filter (fun h => h.1 = name) (rq_headers r)).

(** [headers().get(name).and_then(|v| v.to_str().ok())]. *)
Definition header_str (r : Request) (name : string) : option string := mjoin (header name r).

Definition contains_key (name : string) (r : Request) : bool :=
  bool_decide (is_Some (header name r)).

(** A response with the body [B] of a handler or the envelope of an error. *)
Record Response (B : Type) := mkResponse {
  rs_status : nat; rs_headers : gmap string string; rs_body : ApiError + B }.
Arguments mkResponse {B}.
Arguments rs_status {B} _.
Arguments rs_headers {B} _.
Arguments rs_body {B} _.

(** [ApiError::into_response]: a missing request id is the nil one. *)
Definition into_response {B} (e : ApiError) : Response B :=
  mkResponse (ae_status e) ∅
    (inl (with_request_id (default 0%N (ae_request_id e)) e)).

Definition insert_header {B} (name value : string) (r : Response B) : Response B :=
  mkResponse (rs_status r) (<[name := value]> (rs_headers r)) (rs_body r).

(** ** The caller *)

Class JwtDecode := {
  (** [jsonwebtoken::decode] with HS256 and this secret; with its signature and expiry
      checks switched off. *)
  decode_access : string -> string -> option AccessClaims;
  decode_unchecked : string -> string -> option AccessClaims;
}.

Record AuthenticatedUser := mkAuthenticatedUser {
  us_user_id : Uuid; us_kyc_level : Z; us_session_id : Uuid }.

Record ApiCaller := mkApiCaller {
  cl_user_id : Uuid; cl_kyc_level : Z; cl_session_id : Uuid; cl_is_hmac : bool;
  cl_hmac_permissions : list string }.

Section Caller.
Context {jwt : JwtDecode}.

Definition decode_access_token (config : TokenConfig) (token : string)
    : result TokenError AccessClaims :=
  match decode_access (jwt_secret config) token with
  | Some claims => Ok claims
  | None => Err TeJwt
  end.

(** [TokenError]'s [Display]. *)
Definition token_error_text (e : TokenError) : string :=
  match e with TeJwt => "jwt error" | TeExpiryOverflow => "token expiry overflow" end.

Definition from_claims (claims : AccessClaims) : AuthenticatedUser :=
  mkAuthenticatedUser (ac_sub claims) (ac_kyc claims) (ac_sid claims).

Definition bearer_token (r : Request) : option string :=
  match header_str r "authorization" ≫= strip_prefix "Bearer " with
  | Some value => let token := trim value in
      if bool_decide (token = "") then None else Some token
  | None => None
  end.

Definition token_rejection (e : TokenError) : ApiError :=
  if contains "expired" (map_string ascii_lower (token_error_text e))
  then api_error 401 TokenExpired "Access token has expired"
  else api_error 401 TokenInvalid "Access token is invalid".

(** [AuthenticatedUser::from_request_parts]. *)
Definition authenticated_user (config : TokenConfig) (r : Request)
    : result ApiError AuthenticatedUser :=
  match bearer_token r with
  | None => Err (api_error 401 TokenInvalid "Missing or malformed Authorization header")
  | Some raw =>
      match decode_access_token config raw with
      | Ok claims => Ok (from_claims claims)
      | Err e => Err (token_rejection e)
      end
  end.

Definition has_bearer (r : Request) : bool :=
  match header_str r "authorization" with
  | Some v => starts_with "Bearer " v
  | None => false
  end.

(** [ApiCaller::from_request_parts]. *)
Definition api_caller (config : TokenConfig) (r : Request) : result ApiError ApiCaller :=
  if has_bearer r then
    res_map (fun user => mkApiCaller (us_user_id user) (us_kyc_level user)
                           (us_session_id user) false [])
      (authenticated_user config r)
  else match rq_hmac r with
  | Some hmac => Ok (mkApiCaller (hc_user_id hmac) 0 (hc_key_id hmac) true
                       (hc_permissions hmac))
  | None => Err (api_error 401 TokenInvalid
                   "Authentication required (Bearer token or HMAC headers)")
  end.
End Caller.
