(* ===== verification/RateLimit.v ===== *)
(** * Redis and the rate limiter

    The commands the API sends to Redis, and [rate_limit.rs] on top of them: the Lua
    script, the tiers and their keys, and the middleware.

    Redis is a server of its own: [RedisOps] lists the commands the code sends,
    [RedisLaws] what their documentation says of them.  [zset r k] is the sorted set
    stored at the key [k], [string_key r k] says that a string is stored there and
    [deadline r k] when the server drops the key, on the server's clock [redis_now], in
    milliseconds.  [redis_wait r d] is the server [d] milliseconds later.  A connection
    may lose a command or its reply. *)
From Stdlib Require Import Ascii.
From stdpp Require Import pretty.
From S2P Require Import Prelude Decimal Database ApiBase Reserves AuthBase Http.

Class RedisOps (R : Type) := {
  (** [ZREMRANGEBYSCORE key -inf max]. *)
  zremrangebyscore : R -> string -> Z -> R;
  zcard : R -> string -> Z;
  (** [ZADD key score member]. *)
  zadd : R -> string -> Z -> string -> R;
  (** [PEXPIRE key milliseconds]. *)
  pexpire : R -> string -> Z -> R;
  (** [SET key value NX EX seconds]: whether the key was set. *)
  set_nx_ex : R -> string -> string -> Z -> bool * R;
  redis_wait : R -> Z -> R;
}.

Class RedisViews (R : Type) := {
  zset : R -> string -> gmap string Z;
  string_key : R -> string -> bool;
  deadline : R -> string -> option Z;
  redis_now : R -> Z;
}.

(** Nothing happens to the other keys or to the clock. *)
Definition only_key {R} {v : RedisViews R} (k : string) (r r' : R) : Prop :=
  redis_now r' = redis_now r /\
  forall k', k' <> k ->
    zset r' k' = zset r k' /\ string_key r' k' = string_key r k' /\
    deadline r' k' = deadline r k'.

Lemma only_key_trans {R} {v : RedisViews R} k (r1 r2 r3 : R) :
  only_key k r1 r2 -> only_key k r2 r3 -> only_key k r1 r3.
Proof.
  intros [H1 H1'] [H2 H2']. split; [by rewrite H2|]. intros k' Hk.
  destruct (H1' k' Hk) as (<- & <- & <-). by apply H2'.
Qed.

(** The key is still there at the instant [t]. *)
Definition alive {R} {v : RedisViews R} (r : R) (k : string) (t : Z) : Prop :=
  match deadline r k with Some d => t < d | None => True end.

#[export] Instance alive_dec {R} {v : RedisViews R} (r : R) k t : Decision (alive r k t).
Proof. unfold alive. destruct (deadline r k); apply _. Defined.

Class RedisLaws (R : Type) {ops : RedisOps R} {views : RedisViews R} := {
  zrem_only r k m : only_key k r (zremrangebyscore r k m);
  zrem_zset r k m :
    zset (zremrangebyscore r k m) k = filter (fun ms => m < ms.2) (zset r k);
  zcard_size r k : zcard r k = Z.of_nat (size (zset r k));
  zadd_only r k s m : only_key k r (zadd r k s m);
  zadd_zset r k s m : zset (zadd r k s m) k = <[m := s]> (zset r k);
  pexpire_only r k d : only_key k r (pexpire r k d);
  pexpire_zset r k d : zset (pexpire r k d) k = zset r k;
  pexpire_deadline r k d :
    zset r k <> ∅ -> deadline (pexpire r k d) k = Some (redis_now r + d);
  zrem_deadline r k m :
    zset (zremrangebyscore r k m) k <> ∅ -> deadline (zremrangebyscore r k m) k = deadline r k;
  set_only r k v s : only_key k r (set_nx_ex r k v s).2;
  set_answer r k v s : (set_nx_ex r k v s).1 = negb (string_key r k);
  set_present r k v s : string_key (set_nx_ex r k v s).2 k = true;
  set_deadline r k v s : string_key r k = false ->
    deadline (set_nx_ex r k v s).2 k = Some (redis_now r + s * 1000);
  set_kept r k v s : string_key r k = true -> (set_nx_ex r k v s).2 = r;
  wait_now r d : 0 <= d -> redis_now (redis_wait r d) = redis_now r + d;
  wait_alive r d k : 0 <= d -> alive r k (redis_now r + d) ->
    zset (redis_wait r d) k = zset r k /\ string_key (redis_wait r d) k = string_key r k /\
    deadline (redis_wait r d) k = deadline r k;
  (** Waiting creates nothing. *)
  wait_dead r d k : 0 <= d -> ~ alive r k (redis_now r + d) -> zset (redis_wait r d) k = ∅;
}.

(** ** Connections *)

Inductive Delivery := Delivered | ReplyLost | CommandLost.

(** The server and the fate of the next commands; when the list is at its end they are
    delivered. *)
Record Connection (R : Type) := mkConnection { cn_server : R; cn_fates : list Delivery }.
Arguments mkConnection {R}.
Arguments cn_server {R} _.
Arguments cn_fates {R} _.

(** One command: its reply, or [None] for an error. *)
Definition send_command {R A} (cmd : R -> A * R) (c : Connection R) : option A * Connection R :=
  let '(a, r) := cmd (cn_server c) in
  match cn_fates c with
  | [] => (Some a, mkConnection r [])
  | Delivered :: fs => (Some a, mkConnection r fs)
  | ReplyLost :: fs => (None, mkConnection r fs)
  | CommandLost :: fs => (None, mkConnection (cn_server c) fs)
  end.

(** * A small Redis

    An executable instance of the commands, with the laws: the stored keys, when each
    expires, and the clock. *)

Inductive Stored := StoredString | StoredSet (s : gmap string Z).

Record MiniRedis := mkMini {
  mr_now : Z; mr_keys : gmap string Stored; mr_deadlines : gmap string Z }.

Definition set_at (r : MiniRedis) (k : string) : gmap string Z :=
  match mr_keys r !! k with Some (StoredSet s) => s | _ => ∅ end.

(** Storing an empty set deletes the key. *)
Definition store_set (k : string) (s : gmap string Z) (r : MiniRedis) : MiniRedis :=
  if decide (s = ∅)
  then mkMini (mr_now r) (match mr_keys r !! k with
                          | Some StoredString => mr_keys r
                          | _ => delete k (mr_keys r) end) (mr_deadlines r)
  else mkMini (mr_now r) (<[k := StoredSet s]> (mr_keys r)) (mr_deadlines r).

Definition is_string (r : MiniRedis) (k : string) : bool :=
  match mr_keys r !! k with Some StoredString => true | _ => false end.

Definition kept (now : Z) (deadline : option Z) : bool :=
  match deadline with Some t => now <? t | None => true end.

#[export] Instance mini_redis : RedisOps MiniRedis := {|
  zremrangebyscore r k m := store_set k (filter (fun ms => m < ms.2) (set_at r k)) r;
  zcard r k := Z.of_nat (size (set_at r k));
  zadd r k s m := store_set k (<[m := s]> (set_at r k)) r;
  pexpire r k d := mkMini (mr_now r) (mr_keys r) (<[k := mr_now r + d]> (mr_deadlines r));
  set_nx_ex r k _ s :=
    if is_string r k then (false, r)
    else (true, mkMini (mr_now r) (<[k := StoredString]> (mr_keys r))
                  (<[k := mr_now r + s * 1000]> (mr_deadlines r)));
  redis_wait r d :=
    let now := mr_now r + d in
    mkMini now
      (filter (fun ks => kept now (mr_deadlines r !! ks.1) = true) (mr_keys r))
      (mr_deadlines r);
|}.

#[export] Instance mini_views : RedisViews MiniRedis := {|
  zset := set_at;
  string_key := is_string;
  deadline r k := mr_deadlines r !! k;
  redis_now := mr_now;
|}.

Lemma store_set_only k s r : only_key k r (store_set k s r).
Proof.
  unfold store_set. split; [by case_decide|]. intros k' Hk. cbn.
  case_decide; unfold set_at, is_string; cbn; [|by rewrite lookup_insert_ne].
  destruct (mr_keys r !! k) as [[]|]; rewrite ?lookup_delete_ne by done; done.
Qed.

Lemma store_set_at k s r : set_at (store_set k s r) k = s.
Proof.
  unfold store_set, set_at. case_decide as Hs; cbn; [|by rewrite lookup_insert_eq].
  destruct (mr_keys r !! k) as [[]|] eqn:E; rewrite ?lookup_delete_eq, ?E; done.
Qed.

Lemma mini_wait_key r d k :
  mr_keys (redis_wait r d) !! k =
  match mr_deadlines r !! k with
  | Some t => if decide (mr_now r + d < t) then mr_keys r !! k else None
  | None => mr_keys r !! k
  end.
Proof.
  cbn. rewrite map_lookup_filter. unfold kept.
  destruct (mr_keys r !! k) as [x|], (mr_deadlines r !! k) as [t|] eqn:E; cbn;
    repeat (case_decide || case_guard); cbn in *; rewrite ?E, ?Z.ltb_lt in *; done.
Qed.

#[export] Instance mini_laws : RedisLaws MiniRedis.
Proof.
  split; intros *; unfold alive.
  - apply store_set_only.
  - apply store_set_at.
  - done.
  - apply store_set_only.
  - apply store_set_at.
  - split; [done|]. intros k' Hk. cbn. by rewrite lookup_insert_ne.
  - done.
  - intros _. cbn. by rewrite lookup_insert_eq.
  - intros _. cbn. unfold store_set. by case_decide.
  - cbn. destruct (is_string r k); [done|]. split; [done|]. intros k' Hk. cbn.
    unfold set_at, is_string. cbn. by rewrite !lookup_insert_ne.
  - cbn. by destruct (is_string r k).
  - cbn. destruct (is_string r k) eqn:E; [done|]. unfold is_string. cbn.
    by rewrite lookup_insert_eq.
  - cbn. intros E. rewrite E. cbn. by rewrite lookup_insert_eq.
  - cbn. intros E. by rewrite E.
  - done.
  - intros _ H. cbn [zset string_key deadline mini_views redis_now] in *.
    assert (mr_keys (redis_wait r d) !! k = mr_keys r !! k) as E.
    { rewrite mini_wait_key. destruct (mr_deadlines r !! k); [|done]. by rewrite decide_True. }
    unfold set_at, is_string. by rewrite E.
  - intros _ H. cbn [zset deadline mini_views redis_now] in *. unfold set_at.
    rewrite mini_wait_key. destruct (mr_deadlines r !! k); [|done]. by rewrite decide_False.
Qed.

(** * The rate limiter of [services/api/src/rate_limit.rs]

    The Lua script is [sliding_window], one atomic command of Redis; numbers of a script
    are doubles, which count milliseconds exactly up to [2^53].  [rate_limit_middleware]
    wraps the inner service [next], which gets the state of the gateway and leaves one. *)

#[local] Open Scope string_scope.

Record RateLimitOutcome := mkOutcome {
  ro_allowed : bool; ro_limit : Z; ro_remaining : Z; ro_reset_at : Z }.

Definition I64_MAX : Z := 2 ^ 63 - 1.

(** [i64::try_from(x).unwrap_or(i64::MAX)] of an unsigned number. *)
Definition i64_or_max (n : Z) : Z := if (n <=? I64_MAX)%Z then n else I64_MAX.

(** [SystemTime::now().duration_since(UNIX_EPOCH)] in milliseconds, [None] when the clock
    stands before 1970. *)
Definition chrono_now_ms (since_epoch : option Z) : Z :=
  match since_epoch with Some ms => i64_or_max ms | None => 0 end.

(** [u32::saturating_sub] and [u32::try_from]. *)
Definition u32_saturating_sub (n m : Z) : Z := Z.max 0 (n - m).
Definition u32_or_zero (n : Z) : Z := if ((0 <=? n) && (n <? 2 ^ 32))%Z then n else 0%Z.

Definition window_reset (now_ms window_ms : Z) : Z :=
  Z.quot (i64_or_max (now_ms + i64_or_max window_ms)) 1000.

(** The gateway: Redis, if there is one, the identifiers drawn and the state of the rest. *)
Record Gateway (R S : Type) := mkGateway {
  gw_redis : option (Connection R); gw_uuids : nat; gw_inner : S }.
Arguments mkGateway {R S}.
Arguments gw_redis {R S} _.
Arguments gw_uuids {R S} _.
Arguments gw_inner {R S} _.

Section RateLimit.
Context {R S D B : Type} {ops : RedisOps R} {us : UuidSource} {tops : TextOps D}
  {jwt : JwtDecode}.
Abbreviation Gateway := (Gateway R S).

(** [SLIDING_WINDOW_SCRIPT]. *)
Definition sliding_window (key : string) (now window limit : Z) (member : string) (r : R)
    : (Z * Z) * R :=
  let r := zremrangebyscore r key (now - window) in
  let count := zcard r key in
  if (limit <=? count)%Z then ((count, 0%Z), r)
  else ((count + 1, 1)%Z, pexpire (zadd r key now member) key (window + 1000)).

Definition fail_open (limit now_ms window_ms : Z) : RateLimitOutcome :=
  mkOutcome true limit (u32_saturating_sub limit 1) (window_reset now_ms window_ms).

(** It never returns an error. *)
Definition check_rate_limit (key : string) (limit window_ms now_ms : Z) (g : Gateway)
    : result ApiError RateLimitOutcome * Gateway :=
  match gw_redis g with
  | None => (Ok (fail_open limit now_ms window_ms), g)
  | Some conn =>
      let member := uuid_text (new_v4 (gw_uuids g)) in
      let '(reply, conn) :=
        send_command (sliding_window key now_ms window_ms limit member) conn in
      let g := mkGateway (Some conn) (Datatypes.S (gw_uuids g)) (gw_inner g) in
      match reply with
      | None => (Ok (fail_open limit now_ms window_ms), g)
      | Some (count, was_added) =>
          let allowed := (was_added =? 1)%Z in
          (Ok (mkOutcome allowed limit
                 (if allowed then u32_or_zero (limit - count) else 0)
                 (window_reset now_ms window_ms)), g)
      end
  end.

Definition apply_rate_limit_headers (o : RateLimitOutcome) (r : Response B) : Response B :=
  insert_header "x-ratelimit-reset" (i64_text (ro_reset_at o))
    (insert_header "x-ratelimit-remaining" (i64_text (ro_remaining o))
      (insert_header "x-ratelimit-limit" (i64_text (ro_limit o)) r)).

(** The user named by an access token, whoever signed it. *)
Definition extract_user_key (config : TokenConfig) (request : Request) : option string :=
  match header_str request "authorization" ≫= strip_prefix "Bearer " with
  | Some value =>
      (fun claims => uuid_text (ac_sub claims)) <$>
      decode_unchecked (jwt_secret config) (trim value)
  | None => None
  end.

(** [v.split(',').next()], trimmed. *)
Definition extract_ip (request : Request) : string :=
  match header_str request "x-forwarded-for" with
  | Some v =>
      let first := trim (of_codes (split_at 44 (codes v)).1) in
      if bool_decide (first = "") then "unknown" else first
  | None => "unknown"
  end.

(** [i64] division; the windows are positive. *)
Definition window_bucket (now_ms window_ms : Z) : Z := Z.quot now_ms window_ms.

Definition classify_request (config : TokenConfig) (request : Request) (now_ms : Z)
    : Z * Z * string :=
  let ip := extract_ip request in
  let path := rq_path request in
  if starts_with "/api/v1/auth/" path then (10, 15 * 60 * 1000, "rl:auth:" ++ ip)%Z
  else
  let bucket := i64_text (window_bucket now_ms 60000) in
  let user_key := extract_user_key config request in
  if starts_with "/api/v1/orders" path then
    match user_key with
    | None => (30, 60000, "rl:orders:ip:" ++ ip ++ ":" ++ bucket)%Z
    | Some uid => (60, 60000, "rl:orders:user:" ++ uid ++ ":" ++ bucket)%Z
    end
  else
    match user_key with
    | None => (30, 60000, "rl:read:ip:" ++ ip ++ ":" ++ bucket)%Z
    | Some uid => (600, 60000, "rl:read:user:" ++ uid ++ ":" ++ bucket)%Z
    end.

Definition too_many_requests (request : Request) (o : RateLimitOutcome) : Response B :=
  let request_id := default 0%N (rq_context request) in
  insert_header "retry-after" (i64_text (ro_reset_at o))
    (apply_rate_limit_headers o
      (into_response (with_request_id request_id
        (api_error 429 RateLimited "Rate limit exceeded")))).

Definition rate_limit_middleware (config : TokenConfig)
    (next : Request -> Gateway -> Response B * Gateway) (since_epoch : option Z)
    (request : Request) (g : Gateway) : Response B * Gateway :=
  let now_ms := chrono_now_ms since_epoch in
  let '(limit, window_ms, rl_key) := classify_request config request now_ms in
  match check_rate_limit rl_key limit window_ms now_ms g with
  | (Ok outcome, g) =>
      if negb (ro_allowed outcome) then (too_many_requests request outcome, g)
      else let '(response, g) := next request g in (apply_rate_limit_headers outcome response, g)
  | (Err _, g) => next request g
  end.
End RateLimit.
