(* ===== verification/RateProps.v ===== *)
(** * RateProps: the limiter admits exactly what a sliding-window log would

    [sliding_log] is the specification: a list of the instants of the admitted requests,
    of which those younger than the window count.  [visits] is a run of the limiter on
    one Redis, for any keys, with time passing in between; [window_ok] relates the sorted
    set of one key to the log of that key. *)
From stdpp Require Import pretty.
From S2P Require Import Prelude Decimal ApiBase Reserves ReservesProps AuthBase Http.
From S2P Require Import RateLimit.

(** ** The specification *)

Definition recent (cut : Z) (l : list Z) : list Z := filter (fun t => cut < t) l.

(** What the limiter answers: whether the request is admitted and how many are left. *)
Fixpoint sliding_log (limit window : Z) (admitted : list Z) (nows : list Z)
    : list (bool * Z) :=
  match nows with
  | [] => []
  | now :: nows =>
      let n := Z.of_nat (length (recent (now - window) admitted)) in
      if limit <=? n then (false, 0) :: sliding_log limit window admitted nows
      else (true, limit - n - 1) :: sliding_log limit window (now :: admitted) nows
  end.

(** The instants admitted by a run. *)
Definition admitted_at (nows : list Z) (answers : list (bool * Z)) : list Z :=
  concat (zip_with (fun now (a : bool * Z) => if a.1 then [now] else []) nows answers).

Lemma recent_recent c c' l : c <= c' -> recent c' (recent c l) = recent c' l.
Proof.
  intros Hc. unfold recent. induction l as [|t l IH]; [done|].
  rewrite !filter_cons. repeat case_decide; rewrite ?filter_cons; repeat case_decide;
    try lia; by rewrite IH.
Qed.

#[export] Instance recent_Permutation c : Proper ((≡ₚ) ==> (≡ₚ)) (recent c).
Proof. intros l l' Hl. unfold recent. by rewrite Hl. Qed.

Lemma recent_nil c l : Forall (fun t => t <= c) l -> recent c l = [].
Proof. induction 1; [done|]. unfold recent in *. rewrite filter_cons_False by lia. done. Qed.

(** How many instants of [l] lie in the window that ends at [tau]. *)
Definition in_window (window tau : Z) (l : list Z) : nat :=
  length (filter (fun t => tau - window < t <= tau) l).

Lemma in_window_le window tau l cut :
  cut <= tau - window -> (in_window window tau l <= length (recent cut l))%nat.
Proof.
  intros Hc. unfold in_window, recent. induction l as [|t l IH]; [done|].
  rewrite !filter_cons. repeat case_decide; cbn; lia.
Qed.

(** No window of the log ever holds more than the limit. *)
Lemma sliding_log_bound limit window admitted nows tau :
  (forall tau, Z.of_nat (in_window window tau admitted) <= limit) ->
  Z.of_nat (in_window window tau
    (admitted_at nows (sliding_log limit window admitted nows) ++ admitted)) <= limit.
Proof.
  revert admitted. induction nows as [|now nows IH]; intros A HB; [apply HB|].
  cbn [sliding_log]. case_match eqn:E.
  - unfold admitted_at. cbn. by apply IH.
  - assert (admitted_at (now :: nows) ((true, limit - Z.of_nat (length (recent (now - window) A)) - 1)
      :: sliding_log limit window (now :: A) nows) =
      now :: admitted_at nows (sliding_log limit window (now :: A) nows)) as -> by done.
    set (more := admitted_at _ _).
    assert (in_window window tau ((now :: more) ++ A) = in_window window tau (more ++ now :: A))
      as ->.
    { unfold in_window. apply Permutation_length. apply filter_Permutation.
      cbn. apply Permutation_middle. }
    apply IH. intros tau'. unfold in_window. rewrite filter_cons. case_decide; [|apply HB].
    cbn. apply Z.leb_gt in E.
    pose proof (in_window_le window tau' A (now - window)) as Hw. unfold in_window in Hw. lia.
Qed.

Lemma scores_filter c (m : gmap string Z) :
  (map_to_list (filter (fun ms => c < ms.2) m)).*2 ≡ₚ recent c (map_to_list m).*2.
Proof.
  induction m as [|k t m Hk IH] using map_ind; [done|].
  rewrite (map_to_list_insert m) by done. unfold recent in *. rewrite fmap_cons, filter_cons.
  cbn. case_decide.
  - rewrite map_filter_insert_True by done.
    rewrite map_to_list_insert by (apply map_lookup_filter_None; auto).
    cbn. by rewrite IH.
  - rewrite map_filter_insert_not' by naive_solver. done.
Qed.

(** ** Runs of the limiter *)

(** Time passes, then a request is checked. *)
Record Visit := mkVisit {
  vi_wait : Z; vi_key : string; vi_limit : Z; vi_window : Z; vi_now : Z }.

Section Visits.
Context {R S D : Type} {ops : RedisOps R} {views : RedisViews R} {laws : RedisLaws R}.
Context {us : UuidSource} {tops : TextOps D}.
Abbreviation Gateway := (Gateway R S).

Definition gw_wait (d : Z) (g : Gateway) : Gateway :=
  mkGateway ((fun c => mkConnection (redis_wait (cn_server c) d) (cn_fates c)) <$> gw_redis g)
    (gw_uuids g) (gw_inner g).

Definition visit (v : Visit) (g : Gateway) : result ApiError RateLimitOutcome * Gateway :=
  check_rate_limit (D := D) (vi_key v) (vi_limit v) (vi_window v) (vi_now v)
    (gw_wait (vi_wait v) g).

Definition answer (r : result ApiError RateLimitOutcome) : bool * Z :=
  match r with Ok o => (ro_allowed o, ro_remaining o) | Err _ => (false, 0) end.

(** The answers to the requests under the key [k]. *)
Fixpoint answers (k : string) (vs : list Visit) (g : Gateway) : list (bool * Z) :=
  match vs with
  | [] => []
  | v :: vs =>
      let '(r, g) := visit v g in
      if bool_decide (vi_key v = k) then answer r :: answers k vs g else answers k vs g
  end.

Definition instants (k : string) (vs : list Visit) : list Z :=
  vi_now <$> filter (fun v => vi_key v = k) vs.

(** The clocks of the API and of Redis agree within half a second; [last] is the last
    instant read for the key [k]. *)
Fixpoint clocks_agree (k : string) (last : Z) (vs : list Visit) (redis : Z) : Prop :=
  match vs with
  | [] => True
  | v :: vs =>
      0 <= vi_wait v /\ Z.abs (redis + vi_wait v - vi_now v) < 500 /\
      (vi_key v = k -> last <= vi_now v) /\
      clocks_agree k (if bool_decide (vi_key v = k) then vi_now v else last) vs
        (redis + vi_wait v)
  end.

Definition scores (r : R) (k : string) : list Z := (map_to_list (zset r k)).*2.

(** The sorted set of [k] against the log [A] whose last request came at [last]: beyond a
    cut that no later window reaches they agree, and the key outlives its entries. *)
Record window_ok (k : string) (window last : Z) (A : list Z) (n : nat) (r : R) : Prop := {
  wo_cut : exists cut, cut <= Z.max last (redis_now r - 500) - window /\
    recent cut (scores r k) ≡ₚ recent cut A;
  wo_last : Forall (fun t => t <= last) A;
  wo_deadline : zset r k <> ∅ -> exists d, deadline r k = Some d /\
    Forall (fun t => t + window + 500 < d) A;
  wo_fresh : forall m, is_Some (zset r k !! m) ->
    exists i, (i < n)%nat /\ m = uuid_text (new_v4 i);
}.

Lemma window_ok_mono k window last last' A n n' r :
  last <= last' -> (n <= n')%nat -> window_ok k window last A n r -> window_ok k window last' A n' r.
Proof.
  intros Hl Hn [(cut & Hc & HA) HL HD HF]. split; [|by eapply Forall_impl; [exact HL|]; cbn; lia|done|].
  - exists cut. split; [lia|done].
  - intros m Hm. destruct (HF m Hm) as (i & ? & ->). exists i. split; [lia|done].
Qed.

(** Requests under other keys leave the key alone. *)
Lemma window_ok_only k k' window last A n r r' :
  only_key k' r r' -> k <> k' -> window_ok k window last A n r -> window_ok k window last A n r'.
Proof.
  intros [Hn Hk] Hne [HC HL HD HF]. destruct (Hk k Hne) as (Hz & _ & Hd).
  split; unfold scores in *; rewrite ?Hn, ?Hz, ?Hd; done.
Qed.

Lemma window_ok_wait k window last A n r d :
  0 <= d -> window_ok k window last A n r -> window_ok k window last A n (redis_wait r d).
Proof.
  intros Hd [(cut & Hc & HA) HL HD HF].
  destruct (decide (alive r k (redis_now r + d))) as [Hal|Hdead].
  - destruct (wait_alive r d k Hd Hal) as (Hz & _ & Hdl).
    split; unfold scores; rewrite ?Hz, ?Hdl, ?wait_now by done; try done.
    exists cut. split; [lia|done].
  - pose proof (wait_dead r d k Hd Hdead) as Hz.
    split; unfold scores; rewrite ?Hz, ?wait_now by done; [|done|done|].
    + destruct (decide (zset r k = ∅)) as [He|He].
      * exists cut. split; [lia|]. rewrite <-HA. unfold scores. by rewrite He.
      * destruct (HD He) as (dl & Edl & Hall).
        exists (redis_now r + d - 500 - window). split; [lia|].
        rewrite map_to_list_empty. cbn. rewrite (recent_nil _ A); [done|].
        unfold alive in Hdead. rewrite Edl in Hdead.
        eapply Forall_impl; [exact Hall|]. cbn. lia.
    + intros m [? Hm]. by rewrite lookup_empty in Hm.
Qed.

(** What the script does to the key of the request. *)
Lemma sliding_window_ok k window limit last now A n r :
  Inj (=) (=) new_v4 -> Inj (=) (=) (uuid_text (D := D)) ->
  window_ok k window last A n r -> last <= now -> Z.abs (redis_now r - now) < 500 ->
  let c := Z.of_nat (length (recent (now - window) A)) in
  let '(reply, r') := sliding_window k now window limit (uuid_text (new_v4 n)) r in
  if limit <=? c then reply = (c, 0) /\ window_ok k window now A (Datatypes.S n) r'
  else reply = (c + 1, 1) /\ window_ok k window now (now :: A) (Datatypes.S n) r'.
Proof.
  intros Hi1 Hi2 [(cut & Hc & HA) HL HD HF] Hln Hclock c.
  unfold sliding_window.
  set (r1 := zremrangebyscore r k (now - window)).
  assert (recent (now - window) (scores r k) ≡ₚ recent (now - window) A) as HA'.
  { rewrite <-(recent_recent cut _ (scores r k)), <-(recent_recent cut _ A) by lia.
    by rewrite HA. }
  assert (zset r1 k = filter (fun ms => now - window < ms.2) (zset r k)) as Hz1
    by apply zrem_zset.
  assert (scores r1 k ≡ₚ recent (now - window) A) as Hs1.
  { unfold scores. by rewrite Hz1, scores_filter. }
  assert (zcard r1 k = c) as ->.
  { rewrite zcard_size, <-length_map_to_list. unfold c. rewrite <-Hs1.
    unfold scores. by rewrite length_fmap. }
  assert (redis_now r1 = redis_now r) as Hn1 by apply (zrem_only r k).
  assert (forall m, is_Some (zset r1 k !! m) ->
    exists i, (i < n)%nat /\ m = uuid_text (new_v4 i)) as HF1.
  { intros m. rewrite Hz1. intros [t Ht%map_lookup_filter_Some]. apply HF. naive_solver. }
  assert (recent (now - window) (scores r1 k) ≡ₚ recent (now - window) A) as HR.
  { rewrite Hs1. by rewrite recent_recent. }
  destruct (limit <=? c); cbn beta iota.
  - split; [done|]. split.
    + exists (now - window). split; [lia|done].
    + eapply Forall_impl; [exact HL|]. cbn. lia.
    + intros Hne. unfold r1. rewrite zrem_deadline by done. apply HD. intros E.
      apply Hne. by rewrite Hz1, E.
    + intros m Hm. destruct (HF1 m Hm) as (i & ? & ->). exists i. split; [lia|done].
  - split; [done|].
    assert (zset r1 k !! uuid_text (new_v4 n) = None) as Hfresh.
    { destruct (zset r1 k !! _) eqn:E; [|done].
      destruct (HF1 _ ltac:(by eexists)) as (i & ? & Ei). apply Hi2, Hi1 in Ei. lia. }
    set (r2 := zadd r1 k now _).
    assert (zset r2 k = <[uuid_text (new_v4 n) := now]> (zset r1 k)) as Hz2 by apply zadd_zset.
    assert (redis_now r2 = redis_now r) as Hn2 by (rewrite <-Hn1; apply (zadd_only r1 k)).
    assert (redis_now (pexpire r2 k (window + 1000)) = redis_now r) as Hn3
      by (rewrite <-Hn2; apply (pexpire_only r2 k)).
    split.
    + exists (now - window). split; [lia|].
      unfold scores. rewrite pexpire_zset, Hz2, map_to_list_insert by done.
      unfold recent in *. rewrite fmap_cons, !filter_cons. cbn.
      case_decide; [|done]. by rewrite HR.
    + constructor; [lia|]. eapply Forall_impl; [exact HL|]. cbn. lia.
    + intros _. exists (redis_now r2 + (window + 1000)).
      rewrite pexpire_deadline by (rewrite Hz2; apply insert_non_empty).
      split; [done|]. rewrite Hn2. constructor; [lia|].
      eapply Forall_impl; [exact HL|]. cbn. lia.
    + intros m. rewrite pexpire_zset, Hz2.
      destruct (decide (m = uuid_text (new_v4 n))) as [->|Hne]; [by exists n; auto|].
      rewrite lookup_insert_ne by done. intros Hm.
      destruct (HF1 m Hm) as (i & ? & ->). exists i. split; [lia|done].
Qed.

(** The script touches one key. *)
Lemma sliding_window_only k now window limit m r :
  only_key k r (sliding_window k now window limit m r).2.
Proof.
  unfold sliding_window. case_match; cbn; [apply zrem_only|].
  eapply only_key_trans; [apply zrem_only|].
  eapply only_key_trans; [apply zadd_only|]. apply pexpire_only.
Qed.
End Visits.

(** * The correctness of the rate limiter, and where it does not limit *)

Section Props.
Context {R S D : Type} {ops : RedisOps R} {views : RedisViews R} {laws : RedisLaws R}.
Context {us : UuidSource} {tops : TextOps D}.
Context {ids_inj : Inj (=) (=) new_v4} {text_inj : Inj (=) (=) (uuid_text (D := D))}.
Abbreviation Gateway := (Gateway R S).

(** One check under the key [k], and under another key. *)
Lemma visit_same k limit window last A v (g : Gateway) r :
  gw_redis g = Some (mkConnection r []) -> window_ok (D := D) k window last A (gw_uuids g) r ->
  vi_key v = k -> vi_limit v = limit -> vi_window v = window -> 0 <= limit < 2 ^ 32 ->
  0 <= vi_wait v -> Z.abs (redis_now r + vi_wait v - vi_now v) < 500 -> last <= vi_now v ->
  let c := Z.of_nat (length (recent (vi_now v - window) A)) in
  exists A' r', visit (D := D) v g =
      ((visit (D := D) v g).1, mkGateway (Some (mkConnection r' [])) (Datatypes.S (gw_uuids g)) (gw_inner g)) /\
    window_ok (D := D) k window (vi_now v) A' (Datatypes.S (gw_uuids g)) r' /\
    redis_now r' = redis_now r + vi_wait v /\
    (if limit <=? c then answer (visit (D := D) v g).1 = (false, 0) /\ A' = A
     else answer (visit (D := D) v g).1 = (true, limit - c - 1) /\ A' = vi_now v :: A).
Proof.
  destruct g as [[conn|] n inner]; [|done]. intros [= ->] Hok <- <- <- Hl Hw Hc Hlast c.
  cbn [gw_uuids gw_inner] in *.
  apply (window_ok_wait _ _ _ _ _ _ (vi_wait v)) in Hok; [|done].
  unfold visit, check_rate_limit, gw_wait. cbn [gw_redis gw_uuids gw_inner fmap option_fmap option_map cn_server cn_fates].
  unfold send_command. cbn [cn_server cn_fates].
  pose proof (sliding_window_ok (vi_key v) (vi_window v) (vi_limit v) last (vi_now v) A n _
    ids_inj text_inj Hok Hlast) as Hs.
  rewrite wait_now in Hs by done. specialize (Hs Hc). cbv zeta in Hs. fold c in Hs.
  pose proof (sliding_window_only (vi_key v) (vi_now v) (vi_window v) (vi_limit v)
    (uuid_text (new_v4 n)) (redis_wait r (vi_wait v))) as [Hnow _].
  rewrite wait_now in Hnow by done.
  destruct (sliding_window _ _ _ _ _ _) as [[count added] r'] eqn:E. cbn [fst snd] in *.
  destruct (vi_limit v <=? c) eqn:Elim; destruct Hs as [[= -> ->] Hok'];
    eexists _, r'; (split; [reflexivity|]); (split; [exact Hok'|]); (split; [done|]); cbn.
  - done.
  - split; [|done]. apply Z.leb_gt in Elim. unfold u32_or_zero.
    rewrite (proj2 (andb_true_iff _ _)); [f_equal; lia|].
    split; [apply Z.leb_le|apply Z.ltb_lt]; lia.
Qed.

Lemma visit_other k window last A v (g : Gateway) r :
  gw_redis g = Some (mkConnection r []) -> window_ok (D := D) k window last A (gw_uuids g) r ->
  vi_key v <> k -> 0 <= vi_wait v ->
  exists r', visit (D := D) v g =
      ((visit (D := D) v g).1, mkGateway (Some (mkConnection r' [])) (Datatypes.S (gw_uuids g)) (gw_inner g)) /\
    window_ok (D := D) k window last A (Datatypes.S (gw_uuids g)) r' /\
    redis_now r' = redis_now r + vi_wait v.
Proof.
  destruct g as [[conn|] n inner]; [|done]. intros [= ->] Hok Hk Hw.
  cbn [gw_uuids gw_inner] in *.
  apply (window_ok_wait _ _ _ _ _ _ (vi_wait v)) in Hok; [|done].
  unfold visit, check_rate_limit, gw_wait. cbn [gw_redis gw_uuids gw_inner fmap option_fmap option_map cn_server cn_fates].
  unfold send_command. cbn [cn_server cn_fates].
  pose proof (sliding_window_only (vi_key v) (vi_now v) (vi_window v) (vi_limit v)
    (uuid_text (new_v4 n)) (redis_wait r (vi_wait v))) as Honly.
  destruct (sliding_window _ _ _ _ _ _) as [[count added] r'] eqn:E. cbn [fst snd] in *.
  exists r'. split; [reflexivity|]. split.
  - eapply window_ok_mono; [done| |by eapply window_ok_only]. lia.
  - destruct Honly as [-> _]. by apply wait_now.
Qed.

Lemma answers_log k limit window vs : forall last A (g : Gateway) r,
  gw_redis g = Some (mkConnection r []) -> window_ok (D := D) k window last A (gw_uuids g) r ->
  0 <= limit < 2 ^ 32 ->
  Forall (fun v => vi_key v = k -> vi_limit v = limit /\ vi_window v = window) vs ->
  clocks_agree k last vs (redis_now r) ->
  answers (D := D) k vs g = sliding_log limit window A (instants k vs).
Proof.
  induction vs as [|v vs IH]; intros last A g r Hg Hok Hl Hvs Hclock; [done|].
  apply Forall_cons in Hvs as [Hv Hvs].
  cbn [clocks_agree] in Hclock. destruct Hclock as (Hw & Hc & Hlast & Hclock).
  cbn [answers]. unfold instants. rewrite filter_cons.
  destruct (decide (vi_key v = k)) as [Hk|Hk].
  - rewrite bool_decide_eq_true_2 in Hclock by done. rewrite bool_decide_eq_true_2 by done.
    destruct (Hv Hk) as [Hlim Hwin].
    destruct (visit_same k limit window last A v g r) as (A' & r' & E & Hok' & Hnow & HA); [auto..|].
    rewrite E. cbn [fst snd]. rewrite <-Hnow in Hclock.
    erewrite (IH (vi_now v) A'); [|reflexivity|exact Hok'|done..].
    rewrite fmap_cons. cbn [sliding_log].
    case_match; destruct HA as [-> ->]; done.
  - rewrite bool_decide_eq_false_2 in Hclock by done. rewrite bool_decide_eq_false_2 by done.
    destruct (visit_other k window last A v g r) as (r' & E & Hok' & Hnow); [auto..|].
    rewrite E. rewrite <-Hnow in Hclock. by apply (IH last A _ r').
Qed.
End Props.

(** C34. The limiter is a sliding window: whatever else uses the same Redis in between, the
    requests checked under one key with one limit and window are answered exactly as a
    log of the admitted instants would answer them, with the number of requests left, as
    long as the clocks of the API and of Redis agree within half a second and Redis
    answers.  In particular no stretch of time as long as the window ever sees more
    admitted requests than the limit, although Redis forgets the key when it expires. *)
Theorem limiter_is_sliding_window {R S D} {ops : RedisOps R} {views : RedisViews R}
    {laws : RedisLaws R} {us : UuidSource} {tops : TextOps D}
    (Hids : Inj (=) (=) new_v4) (Htext : Inj (=) (=) (uuid_text (D := D)))
    k limit window last (vs : list Visit) (r : R) n (inner : S) :
  zset r k = ∅ -> 0 <= limit < 2 ^ 32 ->
  Forall (fun v => vi_key v = k -> vi_limit v = limit /\ vi_window v = window) vs ->
  clocks_agree k last vs (redis_now r) ->
  let out := answers (D := D) k vs (mkGateway (Some (mkConnection r [])) n inner) in
  out = sliding_log limit window [] (instants k vs) /\
  forall tau, Z.of_nat (in_window window tau (admitted_at (instants k vs) out)) <= limit.
Proof.
  intros Hz Hl Hvs Hclock out.
  assert (out = sliding_log limit window [] (instants k vs)) as ->.
  { eapply answers_log; [reflexivity| |done|done|exact Hclock]. split; [|done| |].
    - exists (last - window). split; [lia|]. unfold scores. by rewrite Hz.
    - by rewrite Hz.
    - rewrite Hz. intros m [? Hm]. by rewrite lookup_empty in Hm. }
  split; [done|]. intros tau.
  pose proof (sliding_log_bound limit window [] (instants k vs) tau) as Hb.
  rewrite app_nil_r in Hb. apply Hb. intros tau'. cbn. lia.
Qed.

#[local] Existing Instances bit_texts.
#[local] Instance counted : UuidSource := {| new_v4 n := N.of_nat n |}.

Lemma counted_inj : Inj (=) (=) (new_v4 (UuidSource := counted)).
Proof. intros x y H. cbn in H. lia. Qed.

Lemma bit_uuid_inj : Inj (=) (=) (uuid_text (D := Z)).
Proof. intros x y. apply (uuid_text_inj (TextLaws := bit_laws)). Qed.

(** Two a second apart, one under another key, one refused, one after the window. *)
Definition sample_visits : list Visit :=
  [mkVisit 0 "a" 2 60000 1000; mkVisit 1000 "b" 5 60000 2000; mkVisit 0 "a" 2 60000 2100;
   mkVisit 900 "a" 2 60000 3000; mkVisit 59000 "a" 2 60000 62000].

Definition quiet : MiniRedis := mkMini 1000 ∅ ∅.

Example limiter_is_sliding_window_witness :
  answers (D := Z) "a" sample_visits (mkGateway (Some (mkConnection quiet [])) 0 ()) =
    [(true, 1); (true, 0); (false, 0); (true, 0)] /\
  (let out := answers (D := Z) "a" sample_visits (mkGateway (Some (mkConnection quiet [])) 0 ()) in
   out = sliding_log 2 60000 [] (instants "a" sample_visits) /\
   forall tau, Z.of_nat (in_window 60000 tau (admitted_at (instants "a" sample_visits) out)) <= 2).
Proof.
  split; [vm_compute; reflexivity|].
  apply (limiter_is_sliding_window (D := Z) counted_inj bit_uuid_inj "a" 2 60000 0 sample_visits
    quiet 0 ()).
  - reflexivity.
  - lia.
  - repeat constructor; done.
  - vm_compute. repeat split; intros; try discriminate.
Defined.

(** ** Findings *)

Definition plain_request (path : string) (headers : list (string * option string)) : Request :=
  mkRequest "POST" path (Some path) headers None None None.

(** Signature or not, the token names victim 7. *)
#[local] Instance any_token : JwtDecode := {|
  decode_access _ _ := None;
  decode_unchecked _ t :=
    if bool_decide (t = "forged") then Some (mkAccessClaims 7 0 0 0 0 0) else None;
|}.

Definition no_secret : TokenConfig := mkTokenConfig "secret" 900 300 2592000.

Definition classify (path : string) (headers : list (string * option string)) (now : Z) :=
  classify_request (D := Z) no_secret (plain_request path headers) now.

(** The API nests its routes under [/api/v1], and axum removes the prefix of a nested
    router before its layers run: the limiter sees [/auth/login] and [/orders], which are
    in the tier of read requests. *)
Example nested_auth_is_a_read :
  (classify "/api/v1/auth/login" [] 0).1 = (10, 900000) /\
  (classify "/auth/login" [] 0).1 = (30, 60000) /\
  (classify "/orders" [] 0).1 = (30, 60000).
Proof. vm_compute. by split_and!. Qed.

(** The bucket in the key starts a new window every minute: sixty requests of one address
    are admitted within a millisecond. *)
Example buckets_double_the_limit :
  let '(limit, window, k1) := classify "/markets" [] 59999 in
  let '(_, _, k2) := classify "/markets" [] 60000 in
  let vs := replicate 30 (mkVisit 0 k1 limit window 59999) ++
            replicate 30 (mkVisit 0 k2 limit window 60000) in
  let g := mkGateway (Some (mkConnection (mkMini 60000 ∅ ∅) [])) 0 () in
  k1 <> k2 /\ forallb fst (answers (D := Z) k1 vs g ++ answers (D := Z) k2 vs g) = true.
Proof. vm_compute. split; congruence. Qed.

(** The user is read from a token nobody has checked. *)
Example forged_token_takes_the_victims_bucket :
  authenticated_user no_secret (plain_request "/orders" [("authorization", Some "Bearer forged")])
    = Err (api_error 401 TokenInvalid "Access token is invalid") /\
  (classify "/orders" [("authorization", Some "Bearer forged")] 0).1.1 = 600 /\
  extract_user_key (D := Z) no_secret
    (plain_request "/orders" [("authorization", Some "Bearer forged")]) =
  Some (uuid_text (D := Z) 7%N).
Proof. vm_compute. by split_and!. Qed.

(** [retry-after] is a number of seconds to wait; the limiter sends a point in time. *)
Example retry_after_is_a_date :
  rs_headers (too_many_requests (B := ()) (plain_request "/markets" [])
    (mkOutcome false 30 0 1767225600)) !! "retry-after" = Some "1767225600".
Proof. vm_compute. reflexivity. Qed.

(** The text of a token error never says "expired": an expired token is reported as an
    invalid one. *)
Lemma expired_tokens_are_invalid (config : TokenConfig) r e :
  authenticated_user config r = Err e -> ae_code e = TokenInvalid.
Proof.
  unfold authenticated_user. destruct (bearer_token r) as [t|]; [|by intros [= <-]].
  unfold decode_access_token. destruct (decode_access _ t); [done|].
  by intros [= <-].
Qed.
