(* ===== verification/ApiKeys.v ===== *)
(** * ApiKeys: the keys that sign requests

    The API-key statements of [services/api/src/repositories/account.rs] on the table
    [api_keys], and the handlers of [handlers/api_keys.rs].  Secrets are stored encrypted
    by the pgcrypto extension ([Pgcrypto]); identifiers of rows come from
    [gen_random_uuid].  [ks_faults] says which of the next statements fail because the
    database cannot be reached.  Instants are those of the database's clock; their text
    in a response is left out. *)
From S2P Require Import Prelude Database ApiBase AuthBase.

#[local] Open Scope string_scope.

Record ApiKeyTab := mkApiKeyTab {
  kt_user_id : Uuid; kt_label : string; kt_secret_hash : string;
  kt_permissions : list string; kt_revoked_at : option Z; kt_created_at : Z }.

Record ApiKeyRow := mkApiKeyRow {
  kr_id : Uuid; kr_user_id : Uuid; kr_label : string; kr_permissions : list string;
  kr_created_at : Z }.

Class Pgcrypto := {
  (** [pgp_sym_encrypt(data, key)]; every call encrypts differently. *)
  pgp_sym_encrypt : nat -> string -> string -> string;
  pgp_sym_decrypt : string -> string -> option string;
}.
Class PgcryptoLaws {pc : Pgcrypto} := {
  pgp_roundtrip n data key : pgp_sym_decrypt (pgp_sym_encrypt n data key) key = Some data;
}.

(** [gen_random_uuid()]: the [n]th identifier the database generates. *)
Class PgUuids := gen_random_uuid : nat -> Uuid.

Record KeyStore := mkKeyStore {
  ks_keys : gmap Uuid ApiKeyTab;
  ks_users : gset Uuid;
  ks_now : Z;
  ks_draws : nat;
  ks_random : nat;
  ks_faults : list bool;
}.

Inductive SqlxError := Sqlx.

(** [is_active]: [revoked_at IS NULL]. *)
Definition is_active (k : ApiKeyTab) : bool :=
  match kt_revoked_at k with None => true | Some _ => false end.

Definition api_key_row (id : Uuid) (k : ApiKeyTab) : ApiKeyRow :=
  mkApiKeyRow id (kt_user_id k) (kt_label k) (kt_permissions k) (kt_created_at k).

Definition active_key (s : KeyStore) (id : Uuid) : option ApiKeyTab :=
  match ks_keys s !! id with Some k => if is_active k then Some k else None | None => None end.

Definition with_keys (f : gmap Uuid ApiKeyTab -> gmap Uuid ApiKeyTab) (s : KeyStore) : KeyStore :=
  mkKeyStore (f (ks_keys s)) (ks_users s) (ks_now s) (ks_draws s) (ks_random s) (ks_faults s).

Definition revoke_at (now : Z) (k : ApiKeyTab) : ApiKeyTab :=
  mkApiKeyTab (kt_user_id k) (kt_label k) (kt_secret_hash k) (kt_permissions k) (Some now)
    (kt_created_at k).

(** Newest first; the order of keys created at the same instant is the database's. *)
Definition newer (a b : ApiKeyRow) : Prop := kr_created_at b <= kr_created_at a.
#[export] Instance newer_dec a b : Decision (newer a b).
Proof. unfold newer. apply _. Defined.

Section Repository.
Context {pc : Pgcrypto} {pu : PgUuids}.

Definition KeyOp (A : Type) : Type := KeyStore -> result SqlxError A * KeyStore.

Definition next_statement (s : KeyStore) : KeyStore :=
  mkKeyStore (ks_keys s) (ks_users s) (ks_now s) (ks_draws s) (ks_random s) (tail (ks_faults s)).

(** One statement, unless the database cannot be reached. *)
Definition statement {A} (m : KeyStore -> result SqlxError (A * KeyStore)) : KeyOp A := fun s =>
  let s' := next_statement s in
  match ks_faults s with
  | true :: _ => (Err Sqlx, s')
  | _ => match m s' with Ok (a, t) => (Ok a, t) | Err e => (Err e, s') end
  end.

Definition find_api_key (key_id : Uuid) : KeyOp (option ApiKeyRow) :=
  statement (fun s => Ok (api_key_row key_id <$> active_key s key_id, s)).

Definition decrypt_api_key_secret (key_id : Uuid) (pgcrypto_key : string)
    : KeyOp (option string) :=
  statement (fun s =>
    match active_key s key_id with
    | None => Ok (None, s)
    | Some k =>
        match pgp_sym_decrypt (kt_secret_hash k) pgcrypto_key with
        | Some secret => Ok (Some secret, s)
        | None => Err Sqlx
        end
    end).

(** The foreign key and the primary key are checked; [id] is the default of its column. *)
Definition repo_create_api_key (user_id : Uuid) (label raw_secret : string)
    (permissions : list string) (pgcrypto_key : string) : KeyOp ApiKeyRow :=
  statement (fun s =>
    let id := gen_random_uuid (ks_draws s) in
    let k := mkApiKeyTab user_id label (pgp_sym_encrypt (ks_draws s) raw_secret pgcrypto_key)
               permissions None (ks_now s) in
    if bool_decide (user_id ∈ ks_users s /\ ks_keys s !! id = None)
    then Ok (api_key_row id k,
             mkKeyStore (<[id := k]> (ks_keys s)) (ks_users s) (ks_now s)
               (Datatypes.S (ks_draws s)) (ks_random s) (ks_faults s))
    else Err Sqlx).

Definition repo_revoke_api_key (user_id key_id : Uuid) : KeyOp bool :=
  statement (fun s =>
    match active_key s key_id with
    | Some k =>
        if bool_decide (kt_user_id k = user_id)
        then Ok (true, with_keys (insert key_id (revoke_at (ks_now s) k)) s)
        else Ok (false, s)
    | None => Ok (false, s)
    end).

Definition repo_list_api_keys (user_id : Uuid) : KeyOp (list ApiKeyRow) :=
  statement (fun s =>
    Ok (merge_sort newer (omap (fun ik : Uuid * ApiKeyTab =>
          if bool_decide (kt_user_id ik.2 = user_id) && is_active ik.2
          then Some (api_key_row ik.1 ik.2) else None) (map_to_list (ks_keys s))), s)).
End Repository.

(** ** Handlers *)

Definition MAX_LABEL_LEN : nat := 64.
Definition ALLOWED_PERMISSIONS : list string := ["read"; "trade"].

Record CreateApiKeyInput := mkCreateApiKeyInput {
  ci_label : string; ci_permissions : list string }.

Record ApiKeyCreatedResponse := mkKeyCreated {
  kc_key_id : Uuid; kc_label : string; kc_permissions : list string; kc_secret : string;
  kc_created_at : Z }.

Record ApiKeyListItem := mkKeyListItem {
  kl_key_id : Uuid; kl_label : string; kl_permissions : list string; kl_created_at : Z }.

Section Handlers.
Context {pc : Pgcrypto} {pu : PgUuids} {ac : AuthCrates}.
Context (pgcrypto_key : string) (user_id request_id : Uuid).

Definition bad (code : ErrorCode) (message : string) : ApiError :=
  with_request_id request_id (api_error 400 code message).

(** The loop over the permissions: the error of the first that is not allowed. *)
Fixpoint check_permissions (permissions : list string) : result ApiError () :=
  match permissions with
  | [] => Ok ()
  | perm :: rest =>
      if bool_decide (perm = "withdraw") then
        Err (bad Forbidden "withdraw permission is disabled in v1")
      else if bool_decide (perm ∈ ALLOWED_PERMISSIONS) then check_permissions rest
      else Err (bad Internal ("unknown permission: " ++ perm))
  end.

Definition check_key_input (input : CreateApiKeyInput) : result ApiError () :=
  if bool_decide (trim (ci_label input) = "") || (MAX_LABEL_LEN <? String.length (ci_label input))%nat
  then Err (bad Internal "label must be 1–64 characters")
  else res_bind (check_permissions (ci_permissions input)) (fun _ =>
    match ci_permissions input with
    | [] => Err (bad Internal "at least one permission is required")
    | _ => Ok ()
    end).

Definition draw_random (s : KeyStore) : KeyStore :=
  mkKeyStore (ks_keys s) (ks_users s) (ks_now s) (ks_draws s) (Datatypes.S (ks_random s))
    (ks_faults s).

Definition db_error {A} (r : result SqlxError A * KeyStore) : result ApiError A * KeyStore :=
  match r with
  | (Ok a, s) => (Ok a, s)
  | (Err _, s) => (Err (with_request_id request_id internal), s)
  end.

(** [POST /account/api-keys]. *)
Definition create_api_key (payload : option CreateApiKeyInput) (s : KeyStore)
    : result ApiError (nat * ApiKeyCreatedResponse) * KeyStore :=
  match payload with
  | None => (Err (bad Internal "Invalid JSON body"), s)
  | Some input =>
      match check_key_input input with
      | Err e => (Err e, s)
      | Ok _ =>
          let raw_secret := base64_url (os_bytes (ks_random s)) in
          match db_error (repo_create_api_key user_id (trim (ci_label input)) raw_secret
                  (ci_permissions input) pgcrypto_key (draw_random s)) with
          | (Err e, s) => (Err e, s)
          | (Ok key, s) =>
              (Ok (201%nat, mkKeyCreated (kr_id key) (kr_label key) (kr_permissions key)
                     raw_secret (kr_created_at key)), s)
          end
      end
  end.

(** [GET /account/api-keys]. *)
Definition list_api_keys (s : KeyStore) : result ApiError (list ApiKeyListItem) * KeyStore :=
  match db_error (repo_list_api_keys user_id s) with
  | (Err e, s) => (Err e, s)
  | (Ok keys, s) =>
      (Ok ((fun k => mkKeyListItem (kr_id k) (kr_label k) (kr_permissions k) (kr_created_at k))
             <$> keys), s)
  end.

(** [DELETE /account/api-keys/:id]. *)
Definition revoke_api_key (key_id : Uuid) (s : KeyStore) : result ApiError nat * KeyStore :=
  match db_error (repo_revoke_api_key user_id key_id s) with
  | (Err e, s) => (Err e, s)
  | (Ok revoked, s) =>
      if revoked then (Ok 204%nat, s)
      else (Err (with_request_id request_id (api_error 404 NotFound "API key not found")), s)
  end.
End Handlers.
