(* ===== verification/Hmac.v ===== *)
(** * Hmac: signed requests, [services/api/src/extractors/hmac.rs]

    [verify] checks a request that carries a key id, a timestamp and a signature, against
    the API keys and, for replays, Redis.  HMAC-SHA256 is a parameter, the machine
    integers are those of a release build. *)
From Stdlib Require Import Ascii.
From stdpp Require Import pretty.
From S2P Require Import Prelude ApiBase Reserves AuthBase Http RateLimit ApiKeys.

#[local] Open Scope string_scope.

(** [Hmac::<Sha256>::new_from_slice(key)] and the tag of a message. *)
Class HmacOps := hmac_sha256 : string -> string -> option (list Z).

(** The text of an identifier and back. *)
Class UuidText := { show_uuid : Uuid -> string; parse_uuid : string -> option Uuid }.

Definition HMAC_KEY_HEADER : string := "x-aether-key".
Definition HMAC_TS_HEADER : string := "x-aether-ts".
Definition HMAC_SIGN_HEADER : string := "x-aether-sign".
Definition MAX_SKEW_MS : Z := 5000.
Definition REPLAY_TTL_SECS : Z := 10.
Definition BODY_LIMIT : Z := 4 * 1024 * 1024.

(** [i64] arithmetic wraps around. *)
Definition wrap64 (n : Z) : Z := (n + 2 ^ 63) mod 2 ^ 64 - 2 ^ 63.
Definition i64_sub (n m : Z) : Z := wrap64 (n - m).
Definition i64_abs (n : Z) : Z := wrap64 (Z.abs n).

(** [u8::from_str_radix(_, 16)] on two characters: a plus sign may stand in front. *)
Definition hex_value (c : ascii) : option Z :=
  let n := Z.of_N (N_of_ascii c) in
  if ((48 <=? n) && (n <=? 57))%Z then Some (n - 48)%Z
  else if ((97 <=? n) && (n <=? 102))%Z then Some (n - 87)%Z
  else if ((65 <=? n) && (n <=? 70))%Z then Some (n - 55)%Z
  else None.

Definition hex_byte (a b : ascii) : option Z :=
  if ascii_dec a "+"%char then hex_value b else
  match hex_value a, hex_value b with
  | Some x, Some y => Some (16 * x + y)%Z
  | _, _ => None
  end.

(** On a header value, which is ASCII. *)
Fixpoint decode_hex (s : string) : option (list Z) :=
  match s with
  | EmptyString => Some []
  | String a (String b s) =>
      match hex_byte a b, decode_hex s with
      | Some x, Some l => Some (x :: l)
      | _, _ => None
      end
  | String _ EmptyString => None
  end.

(** [axum::body::to_bytes]. *)
Definition to_bytes (body : option string) (limit : Z) : option string :=
  match body with
  | Some b => if (Z.of_nat (String.length b) <=? limit)%Z then Some b else None
  | None => None
  end.

Definition newline : string := String "010"%char EmptyString.

(** [format!("{ts_ms}\n{method}\n{path}\n{body_str}")]. *)
Definition signed_payload (ts_ms : Z) (method path body : string) : string :=
  i64_text ts_ms ++ newline ++ method ++ newline ++ path ++ newline ++ body.

Definition sig_error (code : ErrorCode) (message : string) (ctx : Uuid) : ApiError :=
  with_request_id ctx (api_error 401 code message).

(** [sign_str.chars().take(12)] on ASCII. *)
Definition sig_prefix (sign_str : string) : string := String.substring 0 12 sign_str.

(** The API keys inside the state behind the middleware. *)
Class HasKeys (S : Type) := { key_store : S -> KeyStore; set_key_store : KeyStore -> S -> S }.

#[export] Instance only_keys : HasKeys KeyStore := {|
  key_store s := s; set_key_store k _ := k |}.

Section Hmac.
Context {R S B : Type} {ops : RedisOps R} {hm : HmacOps} {ut : UuidText} {pc : Pgcrypto}
  {us : UuidSource} {hk : HasKeys S}.
Context (pgcrypto_key : string).
Abbreviation Gateway := (Gateway R S).

(** A step of [verify]: the request ends with an error or goes on. *)
Definition Step (A : Type) : Type := Gateway -> result ApiError A * Gateway.
Definition sret {A} (a : A) : Step A := fun g => (Ok a, g).
Definition serr {A} (e : ApiError) : Step A := fun g => (Err e, g).
Definition sbind {A C} (m : Step A) (k : A -> Step C) : Step C := fun g =>
  match m g with (Ok a, g) => k a g | (Err e, g) => (Err e, g) end.
Definition ssome {A} (e : ApiError) (x : option A) : Step A :=
  match x with Some a => sret a | None => serr e end.
Definition sguard (e : ApiError) (b : bool) : Step () := if b then sret () else serr e.

Notation "'step' x := m 'in' k" := (sbind m (fun x => k))
  (at level 10, x pattern, m at level 100, k at level 200).

(** A statement on the pool, its error answered as an internal one. *)
Definition on_keys {A} (ctx : Uuid) (m : KeyOp A) : Step A := fun g =>
  let '(r, s) := m (key_store (gw_inner g)) in
  let g := mkGateway (gw_redis g) (gw_uuids g) (set_key_store s (gw_inner g)) in
  match r with Ok a => (Ok a, g) | Err _ => (Err (with_request_id ctx internal), g) end.

(** [SET NX EX]; an error counts as a key that exists. *)
Definition check_replay (key : string) : Step () := fun g =>
  match gw_redis g with
  | None => (Ok (), g)
  | Some conn =>
      let '(reply, conn) := send_command (fun r => set_nx_ex r key "1" REPLAY_TTL_SECS) conn in
      let g := mkGateway (Some conn) (gw_uuids g) (gw_inner g) in
      match reply with
      | Some true => (Ok (), g)
      | _ => (Err (api_error 401 SigReplay "Signature replay detected"), g)
      end
  end.

Definition with_context {A} (ctx : Uuid) (m : Step A) : Step A := fun g =>
  match m g with
  | (Ok a, g) => (Ok a, g)
  | (Err e, g) => (Err (with_request_id ctx e), g)
  end.

Definition verify (since_epoch : option Z) (ctx : Uuid) (request : Request) : Step Request :=
  step key_id_str := ssome (sig_error SigInvalid "Missing X-AETHER-KEY" ctx)
                       (header_str request HMAC_KEY_HEADER) in
  step ts_str := ssome (sig_error SigInvalid "Missing X-AETHER-TS" ctx)
                   (header_str request HMAC_TS_HEADER) in
  step sign_str := ssome (sig_error SigInvalid "Missing X-AETHER-SIGN" ctx)
                     (header_str request HMAC_SIGN_HEADER) in
  step key_id := ssome (sig_error SigInvalid "Invalid key ID" ctx) (parse_uuid key_id_str) in
  step ts_ms := ssome (sig_error SigInvalid "Invalid timestamp" ctx) (parse_i64 ts_str) in
  let now_ms := chrono_now_ms since_epoch in
  let skew := i64_abs (i64_sub now_ms ts_ms) in
  step _ := sguard (sig_error SigTimestamp "Timestamp out of window" ctx)
              (negb (MAX_SKEW_MS <? skew)%Z) in
  step found := on_keys ctx (find_api_key key_id) in
  step api_key := ssome (sig_error SigInvalid "Unknown API key" ctx) found in
  step decrypted := on_keys ctx (decrypt_api_key_secret key_id pgcrypto_key) in
  step raw_secret := ssome (sig_error SigInvalid "API key has no secret" ctx) decrypted in
  step body := ssome (with_request_id ctx internal) (to_bytes (rq_body request) BODY_LIMIT) in
  let path := default "/" (rq_path_and_query request) in
  let payload := signed_payload ts_ms (rq_method request) path (default "" (from_utf8 body)) in
  step tag := ssome (with_request_id ctx internal) (hmac_sha256 raw_secret payload) in
  step expected := ssome (sig_error SigInvalid "Invalid signature encoding" ctx)
                     (decode_hex sign_str) in
  step _ := sguard (sig_error SigInvalid "Signature mismatch" ctx) (bool_decide (expected = tag)) in
  step _ := with_context ctx (check_replay
              ("hmac_replay:" ++ show_uuid key_id ++ ":" ++ sig_prefix sign_str)) in
  sret (with_hmac (mkHmacCaller (kr_user_id api_key) key_id (kr_permissions api_key)) request).

Definition hmac_auth_middleware (next : Request -> Gateway -> Response B * Gateway)
    (since_epoch : option Z) (request : Request) (g : Gateway) : Response B * Gateway :=
  if negb (contains_key HMAC_KEY_HEADER request) then next request g else
  let '(ctx, g) := match rq_context request with
                   | Some ctx => (ctx, g)
                   | None => (new_v4 (gw_uuids g),
                              mkGateway (gw_redis g) (Datatypes.S (gw_uuids g)) (gw_inner g))
                   end in
  match verify since_epoch ctx request g with
  | (Ok request, g) => next request g
  | (Err e, g) => (into_response e, g)
  end.
End Hmac.

(** * What one verification of a signed request does

    [signed] says that a request carries a valid signature of a key; [verify_spec] that
    [verify] accepts exactly the signed requests of the last seconds whose signature was
    not seen.  [later] is how Redis changes between two verifications: time passes, other
    keys change, and the same signature is tried again. *)

#[local] Open Scope string_scope.

Lemma wrap64_id n : - 2 ^ 63 <= n < 2 ^ 63 -> wrap64 n = n.
Proof. intros Hn. unfold wrap64. rewrite Z.mod_small by lia. lia. Qed.

(** The instants that pass the check of the clock: besides those within five seconds the
    one whose distance is no [i64]. *)
Definition in_time (now ts : Z) : Prop := (Z.abs (now - ts) <= 5000 \/ ts = now - 2 ^ 63)%Z.

Lemma skew_in_time now ts :
  0 <= now < 2 ^ 62 -> - 2 ^ 63 <= ts < 2 ^ 63 ->
  (i64_abs (i64_sub now ts) <= MAX_SKEW_MS <-> in_time now ts).
Proof.
  intros Hn Ht. unfold i64_sub, i64_abs, in_time, MAX_SKEW_MS.
  destruct (decide (now - ts < 2 ^ 63)) as [Hd|Hd].
  - rewrite (wrap64_id (now - ts)) by lia. rewrite wrap64_id by lia. lia.
  - assert (wrap64 (now - ts) = now - ts - 2 ^ 64) as ->.
    { unfold wrap64. replace (now - ts + 2 ^ 63) with (now - ts - 2 ^ 63 + 1 * 2 ^ 64) by lia.
      rewrite Z.mod_add by done. rewrite Z.mod_small by lia. lia. }
    destruct (decide (ts = now - 2 ^ 63)) as [->|Hne].
    + replace (now - (now - 2 ^ 63) - 2 ^ 64) with (- 2 ^ 63) by lia.
      split; [by right|]. intros _. by vm_compute.
    + rewrite wrap64_id by lia. lia.
Qed.

Lemma parse_i64_range s n : parse_i64 s = Some n -> - 2 ^ 63 <= n < 2 ^ 63.
Proof.
  assert (forall n, i64_range n = Some n -> - 2 ^ 63 <= n < 2 ^ 63) as Hr.
  { intros m. unfold i64_range. destruct (_ && _) eqn:E; [|done].
    apply andb_prop in E as [?%Z.leb_le ?%Z.ltb_lt]. done. }
  assert (forall o (f : Z -> Z), o ≫= (fun n => i64_range (f n)) = Some n ->
    - 2 ^ 63 <= n < 2 ^ 63) as Hb.
  { intros [m|] f; cbn; [|done]. intros E. apply Hr. revert E. unfold i64_range.
    destruct (_ && _) eqn:E'; [|done]. intros [= <-]. by rewrite E'. }
  unfold parse_i64. intros H.
  repeat match type of H with
  | context [match ?x with _ => _ end] => destruct x
  end; try done; first [by apply (Hb _ (fun n => n)) in H|by apply (Hb _ Z.opp) in H].
Qed.

Section Steps.
Context {R S : Type} {hk : HasKeys S}.
Abbreviation Gateway := (Gateway R S).

Lemma sbind_ok {A C} (m : Step A) (k : A -> Step C) (g : Gateway) c g' :
  sbind m k g = (Ok c, g') <-> exists a g1, m g = (Ok a, g1) /\ k a g1 = (Ok c, g').
Proof.
  unfold sbind. destruct (m g) as [[a|e] g1]; [naive_solver|].
  split; [done|by intros (? & ? & ? & ?)].
Qed.

Lemma ssome_ok {A} e (x : option A) (g : Gateway) a g' :
  ssome e x g = (Ok a, g') <-> x = Some a /\ g' = g.
Proof.
  destruct x; cbn; unfold sret, serr.
  - split; [by intros [= -> ->]|by intros [[= ->] ->]].
  - by split; [|intros []].
Qed.

Lemma sguard_ok e b (g : Gateway) u g' : sguard e b g = (Ok u, g') <-> b = true /\ g' = g.
Proof.
  destruct b, u; cbn; unfold sret, serr.
  - split; [by intros [= ->]|by intros [_ ->]].
  - by split; [|intros []].
Qed.

(** Statements leave Redis alone. *)
Lemma on_keys_redis {A} ctx (m : KeyOp A) (g : Gateway) a g' :
  on_keys ctx m g = (Ok a, g') -> gw_redis g' = gw_redis g.
Proof.
  unfold on_keys. destruct (m (key_store (gw_inner g))) as [[x|e] s]; [|done]. by intros [= _ <-].
Qed.
End Steps.

(** Takes apart a [verify] that succeeded, one step at a time. *)
Ltac take_step H E :=
  apply sbind_ok in H as (? & ? & E & H);
  first [apply ssome_ok in E as [E ->]|apply sguard_ok in E as [E ->]|idtac].

Ltac make_step :=
  apply sbind_ok; eexists _, _; split;
  [first [apply ssome_ok; split; [first [eassumption|reflexivity]|reflexivity]
         |apply sguard_ok; split; [|reflexivity]]|].

Section Verify.
Context {R : Type} {ops : RedisOps R} {hm : HmacOps} {ut : UuidText} {pc : Pgcrypto}.
Context (pgcrypto_key : string).
Abbreviation Gateway := (Gateway R KeyStore).

(** The request is signed by the secret of the active key [key_id]; [sign] is the text of
    the signature. *)
Record signed (s : KeyStore) (request : Request) (key_id : Uuid) (k : ApiKeyTab) (ts : Z)
    (sign : string) : Prop := {
  sg_key : exists text, header_str request HMAC_KEY_HEADER = Some text /\
    parse_uuid text = Some key_id;
  sg_ts : exists text, header_str request HMAC_TS_HEADER = Some text /\
    parse_i64 text = Some ts;
  sg_sign : header_str request HMAC_SIGN_HEADER = Some sign;
  sg_active : active_key s key_id = Some k;
  sg_tag : exists secret body tag,
    pgp_sym_decrypt (kt_secret_hash k) pgcrypto_key = Some secret /\
    to_bytes (rq_body request) BODY_LIMIT = Some body /\
    hmac_sha256 secret (signed_payload ts (rq_method request)
      (default "/" (rq_path_and_query request)) (default "" (from_utf8 body))) = Some tag /\
    decode_hex sign = Some tag;
}.

Definition caller_of (key_id : Uuid) (k : ApiKeyTab) : HmacCaller :=
  mkHmacCaller (kt_user_id k) key_id (kt_permissions k).

Definition replay_key (key_id : Uuid) (sign : string) : string :=
  "hmac_replay:" ++ show_uuid key_id ++ ":" ++ sig_prefix sign.

(** A statement that the database answers changes nothing but [ks_faults]. *)
Definition quiet_store (s : KeyStore) : Prop := ks_faults s = [].

Lemma find_ok ctx key_id (g : Gateway) x g' :
  quiet_store (gw_inner g) ->
  on_keys ctx (find_api_key key_id) g = (Ok x, g') <->
  x = api_key_row key_id <$> active_key (gw_inner g) key_id /\ g' = g.
Proof.
  intros Hq. destruct g as [rd n [k u now d r f]]. cbn in Hq. unfold quiet_store in Hq.
  cbn in Hq. subst f. cbn. split; [by intros [= <- <-]|by intros [-> ->]].
Qed.

Lemma decrypt_ok ctx key_id (g : Gateway) secret g' :
  quiet_store (gw_inner g) ->
  on_keys ctx (decrypt_api_key_secret key_id pgcrypto_key) g = (Ok (Some secret), g') <->
  (exists k, active_key (gw_inner g) key_id = Some k /\
     pgp_sym_decrypt (kt_secret_hash k) pgcrypto_key = Some secret) /\ g' = g.
Proof.
  intros Hq. destruct g as [rd n [k u now d r f]]. unfold quiet_store in Hq.
  cbn in Hq. subst f.
  unfold on_keys, decrypt_api_key_secret, statement, next_statement, active_key. cbn.
  destruct (k !! key_id) as [x|]; [destruct (is_active x)|]; cbn;
    try destruct (pgp_sym_decrypt _ _) eqn:E;
    (split; [intros H; inversion H; subst; eauto|intros [(k' & Hk & ?) ->]; congruence]).
Qed.

Lemma replay_ok ctx key n (s : KeyStore) (r : R) u g' :
  with_context ctx (check_replay key) (mkGateway (Some (mkConnection r [])) n s) = (Ok u, g') <->
  (set_nx_ex r key "1" REPLAY_TTL_SECS).1 = true /\
  g' = mkGateway (Some (mkConnection (set_nx_ex r key "1" REPLAY_TTL_SECS).2 [])) n s.
Proof.
  destruct u. unfold with_context, check_replay, send_command. cbn.
  destruct (set_nx_ex r key "1" REPLAY_TTL_SECS) as [[] r']; cbn.
  - split; [by intros [= <-]|by intros [_ ->]].
  - by split; [|intros []].
Qed.

Context {views : RedisViews R} {laws : RedisLaws R}.

Lemma verify_spec since_epoch ctx request n (s : KeyStore) (r : R) request' g' :
  quiet_store s -> 0 <= chrono_now_ms since_epoch < 2 ^ 62 ->
  verify pgcrypto_key since_epoch ctx request (mkGateway (Some (mkConnection r [])) n s) =
    (Ok request', g') <->
  exists key_id k ts sign, signed s request key_id k ts sign /\
    in_time (chrono_now_ms since_epoch) ts /\
    string_key r (replay_key key_id sign) = false /\
    request' = with_hmac (caller_of key_id k) request /\
    g' = mkGateway (Some (mkConnection
           (set_nx_ex r (replay_key key_id sign) "1" REPLAY_TTL_SECS).2 [])) n s.
Proof.
  intros Hq Hnow. unfold verify. split.
  - intros H. take_step H Ekey. take_step H Ets. take_step H Esign. take_step H Eid.
    take_step H Etime. take_step H Eskew. take_step H Efind.
    apply find_ok in Efind as [-> ->]; [|done].
    take_step H Efound. take_step H Edec. take_step H Esec. cbn [gw_inner] in *.
    destruct (active_key s _) as [k|] eqn:Ek; [|done]. injection Efound as <-.
    rewrite Esec in Edec. apply decrypt_ok in Edec as [(k' & Ek' & Esecret) ->]; [|done].
    cbn [gw_inner] in Ek'. rewrite Ek in Ek'. injection Ek' as <-.
    take_step H Ebody. take_step H Etag. take_step H Eexp. take_step H Eeq. take_step H Erep.
    apply replay_ok in Erep as [Eset ->]. injection H as <- <-.
    eexists _, k, _, _. split_and!; [|.. |reflexivity|reflexivity].
    + split; [by eauto..|]. apply bool_decide_eq_true in Eeq as ->.
      eexists _, _, _. by split_and!.
    + apply skew_in_time; [done|by eapply parse_i64_range|].
      apply negb_true_iff, Z.ltb_ge in Eskew. done.
    + rewrite set_answer in Eset. by apply negb_true_iff in Eset.
  - intros (key_id & k & ts & sign & [(kt & Ekey & Eid) (tt & Ets & Etime) Esign Ek
      (secret & body & tag & Esec & Ebody & Etag & Eexp)] & Hin & Hfresh & -> & ->).
    do 5 make_step.
    apply sbind_ok; eexists (), _; split.
    { apply sguard_ok. split; [|reflexivity]. apply negb_true_iff, Z.ltb_ge.
      apply skew_in_time; [done|by eapply parse_i64_range|done]. }
    apply sbind_ok; eexists _, _; split; [by apply find_ok|]. cbn [gw_inner]. rewrite Ek.
    apply sbind_ok; eexists _, _; split; [by apply ssome_ok|].
    apply sbind_ok; eexists (Some secret), _; split; [by apply decrypt_ok; eauto|].
    do 4 make_step.
    apply sbind_ok; eexists (), _; split; [apply sguard_ok; by rewrite bool_decide_eq_true_2|].
    apply sbind_ok; eexists (), _; split; [|reflexivity].
    apply replay_ok. split; [|reflexivity].
    unfold replay_key in Hfresh. by rewrite set_answer, Hfresh.
Qed.
End Verify.
