(* ===== verification/HmacProps.v ===== *)
(** * HmacProps: the correctness of API keys and signed requests *)
From Stdlib Require Import Ascii.
From S2P Require Import Prelude Decimal ApiBase Reserves ReservesSound ReservesProps.
From S2P Require Import AuthBase Http RateLimit ApiKeys Hmac.

#[local] Open Scope string_scope.

(** ** Runs of the key endpoints *)

Inductive KeyRequest :=
| KrCreate (user_id request_id : Uuid) (payload : option CreateApiKeyInput)
| KrList (user_id request_id : Uuid)
| KrRevoke (user_id request_id key_id : Uuid).

Section Keys.
Context {pc : Pgcrypto} {pcl : PgcryptoLaws} {pu : PgUuids} {ac : AuthCrates}.
Context (pgcrypto_key : string).

(** The store after a request, and the key it revoked, if it did. *)
Definition key_request (q : KeyRequest) (s : KeyStore) : option Uuid * KeyStore :=
  match q with
  | KrCreate u r p => (None, (create_api_key pgcrypto_key u r p s).2)
  | KrList u r => (None, (list_api_keys u r s).2)
  | KrRevoke u r k =>
      let '(answer, s) := revoke_api_key u r k s in
      (match answer with Ok _ => Some k | Err _ => None end, s)
  end.

Fixpoint key_run (qs : list KeyRequest) (s : KeyStore) : list Uuid * KeyStore :=
  match qs with
  | [] => ([], s)
  | q :: qs =>
      let '(revoked, s) := key_request q s in
      let '(rest, s) := key_run qs s in (option_list revoked ++ rest, s)%list
  end.

(** The row of a key handed out with a secret; [revoked] says whether it still signs. *)
Definition handed_out (id user_id : Uuid) (permissions : list string) (secret : string)
    (revoked : bool) (s : KeyStore) : Prop :=
  exists k, ks_keys s !! id = Some k /\ kt_user_id k = user_id /\
    kt_permissions k = permissions /\
    pgp_sym_decrypt (kt_secret_hash k) pgcrypto_key = Some secret /\
    is_active k = negb revoked.

(** Repository calls keep the other keys. *)
Lemma statement_keys {A} (P : KeyStore -> Prop) (m : KeyStore -> result SqlxError (A * KeyStore)) s :
  (forall s', ks_keys s' = ks_keys s -> ks_users s' = ks_users s ->
     match m s' with Ok (_, t) => P t | Err _ => True end) ->
  (forall s', ks_keys s' = ks_keys s -> P s') -> P (statement m s).2.
Proof.
  intros Hm Hs. unfold statement. specialize (Hm (next_statement s) eq_refl eq_refl).
  destruct (ks_faults s) as [|[] f]; [|by apply Hs|];
    destruct (m (next_statement s)) as [[a t]|e]; done || by apply Hs.
Qed.

Lemma handed_out_keys id u p w b s s' :
  ks_keys s' = ks_keys s -> handed_out id u p w b s -> handed_out id u p w b s'.
Proof. unfold handed_out. by intros ->. Qed.

Lemma db_error_snd {A} rid (x : result SqlxError A * KeyStore) : (db_error rid x).2 = x.2.
Proof. by destruct x as [[] ?]. Qed.

Lemma repo_create_handed_out u' l w' p' id u p w b s :
  handed_out id u p w b s ->
  handed_out id u p w b (repo_create_api_key u' l w' p' pgcrypto_key s).2.
Proof.
  intros H. unfold repo_create_api_key. apply statement_keys.
  - intros s' Ek _. cbv zeta. case_bool_decide as Hc; [|done].
    destruct H as (k & Hid & ?). exists k. cbn.
    rewrite lookup_insert_ne; [by rewrite Ek|].
    intros E. rewrite E, Ek, Hid in Hc. by destruct Hc.
  - intros s' Ek. by apply (handed_out_keys _ _ _ _ _ s).
Qed.

Lemma repo_list_handed_out u' id u p w b s :
  handed_out id u p w b s -> handed_out id u p w b (repo_list_api_keys u' s).2.
Proof.
  intros H. unfold repo_list_api_keys. apply statement_keys; intros s' Ek; [intros _|];
    by apply (handed_out_keys _ _ _ _ _ s).
Qed.

(** One update: the row is marked, or nothing changes. *)
Lemma repo_revoke_cases u' k' s :
  let '(r, s') := repo_revoke_api_key u' k' s in
  (r = Ok true /\ exists k, active_key s k' = Some k /\ kt_user_id k = u' /\
     ks_keys s' = <[k' := revoke_at (ks_now s) k]> (ks_keys s)) \/
  (r <> Ok true /\ ks_keys s' = ks_keys s).
Proof.
  unfold repo_revoke_api_key, statement, active_key. cbv zeta.
  destruct (ks_faults s) as [|[] f]; [|by right|]; cbn;
    (destruct (ks_keys s !! k') as [k|]; [|by right]);
    (destruct (is_active k); [|by right]); (case_bool_decide; [left|right]; eauto).
Qed.

Lemma repo_revoke_handed_out u' k' id u p w b s :
  handed_out id u p w b s ->
  let '(r, s') := repo_revoke_api_key u' k' s in
  handed_out id u p w (b || match r with Ok true => bool_decide (k' = id) | _ => false end) s'.
Proof.
  intros H. pose proof (repo_revoke_cases u' k' s) as Hc.
  destruct (repo_revoke_api_key u' k' s) as [r s'].
  destruct Hc as [(-> & k & Hk & _ & Es)|[Hr Es]].
  - destruct H as (k0 & Hid & ? & ? & ? & ?). case_bool_decide as Hid'; [subst k'|].
    + rewrite orb_true_r. exists (revoke_at (ks_now s) k).
      rewrite Es, lookup_insert_eq. unfold active_key in Hk. rewrite Hid in Hk.
      destruct (is_active k0); [|done]. injection Hk as ->. by split_and!.
    + rewrite orb_false_r. exists k0. rewrite Es, lookup_insert_ne by done. by split_and!.
  - replace (match r with Ok true => bool_decide (k' = id) | _ => false end) with false
      by by destruct r as [[]|].
    rewrite orb_false_r. by apply (handed_out_keys _ _ _ _ _ s).
Qed.

Lemma key_request_handed_out q id u p w b s :
  handed_out id u p w b s ->
  let '(revoked, s') := key_request q s in
  handed_out id u p w (b || bool_decide (revoked = Some id)) s'.
Proof.
  intros H. destruct q as [u' r pl|u' r|u' r k']; cbn [key_request].
  - rewrite orb_false_r. unfold create_api_key.
    destruct pl as [input|]; [|done]. destruct (check_key_input r input); [|done].
    pose proof (repo_create_handed_out u' (trim (ci_label input))
      (base64_url (os_bytes (ks_random s))) (ci_permissions input) id u p w b (draw_random s) H) as Hs.
    rewrite <-(db_error_snd r) in Hs. by destruct (db_error _ _) as [[] ?].
  - rewrite orb_false_r. unfold list_api_keys.
    pose proof (repo_list_handed_out u' id u p w b s H) as Hs.
    rewrite <-(db_error_snd r) in Hs. by destruct (db_error _ _) as [[] ?].
  - unfold revoke_api_key. pose proof (repo_revoke_handed_out u' k' id u p w b s H) as Hs.
    destruct (repo_revoke_api_key u' k' s) as [[[]|] s']; cbn [db_error]; [|done..].
    replace (bool_decide (Some k' = Some id)) with (bool_decide (k' = id)); [done|].
    apply bool_decide_ext. naive_solver.
Qed.

(** Only the owner revokes a key. *)
Lemma request_revokes_own q id u p w b s :
  handed_out id u p w b s -> (key_request q s).1 = Some id -> exists r, q = KrRevoke u r id.
Proof.
  intros (k0 & Hid & Hu & _). destruct q as [u' r pl|u' r|u' r k']; cbn [key_request]; [done..|].
  unfold revoke_api_key. pose proof (repo_revoke_cases u' k' s) as Hc.
  destruct (repo_revoke_api_key u' k' s) as [x s'].
  destruct Hc as [(-> & k & Hk & Hown & _)|[Hr _]].
  - intros [= ->]. exists r. unfold active_key in Hk. rewrite Hid in Hk.
    destruct (is_active k0); [|done]. by simplify_eq.
  - by destruct x as [[]|].
Qed.

Lemma run_revokes_own qs id u p w : forall b s,
  handed_out id u p w b s -> id ∈ (key_run qs s).1 -> exists r, KrRevoke u r id ∈ qs.
Proof.
  induction qs as [|q qs IH]; intros b s H; cbn [key_run]; [by intros ?%not_elem_of_nil|].
  pose proof (key_request_handed_out q id u p w b s H) as Hq.
  pose proof (request_revokes_own q id u p w b s H) as Hown.
  destruct (key_request q s) as [revoked s1]. specialize (IH _ _ Hq).
  destruct (key_run qs s1) as [rest s2]. cbn [fst] in *. intros [Hin|Hin]%elem_of_app.
  - destruct revoked as [k|]; [|by apply not_elem_of_nil in Hin].
    apply list_elem_of_singleton in Hin as ->. destruct (Hown eq_refl) as [r ->]. exists r. by left.
  - destruct (IH Hin) as [r Hr]. exists r. by right.
Qed.

Lemma key_run_handed_out qs id u p w : forall b s,
  handed_out id u p w b s ->
  let '(revoked, s') := key_run qs s in
  handed_out id u p w (b || bool_decide (id ∈ revoked)) s'.
Proof.
  induction qs as [|q qs IH]; intros b s H; cbn [key_run].
  { by rewrite bool_decide_eq_false_2, orb_false_r by apply not_elem_of_nil. }
  pose proof (key_request_handed_out q id u p w b s H) as Hq.
  destruct (key_request q s) as [revoked s1]. specialize (IH _ _ Hq).
  destruct (key_run qs s1) as [rest s2].
  replace (b || bool_decide (id ∈ (option_list revoked ++ rest)%list))
    with ((b || bool_decide (revoked = Some id)) || bool_decide (id ∈ rest)); [done|].
  rewrite <-orb_assoc. f_equal. destruct revoked as [k|]; cbn; [|done].
  destruct (decide (k = id)) as [->|].
  - rewrite (bool_decide_eq_true_2 (Some id = Some id)) by done.
    by rewrite (bool_decide_eq_true_2 (id ∈ id :: rest)) by set_solver.
  - rewrite bool_decide_eq_false_2 by congruence. cbn. apply bool_decide_ext. set_solver.
Qed.
End Keys.

Section Handout.
Context {pc : Pgcrypto} {pcl : PgcryptoLaws} {pu : PgUuids} {ac : AuthCrates}.
Context (pgcrypto_key : string).

Lemma create_handed_out u rid input s resp s' :
  create_api_key pgcrypto_key u rid (Some input) s = (Ok (201%nat, resp), s') ->
  handed_out pgcrypto_key (kc_key_id resp) u (ci_permissions input) (kc_secret resp) false s'.
Proof.
  unfold create_api_key. destruct (check_key_input rid input); [|done].
  unfold repo_create_api_key, statement, next_statement. cbv zeta.
  destruct s as [ks us now d r [|[] f]]; cbn; [|done|]; case_bool_decide; cbn; [|done| |done];
    intros [= <- <-]; unfold handed_out; cbn;
    (eexists; rewrite lookup_insert_eq; split_and!; [done..| |done]; apply pgp_roundtrip).
Qed.
End Handout.

(** ** Redis between two uses of a signature *)

Inductive later {R} {ops : RedisOps R} {views : RedisViews R} (k : string) (r : R) : R -> Prop :=
| later_refl : later k r r
| later_wait r' d : later k r r' -> 0 <= d -> later k r (redis_wait r' d)
| later_other r' r'' k' : later k r r' -> k' <> k -> only_key k' r' r'' -> later k r r''
| later_again r' v s : later k r r' -> later k r (set_nx_ex r' k v s).2.

Section Replay.
Context {R : Type} {ops : RedisOps R} {views : RedisViews R} {laws : RedisLaws R}.

(** A key lives until its deadline. *)
Lemma later_kept k (r r' : R) d :
  later k r r' -> string_key r k = true -> deadline r k = Some d ->
  redis_now r <= redis_now r' /\
  (redis_now r' < d -> string_key r' k = true /\ deadline r' k = Some d).
Proof.
  intros Hl Hs Hd. induction Hl as [|r' e Hl IH He|r' r'' k' Hl IH Hk [Hn Ho]|r' v s Hl IH].
  - done.
  - destruct IH as [Hn IH]. rewrite wait_now by done. split; [lia|]. intros Hlt.
    destruct (IH ltac:(lia)) as [Hs' Hd'].
    assert (alive r' k (redis_now r' + e)) as Hal by (unfold alive; by rewrite Hd').
    destruct (wait_alive r' e k He Hal) as (_ & -> & ->). done.
  - destruct (Ho k ltac:(done)) as (_ & -> & ->). rewrite Hn. done.
  - destruct (set_only r' k v s) as [-> _]. destruct IH as [Hn IH]. split; [done|].
    intros Hlt. destruct (IH Hlt) as [Hs' Hd']. by rewrite (set_kept r' k v s Hs').
Qed.

Context {hm : HmacOps} {ut : UuidText} {pc : Pgcrypto}.
Context (pgcrypto_key : string).

(** What every accepted request passed, whatever becomes of the statements. *)
Lemma verify_passed t ctx request (r : R) fates n s request' g' kt key_id tt ts sign :
  header_str request HMAC_KEY_HEADER = Some kt -> parse_uuid kt = Some key_id ->
  header_str request HMAC_TS_HEADER = Some tt -> parse_i64 tt = Some ts ->
  header_str request HMAC_SIGN_HEADER = Some sign ->
  0 <= chrono_now_ms t < 2 ^ 62 ->
  verify pgcrypto_key t ctx request (mkGateway (Some (mkConnection r fates)) n s) = (Ok request', g') ->
  in_time (chrono_now_ms t) ts /\ string_key r (replay_key key_id sign) = false.
Proof.
  intros Ekt Eid Ett Ets Esign Hnow H. unfold verify in H.
  take_step H E1. take_step H E2. take_step H E3. take_step H E4. take_step H E5.
  simplify_eq. take_step H Eskew. take_step H Efind. apply on_keys_redis in Efind.
  take_step H Efound. take_step H Edec. apply on_keys_redis in Edec. rewrite Efind in Edec.
  take_step H E6. take_step H E7. take_step H E8. take_step H E9. take_step H E10.
  take_step H Erep. split.
  - apply skew_in_time; [done|by eapply parse_i64_range|].
    by apply negb_true_iff, Z.ltb_ge in Eskew.
  - unfold with_context, check_replay in Erep. rewrite Edec in Erep. cbn in Erep.
    fold (replay_key key_id sign) in Erep.
    destruct (send_command _ _) as [[[]|] conn] eqn:Es; [|done..].
    unfold send_command in Es. cbn in Es.
    destruct (set_nx_ex _ _ _ _) as [b r'] eqn:Eset.
    assert (b = negb (string_key r (replay_key key_id sign))) as ->.
    { rewrite <-(set_answer r _ "1" REPLAY_TTL_SECS). by rewrite Eset. }
    destruct fates as [|[] fates]; simplify_eq; by apply negb_true_iff.
Qed.
End Replay.

(** A key signs for its owner until it is revoked.  After a key was handed out with a
    secret, and whatever key requests follow, from whomever, a request under that key id
    is accepted exactly when the key has not been revoked, the timestamp is close to the
    clock, the signature is the HMAC of timestamp, method, path and body under that very
    secret, and the signature has not been seen; it then reaches the handler unchanged,
    on behalf of the user who created the key and with the permissions asked for.  Only
    that user can have revoked it. *)
Theorem key_signs_until_revoked {R} {ops : RedisOps R} {views : RedisViews R}
    {laws : RedisLaws R} {hm : HmacOps} {ut : UuidText} {pc : Pgcrypto} {pcl : PgcryptoLaws}
    {pu : PgUuids} {ac : AuthCrates} pgcrypto_key u rid input s0 resp s1 qs t ctx request n (r : R) kt :
  create_api_key pgcrypto_key u rid (Some input) s0 = (Ok (201%nat, resp), s1) ->
  let '(revoked, s2) := key_run pgcrypto_key qs s1 in
  (kc_key_id resp ∈ revoked -> exists rid', KrRevoke u rid' (kc_key_id resp) ∈ qs) /\
  (quiet_store s2 -> 0 <= chrono_now_ms t < 2 ^ 62 ->
  header_str request HMAC_KEY_HEADER = Some kt -> parse_uuid kt = Some (kc_key_id resp) ->
  forall request' g',
  verify pgcrypto_key t ctx request (mkGateway (Some (mkConnection r [])) n s2) = (Ok request', g') <->
  (kc_key_id resp ∉ revoked) /\
  exists tt ts sign body tag,
    header_str request HMAC_TS_HEADER = Some tt /\ parse_i64 tt = Some ts /\
    in_time (chrono_now_ms t) ts /\
    header_str request HMAC_SIGN_HEADER = Some sign /\
    to_bytes (rq_body request) BODY_LIMIT = Some body /\
    hmac_sha256 (kc_secret resp) (signed_payload ts (rq_method request)
      (default "/" (rq_path_and_query request)) (default "" (from_utf8 body))) = Some tag /\
    decode_hex sign = Some tag /\
    string_key r (replay_key (kc_key_id resp) sign) = false /\
    request' = with_hmac (mkHmacCaller u (kc_key_id resp) (ci_permissions input)) request /\
    g' = mkGateway (Some (mkConnection
           (set_nx_ex r (replay_key (kc_key_id resp) sign) "1" REPLAY_TTL_SECS).2 [])) n s2).
Proof.
  intros Hc. apply create_handed_out in Hc.
  pose proof (key_run_handed_out pgcrypto_key qs _ _ _ _ _ _ Hc) as Hrow.
  pose proof (run_revokes_own pgcrypto_key qs _ _ _ _ _ _ Hc) as Hown.
  destruct (key_run pgcrypto_key qs s1) as [revoked s2]. split; [done|].
  intros Hq Hnow Hkt Hid request' g'. rewrite verify_spec by done.
  destruct Hrow as (k & Ek & <- & <- & Hsecret & Hact). cbn in Hact.
  assert (active_key s2 (kc_key_id resp) = if bool_decide (kc_key_id resp ∈ revoked)
    then None else Some k) as Hactive.
  { unfold active_key. rewrite Ek, Hact. by case_bool_decide. }
  case_bool_decide as Hrev; split.
  - intros (id & k' & ts & sign & [(kt' & Ekt & Eid) _ _ Ea _] & _). simplify_eq.
  - by intros [].
  - intros (id & k' & ts & sign & [(kt' & Ekt & Eid) (tt & Ett & Ets) Esign Ea
      (secret & body & tag & Esec & Ebody & Etag & Ehex)] & Hin & Hfresh & -> & ->).
    simplify_eq. split; [done|]. exists tt, ts, sign, body, tag. by split_and!.
  - intros (_ & tt & ts & sign & body & tag & Ett & Ets & Hin & Esign & Ebody & Etag & Ehex &
      Hfresh & -> & ->).
    exists (kc_key_id resp), k, ts, sign. split_and!; [|done..].
    split; [by eauto|by eauto|done|done|]. by exists (kc_secret resp), body, tag.
Qed.

(** C32. A signed request is accepted once.  After a request was accepted, any request with
    the same three headers is refused, whatever its method, path and body, whatever else
    went through Redis and whichever statements fail, as long as Redis's clock runs no
    faster than the API's; the only gap is a request sent exactly ten seconds later. *)
Theorem signed_requests_are_accepted_once {R} {ops : RedisOps R} {views : RedisViews R}
    {laws : RedisLaws R} {hm : HmacOps} {ut : UuidText} {pc : Pgcrypto}
    pgcrypto_key t1 t2 ctx1 ctx2 request1 request2 (r1 r2 : R) n1 n2 s1 s2 fates kt tt sign id ts
    request1' c1 n1' s1' :
  quiet_store s1 -> 0 <= chrono_now_ms t1 < 2 ^ 62 -> 0 <= chrono_now_ms t2 < 2 ^ 62 ->
  verify pgcrypto_key t1 ctx1 request1 (mkGateway (Some (mkConnection r1 [])) n1 s1) =
    (Ok request1', mkGateway (Some c1) n1' s1') ->
  Forall (fun request =>
    header_str request HMAC_KEY_HEADER = Some kt /\ header_str request HMAC_TS_HEADER = Some tt /\
    header_str request HMAC_SIGN_HEADER = Some sign) [request1; request2] ->
  parse_uuid kt = Some id -> parse_i64 tt = Some ts ->
  later (replay_key id sign) (cn_server c1) r2 ->
  let elapsed := chrono_now_ms t2 - chrono_now_ms t1 in
  redis_now r2 - redis_now (cn_server c1) <= elapsed -> elapsed <> 10000 ->
  exists e g',
    verify pgcrypto_key t2 ctx2 request2 (mkGateway (Some (mkConnection r2 fates)) n2 s2) = (Err e, g').
Proof.
  intros Hq Hn1 Hn2 H1 Hh Eid Ets Hl elapsed Hclock Hne.
  apply Forall_cons in Hh as [(Ek1 & Et1 & Es1) Hh].
  apply Forall_cons in Hh as [(Ek2 & Et2 & Es2) _].
  destruct (verify _ t2 _ _ _) as [[request2'|e] g'] eqn:H2; [exfalso|by eauto].
  destruct (verify_passed _ _ _ _ _ _ _ _ _ _ _ _ _ _ _ Ek2 Eid Et2 Ets Es2 Hn2 H2)
    as [Hin2 Hfresh2].
  destruct (proj1 (verify_spec _ _ _ _ _ _ _ _ _ Hq Hn1) H1)
    as (id' & k & ts' & sign' & [(? & ? & ?) (? & ? & ?) ? _ _] & Hin1 & Hfresh1 & _ & E).
  simplify_eq. cbn [cn_server] in *.
  set (r1' := (set_nx_ex r1 (replay_key id sign) "1" REPLAY_TTL_SECS).2) in *.
  assert (redis_now r1' = redis_now r1) as Hnow1 by apply set_only.
  destruct (later_kept _ _ _ _ Hl (set_present r1 _ _ _) (set_deadline r1 _ _ _ Hfresh1))
    as [Hmono Hkept].
  fold r1' in Hmono, Hkept. unfold in_time, REPLAY_TTL_SECS in *.
  assert (elapsed < 10000) as Hlt by lia.
  destruct Hkept as [Hs _]; [lia|]. congruence.
Qed.

(** ** Examples *)

#[local] Existing Instances bit_texts.
#[local] Instance bit_uuids : UuidText := {|
  show_uuid := uuid_text (D := Z);
  parse_uuid s := Z.to_N <$> text_z s;
|}.

(** "Encryption" writes the key in front. *)
#[local] Instance prefix_crypto : Pgcrypto := {|
  pgp_sym_encrypt _ data key := key ++ "|" ++ data;
  pgp_sym_decrypt text key := strip_prefix (key ++ "|") text;
|}.

Lemma strip_prefix_app p s : strip_prefix p (p ++ s) = Some s.
Proof.
  induction p as [|c p IH]; [done|].
  change (strip_prefix (String c p) (String c (p ++ s)) = Some s). cbn [strip_prefix].
  destruct (ascii_dec c c); [exact IH|done].
Qed.

#[local] Instance prefix_laws : PgcryptoLaws.
Proof.
  split. intros n data key. unfold pgp_sym_decrypt, pgp_sym_encrypt, prefix_crypto.
  by rewrite <-(strip_prefix_app (key ++ "|") data), <-string_app_assoc.
Qed.

#[local] Instance counted_rows : PgUuids := fun n => N.of_nat (40 + n).
#[local] Instance sum_hmac : HmacOps := fun key payload =>
  Some [fold_left Z.add (Z.of_N <$> codes (key ++ payload)) 0 mod 256; 171].

#[local] Instance plain_bytes : AuthCrates := {|
  argon2_hash _ _ w := Some w;
  argon2_verify _ w h := bool_decide (h = w);
  argon2_params _ := true;
  phc_parses _ := true;
  os_salt _ := "";
  os_bytes n := [Z.of_nat n];
  base64_url l := z_text (default 0 (head l));
  encode_access _ _ := None;
  encode_mfa _ _ := None;
  unix_timestamp t := t;
  checked_add_seconds t n := Some (t + n);
|}.

Definition user_7 : KeyStore := mkKeyStore ∅ {[7%N]} 1000 0 0 [].
Definition bot_key : CreateApiKeyInput := mkCreateApiKeyInput " bot " ["read"; "trade"].
Definition after_bot_key : KeyStore := (create_api_key "pg" 7 1 (Some bot_key) user_7).2.
Definition bot_created : ApiKeyCreatedResponse :=
  mkKeyCreated 40 "bot" ["read"; "trade"] "z" 1000.

(** The key is 40, its secret "z". *)
Example bot_key_created :
  (create_api_key "pg" 7 1 (Some bot_key) user_7).1 = Ok (201%nat, bot_created).
Proof. vm_compute. reflexivity. Qed.

Definition bot_request (sign : string) : Request :=
  mkRequest "POST" "/orders" (Some "/orders?x=1")
    [("x-aether-key", Some (show_uuid 40)); ("x-aether-ts", Some "5000");
     ("x-aether-sign", Some sign)] (Some "{}") (Some 9%N) None.

(** The signature of the request. *)
Definition bot_sign : string :=
  match hmac_sha256 "z" (signed_payload 5000 "POST" "/orders?x=1" "{}") with
  | Some tag => hex_lower tag | None => "" end.

Definition redis_at (now : Z) : MiniRedis := mkMini now ∅ ∅.
Definition bot_gateway (s : KeyStore) : Gateway MiniRedis KeyStore :=
  mkGateway (Some (mkConnection (redis_at 6000) [])) 0 s.

Definition bot_accepted : Request * Gateway MiniRedis KeyStore :=
  (with_hmac (mkHmacCaller 7 40 ["read"; "trade"]) (bot_request bot_sign),
   mkGateway (Some (mkConnection
     (set_nx_ex (redis_at 6000) (replay_key 40 bot_sign) "1" REPLAY_TTL_SECS).2 [])) 0
     after_bot_key).

Example key_signs_until_revoked_witness :
  verify "pg" (Some 6000) 9 (bot_request bot_sign) (bot_gateway after_bot_key) =
    (Ok bot_accepted.1, bot_accepted.2).
Proof.
  assert (create_api_key "pg" 7 1 (Some bot_key) user_7 = (Ok (201%nat, bot_created), after_bot_key))
    as Hc by reflexivity.
  apply (proj2 (key_signs_until_revoked "pg" 7 1 bot_key user_7 bot_created after_bot_key []
    (Some 6000) 9 (bot_request bot_sign) 0 (redis_at 6000) (show_uuid 40) Hc));
    try reflexivity.
  - vm_compute. split; congruence.
  - split; [by apply not_elem_of_nil|].
    eexists "5000", 5000, bot_sign, "{}", _.
    split_and!; try (vm_compute; reflexivity). left. vm_compute. congruence.
Defined.

(** Revoked by its owner, not by another user. *)
Example revoked_key_is_refused :
  (key_run "pg" [KrRevoke 8 1 40; KrRevoke 7 1 40] after_bot_key).1 = [40%N] /\
  (verify "pg" (Some 6000) 9 (bot_request bot_sign)
     (bot_gateway (key_run "pg" [KrRevoke 8 1 40; KrRevoke 7 1 40] after_bot_key).2)).1 =
  Err (sig_error SigInvalid "Unknown API key" 9).
Proof. vm_compute. by split. Qed.

Example signed_requests_are_accepted_once_witness :
  exists e g', verify "pg" (Some 9000) 10 (bot_request bot_sign)
    (mkGateway (Some (mkConnection
       (redis_wait (set_nx_ex (redis_at 6000) (replay_key 40 bot_sign) "1" REPLAY_TTL_SECS).2 3000)
       [])) 0 after_bot_key) = (Err e, g').
Proof.
  eapply (signed_requests_are_accepted_once "pg" (Some 6000) (Some 9000) 9 10
    (bot_request bot_sign) (bot_request bot_sign) (redis_at 6000) _ 0 0 after_bot_key after_bot_key
    [] (show_uuid 40) "5000" bot_sign 40 5000 bot_accepted.1).
  - reflexivity.
  - vm_compute. split; congruence.
  - vm_compute. split; congruence.
  - vm_compute. reflexivity.
  - repeat constructor.
  - reflexivity.
  - reflexivity.
  - apply later_wait; [apply later_refl|lia].
  - vm_compute. congruence.
  - vm_compute. congruence.
Defined.

(** ** Findings *)

Definition bot_sign_upper : string := map_string ascii_upper bot_sign.

(** Replays are recognised by the text of the signature, but its digits are read in either
    case: the request just accepted is accepted again with capital letters. *)
Example capital_letters_replay :
  is_Some (match (verify "pg" (Some 7000) 9 (bot_request bot_sign_upper) bot_accepted.2).1 with
           | Ok r => Some r | Err _ => None end) /\
  (verify "pg" (Some 7000) 9 (bot_request bot_sign) bot_accepted.2).1 =
    Err (sig_error SigReplay "Signature replay detected" 9).
Proof. vm_compute. split; [by eexists|done]. Qed.

Definition bodies (b : string) : Request :=
  let sign := match hmac_sha256 "z" (signed_payload 5000 "POST" "/orders" "") with
              | Some tag => hex_lower tag | None => "" end in
  mkRequest "POST" "/orders" (Some "/orders")
    [("x-aether-key", Some (show_uuid 40)); ("x-aether-ts", Some "5000");
     ("x-aether-sign", Some sign)] (Some b) (Some 9%N) None.

(** A body that is not UTF-8 is signed as the empty one: whoever sees a signed request
    without a body can put such bytes into it. *)
Example binary_body_is_signed_as_empty :
  let accepted b := match (verify "pg" (Some 6000) 9 (bodies b) (bot_gateway after_bot_key)).1 with
                    | Ok _ => true | Err _ => false end in
  accepted "" = true /\ accepted (String "255"%char "anything") = true /\
  accepted "anything" = false.
Proof. vm_compute. by split_and!. Qed.

(** The handlers ask for [AuthenticatedUser], which ignores the caller a signature
    identifies: a signed request without an access token is refused everywhere. *)
Lemma signatures_open_no_handler {jwt : JwtDecode} config c r :
  bearer_token r = None ->
  authenticated_user config (with_hmac c r) =
    Err (api_error 401 TokenInvalid "Missing or malformed Authorization header").
Proof.
  intros H. unfold authenticated_user.
  change (bearer_token (with_hmac c r)) with (bearer_token r). by rewrite H.
Qed.
