(* ===== verification/Pnl.v ===== *)
(** * Pnl: profit and loss, of [services/api/src/repositories/account.rs]

    [compute_pnl] with the first-in-first-out lots of [PnlState], the three queries that
    feed it and the endpoint [GET /account/pnl].  The creation time of a trade, which the
    queries sort by, is a parameter, as are the rows of the table [klines].  The loop of
    [sell] takes fuel; one round per lot and two more are enough ([sell_done]). *)
From S2P Require Import Prelude Decimal BTree Numeric Database ApiBase Reserves.

#[local] Open Scope string_scope.

Record PnlTradeRow (D : Type) := mkPnlTrade {
  pt_asset_symbol : string; pt_side : string; pt_price : D; pt_quantity : D }.
Arguments mkPnlTrade {D}.
Arguments pt_asset_symbol {D} _.
Arguments pt_side {D} _.
Arguments pt_price {D} _.
Arguments pt_quantity {D} _.

Record PnlBalanceRow (D : Type) := mkPnlBalance { pb_asset_symbol : string; pb_quantity : D }.
Arguments mkPnlBalance {D}.
Arguments pb_asset_symbol {D} _.
Arguments pb_quantity {D} _.

Record PnlMarketPriceRow (D : Type) := mkPnlPrice {
  pm_asset_symbol : string; pm_market_price : option D }.
Arguments mkPnlPrice {D}.
Arguments pm_asset_symbol {D} _.
Arguments pm_market_price {D} _.

Record PnlRow (D : Type) := mkPnlRow {
  pr_asset_symbol : string; pr_quantity : D; pr_avg_cost : D; pr_market_price : option D;
  pr_unrealised_pnl : option D; pr_realised_pnl : D }.
Arguments mkPnlRow {D}.
Arguments pr_asset_symbol {D} _.
Arguments pr_quantity {D} _.
Arguments pr_avg_cost {D} _.
Arguments pr_market_price {D} _.
Arguments pr_unrealised_pnl {D} _.
Arguments pr_realised_pnl {D} _.

Record CostLot (D : Type) := mkCostLot { cl_quantity : D; cl_unit_cost : D }.
Arguments mkCostLot {D}.
Arguments cl_quantity {D} _.
Arguments cl_unit_cost {D} _.

Record PnlState (D : Type) := mkPnlState { ps_lots : list (CostLot D); ps_realised_pnl : D }.
Arguments mkPnlState {D}.
Arguments ps_lots {D} _.
Arguments ps_realised_pnl {D} _.

Section Pnl.
Context {D : Type} {dops : DecimalOps D}.
Open Scope dec_scope.

Definition pnl_default : PnlState D := mkPnlState [] dzero.

Definition buy (quantity unit_cost : D) (s : PnlState D) : PnlState D :=
  mkPnlState (ps_lots s ++ [mkCostLot quantity unit_cost])%list (ps_realised_pnl s).

(** The [while] of [sell]. *)
Fixpoint sell_loop (fuel : nat) (quantity price : D) (s : PnlState D) : option (PnlState D) :=
  match fuel with
  | O => None
  | S fuel =>
      if dzero <? quantity then
        match ps_lots s with
        | [] => Some (mkPnlState [] (ps_realised_pnl s + price * quantity))
        | front :: rest =>
            let consumed := if cl_quantity front <=? quantity then cl_quantity front else quantity in
            let realised := ps_realised_pnl s + (price - cl_unit_cost front) * consumed in
            let front := mkCostLot (cl_quantity front - consumed) (cl_unit_cost front) in
            let lots := if cl_quantity front <=? dzero then rest else front :: rest in
            sell_loop fuel (quantity - consumed) price (mkPnlState lots realised)
        end
      else Some s
  end.

Definition sell (quantity price : D) (s : PnlState D) : PnlState D :=
  default s (sell_loop (length (ps_lots s) + 2) quantity price s).

Definition remaining_quantity (s : PnlState D) : D :=
  fold_left (fun total lot => total + cl_quantity lot) (ps_lots s) dzero.

Definition remaining_cost (s : PnlState D) : D :=
  fold_left (fun total lot => total + (cl_quantity lot * cl_unit_cost lot)) (ps_lots s) dzero.

Definition apply_trade (trade : PnlTradeRow D) (s : PnlState D) : PnlState D :=
  if bool_decide (pt_side trade = "buy") then buy (pt_quantity trade) (pt_price trade) s
  else sell (pt_quantity trade) (pt_price trade) s.

(** [states.entry(asset).or_default()], changed by [f]. *)
Definition entry (asset : string) (f : PnlState D -> PnlState D)
    (states : btree string (PnlState D)) : btree string (PnlState D) :=
  bt_insert asset (f (default pnl_default (bt_get asset states))) states.

(** [collect] into a map: the last of equal keys stays. *)
Definition collect {A} (l : list (string * A)) : btree string A :=
  fold_left (fun m kv => bt_insert kv.1 kv.2 m) l [].

Definition pnl_row (quantities : btree string D) (market_prices : btree string (option D))
    (kv : string * PnlState D) : PnlRow D :=
  let '(asset_symbol, state) := kv in
  let quantity := default (remaining_quantity state) (bt_get asset_symbol quantities) in
  let avg_cost := if dzero <? quantity then remaining_cost state / quantity else dzero in
  let market_price := mjoin (bt_get asset_symbol market_prices) in
  mkPnlRow asset_symbol quantity avg_cost market_price
    ((fun price => (price - avg_cost) * quantity) <$> market_price) (ps_realised_pnl state).

Definition trade_states (trades : list (PnlTradeRow D)) : btree string (PnlState D) :=
  fold_left (fun states trade => entry (pt_asset_symbol trade) (apply_trade trade) states)
    trades [].

Definition compute_pnl (trades : list (PnlTradeRow D)) (balances : list (PnlBalanceRow D))
    (prices : list (PnlMarketPriceRow D)) : list (PnlRow D) :=
  let states := trade_states trades in
  let quantities := collect ((fun b => (pb_asset_symbol b, pb_quantity b)) <$> balances) in
  let market_prices := collect ((fun p => (pm_asset_symbol p, pm_market_price p)) <$> prices) in
  let states := fold_left (fun states asset => entry asset id states) (keys quantities) states in
  pnl_row quantities market_prices <$> states.

(** ** The queries *)

Record KlineTab := mkKlineTab {
  kl_symbol : string; kl_interval : string; kl_opened_at : Z; kl_close : Z }.

Definition DAY_MS : Z := 24 * 60 * 60 * 1000.

Section Queries.
Context {J : Type} {pg : PgDecimal D}.
Context (created_at : TradeTab -> Z).

Definition symbol_of (db : Db J) (asset_id : Uuid) : option string :=
  at_symbol <$> assets db !! asset_id.

(** The base asset of a market whose quote asset is USDT. *)
Definition usdt_base (db : Db J) (m : MarketTab) : option string :=
  if bool_decide (symbol_of db (mt_quote_asset_id m) = Some "USDT")
  then symbol_of db (mt_base_asset_id m) else None.

(** [JOIN orders o ON o.id = t.taker_order_id OR o.id = t.maker_order_id]. *)
Definition order_ids (t : TradeTab) : list Uuid :=
  if bool_decide (tt_taker_order_id t = tt_maker_order_id t) then [tt_taker_order_id t]
  else [tt_taker_order_id t; tt_maker_order_id t].

Definition trade_side (t : TradeTab) (order_id : Uuid) : string :=
  if bool_decide (order_id = tt_taker_order_id t) then tt_taker_side t
  else if bool_decide (tt_taker_side t = "buy") then "sell" else "buy".

(** A row of the join, still in columns: asset, side, price, quantity. *)
Definition join_trade (db : Db J) (user_id : Uuid) (t : TradeTab)
    : list (string * string * Z * Z) :=
  match markets db !! tt_market_id t ≫= usdt_base db with
  | None => []
  | Some base =>
      omap (fun o => match orders db !! o with
        | Some row => if bool_decide (ot_user_id row = user_id)
            then Some (base, trade_side t o, tt_price t, tt_quantity t) else None
        | None => None
        end) (order_ids t)
  end.

(** [ORDER BY t.created_at ASC, t.engine_seq ASC]. *)
Definition earlier (a b : TradeTab) : Prop :=
  (created_at a < created_at b \/
   created_at a = created_at b /\ tt_engine_seq a <= tt_engine_seq b)%Z.
#[export] Instance earlier_dec a b : Decision (earlier a b).
Proof. unfold earlier. apply _. Defined.

Definition decode_trade (r : string * string * Z * Z) : option (PnlTradeRow D) :=
  let '(asset, side, p, q) := r in
  match of_pg p, of_pg q with
  | Some price, Some quantity => Some (mkPnlTrade asset side price quantity)
  | _, _ => None
  end.

Definition pnl_trades (user_id : Uuid) : Tx J (list (PnlTradeRow D)) :=
  bind get (fun db =>
    of_option ColumnDecode (mapM decode_trade
      (concat (join_trade db user_id <$> merge_sort earlier (trades db))))).

Definition balance_row (db : Db J) (user_id : Uuid) (kb : (Uuid * Uuid) * Balance)
    : option (string * Z) :=
  let '((u, a), b) := kb in
  match symbol_of db a with
  | Some symbol =>
      if bool_decide (u = user_id) && negb (bool_decide (symbol = "USDT"))
         && (0 <? available b + locked b)%Z
      then Some (symbol, (available b + locked b)%Z) else None
  | None => None
  end.

(** Symbols are unique, so that the order of the rows does not matter. *)
Definition pnl_balances (user_id : Uuid) : Tx J (list (PnlBalanceRow D)) :=
  bind get (fun db =>
    of_option ColumnDecode (mapM (fun r : string * Z => mkPnlBalance r.1 <$> of_pg r.2)
      (omap (balance_row db user_id) (map_to_list (balances db))))).

Definition newer_kline (a b : KlineTab) : Prop := (kl_opened_at b <= kl_opened_at a)%Z.
#[export] Instance newer_kline_dec a b : Decision (newer_kline a b).
Proof. unfold newer_kline. apply _. Defined.

(** The closes of a market within the last day, newest first. *)
Definition recent_klines (now : Z) (klines : list KlineTab) (symbol : string) : list KlineTab :=
  merge_sort newer_kline
    (filter (fun k => kl_symbol k = symbol /\ kl_interval k = "1m" /\
                      now - DAY_MS <= kl_opened_at k)%Z klines).

(** A market without klines contributes a null, which sorts first in [DESC] order. *)
Definition group_price (now : Z) (klines : list KlineTab) (symbols : list string) : option Z :=
  let closes := recent_klines now klines <$> symbols in
  if forallb (fun l => negb (bool_decide (l = []))) closes then
    kl_close <$> head (merge_sort newer_kline (concat closes))
  else None.

Definition priced_markets (db : Db J) : list (string * string) :=
  omap (fun m => if bool_decide (mt_status m = "delisted") then None
                 else (fun base => (base, mt_symbol m)) <$> usdt_base db m)
    (map_to_list (markets db)).*2.

Definition decode_price (o : option Z) : option (option D) :=
  match o with Some n => Some <$> of_pg n | None => Some None end.

Definition pnl_market_prices (now : Z) (klines : list KlineTab) : Tx J (list (PnlMarketPriceRow D)) :=
  bind get (fun db =>
    let rows := priced_markets db in
    of_option ColumnDecode (mapM (fun base =>
        mkPnlPrice base <$>
        decode_price (group_price now klines (filter (fun r => r.1 = base) rows).*2))
      (elements (list_to_set (C := gset string) rows.*1)))).

(** Three statements, here on one state of the database, then the computation. *)
Definition pnl (now : Z) (klines : list KlineTab) (user_id : Uuid) (db : Db J)
    : result DbError (list (PnlRow D)) :=
  match (run_stmt (pnl_trades user_id) db).1 with
  | Err e => Err e
  | Ok trades =>
      match (run_stmt (pnl_balances user_id) db).1 with
      | Err e => Err e
      | Ok balances =>
          match (run_stmt (pnl_market_prices now klines) db).1 with
          | Err e => Err e
          | Ok prices => Ok (compute_pnl trades balances prices)
          end
      end
  end.

(** ** The endpoint *)

Context {dt : DecimalText D}.

Record PnlResponse := mkPnlResponse {
  po_asset : string; po_qty : string; po_avg_cost : string; po_market_price : option string;
  po_unrealised_pnl : option string; po_realised_pnl : string }.

Definition pnl_response (row : PnlRow D) : PnlResponse :=
  mkPnlResponse (pr_asset_symbol row) (decimal_to_string (pr_quantity row))
    (decimal_to_string (pr_avg_cost row)) (decimal_to_string <$> pr_market_price row)
    (decimal_to_string <$> pr_unrealised_pnl row) (decimal_to_string (pr_realised_pnl row)).

Definition get_pnl (now : Z) (klines : list KlineTab) (caller request_id : Uuid) (db : Db J)
    : result ApiError (list PnlResponse) :=
  match pnl now klines caller db with
  | Err _ => Err (with_request_id request_id internal)
  | Ok rows => Ok (pnl_response <$> rows)
  end.
End Queries.
End Pnl.
