(* ===== verification/PnlProps.v ===== *)
(** * PnlProps: profit and loss is first in, first out

    The reference is on integers: quantities counted in a tick [tq], prices in [tp] and
    amounts, the product of the two, in [tm].  [drop_units] takes what is sold from the
    front of the lots; a sale realises its proceeds less the cost of what it takes.
    [rep] relates a [PnlState] to lots and a realised amount; as long as the turnover
    fits a [Decimal] every sum and product of the code is exact. *)
From S2P Require Import Prelude Decimal BTree Numeric Database ApiBase Reserves.
From S2P Require Import ReservesTree Pnl.

(** ** The reference *)

Fixpoint drop_units (sold : Z) (lots : list (Z * Z)) : list (Z * Z) :=
  match lots with
  | [] => []
  | (q, c) :: rest =>
      if sold <=? 0 then lots
      else if q <=? sold then drop_units (sold - q) rest
      else (q - sold, c) :: rest
  end.

Definition cost (lots : list (Z * Z)) : Z := foldr (fun qc n => qc.1 * qc.2 + n) 0 lots.

(** Bought or sold, price and quantity. *)
Record Deal := mkDeal { dl_asset : string; dl_bought : bool; dl_price : Z; dl_quantity : Z }.

Definition amount (d : Deal) : Z := dl_price d * dl_quantity d.
Definition total (ds : list Deal) : Z := foldr (fun d n => amount d + n) 0 ds.
Definition bought (ds : list Deal) : Z := total (filter (fun d => dl_bought d = true) ds).
Definition proceeds (ds : list Deal) : Z := total (filter (fun d => dl_bought d = false) ds).

Definition fifo_deal (d : Deal) (s : list (Z * Z) * Z) : list (Z * Z) * Z :=
  let '(lots, realised) := s in
  if dl_bought d then ((lots ++ [(dl_quantity d, dl_price d)])%list, realised)
  else let left := drop_units (dl_quantity d) lots in
       (left, realised + amount d - (cost lots - cost left)).

Definition fifo (ds : list Deal) : list (Z * Z) * Z :=
  fold_left (fun s d => fifo_deal d s) ds ([], 0).

Lemma cost_app l l' : cost (l ++ l') = cost l + cost l'.
Proof. induction l as [|x l IH]; simpl; [done|]. rewrite IH. lia. Qed.

Lemma drop_units_0 n l : n <= 0 -> drop_units n l = l.
Proof. destruct l as [|[q c] l]; [done|]. simpl. intros. by rewrite (proj2 (Z.leb_le _ _)). Qed.

Lemma drop_units_whole n q c l :
  0 < n -> q <= n -> drop_units n ((q, c) :: l) = drop_units (n - q) l.
Proof.
  intros. simpl. rewrite (proj2 (Z.leb_gt n 0)) by lia. by rewrite (proj2 (Z.leb_le q n)).
Qed.

Lemma drop_units_part n q c l :
  0 < n -> n < q -> drop_units n ((q, c) :: l) = (q - n, c) :: l.
Proof.
  intros. simpl. rewrite (proj2 (Z.leb_gt n 0)) by lia. by rewrite (proj2 (Z.leb_gt q n)).
Qed.

Lemma drop_units_cost n l :
  Forall (fun qc => 0 < qc.1 /\ 0 <= qc.2) l -> cost (drop_units n l) <= cost l.
Proof.
  intros Hl. revert n. induction Hl as [|[q c] l [Hq Hc] Hl IH]; intros n; [done|].
  simpl in *. case_match; [done|]. case_match; simpl.
  - specialize (IH (n - q)). nia.
  - nia.
Qed.

(** Realised profit is the proceeds of the sales less the cost of what is gone. *)
Lemma fifo_identity ds : (fifo ds).2 = proceeds ds - (bought ds - cost (fifo ds).1).
Proof.
  unfold fifo, proceeds, bought. induction ds as [|d ds IH] using rev_ind; [done|].
  rewrite fold_left_app, !filter_app. simpl.
  assert (forall l l', total (l ++ l') = total l + total l') as Ht.
  { induction l as [|x l IHl]; intros l'; simpl; [done|]. rewrite IHl. lia. }
  rewrite !Ht. destruct (fold_left _ ds _) as [lots realised]. simpl in *.
  unfold fifo_deal. rewrite !filter_cons. destruct (dl_bought d); simpl;
    rewrite ?cost_app; simpl; unfold amount; lia.
Qed.

(** ** The code against the reference *)

Section Exact.
Context {D : Type} {dops : DecimalOps D} {dlaws : DecimalLaws D}.
Context (tq tp tm : Z) (Htq : valid_tick tq) (Htp : valid_tick tp) (Htm : valid_tick tm).
Context (Hticks : tq * tp = tm * ONE).

(** [x] is [n] ticks. *)
Definition ticks (t : Z) (x : D) (n : Z) : Prop := units x = n * t /\ Z.abs n < 2 ^ 96.

Lemma ticks_exists t n : valid_tick t -> Z.abs n < 2 ^ 96 -> exists x : D, ticks t x n.
Proof.
  intros (s & Hs & ->) Hn. exists (dnew n s). split; [|done]. by apply units_new.
Qed.

Lemma ticks_add t x y n m :
  valid_tick t -> ticks t x n -> ticks t y m -> Z.abs (n + m) < 2 ^ 96 -> ticks t (dadd x y) (n + m).
Proof.
  intros Ht [Hx _] [Hy _] Hb. destruct (ticks_exists t (n + m) Ht Hb) as [r [Hr _]].
  assert (dadd x y = r) as -> by (apply dadd_exact; rewrite Hx, Hy, Hr; ring). done.
Qed.

Lemma ticks_sub t x y n m :
  valid_tick t -> ticks t x n -> ticks t y m -> Z.abs (n - m) < 2 ^ 96 -> ticks t (dsub x y) (n - m).
Proof.
  intros Ht [Hx _] [Hy _] Hb. destruct (ticks_exists t (n - m) Ht Hb) as [r [Hr _]].
  assert (dsub x y = r) as -> by (apply dsub_exact; rewrite Hx, Hy, Hr; ring). done.
Qed.

Lemma ticks_mul x y n m :
  ticks tp x n -> ticks tq y m -> Z.abs (n * m) < 2 ^ 96 -> ticks tm (dmul x y) (n * m).
Proof.
  intros [Hx _] [Hy _] Hb. destruct (ticks_exists tm (n * m) Htm Hb) as [r [Hr _]].
  assert (dmul x y = r) as -> by (apply dmul_exact; rewrite Hx, Hy, Hr; nia). done.
Qed.

Lemma ticks_mul_qp x y n m :
  ticks tq x n -> ticks tp y m -> Z.abs (n * m) < 2 ^ 96 -> ticks tm (dmul x y) (n * m).
Proof.
  intros [Hx _] [Hy _] Hb. destruct (ticks_exists tm (n * m) Htm Hb) as [r [Hr _]].
  assert (dmul x y = r) as -> by (apply dmul_exact; rewrite Hx, Hy, Hr; nia). done.
Qed.

Lemma ticks_zero t : ticks t (dzero : D) 0.
Proof. split; [by rewrite units_zero|done]. Qed.

Lemma ticks_leb t x y n m : valid_tick t -> ticks t x n -> ticks t y m -> dleb x y = (n <=? m).
Proof.
  intros Ht%valid_tick_pos [Hx _] [Hy _]. rewrite dleb_units, Hx, Hy.
  destruct (Z.leb_spec n m), (Z.leb_spec (n * t) (m * t)); nia.
Qed.

Lemma ticks_ltb t x y n m : valid_tick t -> ticks t x n -> ticks t y m -> dltb x y = (n <? m).
Proof.
  intros Ht%valid_tick_pos [Hx _] [Hy _]. rewrite dltb_units, Hx, Hy.
  destruct (Z.ltb_spec n m), (Z.ltb_spec (n * t) (m * t)); nia.
Qed.

Definition lot_is (lot : CostLot D) (qc : Z * Z) : Prop :=
  ticks tq (cl_quantity lot) qc.1 /\ ticks tp (cl_unit_cost lot) qc.2 /\ 0 < qc.1 /\ 0 <= qc.2.

Record rep (s : PnlState D) (lots : list (Z * Z)) (realised : Z) : Prop := {
  rep_lots : Forall2 lot_is (ps_lots s) lots;
  rep_realised : ticks tm (ps_realised_pnl s) realised;
}.

Lemma lots_cost_nonneg ls lots : Forall2 lot_is ls lots -> 0 <= cost lots.
Proof.
  induction 1 as [|lot [q c] l l' (_ & _ & ? & ?) _ IH]; simpl in *; [done|]. nia.
Qed.

Lemma ticks_self x n : ticks tq x n -> ticks tq (dsub x x) 0.
Proof. intros Hx. replace 0 with (n - n) by lia. apply ticks_sub; [done..|lia]. Qed.

(** What is realised by taking [k] from the front lot. *)
Lemma realised_step X Y realised r price p unit c rest a q k consumed :
  0 <= X -> 0 <= Y -> X + Y < 2 ^ 96 -> 0 <= p -> 0 <= c -> 0 <= rest -> 0 < k <= a -> k <= q ->
  ticks tm realised r -> ticks tp price p -> ticks tp unit c -> ticks tq consumed k ->
  a * c + rest - X <= r -> r + p * q <= Y ->
  ticks tm (dadd realised (dmul (dsub price unit) consumed)) (r + (p - c) * k).
Proof.
  intros ? ? ? ? ? ? ? ? Hr Hp Hc Hk ? ?.
  assert (0 <= p * k <= p * q) by nia. assert (0 <= c * k <= a * c) by nia.
  apply ticks_add; [done..| |lia]. apply ticks_mul; [|done|lia].
  apply ticks_sub; [done..|]. destruct Hp, Hc. lia.
Qed.

(** One sale.  [X] bounds the cost of what was ever bought, [Y] the proceeds. *)
Lemma sell_loop_fifo X Y price p :
  ticks tp price p -> 0 <= p -> 0 <= X -> 0 <= Y -> X + Y < 2 ^ 96 ->
  forall lots fuel s quantity q realised, (length lots < fuel)%nat ->
  rep s lots realised -> ticks tq quantity q -> 0 <= q ->
  cost lots - X <= realised -> realised + p * q <= Y ->
  exists s', sell_loop fuel quantity price s = Some s' /\
    rep s' (drop_units q lots) (realised + p * q - (cost lots - cost (drop_units q lots))).
Proof.
  intros Hp Hp0 HX0 HY0 HXY.
  induction lots as [|[a c] lots IH]; intros [|fuel] s quantity q realised Hf [Hl Hr] Hq Hq0 HX HY;
    simpl in Hf; try lia; simpl sell_loop;
    rewrite (ticks_ltb tq _ _ 0 q Htq (ticks_zero tq) Hq); destruct (Z.ltb_spec 0 q).
  - apply Forall2_nil_inv_r in Hl as ->. eexists. split; [done|]. split; [constructor|].
    simpl in *. replace (realised + p * q - (0 - 0)) with (realised + p * q) by lia.
    assert (0 <= p * q) by nia. apply ticks_add; [done..| |]; [apply ticks_mul; [done..|]|]; lia.
  - exists s. split; [done|]. assert (q = 0) as -> by lia.
    split; [done|]. simpl. by replace (realised + p * 0 - (0 - 0)) with realised by lia.
  - apply Forall2_cons_inv_r in Hl as (front & rest & (Ha & Hc & Ha0 & Hc0) & Hl & ->).
    pose proof (lots_cost_nonneg _ _ Hl) as Hcl. simpl in Ha, Hc, Ha0, Hc0, HX.
    rewrite (ticks_leb tq _ _ a q Htq Ha Hq). destruct (Z.leb_spec a q).
    + rewrite (ticks_leb tq _ _ 0 0 Htq (ticks_self _ _ Ha) (ticks_zero tq)).
      rewrite drop_units_whole by lia.
      pose proof (realised_step X Y _ realised price p _ c (cost lots) a q a _ HX0 HY0 HXY Hp0 Hc0
        Hcl ltac:(lia) ltac:(lia) Hr Hp Hc Ha HX HY) as Hr'.
      destruct (IH fuel (mkPnlState rest (dadd (ps_realised_pnl s)
        (dmul (dsub price (cl_unit_cost front)) (cl_quantity front))))
        (dsub quantity (cl_quantity front)) (q - a) (realised + (p - c) * a))
        as (s' & E & Hrep'); [lia|by split| |lia|nia|nia|].
      { destruct Hq, Ha. apply ticks_sub; [done|by split|by split|lia]. }
      exists s'. split; [exact E|]. simpl cost in *.
      by replace (realised + p * q - (a * c + cost lots - cost (drop_units (q - a) lots)))
        with (realised + (p - c) * a + p * (q - a) - (cost lots - cost (drop_units (q - a) lots)))
        by ring.
    + assert (ticks tq (dsub (cl_quantity front) quantity) (a - q)) as Hfront.
      { destruct Hq, Ha. apply ticks_sub; [done|by split|by split|lia]. }
      simpl (cl_quantity _). rewrite (ticks_leb tq _ _ (a - q) 0 Htq Hfront (ticks_zero tq)).
      rewrite (proj2 (Z.leb_gt (a - q) 0)) by lia. destruct fuel as [|fuel]; [lia|]. simpl sell_loop.
      rewrite (ticks_ltb tq _ _ 0 0 Htq (ticks_zero tq) (ticks_self _ _ Hq)).
      eexists. split; [done|]. rewrite drop_units_part by lia. simpl cost in *.
      replace (realised + p * q - (a * c + cost lots - ((a - q) * c + cost lots)))
        with (realised + (p - c) * q) by ring.
      split; [constructor; [|done]; split_and!; [done..|simpl; lia|done]|].
      eapply (realised_step X Y _ realised price p _ c (cost lots) a q q); first [eassumption|lia].
  - exists s. split; [done|]. assert (q = 0) as -> by lia. rewrite drop_units_0 by lia.
    split; [done|]. by replace (realised + p * 0 - _) with realised by lia.
Qed.

(** A trade row stands for a deal. *)
Definition row_is (row : PnlTradeRow D) (d : Deal) : Prop :=
  pt_asset_symbol row = dl_asset d /\ dl_bought d = bool_decide (pt_side row = "buy") /\
  ticks tp (pt_price row) (dl_price d) /\ ticks tq (pt_quantity row) (dl_quantity d) /\
  0 <= dl_price d /\ 0 < dl_quantity d.

Lemma amount_nonneg row d : row_is row d -> 0 <= amount d.
Proof. intros (_ & _ & _ & _ & ? & ?). unfold amount. nia. Qed.

Lemma total_nonneg rows ds : Forall2 row_is rows ds -> 0 <= total ds.
Proof.
  induction 1 as [|row d rows ds Hd _ IH]; simpl; [done|].
  apply amount_nonneg in Hd. lia.
Qed.

Lemma sell_fifo X Y row d s lots realised :
  row_is row d -> 0 <= X -> 0 <= Y -> X + Y < 2 ^ 96 -> rep s lots realised ->
  cost lots - X <= realised -> realised + amount d <= Y -> dl_bought d = false ->
  let left := drop_units (dl_quantity d) lots in
  rep (sell (pt_quantity row) (pt_price row) s) left (realised + amount d - (cost lots - cost left)).
Proof.
  intros (_ & _ & Hp & Hq & ? & ?) HX HY HXY Hrep Hlo Hhi _ left. unfold sell.
  destruct (sell_loop_fifo X Y (pt_price row) (dl_price d) Hp ltac:(done) HX HY HXY lots
    (length (ps_lots s) + 2) s (pt_quantity row) (dl_quantity d) realised)
    as (s' & -> & Hs'); [|done|done|lia|done|done|done].
  destruct Hrep as [Hl _]. apply Forall2_length in Hl. lia.
Qed.

(** A run of trades, with [X] bought and [Y] sold before. *)
Lemma trades_fifo rows ds : Forall2 row_is rows ds ->
  forall X Y s lots realised, 0 <= X -> 0 <= Y -> X + Y + total ds < 2 ^ 96 ->
  rep s lots realised -> cost lots - X <= realised <= Y ->
  let '(lots', realised') := fold_left (fun s d => fifo_deal d s) ds (lots, realised) in
  rep (fold_left (fun s row => apply_trade row s) rows s) lots' realised' /\
  cost lots' <= X + Y + total ds.
Proof.
  induction 1 as [|row d rows ds Hd Hrows IH]; intros X Y s lots realised HX HY HT Hrep Hb; simpl in *.
  { split; [done|lia]. }
  pose proof (amount_nonneg _ _ Hd) as Ha. pose proof (total_nonneg _ _ Hrows) as Ht.
  assert (0 <= cost lots) as Hcl by (destruct Hrep as [Hl _]; by eapply lots_cost_nonneg).
  pose proof Hd as (_ & Hside & Hp & Hq & ? & ?).
  assert (apply_trade row s = if dl_bought d then buy (pt_quantity row) (pt_price row) s
    else sell (pt_quantity row) (pt_price row) s) as -> by (unfold apply_trade; by rewrite Hside; case_bool_decide).
  destruct (dl_bought d) eqn:E.
  - specialize (IH (X + amount d) Y (buy (pt_quantity row) (pt_price row) s)
      (lots ++ [(dl_quantity d, dl_price d)])%list realised).
    rewrite cost_app in IH. simpl in IH. unfold amount in *.
    destruct (fold_left _ ds _) as [lots' realised'].
    destruct IH as [Hr Hc]; [lia..| |lia|split; [done|lia]].
    destruct Hrep as [Hl Hr]. split; [|done]. apply Forall2_app; [done|].
    constructor; [|constructor]. by split_and!.
  - set (left := drop_units (dl_quantity d) lots).
    pose proof (sell_fifo X (Y + amount d) row d s lots realised Hd HX ltac:(lia) ltac:(lia) Hrep
      ltac:(lia) ltac:(lia) E) as Hs. fold left in Hs.
    assert (0 <= cost left) as Hc0 by (destruct Hs as [Hl _]; by eapply lots_cost_nonneg).
    assert (cost left <= cost lots) as Hc1.
    { apply (drop_units_cost (dl_quantity d)). destruct Hrep as [Hl _].
      eapply Forall2_Forall_r; [exact Hl|]. apply Forall_true. intros ? ? (_ & _ & ? & ?). lia. }
    specialize (IH X (Y + amount d) _ left _ HX ltac:(lia) ltac:(lia) Hs ltac:(lia)).
    destruct (fold_left _ ds _) as [lots' realised']. destruct IH as [Hr Hc]. split; [done|lia].
Qed.

Lemma remaining_cost_is s lots realised :
  rep s lots realised -> cost lots < 2 ^ 96 -> ticks tm (remaining_cost s) (cost lots).
Proof.
  intros [Hl _]. unfold remaining_cost.
  assert (forall acc n, ticks tm acc n -> 0 <= n -> n + cost lots < 2 ^ 96 ->
    ticks tm (fold_left (fun total lot => dadd total (dmul (cl_quantity lot) (cl_unit_cost lot)))
      (ps_lots s) acc) (n + cost lots)) as H.
  { induction Hl as [|lot [q c] ls lots (Hq & Hc & ? & ?) Hl IH]; intros acc n Ha Hn Hb; simpl in *.
    { by rewrite Z.add_0_r. }
    pose proof (lots_cost_nonneg _ _ Hl). rewrite Z.add_assoc. assert (0 <= q * c) by nia.
    apply IH; [|lia|lia]. apply ticks_add; [done..| |lia].
    apply ticks_mul_qp; [done..|lia]. }
  intros Hb. apply (H dzero 0); [apply ticks_zero|lia|lia].
Qed.

End Exact.

(** ** All assets *)

Section Assets.
Context {D : Type} {dops : DecimalOps D}.

Lemma entry_sorted a f (states : btree string (PnlState D)) : sorted states -> sorted (entry a f states).
Proof. apply bt_insert_sorted. Qed.

Lemma trade_states_sorted (rows : list (PnlTradeRow D)) : sorted (trade_states rows).
Proof.
  unfold trade_states. induction rows as [|r rows IH] using rev_ind; [constructor|].
  rewrite fold_left_app. simpl. by apply entry_sorted.
Qed.

(** The state of an asset is that of its own trades. *)
Lemma trade_states_get (rows : list (PnlTradeRow D)) a :
  bt_get a (trade_states rows) =
  match filter (fun r => pt_asset_symbol r = a) rows with
  | [] => None
  | rs => Some (fold_left (fun s r => apply_trade r s) rs pnl_default)
  end.
Proof.
  induction rows as [|r rows IH] using rev_ind; [done|].
  unfold trade_states in *. rewrite fold_left_app, filter_app. simpl. rewrite filter_cons.
  pose proof (trade_states_sorted rows) as Hs. unfold trade_states in Hs. unfold entry at 1.
  case_decide as Ha.
  - subst a. rewrite bt_get_insert by done. rewrite IH.
    destruct (filter _ rows) as [|r0 rs]; simpl; [done|]. by rewrite fold_left_app.
  - rewrite bt_get_insert_ne by done. rewrite IH. by rewrite app_nil_r.
Qed.
End Assets.

(** * The correctness of profit and loss *)

Section Rows.
Context {D : Type} {dops : DecimalOps D}.

Lemma collect_sorted {A} (l : list (string * A)) : sorted (collect l).
Proof.
  unfold collect. induction l as [|kv l IH] using rev_ind; [constructor|].
  rewrite fold_left_app. by apply bt_insert_sorted.
Qed.

Lemma key_get {A} a (m : btree string A) : sorted m -> a ∈ keys m <-> is_Some (bt_get a m).
Proof.
  intros Hm. split.
  - intros ([k v] & -> & Hin)%list_elem_of_fmap. exists v. by apply bt_get_elem.
  - intros [v Hv]. by eapply bt_get_key.
Qed.

Lemma collect_get {A} (l : list (string * A)) a : is_Some (bt_get a (collect l)) <-> a ∈ l.*1.
Proof.
  unfold collect. induction l as [|kv l IH] using rev_ind.
  { cbn. split; [by intros [? ?]|by intros ?%not_elem_of_nil]. }
  rewrite fold_left_app, fmap_app, elem_of_app. cbn. rewrite list_elem_of_singleton.
  pose proof (collect_sorted l) as Hs. unfold collect in Hs.
  destruct (decide (a = kv.1)) as [->|Hne].
  - rewrite bt_get_insert by done. split; [by right|by eexists].
  - rewrite bt_get_insert_ne by done. rewrite IH. naive_solver.
Qed.

(** Assets without trades get an empty state. *)
Lemma held_states (l : list string) (states : btree string (PnlState D)) : sorted states ->
  let states' := fold_left (fun states a => entry a id states) l states in
  sorted states' /\ forall a, bt_get a states' =
    match bt_get a states with
    | Some s => Some s
    | None => if decide (a ∈ l) then Some pnl_default else None
    end.
Proof.
  intros Hs. cbv zeta. induction l as [|b l [IHs IH]] using rev_ind.
  { split; [done|]. intros a. cbn. destruct (bt_get a states); [done|].
    by rewrite decide_False by apply not_elem_of_nil. }
  rewrite fold_left_app. cbn. split; [by apply entry_sorted|]. intros a. unfold entry.
  destruct (decide (a = b)) as [->|Hne].
  - rewrite bt_get_insert by done. unfold id. rewrite IH. destruct (bt_get b states); [done|].
    assert (b ∈ l ++ [b]) by (apply elem_of_app; right; by left).
    rewrite (decide_True _ _ H). by case_decide.
  - rewrite bt_get_insert_ne by done. rewrite IH. destruct (bt_get a states); [done|].
    assert (a ∈ l ++ [b] <-> a ∈ l) as Hab.
    { rewrite elem_of_app, list_elem_of_singleton. naive_solver. }
    repeat case_decide; naive_solver.
Qed.

Lemma held_keys a (balances : list (PnlBalanceRow D)) :
  a ∈ keys (collect ((fun b => (pb_asset_symbol b, pb_quantity b)) <$> balances)) <->
  a ∈ pb_asset_symbol <$> balances.
Proof. rewrite key_get by apply collect_sorted. by rewrite collect_get, <-list_fmap_compose. Qed.

Lemma pnl_row_asset q m (kv : string * PnlState D) : pr_asset_symbol (pnl_row q m kv) = kv.1.
Proof. by destruct kv. Qed.

Context {dlaws : DecimalLaws D}.

Lemma filter_rows tq tp (trades : list (PnlTradeRow D)) ds a :
  Forall2 (row_is tq tp) trades ds ->
  Forall2 (row_is tq tp) (filter (fun r => pt_asset_symbol r = a) trades)
    (filter (fun d => dl_asset d = a) ds).
Proof.
  induction 1 as [|row d trades ds Hd _ IH]; [constructor|].
  rewrite !filter_cons. pose proof Hd as (He & _). rewrite He.
  case_decide; [|done]. by constructor.
Qed.
End Rows.

(** C35. Profit and loss is first in, first out.  The endpoint reports every asset the user
    traded or holds, once, in order.  With the trades of an asset counted in ticks, and a
    turnover that fits a decimal, the reported realised profit is exactly the proceeds of
    the sales less the cost of what they used up, each sale taking the oldest lots first
    (what was never bought costs nothing); and the average cost is the cost of the lots
    left over the quantity held, whenever that quotient is a decimal. *)
Theorem pnl_is_first_in_first_out {D} {dops : DecimalOps D} {dlaws : DecimalLaws D}
    tq tp tm (trades : list (PnlTradeRow D)) ds balances prices :
  valid_tick tq -> valid_tick tp -> valid_tick tm -> tq * tp = tm * ONE ->
  Forall2 (row_is tq tp) trades ds ->
  (forall a, total (filter (fun d => dl_asset d = a) ds) < 2 ^ 96) ->
  let rows := compute_pnl trades balances prices in
  StronglySorted klt (pr_asset_symbol <$> rows) /\
  (forall a, a ∈ pr_asset_symbol <$> rows <->
     a ∈ pt_asset_symbol <$> trades \/ a ∈ pb_asset_symbol <$> balances) /\
  forall row, row ∈ rows ->
    let mine := filter (fun d => dl_asset d = pr_asset_symbol row) ds in
    let '(lots, realised) := fifo mine in
    units (pr_realised_pnl row) = realised * tm /\
    realised = proceeds mine - (bought mine - cost lots) /\
    (0 < units (pr_quantity row) -> forall avg,
       units avg * units (pr_quantity row) = cost lots * tm * ONE -> pr_avg_cost row = avg).
Proof.
  intros Htq Htp Htm Hticks Hrows Htotal. unfold compute_pnl.
  set (quantities := collect _). set (market_prices := collect _).
  destruct (held_states (keys quantities) (trade_states trades)
    (trade_states_sorted trades)) as [Hsorted Hget].
  set (states := fold_left _ _ _) in *.
  assert (pr_asset_symbol <$> (pnl_row quantities market_prices <$> states) = keys states) as Ekeys.
  { unfold keys. rewrite <-list_fmap_compose. apply list_fmap_ext. intros _ kv _. apply pnl_row_asset. }
  cbv zeta. rewrite Ekeys. split; [exact Hsorted|]. split.
  - intros a. rewrite key_get, Hget, trade_states_get by done.
    rewrite <-(held_keys a balances). fold quantities. split.
    + destruct (filter _ trades) as [|row rs] eqn:E.
      * case_decide; [by right|by intros []].
      * intros _. left. assert (row ∈ row :: rs) as Hin by by left. rewrite <-E in Hin.
        apply list_elem_of_filter in Hin as [<- Hin]. by apply list_elem_of_fmap_2.
    + intros [(row & -> & Hin)%list_elem_of_fmap|Hin]; destruct (filter _ trades) eqn:E.
      * exfalso. apply (filter_nil_not_elem_of _ _ row) in E; done.
      * done.
      * by rewrite decide_True.
      * done.
  - intros row ([a s] & -> & Hin)%list_elem_of_fmap. cbn [pr_asset_symbol pnl_row].
    apply bt_get_elem in Hin; [|done]. rewrite Hget, trade_states_get in Hin.
    pose proof (filter_rows tq tp trades ds a Hrows) as Hmine.
    set (mine := filter (fun d => dl_asset d = a) ds) in *.
    pose proof (trades_fifo tq tp tm Htq Htp Htm Hticks _ _ Hmine 0 0 pnl_default [] 0
      ltac:(lia) ltac:(lia) (Htotal a)) as Hrep.
    pose proof (fifo_identity mine) as Hid. unfold fifo in *.
    destruct (fold_left _ mine _) as [lots realised].
    destruct Hrep as [Hrep Hc]; [by split; [constructor|apply ticks_zero]|cbn; lia|].
    assert (s = fold_left (fun s r => apply_trade r s)
      (filter (fun r => pt_asset_symbol r = a) trades) pnl_default) as Es.
    { destruct (filter _ trades); [|by injection Hin]. case_decide; by simplify_eq. }
    rewrite <-Es in Hrep. pose proof (Htotal a) as Ht. fold mine in Ht.
    cbn [pr_realised_pnl pr_quantity pr_avg_cost]. split; [|split; [exact Hid|]].
    + apply Hrep.
    + intros Hq avg Havg.
      rewrite dltb_units, units_zero, (proj2 (Z.ltb_lt _ _)) by done.
      apply ddiv_exact; [lia|].
      assert (cost lots < 2 ^ 96) as Hcost by lia.
      destruct (remaining_cost_is tq tp tm Htm Hticks s lots realised Hrep Hcost)
        as [-> _]. lia.
Qed.

(** ** Examples *)

(** In the instance of fixed-point decimals: lots of 0.1, prices of 1. *)
Definition tenth : Z := ONE / 10.

Definition trade_row (asset side : string) (price tenths : Z) : PnlTradeRow Z :=
  mkPnlTrade asset side (price * ONE) (tenths * tenth).

Definition fifo_trades : list (PnlTradeRow Z) :=
  [trade_row "BTC" "buy" 100 10; trade_row "BTC" "buy" 120 10; trade_row "ETH" "buy" 5 20;
   trade_row "BTC" "sell" 150 15].
Definition fifo_deals : list Deal :=
  [mkDeal "BTC" true 100 10; mkDeal "BTC" true 120 10; mkDeal "ETH" true 5 20;
   mkDeal "BTC" false 150 15].

(** The test [fifo_pnl_consumes_oldest_lots_first]. *)
Example fifo_pnl_consumes_oldest_lots_first :
  compute_pnl [trade_row "BTC" "buy" 100 10; trade_row "BTC" "buy" 120 10;
               trade_row "BTC" "sell" 150 15]
    [mkPnlBalance "BTC" (5 * tenth)] [mkPnlPrice "BTC" (Some (200 * ONE))] =
  [mkPnlRow "BTC" (5 * tenth) (120 * ONE) (Some (200 * ONE)) (Some (40 * ONE)) (65 * ONE)].
Proof. vm_compute. reflexivity. Qed.

(** The test [pnl_includes_held_asset_without_trade_cost_basis]. *)
Example pnl_includes_held_asset_without_trade_cost_basis :
  compute_pnl [] [mkPnlBalance "ETH" (2 * ONE)] [mkPnlPrice "ETH" (Some (3000 * ONE))] =
  [mkPnlRow "ETH" (2 * ONE) 0 (Some (3000 * ONE)) (Some (6000 * ONE)) 0].
Proof. vm_compute. reflexivity. Qed.

Lemma tenth_tick : valid_tick tenth.
Proof. exists 1%nat. split; [lia|done]. Qed.
Lemma one_tick : valid_tick ONE.
Proof. exists 0%nat. split; [lia|done]. Qed.

Example pnl_is_first_in_first_out_witness :
  let rows := compute_pnl fifo_trades [] [] in
  (pr_asset_symbol <$> rows) = ["BTC"; "ETH"] /\
  StronglySorted klt (pr_asset_symbol <$> rows) /\
  forall row, row ∈ rows ->
    let mine := filter (fun d => dl_asset d = pr_asset_symbol row) fifo_deals in
    let '(lots, realised) := fifo mine in
    units (pr_realised_pnl row) = realised * tenth /\
    realised = proceeds mine - (bought mine - cost lots) /\
    (0 < units (pr_quantity row) -> forall avg,
       units avg * units (pr_quantity row) = cost lots * tenth * ONE -> pr_avg_cost row = avg).
Proof.
  split; [vm_compute; reflexivity|].
  destruct (pnl_is_first_in_first_out (D := Z) tenth ONE tenth fifo_trades fifo_deals [] []
    tenth_tick one_tick tenth_tick eq_refl) as (Hs & _ & Hr); [| |by split].
  - repeat constructor; vm_compute; congruence.
  - intros a. unfold fifo_deals. rewrite !filter_cons, filter_nil.
    repeat case_decide; vm_compute; reflexivity.
Defined.
