(* ===== verification/History.v ===== *)
(** * History: balances and ledger pages

    [list_balances] and [ledger_history] of [services/api/src/repositories/account.rs] and
    the endpoints [GET /account/balances] and [GET /account/history] of
    [handlers/account.rs].  [ledger_id n] is the BIGSERIAL id of the [n]th ledger entry:
    ids ascend, with gaps where transactions were rolled back.  Names of assets and
    creation times are left out. *)
From S2P Require Import Prelude Decimal Proto Numeric Database Settlement.
From S2P Require Import SettleProps ApiBase Reserves ReservesProps.

Record BalanceRow (D : Type) := mkBalanceRow {
  br_asset_id : Uuid; br_asset_symbol : string; br_available : D; br_locked : D }.
Arguments mkBalanceRow {D}.
Arguments br_asset_id {D} _.
Arguments br_asset_symbol {D} _.
Arguments br_available {D} _.
Arguments br_locked {D} _.

Record LedgerRow (D : Type) := mkLedgerRow {
  lw_id : Z; lw_asset_symbol : string; lw_kind : string; lw_amount : D;
  lw_available_after : D; lw_locked_after : D; lw_reference_type : string;
  lw_reference_id : option Uuid }.
Arguments mkLedgerRow {D}.
Arguments lw_id {D} _.
Arguments lw_asset_symbol {D} _.
Arguments lw_kind {D} _.
Arguments lw_amount {D} _.
Arguments lw_available_after {D} _.
Arguments lw_locked_after {D} _.
Arguments lw_reference_type {D} _.
Arguments lw_reference_id {D} _.

Record BalanceResponse := mkBalanceResponse {
  ba_asset : string; ba_available : string; ba_locked : string; ba_total : string }.

Record LedgerEntryResponse := mkLedgerEntry {
  len_id : Z; len_asset : string; len_kind : string; len_amount : string;
  len_available_after : string; len_locked_after : string; len_reference_type : string;
  len_reference_id : option Uuid }.

(** [data] and [nextCursor]. *)
Record HistoryResponse := mkHistory {
  hi_data : list LedgerEntryResponse; hi_next_cursor : option Z }.

Record HistoryQuery := mkHistoryQuery { hq_cursor : option Z; hq_limit : option Z }.

Definition default_limit : Z := 50.

(** [i64::clamp]. *)
Definition clamp (lo hi n : Z) : Z := if n <? lo then lo else if hi <? n then hi else n.

Section History.
Context {D J : Type} {dops : DecimalOps D} {pg : PgDecimal D} {dt : DecimalText D}.
Context (ledger_id : nat -> Z).

(** ** Statements *)

(** A row of the join with [assets], still in columns. *)
Definition balance_columns (db : Db J) (user_id : Uuid) (kb : (Uuid * Uuid) * Balance)
    : option (Uuid * string * Balance) :=
  let '((u, a), b) := kb in
  if bool_decide (u = user_id)
  then (fun asset => (a, at_symbol asset, b)) <$> assets db !! a else None.

Definition decode_balance (r : Uuid * string * Balance) : option (BalanceRow D) :=
  let '(a, symbol, b) := r in
  match of_pg (available b), of_pg (locked b) with
  | Some available, Some locked => Some (mkBalanceRow a symbol available locked)
  | _, _ => None
  end.

Definition by_symbol (a b : Uuid * string * Balance) : Prop := String.leb a.1.2 b.1.2 = true.
#[export] Instance by_symbol_dec a b : Decision (by_symbol a b).
Proof. unfold by_symbol. apply _. Defined.

(** [ORDER BY a.symbol], in the C collation. *)
Definition list_balances (user_id : Uuid) : Tx J (list (BalanceRow D)) :=
  bind get (fun db =>
    of_option ColumnDecode (mapM decode_balance
      (merge_sort by_symbol (omap (balance_columns db user_id) (map_to_list (balances db)))))).

(** The ledger of a user from the newest entry down, with the id of each. *)
Definition user_entries (db : Db J) (user_id : Uuid) : list (Z * LedgerTab) :=
  filter (fun il => le_user_id il.2 = user_id)
    (reverse (imap (fun n l => (ledger_id n, l)) (ledger_entries db))).

Definition before (cursor : option Z) (id : Z) : bool :=
  match cursor with Some c => id <? c | None => true end.

Definition decode_entry (db : Db J) (il : Z * LedgerTab) : option (LedgerRow D) :=
  let '(id, l) := il in
  match assets db !! le_asset_id l, of_pg (le_amount l), of_pg (le_available_after l),
        of_pg (le_locked_after l) with
  | Some asset, Some amount, Some available_after, Some locked_after =>
      Some (mkLedgerRow id (at_symbol asset) (le_kind l) amount available_after locked_after
              (le_reference_type l) (le_reference_id l))
  | _, _, _, _ => None
  end.

(** [ORDER BY le.id DESC LIMIT $3]; every entry has an asset, by its foreign key. *)
Definition ledger_history (user_id : Uuid) (cursor : option Z) (limit : Z)
    : Tx J (list (LedgerRow D)) :=
  bind get (fun db =>
    of_option ColumnDecode (mapM (decode_entry db)
      (take (Z.to_nat limit) (filter (fun il => before cursor il.1 = true)
        (user_entries db user_id))))).

(** ** Endpoints *)

Definition balance_response (r : BalanceRow D) : BalanceResponse :=
  let total := dadd (br_available r) (br_locked r) in
  mkBalanceResponse (br_asset_symbol r) (decimal_to_string (br_available r))
    (decimal_to_string (br_locked r)) (decimal_to_string total).

Definition get_balances (caller : Uuid) (db : Db J) : result ApiError (list BalanceResponse) :=
  match (run_stmt (list_balances caller) db).1 with
  | Err _ => Err internal
  | Ok rows => Ok (balance_response <$> rows)
  end.

Definition ledger_response (r : LedgerRow D) : LedgerEntryResponse :=
  mkLedgerEntry (lw_id r) (lw_asset_symbol r) (lw_kind r) (decimal_to_string (lw_amount r))
    (decimal_to_string (lw_available_after r)) (decimal_to_string (lw_locked_after r))
    (lw_reference_type r) (lw_reference_id r).

Definition get_history (caller : Uuid) (q : HistoryQuery) (db : Db J)
    : result ApiError HistoryResponse :=
  let limit := clamp 1 200 (default default_limit (hq_limit q)) in
  match (run_stmt (ledger_history caller (hq_cursor q) limit) db).1 with
  | Err _ => Err internal
  | Ok rows => Ok (mkHistory (ledger_response <$> rows) (lw_id <$> last rows))
  end.
End History.

(** * Walking the ledger page by page *)

Lemma filter_all {A} (P : A -> Prop) `{!forall x, Decision (P x)} l :
  Forall P l -> filter P l = l.
Proof. induction 1; [done|]. rewrite filter_cons_True by done. by f_equal. Qed.

Section Walk.
Context {D J : Type} {dops : DecimalOps D} {dlaws : DecimalLaws D} {pg : PgDecimal D}.
Context {pgl : PgDecimalLaws D} {dt : DecimalText D}.
Context (ledger_id : nat -> Z).

(** A client that follows [nextCursor] until it is null, the database being another one at
    every request. *)
Fixpoint walk (caller : Uuid) (limit cursor : option Z) (dbs : list (Db J))
    : result ApiError (list LedgerEntryResponse) :=
  match dbs with
  | [] => Ok []
  | db :: dbs =>
      match get_history ledger_id caller (mkHistoryQuery cursor limit) db with
      | Err e => Err e
      | Ok page =>
          match hi_next_cursor page with
          | None => Ok (hi_data page)
          | Some c => res_map (app (hi_data page)) (walk caller limit (Some c) dbs)
          end
      end
  end.

(** Entries were appended, assets added. *)
Definition grown (db db' : Db J) : Prop :=
  (exists more, ledger_entries db' = ledger_entries db ++ more)%list /\ assets db ⊆ assets db'.

(** The columns of an entry fit a decimal and its asset exists. *)
Definition readable (db : Db J) (l : LedgerTab) : Prop :=
  is_Some (assets db !! le_asset_id l) /\ Z.abs (le_amount l) < 2 ^ 96 /\
  Z.abs (le_available_after l) < 2 ^ 96 /\ Z.abs (le_locked_after l) < 2 ^ 96.

Definition entry_response (db : Db J) (il : Z * LedgerTab) : option LedgerEntryResponse :=
  ledger_response <$> decode_entry db il.

Context (Hids : forall n m, (n < m)%nat -> ledger_id n < ledger_id m).

Definition newest_first (l : list (Z * LedgerTab)) : Prop :=
  StronglySorted (fun x y => y.1 < x.1) l.

Lemma imap_ids (f : nat -> nat) ls : (forall n m, (n < m)%nat -> (f n < f m)%nat) ->
  StronglySorted (fun x y => x.1 < y.1) (imap (fun n l => (ledger_id (f n), l : LedgerTab)) ls).
Proof.
  revert f. induction ls as [|l ls IH]; intros f Hf; cbn; [constructor|].
  constructor; [apply (IH (fun n => f (S n))); intros; apply Hf; lia|].
  apply Forall_lookup. intros i [id e] Hi. apply list_lookup_imap_Some in Hi as (? & ? & [= -> ->]).
  cbn. apply Hids, Hf. lia.
Qed.

Lemma StronglySorted_reverse {A} (R : A -> A -> Prop) l :
  StronglySorted R l -> StronglySorted (flip R) (reverse l).
Proof.
  induction 1 as [|x l Hl IH Hx]; [constructor|]. rewrite reverse_cons.
  apply StronglySorted_app. split_and!; [|done|by repeat constructor].
  intros y z Hy ->%list_elem_of_singleton. unfold flip. rewrite elem_of_reverse in Hy.
  rewrite Forall_forall in Hx. by apply Hx.
Qed.

Lemma StronglySorted_filter' {A} (R : A -> A -> Prop) (P : A -> Prop) `{!forall x, Decision (P x)} l :
  StronglySorted R l -> StronglySorted R (filter P l).
Proof.
  induction 1 as [|x l Hl IH Hx]; [constructor|]. rewrite filter_cons. case_decide; [|done].
  constructor; [done|].
  rewrite Forall_forall in *. intros y [_ Hy]%list_elem_of_filter. by apply Hx.
Qed.

Lemma user_entries_sorted (db : Db J) u : newest_first (user_entries ledger_id db u).
Proof.
  unfold user_entries, newest_first. apply StronglySorted_filter'.
  apply (StronglySorted_reverse (fun x y : Z * LedgerTab => x.1 < y.1)).
  apply (imap_ids (fun n => n)). done.
Qed.

(** Entries that came later have larger ids. *)
Lemma entries_before (db db' : Db J) u c k :
  grown db db' -> (k < length (ledger_entries db))%nat -> c = ledger_id k ->
  filter (fun il => before (Some c) il.1 = true) (user_entries ledger_id db' u) =
  filter (fun il => before (Some c) il.1 = true) (user_entries ledger_id db u).
Proof.
  intros [[more E] _] Hk ->. unfold user_entries. rewrite E, imap_app, reverse_app, !filter_app.
  replace (filter _ (filter _ (reverse (imap _ more)))) with (@nil (Z * LedgerTab)); [done|].
  symmetry. apply elem_of_nil_inv. intros [id l] Hin.
  apply list_elem_of_filter in Hin as [Hb [_ Hin]%list_elem_of_filter].
  rewrite elem_of_reverse in Hin. apply list_elem_of_lookup in Hin as [i Hi].
  apply list_lookup_imap_Some in Hi as (? & ? & [= -> ->]). cbn in Hb.
  apply Z.ltb_lt in Hb. specialize (Hids k (length (ledger_entries db) + i) ltac:(lia)). lia.
Qed.

Lemma decode_readable (db : Db J) il : readable db il.2 -> is_Some (decode_entry (D := D) db il).
Proof.
  destruct il as [id l]. intros ([asset Ha] & H1 & H2 & H3). unfold decode_entry. cbn in *.
  rewrite Ha. destruct (of_pg_exact _ H1) as (? & -> & _), (of_pg_exact _ H2) as (? & -> & _),
    (of_pg_exact _ H3) as (? & -> & _). by eexists.
Qed.

Lemma decode_grown (db db' : Db J) il :
  grown db db' -> readable db il.2 -> decode_entry (D := D) db' il = decode_entry db il.
Proof.
  destruct il as [id l]. intros [_ Hassets] ([asset Ha] & _). cbn in Ha. unfold decode_entry.
  by rewrite Ha, (lookup_weaken _ _ _ _ Ha Hassets).
Qed.

Lemma decode_page (db db' : Db J) ils :
  grown db db' -> Forall (fun il => readable db il.2) ils ->
  exists rows, mapM (decode_entry (D := D) db') ils = Some rows /\
    mapM (entry_response db) ils = Some (ledger_response <$> rows) /\
    lw_id <$> rows = ils.*1.
Proof.
  intros Hg. induction 1 as [|il ils Hr _ (rows & E1 & E2 & E3)]; [by exists []|].
  destruct (decode_readable db il Hr) as [row Erow]. exists (row :: rows).
  assert (entry_response db il = Some (ledger_response row)) as Er
    by (unfold entry_response; by rewrite Erow).
  cbn [mapM fmap list_fmap]. rewrite (decode_grown db db' il Hg Hr), Erow, Er, E1, E2. cbn.
  split_and!; [done..|]. f_equal; [|done]. destruct il as [id l]. unfold decode_entry in Erow.
  repeat case_match; by simplify_eq.
Qed.

(** What is left after a page that ends with the id [c]. *)
Lemma filter_rest l1 id e l2 :
  newest_first (l1 ++ (id, e) :: l2) ->
  filter (fun il => before (Some id) il.1 = true) (l1 ++ (id, e) :: l2) = l2.
Proof.
  intros (Hx & _ & [Hs Hle]%StronglySorted_inv)%StronglySorted_app.
  rewrite filter_app, filter_cons. cbn [before fst]. rewrite Z.ltb_irrefl, decide_False by done.
  replace (filter _ l1) with (@nil (Z * LedgerTab)).
  - apply filter_all. eapply Forall_impl; [exact Hle|]. intros [i l]. cbn. by rewrite Z.ltb_lt.
  - symmetry. apply elem_of_nil_inv. intros [i l] [Hb Hin]%list_elem_of_filter.
    specialize (Hx _ _ Hin ltac:(by left)). cbn in *. apply Z.ltb_lt in Hb. lia.
Qed.

Lemma user_entry_id (db : Db J) u il : il ∈ user_entries ledger_id db u ->
  exists k, (k < length (ledger_entries db))%nat /\ il.1 = ledger_id k /\
    ledger_entries db !! k = Some il.2.
Proof.
  unfold user_entries. intros [_ Hin]%list_elem_of_filter. rewrite elem_of_reverse in Hin.
  apply list_elem_of_lookup in Hin as [k Hk]. apply list_lookup_imap_Some in Hk as (l & Hl & ->).
  exists k. split_and!; [by eapply lookup_lt_Some|done|done].
Qed.

(** One page and the rest: [seen] was delivered, [left] is to come. *)
Lemma walk_rest (db : Db J) caller limit (n := Z.to_nat (clamp 1 200 (default default_limit limit))) :
  forall dbs left seen cursor,
  Forall (grown db) dbs -> Forall (readable db) (ledger_entries db) ->
  user_entries ledger_id db caller = (seen ++ left)%list ->
  Forall (fun db' => filter (fun il => before cursor il.1 = true)
    (user_entries ledger_id db' caller) = left) (take 1 dbs) ->
  (length left < length dbs)%nat ->
  exists out, walk caller limit cursor dbs = Ok out /\ mapM (entry_response db) left = Some out.
Proof.
  assert (1 <= n)%nat as Hn.
  { subst n. unfold clamp. repeat case_match; lia. }
  induction dbs as [|db' dbs IH]; intros left seen cursor Hdbs Hread Hsplit Hfirst Hlen;
    cbn in Hlen; [lia|].
  apply Forall_cons in Hdbs as [Hg Hdbs]. apply Forall_cons in Hfirst as [Hfirst _].
  assert (Forall (fun il => readable db il.2) left) as Hleft.
  { apply Forall_forall. intros il Hil.
    destruct (user_entry_id db caller il) as (k & _ & _ & Hk); [rewrite Hsplit; set_solver|].
    by eapply Forall_lookup_1 in Hread. }
  destruct (decode_page db db' (take n left) Hg) as (rows & E1 & E2 & E3); [by apply Forall_take|].
  cbn [walk]. unfold get_history, ledger_history, run_stmt, run_tx. cbn [hq_cursor hq_limit].
  unfold bind, get. rewrite Hfirst. fold n. rewrite E1. cbn [of_option ret fst hi_next_cursor hi_data].
  rewrite <-fmap_last, E3, fmap_last. destruct (last (take n left)) as [[id e]|] eqn:Elast; cbn.
  - apply last_Some in Elast as [page Epage].
    assert (user_entries ledger_id db caller =
      ((seen ++ page) ++ (id, e) :: drop n left)%list) as Euser.
    { rewrite Hsplit, <-(take_drop n left) at 1. by rewrite Epage, <-!app_assoc. }
    destruct (IH (drop n left) (seen ++ take n left)%list (Some id)) as (out & -> & Eout).
    + done.
    + done.
    + by rewrite <-app_assoc, take_drop.
    + apply Forall_take. eapply Forall_impl; [exact Hdbs|]. intros db'' Hg'. cbn beta.
      destruct (user_entry_id db caller (id, e)) as (k & Hk & Eid & _);
        [rewrite Euser; set_solver|].
      rewrite (entries_before db db'' caller id k Hg' Hk Eid), Euser.
      apply filter_rest. rewrite <-Euser. apply user_entries_sorted.
    + rewrite length_drop. assert (length left <> 0)%nat; [|lia].
      intros H0. apply nil_length_inv in H0. rewrite H0 in Epage.
      by destruct page, n.
    + cbn. exists ((ledger_response <$> rows) ++ out)%list. split; [done|].
      rewrite <-(take_drop n left). apply mapM_Some, Forall2_app; by apply mapM_Some.
  - apply last_None in Elast. exists (ledger_response <$> rows). split; [done|].
    rewrite <-E2. f_equal. rewrite Elast.
    destruct left as [|x left]; [done|]. destruct n; [lia|done].
Qed.
End Walk.

(** C37. Walking the history misses nothing and repeats nothing.  A client that follows
    [nextCursor] from the first page, with any limit, gets exactly the entries its ledger
    held at the first request, newest first, whatever is booked while it walks; one
    request more than there are entries is always enough, and no page has more than two
    hundred. *)
Theorem history_pages_are_complete {D J} {dops : DecimalOps D} {dlaws : DecimalLaws D}
    {pg : PgDecimal D} {pgl : PgDecimalLaws D} {dt : DecimalText D} (ledger_id : nat -> Z)
    caller limit (db : Db J) dbs :
  (forall n m, (n < m)%nat -> ledger_id n < ledger_id m) ->
  Forall (grown db) dbs -> Forall (readable db) (ledger_entries db) ->
  (length (user_entries ledger_id db caller) <= length dbs)%nat ->
  (exists out, walk ledger_id caller limit None (db :: dbs) = Ok out /\
     mapM (entry_response db) (user_entries ledger_id db caller) = Some out) /\
  forall q page, get_history ledger_id caller q db = Ok page -> (length (hi_data page) <= 200)%nat.
Proof.
  intros Hids Hdbs Hread Hlen. split.
  - apply (walk_rest ledger_id Hids db caller limit (db :: dbs) _ [] None);
      [|done|done| |cbn; lia].
    + constructor; [|done]. split; [exists []; by rewrite app_nil_r|done].
    + constructor; [|constructor]. apply filter_all, Forall_true. done.
  - intros q page. unfold get_history, ledger_history, run_stmt, run_tx, bind, get.
    destruct (mapM _ _) as [rows|] eqn:E; cbn; [|done]. intros [= <-]. cbn.
    rewrite length_fmap. apply mapM_Some, Forall2_length in E.
    rewrite <-E, length_take. unfold clamp. repeat case_match; lia.
Qed.

(** ** Example: alice walks in pages of two while bob and she are credited. *)

#[local] Existing Instances bit_numbers.

Definition with_entries (es : list LedgerTab) : Db (WireEvent Z) :=
  with_ledger (fun _ => es) (sample_db []).

Definition five_entries : list LedgerTab :=
  [deposit alice usdt 1; deposit bob btc 2; deposit alice btc 3; deposit alice usdt 4;
   deposit bob usdt 5].

Definition growing : list (Db (WireEvent Z)) :=
  [with_entries (five_entries ++ [deposit alice usdt 6]);
   with_entries (five_entries ++ [deposit alice usdt 6; deposit bob usdt 7]);
   with_entries five_entries].

Definition odd_id (n : nat) : Z := 2 * Z.of_nat n + 1.

Example history_pages_are_complete_witness :
  match walk odd_id alice (Some 2) None (with_entries five_entries :: growing) with
  | Ok out => len_id <$> out = [7; 5; 1] | Err _ => False end /\
  exists out, walk odd_id alice (Some 2) None (with_entries five_entries :: growing) = Ok out /\
    mapM (entry_response (with_entries five_entries))
      (user_entries odd_id (with_entries five_entries) alice) = Some out.
Proof.
  split; [vm_compute; reflexivity|].
  refine (proj1 (history_pages_are_complete odd_id alice (Some 2) (with_entries five_entries)
    growing _ _ _ _)).
  - unfold odd_id. lia.
  - constructor; [split; [by exists [deposit alice usdt 6]|done]|].
    constructor; [split; [by exists [deposit alice usdt 6; deposit bob usdt 7]|done]|].
    constructor; [split; [by exists []|done]|constructor].
  - repeat constructor; cbn; eauto; lia.
  - vm_compute. lia.
Defined.
