(* ===== verification/MarketData.v ===== *)
(** * MarketData: the market-data service, [services/market-data/src]

    Binance ingestion ([binance.rs]), the klines it stores ([persistence.rs]), the quotes
    of the demo market maker ([quoting.rs]), its client of the matching engine
    ([engine.rs]) and the refresh of its quotes ([market_maker.rs]), with the event loop
    of [main.rs].  The JSON of Binance and the network are parameters: [exchange] is one
    connection to the engine, the responses it delivers and how it ends. *)
From S2P Require Import Prelude Decimal Proto Numeric Database ApiBase AuthBase.

#[local] Open Scope string_scope.

(** ** Binance *)

Definition BINANCE_COMBINED_STREAM_BASE : string :=
  "wss://stream.binance.com:9443/stream?streams=".
Definition DEFAULT_KLINE_INTERVAL : string := "1m".
Definition RECONNECT_BASE_MS : Z := 250.
Definition RECONNECT_MAX_MS : Z := 5000.

Definition DEFAULT_TOP_USDT_SYMBOLS : list string :=
  ["BTCUSDT"; "ETHUSDT"; "BNBUSDT"; "SOLUSDT"; "XRPUSDT"; "DOGEUSDT"; "ADAUSDT"; "TRXUSDT";
   "AVAXUSDT"; "LINKUSDT"; "TONUSDT"; "SHIBUSDT"; "DOTUSDT"; "BCHUSDT"; "NEARUSDT";
   "MATICUSDT"; "LTCUSDT"; "UNIUSDT"; "ICPUSDT"; "APTUSDT"; "ETCUSDT"; "FILUSDT";
   "ATOMUSDT"; "ARBUSDT"; "OPUSDT"; "INJUSDT"; "SUIUSDT"; "STXUSDT"; "IMXUSDT";
   "HBARUSDT"; "VETUSDT"; "MKRUSDT"; "RNDRUSDT"; "AAVEUSDT"; "GRTUSDT"; "ARUSDT";
   "RUNEUSDT"; "LDOUSDT"; "THETAUSDT"; "ALGOUSDT"; "QNTUSDT"; "FTMUSDT"; "FLOWUSDT";
   "JASMYUSDT"; "SEIUSDT"; "WIFUSDT"; "FETUSDT"; "TIAUSDT"; "PEPEUSDT"; "BONKUSDT"].

Definition default_top_usdt_symbols : list string := DEFAULT_TOP_USDT_SYMBOLS.

Record BookTicker (D : Type) := mkBookTicker {
  bt_symbol : string; bt_bid_price : D; bt_bid_quantity : D; bt_ask_price : D;
  bt_ask_quantity : D }.
Arguments mkBookTicker {D}.
Arguments bt_symbol {D} _.
Arguments bt_bid_price {D} _.
Arguments bt_bid_quantity {D} _.
Arguments bt_ask_price {D} _.
Arguments bt_ask_quantity {D} _.

Record KlineUpdate (D : Type) := mkKlineUpdate {
  ku_symbol : string; ku_interval : string; ku_open_time_ms : Z; ku_close_time_ms : Z;
  ku_open : D; ku_high : D; ku_low : D; ku_close : D; ku_volume : D; ku_is_closed : bool }.
Arguments mkKlineUpdate {D}.
Arguments ku_symbol {D} _.
Arguments ku_interval {D} _.
Arguments ku_open_time_ms {D} _.
Arguments ku_close_time_ms {D} _.
Arguments ku_open {D} _.
Arguments ku_high {D} _.
Arguments ku_low {D} _.
Arguments ku_close {D} _.
Arguments ku_volume {D} _.
Arguments ku_is_closed {D} _.

Inductive BinanceEvent (D : Type) := EvBookTicker (t : BookTicker D) | EvKline (k : KlineUpdate D).
Arguments EvBookTicker {D} _.
Arguments EvKline {D} _.

(** [serde_json::from_str] into [CombinedBookTicker] and [CombinedKline], whose fields
    are those of the updates under Binance's names. *)
Class BinanceJson (D : Type) := {
  ticker_from_str : string -> option (BookTicker D);
  kline_from_str : string -> option (KlineUpdate D);
}.

Inductive StreamKind := KindBookTicker | KindKline1m.

Definition stream_name (symbol : string) (kind : StreamKind) : string :=
  match kind with
  | KindBookTicker => map_string ascii_lower symbol ++ "@bookTicker"
  | KindKline1m => map_string ascii_lower symbol ++ "@kline_" ++ DEFAULT_KLINE_INTERVAL
  end.

Definition combined_stream_url (symbols : list string) (kinds : list StreamKind) : string :=
  BINANCE_COMBINED_STREAM_BASE ++
  String.concat "/" (concat ((fun symbol => stream_name symbol <$> kinds) <$> symbols)).

Definition combined_book_ticker_url (symbols : list string) : string :=
  combined_stream_url symbols [KindBookTicker].
Definition combined_market_data_url (symbols : list string) : string :=
  combined_stream_url symbols [KindBookTicker; KindKline1m].

(** The wait after a connection ended, in milliseconds. *)
Definition next_backoff (backoff : Z) : Z := Z.min (backoff * 2) RECONNECT_MAX_MS.

Section Parse.
Context {D : Type} {bj : BinanceJson D}.

Definition parse_event (payload : string) : option (BinanceEvent D) :=
  match ticker_from_str payload with
  | Some t => Some (EvBookTicker t)
  | None => EvKline <$> kline_from_str payload
  end.

(** A message of the stream: text, or something else. *)
Inductive StreamMessage := MsgText (text : string) | MsgOther | MsgFailed.

(** [run_once] on the messages of a connection while the receiver takes [room] events:
    what is delivered, and whether the connection ended without a failure. *)
Fixpoint run_once (room : nat) (messages : list StreamMessage) : list (BinanceEvent D) * bool :=
  match messages with
  | [] => ([], true)
  | MsgFailed :: _ => ([], false)
  | MsgOther :: rest => run_once room rest
  | MsgText text :: rest =>
      match parse_event text with
      | None => run_once room rest
      | Some event =>
          match room with
          | O => ([], true)
          | S room => let '(events, ok) := run_once room rest in (event :: events, ok)
          end
      end
  end.

(** One attempt to connect: refused, or the messages until the connection ended. *)
Definition Attempt : Type := option (list StreamMessage).

(** [run_reconnecting_stream] over the attempts the network grants: the events delivered
    and the waits in between, in milliseconds.  The receiver takes [room] events and is
    then dropped, which [tx.is_closed] reports. *)
Fixpoint reconnecting (room : nat) (backoff : Z) (attempts : list Attempt)
    : list (BinanceEvent D) * list Z :=
  match attempts with
  | [] => ([], [])
  | attempt :: rest =>
      let events := match attempt with
                    | None => []
                    | Some messages => (run_once room messages).1
                    end in
      let room := (room - length events)%nat in
      if bool_decide (room = 0%nat) then (events, [])
      else
        let '(more, waits) := reconnecting room (next_backoff backoff) rest in
        ((events ++ more)%list, backoff :: waits)
  end.

Definition run_reconnecting_stream (room : nat) (attempts : list Attempt)
    : list (BinanceEvent D) * list Z := reconnecting room RECONNECT_BASE_MS attempts.

(** The events a connection carries before it fails or ends. *)
Fixpoint carried (messages : list StreamMessage) : list (BinanceEvent D) :=
  match messages with
  | [] | MsgFailed :: _ => []
  | MsgOther :: rest => carried rest
  | MsgText text :: rest => (option_list (parse_event text) ++ carried rest)%list
  end.

Lemma run_once_carried messages : forall room,
  (run_once room messages).1 = take room (carried messages).
Proof.
  induction messages as [|[text| |] messages IH]; intros room; cbn; try done;
    rewrite ?take_nil; try done.
  destruct (parse_event text) as [e|]; cbn; [|apply IH]. destruct room as [|room]; [done|].
  specialize (IH room). by destruct (run_once room messages); cbn in *; rewrite IH.
Qed.

(** What a dropped connection does not carry is lost; what the connections do carry is
    delivered in order, whatever fails in between, until the receiver is dropped. *)
Lemma stream_delivers attempts : forall room backoff, (0 < room)%nat ->
  (reconnecting room backoff attempts).1 =
  take room (flat_map (fun a => from_option carried [] a) attempts).
Proof.
  induction attempts as [|a attempts IH]; intros room backoff Hroom; [by destruct room|].
  cbn [reconnecting flat_map]. set (evs := from_option carried [] a).
  assert (match a with Some messages => (run_once room messages).1 | None => [] end =
    take room evs) as ->.
  { subst evs. destruct a as [m|]; cbn; [apply run_once_carried|by destruct room]. }
  rewrite take_app, length_take. case_bool_decide as Hr.
  - cbn. replace (room - length evs)%nat with 0%nat by lia. by rewrite app_nil_r.
  - replace (room - Nat.min room (length evs))%nat with (room - length evs)%nat in * by lia.
    specialize (IH (room - length evs)%nat (next_backoff backoff) ltac:(lia)).
    destruct (reconnecting _ _ attempts). cbn in *. by rewrite IH.
Qed.

(** The [k]th wait: doubled every time, however long the connections lasted. *)
Lemma reconnect_waits attempts : forall room backoff k w,
  0 < backoff -> (reconnecting room backoff attempts).2 !! k = Some w ->
  w = match k with O => backoff | S _ => Z.min (backoff * 2 ^ Z.of_nat k) RECONNECT_MAX_MS end.
Proof.
  induction attempts as [|a attempts IH]; intros room backoff k w Hb H; [done|].
  cbn [reconnecting] in H. case_bool_decide; [done|].
  specialize (IH (room - length match a with
    | Some messages => (run_once room messages).1 | None => [] end)%nat (next_backoff backoff)).
  destruct (reconnecting _ _ attempts) as [more waits]. cbn in *.
  destruct k as [|k]; [by injection H|]. cbn in H.
  assert (0 < next_backoff backoff) as Hn by (unfold next_backoff, RECONNECT_MAX_MS; lia).
  rewrite (IH k w Hn H). unfold next_backoff, RECONNECT_MAX_MS.
  rewrite Nat2Z.inj_succ, Z.pow_succ_r by lia. pose proof (Z.pow_pos_nonneg 2 (Z.of_nat k)).
  destruct k as [|k]; [cbn; lia|]. nia.
Qed.
End Parse.

(** [stream_symbols] of [main.rs]: a [BTreeSet]. *)
Definition stream_symbols (local_symbols : list string) : gset string :=
  list_to_set default_top_usdt_symbols ∪ list_to_set local_symbols.

(** ** Klines *)

Record KlineRow := mkKlineRow {
  kw_closed_at : Z; kw_open : Z; kw_high : Z; kw_low : Z; kw_close : Z; kw_volume : Z;
  kw_is_closed : bool }.

Definition kline_interval_labels : list string := ["1m"; "5m"; "15m"; "1h"; "4h"; "1d"].

(** Symbol, interval and opening time in milliseconds. *)
Definition Klines : Type := gmap (string * string * Z) KlineRow.

Inductive PersistenceError := PeDatabase | PeInvalidTimestamp.

(** [OffsetDateTime] spans the years -9999 to 9999. *)
Definition MIN_DATE_MS : Z := -377705116800000.
Definition MAX_DATE_MS : Z := 253402300799999.

Definition millis_to_offset (ms : Z) : result PersistenceError Z :=
  if ((MIN_DATE_MS <=? ms) && (ms <=? MAX_DATE_MS))%Z then Ok ms else Err PeInvalidTimestamp.

Definition kline_checks (k : KlineRow) : bool :=
  ((0 <? kw_open k) && (0 <? kw_high k) && (0 <? kw_low k) && (0 <? kw_close k) &&
   (0 <=? kw_volume k) && (kw_low k <=? kw_high k))%Z.

Section Klines.
Context {D J : Type} {pg : PgDecimal D}.

Definition kline_row (k : KlineUpdate D) (closed_at : Z) : option KlineRow :=
  match to_column (to_pg (ku_open k)), to_column (to_pg (ku_high k)),
        to_column (to_pg (ku_low k)), to_column (to_pg (ku_close k)),
        to_column (to_pg (ku_volume k)) with
  | Some open, Some high, Some low, Some close, Some volume =>
      Some (mkKlineRow closed_at open high low close volume (ku_is_closed k))
  | _, _, _, _, _ => None
  end.

(** [INSERT .. ON CONFLICT (symbol, interval, opened_at) DO UPDATE]. *)
Definition upsert_kline (k : KlineUpdate D) (rows : Klines) : result PersistenceError () * Klines :=
  match millis_to_offset (ku_open_time_ms k) with
  | Err e => (Err e, rows)
  | Ok opened_at =>
      match millis_to_offset (ku_close_time_ms k) with
      | Err e => (Err e, rows)
      | Ok closed_at =>
          match kline_row k closed_at with
          | Some row =>
              if bool_decide (ku_interval k ∈ kline_interval_labels) && kline_checks row
              then (Ok (), <[(ku_symbol k, ku_interval k, opened_at) := row]> rows)
              else (Err PeDatabase, rows)
          | None => (Err PeDatabase, rows)
          end
      end
  end.

Definition string_le (a b : string) : Prop := String.leb a b = true.
#[export] Instance string_le_dec a b : Decision (string_le a b).
Proof. unfold string_le. apply _. Defined.

(** [ORDER BY symbol], in the C collation. *)
Definition load_active_markets (db : Db J) : list string :=
  merge_sort string_le
    (mt_symbol <$> filter (fun m => mt_status m = "trading") (map_to_list (markets db)).*2).
End Klines.

(** ** Quotes *)

Definition BPS_DENOMINATOR : Z := 10000.
Definition DEFAULT_LEVELS : nat := 10.

Record QuoteLevel (D : Type) := mkQuote { ql_price : D; ql_quantity : D }.
Arguments mkQuote {D}.
Arguments ql_price {D} _.
Arguments ql_quantity {D} _.

Record QuoteSet (D : Type) := mkQuoteSet { qs_bids : list (QuoteLevel D); qs_asks : list (QuoteLevel D) }.
Arguments mkQuoteSet {D}.
Arguments qs_bids {D} _.
Arguments qs_asks {D} _.

Record QuoteGenerator (D : Type) := mkGenerator {
  qg_levels : nat; qg_spread_bps : D; qg_base_quantity : D }.
Arguments mkGenerator {D}.
Arguments qg_levels {D} _.
Arguments qg_spread_bps {D} _.
Arguments qg_base_quantity {D} _.

Section Quoting.
Context {D : Type} {dops : DecimalOps D}.
Open Scope dec_scope.

(** [Decimal::ONE]. *)
Definition decimal_one : D := dnew 1 0.

Definition default_10x10 : QuoteGenerator D := mkGenerator DEFAULT_LEVELS (dnew 5 0) (dnew 1 0).

Definition quote_offset (g : QuoteGenerator D) (level : nat) : D :=
  qg_spread_bps g * dnew (Z.of_nat level) 0 / dnew BPS_DENOMINATOR 0.

Definition generate (g : QuoteGenerator D) (ticker : BookTicker D) : QuoteSet D :=
  let mid := (bt_bid_price ticker + bt_ask_price ticker) / dnew 2 0 in
  let quote (price : D -> D) level :=
    mkQuote (price (quote_offset g level)) (qg_base_quantity g * dnew (Z.of_nat level) 0) in
  let levels := seq 1 (qg_levels g) in
  mkQuoteSet (quote (fun offset => mid * (decimal_one - offset)) <$> levels)
    (quote (fun offset => mid * (decimal_one + offset)) <$> levels).
End Quoting.

(** ** The engine client *)

Inductive MmError := MmIo | MmTimeout | MmRejected (code : string) | MmUnexpected.

(** How the stream of responses ends, unless the client has read enough. *)
Inductive StreamEnd := EndOfStream | StreamFailed | StreamTimedOut.

Class EngineNetwork (D W : Type) := {
  exchange : EngineRequest D -> W -> (list (EngineResponse D) * StreamEnd) * W;
}.

Section Client.
Context {D W : Type} {net : EngineNetwork D W} {us : UuidSource}.

(** The network and the identifiers drawn. *)
Record MmWorld := mkMmWorld { mm_net : W; mm_uuids : nat }.

Fixpoint read_non_event_response (responses : list (EngineResponse D)) (stop : StreamEnd)
    : result MmError (EngineResponse D) :=
  match responses with
  | RespEvent _ :: rest => read_non_event_response rest stop
  | response :: _ => Ok response
  | [] => Err (match stop with
               | EndOfStream => MmUnexpected
               | StreamFailed => MmIo
               | StreamTimedOut => MmTimeout end)
  end.

Definition mm_send (request : EngineRequest D) (w : MmWorld)
    : result MmError (EngineResponse D) * MmWorld :=
  let '((responses, stop), net) := exchange request (mm_net w) in
  (read_non_event_response responses stop, mkMmWorld net (mm_uuids w)).

(** What [cancel_all] and [place] have in common. *)
Definition mm_expect (request_id : Uuid) (expected : AckResult D -> bool)
    (r : result MmError (EngineResponse D)) : result MmError () :=
  match r with
  | Err e => Err e
  | Ok (RespAck id result) =>
      if bool_decide (id = request_id) && expected result then Ok () else Err MmUnexpected
  | Ok (RespReject reject) => Err (MmRejected (rj_code reject))
  | Ok _ => Err MmUnexpected
  end.

Definition mm_fresh (w : MmWorld) : Uuid * MmWorld :=
  (new_v4 (mm_uuids w), mkMmWorld (mm_net w) (S (mm_uuids w))).

Definition mm_cancel_all (user_id : Uuid) (symbol : string) (w : MmWorld)
    : result MmError () * MmWorld :=
  let '(request_id, w) := mm_fresh w in
  let '(r, w) := mm_send (ReqCancelAll (mkCancelAll request_id user_id (Some symbol))) w in
  (mm_expect request_id (fun a => match a with AckCancelAll _ => true | _ => false end) r, w).

Definition mm_place (order : EngineOrder D) (w : MmWorld) : result MmError () * MmWorld :=
  let '(request_id, w) := mm_fresh w in
  let '(r, w) := mm_send (ReqPlace (mkPlace request_id order)) w in
  (mm_expect request_id (fun a => match a with AckOrder _ => true | _ => false end) r, w).

(** [quote_order] with the identifier it draws. *)
Definition quote_order (id user_id : Uuid) (symbol : string) (side : OrderSide) (price quantity : D)
    : EngineOrder D :=
  mkEngineOrder id user_id symbol side WPostOnly (Some price) quantity WDecrement None None None.
End Client.
Arguments MmWorld W : clear implicits.

(** ** The market maker *)

Record TimedTicker (D : Type) := mkTimed { tt_ticker : BookTicker D; tt_updated_at : Z }.
Arguments mkTimed {D}.
Arguments tt_ticker {D} _.
Arguments tt_updated_at {D} _.

Record MarketMaker (D : Type) := mkMarketMaker {
  mk_quote_generator : QuoteGenerator D;
  mk_quoted_symbols : gset string;
  mk_user_id : Uuid;
  mk_stale_after : Z;
  mk_latest : gmap string (TimedTicker D);
}.
Arguments mkMarketMaker {D}.
Arguments mk_quote_generator {D} _.
Arguments mk_quoted_symbols {D} _.
Arguments mk_user_id {D} _.
Arguments mk_stale_after {D} _.
Arguments mk_latest {D} _.

Section MarketMaker.
Context {D W : Type} {dops : DecimalOps D} {net : EngineNetwork D W} {us : UuidSource}.
Abbreviation MmWorld := (MmWorld W).

Definition MarketMaker_new (user_id : Uuid) (stale_after : Z) (quoted_symbols : list string)
    : MarketMaker D :=
  mkMarketMaker default_10x10 (list_to_set quoted_symbols) user_id stale_after ∅.

(** Instants are counted in milliseconds. *)
Definition record_ticker (ticker : BookTicker D) (now : Z) (m : MarketMaker D) : MarketMaker D :=
  if bool_decide (bt_symbol ticker ∈ mk_quoted_symbols m)
  then mkMarketMaker (mk_quote_generator m) (mk_quoted_symbols m) (mk_user_id m)
         (mk_stale_after m) (<[bt_symbol ticker := mkTimed ticker now]> (mk_latest m))
  else m.

(** One side of the quotes, until an order fails. *)
Fixpoint place_quotes (user_id : Uuid) (symbol : string) (side : OrderSide)
    (quotes : list (QuoteLevel D)) (w : MmWorld) : result MmError () * MmWorld :=
  match quotes with
  | [] => (Ok (), w)
  | quote :: rest =>
      let '(id, w) := mm_fresh w in
      match mm_place (quote_order id user_id symbol side (ql_price quote) (ql_quantity quote)) w with
      | (Ok _, w) => place_quotes user_id symbol side rest w
      | (Err e, w) => (Err e, w)
      end
  end.

(** The body of the loop over the latest tickers, at the instant [now]. *)
Definition refresh_symbol (m : MarketMaker D) (now : Z) (symbol : string) (timed : TimedTicker D)
    (w : MmWorld) : result MmError () * MmWorld :=
  if (mk_stale_after m <? now - tt_updated_at timed)%Z then mm_cancel_all (D := D) (mk_user_id m) symbol w
  else
    let quotes := generate (mk_quote_generator m) (tt_ticker timed) in
    match mm_cancel_all (D := D) (mk_user_id m) symbol w with
    | (Err e, w) => (Err e, w)
    | (Ok _, w) =>
        match place_quotes (mk_user_id m) symbol WBuy (qs_bids quotes) w with
        | (Err e, w) => (Err e, w)
        | (Ok _, w) => place_quotes (mk_user_id m) symbol WSell (qs_asks quotes) w
        end
    end.

Fixpoint refresh_loop (m : MarketMaker D) (now : Z) (latest : list (string * TimedTicker D))
    (w : MmWorld) : result MmError () * MmWorld :=
  match latest with
  | [] => (Ok (), w)
  | (symbol, timed) :: rest =>
      match refresh_symbol m now symbol timed w with
      | (Ok _, w) => refresh_loop m now rest w
      | (Err e, w) => (Err e, w)
      end
  end.

(** The order in which a [HashMap] is iterated is not specified. *)
Definition refresh_quotes (m : MarketMaker D) (now : Z) (w : MmWorld) : result MmError () * MmWorld :=
  refresh_loop m now (map_to_list (mk_latest m)) w.

(** ** The event loop of [main.rs] *)

Inductive MdInput := MdEvent (e : BinanceEvent D) | MdTick | MdShutdown.

Record MdState := mkMd { md_maker : MarketMaker D; md_klines : Klines; md_world : MmWorld }.

Context {pg : PgDecimal D}.

Definition handle_event (e : BinanceEvent D) (now : Z) (s : MdState) : bool * MdState :=
  match e with
  | EvBookTicker ticker =>
      (true, mkMd (record_ticker ticker now (md_maker s)) (md_klines s) (md_world s))
  | EvKline k =>
      let '(r, rows) := upsert_kline k (md_klines s) in
      (match r with Ok _ => true | Err _ => false end, mkMd (md_maker s) rows (md_world s))
  end.

(** [run], on what its [select!] takes up and when: the process ends with the first error
    ([false]) or with a shutdown. *)
Fixpoint md_run (inputs : list (Z * MdInput)) (s : MdState) : bool * MdState :=
  match inputs with
  | [] => (true, s)
  | (now, MdEvent e) :: rest =>
      match handle_event e now s with
      | (true, s) => md_run rest s
      | (false, s) => (false, s)
      end
  | (now, MdTick) :: rest =>
      match refresh_quotes (md_maker s) now (md_world s) with
      | (Ok _, w) => md_run rest (mkMd (md_maker s) (md_klines s) w)
      | (Err _, w) => (false, mkMd (md_maker s) (md_klines s) w)
      end
  | (_, MdShutdown) :: _ => (true, s)
  end.
End MarketMaker.

(** * The correctness of the market maker's quotes *)

(** ** Quotes *)

Section Quotes.
Context {D : Type} {dops : DecimalOps D} {dlaws : DecimalLaws D}.

(** Ten to the minus [s], in units. *)
Definition scale (s : nat) : Z := 10 ^ (28 - Z.of_nat s).

(** The decimal [n * 10^-s]. *)
Definition at_scale (x : D) (n : Z) (s : nat) : Prop := units x = n * scale s.

Lemma scale_exists n s : (s <= 28)%nat -> Z.abs n < 2 ^ 96 -> exists x : D, at_scale x n s.
Proof. intros Hs Hn. exists (dnew n s). by apply units_new. Qed.

Lemma scale_add s k : (s + k <= 28)%nat -> scale s = 10 ^ Z.of_nat k * scale (s + k).
Proof.
  intros H. unfold scale. rewrite <-Z.pow_add_r by lia. f_equal. lia.
Qed.

Lemma scale_0 : scale 0 = 10000 * scale 4.
Proof. vm_compute. reflexivity. Qed.

Lemma at_scale_zero n : units (dnew n 0 : D) = n * ONE -> at_scale (dnew n 0) n 0.
Proof. done. Qed.

Lemma dnew_is n s : (s <= 28)%nat -> Z.abs n < 2 ^ 96 -> at_scale (dnew n s : D) n s.
Proof. intros. by apply units_new. Qed.

(** [spread * level / 10000], exactly. *)
Lemma offset_is level : (level <= 10)%nat ->
  at_scale (quote_offset (default_10x10 (D := D)) level) (5 * Z.of_nat level) 4.
Proof.
  intros Hl. unfold quote_offset, default_10x10. cbn [qg_spread_bps].
  set (k := Z.of_nat level). assert (0 <= k <= 10) as Hk by lia.
  destruct (scale_exists (5 * k) 0) as [p Hp]; [lia|lia|].
  assert (dmul (dnew 5 0) (dnew k 0) = p) as ->.
  { apply dmul_exact. rewrite Hp, !dnew_is by lia. change (scale 0) with ONE. ring. }
  destruct (scale_exists (5 * k) 4) as [r Hr]; [lia|lia|].
  assert (ddiv p (dnew BPS_DENOMINATOR 0) = r) as ->; [|done].
  apply ddiv_exact; rewrite ?Hp, ?Hr, !dnew_is by (unfold BPS_DENOMINATOR; lia);
    change (scale 0) with ONE; unfold BPS_DENOMINATOR; [done|].
  replace ONE with (10000 * scale 4) by done. ring.
Qed.

Context (s : nat) (Hs : (s + 5 <= 28)%nat).

(** [mid * n / 10000] for a mid of [m * 10^-s / 2]. *)
Lemma price_is mid factor n m :
  at_scale mid (5 * m) (s + 1) -> at_scale factor n 4 -> Z.abs (5 * m * n) < 2 ^ 96 ->
  at_scale (dmul mid factor : D) (5 * m * n) (s + 5).
Proof.
  intros Hm Hf Hb. destruct (scale_exists (5 * m * n) (s + 5)) as [r Hr]; [lia|done|].
  assert (dmul mid factor = r) as ->; [|done].
  apply dmul_exact. rewrite Hm, Hf, Hr.
  replace (scale (s + 1)) with (10 ^ 4 * scale (s + 5))
    by (rewrite (scale_add (s + 1) 4) by lia; do 2 f_equal; lia).
  replace ONE with (10 ^ 4 * scale 4) by done. ring.
Qed.

Lemma mid_is (x y : D) b a :
  at_scale x b s -> at_scale y a s -> Z.abs (5 * (b + a)) < 2 ^ 96 ->
  at_scale (ddiv (dadd x y) (dnew 2 0)) (5 * (b + a)) (s + 1).
Proof.
  intros Hx Hy Hb. destruct (scale_exists (b + a) s) as [z Hz]; [lia|lia|].
  assert (dadd x y = z) as -> by (apply dadd_exact; rewrite Hx, Hy, Hz; ring).
  destruct (scale_exists (5 * (b + a)) (s + 1)) as [r Hr]; [lia|done|].
  assert (ddiv z (dnew 2 0) = r) as ->; [|done].
  apply ddiv_exact; rewrite ?Hz, ?Hr, dnew_is by lia; change (scale 0) with ONE; [done|].
  rewrite (scale_add s 1) by lia. change (10 ^ Z.of_nat 1) with 10. ring.
Qed.

Lemma factor_is level : (level <= 10)%nat ->
  at_scale (dsub decimal_one (quote_offset (default_10x10 (D := D)) level))
    (10000 - 5 * Z.of_nat level) 4 /\
  at_scale (dadd decimal_one (quote_offset (default_10x10 (D := D)) level))
    (10000 + 5 * Z.of_nat level) 4.
Proof.
  intros Hl. pose proof (offset_is level Hl) as Ho. unfold decimal_one.
  assert (at_scale (dnew 1 0 : D) 1 0) as H1 by (apply dnew_is; lia).
  split; [destruct (scale_exists (10000 - 5 * Z.of_nat level) 4) as [r Hr]
         |destruct (scale_exists (10000 + 5 * Z.of_nat level) 4) as [r Hr]]; [lia|lia| |lia|lia|].
  - assert (dsub (dnew 1 0) (quote_offset default_10x10 level) = r) as ->; [|done].
    apply dsub_exact. rewrite H1, Ho, Hr, scale_0. ring.
  - assert (dadd (dnew 1 0) (quote_offset default_10x10 level) = r) as ->; [|done].
    apply dadd_exact. rewrite H1, Ho, Hr, scale_0. ring.
Qed.

Lemma quantity_is level : (level <= 10)%nat ->
  units (dmul (dnew 1 0) (dnew (Z.of_nat level) 0) : D) = Z.of_nat level * ONE.
Proof.
  intros Hl. destruct (scale_exists (Z.of_nat level) 0) as [r Hr]; [lia|lia|].
  assert (dmul (dnew 1 0) (dnew (Z.of_nat level) 0) = r) as ->; [|done].
  apply dmul_exact. rewrite Hr, !dnew_is by lia. change (scale 0) with ONE. ring.
Qed.

(** Both quotes of one level. *)
Lemma level_quotes (ticker : BookTicker D) b a (level : nat) :
  at_scale (bt_bid_price ticker) b s -> at_scale (bt_ask_price ticker) a s ->
  0 < b -> 0 < a -> 5 * (b + a) * 10050 < 2 ^ 96 -> (1 <= level <= 10)%nat ->
  exists bid ask : QuoteLevel D,
    qs_bids (generate default_10x10 ticker) !! pred level = Some bid /\
    qs_asks (generate default_10x10 ticker) !! pred level = Some ask /\
    20000 * units (ql_price bid) =
      (units (bt_bid_price ticker) + units (bt_ask_price ticker)) * (10000 - 5 * Z.of_nat level) /\
    20000 * units (ql_price ask) =
      (units (bt_bid_price ticker) + units (bt_ask_price ticker)) * (10000 + 5 * Z.of_nat level) /\
    units (ql_quantity bid) = Z.of_nat level * ONE /\ units (ql_quantity ask) = Z.of_nat level * ONE.
Proof.
  intros Hb Ha Hb0 Ha0 Hfit Hl. unfold generate. cbn [qs_bids qs_asks].
  assert (seq 1 (qg_levels (default_10x10 (D := D))) !! pred level = Some level) as Hseq.
  { rewrite lookup_seq. unfold default_10x10, DEFAULT_LEVELS. cbn. lia. }
  rewrite !list_lookup_fmap, Hseq. cbn [fmap option_fmap option_map].
  eexists _, _. split; [done|]. split; [done|]. cbn [ql_price ql_quantity].
  pose proof (mid_is _ _ b a Hb Ha ltac:(lia)) as Hmid.
  destruct (factor_is level ltac:(lia)) as [Hlo Hhi].
  rewrite (price_is _ _ _ _ Hmid Hlo) by nia. rewrite (price_is _ _ _ _ Hmid Hhi) by nia.
  rewrite Hb, Ha, (scale_add s 5) by lia. change (10 ^ Z.of_nat 5) with 100000.
  split_and!; [ring|ring|apply quantity_is; lia|apply quantity_is; lia].
Qed.
End Quotes.

(** The quotes bracket the market exactly.  For a ticker with up to 23 decimal places
    that leaves room for five more, there are ten quotes on each side, the [k]th at
    exactly [5 k] basis points from the middle of the ticker, for [k] units of the base
    asset: no price is rounded, every bid is below the middle and every ask above it, and
    prices get strictly worse from level to level. *)
Theorem quotes_bracket_the_mid {D} {dops : DecimalOps D} {dlaws : DecimalLaws D}
    (s : nat) (ticker : BookTicker D) b a :
  (s + 5 <= 28)%nat -> at_scale (bt_bid_price ticker) b s -> at_scale (bt_ask_price ticker) a s ->
  0 < b -> 0 < a -> 5 * (b + a) * 10050 < 2 ^ 96 ->
  let quotes := generate default_10x10 ticker in
  let twice_mid := units (bt_bid_price ticker) + units (bt_ask_price ticker) in
  length (qs_bids quotes) = 10%nat /\ length (qs_asks quotes) = 10%nat /\
  (forall k : nat, (1 <= k <= 10)%nat -> exists bid ask,
     qs_bids quotes !! pred k = Some bid /\ qs_asks quotes !! pred k = Some ask /\
     20000 * units (ql_price bid) = twice_mid * (10000 - 5 * Z.of_nat k) /\
     20000 * units (ql_price ask) = twice_mid * (10000 + 5 * Z.of_nat k) /\
     units (ql_quantity bid) = Z.of_nat k * ONE /\ units (ql_quantity ask) = Z.of_nat k * ONE) /\
  (forall i j bid ask, qs_bids quotes !! i = Some bid -> qs_asks quotes !! j = Some ask ->
     2 * units (ql_price bid) < twice_mid < 2 * units (ql_price ask)) /\
  (forall i j x y, (i < j)%nat ->
     (qs_bids quotes !! i = Some x -> qs_bids quotes !! j = Some y ->
      units (ql_price y) < units (ql_price x)) /\
     (qs_asks quotes !! i = Some x -> qs_asks quotes !! j = Some y ->
      units (ql_price x) < units (ql_price y))).
Proof.
  intros Hs Hb Ha Hb0 Ha0 Hfit quotes twice_mid.
  pose proof (fun k => level_quotes s Hs ticker b a k Hb Ha Hb0 Ha0 Hfit) as Hq.
  assert (0 < twice_mid) as Hmid.
  { unfold twice_mid. rewrite Hb, Ha. assert (0 < scale s) by (apply Z.pow_pos_nonneg; lia). nia. }
  assert (forall i x, qs_bids quotes !! i = Some x -> (i < 10)%nat) as Hlb.
  { intros i x Hx%lookup_lt_Some. unfold quotes, generate in Hx. cbn [qs_bids] in Hx.
    by rewrite length_fmap, length_seq in Hx. }
  assert (forall i x, qs_asks quotes !! i = Some x -> (i < 10)%nat) as Hla.
  { intros i x Hx%lookup_lt_Some. unfold quotes, generate in Hx. cbn [qs_asks] in Hx.
    by rewrite length_fmap, length_seq in Hx. }
  split_and!; [done|done|exact Hq| |].
  - intros i j bid ask Hi Hj.
    destruct (Hq (S i)) as (bid' & _ & Ei & _ & Pi & _); [apply Hlb in Hi; lia|].
    destruct (Hq (S j)) as (_ & ask' & _ & Ej & _ & Pj & _); [apply Hla in Hj; lia|].
    cbn [pred] in *. fold quotes in Ei, Ej. fold twice_mid in Pi, Pj. simplify_eq. nia.
  - intros i j x y Hij. split; intros Hi Hj.
    + destruct (Hq (S i)) as (x' & _ & Ei & _ & Pi & _); [apply Hlb in Hi; lia|].
      destruct (Hq (S j)) as (y' & _ & Ej & _ & Pj & _); [apply Hlb in Hj; lia|].
      cbn [pred] in *. fold quotes in Ei, Ej. fold twice_mid in Pi, Pj. simplify_eq. nia.
    + destruct (Hq (S i)) as (_ & x' & _ & Ei & _ & Pi & _); [apply Hla in Hi; lia|].
      destruct (Hq (S j)) as (_ & y' & _ & Ej & _ & Pj & _); [apply Hla in Hj; lia|].
      cbn [pred] in *. fold quotes in Ei, Ej. fold twice_mid in Pi, Pj. simplify_eq. nia.
Qed.

(** The ticker of the test [generates_ten_bid_and_ask_levels_around_mid]. *)
Definition ticker_100_102 : BookTicker Z :=
  mkBookTicker "BTCUSDT" (100 * ONE) ONE (102 * ONE) ONE.

Example quotes_bracket_the_mid_witness :
  let quotes := generate default_10x10 ticker_100_102 in
  (length (qs_bids quotes) = 10%nat /\ length (qs_asks quotes) = 10%nat) /\
  ql_price <$> qs_bids quotes !! 0%nat = Some (1009495 * 10 ^ 24).
Proof.
  split; [|vm_compute; reflexivity].
  destruct (quotes_bracket_the_mid (D := Z) 0 ticker_100_102 100 102) as (H1 & H2 & _);
    [lia|done|done|lia|lia|lia|by split].
Defined.
