(* ===== verification/Ws.v ===== *)
(** * Ws: the WebSocket feed

    [services/api/src/ws/channels.rs], [ws/hub.rs] and [handlers/ws.rs]: the hub that fans
    engine events out over named channels, the replay buffers of book diffs, and the task
    of one connection with its forwarders.  tokio's broadcast channels and intervals and
    the JSON texts are parameters; instants are counted in milliseconds. *)
From Stdlib Require Import Ascii.
From S2P Require Import Prelude Decimal Proto Database EngineClient ApiBase Reserves.
From S2P Require Import AuthBase Http.

#[local] Open Scope string_scope.

(** ** JSON *)

Definition json_option (v : option string) : Json :=
  match v with Some s => JString s | None => JNull end.

Record ClientParams := mkClientParams {
  cp_channels : option (list string); cp_after_seq : option Z }.
Record ClientMessage := mkClientMessage {
  cm_id : option string; cm_method : string; cm_params : option ClientParams }.

Class WsJson := {
  (** [serde_json::to_vec]. *)
  to_vec : Json -> option string;
  (** [serde_json::from_str::<ClientMessage>]. *)
  parse_client : string -> option ClientMessage;
}.

(** [Decimal::round_dp]. *)
Class DecimalRound (D : Type) := round_dp : D -> nat -> D.

Definition WsFrame : Type := string.

Definition make_frame {wj : WsJson} (value : Json) : WsFrame := default "" (to_vec value).

(** [tokio::time::interval] with its start and period; its first tick completes
    immediately. *)
Class IntervalOps (I : Type) := {
  interval : Z -> Z -> I;
  tick_ready : I -> Z -> bool;
}.
Class IntervalLaws (I : Type) {io : IntervalOps I} := {
  first_tick_immediate now period now' : now <= now' -> tick_ready (interval now period) now' = true;
}.

(** ** Channels *)

Definition book_diff (symbol : string) : string := "book." ++ symbol ++ ".diff".
Definition trade_channel (symbol : string) : string := "trade." ++ symbol.
Definition ticker_channel (symbol : string) : string := "ticker." ++ symbol.
Definition TICKER_ALL : string := "ticker.all".
Definition USER_ORDERS : string := "user.orders".
Definition USER_FILLS : string := "user.fills".
Definition USER_BALANCES : string := "user.balances".

(** ** The hub *)

Definition CHANNEL_CAPACITY : nat := 256.
Definition REPLAY_WINDOW : Z := 60000.

Record TickerSnapshot (D : Type) := mkTickerSnapshot {
  ts_symbol : string; ts_last_price : option D; ts_open_24h : option D;
  ts_high_24h : option D; ts_low_24h : option D; ts_volume_24h : option D }.
Arguments mkTickerSnapshot {D}.
Arguments ts_symbol {D} _.
Arguments ts_last_price {D} _.
Arguments ts_open_24h {D} _.
Arguments ts_high_24h {D} _.
Arguments ts_low_24h {D} _.
Arguments ts_volume_24h {D} _.

Record Hub (S : Type) := mkHub {
  hb_senders : gmap string S;
  hb_replay : gmap string (list (Z * WsFrame));
}.
Arguments mkHub {S}.
Arguments hb_senders {S} _.
Arguments hb_replay {S} _.

Definition side_json (s : OrderSide) : Json :=
  JString (match s with WBuy => "buy" | WSell => "sell" end).
Definition reason_json (r : WCancelReason) : Json :=
  JString (match r with
           | WNoLiquidity => "no_liquidity" | WFokUnfilled => "fok_unfilled"
           | WPostOnlyCrossed => "post_only_crossed"
           | WSelfTradePrevented => "self_trade_prevented" | WOcoLinked => "oco"
           | WAdminCancel => "admin_cancel" end).

Section Hub.
Context {D S R : Type} {bc : BroadcastOps WsFrame S R} {wj : WsJson}.
Context {dops : DecimalOps D} {dt : DecimalText D} {tops : TextOps D} {dr : DecimalRound D}.
Abbreviation Hub := (Hub S).

Definition hub_new : Hub := mkHub ∅ ∅.

(** [entry(channel).or_insert_with(..).subscribe()]. *)
Definition hub_subscribe (channel : string) (h : Hub) : R * Hub :=
  match hb_senders h !! channel with
  | Some sender => (bc_subscribe sender, h)
  | None =>
      let sender := broadcast_channel CHANNEL_CAPACITY in
      (bc_subscribe sender, mkHub (<[channel := sender]> (hb_senders h)) (hb_replay h))
  end.

Definition publish (channel : string) (frame : WsFrame) (h : Hub) : Hub :=
  match hb_senders h !! channel with
  | Some sender => mkHub (<[channel := bc_send frame sender]> (hb_senders h)) (hb_replay h)
  | None => h
  end.

Definition within_window (now : Z) (e : Z * WsFrame) : bool := (now - e.1 <? REPLAY_WINDOW)%Z.

Definition publish_with_replay (now : Z) (channel : string) (frame : WsFrame) (h : Hub) : Hub :=
  let h := publish channel frame h in
  let entry := default [] (hb_replay h !! channel) in
  let kept := filter (fun e => within_window now e = true) entry in
  mkHub (hb_senders h) (<[channel := (kept ++ [(now, frame)])%list]> (hb_replay h)).

Definition replay_diffs (now : Z) (symbol : string) (after_seq : Z) (h : Hub)
    : option (list WsFrame) :=
  match hb_replay h !! book_diff symbol with
  | None => None
  | Some entry =>
      let recent := snd <$> filter (fun e => within_window now e = true) entry in
      if (Z.of_nat (length recent) <? after_seq)%Z then None else Some recent
  end.

Definition price_levels (levels : list (D * D)) : Json :=
  JArray ((fun pq => JArray [JString (decimal_to_string pq.1); JString (decimal_to_string pq.2)])
            <$> levels).

Definition delta_frame (delta : BookDeltaEvent D) (seq : Z) : WsFrame :=
  make_frame (JObject
    [("channel", JString (book_diff (bd_symbol delta))); ("seq", JNumber seq);
     ("data", JObject [("bids", price_levels (bd_bids delta));
                       ("asks", price_levels (bd_asks delta)); ("seq", JNumber seq)])]).

Definition on_book_delta (now : Z) (delta : BookDeltaEvent D) (seq : Z) (h : Hub) : Hub :=
  publish_with_replay now (book_diff (bd_symbol delta)) (delta_frame delta seq) h.

(** The two frames of a fill. *)
Definition trade_frame (fill : TradeFill D) (seq : Z) : WsFrame :=
  make_frame (JObject
    [("channel", JString (trade_channel (tf_symbol fill))); ("seq", JNumber seq);
     ("data", JObject [("id", JString (uuid_text (D := D) (tf_trade_id fill)));
                       ("price", JString (decimal_to_string (tf_price fill)));
                       ("qty", JString (decimal_to_string (tf_quantity fill)));
                       ("side", side_json (tf_taker_side fill)); ("ts", JString (tf_ts fill))])]).
Definition user_fill_frame (fill : TradeFill D) (seq : Z) : WsFrame :=
  make_frame (JObject
    [("channel", JString USER_FILLS); ("seq", JNumber seq);
     ("data", JObject [("tradeId", JString (uuid_text (D := D) (tf_trade_id fill)));
                       ("symbol", JString (tf_symbol fill));
                       ("takerOrderId", JString (uuid_text (D := D) (tf_taker_order_id fill)));
                       ("makerOrderId", JString (uuid_text (D := D) (tf_maker_order_id fill)));
                       ("price", JString (decimal_to_string (tf_price fill)));
                       ("qty", JString (decimal_to_string (tf_quantity fill)));
                       ("takerSide", side_json (tf_taker_side fill));
                       ("ts", JString (tf_ts fill))])]).

Definition on_fill (fill : TradeFill D) (seq : Z) (h : Hub) : Hub :=
  let h := publish (trade_channel (tf_symbol fill)) (trade_frame fill seq) h in
  publish USER_FILLS (user_fill_frame fill seq) h.

Definition order_frame (seq : Z) (data : list (string * Json)) : WsFrame :=
  make_frame (JObject [("channel", JString USER_ORDERS); ("seq", JNumber seq); ("data", JObject data)]).

Definition accepted_frame (order : EngineOrder D) (seq : Z) : WsFrame :=
  order_frame seq [("orderId", JString (uuid_text (D := D) (eo_id order)));
                   ("status", JString "new")].
Definition canceled_frame (order_id : Uuid) (reason : WCancelReason) (seq : Z) : WsFrame :=
  order_frame seq [("orderId", JString (uuid_text (D := D) order_id));
                   ("status", JString "canceled"); ("reason", reason_json reason)].

Definition on_order_accepted_event (order : EngineOrder D) (seq : Z) (h : Hub) : Hub :=
  publish USER_ORDERS (accepted_frame order seq) h.

Definition on_order_canceled_event (order_id : Uuid) (reason : WCancelReason) (seq : Z) (h : Hub) : Hub :=
  publish USER_ORDERS (canceled_frame order_id reason seq) h.

Definition dispatch (now : Z) (e : SequencedEngineEvent D) (h : Hub) : Hub :=
  let seq := se_seq e in
  match se_event e with
  | WeBookDelta delta => on_book_delta now delta seq h
  | WeFill fill => on_fill fill seq h
  | WeOrderAccepted order => on_order_accepted_event order seq h
  | WeOrderCanceled order_id reason => on_order_canceled_event order_id reason seq h
  | WeOrderRested _ _ | WeMarketStatus _ _ => h
  end.

(** [Hub::run] on the events it receives, with the instants. *)
Definition hub_run (events : list (Z * SequencedEngineEvent D)) (h : Hub) : Hub :=
  fold_left (fun h e => dispatch e.1 e.2 h) events h.

Definition price_change_pct (snap : TickerSnapshot D) : option D :=
  match ts_last_price snap, ts_open_24h snap with
  | Some last, Some open =>
      if is_zero open then None
      else Some (round_dp ((last - open) / open * dnew 100 0)%dec 4)
  | _, _ => None
  end.

Definition ticker_item (snap : TickerSnapshot D) : Json :=
  let text v := json_option (decimal_to_string <$> v) in
  JObject
    [("symbol", JString (ts_symbol snap)); ("lastPrice", text (ts_last_price snap));
     ("open24h", text (ts_open_24h snap)); ("high24h", text (ts_high_24h snap));
     ("low24h", text (ts_low_24h snap)); ("volume24h", text (ts_volume_24h snap));
     ("priceChangePct", text (price_change_pct snap))].

Definition ticker_frame (channel : string) (data : Json) : WsFrame :=
  make_frame (JObject [("channel", JString channel); ("data", data)]).

Definition publish_ticker (snapshots : list (TickerSnapshot D)) (h : Hub) : Hub :=
  let h := fold_left (fun h snap =>
    let channel := ticker_channel (ts_symbol snap) in
    publish channel (ticker_frame channel (ticker_item snap)) h) snapshots h in
  match snapshots with
  | [] => h
  | _ => publish TICKER_ALL (ticker_frame TICKER_ALL (JArray (ticker_item <$> snapshots))) h
  end.

Definition balance_frame (user_id : Uuid) (asset available locked : string) (seq : Z) : WsFrame :=
  make_frame (JObject
    [("channel", JString USER_BALANCES); ("seq", JNumber seq);
     ("data", JObject [("userId", JString (uuid_text (D := D) user_id));
                       ("asset", JString asset); ("available", JString available);
                       ("locked", JString locked)])]).

Definition publish_balance_update (user_id : Uuid) (asset available locked : string) (seq : Z)
    (h : Hub) : Hub :=
  publish USER_BALANCES (balance_frame user_id asset available locked seq) h.
End Hub.

(** ** One connection *)

Definition HEARTBEAT_INTERVAL : Z := 20000.
Definition PONG_DEADLINE : Z := 30000.

Definition quoted (s : string) : string := String "034" (s ++ String "034" "").
Definition gap_frame (message : string) : WsFrame :=
  "{" ++ quoted "error" ++ ":{" ++ quoted "code" ++ ":" ++ quoted "GAP_TOO_LARGE" ++ "," ++
  quoted "message" ++ ":" ++ quoted message ++ "}}".
Definition LAG_FRAME : WsFrame := gap_frame "Client lagged; please resync".

Definition is_private_channel (channel : string) : bool :=
  bool_decide (channel ∈ [USER_ORDERS; USER_FILLS; USER_BALANCES]).

(** [str::strip_suffix]. *)
Fixpoint strip_suffix (p s : string) : option string :=
  if String.eqb p s then Some "" else
  match s with
  | String c s => String c <$> strip_suffix p s
  | EmptyString => None
  end.

Definition book_diff_symbol (channel : string) : option string :=
  strip_prefix "book." channel ≫= strip_suffix ".diff".

(** A forwarder task and the channel it was spawned for. *)
Record Forwarder (R : Type) := mkForwarder { fw_channel : string; fw_rx : R }.
Arguments mkForwarder {R}.
Arguments fw_channel {R} _.
Arguments fw_rx {R} _.

(** What [connection] holds: the outbound queue, the subscriptions, the forwarder tasks,
    the heartbeat; and what was written to the socket so far. *)
Inductive Written := WrText (f : WsFrame) | WrPing.

Record Conn (R I : Type) := mkConn {
  cx_out : list WsFrame;
  cx_subscriptions : gset string;
  cx_forwarders : list (Forwarder R);
  cx_heartbeat : I;
  cx_awaiting_pong : bool;
  cx_written : list Written;
}.
Arguments mkConn {R I}.
Arguments cx_out {R I} _.
Arguments cx_subscriptions {R I} _.
Arguments cx_forwarders {R I} _.
Arguments cx_heartbeat {R I} _.
Arguments cx_awaiting_pong {R I} _.
Arguments cx_written {R I} _.

(** The hub, the engine connection and the identifiers drawn; and the events the hub
    takes in while this connection waits for its next snapshots. *)
Record WsWorld (D S W : Type) := mkWsWorld {
  ww_hub : Hub S;
  ww_net : W;
  ww_uuids : nat;
  ww_during : list (list (Z * SequencedEngineEvent D));
}.
Arguments mkWsWorld {D S W}.
Arguments ww_hub {D S W} _.
Arguments ww_net {D S W} _.
Arguments ww_uuids {D S W} _.
Arguments ww_during {D S W} _.

Section Connection.
Context {D S R I W : Type} {bc : BroadcastOps WsFrame S R} {wj : WsJson} {io : IntervalOps I}.
Context {dops : DecimalOps D} {dt : DecimalText D} {tops : TextOps D} {dr : DecimalRound D}.
Context {uc : UnicodeCase} {us : UuidSource} {transport : Transport D W}.
Abbreviation Conn := (Conn R I).
Abbreviation WsWorld := (WsWorld D S W).

Definition push_frame (f : WsFrame) (c : Conn) : Conn :=
  mkConn (cx_out c ++ [f])%list (cx_subscriptions c) (cx_forwarders c) (cx_heartbeat c)
    (cx_awaiting_pong c) (cx_written c).
Definition push_frames (fs : list WsFrame) (c : Conn) : Conn :=
  fold_left (fun c f => push_frame f c) fs c.

Definition server_ack (id : option string) (result : Json) : WsFrame :=
  make_frame (JObject [("id", json_option id); ("result", result)]).
Definition server_error (id : option string) (code message : string) : WsFrame :=
  make_frame (JObject [("id", json_option id);
    ("error", JObject [("code", JString code); ("message", JString message)])]).

Definition snapshot_frame (symbol : string) (snap : BookSnapshot D) : WsFrame :=
  make_frame (JObject
    [("channel", JString ("book." ++ symbol ++ ".snapshot")); ("seq", JNumber (bs_seq snap));
     ("data", JObject [("bids", price_levels (bs_bids snap));
                       ("asks", price_levels (bs_asks snap)); ("seq", JNumber (bs_seq snap))])]).

(** [state.engine.snapshot(..).await]: the hub goes on in the meantime. *)
Definition ws_snapshot (symbol : string) (w : WsWorld)
    : result EngineClientError (BookSnapshot D) * WsWorld :=
  let request := mkSnapshotReq (new_v4 (ww_uuids w)) (to_uppercase symbol) 100 in
  let '(r, net) := client_snapshot request (ww_net w) in
  let '(now_events, later_events) :=
    match ww_during w with [] => ([], []) | es :: rest => (es, rest) end in
  (r, mkWsWorld (hub_run now_events (ww_hub w)) net (Datatypes.S (ww_uuids w)) later_events).

Definition send_book_snapshot (now : Z) (symbol : string) (after_seq : option Z)
    (c : Conn) (w : WsWorld) : Conn * WsWorld :=
  let full c :=
    match ws_snapshot symbol w with
    | (Ok snap, w) => (push_frame (snapshot_frame symbol snap) c, w)
    | (Err _, w) => (c, w)
    end in
  match after_seq with
  | Some seq =>
      match replay_diffs now symbol seq (ww_hub w) with
      | Some frames => (push_frames frames c, w)
      | None => full (push_frame (gap_frame "Gap too large; sending full snapshot") c)
      end
  | None => full c
  end.

(** The body of the loop of ["subscribe"]; [true] when the channel is acknowledged. *)
Definition subscribe_channel (now : Z) (user_id : option Uuid) (id : option string)
    (after_seq : option Z) (channel : string) (c : Conn) (w : WsWorld) : bool * (Conn * WsWorld) :=
  if is_private_channel channel && bool_decide (user_id = None) then
    (false, (push_frame (server_error id "FORBIDDEN" "Token required for private channels") c, w))
  else if bool_decide (channel ∈ cx_subscriptions c) then (true, (c, w))
  else
    let '(c, w) := match book_diff_symbol channel with
                   | Some symbol => send_book_snapshot now symbol after_seq c w
                   | None => (c, w) end in
    let '(rx, hub) := hub_subscribe channel (ww_hub w) in
    (true, (mkConn (cx_out c) ({[channel]} ∪ cx_subscriptions c)
              (cx_forwarders c ++ [mkForwarder channel rx])%list (cx_heartbeat c)
              (cx_awaiting_pong c) (cx_written c),
            mkWsWorld hub (ww_net w) (ww_uuids w) (ww_during w))).

Fixpoint subscribe_channels (now : Z) (user_id : option Uuid) (id : option string)
    (after_seq : option Z) (channels subscribed : list string) (c : Conn) (w : WsWorld)
    : list string * (Conn * WsWorld) :=
  match channels with
  | [] => (subscribed, (c, w))
  | channel :: rest =>
      let '(ok, (c, w)) := subscribe_channel now user_id id after_seq channel c w in
      subscribe_channels now user_id id after_seq rest
        (if ok then subscribed ++ [channel] else subscribed)%list c w
  end.

Definition requested_channels (msg : ClientMessage) : list string :=
  default [] (cm_params msg ≫= cp_channels).

Definition channels_ack (id : option string) (channels : list string) : WsFrame :=
  server_ack id (JObject [("channels", JArray (JString <$> channels))]).

Definition drop_subscriptions (channels : list string) (c : Conn) : Conn :=
  mkConn (cx_out c) (cx_subscriptions c ∖ list_to_set channels) (cx_forwarders c)
    (cx_heartbeat c) (cx_awaiting_pong c) (cx_written c).

Definition handle_client_message (now : Z) (user_id : option Uuid) (raw : string)
    (c : Conn) (w : WsWorld) : Conn * WsWorld :=
  match parse_client raw with
  | None => (push_frame (server_error None "INVALID_MESSAGE" "Invalid JSON message") c, w)
  | Some msg =>
      if String.eqb (cm_method msg) "ping" then
        (push_frame (server_ack (cm_id msg) (JObject [("ts", JNumber now)])) c, w)
      else if String.eqb (cm_method msg) "subscribe" then
        let after_seq := cm_params msg ≫= cp_after_seq in
        let '(subscribed, (c, w)) :=
          subscribe_channels now user_id (cm_id msg) after_seq (requested_channels msg) [] c w in
        (push_frame (channels_ack (cm_id msg) subscribed) c, w)
      else if String.eqb (cm_method msg) "unsubscribe" then
        let channels := requested_channels msg in
        (push_frame (channels_ack (cm_id msg) channels) (drop_subscriptions channels c), w)
      else
        (push_frame (server_error (cm_id msg) "UNKNOWN_METHOD"
                       ("Unknown method: " ++ cm_method msg)) c, w)
  end.

(** One iteration of a forwarder task: what it puts into the queue. *)
Definition poll_forwarder (fw : Forwarder R) (h : Hub S) : option WsFrame * Forwarder R :=
  match hb_senders h !! fw_channel fw with
  | Some sender =>
      let '(received, rx) := bc_recv sender (fw_rx fw) in
      (match received with
       | RxFrame f => Some f
       | RxLagged _ => Some LAG_FRAME
       | RxPending => None
       end, mkForwarder (fw_channel fw) rx)
  | None => (None, fw)
  end.

Definition forward (i : nat) (c : Conn) (w : WsWorld) : Conn :=
  match cx_forwarders c !! i with
  | Some fw =>
      let '(f, fw) := poll_forwarder fw (ww_hub w) in
      push_frames (option_list f)
        (mkConn (cx_out c) (cx_subscriptions c) (<[i := fw]> (cx_forwarders c))
           (cx_heartbeat c) (cx_awaiting_pong c) (cx_written c))
  | None => c
  end.

(** ** The loop of [connection] *)

(** What [select!] takes up, with the success of a write to the socket. *)
Inductive WsInput :=
| InText (raw : string)
| InPong
| InClose
| InOther
| OutFrame (sent : bool)
| Tick (sent : bool).

Inductive Verdict := Continue (c : Conn) (w : WsWorld) | Break.

Definition set_pong (awaiting : bool) (heartbeat : I) (written : list Written) (c : Conn) : Conn :=
  mkConn (cx_out c) (cx_subscriptions c) (cx_forwarders c) heartbeat awaiting
    (cx_written c ++ written)%list.

(** One iteration at the instant [now]; [None] where the branch is not ready. *)
Definition conn_step (now : Z) (user_id : option Uuid) (i : WsInput) (c : Conn) (w : WsWorld)
    : option Verdict :=
  match i with
  | InText raw =>
      let '(c, w) := handle_client_message now user_id raw c w in Some (Continue c w)
  | InPong => Some (Continue (set_pong false (cx_heartbeat c) [] c) w)
  | InClose => Some Break
  | InOther => Some (Continue c w)
  | OutFrame sent =>
      match cx_out c with
      | [] => None
      | f :: rest =>
          if sent then
            Some (Continue (mkConn rest (cx_subscriptions c) (cx_forwarders c) (cx_heartbeat c)
                              (cx_awaiting_pong c) (cx_written c ++ [WrText f])%list) w)
          else Some Break
      end
  | Tick sent =>
      if tick_ready (cx_heartbeat c) now then
        if cx_awaiting_pong c then Some Break
        else if sent then Some (Continue (set_pong true (interval now PONG_DEADLINE) [WrPing] c) w)
        else Some Break
      else None
  end.

Definition conn_new (now : Z) : Conn := mkConn [] ∅ [] (interval now HEARTBEAT_INTERVAL) false [].

(** [ws_handler]: the user of the connection. *)
Definition ws_user {jwt : JwtDecode} (config : TokenConfig) (token : option string) : option Uuid :=
  match token with
  | Some token =>
      match decode_access_token config token with Ok claims => Some (ac_sub claims) | Err _ => None end
  | None => None
  end.
End Connection.
