(* ===== verification/WsProps.v ===== *)
(** * WsProps: the correctness of the WebSocket feed, and where it fails

    [act_frames ch a] is the specification of the hub: the frames one action publishes on
    the channel [ch].  [feed] runs a forwarder among such actions; [delivers] says that its
    output accounts for a stretch of the stream, every gap marked. *)
From stdpp Require Import pretty.
From S2P Require Import Prelude Decimal Proto Database EngineClient ApiBase Reserves.
From S2P Require Import ReservesProps AuthBase Http Ws.

#[local] Open Scope string_scope.

Section Feed.
Context {D S R : Type} {bc : BroadcastOps WsFrame S R} {views : BroadcastViews WsFrame S R}.
Context {laws : BroadcastLaws WsFrame S R} {wj : WsJson}.
Context {dops : DecimalOps D} {dt : DecimalText D} {tops : TextOps D} {dr : DecimalRound D}.
Abbreviation Hub := (Hub S).
Abbreviation Forwarder := (Forwarder R).

(** ** What happens to the hub *)

Inductive HubAction :=
| HaEvent (now : Z) (e : SequencedEngineEvent D)
| HaTicker (snapshots : list (TickerSnapshot D))
| HaBalance (user_id : Uuid) (asset available locked : string) (seq : Z)
| HaSubscribe (channel : string).

Definition hub_act (a : HubAction) (h : Hub) : Hub :=
  match a with
  | HaEvent now e => dispatch now e h
  | HaTicker snapshots => publish_ticker snapshots h
  | HaBalance user asset available locked seq =>
      publish_balance_update (D := D) user asset available locked seq h
  | HaSubscribe channel => (hub_subscribe channel h).2
  end.

(** The frame [f], if it is for the channel. *)
Definition only (channel ch : string) (f : WsFrame) : list WsFrame :=
  if bool_decide (channel = ch) then [f] else [].

Definition event_frames (ch : string) (e : SequencedEngineEvent D) : list WsFrame :=
  let seq := se_seq e in
  match se_event e with
  | WeBookDelta delta => only (book_diff (bd_symbol delta)) ch (delta_frame delta seq)
  | WeFill fill => (only (trade_channel (tf_symbol fill)) ch (trade_frame fill seq) ++
                    only USER_FILLS ch (user_fill_frame fill seq))%list
  | WeOrderAccepted order => only USER_ORDERS ch (accepted_frame order seq)
  | WeOrderCanceled order_id reason => only USER_ORDERS ch (canceled_frame (D := D) order_id reason seq)
  | WeOrderRested _ _ | WeMarketStatus _ _ => []
  end.

Definition ticker_frames (ch : string) (snapshots : list (TickerSnapshot D)) : list WsFrame :=
  (concat ((fun snap => let channel := ticker_channel (ts_symbol snap) in
                        only channel ch (ticker_frame channel (ticker_item snap))) <$> snapshots) ++
   match snapshots with
   | [] => []
   | _ => only TICKER_ALL ch (ticker_frame TICKER_ALL (JArray (ticker_item <$> snapshots)))
   end)%list.

Definition act_frames (ch : string) (a : HubAction) : list WsFrame :=
  match a with
  | HaEvent _ e => event_frames ch e
  | HaTicker snapshots => ticker_frames ch snapshots
  | HaBalance user asset available locked seq =>
      only USER_BALANCES ch (balance_frame (D := D) user asset available locked seq)
  | HaSubscribe _ => []
  end.

(** The channel [ch], once open, has gained the frames [fs]. *)
Definition grows (ch : string) (fs : list WsFrame) (h h' : Hub) : Prop :=
  forall s, hb_senders h !! ch = Some s ->
    exists s', hb_senders h' !! ch = Some s' /\ bc_sent s' = (bc_sent s ++ fs)%list /\
      bc_room s' = bc_room s.

Lemma grows_refl ch h : grows ch [] h h.
Proof. intros s Hs. exists s. by rewrite app_nil_r. Qed.

Lemma grows_trans ch fs gs h1 h2 h3 :
  grows ch fs h1 h2 -> grows ch gs h2 h3 -> grows ch (fs ++ gs) h1 h3.
Proof.
  intros H1 H2 s Hs. destruct (H1 s Hs) as (s' & Hs' & E1 & R1).
  destruct (H2 s' Hs') as (s'' & Hs'' & E2 & R2).
  exists s''. by rewrite E2, E1, R2, R1, app_assoc.
Qed.

Lemma publish_grows ch channel f h : grows ch (only channel ch f) h (publish channel f h).
Proof.
  intros s Hs. unfold only, publish. case_bool_decide as E; [subst channel|].
  - rewrite Hs. cbn. eexists. rewrite lookup_insert_eq. split_and!; [done| |].
    + apply send_sent.
    + apply send_room.
  - exists s. rewrite app_nil_r. destruct (hb_senders h !! channel); [|done].
    cbn. by rewrite lookup_insert_ne.
Qed.

Lemma tickers_grow ch snaps h :
  grows ch (concat ((fun snap => let channel := ticker_channel (ts_symbol snap) in
              only channel ch (ticker_frame channel (ticker_item snap))) <$> snaps)) h
    (fold_left (fun h snap => let channel := ticker_channel (ts_symbol snap) in
       publish channel (ticker_frame channel (ticker_item snap)) h) snaps h).
Proof.
  revert h. induction snaps as [|snap snaps IH]; intros h; [apply grows_refl|].
  cbn. eapply grows_trans; [apply publish_grows|apply IH].
Qed.

Lemma act_grows ch a h : grows ch (act_frames ch a) h (hub_act a h).
Proof.
  destruct a as [now e|snaps|user asset available locked seq|channel]; cbn.
  - unfold dispatch, event_frames. destruct (se_event e) as [| |fill| |delta|]; cbn;
      try apply grows_refl; try apply publish_grows.
    unfold on_fill. eapply grows_trans; apply publish_grows.
  - unfold publish_ticker, ticker_frames. cbv zeta.
    eapply grows_trans; [apply tickers_grow|].
    destruct snaps; [apply grows_refl|apply publish_grows].
  - apply publish_grows.
  - intros s Hs. exists s. rewrite app_nil_r. split; [|done]. unfold hub_subscribe.
    destruct (hb_senders h !! channel) eqn:E; [done|]. cbn.
    rewrite lookup_insert_ne; [done|]. intros ->. congruence.
Qed.

(** Every channel keeps at least the capacity asked for. *)
Definition roomy (h : Hub) : Prop :=
  forall ch s, hb_senders h !! ch = Some s -> (CHANNEL_CAPACITY <= bc_room s)%nat.

Lemma publish_roomy channel f h : roomy h -> roomy (publish channel f h).
Proof.
  intros H ch s. unfold publish. destruct (hb_senders h !! channel) as [s'|] eqn:E; [|apply H].
  cbn. intros [[-> <-]|[_ Hs]]%lookup_insert_Some; [|by eapply H].
  rewrite send_room. by eapply H.
Qed.

Lemma subscribe_roomy channel h : roomy h -> roomy (hub_subscribe channel h).2.
Proof.
  intros H ch s. unfold hub_subscribe. destruct (hb_senders h !! channel) eqn:E; [apply H|].
  cbn. intros [[-> <-]|[_ Hs]]%lookup_insert_Some; [apply channel_room|by eapply H].
Qed.

(** What publishing preserves, the ticker preserves. *)
Lemma ticker_closed (P : Hub -> Prop) snaps h :
  (forall channel f h, P h -> P (publish channel f h)) -> P h -> P (publish_ticker snaps h).
Proof.
  intros Hpub H. unfold publish_ticker. cbv zeta.
  match goal with |- context [fold_left ?g snaps h] => assert (P (fold_left g snaps h)) as Hf end.
  { clear -H Hpub. revert h H. induction snaps as [|snap snaps IH]; intros h H; [done|].
    apply IH. by apply Hpub. }
  destruct snaps; [done|by apply Hpub].
Qed.

Lemma act_roomy a h : roomy h -> roomy (hub_act a h).
Proof.
  intros H. destruct a as [now e|snaps|user asset available locked seq|channel]; cbn.
  - unfold dispatch. destruct (se_event e); try done; unfold on_fill, on_book_delta,
      publish_with_replay; by repeat apply publish_roomy.
  - by apply ticker_closed; [apply publish_roomy|].
  - by apply publish_roomy.
  - by apply subscribe_roomy.
Qed.

Definition hub_acts (acts : list HubAction) : Hub := fold_left (fun h a => hub_act a h) acts hub_new.

Lemma acts_roomy acts : roomy (hub_acts acts).
Proof.
  unfold hub_acts. assert (roomy (hub_new (S := S))) as H by (by intros ch s; unfold hub_new; cbn [hb_senders]; rewrite lookup_empty).
  revert H. generalize (hub_new (S := S)). induction acts as [|a acts IH]; intros h H; [done|].
  apply IH. by apply act_roomy.
Qed.

(** ** A forwarder among the actions *)

Inductive Turn := Act (a : HubAction) | Poll.

Fixpoint feed (ts : list Turn) (fw : Forwarder) (h : Hub) : list WsFrame * (Forwarder * Hub) :=
  match ts with
  | [] => ([], (fw, h))
  | Act a :: ts => feed ts fw (hub_act a h)
  | Poll :: ts =>
      let '(f, fw) := poll_forwarder fw h in
      let '(out, rest) := feed ts fw h in ((option_list f ++ out)%list, rest)
  end.

(** The frames the actions publish on the channel. *)
Fixpoint stream (ch : string) (ts : list Turn) : list WsFrame :=
  match ts with
  | [] => []
  | Act a :: ts => (act_frames ch a ++ stream ch ts)%list
  | Poll :: ts => stream ch ts
  end.

(** The forwarder is never more than the capacity behind. *)
Fixpoint keeps_up (ch : string) (ts : list Turn) (behind : nat) : Prop :=
  match ts with
  | [] => True
  | Act a :: ts =>
      let behind := (behind + length (act_frames ch a))%nat in
      (behind <= CHANNEL_CAPACITY)%nat /\ keeps_up ch ts behind
  | Poll :: ts => keeps_up ch ts (pred behind)
  end.

Inductive delivers : list WsFrame -> list WsFrame -> Prop :=
| delivers_nil : delivers [] []
| delivers_frame f s o : delivers s o -> delivers (f :: s) (f :: o)
| delivers_gap g s o : g <> [] -> delivers s o -> delivers (g ++ s) (LAG_FRAME :: o).

Lemma delivers_app s1 o1 s2 o2 :
  delivers s1 o1 -> delivers s2 o2 -> delivers (s1 ++ s2) (o1 ++ o2).
Proof.
  induction 1 as [|f s o _ IH|g s o Hg _ IH]; intros H2; cbn; [done| |].
  - constructor. by apply IH.
  - rewrite <-app_assoc. constructor; [done|by apply IH].
Qed.

Lemma delivers_refl l : delivers l l.
Proof. induction l; by constructor. Qed.

Definition slice {A} (a b : nat) (l : list A) : list A := take (b - a) (drop a l).

Lemma slice_app {A} a b c (l : list A) :
  (a <= b)%nat -> (b <= c)%nat -> slice a c l = (slice a b l ++ slice b c l)%list.
Proof.
  intros H1 H2. unfold slice.
  replace (c - a)%nat with ((b - a) + (c - b))%nat by lia.
  rewrite <-take_take_drop, drop_drop. do 3 f_equal. lia.
Qed.

Lemma slice_prefix {A} a b (l k : list A) : (b <= length l)%nat -> slice a b (l ++ k) = slice a b l.
Proof.
  intros H. unfold slice. destruct (decide (a <= length l)%nat).
  - rewrite drop_app_le by done. apply take_app_le. rewrite length_drop. lia.
  - by replace (b - a)%nat with 0%nat by lia.
Qed.

Lemma slice_full {A} (l k : list A) : slice (length l) (length (l ++ k)) (l ++ k) = k.
Proof.
  unfold slice. rewrite drop_app_length, length_app. apply take_ge. lia.
Qed.

(** Where the forwarder stands in a channel that has sent [s]. *)
Definition at_channel (ch : string) (fw : Forwarder) (h : Hub) (s : S) : Prop :=
  fw_channel fw = ch /\ hb_senders h !! ch = Some s /\
  (bc_next (fw_rx fw) <= length (bc_sent s))%nat.

(** One poll. *)
Lemma poll_step ch fw h s :
  at_channel ch fw h s -> roomy h ->
  let '(f, fw') := poll_forwarder fw h in
  let p := bc_next (fw_rx fw) in let p' := bc_next (fw_rx fw') in
  at_channel ch fw' h s /\ (p <= p')%nat /\
  delivers (slice p p' (bc_sent s)) (option_list f) /\
  ((length (bc_sent s) <= p + bc_room s)%nat ->
   option_list f = slice p p' (bc_sent s) /\
   (length (bc_sent s) - p' = pred (length (bc_sent s) - p))%nat) /\
  ((p + bc_room s < length (bc_sent s))%nat -> p' = (length (bc_sent s) - bc_room s)%nat).
Proof.
  intros (Hch & Hs & Hp) Hr. specialize (Hr _ _ Hs). unfold CHANNEL_CAPACITY in Hr.
  unfold poll_forwarder. rewrite Hch, Hs. set (p := bc_next (fw_rx fw)) in *.
  destruct (decide (p = length (bc_sent s))) as [E|Hne].
  { destruct (recv_pending s (fw_rx fw) E) as (r' & -> & Er). cbn. fold p in Er. rewrite Er.
    unfold slice. rewrite Nat.sub_diag.
    split_and!; [split_and!; cbn; [done|done|lia]|lia|constructor|intros _; split; [done|lia]|lia]. }
  destruct (decide (length (bc_sent s) <= p + bc_room s)%nat) as [Hle|Hgt].
  - destruct (lookup_lt_is_Some_2 (bc_sent s) p) as [f Hf]; [lia|].
    destruct (recv_frame s (fw_rx fw) f Hle Hf) as (r' & -> & Er). fold p in Er. cbn. rewrite Er.
    assert (slice p (Datatypes.S p) (bc_sent s) = [f]) as ->.
    { unfold slice. rewrite (drop_S _ f) by done. by replace (Datatypes.S p - p)%nat with 1%nat by lia. }
    split_and!; [split_and!; cbn; [done|done|lia]|lia|apply delivers_refl|intros _; split; [done|lia]|lia].
  - destruct (recv_lagged s (fw_rx fw)) as (n & r' & -> & Er); [fold p; lia|]. cbn. rewrite Er.
    split_and!; [split_and!; cbn; [done|done|lia]|lia| |lia|done].
    rewrite <-(app_nil_r (slice _ _ _)). constructor; [|constructor].
    intros E%(f_equal length). unfold slice in E. rewrite length_take, length_drop in E.
    cbn in E. lia.
Qed.

Lemma at_act ch fw h s a :
  at_channel ch fw h s ->
  exists s', at_channel ch fw (hub_act a h) s' /\ bc_sent s' = (bc_sent s ++ act_frames ch a)%list /\
    bc_room s' = bc_room s.
Proof.
  intros (Hch & Hs & Hp). destruct (act_grows ch a h s Hs) as (s' & Hs' & E & Er).
  exists s'. split_and!; [split_and!; [done|done|]|done|done]. rewrite E, length_app. lia.
Qed.

Lemma feed_spec ch ts : forall fw h s,
  at_channel ch fw h s -> roomy h ->
  let '(out, (fw', h')) := feed ts fw h in
  exists s', at_channel ch fw' h' s' /\ roomy h' /\ bc_room s' = bc_room s /\
    bc_sent s' = (bc_sent s ++ stream ch ts)%list /\
    let p := bc_next (fw_rx fw) in let p' := bc_next (fw_rx fw') in
    (p <= p')%nat /\ delivers (slice p p' (bc_sent s')) out /\
    ((length (bc_sent s) - p <= CHANNEL_CAPACITY)%nat ->
     keeps_up ch ts (length (bc_sent s) - p) -> out = slice p p' (bc_sent s')).
Proof.
  induction ts as [|[a|] ts IH]; intros fw h s Hat Hr; cbn [feed stream keeps_up].
  - exists s. cbv zeta. rewrite app_nil_r. unfold slice. rewrite Nat.sub_diag.
    split_and!; [done..| |done]. constructor.
  - destruct (at_act ch fw h s a Hat) as (s1 & Hat1 & E1 & R1).
    specialize (IH fw _ s1 Hat1 (act_roomy a h Hr)).
    destruct (feed ts fw (hub_act a h)) as [out [fw' h']].
    destruct IH as (s' & Hat' & Hr' & R' & E' & Hp & Hd & Hk). exists s'.
    rewrite R', E', E1, R1, app_assoc. split_and!; [done..| |].
    + by rewrite <-E1, <-E'.
    + cbv zeta. intros _ [Hle Hup]. rewrite <-E1, <-E'. destruct Hat as (_ & _ & Hp0).
      assert (length (bc_sent s1) - bc_next (fw_rx fw) =
        length (bc_sent s) - bc_next (fw_rx fw) + length (act_frames ch a))%nat as El
        by (rewrite E1, length_app; lia).
      apply Hk; rewrite El; done.
  - pose proof (poll_step ch fw h s Hat Hr) as Hstep.
    destruct (poll_forwarder fw h) as [f fw1]. cbv zeta in Hstep.
    destruct Hstep as (Hat1 & Hp1 & Hd1 & Hle1 & _). specialize (IH fw1 h s Hat1 Hr).
    destruct (feed ts fw1 h) as [out [fw' h']].
    destruct IH as (s' & Hat' & Hr' & R' & E' & Hp & Hd & Hk). exists s'. cbv zeta.
    assert (slice (bc_next (fw_rx fw)) (bc_next (fw_rx fw1)) (bc_sent s') =
            slice (bc_next (fw_rx fw)) (bc_next (fw_rx fw1)) (bc_sent s)) as Es.
    { rewrite E'. apply slice_prefix. by destruct Hat1 as (_ & _ & ?). }
    rewrite (slice_app _ (bc_next (fw_rx fw1)) _ (bc_sent s')) by done. rewrite Es.
    split_and!; [done|done|done|done|lia|by apply delivers_app|].
    intros Hcap Hup. pose proof (Hr _ _ (proj1 (proj2 Hat))) as Hroom.
    destruct Hle1 as [-> El]; [lia|]. f_equal. rewrite <-El in Hup. apply Hk; [lia|done].
Qed.

(** Enough polls without further frames bring a forwarder to the end of its channel. *)
Lemma catch_up ch k : forall fw h s,
  at_channel ch fw h s -> roomy h ->
  (length (bc_sent s) - bc_next (fw_rx fw) <= k)%nat \/ (bc_room s < k)%nat ->
  bc_next (fw_rx (feed (replicate k Poll) fw h).2.1) = length (bc_sent s).
Proof.
  induction k as [|k IH]; intros fw h s Hat Hr Hk.
  { destruct Hat as (_ & _ & ?). cbn. lia. }
  cbn [replicate feed]. pose proof (poll_step ch fw h s Hat Hr) as Hstep.
  destruct (poll_forwarder fw h) as [f fw1]. cbv zeta in Hstep.
  destruct Hstep as (Hat1 & Hp1 & _ & Hle & Hgt). specialize (IH fw1 h s Hat1 Hr).
  destruct (feed (replicate k Poll) fw1 h) as [out [fw' h']]. cbn [snd fst] in *. apply IH.
  destruct (decide (length (bc_sent s) <= bc_next (fw_rx fw) + bc_room s)%nat) as [H|H].
  - destruct (Hle H) as [_ ->]. lia.
  - rewrite Hgt by lia. lia.
Qed.

Lemma feed_app ts ts' fw h :
  feed (ts ++ ts') fw h =
  let '(out, (fw1, h1)) := feed ts fw h in
  let '(out', rest) := feed ts' fw1 h1 in ((out ++ out')%list, rest).
Proof.
  revert fw h. induction ts as [|[a|] ts IH]; intros fw h; cbn [feed app].
  - by destruct (feed ts' fw h).
  - apply IH.
  - destruct (poll_forwarder fw h) as [f fw1]. rewrite IH.
    destruct (feed ts fw1 h) as [out [fw2 h2]]. destruct (feed ts' fw2 h2) as [out' rest].
    by rewrite app_assoc.
Qed.

Lemma stream_polls ch ts k : stream ch (ts ++ replicate k Poll) = stream ch ts.
Proof.
  induction ts as [|[a|] ts IH]; cbn; [by induction k|by rewrite IH|done].
Qed.

Lemma slice_from {A} b (l k : list A) : slice (length l) b (l ++ k) = take (b - length l) k.
Proof. unfold slice. by rewrite drop_app_length. Qed.

(** A receiver starts at the end of its channel. *)
Lemma subscribed_at ch h :
  let '(rx, h1) := hub_subscribe ch h in
  exists s, at_channel ch (mkForwarder ch rx) h1 s /\ bc_next rx = length (bc_sent s).
Proof.
  unfold hub_subscribe. destruct (hb_senders h !! ch) as [s|] eqn:E.
  - exists s. rewrite subscribe_next. split; [|done]. split_and!; cbn; [done|done|].
    by rewrite subscribe_next.
  - eexists. rewrite subscribe_next. split; [|done]. split_and!; cbn; [done|by rewrite lookup_insert_eq|].
    by rewrite subscribe_next.
Qed.
End Feed.
Arguments HubAction D : clear implicits.
Arguments Turn D : clear implicits.

(** C38. Subscribers get the stream.  Whatever went on in the hub before and whatever goes on
    while a forwarder is polled, its output accounts for the frames published on its
    channel since it subscribed, each engine event, ticker and balance update giving the
    frames of [act_frames], in order and once, every gap replaced by one notice; a
    forwarder that is never more than 256 frames behind has no gap; and when it is polled
    often enough afterwards it gets to the end. *)
Theorem subscribers_get_the_stream {D S R} {bc : BroadcastOps WsFrame S R} {views : BroadcastViews WsFrame S R}
    {laws : BroadcastLaws WsFrame S R} {wj : WsJson} {dops : DecimalOps D} {dt : DecimalText D}
    {tops : TextOps D} {dr : DecimalRound D} (before : list (HubAction D)) ch (turns : list (Turn D)) :
  let '(rx, h) := hub_subscribe ch (hub_acts before) in
  let fw := mkForwarder ch rx in
  (exists m, (m <= length (stream ch turns))%nat /\
     delivers (take m (stream ch turns)) (feed turns fw h).1) /\
  (keeps_up ch turns 0 -> exists m, (feed turns fw h).1 = take m (stream ch turns)) /\
  (exists n, forall k, (n <= k)%nat ->
     delivers (stream ch turns) (feed (turns ++ replicate k Poll) fw h).1).
Proof.
  pose proof (subscribed_at ch (hub_acts before)) as Hat.
  pose proof (subscribe_roomy ch _ (acts_roomy before)) as Hr.
  destruct (hub_subscribe ch (hub_acts before)) as [rx h]. cbn [snd] in Hr.
  destruct Hat as (s & Hat & Hn). cbv zeta. set (fw := mkForwarder ch rx) in *.
  assert (bc_next (fw_rx fw) = length (bc_sent s)) as Hp by done.
  pose proof (feed_spec ch turns fw h s Hat Hr) as Hf.
  destruct (feed turns fw h) as [out [fw' h']] eqn:Ef. cbn [fst].
  destruct Hf as (s' & Hat' & Hr' & R' & E' & Hle & Hd & Hk). cbv zeta in *.
  rewrite Hp, E', slice_from in Hd. rewrite Hp, E', slice_from in Hk.
  pose proof (proj2 (proj2 Hat')) as Hend. rewrite E', length_app in Hend.
  split_and!.
  - eexists. split; [|exact Hd]. lia.
  - intros Hup. eexists. apply Hk; [lia|]. by rewrite Nat.sub_diag.
  - exists (Datatypes.S (bc_room s')). intros k Hk'.
    pose proof (feed_spec ch (turns ++ replicate k Poll) fw h s Hat Hr) as Hf.
    pose proof (catch_up ch k fw' h' s' Hat' Hr' ltac:(right; lia)) as Hc.
    rewrite feed_app, Ef in *. destruct (feed (replicate k Poll) fw' h') as [out' [fw2 h2]].
    destruct Hf as (s2 & _ & _ & _ & E2 & _ & Hd2 & _). cbn [fst snd] in *.
    rewrite stream_polls, <-E' in E2. rewrite E2, Hc, Hp, E', slice_full in Hd2. exact Hd2.
Qed.

(** ** Connections without a token *)

Section Private.
Context {D S R I W : Type} {bc : BroadcastOps WsFrame S R} {views : BroadcastViews WsFrame S R}.
Context {laws : BroadcastLaws WsFrame S R} {wj : WsJson} {io : IntervalOps I}.
Context {dops : DecimalOps D} {dt : DecimalText D} {tops : TextOps D} {dr : DecimalRound D}.
Context {uc : UnicodeCase} {us : UuidSource} {transport : Transport D W}.
Abbreviation Hub := (Hub S).
Abbreviation Conn := (Conn R I).
Abbreviation WsWorld := (WsWorld D S W).

(** What may be sent to anyone: what was published on a channel that is not private, and
    the answers to the client's own messages. *)
Inductive public : WsFrame -> Prop :=
| public_feed ch (a : HubAction D) f :
    ch ∉ [USER_ORDERS; USER_FILLS; USER_BALANCES] -> f ∈ act_frames ch a -> public f
| public_gap message : public (gap_frame message)
| public_ack id result : public (server_ack id result)
| public_error id code message : public (server_error id code message)
| public_snapshot symbol (snap : BookSnapshot D) : public (snapshot_frame symbol snap).

(** The channels and replay buffers hold what was published on them. *)
Definition published (h : Hub) : Prop :=
  (forall ch s f, hb_senders h !! ch = Some s -> f ∈ bc_sent s ->
     exists a : HubAction D, f ∈ act_frames ch a) /\
  (forall ch t f entry, hb_replay h !! ch = Some entry -> (t, f) ∈ entry ->
     exists a : HubAction D, f ∈ act_frames ch a).

Definition evolves (h h' : Hub) : Prop :=
  exists acts : list (HubAction D), h' = fold_left (fun h a => hub_act a h) acts h.

Lemma evolves_refl h : evolves h h.
Proof. by exists []. Qed.
Lemma evolves_trans h1 h2 h3 : evolves h1 h2 -> evolves h2 h3 -> evolves h1 h3.
Proof. intros [a ->] [b ->]. exists (a ++ b)%list. by rewrite fold_left_app. Qed.
Lemma evolves_act a h : evolves h (hub_act a h).
Proof. by exists [a]. Qed.
Lemma evolves_run events h : evolves h (hub_run events h).
Proof.
  exists ((fun e => HaEvent e.1 e.2) <$> events). unfold hub_run. revert h.
  induction events as [|e events IH]; intros h; [done|]. cbn. apply IH.
Qed.

Lemma publish_none ch channel f (h : Hub) :
  hb_senders h !! ch = None -> hb_senders (publish channel f h) !! ch = None.
Proof.
  intros E. unfold publish. destruct (hb_senders h !! channel) eqn:E'; [|done].
  cbn. rewrite lookup_insert_ne; [done|congruence].
Qed.

Lemma publish_replay channel f (h : Hub) : hb_replay (publish channel f h) = hb_replay h.
Proof. unfold publish. by destruct (hb_senders h !! channel). Qed.

(** A channel opens empty. *)
Lemma act_opens ch (a : HubAction D) h s :
  hb_senders h !! ch = None -> hb_senders (hub_act a h) !! ch = Some s -> bc_sent s = [].
Proof.
  intros E. destruct a as [now e|snaps|user asset available locked seq|channel]; cbn.
  - assert (hb_senders (dispatch now e h) !! ch = None) as ->; [|done].
    unfold dispatch. destruct (se_event e); try done; cbn; unfold on_order_accepted_event,
      on_fill, on_order_canceled_event; by repeat apply publish_none.
  - assert (hb_senders (publish_ticker snaps h) !! ch = None) as ->; [|done].
    apply (ticker_closed (fun h => hb_senders h !! ch = None)); [|done].
    intros channel f h'. apply publish_none.
  - unfold publish_balance_update. by rewrite publish_none.
  - unfold hub_subscribe. destruct (hb_senders h !! channel); cbn; [congruence|].
    intros [[<- <-]|[_ ?]]%lookup_insert_Some; [|congruence]. apply channel_sent.
Qed.

(** An action adds to a replay buffer what it publishes on the channel. *)
Lemma act_replay ch t f entry (a : HubAction D) h :
  hb_replay (hub_act a h) !! ch = Some entry -> (t, f) ∈ entry ->
  (exists old, hb_replay h !! ch = Some old /\ (t, f) ∈ old) \/ f ∈ act_frames ch a.
Proof.
  destruct a as [now e|snaps|user asset available locked seq|channel]; cbn; intros He Hin.
  - unfold dispatch in He. unfold event_frames.
    destruct (se_event e) as [| |fill| |delta|]; cbv beta iota zeta in He;
      unfold on_order_accepted_event, on_order_canceled_event, on_fill in He;
      rewrite ?publish_replay in He; try by left; eauto.
    unfold on_book_delta, publish_with_replay in He. cbv zeta in He. cbn [hb_replay] in He.
    rewrite publish_replay in He.
    apply lookup_insert_Some in He as [[<- <-]|[_ He]]; [|by left; eauto].
    apply elem_of_app in Hin as [Hin|Hin].
    + apply list_elem_of_filter in Hin as [_ Hin].
      destruct (hb_replay h !! book_diff (bd_symbol delta)) as [old|]; cbn in Hin;
        [left; eauto|by apply not_elem_of_nil in Hin].
    + apply list_elem_of_singleton in Hin as [= -> ->]. right. unfold only.
      rewrite bool_decide_true by done. by left.
  - left. revert He.
    assert (hb_replay (publish_ticker snaps h) = hb_replay h) as ->; [|eauto].
    apply (ticker_closed (fun h' => hb_replay h' = hb_replay h)); [|done].
    intros channel g h' <-. apply publish_replay.
  - left. unfold publish_balance_update in He. rewrite publish_replay in He. eauto.
  - left. unfold hub_subscribe in He. destruct (hb_senders h !! channel); eauto.
Qed.

Lemma act_published a h : published h -> published (hub_act a h).
Proof.
  intros [Hs Hr]. split.
  - intros ch s' f Hs' Hf. destruct (hb_senders h !! ch) as [s|] eqn:E.
    + destruct (act_grows ch a h s E) as (s2 & E2 & Ef & _). rewrite Hs' in E2.
      simplify_eq. rewrite Ef in Hf. apply elem_of_app in Hf as [Hf|Hf]; [by eapply Hs|by exists a].
    + rewrite (act_opens ch a h s' E Hs') in Hf. by apply not_elem_of_nil in Hf.
  - intros ch t f entry He Hin.
    destruct (act_replay ch t f entry a h He Hin) as [(old & Ho & Hf)|Hf]; [by eapply Hr|by exists a].
Qed.

(** What an evolving hub keeps. *)
Lemma evolves_ok h h' : evolves h h' -> roomy h -> published h -> roomy h' /\ published h'.
Proof.
  intros [acts ->]. revert h. induction acts as [|a acts IH]; intros h Hr Hp; [done|].
  apply IH; [by apply act_roomy|by apply act_published].
Qed.

Lemma evolves_at ch (fw : Forwarder R) h h' s :
  evolves h h' -> at_channel ch fw h s -> exists s', at_channel ch fw h' s'.
Proof.
  intros [acts ->]. revert h s. induction acts as [|a acts IH]; intros h s Hat; [by exists s|].
  destruct (at_act ch fw h s a Hat) as (s' & Hat' & _). by eapply IH.
Qed.

(** [c'] is [c] with more frames queued, public ones if there is no user. *)
Definition queued (user : option Uuid) (c c' : Conn) : Prop :=
  exists fs, (user = None -> Forall public fs) /\
    c' = mkConn (cx_out c ++ fs)%list (cx_subscriptions c) (cx_forwarders c) (cx_heartbeat c)
           (cx_awaiting_pong c) (cx_written c).

Lemma queued_refl user c : queued user c c.
Proof. exists []. rewrite app_nil_r. by destruct c. Qed.
Lemma queued_trans user c1 c2 c3 : queued user c1 c2 -> queued user c2 c3 -> queued user c1 c3.
Proof.
  intros (fs & Hf & ->) (gs & Hg & ->). exists (fs ++ gs)%list. cbn. rewrite app_assoc.
  split; [|done]. intros Hu. by apply Forall_app; auto.
Qed.
Lemma push_queued user f c : public f -> queued user c (push_frame f c).
Proof. intros Hf. exists [f]. split; [|done]. by constructor. Qed.
Lemma pushes_queued user fs c :
  (user = None -> Forall public fs) -> queued user c (push_frames fs c).
Proof.
  intros Hfs. exists fs. split; [done|]. clear Hfs. unfold push_frames. revert c.
  induction fs as [|f fs IH]; intros c; cbn; [rewrite app_nil_r; by destruct c|].
  rewrite IH. cbn. by rewrite <-app_assoc.
Qed.

Lemma not_private ch :
  is_private_channel ch = false <-> ch ∉ [USER_ORDERS; USER_FILLS; USER_BALANCES].
Proof. unfold is_private_channel. apply bool_decide_eq_false. Qed.
Lemma book_diff_public symbol : is_private_channel (book_diff symbol) = false.
Proof. unfold is_private_channel. apply bool_decide_eq_false_2. set_solver. Qed.

(** Replayed diffs are public. *)
Lemma replay_public now symbol seq h frames :
  published h -> replay_diffs now symbol seq h = Some frames -> Forall public frames.
Proof.
  intros [_ Hr]. unfold replay_diffs.
  destruct (hb_replay h !! book_diff symbol) as [entry|] eqn:E; [|done].
  cbv zeta. case_match; [done|]. intros [= <-]. apply Forall_forall.
  intros f ([t f'] & -> & Hin)%list_elem_of_fmap. apply list_elem_of_filter in Hin as [_ Hin].
  destruct (Hr _ _ _ _ E Hin) as [a Ha]. eapply public_feed; [apply not_private, book_diff_public|exact Ha].
Qed.

Lemma snapshot_spec user now symbol after_seq c w :
  published (ww_hub w) ->
  let '(c', w') := send_book_snapshot now symbol after_seq c w in
  queued user c c' /\ evolves (ww_hub w) (ww_hub w').
Proof.
  intros Hp. unfold send_book_snapshot.
  assert (forall c1, queued user c c1 ->
    let '(c', w') := match ws_snapshot (S := S) symbol w with
                     | (Ok snap, w) => (push_frame (snapshot_frame symbol snap) c1, w)
                     | (Err _, w) => (c1, w) end in
    queued user c c' /\ evolves (ww_hub w) (ww_hub w')) as Hfull.
  { intros c1 Hq. unfold ws_snapshot. destruct (client_snapshot _ _) as [r net].
    destruct (match ww_during w with [] => _ | _ => _ end) as [es rest].
    destruct r as [snap|e]; cbn; (split; [|apply evolves_run]); [|done].
    eapply queued_trans; [exact Hq|]. apply push_queued, public_snapshot. }
  cbv zeta. destruct after_seq as [seq|]; [|by apply Hfull, queued_refl].
  destruct (replay_diffs now symbol seq (ww_hub w)) as [frames|] eqn:E.
  - split; [|apply evolves_refl]. apply pushes_queued. intros _. by eapply replay_public.
  - apply Hfull. apply push_queued, public_gap.
Qed.

(** ** The invariant of a connection *)

Record conn_ok (user : option Uuid) (c : Conn) (w : WsWorld) : Prop := {
  ok_roomy : roomy (ww_hub w);
  ok_published : published (ww_hub w);
  ok_forwarders : forall fw, fw ∈ cx_forwarders c ->
    is_private_channel (fw_channel fw) && bool_decide (user = None) = false /\
    exists s, at_channel (fw_channel fw) fw (ww_hub w) s;
  ok_out : user = None -> Forall public (cx_out c);
  ok_written : user = None -> forall f, WrText f ∈ cx_written c -> public f;
}.

Lemma conn_ok_step user c c' w w' :
  conn_ok user c w -> queued user c c' -> evolves (ww_hub w) (ww_hub w') -> conn_ok user c' w'.
Proof.
  intros [Hr Hp Hf Ho Hw] (fs & Hfs & ->) He.
  destruct (evolves_ok _ _ He Hr Hp) as [Hr' Hp']. constructor; cbn; [done|done| | |done].
  - intros fw Hin. destruct (Hf fw Hin) as (Hpriv & s & Hat). split; [done|]. by eapply evolves_at.
  - intros Hu. apply Forall_app. split; [by apply Ho|by apply Hfs].
Qed.

Lemma subscribe_channel_ok now user id after_seq channel c w :
  conn_ok user c w ->
  let '(_, (c', w')) := subscribe_channel now user id after_seq channel c w in conn_ok user c' w'.
Proof.
  intros Hok. unfold subscribe_channel.
  destruct (is_private_channel channel && bool_decide (user = None)) eqn:Hpriv.
  { eapply conn_ok_step; [exact Hok|apply push_queued, public_error|apply evolves_refl]. }
  destruct (bool_decide (channel ∈ cx_subscriptions c)); [done|].
  assert (exists c1 w1, match book_diff_symbol channel with
            | Some symbol => send_book_snapshot now symbol after_seq c w
            | None => (c, w) end = (c1, w1) /\ conn_ok user c1 w1) as (c1 & w1 & -> & Hok1).
  { destruct (book_diff_symbol channel) as [symbol|]; [|by exists c, w].
    pose proof (snapshot_spec user now symbol after_seq c w (ok_published _ _ _ Hok)) as Hs.
    destruct (send_book_snapshot _ _ _ _ _) as [c1 w1]. destruct Hs as [Hq He].
    exists c1, w1. split; [done|]. by eapply conn_ok_step. }
  pose proof (subscribed_at channel (ww_hub w1)) as Hsub.
  pose proof (evolves_act (HaSubscribe channel) (ww_hub w1)) as He. cbn in He.
  destruct (hub_subscribe channel (ww_hub w1)) as [rx hub]. destruct Hsub as (s & Hat & _).
  pose proof (conn_ok_step user c1 c1 w1
    (mkWsWorld hub (ww_net w1) (ww_uuids w1) (ww_during w1)) Hok1 (queued_refl user c1) He) as Hok2.
  destruct Hok2 as [Hr2 Hp2 Hf2 Ho2 Hw2]. constructor; cbn in *; [done|done| |done|done].
  intros fw [Hin|Hin]%elem_of_app; [by apply Hf2|]. apply list_elem_of_singleton in Hin as ->.
  split; [done|]. by exists s.
Qed.

Lemma subscribe_channels_ok now user id after_seq channels : forall subscribed c w,
  conn_ok user c w ->
  let '(_, (c', w')) := subscribe_channels now user id after_seq channels subscribed c w in
  conn_ok user c' w'.
Proof.
  induction channels as [|channel channels IH]; intros subscribed c w Hok; [done|]. cbn.
  pose proof (subscribe_channel_ok now user id after_seq channel c w Hok) as H.
  destruct (subscribe_channel now user id after_seq channel c w) as [ok [c1 w1]]. by apply IH.
Qed.

Lemma message_ok now user raw c w :
  conn_ok user c w ->
  let '(c', w') := handle_client_message now user raw c w in conn_ok user c' w'.
Proof.
  intros Hok. unfold handle_client_message.
  assert (forall c w f, conn_ok user c w -> public f -> conn_ok user (push_frame f c) w) as Hpush.
  { intros c1 w1 f H Hf. eapply conn_ok_step; [exact H|by apply push_queued|apply evolves_refl]. }
  destruct (parse_client raw) as [msg|]; [|by apply Hpush, public_error].
  destruct (String.eqb (cm_method msg) "ping"); [by apply Hpush, public_ack|].
  destruct (String.eqb (cm_method msg) "subscribe"); [|destruct (String.eqb (cm_method msg) "unsubscribe")].
  - cbv zeta. pose proof (subscribe_channels_ok now user (cm_id msg) (cm_params msg ≫= cp_after_seq)
      (requested_channels msg) [] c w Hok) as H.
    destruct (subscribe_channels _ _ _ _ _ _ _ _) as [subscribed [c1 w1]]. by apply Hpush, public_ack.
  - cbv zeta. apply Hpush; [|apply public_ack]. by destruct Hok; constructor.
  - by apply Hpush, public_error.
Qed.

(** What a delivered frame is. *)
Lemma delivers_one l f : delivers l [f] -> f = LAG_FRAME \/ f ∈ l.
Proof.
  inversion 1 as [|f' s o Hd|g s o Hg Hd]; subst; [right; by left|by left].
Qed.

Lemma poll_public fw h s :
  at_channel (fw_channel fw) fw h s -> roomy h -> published h ->
  is_private_channel (fw_channel fw) = false ->
  Forall public (option_list (poll_forwarder fw h).1).
Proof.
  intros Hat Hr [Hp _] Hpriv. pose proof (poll_step _ fw h s Hat Hr) as Hstep.
  destruct (poll_forwarder fw h) as [[f|] fw']; cbn; [|constructor].
  cbv zeta in Hstep. destruct Hstep as (_ & _ & Hd & _). constructor; [|constructor].
  apply delivers_one in Hd as [->|Hin]; [apply public_gap|].
  destruct (Hp _ s f (proj1 (proj2 Hat))) as [a Ha]; [|by eapply public_feed; [apply not_private|]].
  unfold slice in Hin. apply elem_of_take in Hin as (j & Hj & _).
  rewrite lookup_drop in Hj. by eapply list_elem_of_lookup_2.
Qed.

Lemma forward_ok user i c w : conn_ok user c w -> conn_ok user (forward i c w) w.
Proof.
  intros Hok. unfold forward. destruct (cx_forwarders c !! i) as [fw|] eqn:Ei; [|done].
  destruct (ok_forwarders _ _ _ Hok fw) as (Hpriv & s & Hat); [by eapply list_elem_of_lookup_2|].
  destruct Hok as [Hr Hp Hf Ho Hw].
  pose proof (poll_step _ fw (ww_hub w) s Hat Hr) as Hstep.
  pose proof (poll_public fw (ww_hub w) s Hat Hr Hp) as Hpub.
  destruct (poll_forwarder fw (ww_hub w)) as [f fw']. cbv zeta in Hstep.
  destruct Hstep as (Hat' & _). cbn [fst] in Hpub.
  assert (conn_ok user (mkConn (cx_out c) (cx_subscriptions c) (<[i := fw']> (cx_forwarders c))
            (cx_heartbeat c) (cx_awaiting_pong c) (cx_written c)) w) as Hok1.
  { constructor; cbn; [done|done| |done|done].
    intros g [j Hj]%list_elem_of_lookup_1.
    apply list_lookup_insert_Some in Hj as [(-> & -> & _)|[_ Hj]];
      [|by apply Hf; eapply list_elem_of_lookup_2].
    rewrite (proj1 Hat'). split; [done|by exists s]. }
  eapply conn_ok_step; [exact Hok1| |apply evolves_refl]. apply pushes_queued.
  intros ->. apply Hpub. by rewrite andb_true_r in Hpriv.
Qed.

(** ** Runs of a connection *)

(** What happens while a connection is open: an iteration of its loop, one of a forwarder
    task, or something in the hub. *)
Inductive WsMove :=
| MvInput (now : Z) (i : WsInput)
| MvForward (i : nat)
| MvHub (a : HubAction D).

Definition ws_move (user : option Uuid) (m : WsMove) (cw : Conn * WsWorld) : option (Conn * WsWorld) :=
  let '(c, w) := cw in
  match m with
  | MvInput now i =>
      match conn_step now user i c w with Some (Continue c w) => Some (c, w) | _ => None end
  | MvForward i => Some (forward i c w, w)
  | MvHub a => Some (c, mkWsWorld (hub_act a (ww_hub w)) (ww_net w) (ww_uuids w) (ww_during w))
  end.

Fixpoint ws_run (user : option Uuid) (ms : list WsMove) (cw : Conn * WsWorld)
    : option (Conn * WsWorld) :=
  match ms with
  | [] => Some cw
  | m :: ms => ws_move user m cw ≫= ws_run user ms
  end.

Lemma move_ok user m c w c' w' :
  conn_ok user c w -> ws_move user m (c, w) = Some (c', w') -> conn_ok user c' w'.
Proof.
  intros Hok. destruct m as [now i|i|a]; cbn.
  - destruct i as [raw| | | |sent|sent]; cbn.
    + pose proof (message_ok now user raw c w Hok) as H.
      destruct (handle_client_message now user raw c w) as [c1 w1]. by intros [= <- <-].
    + intros [= <- <-]. destruct Hok as [Hr Hp Hf Ho Hw]. constructor; cbn; [done..|].
      intros Hu f [Hin|Hin]%elem_of_app; [by apply Hw|by apply not_elem_of_nil in Hin].
    + done.
    + by intros [= <- <-].
    + destruct (cx_out c) as [|f rest] eqn:Eo; [done|]. destruct sent; [|done].
      intros [= <- <-]. destruct Hok as [Hr Hp Hf Ho Hw]. rewrite Eo in Ho.
      constructor; cbn; [done..| |].
      * intros Hu. by apply Forall_cons in Ho as [_ ?].
      * intros Hu g [Hin|Hin]%elem_of_app; [by apply Hw|].
        apply list_elem_of_singleton in Hin as [= ->]. by apply Forall_cons in Ho as [? _].
    + destruct (tick_ready _ _); [|done]. destruct (cx_awaiting_pong c); [done|].
      destruct sent; [|done]. intros [= <- <-]. destruct Hok as [Hr Hp Hf Ho Hw].
      constructor; cbn; [done..|].
      intros Hu f [Hin|Hin]%elem_of_app; [by apply Hw|].
      by apply list_elem_of_singleton in Hin.
  - intros [= <- <-]. by apply forward_ok.
  - intros [= <- <-]. eapply conn_ok_step; [exact Hok|apply queued_refl|apply evolves_act].
Qed.

Lemma run_ok user ms : forall c w c' w',
  conn_ok user c w -> ws_run user ms (c, w) = Some (c', w') -> conn_ok user c' w'.
Proof.
  induction ms as [|m ms IH]; intros c w c' w' Hok; cbn [ws_run].
  { by intros [= <- <-]. }
  destruct (ws_move user m (c, w)) as [[c1 w1]|] eqn:E; cbn; [|done].
  apply IH. by eapply move_ok.
Qed.

Lemma new_published : published (hub_new (S := S)).
Proof.
  split; [intros ch s f Hs|intros ch t f entry Hs]; unfold hub_new in Hs;
    cbn [hb_senders hb_replay] in Hs; by rewrite lookup_empty in Hs.
Qed.

Lemma acts_published acts : published (hub_acts acts).
Proof.
  eapply (evolves_ok (hub_new (S := S))); [by exists acts|apply (acts_roomy [])|apply new_published].
Qed.

Lemma conn_new_ok user now acts w :
  ww_hub w = hub_acts acts -> conn_ok user (conn_new now) w.
Proof.
  intros Hw. constructor; cbn; rewrite ?Hw; [apply acts_roomy|apply acts_published| | |].
  - by intros fw ?%not_elem_of_nil.
  - by constructor.
  - by intros _ f ?%not_elem_of_nil.
Qed.
End Private.
Arguments WsMove D : clear implicits.

(** C39. Private channels need a token.  A connection whose token names no user, whatever it
    sends and whatever happens in the hub before and while it is open, has no forwarder on
    a private channel, and every frame written to it answers one of its own messages,
    marks a gap, is a book snapshot or was published on a channel that is not private. *)
Theorem private_channels_need_a_token {D S R I W} {bc : BroadcastOps WsFrame S R}
    {views : BroadcastViews WsFrame S R} {laws : BroadcastLaws WsFrame S R} {wj : WsJson} {io : IntervalOps I}
    {dops : DecimalOps D} {dt : DecimalText D} {tops : TextOps D} {dr : DecimalRound D}
    {uc : UnicodeCase} {us : UuidSource} {transport : Transport D W} {jwt : JwtDecode}
    (config : TokenConfig) token before now net n during ms (c : Conn R I) w :
  ws_user config token = None ->
  ws_run (ws_user config token) ms (conn_new now, mkWsWorld (hub_acts before) net n during) =
    Some (c, w) ->
  (forall fw, fw ∈ cx_forwarders c ->
     fw_channel fw ∉ [USER_ORDERS; USER_FILLS; USER_BALANCES]) /\
  (forall f, WrText f ∈ cx_written c -> public (D := D) f).
Proof.
  intros Hu Hrun. rewrite Hu in Hrun.
  pose proof (run_ok None ms _ _ _ _ (conn_new_ok None now before
    (mkWsWorld (hub_acts before) net n during) eq_refl) Hrun) as [_ _ Hf _ Hw].
  split; [|by apply Hw].
  intros fw Hin. destruct (Hf fw Hin) as [H _]. apply not_private. by rewrite andb_true_r in H.
Qed.

(** ** Samples *)

#[local] Existing Instances list_broadcast list_views list_laws.
Abbreviation ListChannel := (ListChannel WsFrame).

Fixpoint json_text (v : Json) : string :=
  match v with
  | JNull => "null"
  | JNumber n => pretty n
  | JString s => quoted s
  | JArray l => "[" ++ String.concat "," (json_text <$> l) ++ "]"
  | JObject fields =>
      "{" ++ String.concat "," ((fun kv => quoted kv.1 ++ ":" ++ json_text kv.2) <$> fields) ++ "}"
  end.

(** A client message is a word and a channel. *)
#[local] Instance word_json : WsJson := {|
  to_vec v := Some (json_text v);
  parse_client raw :=
    let message method channel :=
      mkClientMessage None method (Some (mkClientParams (Some [channel]) None)) in
    match strip_prefix "subscribe " raw with
    | Some channel => Some (message "subscribe" channel)
    | None => message "unsubscribe" <$> strip_prefix "unsubscribe " raw
    end;
|}.
#[local] Instance keep_digits : DecimalRound Z := fun x _ => x.
#[local] Instance eager_interval : IntervalOps Z := {|
  interval now _ := now; tick_ready start now := (start <=? now)%Z |}.
#[local] Instance upper_case : UnicodeCase := {|
  to_lowercase := map_string ascii_lower; to_uppercase := map_string ascii_upper |}.
#[local] Instance numbered_ids : UuidSource := {| new_v4 n := N.of_nat n |}.
#[local] Instance book_of_ten : Transport Z () := {|
  send req id w :=
    (match req with
     | ReqSnapshot r => Ok (RespAck id (AckSnapshot (mkSnapshot (sr_symbol r) [(10, 1)%Z] [] 7)))
     | _ => Err ClientIo
     end, w) |}.
#[local] Instance token_of_7 : JwtDecode := {|
  decode_access _ t := if bool_decide (t = "seven") then Some (mkAccessClaims 7 0 0 0 0 0) else None;
  decode_unchecked _ _ := None |}.
#[local] Existing Instances bit_numbers bit_texts.

Definition ws_config : TokenConfig := mkTokenConfig "secret" 900 300 2592000.

Definition order_of (user id : Uuid) : EngineOrder Z :=
  mkEngineOrder id user "BTCUSDT" WBuy WLimit (Some 10%Z) 1%Z WDecrement None None None.
Definition accepted (seq : Z) (user id : Uuid) : SequencedEngineEvent Z :=
  mkSequenced seq (WeOrderAccepted (order_of user id)).
Definition delta_at (seq : Z) : SequencedEngineEvent Z :=
  mkSequenced seq (WeBookDelta (mkDelta "BTCUSDT" [(10, seq)%Z] [])).

(** The texts written to a connection, after everything queued was written. *)
Definition written (user : option Uuid) (ms : list (WsMove Z))
    (during : list (list (Z * SequencedEngineEvent Z))) : option (list WsFrame) :=
  let run := ws_run (S := ListChannel) (R := nat) (I := Z) user ms
    (conn_new 0, mkWsWorld hub_new () 0 during) in
  match run with
  | Some (c, _) =>
      Some (omap (fun x => match x with WrText f => Some f | WrPing => None end) (cx_written c) ++
            cx_out c)%list
  | None => None
  end.

Example subscribers_get_the_stream_witness :
  let '(rx, h) := hub_subscribe (S := ListChannel) USER_ORDERS (hub_acts [HaEvent 0 (accepted 1 7 100)]) in
  exists m, (feed [Act (HaEvent 0 (accepted 2 7 101)); Poll; Poll] (mkForwarder USER_ORDERS rx) h).1 =
    take m [accepted_frame (order_of 7 101) 2].
Proof.
  pose proof (subscribers_get_the_stream (D := Z) (S := ListChannel) (R := nat)
    [HaEvent 0 (accepted 1 7 100)] USER_ORDERS [Act (HaEvent 0 (accepted 2 7 101)); Poll; Poll]) as H.
  destruct (hub_subscribe _ _) as [rx h]. destruct H as (_ & H & _). apply H. split; [|done].
  apply Nat.leb_le. vm_compute. reflexivity.
Defined.

Example private_channels_need_a_token_witness :
  exists c w, ws_run (S := ListChannel) (R := nat) (I := Z) (W := ()) (ws_user ws_config None)
    [MvInput 0 (InText "subscribe user.orders"); MvInput 0 (InText "subscribe trade.BTCUSDT")]
    (conn_new 0, mkWsWorld (hub_acts []) () 0 []) = Some (c, w) /\
    forall fw, fw ∈ cx_forwarders c -> fw_channel fw ∉ [USER_ORDERS; USER_FILLS; USER_BALANCES].
Proof.
  eexists _, _. split; [vm_compute; reflexivity|].
  eapply (private_channels_need_a_token (D := Z) (S := ListChannel) (R := nat) (I := Z) (W := ())
    ws_config None [] 0 () 0 []
    [MvInput 0 (InText "subscribe user.orders"); MvInput 0 (InText "subscribe trade.BTCUSDT")]);
    [reflexivity|vm_compute; reflexivity].
Defined.

(** ** Findings *)

(** The private channels are the same for every user: whoever has any valid token gets the
    orders and fills of all of them. *)
Example private_frames_go_to_everyone :
  let events := [MvInput 0 (InText "subscribe user.orders"); MvHub (HaEvent 0 (accepted 1 8 100)); MvForward 0] in
  exists ack, written (ws_user ws_config (Some "seven")) events [] =
    Some [ack; accepted_frame (order_of 8 100) 1].
Proof. eexists. vm_compute. reflexivity. Qed.

(** Unsubscribing stops nothing, and subscribing again delivers every frame twice. *)
Example unsubscribed_channels_go_on :
  let events := [MvInput 0 (InText "subscribe trade.X"); MvInput 0 (InText "unsubscribe user.orders");
    MvInput 0 (InText "subscribe user.orders"); MvInput 0 (InText "unsubscribe user.orders");
    MvInput 0 (InText "subscribe user.orders"); MvHub (HaEvent 0 (accepted 1 7 100));
    MvForward 1; MvForward 2] in
  exists acks, written (Some 7%N) events [] =
    Some (acks ++ [accepted_frame (order_of 7 100) 1; accepted_frame (order_of 7 100) 1])%list /\
    length acks = 5%nat.
Proof.
  eexists [_; _; _; _; _]. split; [vm_compute; reflexivity|done].
Qed.

(** The snapshot is taken before the diffs are joined: what the engine publishes in
    between is in neither. *)
Example diffs_between_are_lost :
  let events := [MvInput 0 (InText "subscribe book.BTCUSDT.diff");
                 MvHub (HaEvent 0 (delta_at 9)); MvForward 0; MvForward 0] in
  exists ack, written None events [[(0, delta_at 8)]] =
    Some [snapshot_frame "BTCUSDT" (mkSnapshot "BTCUSDT" [(10, 1)%Z] [] 7); ack;
          delta_frame (mkDelta "BTCUSDT" [(10, 9)%Z] []) 9].
Proof. eexists. vm_compute. reflexivity. Qed.

(** The first tick of an interval is immediate, and so is that of the interval the first
    tick installs: unless the pong has come back before the loop looks again, the
    connection is closed. *)
Lemma clients_time_out_at_once {D S R I W} {bc : BroadcastOps WsFrame S R} {wj : WsJson}
    {io : IntervalOps I} {il : IntervalLaws I} {dops : DecimalOps D} {dt : DecimalText D}
    {tops : TextOps D} {dr : DecimalRound D} {uc : UnicodeCase} {us : UuidSource}
    {transport : Transport D W} user now now1 now2 (w : WsWorld D S W) :
  now <= now1 -> now1 <= now2 ->
  exists c, conn_step (R := R) (I := I) now1 user (Tick true) (conn_new now) w = Some (Continue c w) /\
    conn_step now2 user (Tick true) c w = Some Break.
Proof.
  intros H1 H2. cbn. rewrite first_tick_immediate by done. eexists. split; [reflexivity|].
  cbn. by rewrite first_tick_immediate.
Qed.
