(* ===== verification/Totp.v ===== *)
(** * Totp: the second factor

    [services/api/src/handlers/totp.rs] and the statements of [repositories/account.rs] it
    runs.  A row of [users] is the one of AuthPg, with the column
    [totp_secret_encrypted] in [tt_secrets]; its statements draw on the same faults.  The
    one-time passwords themselves (the totp-rs crate), the random source and the pgcrypto
    extension are parameters.  The profile of [handlers/account.rs] reads the same row.  Reading the system clock is a reading of the service's
    clock source. *)
From stdpp Require Import relations pretty.
From S2P Require Import Prelude Proto Numeric Database SettleProps ApiBase.
From S2P Require Import Reserves ReservesProps AuthBase Auth AuthPg AuthInv.
From S2P Require Import AuthTokens AuthProps ApiKeys.

#[local] Open Scope string_scope.

(** ** The crate *)

Inductive Algorithm := SHA1 | SHA256 | SHA512.

(** The arguments of [TOTP::new]. *)
Record TotpArgs := mkTotpArgs {
  ta_algorithm : Algorithm; ta_digits : Z; ta_skew : Z; ta_step : Z;
  ta_secret : list Z; ta_issuer : option string; ta_account_name : string }.

Class TotpCrate := {
  TOTP : Type;
  totp_new : TotpArgs -> option TOTP;
  get_url : TOTP -> string;
  get_qr_base64 : TOTP -> option string;
  (** [check_current], with the system clock's reading in nanoseconds. *)
  check_current : TOTP -> string -> Z -> option bool;
  (** [Secret::Raw(..).to_string()] and [Secret::Encoded(..).to_bytes()]. *)
  raw_to_string : list Z -> string;
  encoded_to_bytes : string -> option (list Z);
  (** [OsRng.fill_bytes]: the bytes of the [n]th draw, of this length. *)
  fill_bytes : nat -> nat -> list Z;
}.

Definition TOTP_ISSUER : string := "Aether Exchange".
Definition BACKUP_CODE_COUNT : nat := 8.
Definition BACKUP_CODE_BYTES : nat := 6.
Definition TOTP_SECRET_BYTES : nat := 20.

Record VerifyTotpInput := mkVerifyTotp { vt_code : string }.
Record DisableTotpInput := mkDisableTotp { dt_code : string; dt_password : string }.
Record SetupTotpResponse := mkSetupTotp {
  st_secret : string; st_otp_auth_uri : string; st_qr : string }.
Record VerifyTotpResponse := mkVerifyResponse {
  vr_enabled : bool; vr_backup_codes : list string }.

(** ** The tables *)

Record TotpState (J : Type) := mkTotpState {
  tt_service : Service (PgAuthRepository J);
  tt_secrets : gmap Uuid string;
  tt_encrypted : nat;
}.
Arguments mkTotpState {J}.
Arguments tt_service {J} _.
Arguments tt_secrets {J} _.
Arguments tt_encrypted {J} _.

(** [email_verified] and [created_at] are left out. *)
Record UserProfileRow := mkUserProfile {
  pr_id : Uuid; pr_email : string; pr_status : string; pr_kyc_level : Z;
  pr_totp_enabled : bool; pr_is_admin : bool }.

Record UserForAuth := mkUserForAuth {
  ua_id : Uuid; ua_email : string; ua_password_hash : string; ua_totp_enabled : bool }.

Definition set_totp_enabled (b : bool) (a : AccountRow) : AccountRow :=
  mkAccountRow (ac_email a) (ac_password_hash a) (ac_kyc_level a) b.

Section Totp.
Context {J : Type} {ac : AuthCrates} {ck : ClockSource} {pc : Pgcrypto} {tc : TotpCrate}.
Context (pgcrypto_key : string).
Abbreviation TotpState := (TotpState J).

Definition TotpM (A : Type) : Type := TotpState -> result ApiError A * TotpState.

Definition tret {A} (a : A) : TotpM A := fun s => (Ok a, s).
Definition terr {A} (e : ApiError) : TotpM A := fun s => (Err e, s).
Definition tbind {A B} (m : TotpM A) (k : A -> TotpM B) : TotpM B :=
  fun s => match m s with (Ok a, s') => k a s' | (Err e, s') => (Err e, s') end.
Definition tsome {A} (e : ApiError) (x : option A) : TotpM A :=
  match x with Some a => tret a | None => terr e end.

Local Notation "'let@' x := m 'in' k" := (tbind m (fun x => k))
  (at level 10, x pattern, m at level 100, k at level 200).
Local Notation "m ;@ k" := (tbind m (fun _ => k)) (at level 100, k at level 200).

Definition repo_of (s : TotpState) : PgAuthRepository J := sv_repo (tt_service s).

Definition with_repo (q : PgAuthRepository J) (s : TotpState) : TotpState :=
  mkTotpState (mkService q (sv_attempts (tt_service s)) (sv_clock (tt_service s))
    (sv_ids (tt_service s)) (sv_draws (tt_service s))) (tt_secrets s) (tt_encrypted s).

(** One statement on the pool: it may fail, and then nothing has changed; any error is
    answered with [e]. *)
Definition totp_stmt {A} (e : ApiError) (m : TotpState -> option (A * TotpState)) : TotpM A := fun s =>
  let s' := with_repo (after_fault (repo_of s)) s in
  match pg_faults (repo_of s) with
  | true :: _ => (Err e, s')
  | _ => match m s' with Some (a, t) => (Ok a, t) | None => (Err e, s') end
  end.

Definition system_time : TotpM Z := fun s =>
  let v := tt_service s in
  (Ok (clock_now (sv_clock v)),
   mkTotpState (mkService (sv_repo v) (sv_attempts v) (S (sv_clock v)) (sv_ids v) (sv_draws v))
     (tt_secrets s) (tt_encrypted s)).

Definition random_bytes (len : nat) : TotpM (list Z) := fun s =>
  let v := tt_service s in
  (Ok (fill_bytes (sv_draws v) len),
   mkTotpState (mkService (sv_repo v) (sv_attempts v) (sv_clock v) (sv_ids v) (S (sv_draws v)))
     (tt_secrets s) (tt_encrypted s)).

(** ** Statements *)

(** The two halves of a row of [users]. *)
Definition user_row (user_id : Uuid) (s : TotpState) : option (UserTab * AccountRow) :=
  match users (pg_db (repo_of s)) !! user_id, pg_accounts (repo_of s) !! user_id with
  | Some u, Some a => Some (u, a)
  | _, _ => None
  end.

Definition get_profile (user_id : Uuid) (s : TotpState) : option UserProfileRow :=
  (fun ua => mkUserProfile user_id (ac_email ua.2) (ut_status ua.1) (ac_kyc_level ua.2)
               (ac_totp_enabled ua.2) (ut_is_admin ua.1)) <$> user_row user_id s.

Definition get_user_for_auth (user_id : Uuid) (s : TotpState) : option UserForAuth :=
  (fun ua => mkUserForAuth user_id (ac_email ua.2) (ac_password_hash ua.2)
               (ac_totp_enabled ua.2)) <$> user_row user_id s.

(** [None] when the decryption fails. *)
Definition decrypt_totp_secret (user_id : Uuid) (s : TotpState) : option (option string) :=
  match user_row user_id s, tt_secrets s !! user_id with
  | Some _, Some encrypted => Some <$> pgp_sym_decrypt encrypted pgcrypto_key
  | _, _ => Some None
  end.

Definition alter_account (user_id : Uuid) (f : AccountRow -> AccountRow) (s : TotpState) : TotpState :=
  with_repo (mkPgAuth (pg_db (repo_of s)) (alter f user_id (pg_accounts (repo_of s)))
    (pg_tokens (repo_of s)) (pg_faults (repo_of s))) s.

Definition store_totp_secret (user_id : Uuid) (secret_base32 : string) (s : TotpState) : TotpState :=
  match user_row user_id s with
  | Some _ => mkTotpState (tt_service s)
      (<[user_id := pgp_sym_encrypt (tt_encrypted s) secret_base32 pgcrypto_key]> (tt_secrets s))
      (S (tt_encrypted s))
  | None => s
  end.

Definition enable_totp (user_id : Uuid) (s : TotpState) : TotpState :=
  alter_account user_id (set_totp_enabled true) s.

Definition repo_disable_totp (user_id : Uuid) (s : TotpState) : TotpState :=
  let s := alter_account user_id (set_totp_enabled false) s in
  mkTotpState (tt_service s) (delete user_id (tt_secrets s)) (tt_encrypted s).

Definition totp_query {A} (e : ApiError) (q : TotpState -> A) : TotpM A :=
  totp_stmt e (fun s => Some (q s, s)).
Definition totp_update (e : ApiError) (f : TotpState -> TotpState) : TotpM () :=
  totp_stmt e (fun s => Some ((), f s)).

(** ** Handlers *)

Definition rid_internal (rid : Uuid) : ApiError := with_request_id rid internal.
Definition user_not_found (rid : Uuid) : ApiError :=
  with_request_id rid (api_error 404 NotFound "User not found").
Definition invalid_json (rid : Uuid) : ApiError :=
  with_request_id rid (api_error 400 Internal "Invalid JSON").
Definition invalid_code (rid : Uuid) : ApiError :=
  with_request_id rid (api_error 401 MfaInvalid "Invalid TOTP code").

Definition build_totp (secret_bytes : list Z) (account_name : string) (rid : Uuid) : TotpM TOTP :=
  tsome (rid_internal rid)
    (totp_new (mkTotpArgs SHA1 6 1 30 secret_bytes (Some TOTP_ISSUER) account_name)).

Definition load_totp (user_id : Uuid) (email : string) (rid : Uuid) : TotpM TOTP :=
  let@ found := totp_stmt (rid_internal rid) (fun s =>
    (fun secret => (secret, s)) <$> decrypt_totp_secret user_id s) in
  let@ secret_base32 := tsome (with_request_id rid (api_error 400 MfaInvalid
    "TOTP setup not initiated; call /auth/2fa/setup first")) found in
  let@ secret_bytes := tsome (rid_internal rid) (encoded_to_bytes secret_base32) in
  build_totp secret_bytes email rid.

(** [check_current(code)], then the answer to a wrong code. *)
Definition require_code (totp : TOTP) (code : string) (rid : Uuid) : TotpM () :=
  let@ now := system_time in
  let@ valid := tsome (rid_internal rid) (check_current totp code now) in
  if negb valid then terr (invalid_code rid) else tret ().

Fixpoint backup_codes (n : nat) : TotpM (list string) :=
  match n with
  | O => tret []
  | S n =>
      let@ bytes := random_bytes BACKUP_CODE_BYTES in
      let@ rest := backup_codes n in
      tret (base64_url bytes :: rest)
  end.

Definition generate_backup_codes : TotpM (list string) := backup_codes BACKUP_CODE_COUNT.

(** [GET /account] of [handlers/account.rs], on the same statement; the two columns left out
    above are left out here, and its errors carry no request id. *)
Record ProfileResponse := mkProfileResponse {
  pf_id : Uuid; pf_email : string; pf_status : string; pf_kyc_level : Z;
  pf_totp_enabled : bool; pf_is_admin : bool }.

Definition get_profile_endpoint (caller : Uuid) : TotpM ProfileResponse :=
  let@ found := totp_query internal (get_profile caller) in
  let@ row := tsome (api_error 404 NotFound "User not found") found in
  tret (mkProfileResponse (pr_id row) (pr_email row) (pr_status row) (pr_kyc_level row)
    (pr_totp_enabled row) (pr_is_admin row)).

Definition setup_totp (caller rid : Uuid) : TotpM SetupTotpResponse :=
  let@ found := totp_query (rid_internal rid) (get_profile caller) in
  let@ profile := tsome (user_not_found rid) found in
  if pr_totp_enabled profile then
    terr (with_request_id rid (api_error 409 Forbidden "2FA is already enabled; disable it first"))
  else
    let@ key_bytes := random_bytes TOTP_SECRET_BYTES in
    let secret_base32 := raw_to_string key_bytes in
    let@ totp := build_totp key_bytes (pr_email profile) rid in
    let otp_auth_uri := get_url totp in
    let@ qr_base64 := tsome (rid_internal rid) (get_qr_base64 totp) in
    let qr_data_uri := String.append "data:image/png;base64," qr_base64 in
    totp_update (rid_internal rid) (store_totp_secret caller secret_base32) ;@
    tret (mkSetupTotp secret_base32 otp_auth_uri qr_data_uri).

(** [payload] is [None] when the body is not the JSON expected. *)
Definition verify_totp (caller rid : Uuid) (payload : option VerifyTotpInput)
    : TotpM VerifyTotpResponse :=
  let@ input := tsome (invalid_json rid) payload in
  let@ found := totp_query (rid_internal rid) (get_profile caller) in
  let@ profile := tsome (user_not_found rid) found in
  if pr_totp_enabled profile then
    terr (with_request_id rid (api_error 409 Forbidden "2FA is already enabled"))
  else
    let@ totp := load_totp caller (pr_email profile) rid in
    require_code totp (vt_code input) rid ;@
    totp_update (rid_internal rid) (enable_totp caller) ;@
    let@ codes := generate_backup_codes in
    tret (mkVerifyResponse true codes).

Definition disable_totp (caller rid : Uuid) (payload : option DisableTotpInput) : TotpM () :=
  let@ input := tsome (invalid_json rid) payload in
  let@ found := totp_query (rid_internal rid) (get_user_for_auth caller) in
  let@ user := tsome (user_not_found rid) found in
  let@ password_ok := match verify_password (dt_password input) (ua_password_hash user) with
                      | Ok b => tret b | Err _ => terr (rid_internal rid) end in
  if negb password_ok then
    terr (with_request_id rid (api_error 401 InvalidCredentials "Invalid password"))
  else if negb (ua_totp_enabled user) then
    terr (with_request_id rid (api_error 409 Forbidden "2FA is not enabled"))
  else
    let@ totp := load_totp caller (ua_email user) rid in
    require_code totp (dt_code input) rid ;@
    totp_update (rid_internal rid) (repo_disable_totp caller).
End Totp.

(** ** Runs *)

Section Runs.
Context {J : Type} {ac : AuthCrates} {ck : ClockSource} {pc : Pgcrypto} {tc : TotpCrate}.
Context (pgcrypto_key : string).
Implicit Types (s : TotpState J).

(** The state in which a statement runs, and the one after reading the clock. *)
Definition touch s : TotpState J := with_repo (after_fault (repo_of s)) s.
Definition ticked s : TotpState J := (system_time s).2.

(** Faults, clock readings and random draws apart, nothing has changed. *)
Definition same_tables s s' : Prop :=
  pg_db (repo_of s') = pg_db (repo_of s) /\ pg_accounts (repo_of s') = pg_accounts (repo_of s) /\
  pg_tokens (repo_of s') = pg_tokens (repo_of s) /\ tt_secrets s' = tt_secrets s /\
  sv_attempts (tt_service s') = sv_attempts (tt_service s) /\
  sv_ids (tt_service s') = sv_ids (tt_service s).

(** [code] is the one-time password of the secret stored for the user, at the next reading
    of the clock. *)
Definition accepted_code (user_id : Uuid) (code : string) s : Prop :=
  exists encrypted secret bytes email totp,
    tt_secrets s !! user_id = Some encrypted /\
    pgp_sym_decrypt encrypted pgcrypto_key = Some secret /\
    encoded_to_bytes secret = Some bytes /\
    totp_new (mkTotpArgs SHA1 6 1 30 bytes (Some TOTP_ISSUER) email) = Some totp /\
    check_current totp code (clock_now (sv_clock (tt_service s))) = Some true.

Lemma tbind_inv {A B} (m : TotpM A) (k : A -> TotpM (J := J) B) s r s' :
  tbind m k s = (r, s') ->
  (exists a s1, m s = (Ok a, s1) /\ k a s1 = (r, s')) \/
  (exists e, m s = (Err e, s') /\ r = Err e).
Proof. unfold tbind. destruct (m s) as [[a|e] s1]; intros H; simplify_eq; eauto. Qed.

Lemma totp_stmt_inv {A} e (m : TotpState J -> option (A * TotpState J)) s r s' :
  totp_stmt e m s = (r, s') ->
  (exists a, r = Ok a /\ m (touch s) = Some (a, s')) \/ (r = Err e /\ s' = touch s).
Proof.
  unfold totp_stmt, touch. destruct (pg_faults (repo_of s)) as [|[] f]; intros H; [|simplify_eq; eauto|];
    destruct (m _) as [[a t]|]; simplify_eq; eauto.
Qed.

Lemma totp_query_inv {A} e (q : TotpState J -> A) s r s' :
  totp_query e q s = (r, s') -> s' = touch s /\ (r = Ok (q (touch s)) \/ r = Err e).
Proof. intros [(a & -> & H)|[-> ->]]%totp_stmt_inv; [injection H as <- <-|]; eauto. Qed.

Lemma totp_update_inv e (f : TotpState J -> TotpState J) s r s' :
  totp_update e f s = (r, s') ->
  (r = Ok () /\ s' = f (touch s)) \/ (r = Err e /\ s' = touch s).
Proof. intros [([] & -> & H)|[-> ->]]%totp_stmt_inv; [injection H as <-|]; eauto. Qed.

Lemma tsome_inv {A} e (x : option A) s r s' :
  tsome e x s = (r, s') -> s' = s /\ ((exists a, x = Some a /\ r = Ok a) \/ (x = None /\ r = Err e)).
Proof. destruct x; intros [= <- <-]; eauto. Qed.

(** Splits a run of a handler into the runs of its statements. *)
Ltac totp_step :=
  match goal with
  | H : tbind _ _ _ = (_, _) |- _ =>
      let a := fresh "a" in let s1 := fresh "s" in let e := fresh "e" in
      let H' := fresh "H" in
      apply tbind_inv in H as [(a & s1 & H' & H)|(e & H & ->)]
  | H : totp_query _ _ _ = (_, _) |- _ => apply totp_query_inv in H as [-> [H|H]]
  | H : totp_update _ _ _ = (_, _) |- _ => apply totp_update_inv in H as [[H ->]|[H ->]]
  | H : tsome _ _ _ = (_, _) |- _ =>
      let x := fresh "x" in let H' := fresh "H" in
      apply tsome_inv in H as [-> [(x & H' & H)|[H' H]]]
  | H : (if negb ?b then _ else _) _ = (_, _) |- _ => destruct b eqn:?; cbn [negb] in H
  | H : (if ?b then _ else _) _ = (_, _) |- _ => destruct b eqn:?
  | H : tret _ _ = (_, _) |- _ => unfold tret in H
  | H : terr _ _ = (_, _) |- _ => unfold terr in H
  | H : random_bytes _ _ = (_, _) |- _ => unfold random_bytes in H
  | H : (Ok _, _) = (_, _) |- _ => injection H as ? ?
  | H : (Err _, _) = (_, _) |- _ => injection H as ? ?
  | H : ?x = ?x |- _ => clear H
  | H : Ok _ = Ok _ |- _ => injection H as ?
  | H : Err _ = Err _ |- _ => injection H as ?
  | H : Ok _ = Err _ |- _ => discriminate H
  | H : Err _ = Ok _ |- _ => discriminate H
  end.
Ltac totp_inv := repeat (subst; totp_step); subst.

Lemma load_totp_inv user_id email rid s r s' :
  load_totp pgcrypto_key user_id email rid s = (r, s') ->
  s' = touch s /\ forall totp, r = Ok totp -> exists encrypted secret bytes,
    tt_secrets s !! user_id = Some encrypted /\
    pgp_sym_decrypt encrypted pgcrypto_key = Some secret /\
    encoded_to_bytes secret = Some bytes /\
    totp_new (mkTotpArgs SHA1 6 1 30 bytes (Some TOTP_ISSUER) email) = Some totp.
Proof.
  intros [(found & s1 & H & Hk)|(e & H & ->)]%tbind_inv;
    apply totp_stmt_inv in H as [(a & Ha & H)|[Ha ->]]; try done; cbn beta in H;
    destruct (decrypt_totp_secret _ _ _) as [x|] eqn:Hd; cbn in H; simplify_eq.
  unfold build_totp in Hk. totp_inv; split; try done. intros totp [= <-].
  unfold decrypt_totp_secret in Hd. destruct (user_row _ _); [|done].
  destruct (tt_secrets (touch s) !! user_id) as [c|] eqn:Hc; [|done]. cbn in Hd.
  destruct (pgp_sym_decrypt c pgcrypto_key) eqn:Hp; [|done]. injection Hd as ->.
  by exists c, x1, x0.
Qed.

Lemma require_code_inv totp code rid s r s' :
  require_code totp code rid s = (r, s') ->
  s' = ticked s /\
  (forall v, r = Ok v -> check_current totp code (clock_now (sv_clock (tt_service s))) = Some true).
Proof.
  unfold require_code, tbind, system_time, tsome. cbn.
  destruct (check_current _ _ _) as [[]|]; intros [= <- <-]; done.
Qed.

Lemma backup_codes_inv n s r s' :
  backup_codes n s = (r, s') ->
  same_tables s s' /\ exists codes, r = Ok codes /\ length codes = n.
Proof.
  revert s r. induction n as [|n IH]; intros s r; [intros [= <- <-]; split; [done|by eexists]|].
  cbn [backup_codes]. intros H. totp_inv;
    match goal with H : backup_codes n _ = _ |- _ => apply IH in H as (Hs & codes & Hc & <-) end;
    simplify_eq. split; [exact Hs|]. eauto.
Qed.

Lemma generate_backup_codes_inv s r s' :
  generate_backup_codes s = (r, s') ->
  same_tables s s' /\ exists codes, r = Ok codes /\ length codes = BACKUP_CODE_COUNT.
Proof. unfold generate_backup_codes. apply backup_codes_inv. Qed.

(** The statements behind the checks of a code, and the backup codes. *)
Ltac totp_checks :=
  try match goal with H : load_totp _ _ _ _ _ = _ |- _ => apply load_totp_inv in H as [-> Hl] end;
  try match goal with H : require_code _ _ _ _ = _ |- _ => apply require_code_inv in H as [-> Hcode] end;
  try match goal with H : generate_backup_codes _ = _ |- _ =>
    apply generate_backup_codes_inv in H as (Hs & codes & Hcs & Hlen) end.

(** A secret that was set up replaces the one stored before; the factor stays off. *)
Lemma setup_totp_spec caller rid s r s' :
  setup_totp pgcrypto_key caller rid s = (r, s') ->
  match r with
  | Ok resp =>
      (exists profile, get_profile caller s = Some profile /\ pr_totp_enabled profile = false) /\
      exists s0, same_tables s s0 /\ s' = store_totp_secret pgcrypto_key caller (st_secret resp) s0
  | Err _ => same_tables s s'
  end.
Proof.
  unfold setup_totp, build_totp. intros H. totp_inv; try done.
  split; [by eauto|]. eexists. split; [|done]. done.
Qed.

(** The factor is switched on for a code of the stored secret only. *)
Lemma verify_totp_spec caller rid input s r s' :
  verify_totp pgcrypto_key caller rid (Some input) s = (r, s') ->
  match r with
  | Ok resp =>
      accepted_code caller (vt_code input) s /\ length (vr_backup_codes resp) = BACKUP_CODE_COUNT /\
      (exists profile, get_profile caller s = Some profile /\ pr_totp_enabled profile = false) /\
      exists s0, same_tables s s0 /\ same_tables (enable_totp caller s0) s'
  | Err _ => same_tables s s'
  end.
Proof.
  unfold verify_totp. cbn [tsome]. intros H. totp_inv; totp_checks; try done.
  destruct (Hl _ eq_refl) as (c & secret & bytes & Hc & Hd & Hb & Hn). injection Hcs as <-.
  split_and!; [|done|by eauto|].
  - exists c, secret, bytes, (pr_email x), a0. split_and!;
      [exact Hc|exact Hd|exact Hb|exact Hn|exact (Hcode _ eq_refl)].
  - by exists (touch (ticked (touch (touch s0)))).
Qed.

(** Switching it off takes the password and a code. *)
Lemma disable_totp_spec caller rid input s r s' :
  disable_totp pgcrypto_key caller rid (Some input) s = (r, s') ->
  match r with
  | Ok _ => accepted_code caller (dt_code input) s /\
      (exists user, get_user_for_auth caller s = Some user /\ ua_totp_enabled user = true /\
         verify_password (dt_password input) (ua_password_hash user) = Ok true) /\
      exists s0, same_tables s s0 /\ s' = repo_disable_totp caller s0
  | Err _ => same_tables s s'
  end.
Proof.
  unfold disable_totp. cbn [tsome]. intros H. totp_inv; try done.
  all: match goal with H : match verify_password ?p ?h with _ => _ end _ = _ |- _ =>
    destruct (verify_password p h) as [ok|] eqn:Hpw end; totp_inv; totp_checks; try done.
  destruct (Hl _ eq_refl) as (c & secret & bytes & Hc & Hd & Hb & Hn).
  split_and!; [|by eauto|].
  - exists c, secret, bytes, (ua_email x), a0. split_and!;
      [exact Hc|exact Hd|exact Hb|exact Hn|exact (Hcode _ eq_refl)].
  - by exists (touch (ticked (touch (touch s0)))).
Qed.
End Runs.

(** ** The second factor over time *)

Ltac login_step :=
  let H := match goal with H : abind _ _ _ = _ |- _ => H end in
  let Ha := fresh "Ha" in let a := fresh "a" in let s := fresh "s" in
  apply abind_inv in H as [(a & s & Ha & H)|(? & Ha & [=])].

(** Tokens are minted for an account without a second factor only. *)
Lemma login_tokens_no_factor {S} {repo : AuthRepository S} {views : AuthViews S}
    {laws : AuthRepositoryLaws S} {ac : AuthCrates} {hops : HashOps} {uc : UnicodeChars}
    {us : UuidSource} {ck : ClockSource} cfg input ip (s s' : Service S) minted :
  keys_ok (sv_repo s) -> login cfg input ip s = (Ok (Tokens minted), s') ->
  exists u, users_of (sv_repo s) !! au_id u = Some u /\
    au_email u = normalize_email (li_email input) /\ au_totp_enabled u = false.
Proof.
  intros Hk H. open_alone H. unfold normalised_email_or_error in H.
  destruct (is_valid_email _); login_step; [|done]. injection Ha as <- <-.
  login_step. injection Ha as <- <-. login_step. rewrite ensure_eq in Ha.
  destruct (is_locked _ _ _); [done|]. injection Ha as _ <-.
  login_step. apply repo_or_internal_inv in Ha as (q & -> & [(found & Hf & Hx)|(? & Hf & [=])]).
  cbn in Hf. apply find_user_by_email_law in Hf as [_ Hf]; [|done]. injection Hx as ->.
  destruct found as [u|]; [|rewrite refuse_eq in H; discriminate H]. destruct Hf as [Hu He].
  exists u. split_and!; [done|done|].
  destruct (bool_decide _); [rewrite refuse_eq in H; discriminate H|].
  login_step.
  match goal with H : (if negb ?b then _ else _) _ = _ |- _ => destruct b; cbn [negb] in H end;
     [|rewrite refuse_eq in H; discriminate H].
  login_step. login_step. destruct (au_totp_enabled u); [|done].
  login_step. login_step. login_step. discriminate H.
Qed.

Section Factor.
Context {J : Type} {ac : AuthCrates} {hops : HashOps} {uc : UnicodeChars} {us : UuidSource}.
Context {ck : ClockSource} {pc : Pgcrypto} {tc : TotpCrate}.
Context (cfg : TokenConfig) (pgcrypto_key : string).
Implicit Types (s : TotpState J).

(** A request to the auth or the 2FA endpoints of any user, except that [user_id] does not
    switch off the second factor. *)
Inductive totp_request (user_id : Uuid) s s' : Prop :=
| TqAuth v :
    request cfg (tt_service s) v -> s' = mkTotpState v (tt_secrets s) (tt_encrypted s) ->
    totp_request user_id s s'
| TqSetup caller rid r :
    setup_totp pgcrypto_key caller rid s = (r, s') -> totp_request user_id s s'
| TqVerify caller rid input r :
    verify_totp pgcrypto_key caller rid input s = (r, s') -> totp_request user_id s s'
| TqDisable caller rid input r :
    disable_totp pgcrypto_key caller rid input s = (r, s') ->
    (caller = user_id -> exists e, r = Err e) -> totp_request user_id s s'.

(** Some accounts have the flag of the second factor set or cleared. *)
Definition flags_changed s s' : Prop :=
  sv_ids (tt_service s') = sv_ids (tt_service s) /\
  pg_tokens (repo_of s') = pg_tokens (repo_of s) /\
  forall i, exists b, pg_users (repo_of s') !! i =
    (fun u => mkAuthUser (au_id u) (au_email u) (au_password_hash u) (au_status u)
                (au_kyc_level u) (default (au_totp_enabled u) b)) <$> pg_users (repo_of s) !! i.

(** The account has a second factor, with this encrypted secret. *)
Definition factor_on (user_id : Uuid) (u : AuthUser) (secret : option string) s : Prop :=
  service_ok (tt_service s) /\ users_of (repo_of s) !! user_id = Some u /\
  au_totp_enabled u = true /\ tt_secrets s !! user_id = secret.

Lemma same_tables_users s s' : same_tables s s' -> pg_users (repo_of s') = pg_users (repo_of s).
Proof. intros (Hd & Ha & _). unfold pg_users. by rewrite Hd, Ha. Qed.

Lemma fmap_flag (u : option AuthUser) :
  (fun u => mkAuthUser (au_id u) (au_email u) (au_password_hash u) (au_status u)
     (au_kyc_level u) (default (au_totp_enabled u) None)) <$> u = u.
Proof. by destruct u as [[]|]. Qed.

Lemma same_tables_flags s s' : same_tables s s' -> flags_changed s s'.
Proof.
  intros H. pose proof (same_tables_users _ _ H) as Hu. destruct H as (_ & _ & Ht & _ & _ & Hi).
  split_and!; [done|done|]. intros i. exists None. by rewrite Hu, fmap_flag.
Qed.

Lemma set_flag_users caller b s i :
  pg_users (repo_of (alter_account caller (set_totp_enabled b) s)) !! i =
  (fun u => mkAuthUser (au_id u) (au_email u) (au_password_hash u) (au_status u)
     (au_kyc_level u) (if decide (i = caller) then b else au_totp_enabled u)) <$>
  pg_users (repo_of s) !! i.
Proof.
  rewrite !pg_users_lookup. cbn. destruct (users _ !! i) as [u|]; [|done].
  destruct (decide (i = caller)) as [->|Hne].
  - rewrite lookup_alter_eq. by destruct (pg_accounts _ !! caller).
  - rewrite lookup_alter_ne by done. by destruct (pg_accounts _ !! i).
Qed.

Lemma set_flag_changed caller b s : flags_changed s (alter_account caller (set_totp_enabled b) s).
Proof.
  split_and!; [done|done|]. intros i. rewrite set_flag_users.
  destruct (decide (i = caller)); [by exists (Some b)|by exists None].
Qed.

Lemma flags_changed_trans s1 s2 s3 : flags_changed s1 s2 -> flags_changed s2 s3 -> flags_changed s1 s3.
Proof.
  intros (Hi & Ht & Hu) (Hi' & Ht' & Hu'). split_and!; [congruence|congruence|]. intros i.
  destruct (Hu i) as [b Hb], (Hu' i) as [b' Hb']. exists (match b' with Some _ => b' | None => b end).
  rewrite Hb', Hb. by destruct (pg_users (repo_of s1) !! i), b'.
Qed.

Lemma flags_changed_ok s s' :
  flags_changed s s' -> service_ok (tt_service s) -> service_ok (tt_service s').
Proof.
  intros (Hi & Ht & Hu) [(K1 & K2 & K3 & K4) Hk]. split;
    [|cbn; unfold repo_of in *; by rewrite Ht, Hi].
  assert (forall i u, pg_users (repo_of s') !! i = Some u -> exists v,
    pg_users (repo_of s) !! i = Some v /\ au_id u = au_id v /\ au_email u = au_email v) as Hback.
  { intros i u H. destruct (Hu i) as [b Hb]. rewrite H in Hb.
    destruct (pg_users (repo_of s) !! i) as [v|]; [|done]. injection Hb as ->. by exists v. }
  unfold keys_ok. cbn in *. unfold repo_of in *. rewrite Ht. split_and!; [|done| |done].
  - intros i u (v & Hv & -> & _)%Hback. by apply K1.
  - intros i j u w (v & Hv & _ & ->)%Hback (x & Hx & _ & ->)%Hback. by apply K3.
Qed.
Lemma get_profile_user caller s profile :
  get_profile caller s = Some profile <-> exists u row,
    pg_users (repo_of s) !! caller = Some u /\ users (pg_db (repo_of s)) !! caller = Some row /\
    profile = mkUserProfile caller (au_email u) (ut_status row) (au_kyc_level u)
                (au_totp_enabled u) (ut_is_admin row).
Proof.
  rewrite pg_users_lookup. unfold get_profile, user_row.
  destruct (users (pg_db (repo_of s)) !! caller), (pg_accounts (repo_of s) !! caller); cbn; naive_solver.
Qed.

Lemma profile_factor caller s profile u :
  pg_users (repo_of s) !! caller = Some u -> get_profile caller s = Some profile ->
  pr_totp_enabled profile = au_totp_enabled u.
Proof. intros Hu (v & row & Hv & _ & ->)%get_profile_user. by simplify_eq. Qed.

Lemma setup_totp_flags caller rid s r s' :
  setup_totp pgcrypto_key caller rid s = (r, s') -> flags_changed s s'.
Proof.
  intros H%setup_totp_spec. destruct r as [resp|]; [|by apply same_tables_flags].
  destruct H as (_ & s0 & Hs & ->). eapply flags_changed_trans; [by apply same_tables_flags|].
  unfold store_totp_secret. destruct (user_row _ _); [|by apply same_tables_flags].
  split_and!; [done|done|]. intros i. exists None. by rewrite fmap_flag.
Qed.

Lemma factor_on_same user_id u secret s s' :
  same_tables s s' -> factor_on user_id u secret s -> factor_on user_id u secret s'.
Proof.
  intros Hs (Ho & Hu & Ht & Hc). split_and!.
  - eapply flags_changed_ok; [by apply same_tables_flags|done].
  - cbn. by rewrite (same_tables_users _ _ Hs).
  - done.
  - destruct Hs as (_ & _ & _ & -> & _). done.
Qed.

Lemma factor_on_set user_id u secret caller b s :
  (caller = user_id -> b = true) -> factor_on user_id u secret s ->
  factor_on user_id u secret (alter_account caller (set_totp_enabled b) s).
Proof.
  intros Hb (Ho & Hu & Ht & Hc). split_and!; [| |done|done].
  - eapply flags_changed_ok; [by apply set_flag_changed|done].
  - change (users_of (repo_of s)) with (pg_users (repo_of s)) in Hu.
    etrans; [apply set_flag_users|]. rewrite Hu. cbn.
    destruct (decide (user_id = caller)) as [->|]; [rewrite (Hb eq_refl), <- Ht|]; by destruct u.
Qed.

Context {Hinj : Inj (=) (=) new_v4}.

(** Nothing but the owner's switching it off removes a second factor or its secret. *)
Lemma factor_stays user_id u secret s s' :
  totp_request user_id s s' -> factor_on user_id u secret s -> factor_on user_id u secret s'.
Proof.
  intros Hr Hf. destruct Hr as [v Hr ->|caller rid r H|caller rid input r H|caller rid input r H He].
  - destruct Hf as (Ho & Hu & Ht & Hc). split_and!; [| |done|done].
    + by eapply request_ok.
    + by apply (requests_users cfg (tt_service s) v); [|apply rtc_once|].
  - apply setup_totp_spec in H. destruct r as [resp|]; [|by eapply factor_on_same].
    destruct H as [(profile & Hp & Hoff) (s0 & Hs & ->)].
    destruct (decide (caller = user_id)) as [->|Hne].
    { destruct Hf as (_ & Hu & Ht & _). rewrite (profile_factor _ _ _ _ Hu Hp) in Hoff. congruence. }
    apply (factor_on_same _ _ _ _ _ Hs) in Hf. unfold store_totp_secret.
    destruct (user_row _ _); [|done]. destruct Hf as (Ho & Hu & Ht & Hc).
    split_and!; try done. cbn. by rewrite lookup_insert_ne.
  - destruct input as [input|]; [|by unfold verify_totp, tbind in H; cbn in H; simplify_eq].
    apply verify_totp_spec in H. destruct r as [resp|]; [|by eapply factor_on_same].
    destruct H as (_ & _ & _ & s0 & Hs & Hs'). eapply factor_on_same; [exact Hs'|].
    apply factor_on_set; [done|by eapply factor_on_same].
  - destruct input as [input|]; [|by unfold disable_totp, tbind in H; cbn in H; simplify_eq].
    apply disable_totp_spec in H. destruct r as [[]|]; [|by eapply factor_on_same].
    destruct H as (_ & _ & s0 & Hs & ->). assert (caller <> user_id) as Hne.
    { intros ->. by destruct (He eq_refl). }
    apply (factor_on_same _ _ _ _ _ Hs), (factor_on_set _ _ _ caller false) in Hf; [|done].
    destruct Hf as (Ho & Hu & Ht & Hc). split_and!; try done. cbn. by rewrite lookup_delete_ne.
Qed.

Lemma factor_stays_on user_id u secret s s' :
  rtc (totp_request user_id) s s' -> factor_on user_id u secret s -> factor_on user_id u secret s'.
Proof. induction 1; eauto using factor_stays. Qed.
End Factor.

(** ** The theorem *)

(** C31. Who switches on a second factor is asked for it.  A request that switches it on
    carries a code of the secret stored for the caller.  From then on, whatever requests to
    the auth and 2FA endpoints follow from whomever, and as long as the owner does not
    switch it off: (1) the stored secret stays the one that was verified; (2) no login to
    the account, from anywhere and with any password, yields tokens; and (3) switching it
    off takes the account's password and a code of that secret, and then both the flag and
    the secret are gone. *)
Theorem second_factor_is_demanded {J : Type} {ac : AuthCrates} {hops : HashOps}
    {uc : UnicodeChars} {us : UuidSource} {ck : ClockSource} {pc : Pgcrypto} {tc : TotpCrate}
    cfg key user_id rid input resp (s s1 : TotpState J) :
  Inj (=) (=) new_v4 -> service_ok (tt_service s) ->
  verify_totp key user_id rid (Some input) s = (Ok resp, s1) ->
  accepted_code key user_id (vt_code input) s /\
  exists u, users_of (repo_of s1) !! user_id = Some u /\ au_totp_enabled u = true /\
  forall s2, rtc (totp_request cfg key user_id) s1 s2 ->
    tt_secrets s2 !! user_id = tt_secrets s !! user_id /\
    (forall attempt ip minted v, normalize_email (li_email attempt) = au_email u ->
       login cfg attempt ip (tt_service s2) <> (Ok (Tokens minted), v)) /\
    (forall rid' off s3, disable_totp key user_id rid' (Some off) s2 = (Ok (), s3) ->
       accepted_code key user_id (dt_code off) s2 /\
       verify_password (dt_password off) (au_password_hash u) = Ok true /\
       tt_secrets s3 !! user_id = None /\
       exists w, users_of (repo_of s3) !! user_id = Some w /\ au_totp_enabled w = false).
Proof.
  intros Hinj Ho H. apply verify_totp_spec in H as (Hcode & _ & (profile & Hp & _) & s0 & Hs & Hs1).
  split; [done|]. apply get_profile_user in Hp as (v & row & Hv & _).
  set (u := mkAuthUser (au_id v) (au_email v) (au_password_hash v) (au_status v) (au_kyc_level v) true).
  assert (factor_on user_id u (tt_secrets s !! user_id) s1) as Hon.
  { eapply factor_on_same; [exact Hs1|]. split_and!.
    - eapply flags_changed_ok; [apply set_flag_changed|].
      eapply flags_changed_ok; [by apply same_tables_flags|done].
    - etrans; [apply set_flag_users|]. rewrite (same_tables_users _ _ Hs), Hv. cbn.
      by rewrite decide_True.
    - done.
    - destruct Hs as (_ & _ & _ & <- & _). done. }
  exists u. split; [apply Hon|]. split; [done|]. intros s2 Hrun.
  pose proof (factor_stays_on cfg _ _ _ _ _ _ Hrun Hon) as (Ho2 & Hu2 & Ht & Hc). split_and!; [done| |].
  - intros attempt ip minted w He H.
    apply login_tokens_no_factor in H as (x & Hx & Hex & Hoff); [|apply Ho2].
    destruct Ho2 as [(_ & _ & K3 & _) _].
    assert (au_id x = user_id) as Hid by (eapply K3; [exact Hx|exact Hu2|congruence]).
    rewrite Hid in Hx. unfold repo_of in *. by simplify_eq.
  - intros rid' off s3 H. apply disable_totp_spec in H as (Hcode' & (w & Hw & _ & Hpw) & s4 & Hs4 & ->).
    assert (ua_password_hash w = au_password_hash u) as Hh.
    { cbn in Hu2. rewrite pg_users_lookup in Hu2. unfold get_user_for_auth, user_row in Hw.
      destruct (users (pg_db (repo_of s2)) !! user_id), (pg_accounts (repo_of s2) !! user_id); try done.
      injection Hw as <-. injection Hu2 as _ _ -> _. done. }
    rewrite <- Hh. split_and!; [done|done|cbn; by rewrite lookup_delete_eq|].
    eexists. split.
    { etrans; [apply set_flag_users|]. rewrite (same_tables_users _ _ Hs4).
      cbn in Hu2. rewrite Hu2. cbn. by rewrite decide_True. }
    done.
Qed.

(** ** Samples *)

(** A "crate" whose passwords are the first byte of the key and the number of the time
    step, and whose secrets are printed as they are. *)
#[export] Instance plain_totp : TotpCrate := {|
  TOTP := list Z;
  totp_new a := Some (ta_secret a);
  get_url _ := "otpauth://totp";
  get_qr_base64 _ := Some "";
  check_current key code now :=
    Some (bool_decide (code = pretty (default 0 (head key) + now / (30 * second))));
  raw_to_string bytes := of_codes (Z.to_N <$> bytes);
  encoded_to_bytes s := Some (Z.of_N <$> codes s);
  fill_bytes n len := replicate len (Z.of_nat n);
|}.

#[local] Instance clear_text : Pgcrypto := {|
  pgp_sym_encrypt _ data _ := data;
  pgp_sym_decrypt data _ := Some data;
|}.

Definition totp_start : TotpState (WireEvent Z) := mkTotpState signed_up ∅ 0.
Definition carol_id : Uuid := 500%N.
Definition set_up := (setup_totp "key" carol_id 9%N totp_start).2.

(** Draw 2 gave the key; no time step has passed. *)
Definition switched_on := (verify_totp "key" carol_id 9%N (Some (mkVerifyTotp "2")) set_up).2.
Definition codes_of (r : result ApiError VerifyTotpResponse) : list string :=
  match r with Ok resp => vr_backup_codes resp | Err _ => [] end.
Definition switched_on_codes : list string :=
  codes_of (verify_totp "key" carol_id 9%N (Some (mkVerifyTotp "2")) set_up).1.

Example carol_is_asked :
  (login config (carol_login "Tr0ub4dor&3xyz") "10.0.0.1" (tt_service switched_on)).1 =
    Ok (MfaNeeded "mfa") /\
  (setup_totp "key" carol_id 9%N switched_on).1 =
    Err (with_request_id 9%N (api_error 409 Forbidden "2FA is already enabled; disable it first")).
Proof. vm_compute. done. Qed.

Lemma email_of_carol u :
  users_of (repo_of switched_on) !! carol_id = Some u ->
  au_email u = normalize_email "carol@example.COM".
Proof. vm_compute. intros [= <-]. reflexivity. Qed.

Lemma second_factor_is_demanded_witness :
  ~ exists minted v, login config (carol_login "Tr0ub4dor&3xyz") "10.0.0.1"
    (tt_service switched_on) = (Ok (Tokens minted), v).
Proof.
  assert (verify_totp "key" carol_id 9%N (Some (mkVerifyTotp "2")) set_up =
    (Ok (mkVerifyResponse true switched_on_codes), switched_on)) as Hv.
  { refine (eq_trans (surjective_pairing _) (f_equal (fun r => (r, switched_on)) _)).
    vm_compute. reflexivity. }
  assert (service_ok (tt_service set_up)) as Ho.
  { eapply flags_changed_ok; [eapply setup_totp_flags, surjective_pairing|].
    eapply (request_ok (Hinj := numbered_inj) config start); [exact start_ok|].
    eapply RSignup, surjective_pairing. }
  destruct (second_factor_is_demanded config "key" carol_id 9%N (mkVerifyTotp "2") _ set_up switched_on
    numbered_inj Ho Hv) as (_ & u & Hu & _ & H).
  destruct (H switched_on (rtc_refl _ _)) as (_ & Hlogin & _). intros (minted & v & Hl).
  exact (Hlogin (carol_login "Tr0ub4dor&3xyz") _ _ _ (eq_sym (email_of_carol u Hu)) Hl).
Defined.

(** ** Findings *)

(** A backup code opens nothing: it is stored nowhere, and the one endpoint that asks for a
    code refuses it. *)
Example backup_codes_are_worthless :
  length switched_on_codes = 8%nat /\
  Forall (fun code =>
    (disable_totp "key" carol_id 9%N (Some (mkDisableTotp code "Tr0ub4dor&3xyz")) switched_on).1 =
      Err (invalid_code 9%N)) switched_on_codes.
Proof. vm_compute. split; [done|repeat constructor]. Qed.

(** Base32 of RFC 4648. *)
Definition base32_value (c : N) : option Z :=
  if ((65 <=? c) && (c <=? 90))%N then Some (Z.of_N c - 65)
  else if ((97 <=? c) && (c <=? 122))%N then Some (Z.of_N c - 97)
  else if ((50 <=? c) && (c <=? 55))%N then Some (Z.of_N c - 24) else None.

Definition base32_decode (s : string) : option (list Z) :=
  values ← mapM base32_value (codes s);
  let bits := (5 * length values)%nat in
  let n := fold_left (fun n v => n * 32 + v) values 0 in
  Some ((fun i => (n / 2 ^ (Z.of_nat bits - 8 * (Z.of_nat i + 1))) mod 256) <$> seq 0 (bits / 8)).

(** A crate that prints a raw secret in hexadecimal and reads an encoded one as base32: the
    secret of a setup is not the one the next request reads back. *)
Definition hex_totp : TotpCrate := {|
  TOTP := list Z;
  totp_new a := Some (ta_secret a);
  get_url _ := "otpauth://totp";
  get_qr_base64 _ := Some "";
  check_current key code now :=
    Some (bool_decide (code = pretty (default 0 (head key) + now / (30 * second))));
  raw_to_string := hex_lower;
  encoded_to_bytes := base32_decode;
  fill_bytes n len := replicate len (Z.of_nat n);
|}.

Example hex_secrets_never_verify :
  let set_up := (setup_totp (tc := hex_totp) "key" carol_id 9%N totp_start).2 in
  tt_secrets set_up !! carol_id = Some "0202020202020202020202020202020202020202" /\
  (verify_totp (tc := hex_totp) "key" carol_id 9%N (Some (mkVerifyTotp "2")) set_up).1 =
    Err (rid_internal 9%N).
Proof. vm_compute. done. Qed.

(** The envelope of an error without a request id names the nil id: the account handlers
    lose the id their clients are to report. *)
Example profile_errors_lose_the_id :
  match (get_profile_endpoint 77%N switched_on).1 with
  | Err e => ae_code e = NotFound /\ ae_request_id e = None
  | Ok _ => False
  end.
Proof. vm_compute. done. Qed.
