(* ===== verification/Markets.v ===== *)
(** * Markets: the market data of the API, and the listing of orders

    [services/api/src/repositories/markets.rs] and [handlers/markets.rs]: the markets with
    their statistics of the last 24 hours, the order book, the trades and the klines of a
    market, and the ticker snapshots the WebSocket hub publishes.  The table [klines] is the
    one MarketData writes.  Parameters are the creation time of a trade, the columns of a
    market that are only shown, the creation time of an order, the clocks (milliseconds; trades in microseconds) and
    PostgreSQL's [ROUND(((last - open) / open) * 100, 4)]. *)
From stdpp Require Import relations pretty.
From S2P Require Import Prelude Decimal BTree Types Book BookInv BookCheck BookProps.
From S2P Require Import Bytes RecordLog Proto Wal LogProps Wire Engine EngineInv.
From S2P Require Import EngineRun EngineProps Numeric Database SettleProps.
From S2P Require Import EngineClient ApiBase ApiProps AdminProps System Pnl History.
From S2P Require Import ApiOrders AuthBase Http MarketData Ws.

#[local] Open Scope string_scope.

(** ** Rows *)

Record MarketRow (D : Type) := mkMarketRow {
  mr_id : Uuid; mr_symbol : string; mr_base_asset_id : Uuid; mr_quote_asset_id : Uuid;
  mr_base_asset_symbol : string; mr_quote_asset_symbol : string; mr_status : string;
  mr_tick_size : D; mr_lot_size : D; mr_min_notional : D; mr_maker_fee_bps : D;
  mr_taker_fee_bps : D; mr_last_price : option D; mr_volume_24h : option D;
  mr_high_24h : option D; mr_low_24h : option D; mr_price_change_pct : option D }.
Arguments mkMarketRow {D}.
Arguments mr_id {D} _.
Arguments mr_symbol {D} _.
Arguments mr_base_asset_id {D} _.
Arguments mr_quote_asset_id {D} _.
Arguments mr_base_asset_symbol {D} _.
Arguments mr_quote_asset_symbol {D} _.
Arguments mr_status {D} _.
Arguments mr_tick_size {D} _.
Arguments mr_lot_size {D} _.
Arguments mr_min_notional {D} _.
Arguments mr_maker_fee_bps {D} _.
Arguments mr_taker_fee_bps {D} _.
Arguments mr_last_price {D} _.
Arguments mr_volume_24h {D} _.
Arguments mr_high_24h {D} _.
Arguments mr_low_24h {D} _.
Arguments mr_price_change_pct {D} _.

Record TradeRow (D : Type) := mkTradeRow {
  tr_id : Uuid; tr_price : D; tr_quantity : D; tr_taker_side : string; tr_created_at : Z }.
Arguments mkTradeRow {D}.
Arguments tr_id {D} _.
Arguments tr_price {D} _.
Arguments tr_quantity {D} _.
Arguments tr_taker_side {D} _.
Arguments tr_created_at {D} _.

Inductive TradeOrder := Desc | Asc.

(** [repositories::markets::KlineRow], decoded. *)
Record KlineOut (D : Type) := mkKlineOut {
  ko_ts : Z; ko_open : D; ko_high : D; ko_low : D; ko_close : D; ko_volume : D }.
Arguments mkKlineOut {D}.
Arguments ko_ts {D} _.
Arguments ko_open {D} _.
Arguments ko_high {D} _.
Arguments ko_low {D} _.
Arguments ko_close {D} _.
Arguments ko_volume {D} _.

(** A row of the CTE [stats]. *)
Record DayStats := mkDayStats {
  dy_open_24h : Z; dy_high_24h : Z; dy_low_24h : Z; dy_last_price : Z; dy_volume_24h : Z }.

(** ** Responses *)

Record MarketResponse := mkMarketResponse {
  re_id : Uuid; re_symbol : string; re_base_asset : string; re_quote_asset : string;
  re_status : string; re_tick_size : string; re_lot_size : string; re_min_notional : string;
  re_maker_fee_bps : string; re_taker_fee_bps : string; re_last_price : option string;
  re_volume_24h : option string; re_high_24h : option string; re_low_24h : option string;
  re_price_change_pct : option string }.

(** The text of [ts] is left out: the instant is kept. *)
Record TradeResponse := mkTradeResponse {
  te_id : Uuid; te_price : string; te_qty : string; te_side : string; te_ts : Z }.

Record KlineResponse := mkKlineResponse {
  ke_ts : Z; ke_open : string; ke_high : string; ke_low : string; ke_close : string;
  ke_volume : string }.

Record OrderbookResponse := mkOrderbook {
  oe_bids : list (string * string); oe_asks : list (string * string); oe_seq : Z }.

Record TradesQuery := mkTradesQuery {
  tq_from : option Z; tq_order : option string; tq_to : option Z; tq_limit : option Z }.
Record KlinesQuery := mkKlinesQuery {
  kq_interval : option string; kq_from : option Z; kq_to : option Z; kq_limit : option Z }.
Record OrderbookQuery := mkOrderbookQuery { oq_depth : option nat }.

Definition default_trade_limit : Z := 50.
Definition default_kline_limit : Z := 500.
Definition default_depth : nat := 100.

(** [usize::clamp]. *)
Definition clamp_nat (lo hi n : nat) : nat := if (n <? lo)%nat then lo else if (hi <? n)%nat then hi else n.

(** Each order has its own comparison. *)
Definition opened_before (a b : Z * KlineRow) : Prop := a.1 <= b.1.
#[export] Instance opened_before_dec a b : Decision (opened_before a b).
Proof. unfold opened_before. apply _. Defined.

Definition market_before (a b : Uuid * MarketTab) : Prop :=
  String.leb (mt_symbol a.2) (mt_symbol b.2) = true.
#[export] Instance market_before_dec a b : Decision (market_before a b).
Proof. unfold market_before. apply _. Defined.

Definition of_nullable {D} {pg : PgDecimal D} (n : option Z) : option (option D) :=
  match n with None => Some None | Some n => Some <$> of_pg n end.

Section Markets.
Context {D J : Type} {pg : PgDecimal D} {dt : DecimalText D}.
Context (tick_size lot_size min_notional : MarketTab -> Z).
Context (created_at : TradeTab -> Z) (change_pct : Z -> Z -> Z).
Context (klines : Klines) (db_now : Z).

(** ** Statistics of the last 24 hours *)

(** [WHERE k.interval = '1m' AND k.opened_at >= now() - INTERVAL '24 hours'], of one
    symbol, by the time they opened. *)
Definition day_klines (symbol : string) : list (Z * KlineRow) :=
  merge_sort opened_before (omap (fun kk : (string * string * Z) * KlineRow =>
    let '(s, interval, opened_at, k) := kk in
    if bool_decide (s = symbol /\ interval = "1m" /\ db_now - DAY_MS <= opened_at)
    then Some (opened_at, k) else None) (map_to_list klines)).

Definition day_stats (symbol : string) : option DayStats :=
  match day_klines symbol with
  | [] => None
  | (_, first) :: rest =>
      let ks := first :: rest.*2 in
      Some (mkDayStats (kw_open first)
              (foldr Z.max (kw_high first) (kw_high <$> ks))
              (foldr Z.min (kw_low first) (kw_low <$> ks))
              (kw_close (default first (last ks)))
              (foldr Z.add 0 (kw_volume <$> ks)))
  end.

(** [CASE WHEN s.open_24h IS NOT NULL AND s.open_24h <> 0 THEN .. END]. *)
Definition day_change (s : DayStats) : option Z :=
  if bool_decide (dy_open_24h s = 0) then None
  else Some (change_pct (dy_open_24h s) (dy_last_price s)).

(** ** Statements *)

(** A row of the joins; [None] where an asset is missing. *)
Definition market_row (db : Db J) (im : Uuid * MarketTab) : option (result DbError (MarketRow D)) :=
  let '(id, m) := im in
  match assets db !! mt_base_asset_id m, assets db !! mt_quote_asset_id m with
  | Some ba, Some qa =>
      let s := day_stats (mt_symbol m) in
      Some match of_pg (tick_size m), of_pg (lot_size m), of_pg (min_notional m),
                 of_pg (mt_maker_fee_bps m), of_pg (mt_taker_fee_bps m),
                 of_nullable (dy_last_price <$> s), of_nullable (dy_volume_24h <$> s),
                 of_nullable (dy_high_24h <$> s), of_nullable (dy_low_24h <$> s),
                 of_nullable (s ≫= day_change) with
      | Some tick, Some lot, Some min, Some maker, Some taker, Some last, Some volume,
        Some high, Some low, Some change =>
          Ok (mkMarketRow id (mt_symbol m) (mt_base_asset_id m) (mt_quote_asset_id m)
                (at_symbol ba) (at_symbol qa) (mt_status m) tick lot min maker taker last
                volume high low change)
      | _, _, _, _, _, _, _, _, _, _ => Err ColumnDecode
      end
  | _, _ => None
  end.

(** The rows decoded one after the other. *)
Fixpoint decode_all {A} (rows : list (result DbError A)) : result DbError (list A) :=
  match rows with
  | [] => Ok []
  | Ok a :: rows => res_map (cons a) (decode_all rows)
  | Err e :: _ => Err e
  end.

Definition tx_rows {A} (rows : Db J -> list (result DbError A)) : Tx J (list A) := fun db =>
  res_map (fun l => (l, db)) (decode_all (rows db)).

(** [ORDER BY m.symbol], in the C collation. *)
Definition list_markets : Tx J (list (MarketRow D)) :=
  tx_rows (fun db => omap (market_row db) (merge_sort market_before
    (filter (fun im => mt_status im.2 <> "delisted") (map_to_list (markets db))))).

Definition get_market (symbol : string) : Tx J (option (MarketRow D)) := fun db =>
  res_map (fun p => (head p.1, p.2)) (tx_rows (fun db => take 1 (omap (market_row db)
    (filter (fun im => mt_symbol im.2 = symbol) (map_to_list (markets db))))) db).

Definition in_market (db : Db J) (symbol : string) (t : TradeTab) : bool :=
  match markets db !! tt_market_id t with
  | Some m => bool_decide (mt_symbol m = symbol)
  | None => false
  end.

(** [$2::TIMESTAMPTZ IS NULL OR t.created_at >= $2], and [<= $3]. *)
Definition in_window (from to : option Z) (t : TradeTab) : bool :=
  (match from with Some f => f <=? created_at t | None => true end &&
   match to with Some u => created_at t <=? u | None => true end)%Z.

Definition created_before (order : TradeOrder) (a b : TradeTab) : Prop :=
  match order with Desc => created_at b <= created_at a | Asc => created_at a <= created_at b end.
#[export] Instance created_before_dec order a b : Decision (created_before order a b).
Proof. destruct order; unfold created_before; apply _. Defined.

Definition decode_trade (t : TradeTab) : result DbError (TradeRow D) :=
  match of_pg (tt_price t), of_pg (tt_quantity t) with
  | Some price, Some quantity =>
      Ok (mkTradeRow (tt_id t) price quantity (tt_taker_side t) (created_at t))
  | _, _ => Err ColumnDecode
  end.

(** The trades of the window, in order; ties in the order of the table. *)
Definition window_trades (db : Db J) (symbol : string) (from to : option Z) (order : TradeOrder)
    : list TradeTab :=
  merge_sort (created_before order)
    (filter (fun t => in_market db symbol t && in_window from to t = true) (trades db)).

Definition recent_trades (symbol : string) (from to : option Z) (limit : Z) (order : TradeOrder)
    : Tx J (list (TradeRow D)) :=
  tx_rows (fun db => decode_trade <$> take (Z.to_nat limit) (window_trades db symbol from to order)).

Definition decode_kline (tk : Z * KlineRow) : result DbError (KlineOut D) :=
  let '(ts, k) := tk in
  match of_pg (kw_open k), of_pg (kw_high k), of_pg (kw_low k), of_pg (kw_close k),
        of_pg (kw_volume k) with
  | Some open, Some high, Some low, Some close, Some volume =>
      Ok (mkKlineOut ts open high low close volume)
  | _, _, _, _, _ => Err ColumnDecode
  end.

Definition window_klines (symbol interval : string) (from to : Z) : list (Z * KlineRow) :=
  merge_sort opened_before (omap (fun kk : (string * string * Z) * KlineRow =>
    let '(s, i, opened_at, k) := kk in
    if bool_decide (s = symbol /\ i = interval /\ from <= opened_at /\ opened_at <= to)
    then Some (opened_at, k) else None) (map_to_list klines)).

(** [ORDER BY k.opened_at ASC LIMIT $5]; the interval is cast to its enum. *)
Definition repo_klines (symbol interval : string) (from to limit : Z) : Tx J (list (KlineOut D)) :=
  bind (cast kline_interval_labels interval) (fun interval =>
    tx_rows (fun _ => decode_kline <$> take (Z.to_nat limit) (window_klines symbol interval from to))).

(** [LEFT JOIN klines .. GROUP BY m.symbol]: one row per market that is trading. *)
Definition ticker_row (im : Uuid * MarketTab) : result DbError (TickerSnapshot D) :=
  let s := day_stats (mt_symbol im.2) in
  match of_nullable (dy_last_price <$> s), of_nullable (dy_open_24h <$> s),
        of_nullable (dy_high_24h <$> s), of_nullable (dy_low_24h <$> s),
        of_nullable (dy_volume_24h <$> s) with
  | Some last, Some open, Some high, Some low, Some volume =>
      Ok (mkTickerSnapshot (mt_symbol im.2) last open high low volume)
  | _, _, _, _, _ => Err ColumnDecode
  end.

Definition ticker_snapshots : Tx J (list (TickerSnapshot D)) :=
  tx_rows (fun db => ticker_row <$> merge_sort market_before
    (filter (fun im => mt_status im.2 = "trading") (map_to_list (markets db)))).

(** ** Handlers *)

Definition market_row_to_response (row : MarketRow D) : MarketResponse :=
  let text x := decimal_to_string (D := D) <$> x in
  mkMarketResponse (mr_id row) (mr_symbol row) (mr_base_asset_symbol row)
    (mr_quote_asset_symbol row) (mr_status row) (decimal_to_string (mr_tick_size row))
    (decimal_to_string (mr_lot_size row)) (decimal_to_string (mr_min_notional row))
    (decimal_to_string (mr_maker_fee_bps row)) (decimal_to_string (mr_taker_fee_bps row))
    (text (mr_last_price row)) (text (mr_volume_24h row)) (text (mr_high_24h row))
    (text (mr_low_24h row)) (text (mr_price_change_pct row)).

Definition price_levels (levels : list (D * D)) : list (string * string) :=
  (fun pq => (decimal_to_string pq.1, decimal_to_string pq.2)) <$> levels.

(** [OffsetDateTime::from_unix_timestamp], in microseconds. *)
Definition from_unix_timestamp (seconds : Z) : option Z :=
  if ((MIN_DATE_MS <=? seconds * 1000) && (seconds * 1000 <=? MAX_DATE_MS))%Z
  then Some (seconds * 1000000) else None.

Definition optional_unix_timestamp (value : option Z) (field : string) : result ApiError (option Z) :=
  match value with
  | None => Ok None
  | Some timestamp =>
      match from_unix_timestamp timestamp with
      | Some t => Ok (Some t)
      | None => Err (api_error 400 Internal
                  (String.append "Invalid " (String.append field " timestamp")))
      end
  end.

Definition trade_order (value : option string) : result ApiError TradeOrder :=
  let value := default "desc" value in
  if bool_decide (value = "asc") then Ok Asc
  else if bool_decide (value = "desc") then Ok Desc
  else Err (api_error 400 Internal "Invalid order; use asc|desc").

Section Endpoints.
Context {W : Type} {uc : UnicodeCase} {transport : Transport D W} (now_utc : Z).
Abbreviation Handler := (Handler D J W).
Local Open Scope handler_scope.

Definition list_markets_handler : Handler (list MarketResponse) :=
  let* rows := stmt_or internal list_markets in
  hret (market_row_to_response <$> rows).

Definition get_market_handler (symbol : string) : Handler MarketResponse :=
  let* found := stmt_or internal (get_market (to_uppercase symbol)) in
  let* row := hsome (api_error 404 MarketUnknown "Market not found") found in
  hret (market_row_to_response row).

Definition get_orderbook (request_id : Uuid) (symbol : string) (q : OrderbookQuery)
    : Handler OrderbookResponse :=
  let depth := clamp_nat 1 500 (default default_depth (oq_depth q)) in
  let* r := engine (client_snapshot (mkSnapshotReq request_id (to_uppercase symbol) depth)) in
  match r with
  | Err _ => herr (api_error 503 EngineTimeout "Engine unavailable")
  | Ok snap => hret (mkOrderbook (price_levels (bs_bids snap)) (price_levels (bs_asks snap)) (bs_seq snap))
  end.

Definition trade_response (r : TradeRow D) : TradeResponse :=
  mkTradeResponse (tr_id r) (decimal_to_string (tr_price r)) (decimal_to_string (tr_quantity r))
    (tr_taker_side r) (tr_created_at r).

Definition get_trades (symbol : string) (q : TradesQuery) : Handler (list TradeResponse) :=
  let limit := clamp 1 1000 (default default_trade_limit (tq_limit q)) in
  let* from := hresult (optional_unix_timestamp (tq_from q) "from") in
  let* to := hresult (optional_unix_timestamp (tq_to q) "to") in
  let* order := hresult (trade_order (tq_order q)) in
  let* rows := stmt_or internal (recent_trades (to_uppercase symbol) from to limit order) in
  hret (trade_response <$> rows).

(** [ts.unix_timestamp()]: whole seconds, rounded down. *)
Definition kline_response (r : KlineOut D) : KlineResponse :=
  mkKlineResponse (ko_ts r / 1000) (decimal_to_string (ko_open r)) (decimal_to_string (ko_high r))
    (decimal_to_string (ko_low r)) (decimal_to_string (ko_close r)) (decimal_to_string (ko_volume r)).

Definition get_klines (symbol : string) (q : KlinesQuery) : Handler (list KlineResponse) :=
  let interval := default "1m" (kq_interval q) in
  let valid_intervals := ["1m"; "5m"; "15m"; "1h"; "4h"; "1d"] in
  if bool_decide (interval ∉ valid_intervals) then
    herr (api_error 400 Internal "Invalid interval; use 1m|5m|15m|1h|4h|1d")
  else
    let millis x := (fun us => us / 1000) <$> (x ≫= from_unix_timestamp) in
    let from := default 0 (millis (kq_from q)) in
    let to := default now_utc (millis (kq_to q)) in
    let limit := clamp 1 1000 (default default_kline_limit (kq_limit q)) in
    let* rows := stmt_or internal (repo_klines (to_uppercase symbol) interval from to limit) in
    hret (kline_response <$> rows).
End Endpoints.
End Markets.

(** ** Lemmas *)

Lemma NoDup_omap {A B} (f : A -> option B) l :
  (forall x y z, f x = Some z -> f y = Some z -> x = y) -> NoDup l -> NoDup (omap f l).
Proof.
  intros Hf. induction 1 as [|x l Hx Hl IH]; [constructor|]. csimpl.
  destruct (f x) as [z|] eqn:E; [|done]. constructor; [|done].
  intros (y & Hy & Ez)%list_elem_of_omap. by rewrite (Hf _ _ _ E Ez) in Hx.
Qed.

Lemma foldr_max_spec n l :
  (n <= foldr Z.max n l /\ forall x, x ∈ l -> x <= foldr Z.max n l) /\
  (foldr Z.max n l = n \/ foldr Z.max n l ∈ l).
Proof.
  induction l as [|y l [[IH1 IH2] IH3]]; cbn; [split; [split; [lia|set_solver]|by left]|].
  split; [split; [lia|]|].
  - intros x [->|Hx]%elem_of_cons; [lia|]. specialize (IH2 _ Hx). lia.
  - destruct (Z.max_spec y (foldr Z.max n l)) as [[? ->]|[? ->]]; set_solver.
Qed.

Lemma foldr_min_spec n l :
  (foldr Z.min n l <= n /\ forall x, x ∈ l -> foldr Z.min n l <= x) /\
  (foldr Z.min n l = n \/ foldr Z.min n l ∈ l).
Proof.
  induction l as [|y l [[IH1 IH2] IH3]]; cbn; [split; [split; [lia|set_solver]|by left]|].
  split; [split; [lia|]|].
  - intros x [->|Hx]%elem_of_cons; [lia|]. specialize (IH2 _ Hx). lia.
  - destruct (Z.min_spec y (foldr Z.min n l)) as [[? ->]|[? ->]]; set_solver.
Qed.

#[export] Instance opened_before_total : Total opened_before.
Proof. intros x y. unfold opened_before. lia. Qed.
#[export] Instance opened_before_trans : Transitive opened_before.
Proof. intros x y z. unfold opened_before. lia. Qed.
#[export] Instance market_before_total : Total market_before.
Proof. intros x y. apply String.leb_total. Qed.
#[export] Instance market_before_trans : Transitive market_before.
Proof.
  intros x y z H1%Is_true_true H2%Is_true_true. apply Is_true_true.
  change (String.le (mt_symbol x.2) (mt_symbol z.2)). by transitivity (mt_symbol y.2).
Qed.
Lemma created_before_total created_at order : Total (created_before created_at order).
Proof. intros x y. destruct order; cbn; lia. Qed.
Lemma created_before_trans created_at order : Transitive (created_before created_at order).
Proof. intros x y z. destruct order; cbn; lia. Qed.

Lemma decode_all_Ok {A} (rows : list (result DbError A)) l :
  decode_all rows = Ok l -> Forall2 (fun r a => r = Ok a) rows l.
Proof.
  revert l. induction rows as [|[a|e] rows IH]; intros l H; [|cbn in H|done].
  - injection H as <-. constructor.
  - destruct (decode_all rows) as [l'|]; [|done]. injection H as <-. constructor; [done|by apply IH].
Qed.

Lemma sublist_sorted {A} (R : A -> A -> Prop) l l' :
  l `sublist_of` l' -> StronglySorted R l' -> StronglySorted R l.
Proof.
  induction 1 as [|x l l' Hs IH|x l l' Hs IH]; intros H; [done| |];
    apply StronglySorted_inv in H as [H Hx]; [|by apply IH].
  constructor; [by apply IH|]. rewrite Forall_forall in Hx |- *. intros y Hy. apply Hx.
  by eapply elem_of_sublist.
Qed.

(** A prefix of a sorted list holds the first of its elements. *)
Lemma take_sorted {A} (R : A -> A -> Prop) n l :
  StronglySorted R l ->
  StronglySorted R (take n l) /\ forall x y, x ∈ take n l -> y ∈ drop n l -> R x y.
Proof.
  rewrite <- (take_drop n l) at 1. rewrite StronglySorted_app. intros (H & H1 & _). by split.
Qed.

Section Stats.
Context (klines : Klines) (db_now : Z).

(** The one-minute klines of the last 24 hours. *)
Definition in_day (symbol : string) (t : Z) (k : KlineRow) : Prop :=
  klines !! (symbol, "1m", t) = Some k /\ db_now - DAY_MS <= t.

(** What the statistics of a symbol promise. *)
Definition covers_day (symbol : string) (s : option DayStats) : Prop :=
  match s with
  | None => forall t k, ~ in_day symbol t k
  | Some s =>
      (exists t k, in_day symbol t k /\ dy_open_24h s = kw_open k /\
         forall t' k', in_day symbol t' k' -> t <= t') /\
      (exists t k, in_day symbol t k /\ dy_last_price s = kw_close k /\
         forall t' k', in_day symbol t' k' -> t' <= t) /\
      (exists t k, in_day symbol t k /\ dy_high_24h s = kw_high k /\
         forall t' k', in_day symbol t' k' -> kw_high k' <= kw_high k) /\
      (exists t k, in_day symbol t k /\ dy_low_24h s = kw_low k /\
         forall t' k', in_day symbol t' k' -> kw_low k <= kw_low k') /\
      (exists all, NoDup all /\ (forall t k, (t, k) ∈ all <-> in_day symbol t k) /\
         dy_volume_24h s = foldr Z.add 0 (kw_volume <$> all.*2))
  end.

Lemma day_klines_elem symbol t k : (t, k) ∈ day_klines klines db_now symbol <-> in_day symbol t k.
Proof.
  unfold day_klines. rewrite merge_sort_Permutation, list_elem_of_omap. split.
  - intros ([[[s i] o] k'] & Hin & H). case_bool_decide as Hc; [|done].
    destruct Hc as (-> & -> & Ho). injection H as -> ->. by apply elem_of_map_to_list in Hin.
  - intros [Hk Ht]. exists (symbol, "1m", t, k). split; [by apply elem_of_map_to_list|].
    by rewrite bool_decide_eq_true_2.
Qed.

Lemma day_klines_NoDup symbol : NoDup (day_klines klines db_now symbol).
Proof.
  unfold day_klines. rewrite merge_sort_Permutation. apply NoDup_omap; [|apply NoDup_map_to_list].
  intros [[[s i] o] k] [[[s' i'] o'] k'] z H H'.
  case_bool_decide as Hc; [|done]. case_bool_decide as Hc'; [|done].
  destruct Hc as (-> & -> & _), Hc' as (-> & -> & _). by simplify_eq.
Qed.

Lemma day_stats_covers symbol : covers_day symbol (day_stats klines db_now symbol).
Proof.
  pose proof (day_klines_elem symbol) as He. pose proof (day_klines_NoDup symbol) as Hn.
  assert (StronglySorted opened_before (day_klines klines db_now symbol)) as Hs
    by (apply StronglySorted_merge_sort; apply _).
  unfold day_stats, covers_day. destruct (day_klines _ _ _) as [|[t k] rest] eqn:Hl.
  { intros t k Hin. apply He in Hin. by apply elem_of_nil in Hin. }
  apply StronglySorted_inv in Hs as [Hs Ht].
  assert (forall k', k' ∈ (k :: rest.*2) -> exists t', in_day symbol t' k') as Hback.
  { intros k' Hk'. assert (k' ∈ ((t, k) :: rest).*2) as Hin by done.
    apply list_elem_of_fmap in Hin as ([t' ?] & -> & Hin). exists t'. by apply He. }
  assert (forall t' k', in_day symbol t' k' -> k' ∈ (k :: rest.*2)) as Hfor.
  { intros t' k' Hin%He. change (k' ∈ ((t, k) :: rest).*2). apply list_elem_of_fmap. by exists (t', k'). }
  cbn [dy_open_24h dy_high_24h dy_low_24h dy_last_price dy_volume_24h]. split_and!.
  - exists t, k. split_and!; [apply He; left|done|]. intros t' k' [[= -> ->]|Hin]%He%elem_of_cons; [done|].
    rewrite Forall_forall in Ht. by apply (Ht (t', k')).
  - assert (exists t2 k2, (t2, k2) ∈ (t, k) :: rest /\ last (k :: rest.*2) = Some k2 /\
      forall x, x ∈ (t, k) :: rest -> x.1 <= t2) as (t2 & k2 & Hin & -> & Hmax).
    { destruct rest as [|[t2 k2] r _] using rev_ind.
      - exists t, k. split_and!; [left|done|]. intros x [->|[]%elem_of_nil]%elem_of_cons. done.
      - exists t2, k2. split_and!; [set_solver| |].
        + rewrite fmap_app. exact (last_snoc (k2) (k :: r.*2)).
        + rewrite Forall_forall in Ht. specialize (Ht (t2, k2) ltac:(set_solver)).
          intros x [->|Hx]%elem_of_cons; [exact Ht|].
          apply elem_of_app in Hx as [Hx|Hx]; [|apply list_elem_of_singleton in Hx as ->; done].
          by apply (StronglySorted_app_1_elem_of _ _ _ x (t2, k2) Hs Hx), list_elem_of_singleton. }
    exists t2, k2. split_and!; [by apply He|done|]. intros t' k' Hin'%He. apply (Hmax _ Hin').
  - destruct (foldr_max_spec (kw_high k) (kw_high <$> k :: rest.*2)) as [[Hge Hmax] Hatt].
    set (m := foldr Z.max _ _) in *.
    assert (m ∈ kw_high <$> k :: rest.*2) as Hm by (destruct Hatt as [->|?]; [left|done]).
    apply list_elem_of_fmap in Hm as (k' & -> & Hk'). destruct (Hback _ Hk') as [t' Hin].
    exists t', k'. split_and!; [done|done|]. intros t2 k2 H2. apply Hmax.
    apply list_elem_of_fmap_2. by eapply Hfor.
  - destruct (foldr_min_spec (kw_low k) (kw_low <$> k :: rest.*2)) as [[Hge Hmin] Hatt].
    set (m := foldr Z.min _ _) in *.
    assert (m ∈ kw_low <$> k :: rest.*2) as Hm by (destruct Hatt as [->|?]; [left|done]).
    apply list_elem_of_fmap in Hm as (k' & -> & Hk'). destruct (Hback _ Hk') as [t' Hin].
    exists t', k'. split_and!; [done|done|]. intros t2 k2 H2. apply Hmin.
    apply list_elem_of_fmap_2. by eapply Hfor.
  - exists ((t, k) :: rest). by split_and!.
Qed.
End Stats.

(** ** The statistics of the markets *)

(** A nullable column as the response shows it. *)
Definition shown {D} {pg : PgDecimal D} (n : option Z) (x : option D) : Prop :=
  match n with None => x = None | Some n => x = of_pg n /\ is_Some x end.

Lemma of_nullable_shown {D} {pg : PgDecimal D} n (x : option D) : of_nullable n = Some x -> shown n x.
Proof.
  destruct n as [n|]; cbn; [|by intros [= <-]].
  destruct (of_pg n) as [y|]; [|done]. intros [= <-]. by split.
Qed.

Lemma shown_eq {D} {pg : PgDecimal D} n (x y : option D) : shown n x -> shown n y -> x = y.
Proof. destruct n; cbn; [intros [-> _] [-> _]|intros -> ->]; done. Qed.

Section Listing.
Context {D J : Type} {pg : PgDecimal D}.
Context (tick_size lot_size min_notional : MarketTab -> Z) (change_pct : Z -> Z -> Z).
Context (klines : Klines) (db_now : Z).
Implicit Types (db : Db J).

Lemma market_row_Ok db id m row :
  market_row (D := D) tick_size lot_size min_notional change_pct klines db_now db (id, m) = Some (Ok row) ->
  let s := day_stats klines db_now (mt_symbol m) in
  mr_id row = id /\ mr_symbol row = mt_symbol m /\ mr_status row = mt_status m /\
  shown (dy_last_price <$> s) (mr_last_price row) /\ shown (dy_high_24h <$> s) (mr_high_24h row) /\
  shown (dy_low_24h <$> s) (mr_low_24h row) /\ shown (dy_volume_24h <$> s) (mr_volume_24h row).
Proof.
  unfold market_row. cbv zeta. set (s := day_stats _ _ _).
  repeat case_match; try done. intros [= <-]. cbn. split_and!; try done; by apply of_nullable_shown.
Qed.

Lemma tx_rows_inv {A} (rows : Db J -> list (result DbError A)) db l db' :
  tx_rows rows db = Ok (l, db') -> db' = db /\ Forall2 (fun r a => r = Ok a) (rows db) l.
Proof.
  unfold tx_rows. destruct (decode_all (rows db)) eqn:E; [|done]. intros [= -> <-].
  split; [done|by apply decode_all_Ok].
Qed.

Lemma omap_rows {A B} (f : A -> option (result DbError B)) l rows :
  Forall2 (fun r a => r = Ok a) (omap f l) rows ->
  exists l', l' `sublist_of` l /\ Forall2 (fun x a => f x = Some (Ok a)) l' rows /\
    forall x, x ∈ l -> f x <> None -> x ∈ l'.
Proof.
  revert rows. induction l as [|x l IH]; intros rows; csimpl.
  { intros ->%Forall2_nil_inv_l. exists []. split_and!; [done|constructor|]. by intros x ?%elem_of_nil. }
  destruct (f x) as [r|] eqn:E.
  - intros (a & rows' & -> & (l' & Hs & Hf & Hin)%IH & ->)%Forall2_cons_inv_l.
    exists (x :: l'). split_and!; [by constructor|by constructor|].
    intros y [->|Hy]%elem_of_cons ?; [left|right; by apply Hin].
  - intros (l' & Hs & Hf & Hin)%IH. exists l'. split_and!; [by constructor|done|].
    intros y [->|Hy]%elem_of_cons ?; [done|by apply Hin].
Qed.

Lemma ticker_row_Ok im snap :
  ticker_row (D := D) klines db_now im = Ok snap ->
  let s := day_stats klines db_now (ts_symbol snap) in
  ts_symbol snap = mt_symbol im.2 /\
  shown (dy_last_price <$> s) (ts_last_price snap) /\ shown (dy_high_24h <$> s) (ts_high_24h snap) /\
  shown (dy_low_24h <$> s) (ts_low_24h snap) /\ shown (dy_volume_24h <$> s) (ts_volume_24h snap).
Proof.
  unfold ticker_row. cbv zeta. repeat case_match; try done. intros [= <-]. cbn.
  split_and!; try done; by apply of_nullable_shown.
Qed.
End Listing.

(** The statistics of a market are those of its last 24 hours.  The list holds every
    market that is not delisted (its assets exist by foreign key) exactly once and in
    order of the symbols.  For each, unless no one-minute kline of the last 24 hours is
    stored and all figures are null: the high is the greatest, the low the least, the
    volume the sum, the last price the close of the latest of these klines.  The ticker
    the WebSocket publishes shows the same figures, and nothing is written. *)
Theorem tickers_cover_the_last_day {D J W} {pg : PgDecimal D} {dt : DecimalText D}
    tick_size lot_size min_notional change_pct klines db_now (w : World D J W) :
  let '(r, w') := list_markets_handler tick_size lot_size min_notional change_pct klines db_now w in
  w' = w /\
  match r with
  | Err e => e = internal
  | Ok page => exists rows, page = market_row_to_response <$> rows /\
      NoDup (mr_id <$> rows) /\
      StronglySorted (fun a b => String.leb a b = true) (mr_symbol <$> rows) /\
      (forall id m, markets (w_db w) !! id = Some m -> mt_status m <> "delisted" ->
         is_Some (assets (w_db w) !! mt_base_asset_id m) ->
         is_Some (assets (w_db w) !! mt_quote_asset_id m) -> id ∈ mr_id <$> rows) /\
      (forall row, row ∈ rows -> exists m s, markets (w_db w) !! mr_id row = Some m /\
         mt_status m <> "delisted" /\ mr_symbol row = mt_symbol m /\ mr_status row = mt_status m /\
         covers_day klines db_now (mt_symbol m) s /\
         shown (dy_last_price <$> s) (mr_last_price row) /\
         shown (dy_high_24h <$> s) (mr_high_24h row) /\
         shown (dy_low_24h <$> s) (mr_low_24h row) /\
         shown (dy_volume_24h <$> s) (mr_volume_24h row)) /\
      (forall snaps db', ticker_snapshots klines db_now (w_db w) = Ok (snaps, db') ->
         forall row snap, row ∈ rows -> snap ∈ snaps -> mr_symbol row = ts_symbol snap ->
         mr_last_price row = ts_last_price snap /\ mr_high_24h row = ts_high_24h snap /\
         mr_low_24h row = ts_low_24h snap /\ mr_volume_24h row = ts_volume_24h snap)
  end.
Proof.
  unfold list_markets_handler, hbind, stmt_or, hbind, stmt, run_stmt, run_tx.
  destruct (list_markets _ _ _ _ _ _ _) as [[rows db']|e] eqn:E; cbn; [|by destruct w].
  apply tx_rows_inv in E as [-> Hrows]. split; [by destruct w|]. exists rows. split; [done|].
  apply omap_rows in Hrows as (ims & Hsub & Hall & Hin). set (L := merge_sort _ _) in *.
  assert (NoDup L.*1) as Hnd.
  { unfold L. rewrite merge_sort_Permutation. eapply NoDup_fmap_fst; [|].
    - intros i m m' [_ H1%elem_of_map_to_list]%list_elem_of_filter [_ H2%elem_of_map_to_list]%list_elem_of_filter.
      cbn in *. congruence.
    - apply NoDup_filter, NoDup_map_to_list. }
  assert (forall im, im ∈ L <-> markets (w_db w) !! im.1 = Some im.2 /\ mt_status im.2 <> "delisted") as HL.
  { intros [i m]. unfold L. rewrite merge_sort_Permutation, list_elem_of_filter, elem_of_map_to_list.
    cbn. tauto. }
  assert (mr_id <$> rows = ims.*1 /\ mr_symbol <$> rows = mt_symbol <$> ims.*2) as [Hids Hsyms].
  { clear -Hall. induction Hall as [|[i m] row ims rows H _ [IH1 IH2]]; [done|].
    apply market_row_Ok in H as (H1 & H2 & _). csimpl. by rewrite IH1, IH2, H1, H2. }
  assert (forall row, row ∈ rows -> exists m, (mr_id row, m) ∈ L /\
    market_row tick_size lot_size min_notional change_pct klines db_now (w_db w) (mr_id row, m) = Some (Ok row))
    as Hrow.
  { intros row [n Hn]%list_elem_of_lookup. destruct (Forall2_lookup_r _ _ _ _ _ Hall Hn) as ([i m] & Him & H).
    pose proof (market_row_Ok _ _ _ _ _ _ _ _ _ _ H) as [-> _]. exists m. split; [|done].
    eapply elem_of_sublist; [|exact Hsub]. by eapply list_elem_of_lookup_2. }
  split_and!.
  - rewrite Hids. eapply sublist_NoDup; [exact Hnd|by apply fmap_sublist].
  - rewrite Hsyms. apply (sublist_sorted market_before) in Hsub;
      [|apply StronglySorted_merge_sort; apply _].
    clear -Hsub. induction Hsub as [|[i m] l Hl IH Hm]; csimpl; constructor; [done|].
    apply Forall_fmap, Forall_fmap. by eapply Forall_impl.
  - intros id m Hm Hst [ba Hba] [qa Hqa]. rewrite Hids. apply list_elem_of_fmap. exists (id, m).
    split; [done|]. apply Hin; [by apply HL|]. unfold market_row. by rewrite Hba, Hqa.
  - intros row (m & HmL & H)%Hrow. apply HL in HmL as [Hm Hst].
    pose proof (market_row_Ok _ _ _ _ _ _ _ _ _ _ H) as (_ & ? & ? & ? & ? & ? & ?).
    exists m, (day_stats klines db_now (mt_symbol m)). split_and!; try done. apply day_stats_covers.
  - intros snaps db' Ht row snap (m & _ & H)%Hrow Hsnap Heq. apply tx_rows_inv in Ht as [_ Ht].
    apply list_elem_of_lookup in Hsnap as [n Hn].
    destruct (Forall2_lookup_r _ _ _ _ _ Ht Hn) as (r & Hr & ->).
    apply list_elem_of_lookup_2, list_elem_of_fmap in Hr as (im & Hr & _).
    apply eq_sym, ticker_row_Ok in Hr as (_ & ? & ? & ? & ?).
    apply market_row_Ok in H as (_ & Hs & _ & ? & ? & ? & ?). rewrite <- Hs, Heq in *.
    split_and!; by eapply shown_eq.
Qed.

(** A page of trades is the right one.  The trades of the market between [from] and
    [to], both included, are sorted by time, newest first unless [order=asc]; the page is
    the first of them, as many as the limit, cut to 1 to 1000, allows.  So no trade of the
    window that is left out comes before one that is shown.  A query that cannot be read is
    answered with 400, and nothing is written. *)
Theorem trade_pages_are_exact {D J W} {pg : PgDecimal D} {dt : DecimalText D} {uc : UnicodeCase}
    created_at symbol q (w : World D J W) :
  let '(r, w') := get_trades created_at symbol q w in
  w' = w /\
  match r with
  | Err e => e = internal \/ ae_status e = 400%nat
  | Ok page => exists from to order on_page left_out,
      optional_unix_timestamp (tq_from q) "from" = Ok from /\
      optional_unix_timestamp (tq_to q) "to" = Ok to /\ trade_order (tq_order q) = Ok order /\
      (on_page ++ left_out)%list ≡ₚ
        filter (fun t => in_market (w_db w) (to_uppercase symbol) t = true /\
                         in_window created_at from to t = true) (trades (w_db w)) /\
      StronglySorted (created_before created_at order) on_page /\
      (forall t u, t ∈ on_page -> u ∈ left_out -> created_before created_at order t u) /\
      length on_page = Nat.min (Z.to_nat (clamp 1 1000 (default 50 (tq_limit q))))
        (length (on_page ++ left_out)) /\
      Forall2 (fun t e => exists price quantity,
        of_pg (tt_price t) = Some price /\ of_pg (tt_quantity t) = Some quantity /\
        e = mkTradeResponse (tt_id t) (decimal_to_string price) (decimal_to_string quantity)
              (tt_taker_side t) (created_at t)) on_page page
  end.
Proof.
  unfold get_trades, hbind, hresult.
  destruct (optional_unix_timestamp (tq_from q) "from") as [from|e] eqn:Ef.
  2: { split; [done|]. right. unfold optional_unix_timestamp in Ef. repeat case_match; try done. by injection Ef as <-. }
  destruct (optional_unix_timestamp (tq_to q) "to") as [to|e] eqn:Et.
  2: { split; [done|]. right. unfold optional_unix_timestamp in Et. repeat case_match; try done. by injection Et as <-. }
  destruct (trade_order (tq_order q)) as [order|e] eqn:Eo.
  2: { split; [done|]. right. unfold trade_order in Eo. repeat case_match; try done. by injection Eo as <-. }
  unfold stmt_or, hbind, stmt, run_stmt, run_tx.
  destruct (recent_trades _ _ _ _ _ _ _) as [[rows db']|e] eqn:E; cbn; [|split; [by destruct w|by left]].
  apply tx_rows_inv in E as [-> Hrows]. split; [by destruct w|].
  set (all := window_trades _ _ _ _ _ _) in *. set (n := Z.to_nat _) in *.
  assert (StronglySorted (created_before created_at order) all) as Hs.
  { apply StronglySorted_merge_sort; [apply created_before_trans|apply created_before_total]. }
  destruct (take_sorted _ n _ Hs) as [Hpage Hcut].
  exists from, to, order, (take n all), (drop n all). split_and!; try done.
  - rewrite take_drop. unfold all, window_trades. rewrite merge_sort_Permutation.
    apply reflexive_eq. apply list_filter_iff. intros t. apply andb_true_iff.
  - by rewrite take_drop, length_take.
  - clear -Hrows. revert rows Hrows. induction (take n all) as [|t l IH]; intros rows; csimpl.
    { intros ->%Forall2_nil_inv_l. constructor. }
    intros (row & rows' & Ht & Hr & ->)%Forall2_cons_inv_l. csimpl. constructor; [|by apply IH].
    unfold decode_trade in Ht. repeat case_match; try done. injection Ht as <-. by eexists _, _.
Qed.

(** ** The order book *)

Definition ascending {D} {dops : DecimalOps D} {dlaws : DecimalLaws D} (l : list D) : Prop :=
  StronglySorted (fun x y => units x < units y) l.

(** A side of a snapshot: the best levels of the book, each with its total. *)
Definition level_totals {D} {dops : DecimalOps D} {dlaws : DecimalLaws D} (shown : list (D * D))
    (levels : list (D * list (Order D))) : Prop :=
  Forall2 (fun d e => d.1 = e.1 /\ units d.2 = qty e.2) shown levels.

Lemma level_totals_prices {D} {dops : DecimalOps D} {dlaws : DecimalLaws D} l (levels : list (D * list (Order D))) :
  level_totals l levels -> l.*1 = levels.*1.
Proof. induction 1 as [|d e l levels [Hd _] _ IH]; csimpl; [done|]. by rewrite Hd, IH. Qed.

Lemma take_in {A} n (l : list A) x : x ∈ take n l -> x ∈ l.
Proof. rewrite <- (take_drop n l) at 2. intros H. apply elem_of_app. by left. Qed.

Lemma depth_is_book {D} {dops : DecimalOps D} {dlaws : DecimalLaws D} t n (b : OrderBook D) :
  valid_tick t -> book_wf t [] b -> fits t b ->
  let l := state_depth_levels b n in
  level_totals l.1 (take n (rev (bids b))) /\ level_totals l.2 (take n (asks b)) /\
  ascending (rev l.1.*1) /\ ascending l.2.*1 /\
  forall x y, x ∈ l.1.*1 -> y ∈ l.2.*1 -> units x < units y.
Proof.
  intros Ht Hwf Hfit l.
  assert (level_totals l.1 (take n (rev (bids b))) /\ level_totals l.2 (take n (asks b))) as [Hb Ha].
  { split.
    - apply (depth_side_spec t [] b n (rev (bids b)) Buy Ht Hwf Hfit). symmetry. apply Permutation_rev.
    - by apply (depth_side_spec t [] b n (asks b) Sell Ht Hwf Hfit). }
  pose proof (wf_sorted t [] b Buy Hwf) as Sb. pose proof (wf_sorted t [] b Sell Hwf) as Sa.
  pose proof (level_totals_prices _ _ Hb) as Eb. pose proof (level_totals_prices _ _ Ha) as Ea.
  assert (forall (m : btree D (list (Order D))), sorted m -> ascending m.*1) as Hasc.
  { intros m Hm. unfold sorted, keys in Hm. induction Hm as [|x ks Hks IH Hx]; constructor; [done|].
    eapply Forall_impl; [exact Hx|]. intros y. apply klt_units. }
  split_and!; [done|done| | |].
  - rewrite Eb, fmap_take. change ((rev (bids b)).*1) with (map fst (rev (bids b))).
    rewrite map_rev, firstn_rev, rev_involutive. eapply StronglySorted_app_1_r. rewrite firstn_skipn. by apply Hasc.
  - rewrite Ea, fmap_take. by apply take_sorted, Hasc.
  - intros x y. rewrite Eb, Ea, !fmap_take. intros Hx%take_in Hy%take_in.
    apply (wf_uncrossed t [] b Hwf); [|done]. 
    apply list_elem_of_In, (in_map_iff _ _ _) in Hx as ([p l'] & <- & Hx).
    apply in_rev in Hx. apply list_elem_of_fmap. exists (p, l'). split; [done|by apply list_elem_of_In].
Qed.

Lemma fits_new {D} {dops : DecimalOps D} {dlaws : DecimalLaws D} t :
  valid_tick t -> fits t (book_new : OrderBook D).
Proof. intros Ht s. pose proof (valid_tick_pos t Ht). destruct s; cbn; lia. Qed.

(** C36. The order book endpoint shows the book. Over a connection that may lose
    messages, to an engine in a well-formed state whose quantities of the market add up
    within a Decimal on each side, the endpoint answers with the best levels of the
    market's book, as many as asked for within 1 to 500 and the engine's own bound, each
    with the quantity resting there in total; bids fall, asks rise and the best bid is
    below the best ask. A symbol the engine has no book of, known as a market or not, is
    answered with an empty book: the only error is 503, for a lost message, against the
    comment of the handler ([unknown_market_has_an_empty_book]). Neither the database
    nor the engine changes. *)
Theorem orderbook_shows_the_book {D J L} {dops : DecimalOps D} {dlaws : DecimalLaws D}
    {dt : DecimalText D} {uc : UnicodeCase} {wal : CommandLog L (WalCommand D)}
    {ecodec : Codec (SequencedEngineEvent D)} fuel next_uuid now_rfc3339 t rid symbol q
    (w : World D J (EngineLink D L)) :
  let st := lk_engine (w_net w) in
  let b := default book_new (es_books st !! to_uppercase symbol) in
  valid_tick t -> engine_ok t st -> fits t b ->
  let n := Nat.min (clamp_nat 1 500 (default 100%nat (oq_depth q))) (es_snapshot_depth st) in
  let '(r, w') := get_orderbook (transport := engine_transport fuel next_uuid now_rfc3339)
                    rid symbol q w in
  w_db w' = w_db w /\ lk_engine (w_net w') = st /\
  match r with
  | Err e => e = api_error 503 EngineTimeout "Engine unavailable" /\
      (head (lk_fates (w_net w)) = Some LfRequestLost \/ head (lk_fates (w_net w)) = Some LfAnswerLost)
  | Ok page => exists shown_bids shown_asks,
      page = mkOrderbook (price_levels shown_bids) (price_levels shown_asks)
               (el_sequence (es_event_log st)) /\
      level_totals shown_bids (take n (rev (bids b))) /\ level_totals shown_asks (take n (asks b)) /\
      ascending (rev shown_bids.*1) /\ ascending shown_asks.*1 /\
      forall x y, x ∈ shown_bids.*1 -> y ∈ shown_asks.*1 -> units x < units y
  end.
Proof.
  intros st b Ht Hok Hfit n.
  assert (book_wf t [] b) as Hwf.
  { unfold b. destruct (es_books st !! _) as [b'|] eqn:E; cbn; [by apply (Hok _ _ E)|].
    apply book_new_wf. constructor. }
  pose proof (depth_is_book t n b Ht Hwf Hfit) as Hd.
  assert (book_snapshot (to_uppercase symbol) n st =
    mkSnapshot (to_uppercase symbol) (state_depth_levels b n).1 (state_depth_levels b n).2
      (el_sequence (es_event_log st))) as Hsnap.
  { unfold book_snapshot, b. destruct (es_books st !! to_uppercase symbol); [done|].
    unfold state_depth_levels, depth_levels, depth_side. cbn. by destruct n. }
  set (w' := mkWorld (w_db w) (mkLink st (tail (lk_fates (w_net w)))) (w_spawned w) (w_uuids w)).
  set (answer := mkOrderbook (price_levels (bs_bids (book_snapshot (to_uppercase symbol) n st)))
         (price_levels (bs_asks (book_snapshot (to_uppercase symbol) n st)))
         (bs_seq (book_snapshot (to_uppercase symbol) n st))).
  assert (get_orderbook (transport := engine_transport fuel next_uuid now_rfc3339) rid symbol q w =
    (match head (lk_fates (w_net w)) with
     | Some LfRequestLost | Some LfAnswerLost => Err (api_error 503 EngineTimeout "Engine unavailable")
     | _ => Ok answer end, w')) as ->.
  { unfold get_orderbook, hbind, engine, client_snapshot, send, engine_transport, link_send.
    by destruct (head (lk_fates (w_net w))) as [[]|]. }
  split; [done|]. split; [done|]. unfold answer. rewrite Hsnap.
  destruct (head (lk_fates (w_net w))) as [[]|]; eauto 10.
Qed.

(** * The listing of a user's orders

    [list] of [repositories/orders.rs] and [GET /orders] of [handlers/orders.rs].
    [ordered_at] is the column [created_at] of an order, in microseconds; orders of the
    same instant come in the order of the table. *)

Section OrderPages.
Local Open Scope Z_scope.
Local Open Scope list_scope.

Record ListOrdersQuery := mkListOrdersQuery {
  lq_status : option string; lq_market : option string; lq_cursor : option string;
  lq_limit : option Z }.

(** [data] and [nextCursor]. *)
Record OrdersPage := mkOrdersPage { op_data : list OrderResponse; op_next_cursor : option string }.

(** Seconds of an instant, rounded down. *)
Definition unix_seconds (t : Z) : Z := t / 1000000.

Section OrderListing.
Context {D J : Type} {dops : DecimalOps D} {pg : PgDecimal D} {dt : DecimalText D}.
Context {uc : UnicodeCase} (ordered_at : Uuid -> Z).

Definition newest_order (a b : Uuid * OrderTab) : Prop := ordered_at b.1 <= ordered_at a.1.
#[export] Instance newest_order_dec a b : Decision (newest_order a b).
Proof. unfold newest_order. apply _. Defined.

Definition allows (filter_value : option string) (x : string) : bool :=
  match filter_value with Some v => bool_decide (x = v) | None => true end.

(** The join with [markets] and the WHERE clause without the cursor. *)
Definition order_selected (db : Db J) (user_id : Uuid) (status_filter market_filter : option string)
    (io : Uuid * OrderTab) : bool :=
  bool_decide (ot_user_id io.2 = user_id) && allows status_filter (ot_status io.2) &&
  match markets db !! ot_market_id io.2 with
  | Some m => allows market_filter (mt_symbol m)
  | None => false
  end.

Definition older_than (cursor : option Z) (io : Uuid * OrderTab) : bool :=
  match cursor with Some c => ordered_at io.1 <? c | None => true end.

Fixpoint decode_orders (db : Db J) (l : list (Uuid * OrderTab))
    : result DbError (list (ApiOrderRow D)) :=
  match l with
  | [] => Ok []
  | (i, o) :: l =>
      res_bind (decode_row i o (markets db !! ot_market_id o)) (fun row =>
        res_map (cons row) (decode_orders db l))
  end.

Definition orders_list (user_id : Uuid) (status_filter market_filter : option string)
    (cursor : option Z) (limit : Z) : Tx J (list (ApiOrderRow D)) :=
  bind get (fun db db' =>
    res_map (fun rows => (rows, db')) (decode_orders db
      (take (Z.to_nat limit) (filter (fun io => older_than cursor io = true)
        (merge_sort newest_order
          (filter (fun io => order_selected db user_id status_filter market_filter io = true)
            (map_to_list (orders db)))))))).

Definition list_orders (caller request_id : Uuid) (q : ListOrdersQuery) (db : Db J)
    : result ApiError OrdersPage :=
  let cursor := (lq_cursor q ≫= parse_i64) ≫= from_unix_timestamp in
  let limit := clamp 1 200 (default default_limit (lq_limit q)) in
  match (run_stmt (orders_list caller (lq_status q) (lq_market q) cursor limit) db).1 with
  | Err _ => Err (with_request_id request_id internal)
  | Ok rows =>
      Ok (mkOrdersPage ((fun r => order_to_response r []) <$> rows)
            ((fun r => i64_text (unix_seconds (ordered_at (ar_id r)))) <$> last rows))
  end.

(** ** Walking the pages *)

Definition all_orders (db : Db J) (caller : Uuid) (q : ListOrdersQuery) : list (Uuid * OrderTab) :=
  merge_sort newest_order
    (filter (fun io => order_selected db caller (lq_status q) (lq_market q) io = true)
      (map_to_list (orders db))).

(** A client that follows [nextCursor] until it is null, with at most [n] requests. *)
Fixpoint walk_orders (n : nat) (caller request_id : Uuid) (q : ListOrdersQuery) (db : Db J)
    : result ApiError (list OrderResponse) :=
  match n with
  | O => Ok []
  | S n =>
      res_bind (list_orders caller request_id q db) (fun page =>
        match op_next_cursor page with
        | None => Ok (op_data page)
        | Some c => res_map (app (op_data page))
            (walk_orders n caller request_id
              (mkListOrdersQuery (lq_status q) (lq_market q) (Some c) (lq_limit q)) db)
        end)
  end.

Lemma decode_orders_app db l1 l2 rows :
  decode_orders db (l1 ++ l2) = Ok rows ->
  exists r1 r2, rows = (r1 ++ r2)%list /\ decode_orders db l1 = Ok r1 /\ decode_orders db l2 = Ok r2.
Proof.
  revert rows. induction l1 as [|[i o] l1 IH]; intros rows H; [by exists [], rows|].
  cbn in H |- *. destruct (decode_row i o _) as [row|]; [|done]. cbn in H |- *.
  destruct (decode_orders db (l1 ++ l2)) as [rs|]; [|done]. injection H as <-.
  destruct (IH _ eq_refl) as (r1 & r2 & -> & -> & ->). by exists (row :: r1), r2.
Qed.

Lemma decode_row_id i o m (row : ApiOrderRow D) : decode_row i o m = Ok row -> ar_id row = i.
Proof.
  unfold decode_row. intros H. repeat match type of H with
  | res_bind ?x _ = _ => destruct x; [cbn [res_bind] in H|done]
  end. by injection H as <-.
Qed.

Lemma decode_orders_ids db l rows : decode_orders db l = Ok rows -> ar_id <$> rows = l.*1.
Proof.
  revert rows. induction l as [|[i o] l IH]; intros rows H; [by injection H as <-|].
  cbn in H. destruct (decode_row i o _) as [row|] eqn:E; [|done]. cbn in H.
  destruct (decode_orders db l) as [rs|]; [|done]. injection H as <-. cbn.
  by rewrite (decode_row_id _ _ _ _ E), (IH _ eq_refl).
Qed.

#[export] Instance newest_order_total : Total newest_order.
Proof. intros [a x] [b y]. unfold newest_order. cbn. apply Z.le_ge_cases. Qed.
#[export] Instance newest_order_trans : Transitive newest_order.
Proof. intros a b c. unfold newest_order. intros. by etrans. Qed.

(** No two orders of the user fall into the same second. *)
Definition seconds_apart (l : list (Uuid * OrderTab)) : Prop :=
  NoDup ((fun io => unix_seconds (ordered_at io.1)) <$> l).

(** What is older than the second of an entry is what follows it. *)
Lemma older_rest l1 io l2 :
  StronglySorted newest_order (l1 ++ io :: l2) -> seconds_apart (l1 ++ io :: l2) ->
  filter (fun x => older_than (Some (unix_seconds (ordered_at io.1) * 1000000)) x = true)
    (l1 ++ io :: l2) = l2.
Proof.
  unfold newest_order, seconds_apart, unix_seconds. intros Hs Hn.
  assert (forall t, t / 1000000 * 1000000 <= t < t / 1000000 * 1000000 + 1000000) as Hdiv
    by (intros t; Z.to_euclidean_division_equations; lia).
  pose proof (Hdiv (ordered_at io.1)) as Hio1. rewrite fmap_app, fmap_cons in Hn. apply NoDup_app in Hn as (_ & _ & [Hio _]%NoDup_cons).
  apply StronglySorted_app in Hs as (Hx & _ & [Hs Hle]%StronglySorted_inv).
  rewrite filter_app, filter_cons. cbn [older_than].
  rewrite decide_False by (rewrite Z.ltb_lt; lia).
  replace (filter _ l1) with (@nil (Uuid * OrderTab)).
  - apply filter_all. apply Forall_forall. intros y Hy. rewrite Forall_forall in Hle.
    specialize (Hle y Hy). apply Z.ltb_lt.
    assert (ordered_at y.1 / 1000000 <> ordered_at io.1 / 1000000) as Hne.
    { intros E. apply Hio, list_elem_of_fmap. by exists y. }
    assert (ordered_at y.1 / 1000000 <= ordered_at io.1 / 1000000) by (apply Z.div_le_mono; lia).
    pose proof (Hdiv (ordered_at y.1)). lia.
  - symmetry. apply elem_of_nil_inv. intros y [Hb Hin]%list_elem_of_filter.
    specialize (Hx y io Hin ltac:(by left)). apply Z.ltb_lt in Hb. lia.
Qed.

(** The instants a cursor can name. *)
Definition in_calendar (t : Z) : Prop :=
  MIN_DATE_MS * 1000 <= t <= MAX_DATE_MS * 1000.
Lemma cursor_round_trip t : in_calendar t ->
  parse_i64 (i64_text (unix_seconds t)) ≫= from_unix_timestamp =
  Some (unix_seconds t * 1000000).
Proof.
  unfold in_calendar, unix_seconds, MIN_DATE_MS, MAX_DATE_MS. intros Ht.
  assert (-377705116800 <= t / 1000000 <= 253402300799)
    by (Z.to_euclidean_division_equations; lia).
  rewrite parse_i64_text by lia. cbn. unfold from_unix_timestamp, MIN_DATE_MS, MAX_DATE_MS.
  destruct (_ && _) eqn:E; [done|]. lia.
Qed.

Lemma list_orders_eq caller request_id q db left rows :
  filter (fun io => older_than ((lq_cursor q ≫= parse_i64) ≫= from_unix_timestamp) io = true)
    (all_orders db caller q) = left ->
  decode_orders db (take (Z.to_nat (clamp 1 200 (default default_limit (lq_limit q)))) left) =
    Ok rows ->
  list_orders caller request_id q db =
  Ok (mkOrdersPage ((fun r => order_to_response r []) <$> rows)
       ((fun io => i64_text (unix_seconds (ordered_at io.1))) <$>
        last (take (Z.to_nat (clamp 1 200 (default default_limit (lq_limit q)))) left))).
Proof.
  intros Hl Hr. unfold list_orders, orders_list, run_stmt, run_tx, bind, get.
  unfold all_orders in Hl. rewrite Hl, Hr. cbn. do 2 f_equal.
  apply decode_orders_ids in Hr.
  transitivity ((fun i => i64_text (unix_seconds (ordered_at i))) <$> last (ar_id <$> rows)).
  - rewrite fmap_last. by destruct (last rows).
  - rewrite Hr, fmap_last. by destruct (last _).
Qed.

Lemma walk_orders_rest caller request_id db q0 : forall n q seen left rows,
  lq_status q = lq_status q0 -> lq_market q = lq_market q0 -> lq_limit q = lq_limit q0 ->
  all_orders db caller q0 = seen ++ left ->
  filter (fun io => older_than ((lq_cursor q ≫= parse_i64) ≫= from_unix_timestamp) io = true)
    (all_orders db caller q0) = left ->
  seconds_apart (all_orders db caller q0) ->
  Forall (fun io => in_calendar (ordered_at io.1)) (all_orders db caller q0) ->
  decode_orders db left = Ok rows -> (length left < n)%nat ->
  walk_orders n caller request_id q db = Ok ((fun r => order_to_response r []) <$> rows).
Proof.
  set (lim := Z.to_nat (clamp 1 200 (default default_limit (lq_limit q0)))).
  assert (1 <= lim)%nat as Hlim by (subst lim; unfold clamp; repeat case_match; lia).
  induction n as [|n IH]; intros q seen left rows Hst Hma Hli Hall Hleft Hap Hcal Hdec Hn; [lia|].
  assert (all_orders db caller q = all_orders db caller q0) as Hq
    by (unfold all_orders; by rewrite Hst, Hma).
  rewrite <-(take_drop lim left) in Hdec.
  apply decode_orders_app in Hdec as (r1 & r2 & -> & H1 & H2).
  cbn [walk_orders]. rewrite (list_orders_eq _ _ _ _ left r1); rewrite ?Hq, ?Hli; [|done|done].
  fold lim. cbn [res_bind op_next_cursor op_data].
  destruct (last (take lim left)) as [io|] eqn:Elast; cbn.
  - apply last_Some in Elast as [page Epage].
    assert (all_orders db caller q0 = (seen ++ page) ++ io :: drop lim left) as Esplit.
    { rewrite Hall, <-(take_drop lim left) at 1. by rewrite Epage, <-!app_assoc. }
    rewrite (IH _ (seen ++ take lim left) (drop lim left) r2); cbn [lq_status lq_market lq_limit lq_cursor];
      try done; cbn.
    + by rewrite fmap_app.
    + by rewrite <-app_assoc, take_drop.
    + assert (io ∈ all_orders db caller q0) as Hin by (rewrite Esplit; set_solver).
      rewrite Forall_forall in Hcal. rewrite cursor_round_trip by (by apply Hcal).
      rewrite Esplit in Hap |- *. apply older_rest; [|done]. rewrite <-Esplit.
      apply StronglySorted_merge_sort; apply _.
    + rewrite length_drop. assert (length left <> 0)%nat; [|lia].
      intros H0. apply nil_length_inv in H0. rewrite H0 in Epage. by destruct page, lim.
  - apply last_None in Elast. destruct left as [|x left]; [|by destruct lim; [lia|]].
    rewrite drop_nil in H2. injection H2 as <-. by rewrite app_nil_r.
Qed.
End OrderListing.

(** Following [nextCursor] shows every order of the caller that passes the filters, newest
    first and once, if no two of them were created in the same second; one request more
    than there are orders is enough. *)
Theorem orders_of_distinct_seconds_are_listed {D J} {dops : DecimalOps D} {pg : PgDecimal D}
    {dt : DecimalText D} {uc : UnicodeCase} (ordered_at : Uuid -> Z) caller request_id q
    (db : Db J) rows n :
  lq_cursor q = None ->
  decode_orders db (all_orders ordered_at db caller q) = Ok rows ->
  seconds_apart ordered_at (all_orders ordered_at db caller q) ->
  Forall (fun io => in_calendar (ordered_at io.1)) (all_orders ordered_at db caller q) ->
  (length (all_orders ordered_at db caller q) < n)%nat ->
  walk_orders ordered_at n caller request_id q db =
    Ok ((fun r => order_to_response r []) <$> rows).
Proof.
  intros Hc Hdec Hap Hcal Hn.
  eapply (walk_orders_rest ordered_at caller request_id db q n q []); eauto.
  rewrite Hc. cbn. by apply filter_all, Forall_true.
Qed.
End OrderPages.

(** ** Samples *)

#[local] Existing Instances event_codec.
#[local] Instance plain_digits : DecimalText Z := {|
  parse_decimal _ := None; decimal_to_string n := pretty n |}.
#[local] Instance market_wal : CommandLog Wal (WalCommand Z) := wal_command_log (codec := wal_codec).

Definition market_world : World Z (WireEvent Z) (EngineLink Z Wal) :=
  mkWorld (sample_db []) (mkLink sample_engine []) [] 0.
Definition show_book (depth : option nat) :=
  get_orderbook (transport := engine_transport 60 N.of_nat (fun _ => "")) 9%N "btcusdt"
    (mkOrderbookQuery depth) market_world.

Example one_level_each :
  (show_book (Some 0%nat)).1 = Ok (mkOrderbook [("8", "9")] [("10", "2")] 9).
Proof. vm_compute. reflexivity. Qed.

Lemma orderbook_shows_the_book_witness : lk_engine (w_net (show_book (Some 0%nat)).2) = sample_engine.
Proof.
  pose proof (orderbook_shows_the_book 60 N.of_nat (fun _ => "") 1 9%N "btcusdt"
    (mkOrderbookQuery (Some 0%nat)) market_world tick1 (du_ok _ _ _ sample_durable)) as H.
  cbv zeta in H. unfold show_book.
  destruct (get_orderbook (transport := engine_transport 60 N.of_nat (fun _ => "")) 9%N "btcusdt"
    (mkOrderbookQuery (Some 0%nat)) market_world) as [r w'].
  apply H, fits_dec. vm_compute. reflexivity.
Defined.

(** ** Findings *)

(** The comment of the handler promises an error for an unknown market.  Nothing looks the
    market up: there is no market of this symbol, and the answer is an empty book. *)
Example unknown_market_has_an_empty_book :
  (get_orderbook (transport := engine_transport 60 N.of_nat (fun _ => "")) 9%N "NOSUCH"
    (mkOrderbookQuery None) market_world).1 = Ok (mkOrderbook [] [] 9) /\
  map_Forall (fun _ m => mt_symbol m <> "NOSUCH") (Database.markets (w_db market_world)).
Proof. split; [vm_compute; reflexivity|]. apply (bool_decide_eq_true_1 _). vm_compute. reflexivity. Qed.

(** Without [from] the klines start at the epoch: the oldest rows, not the latest. *)
Definition minute (n : Z) : (string * string * Z) * KlineRow :=
  (("BTCUSDT", "1m", n * 60000), mkKlineRow (n * 60000 + 59999) (col 1) (col 2) (col 1) (col 2) 0 true).
Definition ten_minutes : Klines := list_to_map (minute <$> [1; 2; 3; 4; 5; 6; 7; 8; 9; 10]).

Example klines_without_from_are_the_oldest :
  res_map (fmap ke_ts) (get_klines ten_minutes 3600000 "BTCUSDT"
    (mkKlinesQuery None None None (Some 3)) market_world).1 = Ok [60; 120; 180].
Proof. vm_compute. reflexivity. Qed.

(** A time out of range is refused in the query for trades and ignored in the one for klines. *)
Example bad_times_differ :
  (get_trades (fun _ => 0) "BTCUSDT" (mkTradesQuery (Some (2 ^ 62)) None None None) market_world).1 =
    Err (api_error 400 Internal "Invalid from timestamp") /\
  res_map length (get_klines ten_minutes 3600000 "BTCUSDT"
    (mkKlinesQuery None (Some (2 ^ 62)) None None) market_world).1 = Ok 10%nat.
Proof. vm_compute. done. Qed.

(** The cursor of the order listing is cut to whole seconds: of three orders placed within
    one second a client that asks for one at a time sees only the newest. *)
Definition quick_order : OrderTab :=
  mkOrderTab alice btcusdt None "buy" "limit" "open" (Some (col 1)) None (Some (col 1)) None None 0
    None.
Definition three_quick_orders : Db (WireEvent Z) :=
  with_orders (fun _ => {[ 1%N := quick_order; 2%N := quick_order; 3%N := quick_order ]})
    (sample_db []).
Definition quick_times (i : Uuid) : Z := 1700000000000000 + 1000 * Z.of_N i.

#[local] Instance plain_case : UnicodeCase := {| to_lowercase s := s; to_uppercase s := s |}.

Example orders_of_one_second_are_lost :
  let seen limit :=
    res_map (fmap or_id) (walk_orders quick_times 9 alice 7
      (mkListOrdersQuery None None None (Some limit)) three_quick_orders) in
  seen 1 = Ok [3%N] /\ seen 200 = Ok [3%N; 2%N; 1%N].
Proof. vm_compute. done. Qed.
