(* ===== verification/Router.v ===== *)
(** * Router: the front door of the API

    [middleware.rs], [security_headers.rs], [router.rs] and [handlers/auth.rs] of
    [services/api/src].  [build_router] layers the request id and the security headers
    around the routing table, and the rate limiter and the signature check around the
    routes under [/api/v1]; the handlers behind the table are an argument, so that what is
    proved of the door holds whatever stands behind it.  Then the three endpoints of
    [handlers/auth.rs] on the service of Auth.v, and the probes of [handlers/health.rs].

    What axum documents is written out: a route matches segment by segment, a nested router
    sees the path without its prefix, a known path with an unknown method is answered 405
    with an empty body (its [Allow] header is left out), [GET] routes serve [HEAD] without
    the body, and a fallback answers the rest.  Spans, logs and metrics are left out. *)
From Stdlib Require Import Ascii.
From S2P Require Import Prelude Proto EngineClient.
From S2P Require Import ApiBase Reserves AuthBase Auth AuthPg AuthInv AuthTokens.
From S2P Require Import Http RateLimit ApiKeys Hmac ReservesProps AuthProps RateProps.
From S2P Require Import HmacProps.

#[local] Open Scope string_scope.

(** ** The outer layers *)

Definition X_REQUEST_ID : string := "x-request-id".

(** [HeaderValue::from_str]: visible ASCII and tabs. *)
Definition visible (c : N) : bool := ((32 <=? c) && (c <? 127) || (c =? 9))%N.
Definition header_value (s : string) : option string :=
  if forallb visible (codes s) then Some s else None.

(** [request.extensions_mut().insert(RequestContext { request_id })]. *)
Definition with_request_context (id : Uuid) (r : Request) : Request :=
  mkRequest (rq_method r) (rq_path r) (rq_path_and_query r) (rq_headers r) (rq_body r)
    (Some id) (rq_hmac r).

Definition SECURITY_HEADERS : list (string * string) :=
  [("strict-transport-security", "max-age=63072000; includeSubDomains; preload");
   ("content-security-policy",
    "default-src 'self'; img-src 'self' data: https:; script-src 'self'; connect-src 'self'; frame-ancestors 'none'; base-uri 'self'; form-action 'self'");
   ("x-content-type-options", "nosniff");
   ("referrer-policy", "strict-origin-when-cross-origin");
   ("permissions-policy", "camera=(), microphone=(), geolocation=()");
   ("cross-origin-opener-policy", "same-origin");
   ("cross-origin-resource-policy", "same-origin");
   ("x-frame-options", "DENY")].

Section Layers.
Context {R S B : Type} {ut : UuidText} {us : UuidSource}.
Abbreviation Gateway := (Gateway R S).

(** What axum passes to a layer as [next]. *)
Definition Serve : Type := Request -> Gateway -> Response B * Gateway.

Definition request_id (next : Serve) : Serve := fun request g =>
  let '(id, g) :=
    match header_str request X_REQUEST_ID ≫= parse_uuid with
    | Some id => (id, g)
    | None => (new_v4 (gw_uuids g),
               mkGateway (gw_redis g) (Datatypes.S (gw_uuids g)) (gw_inner g))
    end in
  let '(response, g) := next (with_request_context id request) g in
  match header_value (show_uuid id) with
  | Some v => (insert_header X_REQUEST_ID v response, g)
  | None => (response, g)
  end.

Definition security_headers (next : Serve) : Serve := fun request g =>
  let '(response, g) := next request g in
  (fold_left (fun r nv => insert_header nv.1 nv.2 r) SECURITY_HEADERS response, g).

(** Behind [request_id] the context is always there. *)
Definition not_found (request : Request) : Response B :=
  match rq_context request with
  | Some id => into_response (with_request_id id (api_error 404 NotFound "Route not found"))
  | None => into_response internal
  end.
End Layers.

(** ** The routing table *)

Inductive Endpoint :=
  EpHealth | EpReady | EpWs | EpOpenapi
| EpSignup | EpLogin | EpRefresh | EpSetupTotp | EpVerifyTotp | EpDisableTotp
| EpListMarkets | EpGetMarket | EpGetOrderbook | EpGetTrades | EpGetKlines
| EpPlaceOrder | EpCancelAllOrders | EpListOrders | EpGetOrder | EpCancelOrder
| EpGetProfile | EpGetBalances | EpGetHistory | EpGetPnl
| EpCreateApiKey | EpListApiKeys | EpRevokeApiKey | EpFaucet
| EpLatestProof | EpMyProof
| EpHaltMarket | EpResumeMarket | EpCancelAllInMarket | EpFreezeUser | EpEngineState.

#[export] Instance endpoint_eq_dec : EqDecision Endpoint.
Proof. solve_decision. Defined.

Record Route := mkRoute { route_method : string; route_path : string; route_endpoint : Endpoint }.

Definition auth_routes : list Route :=
  [mkRoute "POST" "/auth/signup" EpSignup; mkRoute "POST" "/auth/login" EpLogin;
   mkRoute "POST" "/auth/refresh" EpRefresh; mkRoute "POST" "/auth/2fa/setup" EpSetupTotp;
   mkRoute "POST" "/auth/2fa/verify" EpVerifyTotp;
   mkRoute "POST" "/auth/2fa/disable" EpDisableTotp].

Definition market_routes : list Route :=
  [mkRoute "GET" "/markets" EpListMarkets; mkRoute "GET" "/markets/{symbol}" EpGetMarket;
   mkRoute "GET" "/markets/{symbol}/orderbook" EpGetOrderbook;
   mkRoute "GET" "/markets/{symbol}/trades" EpGetTrades;
   mkRoute "GET" "/markets/{symbol}/klines" EpGetKlines].

Definition order_routes : list Route :=
  [mkRoute "POST" "/orders" EpPlaceOrder; mkRoute "DELETE" "/orders" EpCancelAllOrders;
   mkRoute "GET" "/orders" EpListOrders; mkRoute "GET" "/orders/{id}" EpGetOrder;
   mkRoute "DELETE" "/orders/{id}" EpCancelOrder].

Definition account_routes : list Route :=
  [mkRoute "GET" "/account" EpGetProfile; mkRoute "GET" "/account/balances" EpGetBalances;
   mkRoute "GET" "/account/history" EpGetHistory; mkRoute "GET" "/account/pnl" EpGetPnl;
   mkRoute "POST" "/account/api-keys" EpCreateApiKey;
   mkRoute "GET" "/account/api-keys" EpListApiKeys;
   mkRoute "DELETE" "/account/api-keys/{id}" EpRevokeApiKey;
   mkRoute "POST" "/wallet/faucet" EpFaucet].

Definition proof_routes : list Route :=
  [mkRoute "GET" "/proof-of-reserves/latest" EpLatestProof;
   mkRoute "GET" "/proof-of-reserves/me" EpMyProof].

Definition admin_routes : list Route :=
  [mkRoute "POST" "/admin/markets/{symbol}/halt" EpHaltMarket;
   mkRoute "POST" "/admin/markets/{symbol}/resume" EpResumeMarket;
   mkRoute "POST" "/admin/markets/{symbol}/cancel-all" EpCancelAllInMarket;
   mkRoute "POST" "/admin/users/{id}/freeze" EpFreezeUser;
   mkRoute "GET" "/admin/engine/state" EpEngineState].

Definition API_V1 : string := "/api/v1".

(** [nest]: the routes with their prefix. *)
Definition api_v1_routes : list Route :=
  (fun r => mkRoute (route_method r) (API_V1 ++ route_path r) (route_endpoint r)) <$>
  (auth_routes ++ market_routes ++ order_routes ++ account_routes ++ proof_routes ++
   admin_routes)%list.

Definition root_routes : list Route :=
  [mkRoute "GET" "/health" EpHealth; mkRoute "GET" "/ready" EpReady; mkRoute "GET" "/ws" EpWs;
   mkRoute "GET" "/openapi.json" EpOpenapi].

(** A segment in braces stands for any segment that is not empty. *)
Definition segment_matches (pattern segment : list N) : bool :=
  match pattern with
  | 123%N :: _ => negb (bool_decide (segment = []))
  | _ => bool_decide (pattern = segment)
  end.

Fixpoint segments_match (pattern path : list (list N)) : bool :=
  match pattern, path with
  | [], [] => true
  | p :: pattern, s :: path => segment_matches p s && segments_match pattern path
  | _, _ => false
  end.

Definition segments (path : string) : list (list N) := split_all 47 (codes path).

Definition path_matches (pattern path : string) : bool :=
  segments_match (segments pattern) (segments path).

Definition routes_at (routes : list Route) (path : string) : list Route :=
  filter (fun r => path_matches (route_path r) path = true) routes.

Inductive Resolved := AtRoot (rs : list Route) | UnderApi (rs : list Route) | Unmatched.

Definition resolve (path : string) : Resolved :=
  match routes_at root_routes path with
  | [] => match routes_at api_v1_routes path with [] => Unmatched | rs => UnderApi rs end
  | rs => AtRoot rs
  end.

Definition endpoint_by (method : string) (rs : list Route) : option Endpoint :=
  route_endpoint <$> head (filter (fun r => route_method r = method) rs).

(** [HEAD] falls to the [GET] route. *)
Definition endpoint_at (method : string) (rs : list Route) : option Endpoint :=
  match endpoint_by method rs with
  | Some e => Some e
  | None => if bool_decide (method = "HEAD") then endpoint_by "GET" rs else None
  end.

(** The path the nested router sees. *)
Definition strip_api_v1 (r : Request) : Request :=
  mkRequest (rq_method r) (default (rq_path r) (strip_prefix API_V1 (rq_path r)))
    ((fun pq => default pq (strip_prefix API_V1 pq)) <$> rq_path_and_query r)
    (rq_headers r) (rq_body r) (rq_context r) (rq_hmac r).

(** ** The router *)

Section Router.
Context {R S B D : Type} {ops : RedisOps R} {us : UuidSource} {tops : TextOps D}.
Context {jwt : JwtDecode} {hm : HmacOps} {ut : UuidText} {pc : Pgcrypto} {hk : HasKeys S}.
Context (config : TokenConfig) (pgcrypto_key : string).
(** The readings of the clock by the limiter and by the signature check. *)
Context (limit_time sign_time : option Z).
Abbreviation Gateway := (Gateway R S).

(** A body is [None] when it is empty. *)
Context (handlers : Endpoint -> Request -> Gateway -> Response (option B) * Gateway).

Definition method_not_allowed : Response (option B) := mkResponse 405 ∅ (inr None).

Definition method_router (rs : list Route) : Serve := fun request g =>
  match endpoint_at (rq_method request) rs with
  | None => (method_not_allowed, g)
  | Some e =>
      let '(response, g) := handlers e request g in
      if bool_decide (rq_method request = "HEAD")
      then (mkResponse (rs_status response) (rs_headers response) (inr None), g)
      else (response, g)
  end.

Definition api_v1 (rs : list Route) : Serve := fun request =>
  rate_limit_middleware (D := D) config
    (hmac_auth_middleware pgcrypto_key (method_router rs) sign_time) limit_time
    (strip_api_v1 request).

Definition routes : Serve := fun request g =>
  match resolve (rq_path request) with
  | AtRoot rs => method_router rs request g
  | UnderApi rs => api_v1 rs request g
  | Unmatched => (not_found request, g)
  end.

Definition build_router : Serve := request_id (security_headers routes).
End Router.

(** ** Health probes: [handlers/health.rs] and [readiness.rs] *)

Inductive ReadinessError := NotReadyDatabase | NotReadyEngine.

Definition health : string := "ok".

Section Probes.
Context {D J W : Type} {transport : Transport D W}.
Abbreviation Handler := (Handler D J W).
Local Open Scope handler_scope.

(** [PgEngineReadiness::check]; [select_one] says whether the database answers. *)
Definition readiness_check (select_one : bool) (request_id : Uuid)
    : Handler (result ReadinessError ()) :=
  if negb select_one then hret (Err NotReadyDatabase) else
  let* pong := engine (EngineClient.ping request_id) in
  hret (match pong with Ok _ => Ok () | Err _ => Err NotReadyEngine end).

Definition ready (select_one : bool) (request_id : Uuid) : Handler string :=
  let* checked := readiness_check select_one request_id in
  match checked with
  | Ok _ => hret "ready"
  | Err _ => herr (with_request_id request_id
               (api_error 503 EngineTimeout "Service dependencies are not ready"))
  end.

(** The probe succeeds exactly when the database answers and the engine answers the ping
    with its id; it leaves the tables, the tasks and the identifiers alone. *)
Lemma ready_spec select_one request_id (w : World D J W) :
  let '(r, w') := ready select_one request_id w in
  w_db w' = w_db w /\ w_spawned w' = w_spawned w /\ w_uuids w' = w_uuids w /\
  (r = Ok "ready" <-> select_one = true /\
     (send (ReqPing (mkPing request_id)) request_id (w_net w)).1 = Ok (RespPong request_id)) /\
  (forall e, r = Err e -> ae_status e = 503%nat).
Proof.
  unfold ready, readiness_check, hbind, engine, EngineClient.ping.
  destruct select_one; cbn; [|by split_and!; try (intros; simplify_eq); split; [|intros []]].
  destruct (send _ request_id (w_net w)) as [[resp|e] n]; cbn; [destruct resp; cbn|];
    repeat (case_bool_decide; cbn); split_and!; try done;
    try (intros ? [= <-]; done); split; naive_solver.
Qed.
End Probes.

(** ** The endpoints of [handlers/auth.rs] *)

Record RefreshInput := mkRefreshInput { ri_refresh_token : string }.

(** [AuthTokensResponse] and [MfaRequiredResponse]. *)
Inductive AuthBody :=
| AuthTokensResponse (access_token refresh_token token_type : string) (expires_in : Z)
| MfaRequiredResponse (mfa_required : bool) (mfa_token : string).

Definition json_error (request_id : Uuid) : ApiError :=
  with_request_id request_id (api_error 400 Internal "Invalid JSON body").
Definition invalid_email (request_id : Uuid) : ApiError :=
  with_request_id request_id (api_error 400 InvalidEmail "Invalid email").
Definition token_invalid (request_id : Uuid) : ApiError :=
  with_request_id request_id (api_error 401 TokenInvalid "Refresh token is invalid").
Definition weak_password (request_id : Uuid) : ApiError :=
  with_request_id request_id (api_error 400 WeakPassword "Password does not meet policy").

(** The details of a weak password are left out. *)
Definition map_auth_error (e : AuthError) (request_id : Uuid) : ApiError :=
  match e with
  | AeInvalidEmail => invalid_email request_id
  | AeWeakPassword _ => weak_password request_id
  | AeEmailTaken => with_request_id request_id (api_error 409 EmailTaken "Email is already registered")
  | AeInvalidCredentials =>
      with_request_id request_id (api_error 401 InvalidCredentials "Invalid credentials")
  | AeTooManyAttempts =>
      with_request_id request_id (api_error 429 RateLimited "Too many login attempts")
  | AeTokenExpired => with_request_id request_id (api_error 401 TokenExpired "Refresh token expired")
  | AeTokenInvalid => token_invalid request_id
  | AeInternal => with_request_id request_id internal
  end.

(** The first address of the header, trimmed. *)
Definition client_ip_key (r : Request) : string :=
  match header_str r "x-forwarded-for" with
  | Some v =>
      let first := trim (of_codes (split_at 44 (codes v)).1) in
      if bool_decide (first = "") then "unknown" else first
  | None => "unknown"
  end.

Section AuthEndpoints.
Context {S : Type} {repo : AuthRepository S} {ac : AuthCrates} {hops : HashOps}.
Context {uc : UnicodeChars} {us : UuidSource} {ck : ClockSource}.
Context (token_config : TokenConfig).

(** [input.validate()] on a [SignupInput]. *)
Definition signup_valid (input : SignupInput) : bool :=
  is_valid_email (si_email input) &&
  bool_decide (password_policy_failures (si_password input) = []).

Definition validate_signup (input : SignupInput) (request_id : Uuid) : result ApiError () :=
  if signup_valid input then Ok ()
  else if negb (bool_decide (password_policy_failures (si_password input) = []))
  then Err (weak_password request_id)
  else Err (invalid_email request_id).

(** The status and body of an answer, with [map_err(map_auth_error)]. *)
Definition answered {A} (request_id : Uuid) (ok : A -> nat * AuthBody)
    (rs : result AuthError A * Service S) : result ApiError (nat * AuthBody) * Service S :=
  match rs with
  | (Ok a, s) => (Ok (ok a), s)
  | (Err e, s) => (Err (map_auth_error e request_id), s)
  end.

Definition tokens_response (p : TokenPair) : AuthBody :=
  AuthTokensResponse (tp_access_token p) (tp_refresh_token p) "Bearer" (tp_expires_in p).

(** [payload] is [None] where axum's [Json] extractor refuses the body. *)
Definition signup_endpoint (request_id : Uuid) (payload : option SignupInput) (s : Service S)
    : result ApiError (nat * AuthBody) * Service S :=
  match payload with
  | None => (Err (json_error request_id), s)
  | Some input =>
      match validate_signup input request_id with
      | Err e => (Err e, s)
      | Ok _ => answered request_id (fun p => (201%nat, tokens_response p))
                  (signup token_config input s)
      end
  end.

(** The user agent is only logged. *)
Definition login_endpoint (request_id : Uuid) (request : Request) (payload : option LoginInput)
    (s : Service S) : result ApiError (nat * AuthBody) * Service S :=
  match payload with
  | None => (Err (json_error request_id), s)
  | Some input =>
      if negb (is_valid_email (li_email input)) then (Err (invalid_email request_id), s)
      else answered request_id
             (fun o => (200%nat, match o with
                                 | Tokens p => tokens_response p
                                 | MfaNeeded t => MfaRequiredResponse true t
                                 end))
             (login token_config input (client_ip_key request) s)
  end.

Definition refresh_endpoint (request_id : Uuid) (payload : option RefreshInput) (s : Service S)
    : result ApiError (nat * AuthBody) * Service S :=
  match payload with
  | None => (Err (json_error request_id), s)
  | Some input =>
      if (length (chars (ri_refresh_token input)) <? 32)%nat
      then (Err (token_invalid request_id), s)
      else answered request_id (fun p => (200%nat, tokens_response p))
             (refresh token_config (ri_refresh_token input) s)
  end.
End AuthEndpoints.

(** * The table *)

Definition is_parameter (segment : list N) : bool :=
  match segment with 123%N :: _ => true | _ => false end.

(** Some path matches both patterns. *)
Fixpoint overlap (p q : list (list N)) : bool :=
  match p, q with
  | [], [] => true
  | a :: p, b :: q => (is_parameter a || is_parameter b || bool_decide (a = b)) && overlap p q
  | _, _ => false
  end.

Lemma segment_literal p s :
  is_parameter p = false -> segment_matches p s = true -> p = s.
Proof.
  unfold is_parameter, segment_matches. intros Hp Hm.
  repeat match type of Hp with context [match ?x with _ => _ end] => destruct x end;
    try done; by apply bool_decide_eq_true in Hm.
Qed.

Lemma matches_overlap p : forall q x,
  segments_match p x = true -> segments_match q x = true -> overlap p q = true.
Proof.
  induction p as [|a p IH]; intros [|b q] [|s x]; cbn; try done.
  intros [Ha Hp]%andb_prop [Hb Hq]%andb_prop. rewrite (IH q x Hp Hq), andb_true_r.
  destruct (is_parameter a) eqn:Ea; [done|]. destruct (is_parameter b) eqn:Eb; [done|].
  cbn. apply bool_decide_eq_true.
  rewrite (segment_literal _ _ Ea Ha). by rewrite (segment_literal _ _ Eb Hb).
Qed.

Definition all_routes : list Route := (root_routes ++ api_v1_routes)%list.

Definition apart (r s : Route) : bool :=
  negb (overlap (segments (route_path r)) (segments (route_path s))) ||
  bool_decide (route_path r = route_path s) &&
  (bool_decide (route_endpoint r = route_endpoint s) ||
   negb (bool_decide (route_method r = route_method s))).

Lemma table_apart : forallb (fun r => forallb (apart r) all_routes) all_routes = true.
Proof. vm_compute. reflexivity. Qed.

(** No path is claimed by two routes but for different methods. *)
Lemma routes_are_unambiguous r s path :
  r ∈ all_routes -> s ∈ all_routes ->
  path_matches (route_path r) path = true -> path_matches (route_path s) path = true ->
  route_path r = route_path s /\
  (route_method r = route_method s -> route_endpoint r = route_endpoint s).
Proof.
  intros Hr Hs Hpr Hps.
  assert (apart r s = true) as Ha.
  { pose proof table_apart as Ht. rewrite forallb_forall in Ht.
    specialize (Ht r (proj1 (list_elem_of_In _ _) Hr)). rewrite forallb_forall in Ht.
    apply Ht. by apply list_elem_of_In. }
  unfold apart in Ha. rewrite (matches_overlap _ _ _ Hpr Hps) in Ha. cbn in Ha.
  apply andb_prop in Ha as [He Hm]. apply bool_decide_eq_true in He. split; [done|].
  intros Heq. apply orb_true_iff in Hm as [Hm|Hm]; [by apply bool_decide_eq_true in Hm|].
  by rewrite bool_decide_eq_true_2 in Hm.
Qed.

(** * What passes the gates *)

Class UuidTextLaws {ut : UuidText} := {
  show_uuid_visible u : header_value (show_uuid u) = Some (show_uuid u) }.

(** The keys inside the state are a field of it. *)
Class HasKeysLaws (S : Type) {hk : HasKeys S} := {
  key_store_own (s : S) : set_key_store (key_store s) s = s;
  key_store_set k (s : S) : key_store (set_key_store k s) = k;
  set_key_store_twice k k' (s : S) : set_key_store k (set_key_store k' s) = set_key_store k s;
}.

#[export] Instance only_keys_laws : HasKeysLaws KeyStore.
Proof. by split. Qed.

(** Some statements on the keys have run, none of which writes. *)
Definition same_inner {S} {hk : HasKeys S} (s s' : S) : Prop :=
  exists n, s' = set_key_store (Nat.iter n next_statement (key_store s)) s.

Section Gates.
Context {R S : Type} {ops : RedisOps R} {hm : HmacOps} {ut : UuidText} {pc : Pgcrypto}.
Context {hk : HasKeys S} {hkl : HasKeysLaws S}.
Context (pgcrypto_key : string).
Abbreviation Gateway := (Gateway R S).

Lemma same_inner_refl (s : S) : same_inner s s.
Proof. exists 0%nat. cbn. by rewrite key_store_own. Qed.

Lemma same_inner_trans (s1 s2 s3 : S) :
  same_inner s1 s2 -> same_inner s2 s3 -> same_inner s1 s3.
Proof.
  intros [n ->] [m ->]. exists (m + n)%nat.
  by rewrite key_store_set, set_key_store_twice, Nat.iter_add.
Qed.

Lemma iter_statement_keys n s : ks_keys (Nat.iter n next_statement s) = ks_keys s.
Proof. by induction n as [|n IH]. Qed.

Lemma same_inner_keys (s s' : S) :
  same_inner s s' -> ks_keys (key_store s') = ks_keys (key_store s).
Proof. intros [n ->]. by rewrite key_store_set, iter_statement_keys. Qed.

(** A step of [verify] whose result satisfies [Q]; its refusals carry the request id. *)
Definition tame {A} (ctx : Uuid) (Q : A -> Prop) (m : Step A) : Prop :=
  forall (g : Gateway) r g', m g = (r, g') ->
    same_inner (gw_inner g) (gw_inner g') /\
    match r with
    | Ok a => Q a
    | Err e => ae_request_id e = Some ctx /\ (ae_status e = 401 \/ ae_status e = 500)%nat
    end.

Lemma tame_ret {A} ctx (Q : A -> Prop) a : Q a -> tame ctx Q (sret a).
Proof. intros H g r g' [= <- <-]. split; [apply same_inner_refl|done]. Qed.

Lemma tame_bind {A C} ctx P Q (m : Step A) (k : A -> Step C) :
  tame ctx P m -> (forall a, P a -> tame ctx Q (k a)) -> tame ctx Q (sbind m k).
Proof.
  intros Hm Hk g r g' H. unfold sbind in H. destruct (m g) as [[a|e] g1] eqn:Em.
  - destruct (Hm _ _ _ Em) as [H1 Ha]. destruct (Hk _ Ha _ _ _ H) as [H2 Hr].
    split; [by eapply same_inner_trans|done].
  - injection H as <- <-. by apply (Hm _ _ _ Em).
Qed.

Lemma tame_some {A} ctx e (x : option A) :
  ae_request_id e = Some ctx -> (ae_status e = 401 \/ ae_status e = 500)%nat ->
  tame ctx (fun _ => True) (ssome e x).
Proof.
  intros H1 H2 g r g' H. destruct x; cbn in H; injection H as <- <-;
    (split; [apply same_inner_refl|done]).
Qed.

Lemma tame_guard ctx e b :
  ae_request_id e = Some ctx -> (ae_status e = 401 \/ ae_status e = 500)%nat ->
  tame ctx (fun _ => True) (sguard e b).
Proof.
  intros H1 H2 g r g' H. destruct b; cbn in H; injection H as <- <-;
    (split; [apply same_inner_refl|done]).
Qed.

(** A statement that writes nothing. *)
Definition reads_only {A} (m : KeyOp A) : Prop :=
  forall s r s', m s = (r, s') -> s' = next_statement s.

Lemma find_api_key_reads i : reads_only (find_api_key i).
Proof. intros s r s'. unfold find_api_key, statement. by destruct (ks_faults s) as [|[]]; intros [= _ <-]. Qed.

Lemma decrypt_reads i key : reads_only (decrypt_api_key_secret i key).
Proof.
  intros s r s'. unfold decrypt_api_key_secret, statement.
  destruct (active_key (next_statement s) i) as [k|]; [destruct (pgp_sym_decrypt _ _)|];
    by destruct (ks_faults s) as [|[]]; intros [= _ <-].
Qed.

Lemma tame_keys {A} ctx (m : KeyOp A) : reads_only m -> tame ctx (fun _ => True) (on_keys ctx m).
Proof.
  intros Hm g r g' H. unfold on_keys in H. destruct (m (key_store (gw_inner g))) as [r1 s1] eqn:E.
  apply Hm in E as ->.
  destruct r1; injection H as <- <-; (split; [by exists 1%nat|]); [done|by split; [|right]].
Qed.

Lemma tame_replay ctx key : tame ctx (fun _ => True) (with_context ctx (check_replay key)).
Proof.
  intros g r g' H. unfold with_context, check_replay in H.
  destruct (gw_redis g) as [conn|]; [|injection H as <- <-; split; [apply same_inner_refl|done]].
  destruct (send_command _ conn) as [[[]|] c];
    injection H as <- <-; (split; [apply same_inner_refl|]); [done|by split; [|left]..].
Qed.

Lemma verify_tame since_epoch ctx request :
  tame ctx (fun rq => exists c, rq = with_hmac c request)
    (verify pgcrypto_key since_epoch ctx request).
Proof.
  unfold verify.
  repeat (cbv zeta; eapply tame_bind;
    [first [apply tame_some; cbn; by auto|apply tame_guard; cbn; by auto
           |apply tame_keys; first [apply find_api_key_reads|apply decrypt_reads]
           |apply tame_replay]|intros ? _]).
  apply tame_ret. by eexists.
Qed.
End Gates.

Section Signed.
Context {R S : Type} {ops : RedisOps R} {hm : HmacOps} {ut : UuidText} {pc : Pgcrypto}.
Context {hk : HasKeys S} {hkl : HasKeysLaws S}.
Context (pgcrypto_key : string).
Abbreviation Gateway := (Gateway R S).

Lemma active_key_same s s' i : ks_keys s' = ks_keys s -> active_key s' i = active_key s i.
Proof. unfold active_key. by intros ->. Qed.

Lemma find_key_ok ctx i (g : Gateway) x g' :
  on_keys ctx (find_api_key i) g = (Ok x, g') ->
  x = api_key_row i <$> active_key (key_store (gw_inner g)) i /\
  ks_keys (key_store (gw_inner g')) = ks_keys (key_store (gw_inner g)).
Proof.
  intros H. unfold on_keys, find_api_key, statement in H.
  destruct (ks_faults (key_store (gw_inner g))) as [|[] f]; [|done|];
    injection H as <- <-; cbn; rewrite key_store_set; by split.
Qed.

Lemma decrypt_key_ok ctx i (g : Gateway) secret g' :
  on_keys ctx (decrypt_api_key_secret i pgcrypto_key) g = (Ok (Some secret), g') ->
  exists k, active_key (key_store (gw_inner g)) i = Some k /\
    pgp_sym_decrypt (kt_secret_hash k) pgcrypto_key = Some secret.
Proof.
  intros H. unfold on_keys, decrypt_api_key_secret, statement in H.
  rewrite (active_key_same (key_store (gw_inner g)) (next_statement _) i eq_refl) in H.
  destruct (ks_faults (key_store (gw_inner g))) as [|[] f]; [|done|];
    destruct (active_key _ i) as [k|]; try done;
    destruct (pgp_sym_decrypt _ _) eqn:E; try done; injection H as <- _; eauto.
Qed.

(** Whatever the statements and Redis do, an accepted request is signed, by the stored
    secret of an active key, at a time close to the clock. *)
Lemma verify_signed since_epoch ctx request (g : Gateway) request' g' :
  verify pgcrypto_key since_epoch ctx request g = (Ok request', g') ->
  exists key_id k ts sign,
    signed pgcrypto_key (key_store (gw_inner g)) request key_id k ts sign /\
    i64_abs (i64_sub (chrono_now_ms since_epoch) ts) <= MAX_SKEW_MS /\
    request' = with_hmac (caller_of key_id k) request.
Proof.
  unfold verify. intros H. take_step H Ekey. take_step H Ets. take_step H Esign. take_step H Eid.
  take_step H Etime. take_step H Eskew. take_step H Efind.
  apply find_key_ok in Efind as [-> Hk]. take_step H Efound.
  take_step H Edec. take_step H Esec.
  destruct (active_key (key_store (gw_inner g)) _) as [k|] eqn:Ek; [|done].
  injection Efound as <-. rewrite Esec in Edec.
  apply decrypt_key_ok in Edec as (k' & Ek' & Esecret).
  rewrite (active_key_same _ _ _ Hk), Ek in Ek'. injection Ek' as <-.
  take_step H Ebody. take_step H Etag. take_step H Eexp. take_step H Eeq. take_step H Erep.
  injection H as <- _. eexists _, k, _, _. split_and!; [..|reflexivity].
  - split; [by eauto..|]. apply bool_decide_eq_true in Eeq as ->.
    eexists _, _, _. by split_and!.
  - by apply negb_true_iff, Z.ltb_ge in Eskew.
Qed.
End Signed.

Section Limited.
Context {R S B D : Type} {ops : RedisOps R} {us : UuidSource} {tops : TextOps D}.
Context {jwt : JwtDecode}.
Context (config : TokenConfig) (since_epoch : option Z).
Abbreviation Gateway := (Gateway R S).

(** The limiter admits or refuses the request and leaves the gateway [g']. *)
Definition limiter_says (allowed : bool) (request : Request) (g g' : Gateway)
    (o : RateLimitOutcome) : Prop :=
  let '(limit, window, key) := classify_request (D := D) config request (chrono_now_ms since_epoch) in
  check_rate_limit (D := D) key limit window (chrono_now_ms since_epoch) g = (Ok o, g') /\
  ro_allowed o = allowed.

Lemma limiter_inner allowed request g g' o :
  limiter_says allowed request g g' o -> gw_inner g' = gw_inner g.
Proof.
  unfold limiter_says, check_rate_limit.
  destruct (classify_request _ _ _) as [[limit window] key]. intros [H _].
  destruct (gw_redis g); [|by injection H as _ <-].
  destruct (send_command _ _) as [[[]|] ?]; by injection H as _ <-.
Qed.

Lemma rate_limit_cases (next : Request -> Gateway -> Response B * Gateway) request g resp g' :
  rate_limit_middleware (D := D) config next since_epoch request g = (resp, g') ->
  (exists o, limiter_says false request g g' o /\ resp = too_many_requests request o) \/
  (exists o g1 inner, limiter_says true request g g1 o /\ next request g1 = (inner, g') /\
     resp = apply_rate_limit_headers o inner).
Proof.
  unfold rate_limit_middleware, limiter_says. intros H.
  destruct (classify_request _ _ _) as [[limit window] key].
  destruct (check_rate_limit _ _ _ _ g) as [[o|e] g1] eqn:E.
  - destruct (ro_allowed o) eqn:Ea; cbn in H.
    + right. destruct (next request g1) as [inner g2] eqn:En. injection H as <- <-.
      eexists _, g1, inner. by split_and!.
    + left. injection H as <- <-. by eexists.
  - exfalso. unfold check_rate_limit in E. destruct (gw_redis g); [|done].
    by destruct (send_command _ _) as [[[]|] ?].
Qed.
End Limited.

(** * The front door *)

Section FrontDoor.
Context {R S B D : Type} {ops : RedisOps R} {us : UuidSource} {tops : TextOps D}.
Context {jwt : JwtDecode} {hm : HmacOps} {ut : UuidText} {utl : UuidTextLaws} {pc : Pgcrypto}.
Context {hk : HasKeys S} {hkl : HasKeysLaws S}.
Context (config : TokenConfig) (pgcrypto_key : string) (limit_time sign_time : option Z).
Context (handlers : Endpoint -> Request -> Gateway R S -> Response (option B) * Gateway R S).
Abbreviation Gateway := (Gateway R S).

(** The id a request brings along or is given. *)
Definition id_of (request : Request) (g : Gateway) : Uuid :=
  default (new_v4 (gw_uuids g)) (header_str request X_REQUEST_ID ≫= parse_uuid).

(** The gateway once the id is drawn. *)
Definition after_id (request : Request) (g : Gateway) : Gateway :=
  match header_str request X_REQUEST_ID ≫= parse_uuid with
  | Some _ => g
  | None => mkGateway (gw_redis g) (Datatypes.S (gw_uuids g)) (gw_inner g)
  end.

(** The table sends the request to [e]; [nested] says whether under [/api/v1]. *)
Definition routed (request : Request) (nested : bool) (e : Endpoint) : Prop :=
  exists r, r ∈ (if nested then api_v1_routes else root_routes) /\
    path_matches (route_path r) (rq_path request) = true /\ route_endpoint r = e /\
    (route_method r = rq_method request \/
     rq_method request = "HEAD" /\ route_method r = "GET").

(** The caller a handler behind [/api/v1] is told of: the owner of the active key that
    signed the method, the inner path and the body just now, or nobody. *)
Definition signed_caller (request : Request) (g : Gateway) (caller : option HmacCaller) : Prop :=
  if contains_key HMAC_KEY_HEADER request then
    exists key_id k ts sign,
      signed pgcrypto_key (key_store (gw_inner g)) (strip_api_v1 request) key_id k ts sign /\
      i64_abs (i64_sub (chrono_now_ms sign_time) ts) <= MAX_SKEW_MS /\
      caller = Some (caller_of key_id k)
  else caller = None.

(** What reaches the handler of [e]: the request with its id, past the gates. *)
Record reaches (id : Uuid) (request : Request) (g : Gateway) (nested : bool) (e : Endpoint)
    (rq : Request) (g1 : Gateway) : Prop := {
  rc_routed : routed request nested e;
  rc_context : rq_context rq = Some id;
  rc_same : rq_method rq = rq_method request /\ rq_headers rq = rq_headers request /\
            rq_body rq = rq_body request;
  rc_inner : same_inner (gw_inner g) (gw_inner g1);
  rc_limit : nested = true -> exists o (gl : Gateway),
    limiter_says (D := D) config limit_time true
      (strip_api_v1 (with_request_context id request)) g gl o;
  rc_caller : if nested then signed_caller request g (rq_hmac rq) else rq_hmac rq = None;
}.

(** Turned away: an envelope with the request's id, or 405 for a wrong method. *)
Definition turned_away (id : Uuid) (g : Gateway) (resp : Response (option B)) (g' : Gateway)
    : Prop :=
  same_inner (gw_inner g) (gw_inner g') /\
  (rs_status resp = 405%nat /\ rs_body resp = inr None \/
   exists e, rs_body resp = inl e /\ ae_request_id e = Some id /\ rs_status resp = ae_status e /\
     ae_status e ∈ [404; 429; 401; 500]%nat).

Lemma endpoint_at_route method rs e :
  endpoint_at method rs = Some e ->
  exists r, r ∈ rs /\ route_endpoint r = e /\
    (route_method r = method \/ method = "HEAD" /\ route_method r = "GET").
Proof.
  assert (forall m, endpoint_by m rs = Some e ->
    exists r, r ∈ rs /\ route_endpoint r = e /\ route_method r = m) as Hb.
  { intros m H. unfold endpoint_by in H.
    destruct (head (filter _ rs)) as [r|] eqn:Hh; [|done]. injection H as <-.
    assert (r ∈ filter (fun r => route_method r = m) rs) as Hin
      by (destruct (filter _ rs); [done|injection Hh as ->; left]).
    apply list_elem_of_filter in Hin as [? ?]. by exists r. }
  unfold endpoint_at. destruct (endpoint_by method rs) eqn:E.
  - intros [= ->]. destruct (Hb _ E) as (r & ? & ? & ?). exists r. eauto.
  - case_bool_decide; [|done]. intros H'. destruct (Hb _ H') as (r & ? & ? & ?).
    exists r. eauto.
Qed.

Lemma resolve_routes path :
  match resolve path with
  | AtRoot rs => rs = routes_at root_routes path
  | UnderApi rs => rs = routes_at api_v1_routes path
  | Unmatched => True
  end.
Proof.
  unfold resolve. destruct (routes_at root_routes path) eqn:E; [|done].
  by destruct (routes_at api_v1_routes path).
Qed.

Lemma routes_at_routed routes nested request rs e :
  routes = (if nested : bool then api_v1_routes else root_routes) ->
  rs = routes_at routes (rq_path request) ->
  endpoint_at (rq_method request) rs = Some e -> routed request nested e.
Proof.
  intros -> -> H. apply endpoint_at_route in H as (r & Hr & He & Hm).
  apply list_elem_of_filter in Hr as [Hp Hr]. by exists r.
Qed.

(** The method router calls one handler or answers 405. *)
Lemma method_router_cases rs request g resp g' :
  method_router handlers rs request g = (resp, g') ->
  (resp = method_not_allowed /\ g' = g) \/
  (exists e inner, endpoint_at (rq_method request) rs = Some e /\
     handlers e request g = (inner, g') /\ rs_status resp = rs_status inner).
Proof.
  unfold method_router. destruct (endpoint_at _ rs) as [e|]; intros H.
  - right. destruct (handlers e request g) as [inner g1] eqn:Eh. exists e, inner.
    case_bool_decide; injection H as <- <-; done.
  - left. by injection H as <- <-.
Qed.

Lemma request_id_eq next request (g : Gateway) :
  request_id next request g =
  let '(response, g2) := next (with_request_context (id_of request g) request)
                           (after_id request g) in
  (insert_header (B := B) X_REQUEST_ID (show_uuid (id_of request g)) response, g2).
Proof.
  unfold request_id, id_of, after_id. destruct (header_str request X_REQUEST_ID ≫= parse_uuid); cbn;
    destruct (next _ _); by rewrite show_uuid_visible.
Qed.

(** The handler that ran, or how the request was turned away. *)
Definition served (id : Uuid) (request : Request) (g : Gateway) (resp : Response (option B))
    (g' : Gateway) : Prop :=
  (exists nested e rq g1 inner, reaches id request g nested e rq g1 /\
     handlers e rq g1 = (inner, g') /\ rs_status resp = rs_status inner) \/
  turned_away id g resp g'.

(** Signed or not, what the signature check lets through. *)
Lemma api_v1_served id request rs g resp g' :
  rq_hmac request = None -> rs = routes_at api_v1_routes (rq_path request) ->
  api_v1 (D := D) config pgcrypto_key limit_time sign_time handlers rs
    (with_request_context id request) g = (resp, g') ->
  served id request g resp g'.
Proof.
  intros Hno Hrs H. unfold api_v1 in H.
  apply rate_limit_cases in H as [(o & Hl & ->)|(o & g1 & inner & Hl & H & ->)].
  { right. pose proof (limiter_inner _ _ _ _ _ _ _ Hl) as Hi.
    split; [rewrite Hi; apply same_inner_refl|]. right. eexists. split; [reflexivity|].
    split_and!; [reflexivity..|]. set_solver. }
  pose proof (limiter_inner _ _ _ _ _ _ _ Hl) as Hi.
  set (rq := strip_api_v1 (with_request_context id request)) in *.
  assert (forall rq' g2 inner g', method_router handlers rs rq' g2 = (inner, g') ->
    rq_method rq' = rq_method request -> rq_headers rq' = rq_headers request ->
    rq_body rq' = rq_body request -> rq_context rq' = Some id ->
    same_inner (gw_inner g) (gw_inner g2) -> signed_caller request g (rq_hmac rq') ->
    served id request g (apply_rate_limit_headers o inner) g') as Hm.
  { clear H. intros rq' g2 inn gx H Hme Hhe Hbo Hco Hin Hca.
    apply method_router_cases in H as [[-> ->]|(e & i & He & Hh & Hs)].
    - right. split; [done|]. by left.
    - left. exists true, e, rq', g2, i. split_and!; [|done|done]. split; [|done..|eauto|done].
      rewrite Hme in He. by eapply (routes_at_routed api_v1_routes true). }
  unfold hmac_auth_middleware in H.
  change (contains_key HMAC_KEY_HEADER rq) with (contains_key HMAC_KEY_HEADER request) in H.
  change (rq_context rq) with (Some id) in H.
  destruct (contains_key HMAC_KEY_HEADER request) eqn:Ek; cbn [negb] in H.
  - destruct (verify pgcrypto_key sign_time id rq g1) as [[rq'|e] g2] eqn:Ev.
    + destruct (verify_tame pgcrypto_key sign_time id rq _ _ _ Ev) as [Hin [c Hc]].
      rewrite Hi in Hin. eapply Hm; [exact H|by rewrite Hc..|done|].
      apply verify_signed in Ev as (key_id & k & ts & sign & Hs & Ht & ->).
      unfold signed_caller. rewrite Ek, <-Hi. exists key_id, k, ts, sign.
      split_and!; [|done|done]. destruct Hs. by split.
    + destruct (verify_tame pgcrypto_key sign_time id rq _ _ _ Ev) as [Hin [Hid Hst]].
      injection H as <- <-. right. rewrite Hi in Hin. split; [done|]. right.
      eexists. split; [reflexivity|]. rewrite Hid. cbn. split_and!; [done..|].
      destruct Hst as [-> | ->]; set_solver.
  - eapply Hm; [exact H|done..| |]; [rewrite Hi; apply same_inner_refl|].
    unfold signed_caller. by rewrite Ek.
Qed.

Lemma routes_served id request g resp g' :
  rq_hmac request = None ->
  routes (D := D) config pgcrypto_key limit_time sign_time handlers
    (with_request_context id request) g = (resp, g') ->
  served id request g resp g'.
Proof.
  intros Hno H. unfold routes in H.
  change (rq_path (with_request_context id request)) with (rq_path request) in H.
  pose proof (resolve_routes (rq_path request)) as Hr.
  destruct (resolve (rq_path request)) as [rs|rs|].
  - apply method_router_cases in H as [[-> ->]|(e & i & He & Hh & Hs)].
    + right. split; [apply same_inner_refl|]. by left.
    + left. exists false, e, (with_request_context id request), g, i.
      split_and!; [|done|done]. split; [|done|done|apply same_inner_refl|done|done].
      by eapply (routes_at_routed root_routes false).
  - by eapply api_v1_served.
  - injection H as <- <-. right. split; [apply same_inner_refl|]. right.
    eexists. split; [reflexivity|]. split_and!; [done..|]. cbn. set_solver.
Qed.
End FrontDoor.

Lemma security_header_kept {B} name (r : Response B) h :
  h ∈ SECURITY_HEADERS -> h.1 <> name ->
  forall value, rs_headers (insert_header name value
    (fold_left (fun r nv => insert_header nv.1 nv.2 r) SECURITY_HEADERS r)) !! h.1 = Some h.2.
Proof.
  intros Hh Hne value. unfold SECURITY_HEADERS in *.
  repeat (apply elem_of_cons in Hh as [->|Hh]; [|]); [..|by apply elem_of_nil in Hh];
    cbn in *; rewrite lookup_insert_ne by done; repeat (rewrite lookup_insert_ne by done);
    by rewrite lookup_insert_eq.
Qed.

Lemma security_fold {B} (l : list (string * string)) : forall r : Response B,
  let r' := fold_left (fun r nv => insert_header nv.1 nv.2 r) l r in
  rs_status r' = rs_status r /\ rs_body r' = rs_body r.
Proof. induction l as [|h l IH]; intros r; [done|]. cbn. apply (IH (insert_header h.1 h.2 r)). Qed.

(** C33. The front door.  Whatever the handlers do, every answer of the API (1) carries the
    id of its request, the one the client sent or a new one, and all security headers;
    and either (2) the one handler its method and path name has run, on that request
    with its id, past the limiter if it is under [/api/v1], and told of a signed caller
    only if an active key of that caller signed this method, path and body just now, a
    request with a bad signature never getting there; or (3) no handler has run, nothing
    is written, and the answer is 405 or an error envelope with the request's id. *)
Theorem every_request_passes_the_gates {R S B D : Type} {ops : RedisOps R} {us : UuidSource}
    {tops : TextOps D} {jwt : JwtDecode} {hm : HmacOps} {ut : UuidText} {utl : UuidTextLaws}
    {pc : Pgcrypto} {hk : HasKeys S} {hkl : HasKeysLaws S}
    (config : TokenConfig) (pgcrypto_key : string) (limit_time sign_time : option Z)
    (handlers : Endpoint -> Request -> Gateway R S -> Response (option B) * Gateway R S)
    request g resp g' :
  rq_hmac request = None ->
  build_router (D := D) config pgcrypto_key limit_time sign_time handlers request g =
    (resp, g') ->
  (rs_headers resp !! X_REQUEST_ID = Some (show_uuid (id_of request g)) /\
   forall h, h ∈ SECURITY_HEADERS -> rs_headers resp !! h.1 = Some h.2) /\
  served (D := D) config pgcrypto_key limit_time sign_time handlers (id_of request g) request
    (after_id request g) resp g'.
Proof.
  intros Hno H. unfold build_router in H. rewrite request_id_eq in H. unfold security_headers in H.
  destruct (routes _ _ _ _ _ _ _) as [r0 g0] eqn:E. injection H as <- <-.
  apply routes_served in E; [|done]. split; [split|].
  - cbn [insert_header rs_headers]. by rewrite lookup_insert_eq.
  - intros h Hh. apply security_header_kept; [done|]. intros Heq.
    unfold SECURITY_HEADERS in Hh.
    repeat (apply elem_of_cons in Hh as [->|Hh]; [done|]). by apply elem_of_nil in Hh.
  - destruct (security_fold SECURITY_HEADERS r0) as [Hs Hb].
    destruct E as [(ne & e & rq & g1 & i & Hr & Hh & Hi)|[Hi Ht]]; [left|right].
    + exists ne, e, rq, g1, i. split_and!; [done..|]. by rewrite <-Hs in Hi.
    + split; [done|]. rewrite <-Hs, <-Hb in Ht. exact Ht.
Qed.

(** * Logging in tells nothing about the accounts *)

(** The answer to a login, and the failures remembered after it, when the accounts are not
    looked at: from the request, the failures remembered before it and the time. *)
Definition blind_login (request_id : Uuid) (request : Request) (payload : option LoginInput)
    (time : Z) (a : LoginAttempts) : ApiError * LoginAttempts :=
  match payload with
  | None => (json_error request_id, a)
  | Some input =>
      let email := normalize_email (li_email input) in
      if negb (is_valid_email (li_email input) && is_valid_email email)
      then (invalid_email request_id, a) else
      let a := attempts_prune time a in
      let ip_key := client_ip_key request in
      if is_locked email ip_key a
      then (map_auth_error AeTooManyAttempts request_id, a)
      else (map_auth_error AeInvalidCredentials request_id, attempts_record email ip_key time a)
  end.

(** The login is not locked out and names an active account with its password. *)
Definition right_credentials {S} {views : AuthViews S} {ac : AuthCrates} {ck : ClockSource}
    (input : LoginInput) (ip_key : string) (s : Service S) : Prop :=
  let email := normalize_email (li_email input) in
  is_locked email ip_key (attempts_prune (login_time s) (sv_attempts s)) = false /\
  exists u, users_of (sv_repo s) !! au_id u = Some u /\ au_email u = email /\
    au_status u = Active /\ verify_password (li_password input) (au_password_hash u) = Ok true.

(** Stored data and the sources of identifiers and random bytes are as before. *)
Definition undisturbed {S} {views : AuthViews S} (s s' : Service S) : Prop :=
  same_store (sv_repo s) (sv_repo s') /\ sv_ids s' = sv_ids s /\ sv_draws s' = sv_draws s.

Section Blind.
Context {S : Type} {repo : AuthRepository S} {views : AuthViews S} {laws : AuthRepositoryLaws S}.
Context {ac : AuthCrates} {hops : HashOps} {uc : UnicodeChars} {us : UuidSource}.
Context {ck : ClockSource} (cfg : TokenConfig).
Implicit Types (s : Service S).

Lemma login_blind input ip s r s' :
  keys_ok (sv_repo s) -> login cfg input ip s = (r, s') ->
  let e := normalize_email (li_email input) in
  let a := attempts_prune (login_time s) (sv_attempts s) in
  is_valid_email e = false /\ r = Err AeInvalidEmail /\ s' = s \/
  is_valid_email e = true /\
  (right_credentials input ip s \/ r = Err AeInternal \/
   undisturbed s s' /\
   (is_locked e ip a = true /\ r = Err AeTooManyAttempts /\ sv_attempts s' = a \/
    is_locked e ip a = false /\ r = Err AeInvalidCredentials /\
      sv_attempts s' = attempts_record e ip (login_time s) a)).
Proof.
  intros Hk H. cbv zeta. unfold right_credentials. open_alone H. unfold normalised_email_or_error in H.
  destruct (is_valid_email (normalize_email (li_email input))); [|auth_inv; by left].
  right. split; [done|].
  apply abind_inv in H as [(e & s1 & He & H)|(e & He & _)]; [|done].
  unfold aret in He. injection He as <- <-.
  apply abind_inv in H as [(t & s1 & Ht & H)|(t & Ht & _)]; [|done].
  unfold now in Ht. injection Ht as <- <-.
  apply abind_inv in H as [(unit & s1 & Hl & H)|(er & Hl & ->)]; rewrite ensure_eq in Hl;
    fold (login_time s) in *; cbn [sv_attempts] in Hl;
    destruct (is_locked (normalize_email (li_email input)) ip
      (attempts_prune (login_time s) (sv_attempts s))) eqn:Hlock; try done.
  2: { injection Hl as <- <-. right. right. split; [by split_and!|]. left. by split_and!. }
  injection Hl as _ <-. unfold with_attempts in H.
  cbn [sv_repo sv_clock sv_ids sv_draws sv_attempts] in H.
  apply abind_inv in H as [(found & s1 & Hf & H)|(er & Hf & ->)].
  2: { apply repo_or_internal_inv in Hf as (q & -> & [(x & _ & ?)|(x & _ & ?)]); [done|].
       right. left. congruence. }
  apply repo_or_internal_inv in Hf as (q & -> & [(x & Hf & [= ->])|(x & _ & ?)]); [|done].
  cbn [sv_repo sv_attempts sv_clock sv_ids sv_draws] in *.
  apply find_user_by_email_law in Hf as [Hsame Hu]; [|done].
  assert (forall r1 s2, refuse_login (A := LoginOutcome) (normalize_email (li_email input)) ip
    (login_time s) (mkService q (attempts_prune (login_time s) (sv_attempts s))
      (Datatypes.S (sv_clock s)) (sv_ids s) (sv_draws s)) = (r1, s2) ->
    undisturbed s s2 /\ r1 = Err AeInvalidCredentials /\
    sv_attempts s2 = attempts_record (normalize_email (li_email input)) ip (login_time s)
      (attempts_prune (login_time s) (sv_attempts s))) as Hrefuse.
  { intros r1 s2 Hr. rewrite refuse_eq in Hr. injection Hr as <- <-. by split_and!. }
  destruct x as [u|]; [|apply Hrefuse in H as (? & ? & ?); by eauto 10].
  case_bool_decide as Hst; [apply Hrefuse in H as (? & ? & ?); by eauto 10|].
  apply abind_inv in H as [(b & s2 & Hv & H)|(er & Hv & ->)];
    apply or_internal_inv in Hv as [-> Hv]; destruct (verify_password _ _) as [v|] eqn:Ev; try done.
  2: { right. left. congruence. }
  injection Hv as ->.
  destruct v; cbn [negb] in H; [|apply Hrefuse in H as (? & ? & ?); by eauto 10].
  left. split; [done|]. exists u. destruct Hu as [Hu1 Hu2]. split_and!; [done..| |done].
  by destruct (decide (au_status u = Active)).
Qed.
End Blind.

(** C29. Logging in tells nothing about the accounts.  Unless the request names an active
    account with its password and is not locked out, the answer of the login endpoint and
    the failures it remembers are what a login computes that never looks at the accounts:
    whether an email is registered, frozen or closed cannot be told from them, nor, while
    locked out, whether the password is right.  The exception is an internal error, when
    a statement fails or a stored hash is malformed.  Nothing else is changed. *)
Theorem login_reveals_nothing {S : Type} {repo : AuthRepository S} {views : AuthViews S}
    {laws : AuthRepositoryLaws S} {ac : AuthCrates} {hops : HashOps} {uc : UnicodeChars}
    {us : UuidSource} {ck : ClockSource} (cfg : TokenConfig) (request_id : Uuid)
    (request : Request) (payload : option LoginInput) (s : Service S) r s' :
  keys_ok (sv_repo s) -> login_endpoint cfg request_id request payload s = (r, s') ->
  (forall input, payload = Some input -> ~ right_credentials input (client_ip_key request) s) ->
  r = Err (with_request_id request_id internal) \/
  (r = Err (blind_login request_id request payload (login_time s) (sv_attempts s)).1 /\
   sv_attempts s' = (blind_login request_id request payload (login_time s) (sv_attempts s)).2 /\
   undisturbed s s').
Proof.
  intros Hk H Hno. unfold login_endpoint in H. destruct payload as [input|]; [|injection H as <- <-; by right].
  cbn. destruct (is_valid_email (li_email input)); cbn [negb andb] in *;
    [|injection H as <- <-; by right].
  specialize (Hno _ eq_refl).
  destruct (login cfg input (client_ip_key request) s) as [r1 s1] eqn:Hl.
  destruct (login_blind _ _ _ _ _ _ Hk Hl) as [(-> & -> & ->)|(-> & Hc)];
    [injection H as <- <-; by right|].
  destruct Hc as [?|[->|[Hu [(-> & -> & Ha)|(-> & -> & Ha)]]]]; [done|..];
    injection H as <- <-; [by left|right; by split_and!..].
Qed.

(** * Examples *)

#[local] Existing Instances bit_texts any_token.
#[local] Existing Instances bit_uuids prefix_crypto sum_hmac.

Lemma pos_text_visible p : forallb visible (codes (pos_text p)) = true.
Proof. unfold codes. by induction p as [p IH|p IH|]. Qed.

Lemma z_text_visible n : forallb visible (codes (z_text n)) = true.
Proof. destruct n as [|p|p]; [done|apply (pos_text_visible p)..]. Qed.

#[local] Instance bit_uuids_laws : UuidTextLaws.
Proof.
  split. intros u. unfold header_value.
  change (show_uuid u) with (z_text (Z.of_N u)). by rewrite z_text_visible.
Qed.

(** Every handler answers 200 and nothing else. *)
Definition plain_handlers (e : Endpoint) (rq : Request) (g : Gateway MiniRedis KeyStore)
    : Response (option Endpoint) * Gateway MiniRedis KeyStore :=
  (mkResponse 200 ∅ (inr (Some e)), g).

Definition ask (request : Request) (g : Gateway MiniRedis KeyStore) :=
  build_router (D := Z) no_secret "pg" (Some 6000) (Some 6000) plain_handlers request g.

Definition outside (method path : string) (headers : list (string * option string)) : Request :=
  mkRequest method path (Some path) headers (Some "{}") None None.

(** The signed request of HmacProps, from outside the nested router. *)
Definition bot_outside (sign : string) : Request :=
  mkRequest "POST" "/api/v1/orders" (Some "/api/v1/orders?x=1") (rq_headers (bot_request sign))
    (Some "{}") None None.

Definition shown (r : Response (option Endpoint)) : nat * (option ErrorCode * option (option Endpoint)) :=
  (rs_status r, match rs_body r with inl e => (Some (ae_code e), None) | inr b => (None, Some b) end).

Example the_door :
  let g := bot_gateway after_bot_key in
  shown (ask (outside "GET" "/health" []) g).1 = (200%nat, (None, Some (Some EpHealth))) /\
  shown (ask (outside "HEAD" "/api/v1/orders/7" []) g).1 = (200%nat, (None, Some None)) /\
  shown (ask (outside "PUT" "/api/v1/orders/7" []) g).1 = (405%nat, (None, Some None)) /\
  shown (ask (outside "GET" "/api/v1/orders/" []) g).1 = (404%nat, (Some NotFound, None)) /\
  shown (ask (bot_outside bot_sign) g).1 = (200%nat, (None, Some (Some EpPlaceOrder))) /\
  shown (ask (bot_outside "00") g).1 = (401%nat, (Some SigInvalid, None)).
Proof. vm_compute. by split_and!. Qed.

Example every_request_passes_the_gates_witness :
  let g := bot_gateway after_bot_key in
  let '(resp, g') := ask (bot_outside bot_sign) g in
  rs_status resp = 200%nat /\
  served (D := Z) no_secret "pg" (Some 6000) (Some 6000) plain_handlers 500 (bot_outside bot_sign)
    (mkGateway (gw_redis g) 1 after_bot_key) resp g'.
Proof.
  cbv zeta. destruct (ask (bot_outside bot_sign) (bot_gateway after_bot_key)) as [resp g'] eqn:E.
  split.
  - apply (f_equal (fun x => rs_status x.1)) in E. cbn [fst] in E. rewrite <-E. vm_compute. reflexivity.
  - exact (proj2 (every_request_passes_the_gates (D := Z) no_secret "pg" (Some 6000) (Some 6000)
      plain_handlers (bot_outside bot_sign) (bot_gateway after_bot_key) resp g' eq_refl E)).
Defined.

Definition from_address (ip : string) : Request :=
  outside "POST" "/api/v1/auth/login" [("x-forwarded-for", Some (ip ++ ", 10.9.9.9"))].

(** Carol's account and one that does not exist are answered alike. *)
Example strangers_are_answered_alike :
  let login email := (login_endpoint config 9 (from_address "10.0.0.1")
                        (Some (mkLoginInput email "wrong")) signed_up).1 in
  login "carol@example.com" = login "nobody@example.com" /\
  login "carol@example.com" = Err (map_auth_error AeInvalidCredentials 9).
Proof. vm_compute. by split. Qed.

Example login_reveals_nothing_witness :
  let payload := Some (carol_login "wrong") in
  let '(r, s') := login_endpoint config 9 (from_address "10.0.0.1") payload signed_up in
  r = Err (with_request_id 9 internal) \/
  (r = Err (blind_login 9 (from_address "10.0.0.1") payload (login_time signed_up)
              (sv_attempts signed_up)).1 /\
   sv_attempts s' = (blind_login 9 (from_address "10.0.0.1") payload (login_time signed_up)
              (sv_attempts signed_up)).2 /\
   undisturbed signed_up s').
Proof.
  cbv zeta. destruct (login_endpoint _ _ _ _ _) as [r s'] eqn:E.
  apply (login_reveals_nothing config 9 (from_address "10.0.0.1") (Some (carol_login "wrong"))
    signed_up r s' (proj1 signed_up_ok) E).
  intros input [= <-] (_ & u & Hu & _ & _ & Hv).
  assert (users_of (sv_repo signed_up) = {[500%N := mkAuthUser 500 "carol@example.com"
    "Tr0ub4dor&3xyz" Active 0 false]}) as Hm by (vm_compute; reflexivity).
  rewrite Hm in Hu. apply lookup_singleton_Some in Hu as [_ <-]. clear E Hm.
  vm_compute in Hv. discriminate Hv.
Defined.
