(* ===== verification/Config.v ===== *)
(** * Config: the configuration of the four processes

    [services/api/src/config.rs], [services/settlement/src/config.rs],
    [services/market-data/src/config.rs], and [main.rs] and [config.rs] of
    [engine/crates/server]: what each process reads from its environment, with what they
    use of the standard library to read numbers and IP addresses.  The environment is an
    argument.  [services_find_the_engine]: the three services look for the engine where it
    listens, if the host is set. *)
From Stdlib Require Import Ascii.
From stdpp Require Import pretty.
From S2P Require Import Prelude Decimal Bytes RecordLog Proto Wal Wire Engine Server.
From S2P Require Import ApiBase AuthBase Http.

#[local] Open Scope string_scope.

(** ** Standard library *)

Inductive IntErrorKind := IkEmpty | IkInvalidDigit | IkPosOverflow.

(** [ParseIntError]'s [Display]. *)
Definition int_error_text (e : IntErrorKind) : string :=
  match e with
  | IkEmpty => "cannot parse integer from empty string"
  | IkInvalidDigit => "invalid digit found in string"
  | IkPosOverflow => "number too large to fit in target type"
  end.

Fixpoint unsigned_loop (max acc : Z) (s : string) : result IntErrorKind Z :=
  match s with
  | EmptyString => Ok acc
  | String c s =>
      match digit c with
      | None => Err IkInvalidDigit
      | Some d => let acc := (acc * 10 + d)%Z in
          if (max <? acc)%Z then Err IkPosOverflow else unsigned_loop max acc s
      end
  end.

(** [str::parse] at an unsigned type whose largest value is [max]. *)
Definition parse_unsigned (max : Z) (s : string) : result IntErrorKind Z :=
  match s with
  | EmptyString => Err IkEmpty
  | String "+" EmptyString => Err IkInvalidDigit
  | String "+" s => unsigned_loop max 0 s
  | _ => unsigned_loop max 0 s
  end%char.

Definition U16_MAX : Z := 2 ^ 16 - 1.

Inductive IpAddr := IpV4 (a b c d : Z) | IpV6 (groups : list Z).

Definition LOCALHOST : IpAddr := IpV4 127 0 0 1.

#[export] Instance IpAddr_eq_dec : EqDecision IpAddr.
Proof. solve_decision. Defined.

Definition is_loopback (ip : IpAddr) : bool :=
  match ip with
  | IpV4 a _ _ _ => (a =? 127)%Z
  | IpV6 groups => bool_decide (groups = [0; 0; 0; 0; 0; 0; 0; 1]%Z)
  end.

(** [char::to_digit]. *)
Definition to_digit (radix : Z) (c : ascii) : option Z :=
  let n := Z.of_N (N_of_ascii c) in
  let v := if (48 <=? n)%Z && (n <=? 57)%Z then Some (n - 48)%Z
    else if (97 <=? n)%Z && (n <=? 122)%Z then Some (n - 87)%Z
    else if (65 <=? n)%Z && (n <=? 90)%Z then Some (n - 55)%Z else None in
  match v with Some d => if (d <? radix)%Z then Some d else None | None => None end.

(** The parsers of [core::net::parser]: what was read and the rest, nothing consumed on
    failure. *)
Fixpoint number_loop (radix max : Z) (max_digits count : nat) (acc : Z) (s : string)
    : option (Z * nat * string) :=
  match s with
  | EmptyString => Some (acc, count, s)
  | String c r =>
      match to_digit radix c with
      | None => Some (acc, count, s)
      | Some d => let acc := (acc * radix + d)%Z in
          if (max <? acc)%Z || (max_digits <=? count)%nat then None
          else number_loop radix max max_digits (S count) acc r
      end
  end.

Definition read_number (radix max : Z) (max_digits : nat) (zero_prefix : bool) (s : string)
    : option (Z * string) :=
  match number_loop radix max max_digits 0 0 s with
  | None | Some (_, O, _) => None
  | Some (n, count, r) =>
      if negb zero_prefix && starts_with "0" s && (1 <? count)%nat then None else Some (n, r)
  end.

(** [sep] in front of every item but the first. *)
Definition read_separator {A} (sep : string) (index : nat) (inner : string -> option (A * string))
    (s : string) : option (A * string) :=
  match index with O => inner s | S _ => strip_prefix sep s ≫= inner end.

Definition read_octet (index : nat) : string -> option (Z * string) :=
  read_separator "." index (read_number 10 255 3 false).

Definition read_ipv4_addr (s : string) : option (Z * Z * Z * Z * string) :=
  '(a, s) ← read_octet 0 s; '(b, s) ← read_octet 1 s;
  '(c, s) ← read_octet 2 s; '(d, s) ← read_octet 3 s; Some (a, b, c, d, s).

(** Up to [k] groups of an IPv6 address from the [i]th on, the last two perhaps as an IPv4
    address, and whether they were. *)
Fixpoint read_groups (k i : nat) (s : string) : list Z * bool * string :=
  match k with
  | O => ([], false, s)
  | S k =>
      match (if (1 <=? k)%nat then read_separator ":" i read_ipv4_addr s else None) with
      | Some (a, b, c, d, r) => ([a * 256 + b; c * 256 + d]%Z, true, r)
      | None =>
          match read_separator ":" i (read_number 16 65535 4 true) s with
          | Some (g, r) => let '(gs, v4, r) := read_groups k (S i) r in (g :: gs, v4, r)
          | None => ([], false, s)
          end
      end
  end.

Definition read_ipv6_addr (s : string) : option (list Z * string) :=
  let '(head, head_ipv4, r) := read_groups 8 0 s in
  if (length head =? 8)%nat then Some (head, r)
  else if head_ipv4 : bool then None
  else r ← strip_prefix "::" r;
    let '(tail, _, r) := read_groups (8 - (length head + 1)) 0 r in
    Some ((head ++ replicate (8 - length head - length tail) 0%Z ++ tail)%list, r).

(** [IpAddr::from_str]. *)
Definition parse_ip_addr (s : string) : option IpAddr :=
  match read_ipv4_addr s with
  | Some (a, b, c, d, EmptyString) => Some (IpV4 a b c d)
  | Some _ => None
  | None =>
      match read_ipv6_addr s with
      | Some (groups, EmptyString) => Some (IpV6 groups)
      | _ => None
      end
  end.

Record SocketAddr := mkSocketAddr { sa_ip : IpAddr; sa_port : Z }.

(** ** Reading variables *)

(** [ConfigError]. *)
Inductive ConfigError := Missing (name : string) | Invalid (name reason : string).

Section Environment.
(** [env::var(name).ok()]. *)
Context (env : string -> option string).

Definition optional (name : string) : option string :=
  v ← env name; if bool_decide (trim v = "") then None else Some v.

Definition required (name : string) : result ConfigError string :=
  match optional name with Some v => Ok v | None => Err (Missing name) end.

Definition parse_ip (name value : string) : result ConfigError IpAddr :=
  match parse_ip_addr value with
  | Some ip => Ok ip
  | None => if bool_decide (value = "localhost") then Ok LOCALHOST
            else Err (Invalid name "must be an IP address or localhost")
  end.

Definition parse_number (max : Z) (name value : string) : result ConfigError Z :=
  match parse_unsigned max value with
  | Ok n => Ok n
  | Err e => Err (Invalid name (int_error_text e))
  end.

(** ** The API *)

Inductive AppEnv := Development | Test | Production.

#[export] Instance AppEnv_eq_dec : EqDecision AppEnv.
Proof. solve_decision. Defined.

Definition parse_app_env (value : string) : result ConfigError AppEnv :=
  if bool_decide (value = "development") then Ok Development
  else if bool_decide (value = "test") then Ok Test
  else if bool_decide (value = "production") then Ok Production
  else Err (Invalid "APP_ENV" ("unsupported value " +:+ value)).

Record ApiConfig := mkApiConfig {
  ac_app_env : AppEnv;
  ac_bind_addr : SocketAddr;
  ac_database_url : string;
  ac_redis_url : string;
  ac_engine_addr : SocketAddr;
  ac_jwt_secret : string;
  (** In seconds. *)
  ac_access_token_ttl : Z;
  ac_mfa_token_ttl : Z;
  ac_refresh_token_ttl : Z;
  ac_pgcrypto_key : string;
  ac_faucet_enabled : bool;
  ac_otlp_endpoint : option string;
}.

Definition parse_u16 : string -> string -> result ConfigError Z := parse_number U16_MAX.

(** [value.eq_ignore_ascii_case("true")]. *)
Definition is_true (value : string) : bool := bool_decide (map_string ascii_lower value = "true").

Definition api_from_env : result ConfigError ApiConfig :=
  (let? app_env := parse_app_env (default "development" (optional "APP_ENV")) in
   let api_host := default "127.0.0.1" (optional "API_HOST") in
   let? api_port := parse_u16 "API_PORT" (default "8080" (optional "API_PORT")) in
   let engine_host := default "127.0.0.1" (optional "ENGINE_HOST") in
   let? engine_port := parse_u16 "ENGINE_PORT" (default "7878" (optional "ENGINE_PORT")) in
   let? jwt_secret := required "JWT_SECRET" in
   if bool_decide (app_env = Production) && (String.length jwt_secret <? 32)%nat
   then Err (Invalid "JWT_SECRET" "must be at least 32 bytes in production")
   else
   let redis_url := default "redis://127.0.0.1:6379" (optional "REDIS_URL") in
   let pgcrypto_key := default "dev-insecure-key" (optional "PGCRYPTO_KEY") in
   let faucet_enabled :=
     match optional "FAUCET_ENABLED" with None => true | Some v => is_true v end in
   let otlp_endpoint := optional "OTLP_ENDPOINT" in
   let? api_ip := parse_ip "API_HOST" api_host in
   let? database_url := required "DATABASE_URL" in
   let? engine_ip := parse_ip "ENGINE_HOST" engine_host in
   Ok (mkApiConfig app_env (mkSocketAddr api_ip api_port) database_url redis_url
         (mkSocketAddr engine_ip engine_port) jwt_secret (15 * 60) (5 * 60) (720 * 3600)
         pgcrypto_key faucet_enabled otlp_endpoint))%rust.

(** What [main] of the API hands to the auth service. *)
Definition token_config_of (c : ApiConfig) : TokenConfig :=
  mkTokenConfig (ac_jwt_secret c) (ac_access_token_ttl c) (ac_mfa_token_ttl c)
    (ac_refresh_token_ttl c).

(** ** Settlement and market data *)

(** [parse_ms] and [parse_u16] of these two services. *)
Definition parse_or (max : Z) (name : string) (dflt : Z) : result ConfigError Z :=
  match optional name with None => Ok dflt | Some v => parse_number max name v end.
Definition parse_ms : string -> Z -> result ConfigError Z := parse_or U64_MAX.
Definition parse_port : string -> Z -> result ConfigError Z := parse_or U16_MAX.

(** Times in milliseconds. *)
Record SettlementConfig := mkSettlementConfig {
  sc_database_url : string;
  sc_engine_addr : SocketAddr;
  sc_bridge_reconnect_interval : Z;
  sc_poll_interval : Z;
  sc_otlp_endpoint : option string;
}.

Definition settlement_from_env : result ConfigError SettlementConfig :=
  (let? poll_ms :=
     match optional "SETTLEMENT_POLL_INTERVAL_MS" with
     | None => Ok 250%Z
     | Some value => parse_number U64_MAX "SETTLEMENT_POLL_INTERVAL_MS" value
     end in
   let? database_url := required "DATABASE_URL" in
   let? engine_ip := parse_ip "ENGINE_HOST" (default "127.0.0.1" (optional "ENGINE_HOST")) in
   let? engine_port := parse_port "ENGINE_PORT" 7878 in
   let? reconnect := parse_ms "SETTLEMENT_BRIDGE_RECONNECT_MS" 500 in
   Ok (mkSettlementConfig database_url (mkSocketAddr engine_ip engine_port) reconnect poll_ms
         (optional "OTLP_ENDPOINT")))%rust.

Record MarketDataConfig := mkMarketDataConfig {
  mc_database_url : string;
  mc_engine_addr : SocketAddr;
  mc_engine_timeout : Z;
  mc_quote_refresh_interval : Z;
  mc_stale_after : Z;
  mc_otlp_endpoint : option string;
}.

Definition market_data_from_env : result ConfigError MarketDataConfig :=
  (let? database_url := required "DATABASE_URL" in
   let? engine_ip := parse_ip "ENGINE_HOST" (default "127.0.0.1" (optional "ENGINE_HOST")) in
   let? engine_port := parse_port "ENGINE_PORT" 7878 in
   let? engine_timeout := parse_ms "MARKET_DATA_ENGINE_TIMEOUT_MS" 200 in
   let? refresh := parse_ms "MARKET_DATA_QUOTE_REFRESH_MS" 2000 in
   let? stale := parse_ms "MARKET_DATA_STALE_AFTER_MS" 30000 in
   Ok (mkMarketDataConfig database_url (mkSocketAddr engine_ip engine_port) engine_timeout
         refresh stale (optional "OTLP_ENDPOINT")))%rust.

(** ** The engine *)

Record EngineServerConfig := mkEngineServerConfig {
  ec_bind_addr : SocketAddr;
  ec_command_wal_path : string;
  ec_event_log_path : string;
  ec_snapshot_depth : nat;
}.

Definition engine_default : EngineServerConfig :=
  mkEngineServerConfig (mkSocketAddr LOCALHOST 7878) "engine.wal" "engine-events.wal" 50.

Definition engine_bind_addr : option SocketAddr :=
  host ← env "ENGINE_HOST";
  let port := default 7878%Z
    (v ← env "ENGINE_PORT"; match parse_unsigned U16_MAX v with Ok n => Some n | Err _ => None end) in
  let ip := default LOCALHOST (parse_ip_addr host) in
  Some (mkSocketAddr ip port).

(** The configuration [main] of the engine starts the server with. *)
Definition engine_config : EngineServerConfig :=
  match engine_bind_addr with
  | Some bind_addr => mkEngineServerConfig bind_addr (ec_command_wal_path engine_default)
      (ec_event_log_path engine_default) (ec_snapshot_depth engine_default)
  | None => engine_default
  end.

(** [main] of the engine, up to the loop of the server. *)
Definition engine_start {D Ch Rx} {dops : DecimalOps D} {wcodec : Codec (WalEntry D)}
    {ecodec : Codec (SequencedEngineEvent D)} {bc : BroadcastOps (SequencedEngineEvent D) Ch Rx}
    (fuel : nat) (files : string -> option bytes) (quota_w quota_e : list nat)
    : result StartError (Server D Wal Ch Rx) :=
  run_listener fuel (is_loopback (sa_ip (ec_bind_addr engine_config)))
    (files (ec_command_wal_path engine_config)) (files (ec_event_log_path engine_config))
    quota_w quota_e (ec_snapshot_depth engine_config).
End Environment.

(** ** Numbers and addresses are read back *)

Lemma digit_nonneg c d : digit c = Some d -> (0 <= d)%Z.
Proof. unfold digit. destruct (_ && _) eqn:E; [|done]. intros [= <-]. lia. Qed.

Lemma digits_le s acc n : digits acc s = Some n -> (0 <= acc)%Z -> (acc <= n)%Z.
Proof.
  revert acc. induction s as [|c s IH]; intros acc; cbn [digits]; [intros [= ->]; lia|].
  destruct (digit c) as [d|] eqn:Ed; [|done]. apply digit_nonneg in Ed.
  intros H Ha. apply IH in H; lia.
Qed.

Lemma unsigned_loop_digits max s acc n :
  digits acc s = Some n -> (0 <= acc)%Z -> (n <= max)%Z -> unsigned_loop max acc s = Ok n.
Proof.
  revert acc. induction s as [|c s IH]; intros acc; cbn [digits unsigned_loop]; [by intros [= ->]|].
  destruct (digit c) as [d|] eqn:Ed; [|done]. apply digit_nonneg in Ed. intros H Ha Hn.
  pose proof (digits_le _ _ _ H ltac:(lia)) as Hle.
  replace (max <? acc * 10 + d)%Z with false by lia. apply IH; [done|lia|done].
Qed.

Lemma unsigned_loop_bounds max s acc n :
  unsigned_loop max acc s = Ok n -> (0 <= acc <= max)%Z -> (0 <= n <= max)%Z.
Proof.
  revert acc. induction s as [|c s IH]; intros acc; cbn [unsigned_loop]; [intros [= ->]; lia|].
  destruct (digit c) as [d|] eqn:Ed; [|done]. apply digit_nonneg in Ed.
  destruct (max <? acc * 10 + d)%Z eqn:E; [done|]. intros H Ha. apply IH in H; lia.
Qed.

(** Without a leading plus the text is read digit by digit. *)
Lemma parse_unsigned_digits max s n :
  s <> "" -> digits 0 s = Some n -> (n <= max)%Z -> parse_unsigned max s = Ok n.
Proof.
  intros Hs Hd Hn. destruct s as [|c s]; [done|].
  assert (digit "+"%char = None) as Hp by done.
  destruct (ascii_dec c "+"%char) as [->|Hc]; [cbn [digits] in Hd; by rewrite Hp in Hd|].
  assert (parse_unsigned max (String c s) = unsigned_loop max 0 (String c s)) as ->.
  { destruct c as [[] [] [] [] [] [] [] []]; try reflexivity; done. }
  by apply unsigned_loop_digits.
Qed.

(** A number of the type is read back from its text, and nothing else is read. *)
Lemma parse_unsigned_text max (n : N) :
  (Z.of_N n <= max)%Z -> parse_unsigned max (pretty n) = Ok (Z.of_N n).
Proof.
  intros Hn. apply parse_unsigned_digits; [apply pretty_N_nonempty|apply digits_pretty|done].
Qed.

Lemma parse_unsigned_bounds max s n :
  (0 <= max)%Z -> parse_unsigned max s = Ok n -> (0 <= n <= max)%Z.
Proof.
  intros Hm H. assert (exists s', unsigned_loop max 0 s' = Ok n) as [s' Hs].
  { unfold parse_unsigned in H. repeat case_match; simplify_eq; eauto. }
  by apply unsigned_loop_bounds in Hs.
Qed.

Lemma read_octet_text (a : N) (rest : string) :
  (a <= 255)%N -> rest = "" \/ (exists r, rest = String "." r) ->
  read_number 10 255 3 false (pretty a +:+ rest) = Some (Z.of_N a, rest).
Proof.
  intros Ha Hr.
  assert (a ∈ (N.of_nat <$> seq 0 256)) as Hin.
  { apply list_elem_of_fmap. exists (N.to_nat a). rewrite N2Nat.id. split; [done|].
    apply elem_of_seq. lia. }
  clear Ha. revert a Hin. apply Forall_forall. destruct Hr as [->|[r ->]]; repeat constructor.
Qed.

Definition ipv4_text (a b c d : N) : string :=
  pretty a +:+ String "." (pretty b +:+ String "." (pretty c +:+ String "." (pretty d +:+ ""))).

Lemma parse_ip_text a b c d :
  (a <= 255)%N -> (b <= 255)%N -> (c <= 255)%N -> (d <= 255)%N ->
  parse_ip_addr (ipv4_text a b c d) =
    Some (IpV4 (Z.of_N a) (Z.of_N b) (Z.of_N c) (Z.of_N d)).
Proof.
  intros Ha Hb Hc Hd. unfold parse_ip_addr, read_ipv4_addr, ipv4_text, read_octet, read_separator.
  rewrite read_octet_text by eauto. cbn. rewrite read_octet_text by eauto. cbn.
  rewrite read_octet_text by eauto. cbn. by rewrite read_octet_text by eauto.
Qed.

Example addresses :
  parse_ip_addr "127.0.0.1" = Some LOCALHOST /\
  parse_ip_addr "::1" = Some (IpV6 [0; 0; 0; 0; 0; 0; 0; 1]%Z) /\
  parse_ip_addr "fe80::1:ffff" = Some (IpV6 [65152; 0; 0; 0; 0; 0; 1; 65535]%Z) /\
  parse_ip_addr "::ffff:10.0.0.1" = Some (IpV6 [0; 0; 0; 0; 0; 65535; 2560; 1]%Z) /\
  parse_ip_addr "1:2:3:4:5:6:7:8" = Some (IpV6 [1; 2; 3; 4; 5; 6; 7; 8]%Z) /\
  parse_ip_addr "256.0.0.1" = None /\ parse_ip_addr "01.2.3.4" = None /\
  parse_ip_addr "1.2.3" = None /\ parse_ip_addr "1:2:3:4:5:6:7" = None /\
  parse_ip_addr "1::2::3" = None /\ parse_ip_addr "localhost" = None /\
  parse_ip_addr " 127.0.0.1" = None.
Proof. vm_compute. done. Qed.

(** ** The services and the engine meet *)

Lemma res_bind_Ok {E A B} (r : result E A) (f : A -> result E B) b :
  res_bind r f = Ok b -> exists a, r = Ok a /\ f a = Ok b.
Proof. destruct r; [eauto|done]. Qed.

(** Goes through the steps of a configuration that was read. *)
Ltac read_steps H :=
  repeat (let E := fresh "E" in apply res_bind_Ok in H as (? & E & H)).

(** The characters a blank text may start with. *)
Definition blank_start (c : ascii) : bool :=
  bool_decide (N_of_ascii c ∈ [9; 10; 11; 12; 13; 32; 194; 225; 226; 227]%N).

Lemma blank_head c s : trim (String c s) = "" -> blank_start c = true.
Proof.
  unfold trim. change (codes (String c s)) with (N_of_ascii c :: codes s). generalize (codes s).
  intros l. destruct (blank_start c) eqn:Eb; [done|].
  assert (trim_start (N_of_ascii c :: l) = N_of_ascii c :: l /\
    blank_codes (N_of_ascii c :: l) = false) as [-> E].
  { destruct c as [[] [] [] [] [] [] [] []]; first [discriminate Eb|split; reflexivity]. }
  cbn [trim_end]. by rewrite E.
Qed.

Lemma blank_not_number max v n : trim v = "" -> parse_unsigned max v <> Ok n.
Proof.
  destruct v as [|c s]; [done|]. intros H%blank_head.
  destruct c as [[] [] [] [] [] [] [] []]; try discriminate H; done.
Qed.

Lemma blank_not_address v ip : trim v = "" -> parse_ip_addr v <> Some ip.
Proof.
  destruct v as [|c s]; [done|]. intros H%blank_head.
  destruct c as [[] [] [] [] [] [] [] []]; try discriminate H; done.
Qed.

Section Meet.
Context (env : string -> option string).

(** Where the three services look for the engine. *)
Definition service_host : result ConfigError IpAddr :=
  parse_ip "ENGINE_HOST" (default "127.0.0.1" (optional env "ENGINE_HOST")).

Lemma optional_cases name :
  (exists v, env name = Some v /\ optional env name = Some v) \/
  (optional env name = None /\ forall v, env name = Some v -> trim v = "").
Proof.
  unfold optional. destruct (env name) as [v|]; cbn; [|by right].
  case_bool_decide as H; [right; split; [done|by intros ? [= <-]]|left; eauto].
Qed.

Lemma host_meets host ip :
  env "ENGINE_HOST" = Some host -> service_host = Ok ip ->
  ip = default LOCALHOST (parse_ip_addr host).
Proof.
  unfold service_host. intros He H.
  assert (parse_ip "ENGINE_HOST" host = Ok ip -> ip = default LOCALHOST (parse_ip_addr host)) as Hp.
  { unfold parse_ip. destruct (parse_ip_addr host); [by injection 1|].
    case_bool_decide; [by injection 1|done]. }
  destruct (optional_cases "ENGINE_HOST") as [(v & Hv & E)|[E Hb]]; rewrite E in H.
  - assert (v = host) as -> by congruence. by apply Hp.
  - injection H as <-. specialize (Hb _ He).
    destruct (parse_ip_addr host) eqn:Ea; [by apply blank_not_address in Ea|done].
Qed.

Definition engine_port : Z := default 7878%Z
  (v ← env "ENGINE_PORT"; match parse_unsigned U16_MAX v with Ok n => Some n | Err _ => None end).

Lemma port_meets n : parse_port env "ENGINE_PORT" 7878 = Ok n -> n = engine_port.
Proof.
  unfold parse_port, parse_or, parse_number, engine_port.
  destruct (optional_cases "ENGINE_PORT") as [(v & Hv & ->)|[-> Hb]].
  - rewrite Hv. cbn. by destruct (parse_unsigned U16_MAX v); intros [= <-].
  - intros [= <-]. destruct (env "ENGINE_PORT") as [v|]; [|done]. cbn.
    destruct (parse_unsigned U16_MAX v) eqn:E; [|done].
    by apply blank_not_number in E; [|apply Hb].
Qed.

(** The API reads the port in its own words. *)
Lemma api_port n :
  parse_u16 "ENGINE_PORT" (default "7878" (optional env "ENGINE_PORT")) = Ok n ->
  parse_port env "ENGINE_PORT" 7878 = Ok n.
Proof. unfold parse_port, parse_or, parse_u16. by destruct (optional env "ENGINE_PORT"). Qed.

Lemma engine_config_addr host :
  env "ENGINE_HOST" = Some host ->
  ec_bind_addr (engine_config env) =
    mkSocketAddr (default LOCALHOST (parse_ip_addr host)) engine_port.
Proof. intros He. unfold engine_config, engine_bind_addr. by rewrite He. Qed.

(** Every service that starts looks for the engine where it listens, provided
    ENGINE_HOST is set, to whatever text. *)
Theorem services_find_the_engine host :
  env "ENGINE_HOST" = Some host ->
  let addr := ec_bind_addr (engine_config env) in
  (forall c, api_from_env env = Ok c -> ac_engine_addr c = addr) /\
  (forall c, settlement_from_env env = Ok c -> sc_engine_addr c = addr) /\
  (forall c, market_data_from_env env = Ok c -> mc_engine_addr c = addr).
Proof.
  intros He. cbv zeta. rewrite (engine_config_addr host He).
  assert (forall ip n, service_host = Ok ip -> parse_port env "ENGINE_PORT" 7878 = Ok n ->
    mkSocketAddr ip n = mkSocketAddr (default LOCALHOST (parse_ip_addr host)) engine_port) as Hm.
  { intros ip n H1 H2. by rewrite (host_meets host ip He H1), (port_meets n H2). }
  split_and!; intros c H.
  - unfold api_from_env in H. cbv zeta in H.
    read_steps H.
    destruct (_ && _); [done|].
    read_steps H.
    simplify_eq. cbn. eauto using api_port.
  - unfold settlement_from_env in H.
    read_steps H. simplify_eq. eauto.
  - unfold market_data_from_env in H.
    read_steps H. simplify_eq. eauto.
Qed.

(** In production the secret of the tokens is long enough. *)
Lemma production_secret c :
  api_from_env env = Ok c -> ac_app_env c = Production ->
  (32 <= String.length (ac_jwt_secret c))%nat.
Proof.
  unfold api_from_env. cbv zeta. intros H Hp.
  read_steps H.
  destruct (_ && _) eqn:Es; [done|].
  read_steps H.
  injection H as <-. cbn [ac_app_env ac_jwt_secret] in *. subst.
  rewrite bool_decide_true, andb_true_l in Es by done. by apply Nat.ltb_ge in Es.
Qed.
End Meet.

(** ** What can go wrong *)

Definition sample_env (vars : list (string * string)) : string -> option string :=
  fun name => (list_to_map vars : gmap string string) !! name.

(** Only the two variables without a default. *)
Definition bare : list (string * string) := [("JWT_SECRET", "secret"); ("DATABASE_URL", "db")].

Example defaults :
  api_from_env (sample_env bare) =
    Ok (mkApiConfig Development (mkSocketAddr LOCALHOST 8080) "db" "redis://127.0.0.1:6379"
          (mkSocketAddr LOCALHOST 7878) "secret" 900 300 2592000 "dev-insecure-key" true None) /\
  settlement_from_env (sample_env bare) =
    Ok (mkSettlementConfig "db" (mkSocketAddr LOCALHOST 7878) 500 250 None) /\
  market_data_from_env (sample_env bare) =
    Ok (mkMarketDataConfig "db" (mkSocketAddr LOCALHOST 7878) 200 2000 30000 None) /\
  api_from_env (sample_env []) = Err (Missing "JWT_SECRET") /\
  api_from_env (sample_env (("API_PORT", "65536") :: bare)) =
    Err (Invalid "API_PORT" "number too large to fit in target type") /\
  api_from_env (sample_env (("APP_ENV", "production") :: bare)) =
    Err (Invalid "JWT_SECRET" "must be at least 32 bytes in production").
Proof. vm_compute. done. Qed.

(** A port without a host moves the services and not the engine. *)
Example the_port_alone_parts_them :
  let env := sample_env (("ENGINE_PORT", "9000") :: bare) in
  ec_bind_addr (engine_config env) = mkSocketAddr LOCALHOST 7878 /\
  res_map sc_engine_addr (settlement_from_env env) = Ok (mkSocketAddr LOCALHOST 9000).
Proof. vm_compute. done. Qed.

(** In production, with a long enough secret, the key that encrypts the other secrets may
    still be the one everybody knows, and the faucet is on. *)
Example production_keeps_the_known_key :
  let env := sample_env [("APP_ENV", "production"); ("DATABASE_URL", "db");
               ("JWT_SECRET", "0123456789abcdef0123456789abcdef")] in
  res_map (fun c => (ac_pgcrypto_key c, ac_faucet_enabled c)) (api_from_env env) =
    Ok ("dev-insecure-key", true).
Proof. vm_compute. done. Qed.

(** The engine does not start on the address a deployment gives it. *)
Example deployed_engine_stays_down {D Ch Rx} {dops : DecimalOps D}
    {wcodec : Codec (WalEntry D)} {ecodec : Codec (SequencedEngineEvent D)}
    {bc : BroadcastOps (SequencedEngineEvent D) Ch Rx} files quota_w quota_e :
  engine_start (Ch := Ch) (Rx := Rx) (D := D) (sample_env [("ENGINE_HOST", "0.0.0.0")]) 60 files
    quota_w quota_e = Err NonLoopbackBind.
Proof. reflexivity. Qed.

(** The host name the deployment of settlement and market data gives the engine. *)
Example a_host_name_is_refused :
  let env := sample_env (("ENGINE_HOST", "aether-engine.internal") :: bare) in
  let refused := Invalid "ENGINE_HOST" "must be an IP address or localhost" in
  settlement_from_env env = Err refused /\ market_data_from_env env = Err refused /\
  api_from_env env = Err refused.
Proof. vm_compute. done. Qed.
